(* ===== verification/_CoqProject ===== *)
-Q . S2P
Prelude.v
Pmm.v
PmmFacts.v
PmmScan.v
PmmSys.v
PmmBoot.v
PmmProps.v
Errno.v
Bytes.v
Route.v
Ring.v
Channel.v
ChannelSys.v
ChannelProps.v
MsgQueue.v
MsgKeys.v
MsgInv.v
MsgProps.v
Words.v
Dll.v
Heap.v
HeapFacts.v
HeapInv.v
HeapOps.v
HeapShrink.v
HeapProps.v
HeapLive.v
Kmalloc.v
KmallocMem.v
Slab.v
SlabInv.v
SlabSteps.v
SlabGrow.v
SlabOps.v
SlabAlloc.v
SlabFree.v
SlabCreate.v
SlabProps.v
SlabSpec.v
KmallocInv.v
KmallocProps.v
CString.v
CStringMem.v
CStringStr.v
CStringProps.v
Format.v
FormatProps.v
KmallocBytes.v
Bpf.v
Seccomp.v
SeccompInv.v
SeccompProps.v
Capability.v
CapabilityProps.v
Links.v
Pcb.v
Sched.v
WaitObj.v
Lifecycle.v
Futex.v
SchedSys.v
SchedInv.v
SchedQueue.v
SchedOps.v
SchedReady.v
SchedPick.v
SchedWait.v
SchedWake.v
SchedBlock.v
SchedRank.v
SchedCalls.v
SchedFutex.v
SchedLife.v
SchedEvents.v
SchedWaitpid.v
SchedTrace.v
SchedProps.v
Sha256.v
Signature.v
SignatureProps.v
