(* ===== verification/Prelude.v ===== *)
(** * AutomationOS kernel: a verification library

    AutomationOS is an operating system for x86_64 written in C.  This library
    models the parts of its kernel listed below and proves what their clients
    rely on.  Every definition that stands for code is an executable function
    translated from the source, and the examples beside the properties evaluate
    them.

    ** The program and its parts

    - [kernel/core/mem/pmm.c] hands out physical page frames.
    - [kernel/core/mem/slab.c] cuts pages from it into objects of one size.
    - [kernel/core/mem/heap.c] serves [kmalloc]: small requests go to slab
      caches, the others to a heap of blocks that grows by mapping pages.
    - [kernel/ipc/channel.c] connects processes by pairs of byte rings, reached
      through handles with rights that can be granted to another process.
    - [kernel/ipc/msgqueue.c] implements System V message queues on [kmalloc].
    - [kernel/net/route.c] is the IPv4 routing table.
    - [kernel/lib/string.c] is the kernel's C library: block copies, strings
      and [vsnprintf].
    - [kernel/core/sched] has the run queues, the processes and their reference
      counts, and the wait objects ([waitqueue.c]) that block and wake them.
      [core/syscall/futex.c] and the calls of [core/syscall/handlers.c] block on
      wait objects, [drivers/pit.c] ends sleeps, and [core/signal/kill.c] stops,
      continues and terminates processes.
    - [kernel/security/seccomp] restricts the system calls of a process by
      programs of a small filter language.
    - [kernel/core/capability] decides which files, addresses, devices and
      processes a process may use.
    - [kernel/crypto] hashes data and checks signatures under a ring of trusted
      keys; [kernel/module/mod_sig.c] applies it to kernel modules.

    ** Files

    Shared: [Prelude] (machine words, alignment, bit scans, lists), [Errno]
    (kernel/include/errno.h), [Bytes] (little-endian layout, sums), [Words]
    (memory as a map from addresses to values, record fields as offsets), [Dll]
    (intrusive doubly-linked lists in that memory).

    Page frames: [Pmm] is the model, one definition per section of code between
    taking and dropping a lock, and the functions as their composition.
    [PmmFacts] and [PmmScan] specify the scans, [PmmSys] interleaves the
    sections of any number of operations on eight processors as a step relation
    with its invariant, [PmmBoot] is the population of the bitmap, [PmmProps]
    the theorems.  State: the record [pmm_state] (bitmap, hint, caches,
    counters).

    Routing table: [Route], a table of slots and the finite map it refines.

    Channels: [Ring] (the byte ring and the queue it refines), [Channel] (two
    rings, streams and message frames), [ChannelSys] (handles, grants, staged
    bindings, reference counts, system calls), [ChannelProps] (theorems).

    Message queues: [MsgQueue] (model), [MsgKeys] (the hash table of keys),
    [MsgInv] (chains and tables), [MsgProps] (reachable states, theorems).
    [msgget] is two steps, as it drops its lock in the middle.

    Heap: [Heap] (model; a block header is five words of the shared memory),
    [HeapFacts], [HeapInv] (representation of a list of cells), [HeapOps] and
    [HeapShrink] (each operation on the cells), [HeapProps] (theorems),
    [HeapLive] (the same for the clients of the heap).

    Slabs: [Slab] (model; page headers and free lists are words of the same
    memory, cache control blocks a record), [SlabInv] (representation),
    [SlabSteps], [SlabGrow], [SlabOps], [SlabAlloc], [SlabFree], [SlabCreate]
    (each operation), [SlabProps] (theorems).

    kmalloc: [Kmalloc] is the public interface over the class [SlabOps];
    [SlabSpec] states in the class [SlabLaws] what heap.c needs of a slab
    allocator and shows that [Slab] provides it; [KmallocMem] (copying words),
    [KmallocInv] (both allocators at once, proved against [SlabLaws] only),
    [KmallocProps] (theorems).

    Strings: [CString] (model on a byte memory), [CStringMem] (copies and
    fills), [CStringStr] (strings as lists), [CStringProps] (theorems),
    [Format] ([vsnprintf]), [FormatProps] (its theorems).  Heap and slab memory
    is a map of words, and [Kmalloc] reads [memcpy] and [memset] on words;
    [KmallocBytes] shows that this agrees with the byte-level code.

    System call filters: [Bpf] (the language, [bpf_validate] and the
    interpreter of filter.c), [Seccomp] (chains of filters, their reference
    counts, installation and enforcement), [SeccompInv], [SeccompProps].

    Capabilities: [Capability] (sets with their counter, mask and generation,
    the checks, grants, delegation and inheritance), [CapabilityProps].

    Signatures: [Sha256] (sha256.c, the function of FIPS 180-4 with its
    constants computed from the roots of primes, and that they agree),
    [Signature] (rsa.c, verify.c and mod_sig.c), [SignatureProps] (what the
    arithmetic on byte arrays computes, and the theorems).

    Scheduling.  The models: [Links] (linked lists threaded through records),
    [Pcb] (the process control block of sched.h and its fields), [Sched]
    (scheduler.c: the two arrays of ready queues with their bit maps, picking,
    [schedule], [scheduler_yield], references), [WaitObj] (waitqueue.c and the
    timer of pit.c), [Lifecycle] (process.c, kill.c, nice.c and the system calls
    of handlers.c), [Futex] (futex.c), [SchedSys] (the events of the running
    system).  State: the record [state] (processes by address, run queues, wait
    objects, process table, sleep list, clock).  A freed process leaves the map,
    so every later access to it fails.  A blocking call does not return to its
    caller: it ends either switched out or halted in the idle loop, the process
    remembers which call it is in, and the events [Turn] and [Resume] run the
    rest of the call when it halts no longer or has the processor again.
    The proofs: [SchedInv] (the invariant, over a ghost [view] with the contents
    of every list, and a total weakest precondition), [SchedQueue], [SchedOps],
    [SchedReady], [SchedPick] (run queues, the choice of a process, switches),
    [SchedWait], [SchedWake], [SchedBlock] (wait objects), [SchedRank] (how long
    a ready process waits), [SchedCalls], [SchedFutex], [SchedLife],
    [SchedEvents], [SchedWaitpid] (each call), [SchedTrace] (start-up, reachable
    states, and functions that read the lists back from the links), [SchedProps]
    (theorems).

    ** What the theorems show

    - C1 to C5, page frames: no frame has two owners and none is lost under any
      interleaving; the contracts of allocation and free.  C3 and C5 include the
      cases where NULL is returned although frames are free.
    - C6 and C7, routing: insertion, and lookup of the matching route with the
      most one bits in its mask, against a finite map.
    - C8 to C10, channels: exact reference counts in every reachable state,
      rings as queues, and what each right of a handle allows and confines.
    - C11 to C16, scheduling: in every reachable state the lists, bit maps,
      flags and reference counts agree and every event is defined; a ready
      process does not starve; the choice of the next process; futex waits and
      wakes; sleeps end when they are due.
    - C17 and C18, message queues: sending and receiving for all arguments, with
      failing copies and allocations.
    - C19 to C21, heap: blocks in use are disjoint after any sequence of
      requests and writes by their owners; contracts of allocation and free.
    - C22 to C24, slabs: the same for objects, with every refusal of a bad free
      and the pages that are given back.
    - C25 to C27, kmalloc, kfree and kcalloc: blocks of both allocators together,
      with contents, errors and panics.
    - C28 and C29, strings: the optimised copies equal byte copies, and the
      exact extent of every write.
    - C30 to C32, formatting: bounds, termination and numbers that read back.
    - C33 to C35, system call filters: a validated program runs to a result; the
      verdict of a chain; no call can widen what a process may do.
    - C36 and C37, capabilities: what each check accepts, and that delegation and
      inheritance only attenuate.
    - C38 to C40, signatures: the digest is that of the standard for every way to
      cut the message; the exact set of modules that are accepted; and a module
      that is accepted under every key, because the arithmetic is not RSA.
    Further theorems, without a number, cover route deletion, frames as whole
    messages, grants that can be accepted once, message queue look-up and
    limits, heap shrinking and the bin search, creation of slab caches, string
    readers, [krealloc] and its agreement with string.c, the page
    frames free after boot, path patterns and revoked keys.

    ** Modelling choices and bounds

    A [uintN_t] is a [Z] in its range, with wrap-around written out; pointers
    are addresses and NULL is 0.  Memory shared by live and stale structures is
    one store, so that aliasing has to be excluded by proof.  What another part
    of the system answers (user copies, the clock, credentials, the pages the
    frame allocator grants to heap and slabs, the word a futex waits on) is an
    argument.  A kernel panic, and an access to a freed process, is [None].

    Loops that do not follow a list run on fuel.  It is the bound of the C loop
    where there is one (table sizes of 16, 256 and 512, the bits of a word) and
    otherwise one more than the number of words, bytes or processes in memory,
    which bounds every list and string in it: the invariants imply that lists
    have no cycles, and the contracts state the result of the operation, so a
    loop that stopped early would contradict them.  The loop that reduces modulo
    a key has one more than the number of times the key fits into its length.
    C31 states termination outright for formats, where no invariant is assumed.

    Executions of the scheduler have fewer than 2^31 events, since every event
    may take a reference and the counts are 32 bits wide.  A ready process is
    served within 5653 offers of the processor: there are at most 256
    processes, and each yields at most ten times on its boost before it
    expires.
    Signals are sent to neither the idle thread nor a process in [sys_sleep];
    [killed_sleeper_dangles] in [SchedProps] evaluates what happens otherwise.

    ** Not modelled

    - Console output, statistics, self-tests and benchmarks of the modelled
      files.
    - Locks are atomicity of the code they protect.  Interleaving is modelled
      for page frames, [msgget] and the calls that block; slab and heap calls
      are one step each, although [slab_grow] drops its lock around the page
      allocation.
    - Scheduling is that of the default build: one processor, with switches only
      where the kernel asks for them, since [scheduler_tick] is empty there.  The
      preemptive and multiprocessor builds, threads, the registers that a switch
      saves, and the delivery of a signal to a handler are left out.
    - Paging, interrupts, drivers and the architecture layer work on hardware
      state.  File systems, the rest of the network stack, mandatory access
      control, name spaces, terminals, the loaders and user space are not
      translated. *)

(** * Shared prelude

    Machine-width integers, alignment, bit scans and the generic list facts the
    components share.  The kernel is C for x86_64: a [uintN_t] is a [Z] kept in
    [0, 2^N) and every arithmetic operation that can wrap is written with its
    wrap ([u64], [u32], ...); bit operations are those of [Z]. *)

From Stdlib Require Export ZArith Lia.
From stdpp Require Export base option numbers gmap sets.
From stdpp Require Export list.

Declare Scope kernel_scope.
Delimit Scope kernel_scope with K.
#[global] Open Scope Z_scope.

Create HintDb kbits.
Create HintDb klia.
Create HintDb pmm.

(** ** Machine words *)

Definition u8 (x : Z) : Z := x mod 2 ^ 8.
Definition u16 (x : Z) : Z := x mod 2 ^ 16.
Definition u32 (x : Z) : Z := x mod 2 ^ 32.
Definition u64 (x : Z) : Z := x mod 2 ^ 64.

(** Conversion to a signed width: the two's complement reading. *)
Definition i32 (x : Z) : Z := (x + 2 ^ 31) mod 2 ^ 32 - 2 ^ 31.
Definition i64 (x : Z) : Z := (x + 2 ^ 63) mod 2 ^ 64 - 2 ^ 63.

(** Bitwise complement at width 64, the C operator [~] on a [uint64_t]. *)
Definition not64 (x : Z) : Z := Z.lxor (Z.ones 64) x.

(** [ALIGN_UP] and [ALIGN_DOWN] of kernel/include/types.h on a [uint64_t]. *)
Definition ALIGN_UP (x align : Z) : Z := Z.land (u64 (x + align - 1)) (not64 (align - 1)).
Definition ALIGN_DOWN (x align : Z) : Z := Z.land x (not64 (align - 1)).

(** [__builtin_ctzll] on a non-zero word: the index of the lowest set bit. *)
Fixpoint ctz_pos (p : positive) : Z :=
  match p with
  | xO q => 1 + ctz_pos q
  | _ => 0
  end.

Definition ctzll (x : Z) : Z :=
  match x with
  | Zpos p => ctz_pos p
  | _ => 0
  end.

(** A counted loop: [iterate n f s] runs [s = f i s] for [i = 0 .. n-1]. *)
Fixpoint iterate {S : Type} (n : nat) (i : Z) (f : Z → S → S) (s : S) : S :=
  match n with
  | O => s
  | S n' => iterate n' (i + 1) f (f i s)
  end.

Notation "'for' i '<' n 'from' s 'do' b" :=
  (iterate (Z.to_nat n) 0 (λ i, b) s)
  (at level 200, i name, n at level 60, s at level 60, b at level 200) : kernel_scope.

(** ** Tactics *)

(** Case analysis on the comparison a model tests, leaving arithmetic facts. *)
Ltac zcase :=
  match goal with
  | |- context [?a =? ?b] => destruct (Z.eqb_spec a b)
  | |- context [?a <? ?b] => destruct (Z.ltb_spec a b)
  | |- context [?a <=? ?b] => destruct (Z.leb_spec a b)
  | |- context [bool_decide ?P] => destruct (bool_decide_reflect P)
  end.

Ltac zcase_in H :=
  match type of H with
  | context [?a =? ?b] => destruct (Z.eqb_spec a b)
  | context [?a <? ?b] => destruct (Z.ltb_spec a b)
  | context [?a <=? ?b] => destruct (Z.leb_spec a b)
  end.

(** Linear arithmetic that also knows [/] and [mod] by constants. *)
Ltac divlia := Z.div_mod_to_equations; lia.

(** ** Words: bounds *)

Lemma u64_small x : 0 ≤ x < 2 ^ 64 → u64 x = x.
Proof. intros; unfold u64; by apply Z.mod_small. Qed.

Lemma i32_small x : - 2 ^ 31 ≤ x < 2 ^ 31 → i32 x = x.
Proof. intros. unfold i32. rewrite Z.mod_small by lia. lia. Qed.

Lemma i64_small x : - 2 ^ 63 ≤ x < 2 ^ 63 → i64 x = x.
Proof. intros. unfold i64. rewrite Z.mod_small by lia. lia. Qed.

Lemma u32_small x : 0 ≤ x < 2 ^ 32 → u32 x = x.
Proof. intros; unfold u32; by apply Z.mod_small. Qed.

Lemma u64_range x : 0 ≤ u64 x < 2 ^ 64.
Proof. apply Z.mod_pos_bound; lia. Qed.

Lemma u32_range x : 0 ≤ u32 x < 2 ^ 32.
Proof. apply Z.mod_pos_bound; lia. Qed.

Lemma u8_range x : 0 ≤ u8 x < 2 ^ 8.
Proof. apply Z.mod_pos_bound; lia. Qed.

#[export] Hint Resolve u64_range u32_range u8_range : klia.

(** ** Bits *)

Lemma testbit_high w n i : 0 ≤ w < 2 ^ n → n ≤ i → Z.testbit w i = false.
Proof.
  intros Hw Hi. destruct (decide (0 ≤ n)) as [Hn|]; [|rewrite Z.pow_neg_r in Hw; lia].
  rewrite <- (Z.mod_small w (2 ^ n)) by done.
  by apply Z.mod_pow2_bits_high.
Qed.

Lemma not64_spec x i : 0 ≤ x < 2 ^ 64 → 0 ≤ i →
  Z.testbit (not64 x) i = (i <? 64) && negb (Z.testbit x i).
Proof.
  intros Hx Hi. unfold not64. rewrite Z.lxor_spec.
  destruct (Z.ltb_spec i 64).
  - rewrite Z.ones_spec_low by lia. by destruct (Z.testbit x i).
  - rewrite Z.ones_spec_high by lia. by rewrite (testbit_high x 64).
Qed.

Lemma bits_bound w n : 0 ≤ n → (∀ i, n ≤ i → Z.testbit w i = false) → 0 ≤ w → w < 2 ^ n.
Proof.
  intros Hn Hb Hw. destruct (Z.eq_dec w 0) as [->|]; [lia|].
  apply Z.log2_lt_pow2; [lia|].
  destruct (Z.lt_ge_cases (Z.log2 w) n) as [|Hge]; [done|].
  pose proof (Z.bit_log2 w ltac:(lia)) as Hbit. rewrite Hb in Hbit; done.
Qed.

Lemma shiftl_1_bit n i : 0 ≤ n → 0 ≤ i → Z.testbit (Z.shiftl 1 n) i = (i =? n).
Proof.
  intros Hn Hi. rewrite Z.shiftl_spec by done.
  destruct (Z.eqb_spec i n) as [->|].
  - by rewrite Z.sub_diag.
  - destruct (decide (i < n)).
    + by rewrite Z.testbit_neg_r by lia.
    + apply (testbit_high 1 1); lia.
Qed.

Lemma shiftl_1_bound n : 0 ≤ n < 64 → 0 ≤ Z.shiftl 1 n < 2 ^ 64.
Proof.
  intros Hn. rewrite Z.shiftl_1_l. split; [apply Z.pow_nonneg; lia|].
  apply Z.pow_lt_mono_r; lia.
Qed.

(** Setting and clearing one bit of a 64-bit word. *)
Lemma lor_bit_spec w n i : 0 ≤ n → 0 ≤ i →
  Z.testbit (Z.lor w (Z.shiftl 1 n)) i = (i =? n) || Z.testbit w i.
Proof.
  intros. rewrite Z.lor_spec, shiftl_1_bit by done. by rewrite orb_comm.
Qed.

Lemma land_not_bit_spec w n i : 0 ≤ n < 64 → 0 ≤ i < 64 →
  Z.testbit (Z.land w (not64 (Z.shiftl 1 n))) i = negb (i =? n) && Z.testbit w i.
Proof.
  intros Hn Hi. rewrite Z.land_spec, not64_spec by (auto using shiftl_1_bound; lia).
  rewrite shiftl_1_bit by lia.
  destruct (Z.ltb_spec i 64); [|lia]. cbn [andb]. by rewrite andb_comm.
Qed.

Lemma lor_bit_range w n : 0 ≤ w < 2 ^ 64 → 0 ≤ n < 64 →
  0 ≤ Z.lor w (Z.shiftl 1 n) < 2 ^ 64.
Proof.
  intros Hw Hn. pose proof (shiftl_1_bound n Hn).
  assert (0 ≤ Z.lor w (Z.shiftl 1 n)) by (apply Z.lor_nonneg; lia).
  split; [done|]. apply bits_bound; [lia| |done].
  intros i Hi. rewrite Z.lor_spec, !(testbit_high _ 64) by lia. done.
Qed.

Lemma land_range_l w m : 0 ≤ w < 2 ^ 64 → 0 ≤ Z.land w m < 2 ^ 64.
Proof.
  intros Hw. assert (0 ≤ Z.land w m) by (apply Z.land_nonneg; lia).
  split; [done|]. apply bits_bound; [lia| |done].
  intros i Hi. rewrite Z.land_spec, (testbit_high w 64) by lia. done.
Qed.

Lemma shiftr_land_1 w i : 0 ≤ i → Z.land (Z.shiftr w i) 1 = Z.b2z (Z.testbit w i).
Proof.
  intros Hi. change 1 with (Z.ones 1). rewrite Z.land_ones by lia.
  rewrite <- (Z.add_0_l i) at 2. rewrite <- Z.shiftr_spec by lia.
  symmetry. apply Z.bit0_mod.
Qed.

(** Clearing the low bits is rounding down; [ALIGN_DOWN] and [ALIGN_UP] round. *)
Lemma land_not_ones w n : 0 ≤ w < 2 ^ 64 → 0 ≤ n < 64 →
  Z.land w (not64 (2 ^ n - 1)) = w / 2 ^ n * 2 ^ n.
Proof.
  intros Hw Hn.
  assert (0 < 2 ^ n) by (apply Z.pow_pos_nonneg; lia).
  assert (2 ^ n ≤ 2 ^ 64) by (apply Z.pow_le_mono_r; lia).
  apply Z.bits_inj'. intros i Hi.
  rewrite Z.land_spec, not64_spec by lia.
  rewrite <- Z.shiftr_div_pow2, <- Z.shiftl_mul_pow2 by lia.
  rewrite Z.shiftl_spec by done.
  replace (2 ^ n - 1) with (Z.ones n) by (rewrite Z.ones_equiv; lia).
  destruct (Z.lt_ge_cases i n).
  - rewrite Z.ones_spec_low, (Z.testbit_neg_r _ (i - n)) by lia.
    by rewrite !andb_false_r.
  - rewrite Z.ones_spec_high, Z.shiftr_spec by lia.
    replace (i - n + n) with i by lia. cbn [negb]. rewrite andb_true_r.
    destruct (Z.ltb_spec i 64); [by rewrite andb_true_r|].
    by rewrite andb_false_r, (testbit_high w 64).
Qed.

Lemma ALIGN_DOWN_4096 x : 0 ≤ x < 2 ^ 64 → ALIGN_DOWN x 4096 = x / 4096 * 4096.
Proof. intros. apply (land_not_ones x 12); lia. Qed.

Lemma ALIGN_UP_4096 x : 0 ≤ x → x + 4095 < 2 ^ 64 →
  ALIGN_UP x 4096 = (x + 4095) / 4096 * 4096.
Proof.
  intros Hx Hb. unfold ALIGN_UP. rewrite u64_small by lia.
  replace (x + 4096 - 1) with (x + 4095) by lia.
  apply (land_not_ones _ 12); lia.
Qed.

Lemma ALIGN_UP_16 x : 0 ≤ x → x + 15 < 2 ^ 64 → ALIGN_UP x 16 = (x + 15) / 16 * 16.
Proof.
  intros Hx Hb. unfold ALIGN_UP. rewrite u64_small by lia.
  replace (x + 16 - 1) with (x + 15) by lia.
  apply (land_not_ones _ 4); lia.
Qed.

(** ** Lowest set bit *)

Lemma ctz_pos_spec p : 0 ≤ ctz_pos p ∧ Z.testbit (Zpos p) (ctz_pos p) = true ∧
  ∀ i, 0 ≤ i < ctz_pos p → Z.testbit (Zpos p) i = false.
Proof.
  induction p as [p IH|p IH|]; cbn [ctz_pos].
  - split_and!; [lia|done|lia].
  - destruct IH as (H0 & H1 & H2). split_and!; [lia| |].
    + rewrite (Pos2Z.inj_xO p), Z.double_bits.
      by replace (Z.pred (1 + ctz_pos p)) with (ctz_pos p) by lia.
    + intros i Hi. rewrite (Pos2Z.inj_xO p), Z.double_bits.
      destruct (Z.eq_dec i 0) as [->|]; [done|]. apply H2; lia.
  - split_and!; [lia|done|lia].
Qed.

Lemma ctzll_spec w : 0 < w → 0 ≤ ctzll w ∧ Z.testbit w (ctzll w) = true ∧
  ∀ i, 0 ≤ i < ctzll w → Z.testbit w i = false.
Proof. intros Hw. destruct w; try lia. apply ctz_pos_spec. Qed.

Lemma ctzll_range w : 0 < w < 2 ^ 64 → 0 ≤ ctzll w < 64.
Proof.
  intros Hw. destruct (ctzll_spec w) as (H0 & H1 & _); [lia|].
  split; [done|]. destruct (Z.lt_ge_cases (ctzll w) 64); [done|].
  rewrite (testbit_high w 64) in H1 by lia. done.
Qed.

Lemma word_nonzero w i : 0 ≤ w → Z.testbit w i = true → 0 < w.
Proof.
  intros Hw Hb. destruct (Z.eq_dec w 0) as [->|]; [|lia].
  by rewrite Z.testbit_0_l in Hb.
Qed.

(** ** Counted loops *)

Lemma iterate_ind {S : Type} (P : Z → S → Prop) n i f (s : S) :
  P i s →
  (∀ j s', i ≤ j < i + Z.of_nat n → P j s' → P (j + 1) (f j s')) →
  P (i + Z.of_nat n) (iterate n i f s).
Proof.
  revert i s. induction n as [|n IH]; intros i s Hi Hstep; cbn [iterate].
  - by rewrite Z.add_0_r.
  - replace (i + Z.of_nat (Datatypes.S n)) with (i + 1 + Z.of_nat n) by lia.
    apply IH; [apply Hstep; [lia|done]|].
    intros j s' Hj. apply Hstep. lia.
Qed.

Lemma for_ind {S : Type} (P : Z → S → Prop) n f (s : S) :
  0 ≤ n → P 0 s → (∀ j s', 0 ≤ j < n → P j s' → P (j + 1) (f j s')) →
  P n (iterate (Z.to_nat n) 0 f s).
Proof.
  intros Hn H0 Hstep.
  pose proof (iterate_ind P (Z.to_nat n) 0 f s H0) as H.
  rewrite Z.add_0_l, Z2Nat.id in H by done. apply H. intros; apply Hstep; [lia|done].
Qed.

(** ** Lists *)

Lemma take_insert_snoc {A} (l : list A) n x :
  (n < length l)%nat → take (S n) (<[n:=x]> l) = take n l ++ [x].
Proof.
  intros Hn. rewrite (take_S_r _ n x) by (by apply list_lookup_insert_eq).
  by rewrite take_insert_ge by lia.
Qed.

Lemma take_S_last {A} (l : list A) n x : l !! n = Some x → take (S n) l = take n l ++ [x].
Proof. apply take_S_r. Qed.

Lemma NoDup_app_cons_mid {A} (l k : list A) x : NoDup (l ++ x :: k) ↔ x ∉ l ++ k ∧ NoDup (l ++ k).
Proof.
  split.
  - intros H. assert (Hp : NoDup (x :: l ++ k)) by (by rewrite Permutation_middle).
    by apply NoDup_cons in Hp.
  - intros [H1 H2]. rewrite <- Permutation_middle. by apply NoDup_cons.
Qed.
