(* ===== verification/Pmm.v ===== *)
(** * Physical memory manager (kernel/core/mem/pmm.c): the model

    The page-frame allocator: a bitmap over 2^22 frames (1 = free), a rotating
    word hint, eight per-CPU caches of sixteen pages, single-page, batch,
    contiguous and huge-page allocation, and the boot-time population of the
    bitmap.  A physical address is a [Z]; [NULL] is [0].  Each lock-protected
    section of the C code is one definition, so that [PmmSys.v] can interleave
    them; the functions of the file are their sequential composition. *)

From S2P Require Import Prelude.

Module Pmm.

Definition MAX_ORDER : Z := 10.
Definition MIN_PAGE_SIZE : Z := 4096.
Definition HUGE_PAGE_SIZE : Z := 2 * 1024 * 1024.
Definition PAGES_PER_HUGE_PAGE : Z := HUGE_PAGE_SIZE / MIN_PAGE_SIZE.
Definition PMM_INITIAL_MAX_PHYS : Z := 0x40000000.
Definition BITMAP_TOTAL_PAGES : Z := 2 ^ 22.
Definition BITMAP_WORDS : Z := BITMAP_TOTAL_PAGES / 64.
Definition PER_CPU_CACHE_SIZE : Z := 16.
Definition MAX_CPUS : Z := 8.
Definition SLAB_MAGIC : Z := 0x51AB0BACE51AB0B.

(** [page_t], the header written into a page put on the embedded free list. *)
Record page_t := Page { next : Z; order : Z; is_free : bool }.

(** [per_cpu_page_cache_t] without its lock: the array has sixteen slots. *)
Record per_cpu_page_cache_t := Cache {
  pages : list Z;
  count : Z;
  alloc_fast : Z;
  alloc_slow : Z }.

Record memory_map_entry_t := MMap { mbase : Z; mlength : Z; mtype : Z }.

(** The file's static variables.  [page_hdrs] holds the [page_t] headers that
    [pmm_add_page_locked] writes at page addresses. *)
Record pmm_state := PmmState {
  pmm_bitmap : gmap Z Z;
  pmm_bitmap_hint : Z;
  cpu_caches : list per_cpu_page_cache_t;
  free_lists : list Z;
  page_hdrs : gmap Z page_t;
  total_memory : Z;
  used_memory : Z;
  memory_start : Z;
  memory_end : Z;
  pmm_initrd_start : Z;
  pmm_initrd_end : Z;
  huge_pages_allocated : Z;
  huge_pages_freed : Z;
  huge_page_alloc_failures : Z }.

Definition empty_cache : per_cpu_page_cache_t := Cache (replicate 16 0) 0 0 0.

(** The image before [pmm_init]: everything in .bss is zero. *)
Definition bss_state : pmm_state :=
  PmmState ∅ 0 (replicate 8 empty_cache) (replicate 11 0) ∅ 0 0 0 0 0 0 0 0 0.

(** Field updates. *)
Definition with_bitmap (bm : gmap Z Z) (st : pmm_state) : pmm_state :=
  PmmState bm (pmm_bitmap_hint st) (cpu_caches st) (free_lists st) (page_hdrs st)
    (total_memory st) (used_memory st) (memory_start st) (memory_end st)
    (pmm_initrd_start st) (pmm_initrd_end st) (huge_pages_allocated st)
    (huge_pages_freed st) (huge_page_alloc_failures st).
Definition with_hint (h : Z) (st : pmm_state) : pmm_state :=
  PmmState (pmm_bitmap st) h (cpu_caches st) (free_lists st) (page_hdrs st)
    (total_memory st) (used_memory st) (memory_start st) (memory_end st)
    (pmm_initrd_start st) (pmm_initrd_end st) (huge_pages_allocated st)
    (huge_pages_freed st) (huge_page_alloc_failures st).
Definition with_caches (cs : list per_cpu_page_cache_t) (st : pmm_state) : pmm_state :=
  PmmState (pmm_bitmap st) (pmm_bitmap_hint st) cs (free_lists st) (page_hdrs st)
    (total_memory st) (used_memory st) (memory_start st) (memory_end st)
    (pmm_initrd_start st) (pmm_initrd_end st) (huge_pages_allocated st)
    (huge_pages_freed st) (huge_page_alloc_failures st).
Definition with_free_list (fl : list Z) (hdrs : gmap Z page_t) (st : pmm_state) : pmm_state :=
  PmmState (pmm_bitmap st) (pmm_bitmap_hint st) (cpu_caches st) fl hdrs
    (total_memory st) (used_memory st) (memory_start st) (memory_end st)
    (pmm_initrd_start st) (pmm_initrd_end st) (huge_pages_allocated st)
    (huge_pages_freed st) (huge_page_alloc_failures st).
Definition with_total (t : Z) (st : pmm_state) : pmm_state :=
  PmmState (pmm_bitmap st) (pmm_bitmap_hint st) (cpu_caches st) (free_lists st)
    (page_hdrs st) t (used_memory st) (memory_start st) (memory_end st)
    (pmm_initrd_start st) (pmm_initrd_end st) (huge_pages_allocated st)
    (huge_pages_freed st) (huge_page_alloc_failures st).
Definition with_used (u : Z) (st : pmm_state) : pmm_state :=
  PmmState (pmm_bitmap st) (pmm_bitmap_hint st) (cpu_caches st) (free_lists st)
    (page_hdrs st) (total_memory st) u (memory_start st) (memory_end st)
    (pmm_initrd_start st) (pmm_initrd_end st) (huge_pages_allocated st)
    (huge_pages_freed st) (huge_page_alloc_failures st).
Definition with_range (ms me : Z) (st : pmm_state) : pmm_state :=
  PmmState (pmm_bitmap st) (pmm_bitmap_hint st) (cpu_caches st) (free_lists st)
    (page_hdrs st) (total_memory st) (used_memory st) ms me
    (pmm_initrd_start st) (pmm_initrd_end st) (huge_pages_allocated st)
    (huge_pages_freed st) (huge_page_alloc_failures st).
Definition with_initrd (s e : Z) (st : pmm_state) : pmm_state :=
  PmmState (pmm_bitmap st) (pmm_bitmap_hint st) (cpu_caches st) (free_lists st)
    (page_hdrs st) (total_memory st) (used_memory st) (memory_start st) (memory_end st)
    s e (huge_pages_allocated st) (huge_pages_freed st) (huge_page_alloc_failures st).
Definition with_huge (a f x : Z) (st : pmm_state) : pmm_state :=
  PmmState (pmm_bitmap st) (pmm_bitmap_hint st) (cpu_caches st) (free_lists st)
    (page_hdrs st) (total_memory st) (used_memory st) (memory_start st) (memory_end st)
    (pmm_initrd_start st) (pmm_initrd_end st) a f x.

(** ** Bitmap helpers *)

Definition pfn_of (addr : Z) : Z := addr / MIN_PAGE_SIZE.
Definition addr_of_pfn (pfn : Z) : Z := u64 (pfn * MIN_PAGE_SIZE).

(** [pmm_bitmap[w]]; the array starts zeroed. *)
Definition bitmap_word (bm : gmap Z Z) (w : Z) : Z := default 0 (bm !! w).

Definition bitmap_set_free (bm : gmap Z Z) (pfn : Z) : gmap Z Z :=
  <[pfn / 64 := Z.lor (bitmap_word bm (pfn / 64)) (Z.shiftl 1 (pfn mod 64))]> bm.

Definition bitmap_set_used (bm : gmap Z Z) (pfn : Z) : gmap Z Z :=
  <[pfn / 64 := Z.land (bitmap_word bm (pfn / 64)) (not64 (Z.shiftl 1 (pfn mod 64)))]> bm.

Definition bitmap_is_free (bm : gmap Z Z) (pfn : Z) : bool :=
  negb (Z.land (Z.shiftr (bitmap_word bm (pfn / 64)) (pfn mod 64)) 1 =? 0).

(** ** Boot *)

Definition pmm_reserve_initrd (start size : Z) (st : pmm_state) : pmm_state :=
  with_initrd start (ALIGN_UP (u64 (start + size)) MIN_PAGE_SIZE) st.

Definition pmm_add_page_locked (addr : Z) (st : pmm_state) : pmm_state :=
  let head := default 0 (free_lists st !! 0%nat) in
  let st := with_free_list (<[0%nat := addr]> (free_lists st))
              (<[addr := Page head 0 true]> (page_hdrs st)) st in
  let pfn := addr / MIN_PAGE_SIZE in
  if pfn <? BITMAP_TOTAL_PAGES
  then with_bitmap (bitmap_set_free (pmm_bitmap st) pfn) st
  else st.

(** The three [continue] tests of both population loops: the first MiB, the
    kernel image and the initrd stay reserved. *)
Definition page_is_reserved (kernel_end_phys : Z) (st : pmm_state) (addr : Z) : bool :=
  if addr <? 0x100000 then true
  else if (0x100000 <=? addr) && (addr <? kernel_end_phys) then true
  else negb (pmm_initrd_start st =? 0) && (pmm_initrd_start st <=? addr)
       && (addr <? pmm_initrd_end st).

(** The inner loop of [pmm_init]: [for (addr = base; addr < end; addr += 4096)]. *)
Fixpoint pmm_init_pages (fuel : nat) (kend addr end_ : Z) (st : pmm_state) : pmm_state :=
  match fuel with
  | O => st
  | S f =>
      if addr <? end_ then
        let st := if page_is_reserved kend st addr then st else pmm_add_page_locked addr st in
        pmm_init_pages f kend (u64 (addr + MIN_PAGE_SIZE)) end_ st
      else st
  end.

Definition pmm_init_region (kend : Z) (e : memory_map_entry_t) (st : pmm_state) : pmm_state :=
  if mtype e =? 1 then
    let base := ALIGN_UP (mbase e) MIN_PAGE_SIZE in
    let end_ := ALIGN_DOWN (u64 (mbase e + mlength e)) MIN_PAGE_SIZE in
    if end_ <=? base then st
    else if PMM_INITIAL_MAX_PHYS <=? base then st
    else
      let end_ := if PMM_INITIAL_MAX_PHYS <? end_ then PMM_INITIAL_MAX_PHYS else end_ in
      let st := with_total (u64 (total_memory st + (end_ - base))) st in
      let ms := if (memory_start st =? 0) || (base <? memory_start st)
                then base else memory_start st in
      let me := if memory_end st <? end_ then end_ else memory_end st in
      let st := with_range ms me st in
      pmm_init_pages (Z.to_nat ((end_ - base) / MIN_PAGE_SIZE)) kend base end_ st
  else st.

(** [kernel_end] is the linker symbol [__kernel_end]. *)
Definition pmm_init (kernel_end : Z) (mmap : list memory_map_entry_t) (st : pmm_state)
  : pmm_state :=
  let st := with_free_list (replicate 11 0) (page_hdrs st) st in
  let st := with_caches
              ((λ c, Cache (pages c) 0 0 0) <$> cpu_caches st) st in
  let kend := ALIGN_UP kernel_end MIN_PAGE_SIZE in
  foldl (λ st e, pmm_init_region kend e st) st mmap.

Fixpoint pmm_add_remaining_loop (fuel : nat) (kend addr end_ : Z) (st : pmm_state)
  : pmm_state :=
  match fuel with
  | O => st
  | S f =>
      if addr <? end_ then
        let st :=
          if page_is_reserved kend st addr then st
          else
            let pfn := addr / MIN_PAGE_SIZE in
            if BITMAP_TOTAL_PAGES <=? pfn then st
            else with_bitmap (bitmap_set_free (pmm_bitmap st) pfn) st in
        pmm_add_remaining_loop f kend (u64 (addr + MIN_PAGE_SIZE)) end_ st
      else st
  end.

(** One region of [pmm_add_remaining_pages]: the state and [added_memory]. *)
Definition pmm_add_remaining_region (kend : Z) (acc : pmm_state * Z) (e : memory_map_entry_t)
  : pmm_state * Z :=
  let '(st, added_memory) := acc in
  if mtype e =? 1 then
    let base := ALIGN_UP (mbase e) MIN_PAGE_SIZE in
    let end_ := ALIGN_DOWN (u64 (mbase e + mlength e)) MIN_PAGE_SIZE in
    if end_ <=? base then (st, added_memory)
    else if end_ <=? PMM_INITIAL_MAX_PHYS then (st, added_memory)
    else
      let base := if base <? PMM_INITIAL_MAX_PHYS then PMM_INITIAL_MAX_PHYS else base in
      (pmm_add_remaining_loop (Z.to_nat ((end_ - base) / MIN_PAGE_SIZE)) kend base end_ st,
       u64 (added_memory + (end_ - base)))
  else (st, added_memory).

Definition pmm_add_remaining_pages (kernel_end : Z) (mmap : list memory_map_entry_t)
  (st : pmm_state) : pmm_state :=
  let kend := ALIGN_UP kernel_end MIN_PAGE_SIZE in
  let '(st, added_memory) := foldl (pmm_add_remaining_region kend) (st, 0) mmap in
  with_total (u64 (total_memory st + added_memory)) st.

(** ** Slow paths: sections under [global_pmm_lock] *)

(** [bitmap_set_used(pfn); used_memory += MIN_PAGE_SIZE]. *)
Definition take_page (pfn : Z) (st : pmm_state) : pmm_state :=
  with_used (u64 (used_memory st + MIN_PAGE_SIZE))
    (with_bitmap (bitmap_set_used (pmm_bitmap st) pfn) st).

(** The bounds both scans compute from [total_memory]. *)
Definition scan_pfns (st : pmm_state) : Z :=
  let total_pfns := total_memory st / MIN_PAGE_SIZE in
  if (total_pfns =? 0) || (BITMAP_TOTAL_PAGES <? total_pfns)
  then BITMAP_TOTAL_PAGES else total_pfns.
Definition scan_words (st : pmm_state) : Z := (scan_pfns st + 63) / 64.
Definition scan_hint (st : pmm_state) : Z :=
  if pmm_bitmap_hint st <? scan_words st then pmm_bitmap_hint st else 0.

(** [w = hint + scanned; if (w >= total_words) w -= total_words]. *)
Definition scan_word (hint total_words scanned : Z) : Z :=
  let w := hint + scanned in if total_words <=? w then w - total_words else w.

Fixpoint alloc_slow_loop (fuel : nat) (hint total_words total_pfns scanned : Z)
  (st : pmm_state) : pmm_state * Z :=
  match fuel with
  | O => (st, 0)
  | S f =>
      let w := scan_word hint total_words scanned in
      let bits := bitmap_word (pmm_bitmap st) w in
      if bits =? 0 then alloc_slow_loop f hint total_words total_pfns (scanned + 1) st
      else
        let pfn := w * 64 + ctzll bits in
        if (pfn =? 0) || (total_pfns <=? pfn)
        then alloc_slow_loop f hint total_words total_pfns (scanned + 1) st
        else (with_hint w (take_page pfn st), addr_of_pfn pfn)
  end.

Definition pmm_alloc_page_slow (st : pmm_state) : pmm_state * Z :=
  alloc_slow_loop (Z.to_nat (scan_words st)) (scan_hint st) (scan_words st)
    (scan_pfns st) 0 st.

(** The inner [while] of [pmm_alloc_batch_slow]: every free bit of one word. *)
Fixpoint batch_word (fuel : nat) (w bits want total_pfns : Z) (acc : pmm_state * list Z)
  : pmm_state * list Z :=
  match fuel with
  | O => acc
  | S f =>
      let '(st, out) := acc in
      if negb (bits =? 0) && (Z.of_nat (length out) <? want) then
        let bit := ctzll bits in
        let pfn := w * 64 + bit in
        let bits := Z.land bits (not64 (Z.shiftl 1 bit)) in
        if (pfn =? 0) || (total_pfns <=? pfn)
        then batch_word f w bits want total_pfns (st, out)
        else batch_word f w bits want total_pfns
               (take_page pfn st, out ++ [addr_of_pfn pfn])
      else acc
  end.

Fixpoint batch_loop (fuel : nat) (hint total_words total_pfns want scanned : Z)
  (acc : pmm_state * list Z) : pmm_state * list Z :=
  match fuel with
  | O => acc
  | S f =>
      let '(st, out) := acc in
      if (scanned <? total_words) && (Z.of_nat (length out) <? want) then
        let w := scan_word hint total_words scanned in
        let bits := bitmap_word (pmm_bitmap st) w in
        if bits =? 0 then batch_loop f hint total_words total_pfns want (scanned + 1) acc
        else
          let '(st, out) := batch_word 64 w bits want total_pfns (st, out) in
          batch_loop f hint total_words total_pfns want (scanned + 1) (with_hint w st, out)
      else acc
  end.

(** The pages stored into [out[]], in order. *)
Definition pmm_alloc_batch_slow (want : Z) (st : pmm_state) : pmm_state * list Z :=
  if want =? 0 then (st, [])
  else batch_loop (Z.to_nat (scan_words st)) (scan_hint st) (scan_words st)
         (scan_pfns st) want 0 (st, []).

(** One iteration of [pmm_free_batch_slow]. *)
Definition free_batch_one (st : pmm_state) (page : Z) : pmm_state :=
  if page =? 0 then st
  else
    let pfn := pfn_of page in
    let st := if pfn <? BITMAP_TOTAL_PAGES
              then with_hint (pfn / 64) (with_bitmap (bitmap_set_free (pmm_bitmap st) pfn) st)
              else st in
    with_used (u64 (used_memory st - MIN_PAGE_SIZE)) st.

Definition pmm_free_batch_slow (pgs : list Z) (st : pmm_state) : pmm_state :=
  foldl free_batch_one st pgs.

Definition pmm_free_page_slow (page_addr : Z) (st : pmm_state) : pmm_state :=
  if page_addr =? 0 then st
  else
    let st := with_used (u64 (used_memory st - MIN_PAGE_SIZE)) st in
    let pfn := pfn_of page_addr in
    if pfn <? BITMAP_TOTAL_PAGES
    then with_hint (pfn / 64) (with_bitmap (bitmap_set_free (pmm_bitmap st) pfn) st)
    else st.

(** ** Per-CPU caches: sections under [cache->lock] *)

(** [cpu_id()] clamped: [if (current_cpu >= MAX_CPUS) current_cpu = 0]. *)
Definition clamp_cpu (cpu : Z) : Z := if MAX_CPUS <=? cpu then 0 else cpu.

Definition cache_of (c : Z) (st : pmm_state) : per_cpu_page_cache_t :=
  default empty_cache (cpu_caches st !! Z.to_nat c).
Definition set_cache (c : Z) (k : per_cpu_page_cache_t) (st : pmm_state) : pmm_state :=
  with_caches (<[Z.to_nat c := k]> (cpu_caches st)) st.

Definition cache_pop (k : per_cpu_page_cache_t) : per_cpu_page_cache_t * Z :=
  let n := count k - 1 in
  (Cache (pages k) n (alloc_fast k) (alloc_slow k), default 0 (pages k !! Z.to_nat n)).
Definition cache_push (page : Z) (k : per_cpu_page_cache_t) : per_cpu_page_cache_t :=
  Cache (<[Z.to_nat (count k) := page]> (pages k)) (count k + 1) (alloc_fast k) (alloc_slow k).

(** [pmm_alloc_page] up to the first unlock: a hit returns the top page. *)
Definition alloc_begin (c : Z) (st : pmm_state) : pmm_state * option Z :=
  let k := cache_of c st in
  if 0 <? count k then
    let '(k, page) := cache_pop k in
    (set_cache c (Cache (pages k) (count k) (u64 (alloc_fast k + 1)) (alloc_slow k)) st,
     Some page)
  else
    (set_cache c (Cache (pages k) (count k) (alloc_fast k) (u64 (alloc_slow k + 1))) st, None).

(** One iteration of the refill loop: keep the page, or return it when another
    CPU filled the cache meanwhile. *)
Definition alloc_deposit_one (c : Z) (st : pmm_state) (page : Z) : pmm_state :=
  if count (cache_of c st) <? PER_CPU_CACHE_SIZE
  then set_cache c (cache_push page (cache_of c st)) st
  else pmm_free_page_slow page st.

(** The end of [pmm_alloc_page]: one page of the refilled cache, or NULL. *)
Definition alloc_finish (c : Z) (st : pmm_state) : pmm_state * Z :=
  let k := cache_of c st in
  if 0 <? count k then
    let '(k, page) := cache_pop k in (set_cache c k st, page)
  else (st, 0).

Definition pmm_alloc_page (cpu : Z) (st : pmm_state) : pmm_state * Z :=
  let c := clamp_cpu cpu in
  match alloc_begin c st with
  | (st, Some page) => (st, page)
  | (st, None) =>
      let '(st, refill_pages) := pmm_alloc_batch_slow PER_CPU_CACHE_SIZE st in
      alloc_finish c (foldl (alloc_deposit_one c) st refill_pages)
  end.

(** The guards of [pmm_free_page] before the cache is touched; [true] when the
    free is blocked.  [mem] reads the 64-bit word at a physical address. *)
Definition free_blocked (mem : Z → Z) (page_addr : Z) (st : pmm_state) : bool :=
  if negb (Z.land page_addr (MIN_PAGE_SIZE - 1) =? 0) then true
  else if page_addr <? 0x100000 then true
  else
    let guard_pfn := page_addr / MIN_PAGE_SIZE in
    if BITMAP_TOTAL_PAGES <=? guard_pfn then true
    else if bitmap_is_free (pmm_bitmap st) guard_pfn then true
    else if negb (pmm_initrd_start st =? 0) && (pmm_initrd_start st <=? page_addr)
            && (page_addr <? pmm_initrd_end st) then true
    else mem page_addr =? SLAB_MAGIC.

(** [for (i < drain_count) drain_pages[i] = pages[--count]]. *)
Fixpoint cache_drain (n : nat) (k : per_cpu_page_cache_t) : per_cpu_page_cache_t * list Z :=
  match n with
  | O => (k, [])
  | S n' =>
      let '(k, page) := cache_pop k in
      let '(k, rest) := cache_drain n' k in
      (k, page :: rest)
  end.

(** The section of [pmm_free_page] under [cache->lock]; returns the pages the
    overflow path drains to the global pool. *)
Definition free_to_cache (c : Z) (page_addr : Z) (st : pmm_state) : pmm_state * list Z :=
  let k := cache_of c st in
  if existsb (Z.eqb page_addr) (take (Z.to_nat (count k)) (pages k)) then (st, [])
  else if count k <? PER_CPU_CACHE_SIZE then (set_cache c (cache_push page_addr k) st, [])
  else
    let '(k, drain_pages) := cache_drain (Z.to_nat (count k / 2)) k in
    (set_cache c (cache_push page_addr k) st, drain_pages).

Definition pmm_free_page (mem : Z → Z) (cpu page_addr : Z) (st : pmm_state) : pmm_state :=
  if page_addr =? 0 then st
  else if free_blocked mem page_addr st then st
  else
    let '(st, drain_pages) := free_to_cache (clamp_cpu cpu) page_addr st in
    pmm_free_batch_slow drain_pages st.

(** Returns the number of pages reclaimed. *)
Definition pmm_reclaim_cpu_cache (cpu : Z) (st : pmm_state) : pmm_state * Z :=
  if MAX_CPUS <=? cpu then (st, 0)
  else
    let k := cache_of cpu st in
    let pages_to_free := take (Z.to_nat (count k)) (pages k) in
    let st := set_cache cpu (Cache (pages k) 0 (alloc_fast k) (alloc_slow k)) st in
    (foldl (λ st p, pmm_free_page_slow p st) st pages_to_free, count k).

(** ** Contiguous allocation *)

(** The mixed-word loop: [inl rs] jumps to [found] with the run at [rs];
    [inr (rs, rl)] leaves the word with the run of [rl] frames from [rs]. *)
Fixpoint scan_bits (fuel : nat) (word base_pfn cnt bit run_start run_len : Z)
  : Z + (Z * Z) :=
  match fuel with
  | O => inr (run_start, run_len)
  | S f =>
      if bit <? 64 then
        let remaining := Z.shiftr word bit in
        if remaining =? 0 then inr (run_start, 0)
        else
          let skip := ctzll remaining in
          if 0 <? skip then scan_bits f word base_pfn cnt (bit + skip) run_start 0
          else
            let inv := not64 remaining in
            let free_run :=
              if inv =? 0 then 64 - bit
              else let fr := ctzll inv in if 64 <? bit + fr then 64 - bit else fr in
            let run_start := if run_len =? 0 then base_pfn + bit else run_start in
            let run_len := run_len + free_run in
            if cnt <=? run_len then inl run_start
            else scan_bits f word base_pfn cnt (bit + free_run) run_start run_len
      else inr (run_start, run_len)
  end.

(** One pass over the words [wi, end_word). *)
Fixpoint scan_pass (fuel : nat) (bm : gmap Z Z) (cnt wi end_word run_start run_len : Z)
  : Z + (Z * Z) :=
  match fuel with
  | O => inr (run_start, run_len)
  | S f =>
      if wi <? end_word then
        let word := bitmap_word bm wi in
        let base_pfn := wi * 64 in
        if word =? 0 then scan_pass f bm cnt (wi + 1) end_word run_start 0
        else if word =? 2 ^ 64 - 1 then
          let run_start := if run_len =? 0 then base_pfn else run_start in
          let run_len := run_len + 64 in
          if cnt <=? run_len then inl run_start
          else scan_pass f bm cnt (wi + 1) end_word run_start run_len
        else
          match scan_bits 64 word base_pfn cnt 0 run_start run_len with
          | inl rs => inl rs
          | inr (rs, rl) => scan_pass f bm cnt (wi + 1) end_word rs rl
          end
      else inr (run_start, run_len)
  end.

(** The two passes from the hint: words [hint, BITMAP_WORDS) then [0, hint). *)
Definition find_run (bm : gmap Z Z) (hint cnt : Z) : option Z :=
  match scan_pass (Z.to_nat (BITMAP_WORDS - hint)) bm cnt hint BITMAP_WORDS 0 0 with
  | inl rs => Some rs
  | inr _ =>
      match scan_pass (Z.to_nat hint) bm cnt 0 hint 0 0 with
      | inl rs => Some rs
      | inr _ => None
      end
  end.

(** The [found] label: mark the run, account for it, move the hint. *)
Definition take_run (run_start cnt : Z) (st : pmm_state) : pmm_state :=
  let st := iterate (Z.to_nat cnt) 0
              (λ i st, with_bitmap (bitmap_set_used (pmm_bitmap st) (run_start + i)) st) st in
  let st := with_used (u64 (used_memory st + u64 (cnt * MIN_PAGE_SIZE))) st in
  let next_hint_pfn := run_start + cnt in
  with_hint (if next_hint_pfn <? BITMAP_TOTAL_PAGES then next_hint_pfn / 64 else 0) st.

Definition pmm_alloc_pages (cpu cnt : Z) (st : pmm_state) : pmm_state * Z :=
  if cnt =? 0 then (st, 0)
  else if cnt =? 1 then pmm_alloc_page cpu st
  else
    match find_run (pmm_bitmap st) (pmm_bitmap_hint st) cnt with
    | Some run_start => (take_run run_start cnt st, addr_of_pfn run_start)
    | None => (st, 0)
    end.

(** The loop of [pmm_free_pages] over [pfn = start_pfn + i]. *)
Fixpoint free_pages_loop (fuel : nat) (mem : Z → Z) (pfn : Z) (st : pmm_state) : pmm_state :=
  match fuel with
  | O => st
  | S f =>
      if BITMAP_TOTAL_PAGES <=? pfn then st
      else
        let st :=
          if mem (addr_of_pfn pfn) =? SLAB_MAGIC then st
          else if bitmap_is_free (pmm_bitmap st) pfn then st
          else with_used (u64 (used_memory st - MIN_PAGE_SIZE))
                 (with_bitmap (bitmap_set_free (pmm_bitmap st) pfn) st) in
        free_pages_loop f mem (pfn + 1) st
  end.

Definition pmm_free_pages (mem : Z → Z) (cpu base cnt : Z) (st : pmm_state) : pmm_state :=
  if (base =? 0) || (cnt =? 0) then st
  else
    let e := u64 (base + u64 (cnt * MIN_PAGE_SIZE)) in
    if negb (pmm_initrd_start st =? 0) && (base <? pmm_initrd_end st)
       && (pmm_initrd_start st <? e) then st
    else if cnt =? 1 then pmm_free_page mem cpu base st
    else
      let start_pfn := pfn_of base in
      let st := free_pages_loop (Z.to_nat cnt) mem start_pfn st in
      if start_pfn / 64 <? pmm_bitmap_hint st then with_hint (start_pfn / 64) st else st.

(** ** Huge pages and counters *)

Definition pmm_alloc_huge_page (mem : Z → Z) (cpu : Z) (st : pmm_state) : pmm_state * Z :=
  let '(st, base) := pmm_alloc_pages cpu PAGES_PER_HUGE_PAGE st in
  if base =? 0 then
    (with_huge (huge_pages_allocated st) (huge_pages_freed st)
       (u64 (huge_page_alloc_failures st + 1)) st, 0)
  else if negb (Z.land base (HUGE_PAGE_SIZE - 1) =? 0) then
    let st := pmm_free_pages mem cpu base PAGES_PER_HUGE_PAGE st in
    (with_huge (huge_pages_allocated st) (huge_pages_freed st)
       (u64 (huge_page_alloc_failures st + 1)) st, 0)
  else
    (with_huge (u64 (huge_pages_allocated st + 1)) (huge_pages_freed st)
       (huge_page_alloc_failures st) st, base).

Definition pmm_free_huge_page (mem : Z → Z) (cpu base : Z) (st : pmm_state) : pmm_state :=
  if base =? 0 then st
  else if negb (Z.land base (HUGE_PAGE_SIZE - 1) =? 0) then st
  else
    let st := pmm_free_pages mem cpu base PAGES_PER_HUGE_PAGE st in
    with_huge (huge_pages_allocated st) (u64 (huge_pages_freed st + 1))
      (huge_page_alloc_failures st) st.

Definition pmm_get_total_memory (st : pmm_state) : Z := total_memory st.
Definition pmm_get_used_memory (st : pmm_state) : Z := used_memory st.
Definition pmm_get_free_memory (st : pmm_state) : Z := u64 (total_memory st - used_memory st).
Definition pmm_get_huge_page_stats (st : pmm_state) : Z * Z * Z :=
  (huge_pages_allocated st, huge_pages_freed st, huge_page_alloc_failures st).

End Pmm.
