(* ===== verification/PmmFacts.v ===== *)
(** * Physical memory manager: bitmap, scans and their specifications

    The bitmap as a set of free frames, the equivalence of the word-skipping
    contiguous scan with a frame-by-frame reference scan and its first-fit
    specification, and what the single-page and batch scans take. *)

From S2P Require Import Prelude Pmm.

Module PmmFacts.
Import Pmm.

(** Frame [p] is free in the bitmap of [st]. *)
Definition free (st : pmm_state) (p : Z) : bool := bitmap_is_free (pmm_bitmap st) p.

(** Every word of the bitmap is a [uint64_t]. *)
Definition bitmap_ok (bm : gmap Z Z) : Prop := ∀ w, 0 ≤ bitmap_word bm w < 2 ^ 64.

(** The frames [r, r+cnt) are all free. *)
Definition free_run (f : Z → bool) (r cnt : Z) : Prop :=
  ∀ i, r ≤ i < r + cnt → f i = true.

(** Reference for the contiguous scan: one frame at a time. *)
Fixpoint ref_scan (n : nat) (f : Z → bool) (cnt p run_start run_len : Z) : Z + (Z * Z) :=
  match n with
  | O => inr (run_start, run_len)
  | S n' =>
      if f p then
        let rs := if run_len =? 0 then p else run_start in
        if cnt <=? run_len + 1 then inl rs
        else ref_scan n' f cnt (p + 1) rs (run_len + 1)
      else ref_scan n' f cnt (p + 1) run_start 0
  end.

(** ** The bitmap as a set *)

Lemma bitmap_word_insert bm w x v : bitmap_word (<[w:=x]> bm) v = if decide (w = v) then x else bitmap_word bm v.
Proof. unfold bitmap_word. rewrite lookup_insert. by case_decide. Qed.

Lemma is_free_testbit bm p : 0 ≤ p →
  bitmap_is_free bm p = Z.testbit (bitmap_word bm (p / 64)) (p mod 64).
Proof.
  intros Hp. unfold bitmap_is_free.
  rewrite shiftr_land_1 by divlia. by destruct (Z.testbit _ _).
Qed.

Lemma div_mod_64_inj p q : p / 64 = q / 64 → p mod 64 = q mod 64 → p = q.
Proof. intros. divlia. Qed.

Lemma is_free_set_free bm p q : 0 ≤ p → 0 ≤ q →
  bitmap_is_free (bitmap_set_free bm p) q = (q =? p) || bitmap_is_free bm q.
Proof.
  intros Hp Hq. rewrite !is_free_testbit by done. unfold bitmap_set_free.
  rewrite bitmap_word_insert. case_decide as Hw.
  - rewrite lor_bit_spec by divlia. rewrite Hw.
    destruct (Z.eqb_spec q p) as [->|Hne]; [by rewrite Z.eqb_refl|].
    destruct (Z.eqb_spec (q mod 64) (p mod 64)) as [He|]; [|done].
    destruct Hne. by apply div_mod_64_inj.
  - destruct (Z.eqb_spec q p) as [->|]; [done|done].
Qed.

Lemma is_free_set_used bm p q : 0 ≤ p → 0 ≤ q →
  bitmap_is_free (bitmap_set_used bm p) q = negb (q =? p) && bitmap_is_free bm q.
Proof.
  intros Hp Hq. rewrite !is_free_testbit by done. unfold bitmap_set_used.
  rewrite bitmap_word_insert. case_decide as Hw.
  - rewrite land_not_bit_spec by divlia. rewrite Hw.
    destruct (Z.eqb_spec q p) as [->|Hne]; [by rewrite Z.eqb_refl|].
    destruct (Z.eqb_spec (q mod 64) (p mod 64)) as [He|]; [|done].
    destruct Hne. by apply div_mod_64_inj.
  - destruct (Z.eqb_spec q p) as [->|]; [done|done].
Qed.

Lemma set_free_ok bm p : 0 ≤ p → bitmap_ok bm → bitmap_ok (bitmap_set_free bm p).
Proof.
  intros Hp Hok w. unfold bitmap_set_free. rewrite bitmap_word_insert.
  case_decide; [|done]. apply lor_bit_range; [done|divlia].
Qed.

Lemma set_used_ok bm p : bitmap_ok bm → bitmap_ok (bitmap_set_used bm p).
Proof.
  intros Hok w. unfold bitmap_set_used. rewrite bitmap_word_insert.
  case_decide; [|done]. by apply land_range_l.
Qed.

#[export] Hint Resolve set_free_ok set_used_ok : pmm.

Lemma is_free_word bm w i : 0 ≤ w → 0 ≤ i < 64 →
  bitmap_is_free bm (w * 64 + i) = Z.testbit (bitmap_word bm w) i.
Proof.
  intros. rewrite is_free_testbit by lia.
  replace ((w * 64 + i) / 64) with w by divlia.
  by replace ((w * 64 + i) mod 64) with i by divlia.
Qed.

(** ** The word scan is the frame-by-frame scan *)

Lemma ref_scan_used k n f cnt p rs rl :
  (0 < k)%nat → (∀ i, p ≤ i < p + Z.of_nat k → f i = false) →
  ref_scan (k + n) f cnt p rs rl = ref_scan n f cnt (p + Z.of_nat k) rs 0.
Proof.
  revert p rl. induction k as [|k IH]; intros p rl Hk Hused; [lia|].
  cbn [Nat.add ref_scan]. rewrite Hused by lia.
  destruct k as [|k].
  - cbn [Nat.add]. by replace (p + 1) with (p + Z.of_nat 1) by lia.
  - rewrite IH by (try lia; intros; apply Hused; lia). f_equal. lia.
Qed.

Lemma ref_scan_free k n f cnt p rs rl :
  (0 < k)%nat → 0 ≤ rl < cnt → (∀ i, p ≤ i < p + Z.of_nat k → f i = true) →
  ref_scan (k + n) f cnt p rs rl =
    let rs' := if rl =? 0 then p else rs in
    if cnt <=? rl + Z.of_nat k then inl rs'
    else ref_scan n f cnt (p + Z.of_nat k) rs' (rl + Z.of_nat k).
Proof.
  revert p rs rl. induction k as [|k IH]; intros p rs rl Hk Hrl Hfree; [lia|].
  cbn [Nat.add ref_scan]. rewrite Hfree by lia.
  destruct (Z.leb_spec cnt (rl + 1)).
  - cbn zeta. destruct (Z.leb_spec cnt (rl + Z.of_nat (S k))); [done|lia].
  - destruct k as [|k].
    + cbn [Nat.add]. cbn zeta. destruct (Z.leb_spec cnt (rl + Z.of_nat 1)); [lia|].
      by replace (p + 1) with (p + Z.of_nat 1) by lia.
    + rewrite IH by (try lia; intros; apply Hfree; lia). cbn zeta.
      destruct (Z.eqb_spec (rl + 1) 0); [lia|].
      replace (rl + 1 + Z.of_nat (S k)) with (rl + Z.of_nat (S (S k))) by lia.
      by replace (p + 1 + Z.of_nat (S k)) with (p + Z.of_nat (S (S k))) by lia.
Qed.

Lemma shiftr_bit_zero w b : 0 ≤ w < 2 ^ 64 → 0 ≤ b → Z.shiftr w b = 0 →
  ∀ i, b ≤ i → Z.testbit w i = false.
Proof.
  intros Hw Hb H0 i Hi. replace i with ((i - b) + b) by lia.
  rewrite <- Z.shiftr_spec, H0 by lia. apply Z.testbit_0_l.
Qed.

Lemma shiftr_range w b : 0 ≤ w < 2 ^ 64 → 0 ≤ b → 0 ≤ Z.shiftr w b < 2 ^ 64.
Proof.
  intros Hw Hb. rewrite Z.shiftr_div_pow2 by done.
  assert (0 < 2 ^ b) by (apply Z.pow_pos_nonneg; lia).
  split; [apply Z.div_pos; lia|].
  apply Z.le_lt_trans with w; [|lia]. apply Z.div_le_upper_bound; nia.
Qed.

(** The run of free bits the mixed-word loop measures at a free bit. *)
Definition run_at (word bit : Z) : Z :=
  let inv := not64 (Z.shiftr word bit) in
  if inv =? 0 then 64 - bit
  else let fr := ctzll inv in if 64 <? bit + fr then 64 - bit else fr.

Lemma not64_range x : 0 ≤ x < 2 ^ 64 → 0 ≤ not64 x < 2 ^ 64.
Proof.
  intros Hx. assert (0 ≤ not64 x).
  { unfold not64. apply Z.lxor_nonneg. rewrite Z.ones_equiv. lia. }
  split; [done|]. apply bits_bound; [lia| |done].
  intros i Hi. rewrite not64_spec by lia. destruct (Z.ltb_spec i 64); [lia|done].
Qed.

Lemma run_at_spec word bit : 0 ≤ word < 2 ^ 64 → 0 ≤ bit < 64 →
  Z.testbit word bit = true →
  0 < run_at word bit ≤ 64 - bit ∧
  (∀ i, bit ≤ i < bit + run_at word bit → Z.testbit word i = true).
Proof.
  intros Hw Hb Hbit. unfold run_at.
  pose proof (shiftr_range word bit Hw ltac:(lia)) as Hr.
  pose proof (not64_range _ Hr) as Hn.
  assert (Hspec : ∀ j, 0 ≤ j → Z.testbit (not64 (Z.shiftr word bit)) j
            = (j <? 64) && negb (Z.testbit word (j + bit))).
  { intros j Hj. rewrite not64_spec, Z.shiftr_spec by lia. done. }
  destruct (Z.eqb_spec (not64 (Z.shiftr word bit)) 0) as [H0|H0].
  - split; [lia|]. intros i Hi.
    specialize (Hspec (i - bit) ltac:(lia)). rewrite H0, Z.testbit_0_l in Hspec.
    destruct (Z.ltb_spec (i - bit) 64); [|lia].
    replace (i - bit + bit) with i in Hspec by lia.
    by destruct (Z.testbit word i).
  - destruct (ctzll_spec (not64 (Z.shiftr word bit))) as (Hc0 & Hc1 & Hc2); [lia|].
    set (c := ctzll (not64 (Z.shiftr word bit))) in *.
    assert (c ≠ 0).
    { intros Hc. rewrite Hc, Hspec, Z.add_0_l, Hbit in Hc1 by lia. done. }
    assert (Hall : ∀ i, bit ≤ i < bit + c → i < 64 → Z.testbit word i = true).
    { intros i Hi Hi64. specialize (Hc2 (i - bit) ltac:(lia)).
      rewrite Hspec in Hc2 by lia. replace (i - bit + bit) with i in Hc2 by lia.
      destruct (Z.ltb_spec (i - bit) 64); [|lia]. by destruct (Z.testbit word i). }
    destruct (Z.ltb_spec 64 (bit + c)); split; try lia; intros; apply Hall; lia.
Qed.

Lemma scan_bits_ref fuel word base cnt bit rs rl :
  0 ≤ word < 2 ^ 64 → 0 ≤ bit ≤ 64 → 64 - bit ≤ Z.of_nat fuel → 0 ≤ rl < cnt →
  scan_bits fuel word base cnt bit rs rl =
  ref_scan (Z.to_nat (64 - bit)) (λ p, Z.testbit word (p - base)) cnt (base + bit) rs rl.
Proof.
  intros Hw. revert bit rs rl.
  induction fuel as [|fuel IH]; intros bit rs rl Hbit Hfuel Hrl.
  { by replace (Z.to_nat (64 - bit)) with O by lia. }
  cbn [scan_bits]. destruct (Z.ltb_spec bit 64) as [Hlt|].
  2: { by replace (Z.to_nat (64 - bit)) with O by lia. }
  pose proof (shiftr_range word bit Hw ltac:(lia)) as Hr.
  destruct (Z.eqb_spec (Z.shiftr word bit) 0) as [H0|H0].
  { rewrite <- (Nat.add_0_r (Z.to_nat _)), ref_scan_used; [done|lia|].
    intros i Hi. apply (shiftr_bit_zero word bit); [done|lia|done|lia]. }
  destruct (ctzll_spec (Z.shiftr word bit)) as (Hc0 & Hc1 & Hc2); [lia|].
  pose proof (ctzll_range (Z.shiftr word bit) ltac:(lia)) as Hc3.
  rewrite Z.shiftr_spec in Hc1 by lia.
  set (c := ctzll (Z.shiftr word bit)) in *.
  assert (bit + c < 64).
  { destruct (Z.lt_ge_cases (bit + c) 64); [done|].
    rewrite (testbit_high word 64) in Hc1 by lia. done. }
  destruct (Z.ltb_spec 0 c) as [Hskip|Hskip].
  { rewrite IH by lia.
    replace (Z.to_nat (64 - bit)) with (Z.to_nat c + Z.to_nat (64 - (bit + c)))%nat by lia.
    rewrite ref_scan_used; [f_equal; lia|lia|].
    intros i Hi. specialize (Hc2 (i - base - bit) ltac:(lia)).
    rewrite Z.shiftr_spec in Hc2 by lia.
    by replace (i - base - bit + bit) with (i - base) in Hc2 by lia. }
  replace c with 0 in Hc1 by lia. rewrite Z.add_0_l in Hc1.
  fold (run_at word bit).
  destruct (run_at_spec word bit Hw ltac:(lia) Hc1) as [Hrun Hfree].
  replace (Z.to_nat (64 - bit))
    with (Z.to_nat (run_at word bit) + Z.to_nat (64 - (bit + run_at word bit)))%nat by lia.
  rewrite ref_scan_free; [|lia|lia|].
  2: { intros i Hi. apply Hfree. lia. }
  cbn zeta. rewrite Z2Nat.id by lia.
  destruct (Z.leb_spec cnt (rl + run_at word bit)); [done|].
  rewrite IH by lia. f_equal. lia.
Qed.

Lemma ref_scan_ext n f g cnt p rs rl :
  (∀ i, p ≤ i < p + Z.of_nat n → f i = g i) →
  ref_scan n f cnt p rs rl = ref_scan n g cnt p rs rl.
Proof.
  revert p rs rl. induction n as [|n IH]; intros p rs rl Hfg; [done|].
  cbn [ref_scan]. rewrite <- Hfg by lia.
  destruct (f p); [destruct (cnt <=? rl + 1); [done|]|];
    apply IH; intros; apply Hfg; lia.
Qed.

Lemma ref_scan_app k n f cnt p rs rl :
  ref_scan (k + n) f cnt p rs rl =
  match ref_scan k f cnt p rs rl with
  | inl r => inl r
  | inr (rs', rl') => ref_scan n f cnt (p + Z.of_nat k) rs' rl'
  end.
Proof.
  revert p rs rl. induction k as [|k IH]; intros p rs rl.
  { cbn. by rewrite Z.add_0_r. }
  cbn [Nat.add ref_scan].
  replace (p + Z.of_nat (S k)) with (p + 1 + Z.of_nat k) by lia.
  destruct (f p); [destruct (cnt <=? rl + 1); [done|]|]; apply IH.
Qed.

Lemma ref_scan_len n f cnt p rs rl rs' rl' :
  0 ≤ rl < cnt → ref_scan n f cnt p rs rl = inr (rs', rl') → 0 ≤ rl' < cnt.
Proof.
  revert p rs rl. induction n as [|n IH]; intros p rs rl Hrl; cbn [ref_scan].
  { intros [= <- <-]. lia. }
  destruct (f p); [destruct (Z.leb_spec cnt (rl + 1)); [done|]|]; apply IH; lia.
Qed.

Lemma scan_pass_ref fuel bm cnt wi end_word rs rl :
  bitmap_ok bm → 0 ≤ wi ≤ end_word → end_word - wi ≤ Z.of_nat fuel → 0 ≤ rl < cnt →
  scan_pass fuel bm cnt wi end_word rs rl =
  ref_scan (Z.to_nat ((end_word - wi) * 64)) (bitmap_is_free bm) cnt (wi * 64) rs rl.
Proof.
  intros Hok. revert wi rs rl.
  induction fuel as [|fuel IH]; intros wi rs rl Hwi Hfuel Hrl.
  { by replace (Z.to_nat _) with O by lia. }
  cbn [scan_pass]. destruct (Z.ltb_spec wi end_word) as [Hlt|].
  2: { by replace (Z.to_nat _) with O by lia. }
  specialize (Hok wi) as Hword. set (word := bitmap_word bm wi) in *.
  replace (Z.to_nat ((end_word - wi) * 64))
    with (64 + Z.to_nat ((end_word - (wi + 1)) * 64))%nat by lia.
  assert (Hbit : ∀ i, wi * 64 ≤ i < wi * 64 + 64 →
            bitmap_is_free bm i = Z.testbit word (i - wi * 64)).
  { intros i Hi. replace i with (wi * 64 + (i - wi * 64)) at 1 by lia.
    by rewrite is_free_word by lia. }
  destruct (Z.eqb_spec word 0) as [H0|H0].
  { rewrite ref_scan_used; [|lia|].
    - rewrite IH by lia. f_equal. lia.
    - intros i Hi. rewrite Hbit, H0 by lia. apply Z.testbit_0_l. }
  destruct (Z.eqb_spec word (2 ^ 64 - 1)) as [H1|H1].
  { rewrite ref_scan_free; [|lia|lia|].
    - cbn zeta. replace (rl + Z.of_nat 64) with (rl + 64) by lia.
      destruct (Z.leb_spec cnt (rl + 64)); [done|].
      rewrite IH by lia. f_equal. lia.
    - intros i Hi. rewrite Hbit, H1 by lia.
      replace (2 ^ 64 - 1) with (Z.ones 64) by done. apply Z.ones_spec_low. lia. }
  rewrite scan_bits_ref by lia. rewrite ref_scan_app, Z.add_0_r.
  change (Z.to_nat (64 - 0)) with 64%nat.
  rewrite (ref_scan_ext 64 (bitmap_is_free bm) (λ p, Z.testbit word (p - wi * 64)))
    by (intros; apply Hbit; lia).
  destruct (ref_scan 64 _ cnt (wi * 64) rs rl) as [r|[rs' rl']] eqn:E; [done|].
  apply ref_scan_len in E; [|done].
  rewrite IH by lia. f_equal. lia.
Qed.

(** ** The reference scan is first-fit and complete *)

Lemma ref_scan_spec n f cnt lo p rs rl :
  0 < cnt → 0 ≤ rl < cnt → lo ≤ p - rl →
  (0 < rl → rs = p - rl) → (∀ i, p - rl ≤ i < p → f i = true) →
  (lo < p - rl → f (p - rl - 1) = false) →
  (∀ r, lo ≤ r → r + cnt ≤ p → ¬ free_run f r cnt) →
  match ref_scan n f cnt p rs rl with
  | inl r => lo ≤ r ∧ r + cnt ≤ p + Z.of_nat n ∧ free_run f r cnt ∧
             ∀ r', lo ≤ r' < r → ¬ free_run f r' cnt
  | inr _ => ∀ r, lo ≤ r → r + cnt ≤ p + Z.of_nat n → ¬ free_run f r cnt
  end.
Proof.
  intros Hcnt. revert p rs rl.
  induction n as [|n IH]; intros p rs rl Hrl Hlo Hrs Hfree Hmax Hnone; cbn [ref_scan].
  { intros r Hr1 Hr2. apply Hnone; lia. }
  destruct (f p) eqn:Hfp.
  - assert (Hrs' : (if rl =? 0 then p else rs) = p - rl).
    { destruct (Z.eqb_spec rl 0); [lia|apply Hrs; lia]. }
    assert (Hfree' : ∀ i, p - rl ≤ i < p + 1 → f i = true).
    { intros i Hi. destruct (Z.eq_dec i p) as [->|]; [done|]. apply Hfree. lia. }
    rewrite Hrs'. destruct (Z.leb_spec cnt (rl + 1)).
    + split_and!; [lia|lia| |].
      * intros i Hi. apply Hfree'. lia.
      * intros r' Hr'. apply Hnone; lia.
    + replace (p + Z.of_nat (S n)) with (p + 1 + Z.of_nat n) by lia.
      apply IH; try lia.
      * intros i Hi. apply Hfree'. lia.
      * intros Hlt. replace (p + 1 - (rl + 1) - 1) with (p - rl - 1) by lia. apply Hmax. lia.
      * intros r Hr1 Hr2 Hrun. destruct (Z.eq_dec (r + cnt) (p + 1)) as [He|].
        -- specialize (Hrun (p - rl - 1) ltac:(lia)). rewrite Hmax in Hrun by lia. done.
        -- apply (Hnone r); [done|lia|done].
  - replace (p + Z.of_nat (S n)) with (p + 1 + Z.of_nat n) by lia.
    apply IH; try lia.
    + intros _. by replace (p + 1 - 0 - 1) with p by lia.
    + intros r Hr1 Hr2 Hrun. destruct (Z.eq_dec (r + cnt) (p + 1)) as [He|].
      * specialize (Hrun p ltac:(lia)). congruence.
      * apply (Hnone r); [done|lia|done].
Qed.

Lemma scan_pass_spec fuel bm cnt lo hi :
  bitmap_ok bm → 0 < cnt → 0 ≤ lo ≤ hi → hi - lo ≤ Z.of_nat fuel →
  match scan_pass fuel bm cnt lo hi 0 0 with
  | inl r => lo * 64 ≤ r ∧ r + cnt ≤ hi * 64 ∧ free_run (bitmap_is_free bm) r cnt ∧
             ∀ r', lo * 64 ≤ r' < r → ¬ free_run (bitmap_is_free bm) r' cnt
  | inr _ => ∀ r, lo * 64 ≤ r → r + cnt ≤ hi * 64 → ¬ free_run (bitmap_is_free bm) r cnt
  end.
Proof.
  intros Hok Hcnt Hlh Hfuel. rewrite scan_pass_ref by (done || lia).
  pose proof (ref_scan_spec (Z.to_nat ((hi - lo) * 64)) (bitmap_is_free bm) cnt
                (lo * 64) (lo * 64) 0 0 Hcnt ltac:(lia) ltac:(lia)) as H.
  replace (lo * 64 + Z.of_nat (Z.to_nat ((hi - lo) * 64))) with (hi * 64) in H by lia.
  apply H; try lia.
Qed.

(** The contiguous search: a free run in one of the two halves the hint cuts
    the frame range into, or none in either. *)
Lemma find_run_spec bm hint cnt :
  bitmap_ok bm → 0 < cnt → 0 ≤ hint ≤ BITMAP_WORDS →
  match find_run bm hint cnt with
  | Some r => 0 ≤ r ∧ r + cnt ≤ BITMAP_TOTAL_PAGES ∧ free_run (bitmap_is_free bm) r cnt
  | None => ∀ r, 0 ≤ r → r + cnt ≤ BITMAP_TOTAL_PAGES →
            free_run (bitmap_is_free bm) r cnt → r < hint * 64 < r + cnt
  end.
Proof.
  intros Hok Hcnt Hhint. unfold find_run.
  assert (Hw : BITMAP_WORDS * 64 = BITMAP_TOTAL_PAGES) by done.
  pose proof (scan_pass_spec (Z.to_nat (BITMAP_WORDS - hint)) bm cnt hint BITMAP_WORDS
                Hok Hcnt ltac:(lia) ltac:(lia)) as H1.
  pose proof (scan_pass_spec (Z.to_nat hint) bm cnt 0 hint Hok Hcnt ltac:(lia) ltac:(lia)) as H2.
  destruct (scan_pass (Z.to_nat (BITMAP_WORDS - hint)) bm cnt hint BITMAP_WORDS 0 0) as [r|].
  { destruct H1 as (? & ? & ? & _). split_and!; [lia|lia|done]. }
  destruct (scan_pass (Z.to_nat hint) bm cnt 0 hint 0 0) as [r|].
  { destruct H2 as (? & ? & ? & _). split_and!; [lia|lia|done]. }
  intros r Hr1 Hr2 Hrun.
  destruct (Z.lt_ge_cases r (hint * 64)); [|by destruct (H1 r ltac:(lia) ltac:(lia))].
  split; [done|]. destruct (Z.lt_ge_cases (hint * 64) (r + cnt)); [done|].
  by destruct (H2 r ltac:(lia) ltac:(lia)).
Qed.

End PmmFacts.
