(* ===== verification/PmmScan.v ===== *)
(** * Physical memory manager: what the allocation scans take

    [pmm_alloc_page_slow] and [pmm_alloc_batch_slow] against the bitmap as a
    set: which frames leave it, that they are distinct and were free, and that a
    scan that comes back short has left nothing it could have taken. *)

From S2P Require Import Prelude Pmm PmmFacts.

Module PmmScan.
Import Pmm PmmFacts.

(** Well-formedness of the allocator's words. *)
Record pmm_ok (st : pmm_state) : Prop := {
  ok_bitmap : bitmap_ok (pmm_bitmap st);
  ok_hint : 0 ≤ pmm_bitmap_hint st < BITMAP_WORDS;
  ok_used : 0 ≤ used_memory st < 2 ^ 64;
  ok_total : 0 ≤ total_memory st < 2 ^ 64 }.

(** The part of the state the global-lock sections leave alone. *)
Definition rest (st : pmm_state) : pmm_state :=
  with_bitmap ∅ (with_hint 0 (with_used 0 st)).

(** [st'] is [st] after the distinct free frames [ps] were taken. *)
Record takes (st st' : pmm_state) (ps : list Z) : Prop := {
  tk_free p : 0 ≤ p → free st' p = free st p && negb (bool_decide (p ∈ ps));
  tk_nodup : NoDup ps;
  tk_from : Forall (λ p, 0 ≤ p ∧ free st p = true) ps;
  tk_used : u64 (used_memory st') = u64 (used_memory st + MIN_PAGE_SIZE * Z.of_nat (length ps));
  tk_rest : rest st' = rest st;
  tk_ok : pmm_ok st → pmm_ok st' }.

Lemma rest_total st st' : rest st' = rest st → total_memory st' = total_memory st.
Proof. intros H. by apply (f_equal total_memory) in H. Qed.

Lemma rest_scan_pfns st st' : rest st' = rest st → scan_pfns st' = scan_pfns st.
Proof. intros H. unfold scan_pfns. by rewrite (rest_total _ _ H). Qed.

Lemma rest_caches st st' : rest st' = rest st → cpu_caches st' = cpu_caches st.
Proof. intros H. by apply (f_equal cpu_caches) in H. Qed.

Lemma scan_pfns_bound st : pmm_ok st → 0 < scan_pfns st ≤ BITMAP_TOTAL_PAGES.
Proof.
  intros [_ _ _ Ht]. unfold scan_pfns, MIN_PAGE_SIZE in *.
  assert (0 ≤ total_memory st / 4096) by (apply Z.div_pos; lia).
  destruct (Z.eqb_spec (total_memory st / 4096) 0); cbn [orb]; [split; done|].
  destruct (Z.ltb_spec BITMAP_TOTAL_PAGES (total_memory st / 4096)); [split; done|lia].
Qed.

Lemma scan_words_bound st : pmm_ok st →
  0 < scan_words st ≤ BITMAP_WORDS ∧ scan_pfns st ≤ scan_words st * 64.
Proof.
  intros H. pose proof (scan_pfns_bound st H) as Hp. unfold scan_words.
  assert (BITMAP_TOTAL_PAGES = 4194304) as Ht by done.
  assert (BITMAP_WORDS = 65536) as Hw by done.
  split; divlia.
Qed.

Lemma scan_hint_bound st : pmm_ok st → 0 ≤ scan_hint st < scan_words st.
Proof.
  intros H. pose proof (scan_words_bound st H). destruct H as [_ Hh _ _].
  unfold scan_hint. zcase; lia.
Qed.

Lemma scan_word_bound h n s : 0 ≤ h < n → 0 ≤ s < n → 0 ≤ scan_word h n s < n.
Proof. intros. unfold scan_word. cbn zeta. zcase; lia. Qed.

(** The scan visits every word: word [w] is visited at one index. *)
Lemma scan_word_onto h n w : 0 ≤ h < n → 0 ≤ w < n →
  ∃ s, 0 ≤ s < n ∧ scan_word h n s = w.
Proof.
  intros Hh Hw. unfold scan_word. cbn zeta. destruct (Z.lt_ge_cases w h).
  - exists (w + n - h). split; [lia|]. zcase; lia.
  - exists (w - h). split; [lia|]. zcase; lia.
Qed.

Lemma u64_idem x : u64 (u64 x) = u64 x.
Proof. unfold u64. by rewrite Z.mod_mod by lia. Qed.

Lemma u64_add_l x y : u64 (u64 x + y) = u64 (x + y).
Proof. unfold u64. by rewrite Zplus_mod_idemp_l. Qed.

Lemma takes_nil st st' :
  pmm_bitmap st' = pmm_bitmap st → used_memory st' = used_memory st →
  rest st' = rest st → (pmm_ok st → pmm_ok st') → takes st st' [].
Proof.
  intros Hb Hu Hr Hok. split; try done.
  - intros p Hp. unfold free. rewrite Hb. by rewrite andb_true_r.
  - constructor.
  - rewrite Hu. f_equal. cbn. lia.
Qed.

Lemma takes_refl st : takes st st [].
Proof. by apply takes_nil. Qed.

Lemma takes_hint st h : 0 ≤ h < BITMAP_WORDS → takes st (with_hint h st) [].
Proof. intros Hh. apply takes_nil; try done. by intros [? _ ? ?]. Qed.

Lemma takes_one st p : 0 ≤ p → free st p = true → takes st (take_page p st) [p].
Proof.
  intros Hp Hf. split.
  - intros q Hq. unfold free, take_page. cbn. rewrite is_free_set_used by lia.
    rewrite andb_comm. f_equal. destruct (Z.eqb_spec q p) as [->|Hne].
    + rewrite bool_decide_eq_true_2; [done|]. by apply list_elem_of_singleton.
    + rewrite bool_decide_eq_false_2; [done|]. by rewrite list_elem_of_singleton.
  - apply NoDup_singleton.
  - by constructor.
  - cbn. rewrite u64_idem. f_equal.
  - done.
  - intros [? ? ? ?]. split; cbn; [by apply set_used_ok|done|apply u64_range|done].
Qed.

Lemma takes_trans st1 st2 st3 ps qs :
  takes st1 st2 ps → takes st2 st3 qs → takes st1 st3 (ps ++ qs).
Proof.
  intros H1 H2.
  assert (Hfrom : ∀ p, p ∈ qs → 0 ≤ p ∧ free st1 p = true ∧ p ∉ ps).
  { intros p Hp. pose proof (tk_from _ _ _ H2) as Hf. rewrite Forall_forall in Hf.
    destruct (Hf p Hp) as [Hr Hfp]. split; [done|].
    rewrite (tk_free _ _ _ H1) in Hfp by lia. apply andb_true_iff in Hfp as [? Hn].
    split; [done|]. by apply negb_true_iff, bool_decide_eq_false in Hn. }
  split.
  - intros p Hp. rewrite (tk_free _ _ _ H2), (tk_free _ _ _ H1) by done.
    rewrite <- andb_assoc. f_equal. rewrite <- negb_orb. f_equal.
    rewrite <- bool_decide_or. apply bool_decide_ext. by rewrite elem_of_app.
  - apply NoDup_app. split_and!; [apply H1| |apply H2].
    intros p Hp Hq. by apply Hfrom in Hq as (_ & _ & ?).
  - apply Forall_app. split; [apply H1|]. apply Forall_forall.
    intros p Hp. apply Hfrom in Hp as (? & ? & _). done.
  - rewrite (tk_used _ _ _ H2), <- u64_add_l, (tk_used _ _ _ H1), u64_add_l.
    rewrite length_app. f_equal. lia.
  - by rewrite (tk_rest _ _ _ H2), (tk_rest _ _ _ H1).
  - intros. by apply H2, H1.
Qed.

(** Marking a free run used, as the [found] label of [pmm_alloc_pages] does. *)
Lemma takes_run st r cnt :
  0 ≤ r → 0 ≤ cnt → r + cnt ≤ BITMAP_TOTAL_PAGES → free_run (free st) r cnt →
  takes st (take_run r cnt st) (seqZ r cnt).
Proof.
  intros Hr Hc Hb Hrun. unfold take_run.
  set (st1 := iterate (Z.to_nat cnt) 0 _ st).
  assert (H : (∀ p, 0 ≤ p → free st1 p = free st p && negb (bool_decide (r ≤ p < r + cnt))) ∧
              used_memory st1 = used_memory st ∧ rest st1 = rest st ∧
              (pmm_ok st → pmm_ok st1)).
  { set (P := λ (i : Z) (s : pmm_state),
      (∀ p, 0 ≤ p → free s p = free st p && negb (bool_decide (r ≤ p < r + i))) ∧
      used_memory s = used_memory st ∧ rest s = rest st ∧ (pmm_ok st → pmm_ok s)).
    change (P cnt st1). unfold st1. apply for_ind; [done| |].
    - unfold P. split_and!; try done. intros p Hp. rewrite bool_decide_eq_false_2 by lia.
      by rewrite andb_true_r.
    - unfold P. intros i s Hi (H1 & H2 & H3 & H4). split_and!; try done.
      + intros p Hp. unfold free at 1. cbn. rewrite is_free_set_used by lia.
        change (bitmap_is_free (pmm_bitmap s) p) with (free s p). rewrite H1 by done.
        destruct (Z.eqb_spec p (r + i)) as [->|].
        * rewrite (bool_decide_eq_true_2 (r ≤ r + i < r + (i + 1))) by lia.
          by rewrite andb_false_r.
        * cbn [negb andb]. do 2 f_equal. apply bool_decide_ext. lia.
      + intros Hok. destruct (H4 Hok) as [? ? ? ?]. split; try done. cbn. by apply set_used_ok. }
  destruct H as (H1 & H2 & H3 & H4).
  assert (Hin : ∀ p, p ∈ seqZ r cnt ↔ r ≤ p < r + cnt) by (intros; by rewrite elem_of_seqZ).
  split.
  - intros p Hp. unfold free at 1. cbn [pmm_bitmap with_hint with_used].
    change (bitmap_is_free (pmm_bitmap st1) p) with (free st1 p). rewrite H1 by done.
    do 2 f_equal. apply bool_decide_ext. by rewrite Hin.
  - apply NoDup_seqZ.
  - apply Forall_forall. intros p Hp%Hin. split; [lia|]. by apply Hrun.
  - cbn [used_memory with_hint with_used]. rewrite u64_idem, H2, length_seqZ, Z2Nat.id by done.
    rewrite (u64_small (cnt * MIN_PAGE_SIZE)); [f_equal; lia|].
    assert (BITMAP_TOTAL_PAGES = 4194304) by done. unfold MIN_PAGE_SIZE. lia.
  - done.
  - intros Hok. destruct (H4 Hok) as [? ? ? ?]. split; cbn; try done; [|apply u64_range].
    assert (BITMAP_TOTAL_PAGES = 4194304) as Ht by done.
    assert (BITMAP_WORDS = 65536) as Hw by done. rewrite Ht, Hw in *. zcase; divlia.
Qed.

(** ** The batch scan *)

(** No frame of word [w] in the range is left free. *)
Definition word_exhausted (st : pmm_state) (total_pfns w : Z) : Prop :=
  ∀ i, 0 ≤ i < 64 → 1 ≤ w * 64 + i < total_pfns → free st (w * 64 + i) = false.

Lemma takes_exhausted st st' ps n w : 0 ≤ w →
  takes st st' ps → word_exhausted st n w → word_exhausted st' n w.
Proof.
  intros Hw H He i Hi Hr. rewrite (tk_free _ _ _ H) by lia. by rewrite He by lia.
Qed.

Lemma batch_word_spec fuel w bits want st out :
  0 ≤ w → 0 ≤ bits < 2 ^ 64 → (fuel ≤ 64)%nat →
  (∀ i, 0 ≤ i < 64 - Z.of_nat fuel → Z.testbit bits i = false) →
  (∀ i, 0 ≤ i < 64 → Z.testbit bits i = true → free st (w * 64 + i) = true) →
  (Z.of_nat (length out) ≤ want) →
  ∃ ps, let '(st', out') := batch_word fuel w bits want (scan_pfns st) (st, out) in
    takes st st' ps ∧ out' = out ++ (addr_of_pfn <$> ps) ∧
    Z.of_nat (length out') ≤ want ∧
    (Z.of_nat (length out') < want → ∀ i, 0 ≤ i < 64 → Z.testbit bits i = true →
       1 ≤ w * 64 + i < scan_pfns st → free st' (w * 64 + i) = false).
Proof.
  intros Hw. revert bits st out.
  induction fuel as [|fuel IH]; intros bits st out Hbits Hfuel Hlow Hfree Hlen.
  { exists []. cbn. rewrite app_nil_r. split_and!; [apply takes_refl|done|done|].
    intros _ i Hi Hb. rewrite Hlow in Hb by lia. done. }
  cbn [batch_word].
  destruct (Z.eqb_spec bits 0) as [H0|H0]; cbn [negb andb].
  { exists []. cbn. rewrite app_nil_r. split_and!; [apply takes_refl|done|done|].
    intros _ i Hi Hb. by rewrite H0, Z.testbit_0_l in Hb. }
  destruct (Z.ltb_spec (Z.of_nat (length out)) want) as [Hlt|Hge].
  2: { exists []. cbn. rewrite app_nil_r. split_and!; [apply takes_refl|done|done|lia]. }
  destruct (ctzll_spec bits ltac:(lia)) as (Hc0 & Hc1 & Hc2).
  pose proof (ctzll_range bits ltac:(lia)) as Hc3.
  set (b := ctzll bits) in *. set (bits' := Z.land bits (not64 (Z.shiftl 1 b))).
  assert (Hbits' : 0 ≤ bits' < 2 ^ 64) by (by apply land_range_l).
  assert (Hb' : ∀ i, 0 ≤ i < 64 → Z.testbit bits' i = negb (i =? b) && Z.testbit bits i).
  { intros i Hi. by apply land_not_bit_spec. }
  assert (Hlow' : ∀ i, 0 ≤ i < 64 - Z.of_nat fuel → Z.testbit bits' i = false).
  { intros i Hi. rewrite Hb' by lia. destruct (Z.eqb_spec i b); [done|]. cbn [negb andb].
    destruct (Z.lt_ge_cases i b); [by apply Hc2; lia|].
    destruct (Z.lt_ge_cases b (64 - Z.of_nat (S fuel))); [|lia].
    rewrite Hlow in Hc1 by lia. done. }
  assert (Hold : ∀ i, 0 ≤ i < 64 → Z.testbit bits' i = true → i ≠ b ∧ Z.testbit bits i = true).
  { intros i Hi. rewrite Hb' by lia. destruct (Z.eqb_spec i b); done. }
  destruct ((w * 64 + b =? 0) || (scan_pfns st <=? w * 64 + b)) eqn:Eskip.
  - destruct (IH bits' st out) as [ps Hps]; try done; [lia| |].
    { intros i Hi Hb. apply Hfree; [done|]. by apply Hold. }
    exists ps. destruct (batch_word fuel w bits' want (scan_pfns st) (st, out)) as [st' out'].
    destruct Hps as (? & ? & ? & Hex). split_and!; try done.
    intros Hl i Hi Hbi Hr. destruct (Z.eq_dec i b) as [->|].
    + apply orb_true_iff in Eskip as [E|E]; [apply Z.eqb_eq in E|apply Z.leb_le in E]; lia.
    + apply Hex; try done. rewrite Hb' by lia. by destruct (Z.eqb_spec i b).
  - apply orb_false_iff in Eskip as [E1%Z.eqb_neq E2%Z.leb_gt].
    assert (Ht1 : takes st (take_page (w * 64 + b) st) [w * 64 + b]).
    { apply takes_one; [lia|]. apply Hfree; [lia|done]. }
    pose proof (rest_scan_pfns _ _ (tk_rest _ _ _ Ht1)) as Hsp.
    destruct (IH bits' (take_page (w * 64 + b) st) (out ++ [addr_of_pfn (w * 64 + b)]))
      as [ps Hps]; try done; [lia| | |].
    { intros i Hi Hb. destruct (Hold i Hi Hb) as [Hne Hb0].
      rewrite (tk_free _ _ _ Ht1) by lia. rewrite (Hfree i Hi Hb0).
      rewrite bool_decide_eq_false_2; [done|]. rewrite list_elem_of_singleton. lia. }
    { rewrite length_app. cbn. lia. }
    exists ((w * 64 + b) :: ps). rewrite Hsp in Hps.
    destruct (batch_word fuel w bits' want (scan_pfns st) _) as [st' out'].
    destruct Hps as (Ht2 & -> & Hl & Hex). split_and!.
    + apply (takes_trans _ _ _ _ _ Ht1 Ht2).
    + by rewrite <- app_assoc.
    + done.
    + intros Hl' i Hi Hbi Hr. destruct (Z.eq_dec i b) as [->|].
      * rewrite (tk_free _ _ _ Ht2), (tk_free _ _ _ Ht1) by lia.
        rewrite (bool_decide_eq_true_2 (_ ∈ [_])) by (by apply list_elem_of_singleton).
        by rewrite andb_false_r.
      * apply Hex; try done. rewrite Hb' by lia. by destruct (Z.eqb_spec i b).
Qed.

Lemma word_zero_exhausted st n w : 0 ≤ w → bitmap_word (pmm_bitmap st) w = 0 →
  word_exhausted st n w.
Proof.
  intros Hw H0 i Hi _. unfold free. rewrite is_free_word, H0 by lia. apply Z.testbit_0_l.
Qed.

Lemma batch_loop_spec fuel hint want scanned st out :
  pmm_ok st → 0 ≤ hint < scan_words st → 0 ≤ scanned ≤ scan_words st →
  scan_words st - scanned ≤ Z.of_nat fuel → Z.of_nat (length out) ≤ want →
  ∃ ps, let '(st', out') :=
          batch_loop fuel hint (scan_words st) (scan_pfns st) want scanned (st, out) in
    takes st st' ps ∧ out' = out ++ (addr_of_pfn <$> ps) ∧
    Z.of_nat (length out') ≤ want ∧
    (Z.of_nat (length out') < want → ∀ s, scanned ≤ s < scan_words st →
       word_exhausted st' (scan_pfns st) (scan_word hint (scan_words st) s)).
Proof.
  revert scanned st out.
  induction fuel as [|fuel IH]; intros scanned st out Hok Hh Hs Hfuel Hlen.
  { exists []. cbn. rewrite app_nil_r. split_and!; [apply takes_refl|done|done|lia]. }
  cbn [batch_loop].
  destruct (Z.ltb_spec scanned (scan_words st)) as [Hlt|]; cbn [andb].
  2: { exists []. cbn. rewrite app_nil_r. split_and!; [apply takes_refl|done|done|lia]. }
  destruct (Z.ltb_spec (Z.of_nat (length out)) want) as [Hw|].
  2: { exists []. cbn. rewrite app_nil_r. split_and!; [apply takes_refl|done|done|lia]. }
  pose proof (scan_words_bound st Hok) as [Hwb Hpb].
  pose proof (scan_word_bound hint (scan_words st) scanned ltac:(lia) ltac:(lia)) as Hsw.
  set (w := scan_word hint (scan_words st) scanned) in *.
  destruct (Z.eqb_spec (bitmap_word (pmm_bitmap st) w) 0) as [H0|H0].
  { destruct (IH (scanned + 1) st out) as [ps Hps]; try done; try lia.
    exists ps. destruct (batch_loop _ _ _ _ _ _ _) as [st' out'].
    destruct Hps as (Ht & ? & ? & Hex). split_and!; try done.
    intros Hl s Hs'. destruct (Z.eq_dec s scanned) as [->|]; [|apply Hex; [done|lia]].
    fold w. apply (takes_exhausted st st' ps); [lia|done|].
    apply word_zero_exhausted; [lia|done]. }
  destruct (batch_word_spec 64 w (bitmap_word (pmm_bitmap st) w) want st out) as [ps1 H1];
    [lia|apply Hok|lia|lia| |lia|].
  { intros i Hi Hb. unfold free. rewrite is_free_word by lia. done. }
  destruct (batch_word 64 w _ want (scan_pfns st) (st, out)) as [st1 out1].
  destruct H1 as (Ht1 & -> & Hl1 & Hex1).
  assert (Ht1' : takes st (with_hint w st1) ps1).
  { rewrite <- (app_nil_r ps1). eapply takes_trans; [done|]. apply takes_hint. lia. }
  pose proof (rest_scan_pfns _ _ (tk_rest _ _ _ Ht1')) as Hsp.
  assert (Hsw' : scan_words (with_hint w st1) = scan_words st)
    by (unfold scan_words; by rewrite Hsp).
  destruct (IH (scanned + 1) (with_hint w st1) (out ++ (addr_of_pfn <$> ps1))) as [ps2 H2];
    rewrite ?Hsw'; try lia; [by apply Ht1'|].
  exists (ps1 ++ ps2). rewrite Hsp, Hsw' in H2.
  destruct (batch_loop _ _ _ _ _ _ _) as [st2 out2].
  destruct H2 as (Ht2 & -> & Hl2 & Hex2). split_and!.
  - by eapply takes_trans.
  - by rewrite fmap_app, app_assoc.
  - done.
  - intros Hl s Hs'. destruct (Z.eq_dec s scanned) as [->|]; [|apply Hex2; [done|lia]].
    fold w. eapply takes_exhausted; [lia|exact Ht2|].
    intros i Hi Hr.
    destruct (Z.testbit (bitmap_word (pmm_bitmap st) w) i) eqn:Hb.
    + rewrite length_app in Hl. by apply (Hex1 ltac:(lia) i).
    + rewrite (tk_free _ _ _ Ht1') by lia.
      unfold free at 1. by rewrite is_free_word, Hb by lia.
Qed.

(** The batch allocation: distinct free frames, at most [want], and fewer only
    when no allocatable frame is left. *)
Lemma alloc_batch_spec want st : pmm_ok st → 0 ≤ want →
  ∃ ps, let '(st', out) := pmm_alloc_batch_slow want st in
    takes st st' ps ∧ out = addr_of_pfn <$> ps ∧ Z.of_nat (length ps) ≤ want ∧
    (Z.of_nat (length ps) < want → ∀ p, 1 ≤ p < scan_pfns st → free st' p = false).
Proof.
  intros Hok Hw. unfold pmm_alloc_batch_slow.
  destruct (Z.eqb_spec want 0) as [->|].
  { exists []. split_and!; [apply takes_refl|done|done|cbn; lia]. }
  pose proof (scan_words_bound st Hok) as [Hwb Hpb].
  destruct (batch_loop_spec (Z.to_nat (scan_words st)) (scan_hint st) want 0 st [])
    as [ps Hps]; try done; [by apply scan_hint_bound|lia|lia|].
  exists ps. destruct (batch_loop _ _ _ _ _ _ _) as [st' out].
  destruct Hps as (Ht & -> & Hl & Hex). cbn in Hl, Hex |- *.
  rewrite length_fmap in Hl, Hex. split_and!; try done.
  intros Hlt p Hp.
  destruct (scan_word_onto (scan_hint st) (scan_words st) (p / 64)) as (s & Hs & Hsw);
    [by apply scan_hint_bound|divlia|].
  specialize (Hex Hlt s Hs). rewrite Hsw in Hex.
  specialize (Hex (p mod 64) ltac:(divlia)).
  replace (p / 64 * 64 + p mod 64) with p in Hex by divlia. by apply Hex.
Qed.

(** ** The single-page scan *)

Lemma alloc_slow_loop_spec fuel hint scanned st :
  pmm_ok st → free st 0 = false →
  0 ≤ hint < scan_words st → 0 ≤ scanned ≤ scan_words st →
  scan_words st - scanned = Z.of_nat fuel →
  let '(st', page) := alloc_slow_loop fuel hint (scan_words st) (scan_pfns st) scanned st in
  (∃ p, takes st st' [p] ∧ page = addr_of_pfn p) ∨
  (st' = st ∧ page = 0 ∧ ∀ s, scanned ≤ s < scan_words st →
     word_exhausted st (scan_pfns st) (scan_word hint (scan_words st) s)).
Proof.
  intros Hok Hz Hh. revert scanned.
  induction fuel as [|fuel IH]; intros scanned Hs Hfuel; cbn [alloc_slow_loop].
  { right. split_and!; [done|done|lia]. }
  pose proof (scan_words_bound st Hok) as [Hwb Hpb].
  pose proof (scan_word_bound hint (scan_words st) scanned ltac:(lia) ltac:(lia)) as Hsw.
  assert (Hrec : word_exhausted st (scan_pfns st) (scan_word hint (scan_words st) scanned) →
    let '(st', page) := alloc_slow_loop fuel hint (scan_words st) (scan_pfns st) (scanned + 1) st in
    (∃ p, takes st st' [p] ∧ page = addr_of_pfn p) ∨
    (st' = st ∧ page = 0 ∧ ∀ s, scanned ≤ s < scan_words st →
       word_exhausted st (scan_pfns st) (scan_word hint (scan_words st) s))).
  { intros He. specialize (IH (scanned + 1) ltac:(lia) ltac:(lia)).
    destruct (alloc_slow_loop _ _ _ _ _ _) as [st' page].
    destruct IH as [?|(? & ? & Hall)]; [by left|right]. split_and!; try done.
    intros s Hs'. destruct (Z.eq_dec s scanned) as [->|]; [done|]. apply Hall. lia. }
  set (w := scan_word hint (scan_words st) scanned) in *.
  set (bits := bitmap_word (pmm_bitmap st) w) in *.
  pose proof (ok_bitmap _ Hok w) as Hbits. fold bits in Hbits.
  destruct (Z.eqb_spec bits 0) as [H0|H0].
  { apply Hrec, word_zero_exhausted; [lia|done]. }
  destruct (ctzll_spec bits ltac:(lia)) as (Hc0 & Hc1 & Hc2).
  pose proof (ctzll_range bits ltac:(lia)) as Hc3.
  set (b := ctzll bits) in *.
  assert (Hb : free st (w * 64 + b) = true).
  { unfold free. by rewrite is_free_word by lia. }
  destruct ((w * 64 + b =? 0) || (scan_pfns st <=? w * 64 + b)) eqn:Eskip.
  - apply Hrec. intros i Hi Hr.
    destruct (Z.eq_dec (w * 64 + b) 0) as [E|E]; [rewrite E in Hb; congruence|].
    apply orb_true_iff in Eskip as [E1%Z.eqb_eq|E2%Z.leb_le]; [lia|].
    unfold free. rewrite is_free_word by lia. apply Hc2. lia.
  - apply orb_false_iff in Eskip as [E1%Z.eqb_neq E2%Z.leb_gt].
    left. exists (w * 64 + b). split; [|done].
    rewrite <- (app_nil_r [_]). eapply takes_trans; [apply takes_one; [lia|done]|].
    apply takes_hint. lia.
Qed.

(** One page of the pool, or NULL when no allocatable frame is free (frame 0,
    which boot never frees, would hide its word). *)
Lemma alloc_page_slow_spec st : pmm_ok st → free st 0 = false →
  let '(st', page) := pmm_alloc_page_slow st in
  (∃ p, takes st st' [p] ∧ page = addr_of_pfn p) ∨
  (st' = st ∧ page = 0 ∧ ∀ p, 1 ≤ p < scan_pfns st → free st p = false).
Proof.
  intros Hok Hz. pose proof (scan_words_bound st Hok) as [Hwb Hpb].
  pose proof (alloc_slow_loop_spec (Z.to_nat (scan_words st)) (scan_hint st) 0 st Hok Hz
    (scan_hint_bound st Hok) ltac:(lia) ltac:(lia)) as H.
  unfold pmm_alloc_page_slow. destruct (alloc_slow_loop _ _ _ _ _ _) as [st' page].
  destruct H as [?|(? & ? & Hall)]; [by left|right]. split_and!; try done.
  intros p Hp.
  destruct (scan_word_onto (scan_hint st) (scan_words st) (p / 64)) as (s & Hs & Hsw);
    [by apply scan_hint_bound|divlia|].
  specialize (Hall s Hs). rewrite Hsw in Hall.
  specialize (Hall (p mod 64) ltac:(divlia)).
  replace (p / 64 * 64 + p mod 64) with p in Hall by divlia. by apply Hall.
Qed.

End PmmScan.
