(* ===== verification/PmmSys.v ===== *)
(** * Physical memory manager: interleaved execution and its invariant

    The operations of pmm.c run on several CPUs and drop their locks half way
    (the cache lock is released before the global pool is touched).  [step]
    interleaves the lock-protected sections of any number of operations in
    flight, together with the clients that own pages.  The invariant says that
    the frames boot made available are split, without overlap or loss, between
    the bitmap, the per-CPU caches, the operations in flight, the clients and
    the pages a blocked free leaked; [used_memory] counts all but the first. *)

From S2P Require Import Prelude Pmm PmmFacts PmmScan.

Module PmmSys.
Import Pmm PmmFacts PmmScan.

(** An operation between two of its lock-protected sections. *)
Inductive pc :=
| AllocRefill (c : Z)
| AllocDeposit (c : Z) (refill_pages : list Z)
| AllocOverflow (c page : Z) (refill_pages : list Z)
| FreeCache (c page : Z)
| FreeDrain (drain_pages : list Z)
| Reclaim (pages_to_free : list Z).

(** The pages an operation in flight holds in its local variables. *)
Definition held (o : pc) : list Z :=
  match o with
  | AllocRefill _ => []
  | AllocDeposit _ ps => ps
  | AllocOverflow _ p ps => p :: ps
  | FreeCache _ p => [p]
  | FreeDrain ps => ps
  | Reclaim ps => ps
  end.

Record sys := Sys {
  pmm : pmm_state;
  running : list pc;
  owned : list Z;
  leaked : list Z }.

(** The pages of a contiguous run, as addresses. *)
Definition run_pages (base cnt : Z) : list Z := (λ i, base + i * MIN_PAGE_SIZE) <$> seqZ 0 cnt.

(** Remove the run from the owned pages: what the client that frees it gives up. *)
Definition disown (ps owned : list Z) : list Z := filter (λ a, a ∉ ps) owned.

Inductive step : sys → sys → Prop :=
| step_alloc_hit st rs ow lk cpu st' page :
    0 ≤ cpu → alloc_begin (clamp_cpu cpu) st = (st', Some page) →
    step (Sys st rs ow lk) (Sys st' rs (page :: ow) lk)
| step_alloc_miss st rs ow lk cpu st' :
    0 ≤ cpu → alloc_begin (clamp_cpu cpu) st = (st', None) →
    step (Sys st rs ow lk) (Sys st' (AllocRefill (clamp_cpu cpu) :: rs) ow lk)
| step_refill st r1 r2 ow lk c st' out :
    pmm_alloc_batch_slow PER_CPU_CACHE_SIZE st = (st', out) →
    step (Sys st (r1 ++ AllocRefill c :: r2) ow lk)
         (Sys st' (r1 ++ AllocDeposit c out :: r2) ow lk)
| step_deposit st r1 r2 ow lk c p ps :
    count (cache_of c st) < PER_CPU_CACHE_SIZE →
    step (Sys st (r1 ++ AllocDeposit c (p :: ps) :: r2) ow lk)
         (Sys (alloc_deposit_one c st p) (r1 ++ AllocDeposit c ps :: r2) ow lk)
| step_cache_full st r1 r2 ow lk c p ps :
    PER_CPU_CACHE_SIZE ≤ count (cache_of c st) →
    step (Sys st (r1 ++ AllocDeposit c (p :: ps) :: r2) ow lk)
         (Sys st (r1 ++ AllocOverflow c p ps :: r2) ow lk)
| step_overflow st r1 r2 ow lk c p ps :
    step (Sys st (r1 ++ AllocOverflow c p ps :: r2) ow lk)
         (Sys (pmm_free_page_slow p st) (r1 ++ AllocDeposit c ps :: r2) ow lk)
| step_finish st r1 r2 ow lk c st' page :
    alloc_finish c st = (st', page) → page ≠ 0 →
    step (Sys st (r1 ++ AllocDeposit c [] :: r2) ow lk) (Sys st' (r1 ++ r2) (page :: ow) lk)
| step_oom st r1 r2 ow lk c st' :
    alloc_finish c st = (st', 0) →
    step (Sys st (r1 ++ AllocDeposit c [] :: r2) ow lk) (Sys st' (r1 ++ r2) ow lk)
| step_free_blocked st rs ow lk page mem :
    page ∈ ow → free_blocked mem page st = true →
    step (Sys st rs ow lk) (Sys st rs (disown [page] ow) (page :: lk))
| step_free st rs ow lk cpu page mem :
    0 ≤ cpu → page ∈ ow → free_blocked mem page st = false →
    step (Sys st rs ow lk)
         (Sys st (FreeCache (clamp_cpu cpu) page :: rs) (disown [page] ow) lk)
| step_free_cache st r1 r2 ow lk c page st' drain :
    free_to_cache c page st = (st', drain) →
    step (Sys st (r1 ++ FreeCache c page :: r2) ow lk)
         (Sys st' (r1 ++ FreeDrain drain :: r2) ow lk)
| step_free_drain st r1 r2 ow lk ps :
    step (Sys st (r1 ++ FreeDrain ps :: r2) ow lk)
         (Sys (pmm_free_batch_slow ps st) (r1 ++ r2) ow lk)
| step_alloc_run st rs ow lk cpu cnt st' base :
    2 ≤ cnt → pmm_alloc_pages cpu cnt st = (st', base) → base ≠ 0 →
    step (Sys st rs ow lk) (Sys st' rs (run_pages base cnt ++ ow) lk)
| step_alloc_run_fail st rs ow lk cpu cnt st' :
    2 ≤ cnt → pmm_alloc_pages cpu cnt st = (st', 0) →
    step (Sys st rs ow lk) (Sys st' rs ow lk)
| step_free_run st rs ow lk cpu base cnt mem st' :
    2 ≤ cnt → run_pages base cnt ⊆ ow → pmm_free_pages mem cpu base cnt st = st' →
    step (Sys st rs ow lk)
         (Sys st' rs (disown (run_pages base cnt) ow)
            (filter (λ a, free st' (pfn_of a) = false) (run_pages base cnt) ++ lk))
| step_reclaim st rs ow lk cpu k :
    0 ≤ cpu < MAX_CPUS → k = cache_of cpu st →
    step (Sys st rs ow lk)
         (Sys (set_cache cpu (Cache (pages k) 0 (alloc_fast k) (alloc_slow k)) st)
            (Reclaim (take (Z.to_nat (count k)) (pages k)) :: rs) ow lk)
| step_reclaim_page st r1 r2 ow lk p ps :
    step (Sys st (r1 ++ Reclaim (p :: ps) :: r2) ow lk)
         (Sys (pmm_free_page_slow p st) (r1 ++ Reclaim ps :: r2) ow lk)
| step_reclaim_done st r1 r2 ow lk :
    step (Sys st (r1 ++ Reclaim [] :: r2) ow lk) (Sys st (r1 ++ r2) ow lk).

(** ** The invariant *)

(** The pages parked in a cache: [pages[0 .. count)]. *)
Definition cache_live (k : per_cpu_page_cache_t) : list Z := take (Z.to_nat (count k)) (pages k).
Definition cached (st : pmm_state) : list Z := concat (cache_live <$> cpu_caches st).

Definition cache_ok (k : per_cpu_page_cache_t) : Prop :=
  length (pages k) = 16%nat ∧ 0 ≤ count k ≤ PER_CPU_CACHE_SIZE.
Definition caches_ok (st : pmm_state) : Prop :=
  length (cpu_caches st) = 8%nat ∧ Forall cache_ok (cpu_caches st).

Definition pc_cpu_ok (o : pc) : Prop :=
  match o with
  | AllocRefill c | AllocDeposit c _ | AllocOverflow c _ _ | FreeCache c _ => 0 ≤ c < MAX_CPUS
  | _ => True
  end.

(** The frames boot handed to the allocator: none below 1 MiB or past the bitmap. *)
Definition managed_ok (F : Z → bool) : Prop := ∀ p, F p = true → 256 ≤ p < BITMAP_TOTAL_PAGES.

(** The bitmap and the counter against the list [tr] of pages out of the pool. *)
Record core (F : Z → bool) (st : pmm_state) (tr : list Z) : Prop := {
  co_ok : pmm_ok st;
  co_nodup : NoDup tr;
  co_managed a : a ∈ tr → ∃ p, a = addr_of_pfn p ∧ F p = true;
  co_free p : 0 ≤ p → free st p = F p && negb (bool_decide (addr_of_pfn p ∈ tr));
  co_used : used_memory st = u64 (MIN_PAGE_SIZE * Z.of_nat (length tr)) }.

(** The pages out of the pool are the cached ones and [tr], with healthy caches. *)
Definition full (F : Z → bool) (st : pmm_state) (tr : list Z) : Prop :=
  caches_ok st ∧ core F st (cached st ++ tr).

(** The pages out of the pool and not in a cache, wherever they are. *)
Definition outside (s : sys) : list Z := concat (held <$> running s) ++ owned s ++ leaked s.

Definition inv (F : Z → bool) (s : sys) : Prop :=
  full F (pmm s) (outside s) ∧ Forall pc_cpu_ok (running s).

(** ** Frames and addresses *)

Lemma addr_of_pfn_small p : 0 ≤ p < BITMAP_TOTAL_PAGES → addr_of_pfn p = p * 4096.
Proof.
  intros Hp. assert (BITMAP_TOTAL_PAGES = 4194304) by done.
  unfold addr_of_pfn, MIN_PAGE_SIZE. apply u64_small. lia.
Qed.

Lemma pfn_of_addr p : 0 ≤ p < BITMAP_TOTAL_PAGES → pfn_of (addr_of_pfn p) = p.
Proof. intros. rewrite addr_of_pfn_small by done. unfold pfn_of, MIN_PAGE_SIZE. divlia. Qed.

Lemma managed_range F p : managed_ok F → F p = true → 0 ≤ p < BITMAP_TOTAL_PAGES.
Proof. intros HF Hp. specialize (HF p Hp). lia. Qed.

Lemma addr_of_pfn_inj p q : 0 ≤ p < BITMAP_TOTAL_PAGES → 0 ≤ q < BITMAP_TOTAL_PAGES →
  addr_of_pfn p = addr_of_pfn q → p = q.
Proof. intros Hp Hq. rewrite !addr_of_pfn_small by done. lia. Qed.

(** ** The core under the pool's operations *)

#[export] Instance core_perm F st : Proper ((≡ₚ) ==> iff) (core F st).
Proof.
  intros tr tr' Hp. split; intros [H1 H2 H3 H4 H5]; split; try done.
  - by rewrite <- Hp.
  - intros a Ha. apply H3. by rewrite Hp.
  - intros p Hp0. rewrite H4 by done. do 2 f_equal. apply bool_decide_ext. by rewrite Hp.
  - by rewrite H5, Hp.
  - by rewrite Hp.
  - intros a Ha. apply H3. by rewrite <- Hp.
  - intros p Hp0. rewrite H4 by done. do 2 f_equal. apply bool_decide_ext. by rewrite Hp.
  - by rewrite H5, Hp.
Qed.

(** Neither the caches nor the hint matter to the core. *)
Lemma core_same F st st' tr :
  pmm_bitmap st' = pmm_bitmap st → 0 ≤ pmm_bitmap_hint st' < BITMAP_WORDS →
  used_memory st' = used_memory st → total_memory st' = total_memory st →
  core F st tr → core F st' tr.
Proof.
  intros Hb Hh Hu Ht [[? ? ? ?] H2 H3 H4 H5]. split; try done.
  - split; by rewrite ?Hb, ?Hu, ?Ht.
  - intros p Hp. unfold free. rewrite Hb. by apply H4.
  - by rewrite Hu.
Qed.

Lemma core_take F st st' ps tr : managed_ok F →
  takes st st' ps → core F st tr → core F st' ((addr_of_pfn <$> ps) ++ tr).
Proof.
  intros HF Ht [Hok Hnd Hm Hf Hu].
  assert (Hps : ∀ p, p ∈ ps → F p = true ∧ addr_of_pfn p ∉ tr).
  { intros p Hp. pose proof (tk_from _ _ _ Ht) as Hfrom. rewrite Forall_forall in Hfrom.
    destruct (Hfrom p Hp) as [Hp0 Hfp]. rewrite Hf in Hfp by done.
    apply andb_true_iff in Hfp as [? Hn]. split; [done|].
    by apply negb_true_iff, bool_decide_eq_false in Hn. }
  assert (Hin : ∀ p, 0 ≤ p → F p = true → addr_of_pfn p ∈ addr_of_pfn <$> ps → p ∈ ps).
  { intros p Hp HFp (q & Heq & Hq)%list_elem_of_fmap. destruct (Hps q Hq) as [HFq _].
    apply addr_of_pfn_inj in Heq as ->; [done|..]; by apply (managed_range F). }
  split.
  - by apply Ht.
  - apply NoDup_app. split_and!; [|by intros a (p & -> & Hp%Hps)%list_elem_of_fmap; apply Hp|done].
    apply NoDup_fmap_2_strong; [|by apply (tk_nodup _ _ _ Ht)].
    intros p q Hp Hq. apply Hps in Hp as [? _]. apply Hps in Hq as [? _].
    apply addr_of_pfn_inj; by apply (managed_range F).
  - intros a [(p & -> & Hp)%list_elem_of_fmap|Ha]%elem_of_app; [|by apply Hm].
    exists p. split; [done|]. by apply Hps.
  - intros p Hp. rewrite (tk_free _ _ _ Ht), Hf by done.
    destruct (F p) eqn:HFp; [|done]. cbn [andb].
    rewrite <- negb_orb. f_equal. rewrite <- bool_decide_or. apply bool_decide_ext.
    rewrite elem_of_app. split; [|by intros [?%Hin|?]; auto].
    intros [?|?]; [by right|left; by apply list_elem_of_fmap_2].
  - destruct (tk_ok _ _ _ Ht Hok) as [_ _ Hur _].
    rewrite <- (u64_small _ Hur), (tk_used _ _ _ Ht), Hu, u64_add_l.
    rewrite length_app, length_fmap. f_equal. lia.
Qed.

Lemma core_give F st a tr : managed_ok F →
  core F st (a :: tr) → core F (pmm_free_page_slow a st) tr.
Proof.
  intros HF [Hok Hnd Hm Hf Hu].
  destruct (Hm a) as (p & -> & HFp); [by left|].
  pose proof (managed_range F p HF HFp) as Hpr. pose proof (HF p HFp).
  apply NoDup_cons in Hnd as [Hnin Hnd].
  unfold pmm_free_page_slow. rewrite pfn_of_addr by done.
  destruct (Z.eqb_spec (addr_of_pfn p) 0) as [Hz|_].
  { rewrite addr_of_pfn_small in Hz by done. lia. }
  destruct (Z.ltb_spec p BITMAP_TOTAL_PAGES); [|lia].
  destruct Hok as [Hb Hh Hur Ht]. split.
  - assert (BITMAP_TOTAL_PAGES = 4194304) by done. assert (BITMAP_WORDS = 65536) by done.
    split; cbn; [apply set_free_ok; [lia|done]|divlia|apply u64_range|done].
  - done.
  - intros b Hb'. apply Hm. by right.
  - intros q Hq. unfold free. cbn. rewrite is_free_set_free by lia.
    change (bitmap_is_free (pmm_bitmap st) q) with (free st q). rewrite Hf by done.
    destruct (Z.eqb_spec q p) as [->|Hne]; cbn [orb].
    + rewrite HFp. rewrite bool_decide_eq_false_2 by done. done.
    + destruct (F q) eqn:HFq; [|done]. cbn [andb]. f_equal. apply bool_decide_ext.
      rewrite elem_of_cons. split; [|by right]. intros [He|?]; [|done].
      apply addr_of_pfn_inj in He; [done|by apply (managed_range F)|done].
  - cbn. rewrite Hu. cbn [length]. unfold u64, MIN_PAGE_SIZE.
    rewrite Zminus_mod_idemp_l. f_equal. lia.
Qed.

Lemma free_batch_one_slow st a : free_batch_one st a = pmm_free_page_slow a st.
Proof.
  unfold free_batch_one, pmm_free_page_slow. destruct (a =? 0); [done|].
  by destruct (pfn_of a <? BITMAP_TOTAL_PAGES).
Qed.

Lemma core_give_batch F ps st tr : managed_ok F →
  core F st (ps ++ tr) → core F (pmm_free_batch_slow ps st) tr.
Proof.
  intros HF. unfold pmm_free_batch_slow. revert st. induction ps as [|p ps IH]; intros st H; [done|].
  cbn [foldl]. apply IH. rewrite free_batch_one_slow. by apply core_give.
Qed.

(** ** Caches *)

Lemma cache_of_lookup c st : caches_ok st → 0 ≤ c < MAX_CPUS →
  cpu_caches st !! Z.to_nat c = Some (cache_of c st) ∧ cache_ok (cache_of c st).
Proof.
  intros [Hl Hall] Hc. unfold MAX_CPUS in Hc. unfold cache_of.
  destruct (lookup_lt_is_Some_2 (cpu_caches st) (Z.to_nat c)) as [k Hk]; [lia|].
  rewrite Hk. split; [done|]. by eapply Forall_lookup_1 in Hall.
Qed.

Lemma clamp_cpu_ok cpu : 0 ≤ cpu → 0 ≤ clamp_cpu cpu < MAX_CPUS.
Proof. intros. unfold clamp_cpu, MAX_CPUS in *. zcase; lia. Qed.

Lemma set_cache_ok c k st : caches_ok st → cache_ok k → caches_ok (set_cache c k st).
Proof.
  intros [Hl Hall] Hk. split; cbn; [by rewrite length_insert|]. by apply Forall_insert.
Qed.

Lemma cached_split c st : caches_ok st → 0 ≤ c < MAX_CPUS →
  ∃ others, cached st ≡ₚ cache_live (cache_of c st) ++ others ∧
    ∀ k, cached (set_cache c k st) ≡ₚ cache_live k ++ others.
Proof.
  intros Hok Hc. destruct (cache_of_lookup c st Hok Hc) as [Hk _].
  exists (concat (cache_live <$> take (Z.to_nat c) (cpu_caches st))
          ++ concat (cache_live <$> drop (S (Z.to_nat c)) (cpu_caches st))).
  assert (Hgen : ∀ k, concat (cache_live <$> take (Z.to_nat c) (cpu_caches st) ++
            k :: drop (S (Z.to_nat c)) (cpu_caches st)) ≡ₚ
          cache_live k ++ concat (cache_live <$> take (Z.to_nat c) (cpu_caches st))
          ++ concat (cache_live <$> drop (S (Z.to_nat c)) (cpu_caches st))).
  { intros k. rewrite fmap_app, concat_app, fmap_cons. cbn [concat]. by rewrite Permutation_app_swap_app. }
  split.
  - unfold cached. rewrite <- (take_drop_middle _ _ _ Hk) at 1. apply Hgen.
  - intros k. unfold cached. cbn [cpu_caches set_cache with_caches].
    rewrite insert_take_drop by (apply lookup_lt_Some in Hk; done). apply Hgen.
Qed.

Lemma cache_pop_live k k' p : cache_ok k → 0 < count k → cache_pop k = (k', p) →
  cache_ok k' ∧ cache_live k = cache_live k' ++ [p].
Proof.
  intros [Hl Hc] Hpos [= <- <-]. unfold PER_CPU_CACHE_SIZE in *.
  split; [split; unfold PER_CPU_CACHE_SIZE; cbn; [done|lia]|]. unfold cache_live. cbn [count pages].
  destruct (lookup_lt_is_Some_2 (pages k) (Z.to_nat (count k - 1))) as [x Hx]; [lia|].
  replace (Z.to_nat (count k)) with (S (Z.to_nat (count k - 1))) by lia.
  rewrite Hx. by apply take_S_r.
Qed.

Lemma cache_push_live k p : cache_ok k → count k < PER_CPU_CACHE_SIZE →
  cache_ok (cache_push p k) ∧ cache_live (cache_push p k) = cache_live k ++ [p].
Proof.
  intros [Hl Hc] Hlt. unfold PER_CPU_CACHE_SIZE in *.
  split; [split; unfold PER_CPU_CACHE_SIZE; cbn; [by rewrite length_insert|lia]|].
  unfold cache_live. cbn [count pages cache_push].
  replace (Z.to_nat (count k + 1)) with (S (Z.to_nat (count k))) by lia.
  apply take_insert_snoc. lia.
Qed.

Lemma cache_drain_live n k k' ps : cache_ok k → Z.of_nat n ≤ count k →
  cache_drain n k = (k', ps) →
  cache_ok k' ∧ count k' = count k - Z.of_nat n ∧ cache_live k ≡ₚ cache_live k' ++ ps.
Proof.
  revert k ps. induction n as [|n IH]; intros k ps Hok Hn; cbn [cache_drain].
  { intros [= <- <-]. rewrite app_nil_r. split_and!; [done|lia|done]. }
  destruct (cache_pop k) as [k1 p] eqn:E1.
  destruct (cache_drain n k1) as [k2 qs] eqn:E2. intros [= <- <-].
  pose proof (cache_pop_live _ _ _ Hok ltac:(lia) E1) as [Hok1 Hlive].
  assert (count k1 = count k - 1) as Hc1 by (by injection E1 as <- _).
  destruct (IH k1 qs Hok1 ltac:(lia) E2) as (Hok2 & Hc2 & Hlive2).
  split_and!; [done|lia|]. rewrite Hlive, Hlive2, <- app_assoc.
  f_equiv. by rewrite Permutation_app_comm.
Qed.

(** ** Each lock-protected section keeps the split *)

(** Permutations of concatenations, by counting occurrences. *)
Lemma count_occ_cons_add (x y : Z) l :
  count_occ Z.eq_dec (x :: l) y = (count_occ Z.eq_dec [x] y + count_occ Z.eq_dec l y)%nat.
Proof. cbn. by destruct (Z.eq_dec x y). Qed.

Ltac perm :=
  apply (Permutation_count_occ Z.eq_dec); let y := fresh in intros y;
  rewrite ?fmap_app, ?fmap_cons, ?concat_app; cbn [concat held];
  rewrite ?count_occ_app;
  repeat match goal with
  | |- context [count_occ Z.eq_dec (?x :: ?l) y] =>
      lazymatch l with [] => fail | _ => rewrite (count_occ_cons_add x y l) end
  end; rewrite ?count_occ_app, ?count_occ_nil; lia.

#[export] Instance full_perm F st : Proper ((≡ₚ) ==> iff) (full F st).
Proof. intros tr tr' Hp. unfold full. by rewrite Hp. Qed.

Lemma full_set_cache F st c k tr tr' : full F st tr → 0 ≤ c < MAX_CPUS → cache_ok k →
  cache_live (cache_of c st) ++ tr ≡ₚ cache_live k ++ tr' → full F (set_cache c k st) tr'.
Proof.
  intros [Hc Hco] Hcpu Hk Hp. split; [by apply set_cache_ok|].
  destruct (cached_split c st Hc Hcpu) as (others & H1 & H2).
  rewrite H2. rewrite H1 in Hco.
  apply (core_same F st); [done|apply Hco|done..|]. eapply core_perm; [|exact Hco].
  rewrite <- !app_assoc, (Permutation_app_comm others tr'), (Permutation_app_comm others tr).
  by rewrite !app_assoc, Hp.
Qed.

Lemma alloc_begin_full F st c tr st' o : full F st tr → 0 ≤ c < MAX_CPUS →
  alloc_begin c st = (st', o) → full F st' (match o with Some page => page :: tr | None => tr end).
Proof.
  intros Hf Hc. pose proof (cache_of_lookup c st (proj1 Hf) Hc) as [_ Hk]. unfold alloc_begin.
  destruct (Z.ltb_spec 0 (count (cache_of c st))) as [Hpos|_].
  - destruct (cache_pop (cache_of c st)) as [k p] eqn:E. intros [= <- <-].
    destruct (cache_pop_live _ _ _ Hk Hpos E) as [Hk' Hl].
    eapply full_set_cache; [exact Hf|done|exact Hk'|]. rewrite Hl. unfold cache_live. cbn.
    by rewrite <- app_assoc.
  - intros [= <- <-]. eapply full_set_cache; [exact Hf|done|exact Hk|done].
Qed.

Lemma takes_full F st st' ps tr : managed_ok F → takes st st' ps → full F st tr →
  full F st' ((addr_of_pfn <$> ps) ++ tr).
Proof.
  intros HF Ht [Hc Hco]. pose proof (rest_caches _ _ (tk_rest _ _ _ Ht)) as Hcc.
  unfold full, caches_ok, cached. rewrite Hcc. split; [done|].
  eapply core_perm; [|by eapply core_take]. by rewrite Permutation_app_swap_app.
Qed.

Lemma refill_full F st tr st' out : managed_ok F → full F st tr →
  pmm_alloc_batch_slow PER_CPU_CACHE_SIZE st = (st', out) → full F st' (out ++ tr).
Proof.
  intros HF Hf E. destruct (alloc_batch_spec PER_CPU_CACHE_SIZE st) as [ps Hps].
  { apply (proj2 Hf). } { done. }
  rewrite E in Hps. destruct Hps as (Ht & -> & _). by eapply takes_full.
Qed.

Lemma free_slow_caches p st : cpu_caches (pmm_free_page_slow p st) = cpu_caches st.
Proof.
  unfold pmm_free_page_slow. destruct (p =? 0); [done|]. by destruct (pfn_of p <? _).
Qed.

Lemma give_full F st p tr : managed_ok F → full F st (p :: tr) →
  full F (pmm_free_page_slow p st) tr.
Proof.
  intros HF [Hc Hco]. unfold full, caches_ok, cached. rewrite free_slow_caches.
  split; [done|]. apply core_give; [done|]. eapply core_perm; [|exact Hco].
  fold (cached st). perm.
Qed.

Lemma give_all_full F ps st tr : managed_ok F → full F st (ps ++ tr) →
  full F (pmm_free_batch_slow ps st) tr.
Proof.
  intros HF. unfold pmm_free_batch_slow. revert st. induction ps as [|p ps IH]; intros st H; [done|].
  cbn [foldl]. apply IH. rewrite free_batch_one_slow. by apply give_full.
Qed.

Lemma push_full F st c p tr : full F st (p :: tr) → 0 ≤ c < MAX_CPUS →
  count (cache_of c st) < PER_CPU_CACHE_SIZE →
  full F (set_cache c (cache_push p (cache_of c st)) st) tr.
Proof.
  intros Hf Hc Hlt. pose proof (cache_of_lookup c st (proj1 Hf) Hc) as [_ Hk].
  destruct (cache_push_live _ p Hk Hlt) as [Hk' Hl].
  eapply full_set_cache; [exact Hf|done|done|]. rewrite Hl. perm.
Qed.

Lemma deposit_full F st c p tr : managed_ok F → full F st (p :: tr) → 0 ≤ c < MAX_CPUS →
  full F (alloc_deposit_one c st p) tr.
Proof.
  intros HF Hf Hc. unfold alloc_deposit_one. zcase; [by apply push_full|by apply give_full].
Qed.

Lemma deposits_full F ps st c tr : managed_ok F → full F st (ps ++ tr) → 0 ≤ c < MAX_CPUS →
  full F (foldl (alloc_deposit_one c) st ps) tr.
Proof.
  intros HF. revert st. induction ps as [|p ps IH]; intros st H Hc; [done|].
  cbn [foldl]. apply IH; [|done]. by apply deposit_full.
Qed.

Lemma full_nonzero F st tr p : managed_ok F → full F st (p :: tr) → p ≠ 0.
Proof.
  intros HF [_ Hco] ->. destruct (co_managed _ _ _ Hco 0) as (q & Hq & HFq); [set_solver|].
  pose proof (HF q HFq). rewrite addr_of_pfn_small in Hq by lia. lia.
Qed.

(** The last section of an allocation pops a page exactly when there is one. *)
Lemma finish_full F st c tr st' page : managed_ok F → full F st tr → 0 ≤ c < MAX_CPUS →
  alloc_finish c st = (st', page) →
  (page ≠ 0 ∧ full F st' (page :: tr)) ∨ (page = 0 ∧ st' = st ∧ count (cache_of c st) = 0).
Proof.
  intros HF Hf Hc. pose proof (cache_of_lookup c st (proj1 Hf) Hc) as [_ Hk]. unfold alloc_finish.
  destruct (Z.ltb_spec 0 (count (cache_of c st))) as [Hpos|Hz].
  - destruct (cache_pop (cache_of c st)) as [k p] eqn:E. intros [= <- <-]. left.
    destruct (cache_pop_live _ _ _ Hk Hpos E) as [Hk' Hl].
    assert (full F (set_cache c k st) (p :: tr)) as Hf'.
    { eapply full_set_cache; [exact Hf|done|exact Hk'|]. rewrite Hl. perm. }
    split; [by eapply full_nonzero|done].
  - intros [= <- <-]. right. split_and!; [done|done|]. destruct Hk. lia.
Qed.

Lemma cached_live c st a : caches_ok st → 0 ≤ c < MAX_CPUS →
  a ∈ cache_live (cache_of c st) → a ∈ cached st.
Proof.
  intros Hok Hc Ha. destruct (cached_split c st Hok Hc) as (others & -> & _). set_solver.
Qed.

Lemma free_cache_full F st c p tr st' drain : full F st (p :: tr) → 0 ≤ c < MAX_CPUS →
  free_to_cache c p st = (st', drain) → full F st' (drain ++ tr).
Proof.
  intros Hf Hc. pose proof (cache_of_lookup c st (proj1 Hf) Hc) as [_ Hk]. unfold free_to_cache.
  change (take _ (pages (cache_of c st))) with (cache_live (cache_of c st)).
  destruct (existsb _ _) eqn:Ex.
  { exfalso. apply existsb_exists in Ex as (a & Ha & ->%Z.eqb_eq).
    destruct Hf as [Hok [_ Hnd _ _ _]]. apply NoDup_app in Hnd as (_ & Hd & _).
    apply (Hd a); [|by left]. apply (cached_live c); [done..|]. by apply list_elem_of_In. }
  destruct (Z.ltb_spec (count (cache_of c st)) PER_CPU_CACHE_SIZE) as [Hlt|Hge].
  { intros [= <- <-]. by apply push_full. }
  destruct (cache_drain _ _) as [k ps] eqn:E. intros [= <- <-].
  assert (count (cache_of c st) = 16) as Hc16 by (destruct Hk; unfold PER_CPU_CACHE_SIZE in *; lia).
  rewrite Hc16 in E. eapply cache_drain_live in E as (Hk' & Hc' & Hl); [|done|by rewrite Hc16].
  destruct (cache_push_live k p Hk') as [Hk'' Hl'].
  { rewrite Hc', Hc16. done. }
  eapply full_set_cache; [exact Hf|done|done|]. rewrite Hl, Hl'. perm.
Qed.

Lemma reclaim_full F st c tr : full F st tr → 0 ≤ c < MAX_CPUS →
  let k := cache_of c st in
  full F (set_cache c (Cache (pages k) 0 (alloc_fast k) (alloc_slow k)) st) (cache_live k ++ tr).
Proof.
  intros Hf Hc k. pose proof (cache_of_lookup c st (proj1 Hf) Hc) as [_ [Hk _]].
  eapply full_set_cache; [exact Hf|done|split; cbn; [done|unfold PER_CPU_CACHE_SIZE; lia]|].
  cbn. fold k. done.
Qed.

(** ** Runs *)

Lemma run_pages_addr r cnt : 0 ≤ r → r + cnt ≤ BITMAP_TOTAL_PAGES →
  run_pages (addr_of_pfn r) cnt = addr_of_pfn <$> seqZ r cnt.
Proof.
  intros Hr Hb. unfold run_pages, seqZ. rewrite <- !list_fmap_compose.
  apply list_fmap_ext. intros k i Hi. cbn. apply lookup_seq in Hi as [-> Hlt].
  rewrite !addr_of_pfn_small by lia. unfold MIN_PAGE_SIZE. lia.
Qed.

Lemma disown_perm ps ow : NoDup ps → NoDup ow → ps ⊆ ow → ow ≡ₚ ps ++ disown ps ow.
Proof.
  intros H1 H2 Hs. apply NoDup_Permutation; [done|..].
  - apply NoDup_app. split_and!; [done|..|by apply NoDup_filter].
    unfold disown. intros x Hx [Hn _]%list_elem_of_filter. done.
  - intros x. unfold disown. rewrite elem_of_app, list_elem_of_filter.
    destruct (decide (x ∈ ps)); set_solver.
Qed.

Lemma full_nodup F st tr : full F st tr → NoDup tr.
Proof. intros [_ [_ H _ _ _]]. by apply NoDup_app in H as (_ & _ & ?). Qed.

Lemma run_pages_nodup base cnt : NoDup (run_pages base cnt).
Proof.
  apply NoDup_fmap_2; [intros i j; unfold MIN_PAGE_SIZE; lia|apply NoDup_seqZ].
Qed.

Lemma alloc_run_full F st cpu cnt tr st' base : managed_ok F → full F st tr → 2 ≤ cnt →
  pmm_alloc_pages cpu cnt st = (st', base) →
  (base ≠ 0 ∧ full F st' (run_pages base cnt ++ tr)) ∨ (base = 0 ∧ st' = st).
Proof.
  intros HF Hf Hcnt. unfold pmm_alloc_pages.
  destruct (Z.eqb_spec cnt 0); [lia|]. destruct (Z.eqb_spec cnt 1); [lia|].
  pose proof (co_ok _ _ _ (proj2 Hf)) as [Hb Hh _ _].
  pose proof (find_run_spec (pmm_bitmap st) (pmm_bitmap_hint st) cnt Hb ltac:(lia) ltac:(lia)) as Hr.
  destruct (find_run _ _ _) as [r|]; intros [= <- <-]; [left|by right].
  destruct Hr as (H0 & Hle & Hrun). rewrite run_pages_addr by lia.
  assert (full F (take_run r cnt st) ((addr_of_pfn <$> seqZ r cnt) ++ tr)) as Hf'.
  { eapply takes_full; [done| |done]. apply takes_run; [lia..|done]. }
  split; [|done]. intros E.
  replace (seqZ r cnt) with (r :: seqZ (Z.succ r) (Z.pred cnt)) in Hf'
    by (symmetry; apply seqZ_cons; lia).
  rewrite fmap_cons, E in Hf'. by eapply full_nonzero in Hf'.
Qed.

(** Freeing one frame of a run inside the loop of [pmm_free_pages]. *)
Lemma free_one_full F st p tr : managed_ok F → full F st (addr_of_pfn p :: tr) → F p = true →
  free st p = false ∧
  full F (with_used (u64 (used_memory st - MIN_PAGE_SIZE))
            (with_bitmap (bitmap_set_free (pmm_bitmap st) p) st)) tr ∧
  free (with_used (u64 (used_memory st - MIN_PAGE_SIZE))
            (with_bitmap (bitmap_set_free (pmm_bitmap st) p) st)) p = true.
Proof.
  intros HF Hf HFp. pose proof (managed_range F p HF HFp) as Hp. split_and!.
  - destruct Hf as [_ [_ _ _ Hfree _]]. rewrite Hfree, HFp by lia.
    rewrite bool_decide_eq_true_2; [done|]. set_solver.
  - pose proof (give_full F st _ tr HF Hf) as [Hc Hco].
    pose proof (full_nonzero F st tr _ HF Hf) as Hnz.
    revert Hc Hco. unfold pmm_free_page_slow. rewrite pfn_of_addr by done.
    destruct (Z.eqb_spec (addr_of_pfn p) 0); [done|].
    destruct (Z.ltb_spec p BITMAP_TOTAL_PAGES); [|lia]. intros Hc Hco. split; [done|].
    eapply core_same; [..|exact Hco]; try done. apply Hf.
  - unfold free. cbn. rewrite is_free_set_free by lia. by rewrite Z.eqb_refl.
Qed.

Lemma free_loop_full F mem n p st tr : managed_ok F →
  (∀ q, p ≤ q < p + Z.of_nat n → F q = true) →
  full F st ((addr_of_pfn <$> seqZ p (Z.of_nat n)) ++ tr) →
  let st' := free_pages_loop n mem p st in
  ∃ kept, kept ⊆ addr_of_pfn <$> seqZ p (Z.of_nat n) ∧ cpu_caches st' = cpu_caches st ∧
    0 ≤ pmm_bitmap_hint st' < BITMAP_WORDS ∧ full F st' (kept ++ tr).
Proof.
  intros HF. revert p st tr. induction n as [|n IH]; intros p st tr HFs Hf; cbn zeta.
  { exists []. by split_and!; try apply Hf. }
  assert (Hseq : seqZ p (Z.of_nat (S n)) = p :: seqZ (Z.succ p) (Z.of_nat n)).
  { rewrite seqZ_cons by lia. f_equal. f_equal. lia. }
  rewrite Hseq, fmap_cons in *. cbn [app] in Hf. cbn [free_pages_loop].
  pose proof (managed_range F p HF (HFs p ltac:(lia))) as Hp.
  destruct (Z.leb_spec BITMAP_TOTAL_PAGES p); [lia|].
  destruct (free_one_full F st p _ HF Hf) as (Hnf & Hf' & _); [apply HFs; lia|].
  unfold free in Hnf. rewrite Hnf. replace (p + 1) with (Z.succ p) by lia.
  destruct (mem (addr_of_pfn p) =? SLAB_MAGIC).
  - destruct (IH (Z.succ p) st (addr_of_pfn p :: tr)) as (kept & H1 & H2 & H3 & H4).
    { intros q Hq. apply HFs. lia. } { eapply full_perm; [|exact Hf]. perm. }
    exists (addr_of_pfn p :: kept). split_and!; [set_solver|done|lia|lia|].
    eapply full_perm; [|exact H4]. perm.
  - destruct (IH (Z.succ p) _ tr ltac:(intros q Hq; apply HFs; lia) Hf') as (kept & H1 & H2 & H3 & H4).
    exists kept. split_and!; [set_solver|done|lia|lia|done].
Qed.

(** What a partial free kept is exactly what is still not free in the bitmap. *)
Lemma kept_filter F st st' run kept tr : managed_ok F →
  full F st (run ++ tr) → cpu_caches st' = cpu_caches st → kept ⊆ run → full F st' (kept ++ tr) →
  filter (λ a, free st' (pfn_of a) = false) run ≡ₚ kept.
Proof.
  intros HF Hf Hcc Hs Hf'. assert (cached st' = cached st) as Hca by (unfold cached; by rewrite Hcc).
  destruct Hf as [_ Hco]. destruct Hf' as [_ Hco']. rewrite Hca in Hco'.
  pose proof (co_nodup _ _ _ Hco) as Hnd. pose proof (co_nodup _ _ _ Hco') as Hnd'.
  apply NoDup_app in Hnd as (_ & Hd1 & (Hnr & Hd2 & _)%NoDup_app).
  apply NoDup_app in Hnd' as (_ & _ & (Hnk & _ & _)%NoDup_app).
  apply NoDup_Permutation; [by apply NoDup_filter|done|]. intros a.
  rewrite list_elem_of_filter.
  assert (Ha : a ∈ run → (free st' (pfn_of a) = false ↔ a ∈ kept)).
  { intros Har. destruct (co_managed _ _ _ Hco a) as (p & -> & HFp); [set_solver|].
    pose proof (managed_range F p HF HFp) as Hp. rewrite pfn_of_addr, (co_free _ _ _ Hco'), HFp by lia.
    cbn [andb]. rewrite negb_false_iff, bool_decide_eq_true, !elem_of_app.
    split; [|by auto]. intros [Hx|[Hx|Hx]]; [|done|].
    - destruct (Hd1 _ Hx). set_solver.
    - by destruct (Hd2 _ Har). }
  split; [intros [??]; by apply Ha|]. intros Hk. split; [by apply Ha; [apply Hs|]|by apply Hs].
Qed.

(** The pages of an owned run are consecutive managed frames. *)
Lemma owned_run F st base cnt tr : managed_ok F → 1 ≤ cnt →
  full F st (run_pages base cnt ++ tr) →
  ∃ r, base = addr_of_pfn r ∧ 0 < r ∧ (∀ q, r ≤ q < r + cnt → F q = true) ∧
       r + cnt ≤ BITMAP_TOTAL_PAGES.
Proof.
  intros HF Hcnt [_ Hco].
  assert (Hpage : ∀ i, 0 ≤ i < cnt → ∃ q, base + i * 4096 = q * 4096 ∧ F q = true ∧
                   256 ≤ q < BITMAP_TOTAL_PAGES).
  { intros i Hi. destruct (co_managed _ _ _ Hco (base + i * 4096)) as (q & Hq & HFq).
    - apply elem_of_app. right. apply elem_of_app. left. apply list_elem_of_fmap.
      exists i. split; [done|]. apply elem_of_seqZ. lia.
    - pose proof (HF q HFq). exists q. rewrite Hq. rewrite addr_of_pfn_small by lia.
      split_and!; [done|done|lia..]. }
  destruct (Hpage 0 ltac:(lia)) as (r & Hr & _ & Hrr). exists r.
  assert (base = r * 4096) as Hbase by lia.
  split_and!; [rewrite addr_of_pfn_small; lia|lia|..].
  - intros q Hq. destruct (Hpage (q - r) ltac:(lia)) as (q' & Hq' & HFq & _).
    replace q with q' by lia. done.
  - destruct (Hpage (cnt - 1) ltac:(lia)) as (q' & Hq' & _ & ?). lia.
Qed.

Lemma free_run_full F st mem cpu base cnt tr : managed_ok F → 2 ≤ cnt →
  full F st (run_pages base cnt ++ tr) →
  let st' := pmm_free_pages mem cpu base cnt st in
  full F st' (filter (λ a, free st' (pfn_of a) = false) (run_pages base cnt) ++ tr).
Proof.
  intros HF Hcnt Hf st'.
  destruct (owned_run F st base cnt tr HF ltac:(lia) Hf) as (r & -> & Hr0 & HFs & Hb).
  assert (∃ kept, kept ⊆ run_pages (addr_of_pfn r) cnt ∧ cpu_caches st' = cpu_caches st ∧
            full F st' (kept ++ tr)) as (kept & Hs & Hcc & Hk).
  { subst st'. unfold pmm_free_pages. rewrite pfn_of_addr by lia.
    destruct (Z.eqb_spec (addr_of_pfn r) 0) as [Hz|_].
    { rewrite addr_of_pfn_small in Hz; lia. }
    destruct (Z.eqb_spec cnt 0); [lia|]. cbn [orb].
    match goal with |- context [if ?b then st else _] => destruct b end; [by exists (run_pages (addr_of_pfn r) cnt)|].
    destruct (Z.eqb_spec cnt 1); [lia|]. rewrite run_pages_addr in * by lia.
    destruct (free_loop_full F mem (Z.to_nat cnt) r st tr HF) as (kept & H1 & H2 & H3 & H4);
      rewrite ?Z2Nat.id by lia; [done|done|]. rewrite Z2Nat.id in H1 by lia.
    exists kept. split; [done|]. zcase; [|done]. split; [done|].
    destruct H4 as [H4 H5]. split; [done|]. eapply core_same; [..|exact H5]; try done.
    cbn. assert (0 ≤ r / 64) by (apply Z.div_pos; lia). lia. }
  eapply full_perm; [|exact Hk]. by rewrite (kept_filter F st st' _ kept tr).
Qed.

(** ** Every step keeps the invariant *)

Lemma outside_mid st r1 o r2 ow lk :
  outside (Sys st (r1 ++ o :: r2) ow lk) ≡ₚ held o ++ outside (Sys st (r1 ++ r2) ow lk).
Proof.
  unfold outside. cbn [running owned leaked]. rewrite !fmap_app, !concat_app, fmap_cons.
  cbn [concat]. perm.
Qed.

Lemma owned_disown F st rs ow lk ps : full F st (outside (Sys st rs ow lk)) →
  NoDup ps → ps ⊆ ow → outside (Sys st rs ow lk) ≡ₚ ps ++ outside (Sys st rs (disown ps ow) lk).
Proof.
  intros Hf Hps Hs. pose proof (full_nodup _ _ _ Hf) as Hnd. unfold outside in *.
  cbn [running owned leaked] in *. apply NoDup_app in Hnd as (_ & _ & (Hno & _ & _)%NoDup_app).
  rewrite (disown_perm ps ow) at 1 by done. perm.
Qed.

(** Close a goal about [outside] from the same pages in another order. *)
Ltac shuffle H :=
  eapply full_perm; [|exact H]; unfold outside, cache_live;
  cbn [running owned leaked app held]; perm.

Lemma step_inv F s s' : managed_ok F → step s s' → inv F s → inv F s'.
Proof.
  intros HF Hstep [Hf Hr]. unfold inv.
  destruct Hstep as [st rs ow lk cpu st' page Hcpu E|st rs ow lk cpu st' Hcpu E
    |st r1 r2 ow lk c st' out E|st r1 r2 ow lk c p ps Hlt|st r1 r2 ow lk c p ps Hge
    |st r1 r2 ow lk c p ps|st r1 r2 ow lk c st' page E Hnz|st r1 r2 ow lk c st' E
    |st rs ow lk page mem Hin Hbl|st rs ow lk cpu page mem Hcpu Hin Hbl
    |st r1 r2 ow lk c page st' drain E|st r1 r2 ow lk ps
    |st rs ow lk cpu cnt st' base Hc E Hnz|st rs ow lk cpu cnt st' Hc E
    |st rs ow lk cpu base cnt mem st' Hc Hin <-|st rs ow lk cpu k Hcpu ->
    |st r1 r2 ow lk p ps|st r1 r2 ow lk]; cbn [pmm running] in *;
    repeat match goal with
    | H : Forall _ (_ ++ _ :: _) |- _ =>
        apply Forall_app in H as [? H]; apply Forall_cons in H as [? ?]
    end; try apply clamp_cpu_ok in Hcpu; try (rewrite outside_mid in Hf; cbn [held] in Hf); rewrite ?outside_mid.
  all: split; [|cbn; rewrite ?Forall_app, ?Forall_cons; done].
  - eapply alloc_begin_full in E; [|done..]. shuffle E.
  - eapply alloc_begin_full in E; [|done..]. shuffle E.
  - eapply refill_full in E; [|done..]. shuffle E.
  - eapply deposit_full in Hf; [|done..]. exact Hf.
  - done.
  - eapply give_full in Hf; [|done..]. exact Hf.
  - eapply finish_full in E as [[_ E]|[-> _]]; [|done..]. shuffle E.
  - eapply finish_full in E as [[? _]|(_ & -> & _)]; [done|exact Hf|done..].
  - rewrite (owned_disown F _ _ _ _ [page]) in Hf by (done || apply NoDup_singleton || set_solver).
    shuffle Hf.
  - rewrite (owned_disown F _ _ _ _ [page]) in Hf by (done || apply NoDup_singleton || set_solver).
    shuffle Hf.
  - eapply free_cache_full in E; [|done..]. exact E.
  - by apply give_all_full.
  - eapply alloc_run_full in E as [[_ E]|[-> _]]; [|done..]. shuffle E.
  - by eapply alloc_run_full in E as [[? _]|[_ ->]].
  - rewrite (owned_disown F _ _ _ _ (run_pages base cnt)) in Hf by (done || apply run_pages_nodup).
    apply (free_run_full F st mem cpu) in Hf; [|done..]. shuffle Hf.
  - apply (reclaim_full F st cpu) in Hf; [|done]. shuffle Hf.
  - eapply give_full in Hf; [|done..]. exact Hf.
  - done.
Qed.

Lemma steps_inv F s s' : managed_ok F → rtc step s s' → inv F s → inv F s'.
Proof. intros HF. induction 1 as [|s1 s2 s3 H _ IH]; [done|]. intros Hi. by eapply IH, step_inv. Qed.

End PmmSys.
