(* ===== verification/PmmBoot.v ===== *)
(** * Physical memory manager: what boot puts in the free pool

    [pmm_init] fills the bitmap for memory below 1 GiB, [pmm_add_remaining_pages]
    for the rest once paging covers it.  Together they make exactly the whole
    pages of usable firmware regions available, less the first MiB, the kernel
    image and the initrd; the state they leave satisfies the invariant of
    [PmmSys] with nothing handed out. *)

From S2P Require Import Prelude Pmm PmmFacts PmmScan PmmSys.

Module PmmBoot.
Import Pmm PmmFacts PmmScan PmmSys.

(** The calls of [kernel_main], in its order. *)
Definition boot (kernel_end initrd_addr initrd_size : Z) (mmap : list memory_map_entry_t)
  : pmm_state :=
  let st := if negb (initrd_addr =? 0) && negb (initrd_size =? 0)
            then pmm_reserve_initrd initrd_addr initrd_size bss_state else bss_state in
  pmm_add_remaining_pages kernel_end mmap (pmm_init kernel_end mmap st).

(** A firmware region that does not wrap around the address space. *)
Definition region_ok (e : memory_map_entry_t) : Prop :=
  0 ≤ mbase e ∧ 0 ≤ mlength e ∧ mbase e + mlength e + MIN_PAGE_SIZE ≤ 2 ^ 64.

(** The whole of frame [p] is inside a usable region. *)
Definition in_region (p : Z) (e : memory_map_entry_t) : bool :=
  (mtype e =? 1) && (mbase e <=? p * MIN_PAGE_SIZE)
  && (p * MIN_PAGE_SIZE + MIN_PAGE_SIZE <=? mbase e + mlength e).

(** [st'] is [st] with the frames satisfying [S] added to the pool. *)
Record adds (st st' : pmm_state) (S : Z → bool) : Prop := {
  ad_free p : 0 ≤ p → free st' p = free st p || S p;
  ad_ok : pmm_ok st → pmm_ok st';
  ad_used : used_memory st' = used_memory st;
  ad_caches : cpu_caches st' = cpu_caches st;
  ad_initrd : pmm_initrd_start st' = pmm_initrd_start st ∧ pmm_initrd_end st' = pmm_initrd_end st }.

Lemma adds_ext st st' S S' : (∀ p, 0 ≤ p → S p = S' p) → adds st st' S → adds st st' S'.
Proof. intros He [H1 H2 H3 H4 H5]. split; try done. intros p Hp. by rewrite H1, He. Qed.

Lemma adds_nil st st' : pmm_bitmap st' = pmm_bitmap st →
  pmm_bitmap_hint st' = pmm_bitmap_hint st → 0 ≤ total_memory st' < 2 ^ 64 ∨ total_memory st' = total_memory st →
  used_memory st' = used_memory st → cpu_caches st' = cpu_caches st →
  pmm_initrd_start st' = pmm_initrd_start st → pmm_initrd_end st' = pmm_initrd_end st →
  adds st st' (λ _, false).
Proof.
  intros Hb Hh Ht Hu Hc H1 H2. split; try done.
  - intros p _. unfold free. by rewrite Hb, orb_false_r.
  - intros [? ? ? ?]. split; rewrite ?Hb, ?Hh, ?Hu; try done. by destruct Ht as [?| ->].
Qed.

Lemma adds_refl st : adds st st (λ _, false).
Proof. apply adds_nil; auto. Qed.

Lemma adds_trans st1 st2 st3 S1 S2 :
  adds st1 st2 S1 → adds st2 st3 S2 → adds st1 st3 (λ p, S1 p || S2 p).
Proof.
  intros [H1 H2 H3 H4 [H5 H5']] [G1 G2 G3 G4 [G5 G5']]. split; try congruence.
  - intros p Hp. rewrite G1, H1 by done. by rewrite orb_assoc.
  - auto.
  - split; congruence.
Qed.

(** A frame that starts at [addr] becomes free. *)
Lemma adds_one st st' q : 0 ≤ q → pmm_bitmap st' = bitmap_set_free (pmm_bitmap st) q →
  pmm_bitmap_hint st' = pmm_bitmap_hint st → total_memory st' = total_memory st →
  used_memory st' = used_memory st → cpu_caches st' = cpu_caches st →
  pmm_initrd_start st' = pmm_initrd_start st → pmm_initrd_end st' = pmm_initrd_end st →
  adds st st' (λ p, p =? q).
Proof.
  intros Hq Hb Hh Ht Hu Hc H1 H2. split; try done.
  - intros p Hp. unfold free. rewrite Hb, is_free_set_free by lia. apply orb_comm.
  - intros [? ? ? ?]. split; rewrite ?Hb, ?Hh, ?Ht, ?Hu; [by apply set_free_ok|done..].
Qed.

(** What both population loops add at one address. *)
Definition addable (kend : Z) (st : pmm_state) (p : Z) : bool :=
  (p <? BITMAP_TOTAL_PAGES) && negb (page_is_reserved kend st (p * MIN_PAGE_SIZE)).

Lemma reserved_initrd kend st st' a :
  pmm_initrd_start st' = pmm_initrd_start st → pmm_initrd_end st' = pmm_initrd_end st →
  page_is_reserved kend st' a = page_is_reserved kend st a.
Proof. intros H1 H2. unfold page_is_reserved. by rewrite H1, H2. Qed.

Lemma init_page_adds kend st q : 0 ≤ q →
  adds st (if page_is_reserved kend st (q * MIN_PAGE_SIZE) then st
           else pmm_add_page_locked (q * MIN_PAGE_SIZE) st)
    (λ p, (p =? q) && addable kend st q).
Proof.
  intros Hq. unfold addable. destruct (page_is_reserved _ _ _) eqn:Er.
  { eapply adds_ext; [|apply adds_refl]. intros p _. by rewrite !andb_false_r. }
  unfold pmm_add_page_locked. rewrite Z.div_mul by done.
  destruct (Z.ltb_spec q BITMAP_TOTAL_PAGES).
  - eapply adds_ext; [|by apply (adds_one _ _ q)]. intros p _. by rewrite andb_true_r.
  - eapply adds_ext; [|by apply adds_nil; auto]. intros p _. by rewrite andb_false_r.
Qed.

Lemma remaining_page_adds kend st q : 0 ≤ q →
  adds st (if page_is_reserved kend st (q * MIN_PAGE_SIZE) then st
           else if BITMAP_TOTAL_PAGES <=? q * MIN_PAGE_SIZE / MIN_PAGE_SIZE then st
           else with_bitmap (bitmap_set_free (pmm_bitmap st) (q * MIN_PAGE_SIZE / MIN_PAGE_SIZE)) st)
    (λ p, (p =? q) && addable kend st q).
Proof.
  intros Hq. unfold addable. destruct (page_is_reserved _ _ _) eqn:Er.
  { eapply adds_ext; [|apply adds_refl]. intros p _. by rewrite !andb_false_r. }
  rewrite Z.div_mul by done.
  destruct (Z.leb_spec BITMAP_TOTAL_PAGES q); destruct (Z.ltb_spec q BITMAP_TOTAL_PAGES); try lia.
  - eapply adds_ext; [|apply adds_refl]. intros p _. by rewrite andb_false_r.
  - eapply adds_ext; [|by apply (adds_one _ _ q)]. intros p _. by rewrite andb_true_r.
Qed.

(** The frames of a loop over [[q, e)]. *)
Definition span (q e : Z) (p : Z) : bool := (q <=? p) && (p <? e).

Lemma addable_same kend st st' S p : adds st st' S → addable kend st' p = addable kend st p.
Proof. intros [_ _ _ _ [H1 H2]]. unfold addable. by rewrite (reserved_initrd kend st st'). Qed.

(** One iteration at frame [q] followed by the rest of the loop. *)
Lemma span_step kend st st1 st' q e : q < e →
  adds st st1 (λ p, (p =? q) && addable kend st q) →
  adds st1 st' (λ p, span (q + 1) e p && addable kend st1 p) →
  adds st st' (λ p, span q e p && addable kend st p).
Proof.
  intros Hlt H1 H2. eapply adds_ext; [|by eapply adds_trans]. intros p Hp. cbn.
  rewrite (addable_same kend st st1 _ p H1). unfold span.
  destruct (Z.eqb_spec p q) as [->|]; cbn [andb orb].
  - destruct (Z.leb_spec q q), (Z.ltb_spec q e), (Z.leb_spec (q + 1) q); try lia. cbn. apply orb_false_r.
  - destruct (Z.leb_spec q p), (Z.leb_spec (q + 1) p); (lia || done).
Qed.

Lemma span_nil kend st e : adds st st (λ p, span e e p && addable kend st p).
Proof.
  eapply adds_ext; [|apply adds_refl]. intros p _. unfold span.
  destruct (Z.leb_spec e p), (Z.ltb_spec p e); (lia || done).
Qed.

Lemma init_pages_adds n kend q st : 0 ≤ q → (q + Z.of_nat n) * MIN_PAGE_SIZE < 2 ^ 64 →
  adds st (pmm_init_pages n kend (q * MIN_PAGE_SIZE) ((q + Z.of_nat n) * MIN_PAGE_SIZE) st)
    (λ p, span q (q + Z.of_nat n) p && addable kend st p).
Proof.
  revert q st. induction n as [|n IH]; intros q st Hq Hb.
  { rewrite Z.add_0_r. apply span_nil. }
  cbn [pmm_init_pages]. unfold MIN_PAGE_SIZE in Hb.
  destruct (Z.ltb_spec (q * MIN_PAGE_SIZE) ((q + Z.of_nat (S n)) * MIN_PAGE_SIZE));
    [|unfold MIN_PAGE_SIZE in *; lia].
  replace (u64 (q * MIN_PAGE_SIZE + MIN_PAGE_SIZE)) with ((q + 1) * MIN_PAGE_SIZE)
    by (rewrite u64_small; unfold MIN_PAGE_SIZE; lia).
  replace (q + Z.of_nat (S n)) with (q + 1 + Z.of_nat n) by lia.
  eapply span_step; [lia|by apply init_page_adds|]. apply IH; unfold MIN_PAGE_SIZE; lia.
Qed.

Lemma remaining_loop_adds n kend q st : 0 ≤ q → (q + Z.of_nat n) * MIN_PAGE_SIZE < 2 ^ 64 →
  adds st (pmm_add_remaining_loop n kend (q * MIN_PAGE_SIZE) ((q + Z.of_nat n) * MIN_PAGE_SIZE) st)
    (λ p, span q (q + Z.of_nat n) p && addable kend st p).
Proof.
  revert q st. induction n as [|n IH]; intros q st Hq Hb.
  { rewrite Z.add_0_r. apply span_nil. }
  cbn [pmm_add_remaining_loop]. unfold MIN_PAGE_SIZE in Hb.
  destruct (Z.ltb_spec (q * MIN_PAGE_SIZE) ((q + Z.of_nat (S n)) * MIN_PAGE_SIZE));
    [|unfold MIN_PAGE_SIZE in *; lia].
  replace (u64 (q * MIN_PAGE_SIZE + MIN_PAGE_SIZE)) with ((q + 1) * MIN_PAGE_SIZE)
    by (rewrite u64_small; unfold MIN_PAGE_SIZE; lia).
  replace (q + Z.of_nat (S n)) with (q + 1 + Z.of_nat n) by lia.
  eapply span_step; [lia|by apply remaining_page_adds|]. apply IH; unfold MIN_PAGE_SIZE; lia.
Qed.

(** The frame numbers a region's [base] and [end] come to. *)
Definition first_frame (e : memory_map_entry_t) : Z := (mbase e + 4095) / 4096.
Definition last_frame (e : memory_map_entry_t) : Z := (mbase e + mlength e) / 4096.

Lemma region_bounds e : region_ok e →
  ALIGN_UP (mbase e) MIN_PAGE_SIZE = first_frame e * MIN_PAGE_SIZE ∧
  ALIGN_DOWN (u64 (mbase e + mlength e)) MIN_PAGE_SIZE = last_frame e * MIN_PAGE_SIZE ∧
  0 ≤ first_frame e ∧ last_frame e * MIN_PAGE_SIZE < 2 ^ 64.
Proof.
  unfold region_ok, first_frame, last_frame, MIN_PAGE_SIZE. intros (H1 & H2 & H3).
  rewrite u64_small, ALIGN_UP_4096, ALIGN_DOWN_4096 by lia. split_and!; [done|done|divlia..].
Qed.

Lemma in_region_span p e : region_ok e → 0 ≤ p →
  in_region p e = (mtype e =? 1) && span (first_frame e) (last_frame e) p.
Proof.
  intros (H1 & H2 & H3) Hp. unfold in_region, span, first_frame, last_frame, MIN_PAGE_SIZE.
  rewrite <- andb_assoc. f_equal. f_equal; apply eq_bool_prop_intro; rewrite !Is_true_true, ?Z.leb_le, ?Z.ltb_lt; divlia.
Qed.

(** The 1 GiB boundary in frames. *)
Definition LIMIT : Z := 262144.

Lemma init_region_adds kend e st : region_ok e →
  adds st (pmm_init_region kend e st)
    (λ p, in_region p e && (p <? LIMIT) && addable kend st p).
Proof.
  intros Hok. pose proof (region_bounds e Hok) as (Hu & Hd & H0 & Hb).
  unfold pmm_init_region. rewrite Hu, Hd. set (a := first_frame e) in *. set (z := last_frame e) in *.
  assert (HL : PMM_INITIAL_MAX_PHYS = LIMIT * MIN_PAGE_SIZE) by done. rewrite HL.
  assert (Hext : ∀ st' S, adds st st' S → (∀ p, 0 ≤ p →
     S p = (mtype e =? 1) && span a z p && (p <? LIMIT) && addable kend st p) →
     adds st st' (λ p, in_region p e && (p <? LIMIT) && addable kend st p)).
  { intros st' S HS He. eapply adds_ext; [|exact HS]. intros p Hp. by rewrite He, in_region_span. }
  unfold MIN_PAGE_SIZE in *. unfold span in Hext. destruct (mtype e =? 1).
  2:{ eapply Hext; [apply adds_refl|done]. }
  destruct (Z.leb_spec (z * 4096) (a * 4096)).
  { eapply Hext; [apply adds_refl|]. intros p Hp.
    destruct (Z.leb_spec a p), (Z.ltb_spec p z); (lia || done). }
  destruct (Z.leb_spec (LIMIT * 4096) (a * 4096)).
  { eapply Hext; [apply adds_refl|]. intros p Hp.
    destruct (Z.leb_spec a p), (Z.ltb_spec p z), (Z.ltb_spec p LIMIT); (lia || done). }
  set (m := Z.min z LIMIT).
  replace (if LIMIT * 4096 <? z * 4096 then LIMIT * 4096 else z * 4096) with (m * 4096)
    by (unfold m; zcase; lia).
  match goal with |- adds _ (pmm_init_pages _ _ _ _ ?s) _ => set (st1 := s) end.
  assert (Hn : adds st st1 (λ _, false)) by (apply adds_nil; try done; left; apply u64_range).
  replace (Z.to_nat ((m * 4096 - a * 4096) / 4096)) with (Z.to_nat (m - a)) by (f_equal; divlia).
  replace m with (a + Z.of_nat (Z.to_nat (m - a))) at 2 by lia.
  eapply Hext; [eapply adds_trans; [exact Hn|]; apply init_pages_adds; unfold MIN_PAGE_SIZE; lia|].
  intros p Hp. cbn [orb andb]. rewrite (addable_same kend st st1 _ p Hn). f_equal. unfold span.
  destruct (Z.leb_spec a p), (Z.ltb_spec p z), (Z.ltb_spec p LIMIT),
    (Z.ltb_spec p (a + Z.of_nat (Z.to_nat (m - a)))); (lia || done).
Qed.

Lemma remaining_region_adds kend e st acc : region_ok e → 0 ≤ acc < 2 ^ 64 →
  let '(st', acc') := pmm_add_remaining_region kend (st, acc) e in
  adds st st' (λ p, in_region p e && (LIMIT <=? p) && addable kend st p) ∧ 0 ≤ acc' < 2 ^ 64.
Proof.
  intros Hok Hacc. pose proof (region_bounds e Hok) as (Hu & Hd & H0 & Hb).
  unfold pmm_add_remaining_region. rewrite Hu, Hd. set (a := first_frame e) in *. set (z := last_frame e) in *.
  assert (HL : PMM_INITIAL_MAX_PHYS = LIMIT * MIN_PAGE_SIZE) by done. rewrite HL.
  assert (Hext : ∀ st' S, adds st st' S → (∀ p, 0 ≤ p →
     S p = (mtype e =? 1) && span a z p && (LIMIT <=? p) && addable kend st p) →
     adds st st' (λ p, in_region p e && (LIMIT <=? p) && addable kend st p)).
  { intros st' S HS He. eapply adds_ext; [|exact HS]. intros p Hp. by rewrite He, in_region_span. }
  unfold MIN_PAGE_SIZE in *. unfold span in Hext. destruct (mtype e =? 1).
  2:{ split; [|done]. eapply Hext; [apply adds_refl|done]. }
  destruct (Z.leb_spec (z * 4096) (a * 4096)).
  { split; [|done]. eapply Hext; [apply adds_refl|]. intros p Hp.
    destruct (Z.leb_spec a p), (Z.ltb_spec p z); (lia || done). }
  destruct (Z.leb_spec (z * 4096) (LIMIT * 4096)).
  { split; [|done]. eapply Hext; [apply adds_refl|]. intros p Hp.
    destruct (Z.leb_spec a p), (Z.ltb_spec p z), (Z.leb_spec LIMIT p); (lia || done). }
  split; [|apply u64_range]. set (m := Z.max a LIMIT).
  replace (if a * 4096 <? LIMIT * 4096 then LIMIT * 4096 else a * 4096) with (m * 4096)
    by (unfold m; zcase; lia).
  replace (Z.to_nat ((z * 4096 - m * 4096) / 4096)) with (Z.to_nat (z - m)) by (f_equal; divlia).
  replace z with (m + Z.of_nat (Z.to_nat (z - m))) at 2 by lia.
  eapply Hext; [apply remaining_loop_adds; unfold MIN_PAGE_SIZE; lia|].
  intros p Hp. cbn [orb andb]. f_equal. unfold span.
  destruct (Z.leb_spec m p), (Z.leb_spec a p), (Z.ltb_spec p z), (Z.leb_spec LIMIT p),
    (Z.ltb_spec p (m + Z.of_nat (Z.to_nat (z - m)))); (lia || done).
Qed.

Lemma init_adds kend mmap st : Forall region_ok mmap →
  adds st (foldl (λ st e, pmm_init_region kend e st) st mmap)
    (λ p, existsb (in_region p) mmap && (p <? LIMIT) && addable kend st p).
Proof.
  intros H. revert st. induction H as [|e mmap He _ IH]; intros st; cbn [foldl existsb].
  { apply adds_refl. }
  pose proof (init_region_adds kend e st He) as H1.
  eapply adds_ext; [|eapply adds_trans; [exact H1|apply IH]]. intros p Hp. cbn.
  rewrite (addable_same kend _ _ _ p H1). by destruct (in_region p e), (existsb _ _), (p <? LIMIT), (addable kend st p).
Qed.

Lemma remaining_adds kend mmap st acc : Forall region_ok mmap → 0 ≤ acc < 2 ^ 64 →
  let '(st', acc') := foldl (pmm_add_remaining_region kend) (st, acc) mmap in
  adds st st' (λ p, existsb (in_region p) mmap && (LIMIT <=? p) && addable kend st p)
  ∧ 0 ≤ acc' < 2 ^ 64.
Proof.
  intros H. revert st acc. induction H as [|e mmap He _ IH]; intros st acc Hacc; cbn [foldl existsb].
  { split; [apply adds_refl|done]. }
  pose proof (remaining_region_adds kend e st acc He Hacc) as H1.
  destruct (pmm_add_remaining_region kend (st, acc) e) as [st1 acc1]. destruct H1 as [H1 Hacc1].
  specialize (IH st1 acc1 Hacc1). destruct (foldl _ _ _) as [st2 acc2]. destruct IH as [H2 ?].
  split; [|done]. eapply adds_ext; [|eapply adds_trans; [exact H1|exact H2]]. intros p Hp. cbn.
  rewrite (addable_same kend _ _ _ p H1). by destruct (in_region p e), (existsb _ _), (LIMIT <=? p), (addable kend st p).
Qed.

(** ** The state after boot *)

Definition initrd_state (initrd_addr initrd_size : Z) : pmm_state :=
  if negb (initrd_addr =? 0) && negb (initrd_size =? 0)
  then pmm_reserve_initrd initrd_addr initrd_size bss_state else bss_state.

(** The frames boot makes available. *)
Definition available (kernel_end initrd_addr initrd_size : Z) (mmap : list memory_map_entry_t)
  (p : Z) : bool :=
  (0 <=? p) && existsb (in_region p) mmap
  && addable (ALIGN_UP kernel_end MIN_PAGE_SIZE) (initrd_state initrd_addr initrd_size) p.

Lemma bss_free p : free bss_state p = false.
Proof. unfold free, bitmap_is_free, bitmap_word. cbn. rewrite lookup_empty. cbn. by rewrite Z.shiftr_0_l. Qed.

Lemma bss_ok : pmm_ok bss_state.
Proof.
  split; cbn; try lia; [|done]. intros w. unfold bitmap_word. rewrite lookup_empty. cbn. lia.
Qed.

Lemma boot_adds ke ia isz mmap : Forall region_ok mmap →
  ∃ st0, pmm_ok st0 ∧ (∀ p, free st0 p = false) ∧ used_memory st0 = 0 ∧
    cpu_caches st0 = replicate 8 empty_cache ∧
    adds st0 (boot ke ia isz mmap) (available ke ia isz mmap).
Proof.
  intros Hr. unfold boot. fold (initrd_state ia isz). set (s0 := initrd_state ia isz).
  assert (Hs0 : pmm_ok s0 ∧ (∀ p, free s0 p = false) ∧ used_memory s0 = 0 ∧
                cpu_caches s0 = replicate 8 empty_cache).
  { pose proof bss_ok as [? ? ? ?]. subst s0. unfold initrd_state.
    destruct (negb _ && negb _); split_and!; try done; apply bss_free. }
  destruct Hs0 as (Hok & Hf & Hu & Hc). exists s0. split_and!; [done..|].
  unfold pmm_init, pmm_add_remaining_pages. cbv zeta.
  match goal with |- context [foldl (λ st e, _) ?s mmap] => set (s1 := s) end.
  assert (H1 : adds s0 s1 (λ _, false)).
  { apply adds_nil; try done; auto. subst s1. cbn. by rewrite Hc. }
  pose proof (init_adds (ALIGN_UP ke MIN_PAGE_SIZE) mmap s1 Hr) as H2.
  set (s2 := foldl (λ st e, _) s1 mmap) in *.
  pose proof (remaining_adds (ALIGN_UP ke MIN_PAGE_SIZE) mmap s2 0 Hr ltac:(lia)) as H3.
  destruct (foldl (pmm_add_remaining_region _) _ mmap) as [s3 acc]. destruct H3 as [H3 _].
  assert (H4 : adds s3 (with_total (u64 (total_memory s3 + acc)) s3) (λ _, false)).
  { apply adds_nil; try done. left. apply u64_range. }
  eapply adds_ext; [|eapply adds_trans; [eapply adds_trans; [exact H1|exact H2]|
    eapply adds_trans; [exact H3|exact H4]]].
  intros p Hp. cbn. rewrite (addable_same _ _ _ _ p H2), (addable_same _ _ _ _ p H1).
  unfold available. fold s0. destruct (Z.leb_spec 0 p); [|lia].
  destruct (Z.ltb_spec p LIMIT), (Z.leb_spec LIMIT p); try lia;
    by destruct (existsb _ _), (addable _ s0 p).
Qed.

Lemma available_managed ke ia isz mmap : managed_ok (available ke ia isz mmap).
Proof.
  intros p Hp. unfold available, addable, page_is_reserved in Hp.
  apply andb_true_iff in Hp as [[?%Z.leb_le _]%andb_true_iff [?%Z.ltb_lt Hr]%andb_true_iff].
  apply negb_true_iff in Hr. revert Hr. unfold MIN_PAGE_SIZE.
  destruct (Z.ltb_spec (p * 4096) 0x100000); [done|]. intros _. lia.
Qed.

Lemma boot_inv ke ia isz mmap : Forall region_ok mmap →
  inv (available ke ia isz mmap) (Sys (boot ke ia isz mmap) [] [] []).
Proof.
  intros Hr. destruct (boot_adds ke ia isz mmap Hr) as (st0 & Hok & Hf & Hu & Hc & [Hfr Hk Hus Hca _]).
  split; [|constructor]. cbn [pmm outside]. assert (Hcc : cpu_caches (boot ke ia isz mmap) = replicate 8 empty_cache)
    by congruence.
  assert (cached (boot ke ia isz mmap) = []) as Hcd by (unfold cached; rewrite Hcc; reflexivity).
  split.
  - unfold caches_ok. rewrite Hcc. split; [done|]. by apply Forall_replicate.
  - rewrite Hcd. cbn. split; [auto|constructor|by intros a ?%not_elem_of_nil| |].
    + intros p Hp. rewrite Hfr, Hf by done. cbn.
      rewrite bool_decide_eq_false_2 by apply not_elem_of_nil. by rewrite andb_true_r.
    + rewrite Hus, Hu. done.
Qed.

End PmmBoot.
