(* ===== verification/PmmProps.v ===== *)
(** * Physical memory manager: the properties

    Safety and accounting of the interleaved system from boot, the contract of
    the single-page and contiguous operations, and the two places where the
    allocator reports exhaustion although free frames exist. *)

From S2P Require Import Prelude Pmm PmmFacts PmmScan PmmSys PmmBoot.

Module PmmProps.
Import Pmm PmmFacts PmmScan PmmSys PmmBoot.

(** ** A whole allocation and a whole free, run without interference *)



(** Whether the initrd guard of [pmm_free_page] covers a page. *)
Definition initrd_page (st : pmm_state) (a : Z) : bool :=
  negb (pmm_initrd_start st =? 0) && (pmm_initrd_start st <=? a) && (a <? pmm_initrd_end st).

Lemma owned_blocked F st mem a tr : managed_ok F → full F st (a :: tr) →
  free_blocked mem a st = initrd_page st a || (mem a =? SLAB_MAGIC).
Proof.
  intros HF Hf. destruct Hf as [_ Hco]. destruct (co_managed _ _ _ Hco a) as (p & Ha & HFp); [set_solver|].
  pose proof (HF p HFp) as Hp. assert (BITMAP_TOTAL_PAGES = 4194304) as Hbt by done.
  rewrite addr_of_pfn_small in Ha by lia. unfold free_blocked. subst a.
  assert (Z.land (p * 4096) (MIN_PAGE_SIZE - 1) = 0) as ->.
  { change (MIN_PAGE_SIZE - 1) with (Z.ones 12). rewrite Z.land_ones by done. apply Z.mod_mul. done. }
  cbn [negb Z.eqb]. destruct (Z.ltb_spec (p * 4096) 0x100000); [lia|].
  replace (p * 4096 / MIN_PAGE_SIZE) with p by (unfold MIN_PAGE_SIZE; divlia).
  destruct (Z.leb_spec BITMAP_TOTAL_PAGES p); [lia|].
  assert (bitmap_is_free (pmm_bitmap st) p = false) as ->.
  { change (free st p = false). rewrite (co_free _ _ _ Hco), HFp by lia. rewrite bool_decide_eq_true_2; [done|].
    rewrite addr_of_pfn_small by lia. set_solver. }
  unfold initrd_page. by destruct (negb _ && _ && _).
Qed.

Lemma initrd_reserved_iff ia isz a :
  initrd_page (initrd_state ia isz) a = true ↔
  ia ≠ 0 ∧ isz ≠ 0 ∧ ia ≤ a < ALIGN_UP (u64 (ia + isz)) 4096.
Proof.
  unfold initrd_page, initrd_state.
  destruct (Z.eqb_spec ia 0) as [->|Hia], (Z.eqb_spec isz 0) as [->|Hisz];
    try (split; [done|by intros (? & ? & _)]).
  change (pmm_initrd_start _) with ia.
  change (pmm_initrd_end _) with (ALIGN_UP (u64 (ia + isz)) 4096).
  generalize (ALIGN_UP (u64 (ia + isz)) 4096). intros e.
  rewrite !andb_true_iff, negb_true_iff, Z.eqb_neq, Z.leb_le, Z.ltb_lt. intuition.
Qed.





(** ** Properties *)

(** C1: no page is ever handed out twice.  From any boot with well-formed
    firmware regions, after any interleaving of the lock-protected sections of
    allocations, frees, contiguous allocations and frees and cache reclaims on
    any CPUs, the pages in the per-CPU caches, in the hands of operations in
    flight, owned by clients and leaked by blocked frees are pairwise distinct,
    each is a frame boot made available, and each is marked used. *)
Theorem page_single_owner ke ia isz mmap s :
  Forall region_ok mmap → rtc step (Sys (boot ke ia isz mmap) [] [] []) s →
  NoDup (cached (pmm s) ++ concat (held <$> running s) ++ owned s ++ leaked s) ∧
  ∀ a, a ∈ cached (pmm s) ++ concat (held <$> running s) ++ owned s ++ leaked s →
    ∃ p, a = addr_of_pfn p ∧ available ke ia isz mmap p = true ∧ free (pmm s) p = false.
Proof.
  intros Hr Hs. pose proof (available_managed ke ia isz mmap) as HF.
  destruct (steps_inv _ _ _ HF Hs (boot_inv ke ia isz mmap Hr)) as [[_ Hco] _].
  split; [apply Hco|]. intros a Ha. destruct (co_managed _ _ _ Hco a Ha) as (p & -> & HFp).
  exists p. split_and!; [done|done|]. rewrite (co_free _ _ _ Hco), HFp by (by apply HF in HFp; lia).
  by rewrite bool_decide_eq_true_2.
Qed.


(** boot makes exactly the right frames available.  A frame is free after
    boot iff it is below the bitmap's 16 GiB, lies wholly in a usable firmware
    region, starts at or above 1 MiB, is not below the page-aligned kernel end,
    and does not start inside the reserved initrd range. *)
Theorem boot_free_frames ke ia isz mmap p :
  Forall region_ok mmap → 0 ≤ p →
  free (boot ke ia isz mmap) p = true ↔
  p < BITMAP_TOTAL_PAGES ∧
  (∃ e, e ∈ mmap ∧ mtype e = 1 ∧ mbase e ≤ p * 4096 ∧ p * 4096 + 4096 ≤ mbase e + mlength e) ∧
  0x100000 ≤ p * 4096 ∧ ALIGN_UP ke 4096 ≤ p * 4096 ∧
  ~ (ia ≠ 0 ∧ isz ≠ 0 ∧ ia ≤ p * 4096 < ALIGN_UP (u64 (ia + isz)) 4096).
Proof.
  intros Hr Hp. destruct (boot_adds ke ia isz mmap Hr) as (st0 & _ & Hf & _ & _ & [Hfr _ _ _ _]).
  rewrite Hfr, Hf by done. cbn [orb]. unfold available, addable, page_is_reserved, MIN_PAGE_SIZE.
  destruct (Z.leb_spec 0 p); [|lia]. cbn [andb]. rewrite !andb_true_iff, existsb_exists, Z.ltb_lt.
  assert (Hreg : (∃ x, In x mmap ∧ in_region p x = true) ↔
    (∃ e, e ∈ mmap ∧ mtype e = 1 ∧ mbase e ≤ p * 4096 ∧ p * 4096 + 4096 ≤ mbase e + mlength e)).
  { unfold in_region, MIN_PAGE_SIZE. split; intros (e & He & H1); exists e;
      rewrite ?list_elem_of_In, ?andb_true_iff, ?Z.eqb_eq, ?Z.leb_le in *; naive_solver. }
  rewrite Hreg.
  rewrite negb_true_iff, <- (initrd_reserved_iff ia isz (p * 4096)).
  fold (initrd_page (initrd_state ia isz) (p * 4096)).
  generalize (initrd_page (initrd_state ia isz) (p * 4096)), (ALIGN_UP ke 4096). intros ip kend.
  destruct (Z.ltb_spec (p * 4096) 0x100000), (Z.leb_spec 0x100000 (p * 4096)),
    (Z.ltb_spec (p * 4096) kend), ip; try lia; cbn [andb]; intuition (lia || congruence).
Qed.


(** C4: a free of an owned page is undone or complete.  [pmm_free_page] leaves
    the state alone when the page carries a live slab header or lies in the
    initrd; otherwise the page goes back to a cache or the pool and is no
    longer handed out. *)
Theorem free_page_correct F st tr mem cpu a :
  managed_ok F → full F st (a :: tr) → 0 ≤ cpu →
  if initrd_page st a || (mem a =? SLAB_MAGIC)
  then pmm_free_page mem cpu a st = st
  else full F (pmm_free_page mem cpu a st) tr.
Proof.
  intros HF Hf Hcpu%clamp_cpu_ok. pose proof (full_nonzero _ _ _ _ HF Hf) as Hnz.
  unfold pmm_free_page. rewrite (owned_blocked F st mem a tr HF Hf).
  destruct (Z.eqb_spec a 0); [done|]. destruct (initrd_page st a || _); [done|].
  destruct (free_to_cache _ a st) as [st1 drain] eqn:E.
  apply give_all_full; [done|]. by eapply free_cache_full.
Qed.

(** C5: the contiguous allocator.  The optimised word scan returns a run of
    [cnt] frames that were all free, handed to nobody, and are all used
    afterwards; when it returns NULL the state is unchanged and every free run
    of [cnt] frames straddles the first frame of the hint word. *)
Theorem alloc_pages_correct F st tr cpu cnt :
  managed_ok F → full F st tr → 2 ≤ cnt →
  let '(st', base) := pmm_alloc_pages cpu cnt st in
  (base ≠ 0 ∧ full F st' (run_pages base cnt ++ tr) ∧
   ∀ i, 0 ≤ i < cnt → free st (pfn_of base + i) = true ∧ free st' (pfn_of base + i) = false) ∨
  (base = 0 ∧ st' = st ∧ ∀ r, 0 ≤ r → r + cnt ≤ BITMAP_TOTAL_PAGES →
     free_run (free st) r cnt → r < pmm_bitmap_hint st * 64 < r + cnt).
Proof.
  intros HF Hf Hcnt. destruct (pmm_alloc_pages cpu cnt st) as [st' base] eqn:E.
  pose proof (alloc_run_full F st cpu cnt tr st' base HF Hf Hcnt E) as Hres.
  revert E. unfold pmm_alloc_pages. destruct (Z.eqb_spec cnt 0); [lia|]. destruct (Z.eqb_spec cnt 1); [lia|].
  pose proof (co_ok _ _ _ (proj2 Hf)) as [Hb Hh _ _].
  pose proof (find_run_spec (pmm_bitmap st) (pmm_bitmap_hint st) cnt Hb ltac:(lia) ltac:(lia)) as Hr.
  destruct (find_run _ _ _) as [r|]; intros [= <- <-].
  - destruct Hr as (Hr0 & Hrb & Hrun). rewrite pfn_of_addr by lia. destruct Hres as [[? ?]|[Hz _]].
    + left. split_and!; [done|done|]. intros i Hi. split; [apply Hrun; lia|].
      rewrite (tk_free _ _ _ (takes_run st r cnt Hr0 ltac:(lia) Hrb Hrun)) by lia.
      rewrite bool_decide_eq_true_2; [by rewrite andb_false_r|]. apply elem_of_seqZ. lia.
    + exfalso. assert (F r = true) as HFr.
      { pose proof (Hrun r ltac:(lia)) as Hfree. change (free st r = true) in Hfree.
        rewrite (co_free _ _ _ (proj2 Hf)) in Hfree by lia. by apply andb_true_iff in Hfree as [? _]. }
      specialize (HF r HFr). rewrite addr_of_pfn_small in Hz by lia. lia.
  - right. done.
Qed.

(** ** Witnesses *)

(** A machine with one usable region of 258 frames: 256 and 257 are available. *)
Definition small_map : list memory_map_entry_t := [MMap 0 0x102000 1].
Definition small : pmm_state := boot 0x100000 0 0 small_map.

Lemma small_map_ok : Forall region_ok small_map.
Proof. repeat constructor; vm_compute; discriminate. Qed.

Definition small_avail : Z → bool := available 0x100000 0 0 small_map.

(** One allocation on CPU 0, section by section. *)
Definition st_missed : pmm_state := fst (alloc_begin 0 small).
Definition st_refilled : pmm_state := fst (pmm_alloc_batch_slow PER_CPU_CACHE_SIZE st_missed).
Definition st_one : pmm_state := alloc_deposit_one 0 st_refilled 0x100000.
Definition st_two : pmm_state := alloc_deposit_one 0 st_one 0x101000.
Definition st_done : pmm_state := fst (alloc_finish 0 st_two).
Definition after_alloc : sys := Sys st_done [] [0x101000] [].

Lemma alloc_run : rtc step (Sys small [] [] []) after_alloc.
Proof.
  eapply rtc_l; [apply (step_alloc_miss _ _ _ _ 0 st_missed); [lia|vm_compute; reflexivity]|].
  eapply rtc_l; [apply (step_refill _ [] [] _ _ 0 st_refilled [0x100000; 0x101000]); vm_compute; reflexivity|].
  eapply rtc_l; [apply (step_deposit _ [] [] _ _ 0); vm_compute; reflexivity|].
  eapply rtc_l; [apply (step_deposit _ [] [] _ _ 0); vm_compute; reflexivity|].
  eapply rtc_l; [apply (step_finish _ [] [] _ _ 0 st_done 0x101000); [vm_compute; reflexivity|lia]|].
  apply rtc_refl.
Qed.

Lemma page_single_owner_witness :
  NoDup (cached (pmm after_alloc) ++ concat (held <$> running after_alloc)
         ++ owned after_alloc ++ leaked after_alloc) ∧ owned after_alloc = [0x101000].
Proof.
  split; [|reflexivity].
  exact (proj1 (page_single_owner 0x100000 0 0 small_map after_alloc small_map_ok alloc_run)).
Defined.


Lemma boot_free_frames_witness : 0x100000 ≤ 257 * 4096.
Proof.
  pose proof (proj1 (boot_free_frames 0x100000 0 0 small_map 257 small_map_ok ltac:(lia))
    ltac:(vm_compute; reflexivity)) as H.
  exact (proj1 (proj2 (proj2 H))).
Defined.

Lemma small_managed : managed_ok small_avail.
Proof. apply available_managed. Qed.

Lemma small_full : full small_avail small [].
Proof. apply (boot_inv 0x100000 0 0 small_map small_map_ok). Qed.

Lemma small_owned : full small_avail st_done [0x101000].
Proof.
  apply (steps_inv small_avail _ after_alloc small_managed alloc_run (boot_inv 0x100000 0 0 small_map small_map_ok)).
Qed.


Lemma free_page_correct_witness : full small_avail (pmm_free_page (λ _, 0) 0 0x101000 st_done) [].
Proof.
  exact (free_page_correct small_avail st_done [] (λ _, 0) 0 0x101000 small_managed small_owned ltac:(lia)).
Defined.

Lemma alloc_pages_correct_witness : snd (pmm_alloc_pages 0 2 small) = 0x100000 ∧
  full small_avail (fst (pmm_alloc_pages 0 2 small)) (run_pages 0x100000 2 ++ []).
Proof.
  assert (snd (pmm_alloc_pages 0 2 small) = 0x100000) as Hp by (vm_compute; reflexivity).
  split; [exact Hp|].
  pose proof (alloc_pages_correct small_avail small [] 0 2 small_managed small_full ltac:(lia)) as H.
  destruct (pmm_alloc_pages 0 2 small) as [st' base]. cbn in Hp. subst base.
  destruct H as [(_ & H & _)|[H _]]; [exact H|discriminate].
Defined.

(** ** Exhaustion reported with free frames left *)

(** The single-page scan is bounded by the amount of usable memory, not by the
    highest frame: with 16 usable frames at 1 GiB nothing below frame 16 exists
    and every allocation fails although the frames are free. *)
Definition high_map : list memory_map_entry_t := [MMap 0x40000000 0x10000 1].

Theorem alloc_misses_high_frames :
  let st := boot 0x100000 0 0 high_map in
  snd (pmm_alloc_page 0 st) = 0 ∧ free st 262144 = true.
Proof. vm_compute. done. Qed.

(** The contiguous scan does not join the two halves at the hint: frames 319
    and 320 are free, 320 starts the hint word, and no run of two is found. *)
Definition straddle_map : list memory_map_entry_t := [MMap 0x13F000 0x2000 1].

Theorem alloc_pages_misses_straddling_run :
  let st := with_hint 5 (boot 0x100000 0 0 straddle_map) in
  snd (pmm_alloc_pages 0 2 st) = 0 ∧ free st 319 = true ∧ free st 320 = true.
Proof. vm_compute. done. Qed.

End PmmProps.
