(* ===== verification/Errno.v ===== *)
(** * Kernel error numbers (kernel/include/errno.h)

    The kernel returns negative error numbers. *)

From S2P Require Import Prelude.

Definition EPERM : Z := -1.
Definition ENOENT : Z := -2.
Definition ESRCH : Z := -3.
Definition EINTR : Z := -4.
Definition E2BIG : Z := -7.
Definition EBADF : Z := -9.
Definition EAGAIN : Z := -11.
Definition ENOMEM : Z := -12.
Definition EACCES : Z := -13.
Definition EFAULT : Z := -14.
Definition EEXIST : Z := -17.
Definition EINVAL : Z := -22.
Definition EMFILE : Z := -24.
Definition ENOSPC : Z := -28.
Definition EMSGSIZE : Z := -90.
