(* ===== verification/Bytes.v ===== *)
(** * Bytes, little-endian words and sums

    Lemmas shared by the components that lay records out as bytes or count
    references over arrays. *)

From S2P Require Import Prelude.

(** The [n] bytes of [x], least significant first. *)
Fixpoint le_bytes (n : nat) (x : Z) : list Z :=
  match n with
  | O => []
  | S n => x mod 256 :: le_bytes n (x / 256)
  end.

(** The word the bytes spell; each is read as a [uint8_t]. *)
Fixpoint le_val (l : list Z) : Z :=
  match l with
  | [] => 0
  | b :: l => u8 b + 256 * le_val l
  end.

Lemma length_le_bytes n x : length (le_bytes n x) = n.
Proof. revert x. induction n as [|n IH]; intros x; cbn; [done|]. by rewrite IH. Qed.

Lemma le_val_bytes n x : 0 ≤ x < 256 ^ Z.of_nat n → le_val (le_bytes n x) = x.
Proof.
  revert x. induction n as [|n IH]; intros x Hx; cbn [le_bytes le_val].
  { cbn in Hx. lia. }
  rewrite IH; [unfold u8; change (2 ^ 8) with 256; rewrite Z.mod_mod by lia;
               pose proof (Z.div_mod x 256); lia|].
  rewrite Nat2Z.inj_succ, Z.pow_succ_r in Hx by lia.
  split; [apply Z.div_pos; lia|apply Z.div_lt_upper_bound; lia].
Qed.

Lemma le_val_range l : 0 ≤ le_val l < 256 ^ Z.of_nat (length l).
Proof.
  induction l as [|b l IH]; cbn [le_val length]; [cbn; lia|].
  rewrite Nat2Z.inj_succ, Z.pow_succ_r by lia. pose proof (u8_range b). lia.
Qed.

(** ** Sums over a list *)

Definition zsum {A} (f : A → Z) (l : list A) : Z := foldr (λ x n, f x + n) 0 l.

Lemma zsum_cons {A} (f : A → Z) x l : zsum f (x :: l) = f x + zsum f l.
Proof. done. Qed.

Lemma zsum_app {A} (f : A → Z) l k : zsum f (l ++ k) = zsum f l + zsum f k.
Proof. induction l as [|x l IH]; [done|]. cbn [app]. rewrite !zsum_cons, IH. lia. Qed.

Lemma zsum_perm {A} (f : A → Z) l k : l ≡ₚ k → zsum f l = zsum f k.
Proof. unfold zsum. induction 1; cbn; lia. Qed.

Lemma zsum_insert {A} (f : A → Z) l i x y : l !! i = Some x →
  zsum f (<[i := y]> l) = zsum f l - f x + f y.
Proof.
  revert i. induction l as [|z l IH]; intros [|i] Hi; try done.
  - injection Hi as ->. change (<[0%nat := y]> (x :: l)) with (y :: l). rewrite !zsum_cons. lia.
  - change (<[S i := y]> (z :: l)) with (z :: <[i := y]> l). rewrite !zsum_cons, (IH i Hi). lia.
Qed.

Lemma zsum_bound {A} (f : A → Z) l lo hi : (∀ x, x ∈ l → lo ≤ f x ≤ hi) →
  lo * Z.of_nat (length l) ≤ zsum f l ≤ hi * Z.of_nat (length l).
Proof.
  induction l as [|x l IH]; intros H; cbn [length]; [cbn; lia|]. rewrite zsum_cons.
  pose proof (H x ltac:(by left)). specialize (IH ltac:(intros y Hy; apply H; by right)). lia.
Qed.

Lemma zsum_nonneg {A} (f : A → Z) l : (∀ x, 0 ≤ f x) → 0 ≤ zsum f l.
Proof. intros H. induction l as [|x l IH]; [done|]. rewrite zsum_cons. specialize (H x). lia. Qed.

Lemma zsum_nonneg_in {A} (f : A → Z) l : (∀ x, x ∈ l → 0 ≤ f x) → 0 ≤ zsum f l.
Proof.
  induction l as [|x l IH]; intros H; [done|]. rewrite zsum_cons. pose proof (H x ltac:(by left)).
  specialize (IH ltac:(intros y Hy; apply H; by right)). lia.
Qed.

Lemma zsum_zero {A} (f : A → Z) l : (∀ x, x ∈ l → f x = 0) → zsum f l = 0.
Proof.
  intros H. induction l as [|x l IH]; [done|]. rewrite zsum_cons, (H x), IH; [done| |by left].
  intros y Hy. apply H. by right.
Qed.

Lemma zsum_ext {A} (f g : A → Z) l : (∀ x, x ∈ l → f x = g x) → zsum f l = zsum g l.
Proof.
  intros H. induction l as [|x l IH]; [done|]. rewrite !zsum_cons, (H x), IH; [done| |by left].
  intros y Hy. apply H. by right.
Qed.

Lemma zsum_elem {A} (f : A → Z) l x : (∀ y, 0 ≤ f y) → x ∈ l → f x ≤ zsum f l.
Proof.
  intros H. induction 1 as [x l|x x' l Hin IH]; rewrite zsum_cons.
  - pose proof (zsum_nonneg f l H). lia.
  - specialize (H x'). lia.
Qed.

(** How often a value occurs. *)
Definition occ (a : Z) (l : list Z) : Z := zsum (λ x, if x =? a then 1 else 0) l.

Lemma occ_cons a x l : occ a (x :: l) = (if x =? a then 1 else 0) + occ a l.
Proof. done. Qed.

Lemma occ_nonneg a l : 0 ≤ occ a l.
Proof. apply zsum_nonneg. intros x. by destruct (x =? a). Qed.

Lemma occ_pos a l : a ∈ l → 0 < occ a l.
Proof.
  intros H. pose proof (zsum_elem (λ x, if x =? a then 1 else 0) l a) as He. cbn in He.
  rewrite Z.eqb_refl in He. unfold occ. assert (1 ≤ zsum (λ x, if x =? a then 1 else 0) l); [|lia].
  apply He; [|done]. intros x. by destruct (x =? a).
Qed.

Lemma occ_zero a l : a ∉ l → occ a l = 0.
Proof.
  intros H. apply zsum_zero. intros x Hx. destruct (Z.eqb_spec x a) as [->|]; done.
Qed.
