(* ===== verification/Route.v ===== *)
(** * IPv4 routing table (kernel/net/route.c)

    A table of sixteen slots with longest-prefix-match lookup.  The slots
    refine a finite map from (network, netmask) to (gateway, interface). *)

From S2P Require Import Prelude Bytes.

Module Route.

Definition ROUTE_MAX : Z := 16.
Definition NET_QEMU_GATEWAY : Z := 0x0A000202.

Record route_entry_t := Route {
  valid : bool; dest : Z; mask : Z; gateway : Z; iface : Z }.

Record rtable := RTable { routes : list route_entry_t; rcount : Z }.

(** [memset(&g_rtable, 0, sizeof(g_rtable))]. *)
Definition zero_route : route_entry_t := Route false 0 0 0 0.
Definition zero_table : rtable := RTable (replicate 16 zero_route) 0.

(** The first index of the array that satisfies a test: the three search loops
    of [route_add] with their [break]. *)
Fixpoint find_slot (f : route_entry_t → bool) (i : nat) (l : list route_entry_t) : option nat :=
  match l with
  | [] => None
  | r :: l => if f r then Some i else find_slot f (S i) l
  end.

Definition same_route (d m : Z) (r : route_entry_t) : bool :=
  valid r && (dest r =? Z.land d m) && (mask r =? m).

Definition count_valid (l : list route_entry_t) : Z :=
  foldl (λ n r, if valid r then n + 1 else n) 0 l.

Definition add_slot (d m : Z) (l : list route_entry_t) : nat :=
  match find_slot (same_route d m) 0 l with
  | Some i => i
  | None =>
      match find_slot (λ r, negb (valid r)) 0 l with
      | Some i => i
      | None => default 0%nat (find_slot (λ r, (dest r =? 0) && (mask r =? 0)) 0 l)
      end
  end.

Definition route_add (d m gw ifc : Z) (t : rtable) : rtable * Z :=
  let slot := add_slot d m (routes t) in
  let l := <[slot := Route true (Z.land d m) m gw ifc]> (routes t) in
  (RTable l (count_valid l), 0).

Definition route_del (d m : Z) (t : rtable) : rtable * Z :=
  match find_slot (same_route d m) 0 (routes t) with
  | Some i =>
      match routes t !! i with
      | Some r => (RTable (<[i := Route false (dest r) (mask r) (gateway r) (iface r)]> (routes t))
                     (i32 (rcount t - 1)), 0)
      | None => (t, -1)
      end
  | None => (t, -1)
  end.

(** [local_ip] is what [net_get_ip()] returns. *)
Definition route_init (local_ip : Z) : rtable :=
  let t := zero_table in
  let t := if negb (local_ip =? 0)
           then fst (route_add (Z.land local_ip 0xFFFFFF00) 0xFFFFFF00 0 local_ip t) else t in
  fst (route_add 0 0 NET_QEMU_GATEWAY local_ip t).

(** [for (m = mask; m; m >>= 1) len += (m & 1)]; 32 shifts clear a [uint32_t]. *)
Fixpoint prefix_len_loop (fuel : nat) (m len : Z) : Z :=
  match fuel with
  | O => len
  | S f => if m =? 0 then len else prefix_len_loop f (Z.shiftr m 1) (u32 (len + Z.land m 1))
  end.
Definition prefix_len (m : Z) : Z := prefix_len_loop 32 m 0.

(** One iteration of [route_lookup]: [best] and [best_prefix_len]. *)
Definition lookup_one (dst_ip : Z) (acc : option route_entry_t * Z) (r : route_entry_t)
  : option route_entry_t * Z :=
  let '(best, best_prefix_len) := acc in
  if negb (valid r) then acc
  else if Z.land dst_ip (mask r) =? dest r then
    let len := prefix_len (mask r) in
    if (best_prefix_len <? len) || match best with None => true | Some _ => false end
    then (Some r, len) else acc
  else acc.

(** [Some (gateway, iface)] for return value 0, [None] for -1. *)
Definition route_lookup (dst_ip : Z) (t : rtable) : option (Z * Z) :=
  match fst (foldl (lookup_one dst_ip) (None, 0) (routes t)) with
  | None => None
  | Some best => Some (gateway best, iface best)
  end.

(** The entries copied to [out[]]: dest, mask, gateway, interface. *)
Definition route_get_table (max : Z) (t : rtable) : list (Z * Z * Z * Z) :=
  if max <=? 0 then []
  else take (Z.to_nat max)
         ((λ r, (dest r, mask r, gateway r, iface r)) <$> filter (λ r, valid r = true) (routes t)).

(** ** Slot search *)

Lemma find_slot_spec f l i :
  match find_slot f i l with
  | Some j => (i ≤ j)%nat ∧ (∃ r, l !! (j - i)%nat = Some r ∧ f r = true) ∧
              (∀ k r, (k < j - i)%nat → l !! k = Some r → f r = false)
  | None => ∀ r, r ∈ l → f r = false
  end.
Proof.
  revert i. induction l as [|r l IH]; intros i; cbn [find_slot].
  { by intros r ?%not_elem_of_nil. }
  destruct (f r) eqn:E.
  { split_and!; [lia|exists r; by rewrite Nat.sub_diag|lia]. }
  specialize (IH (S i)). destruct (find_slot f (S i) l) as [j|].
  - destruct IH as (Hle & (s & Hs & Hf) & Hfirst). split_and!; [lia| |].
    + exists s. replace (j - i)%nat with (S (j - S i)) by lia. done.
    + intros [|k] s' Hk; cbn; [by intros [= <-]|]. apply Hfirst. lia.
  - intros s [->|?]%elem_of_cons; auto.
Qed.

Lemma find_slot_some f l j : find_slot f 0 l = Some j → ∃ r, l !! j = Some r ∧ f r = true.
Proof.
  intros H. pose proof (find_slot_spec f l 0) as Hs. rewrite H in Hs.
  destruct Hs as (_ & Hr & _). by rewrite Nat.sub_0_r in Hr.
Qed.

Lemma find_slot_none f l : find_slot f 0 l = None → ∀ r, r ∈ l → f r = false.
Proof. intros H. pose proof (find_slot_spec f l 0) as Hs. by rewrite H in Hs. Qed.

(** ** The table as a finite map *)

Definition key (r : route_entry_t) : Z * Z := (dest r, mask r).
Definition entry (r : route_entry_t) : Z * Z := (gateway r, iface r).

(** The well-formed tables: sixteen slots, normalised destinations, at most
    one valid slot per (network, mask), and [count] the number of valid slots. *)
Record table_ok (t : rtable) : Prop := {
  ok_slots : length (routes t) = 16%nat;
  ok_norm r : r ∈ routes t → valid r = true → Z.land (dest r) (mask r) = dest r;
  ok_unique i j r s : routes t !! i = Some r → routes t !! j = Some s →
    valid r = true → valid s = true → key r = key s → i = j;
  ok_count : rcount t = count_valid (routes t) }.

(** [t] holds exactly the routes of [M]. *)
Definition represents (t : rtable) (M : gmap (Z * Z) (Z * Z)) : Prop :=
  ∀ k v, M !! k = Some v ↔ ∃ r, r ∈ routes t ∧ valid r = true ∧ key r = k ∧ entry r = v.

Lemma same_route_iff d m r :
  same_route d m r = true ↔ valid r = true ∧ key r = (Z.land d m, m).
Proof.
  unfold same_route, key. rewrite !andb_true_iff, !Z.eqb_eq. split; [intros [[-> ->] ->]; done|].
  intros [-> [= -> ->]]. done.
Qed.

(** The slot [route_add] writes: the route itself when present, else an unused
    slot, else the default route's slot, else slot 0. *)
Lemma add_slot_spec d m l : length l = 16%nat →
  ∃ old, l !! add_slot d m l = Some old ∧
    (same_route d m old = true ∨
     (∀ r, r ∈ l → same_route d m r = false) ∧
     (valid old = false ∨ (∀ r, r ∈ l → valid r = true) ∧
        (key old = (0, 0) ∨ (∀ r, r ∈ l → key r ≠ (0, 0)) ∧ add_slot d m l = 0%nat))).
Proof.
  intros Hl. unfold add_slot.
  destruct (find_slot (same_route d m) 0 l) as [i|] eqn:E1.
  { apply find_slot_some in E1 as (r & ? & ?). exists r. auto. }
  pose proof (find_slot_none _ _ E1) as H1.
  destruct (find_slot (λ r, negb (valid r)) 0 l) as [i|] eqn:E2.
  { apply find_slot_some in E2 as (r & ? & ?%negb_true_iff). exists r. auto. }
  assert (Hall : ∀ r, r ∈ l → valid r = true).
  { intros r Hr. by apply negb_false_iff, (find_slot_none _ _ E2). }
  destruct (find_slot (λ r, (dest r =? 0) && (mask r =? 0)) 0 l) as [i|] eqn:E3; cbn [default].
  - apply find_slot_some in E3 as (r & ? & [H2%Z.eqb_eq H3%Z.eqb_eq]%andb_true_iff).
    exists r. unfold key. rewrite H2, H3. auto 10.
  - destruct l as [|r l]; [done|]. exists r. split; [done|]. right. split; [done|]. right.
    split; [done|]. right. split; [|done]. intros s Hs [= Hd Hm].
    pose proof (find_slot_none _ _ E3 s Hs) as Hf. cbn in Hf. by rewrite Hd, Hm in Hf.
Qed.

Lemma add_slot_unique d m t j s : table_ok t → routes t !! j = Some s → valid s = true →
  key s = (Z.land d m, m) → j = add_slot d m (routes t).
Proof.
  intros Ht Hj Hv Hk. destruct (add_slot_spec d m (routes t) (ok_slots _ Ht)) as (old & Ho & [H|[H _]]).
  - apply same_route_iff in H as [? ?]. eapply (ok_unique _ Ht); [done..|congruence].
  - assert (same_route d m s = true) by (by apply same_route_iff).
    rewrite H in *; [done|]. by apply list_elem_of_lookup_2 in Hj.
Qed.

Lemma lookup_insert_cases {A} (l : list A) i j x y :
  <[i := x]> l !! j = Some y → (j = i ∧ x = y) ∨ (j ≠ i ∧ l !! j = Some y).
Proof.
  destruct (decide (j = i)) as [->|].
  - intros H. left. split; [done|]. by apply list_lookup_insert_Some in H as [(_ & -> & _)|[? _]].
  - rewrite list_lookup_insert_ne by done. auto.
Qed.

Lemma route_add_ok d m gw ifc t : table_ok t → table_ok (fst (route_add d m gw ifc t)).
Proof.
  intros Ht. unfold route_add. cbn [fst]. set (i := add_slot d m (routes t)).
  split; cbn [routes rcount].
  - rewrite length_insert. apply Ht.
  - intros r (j & Hj)%list_elem_of_lookup. apply lookup_insert_cases in Hj as [[_ <-]|[_ Hj]]; cbn.
    + intros _. by rewrite <- Z.land_assoc, Z.land_diag.
    + apply (ok_norm _ Ht). by apply list_elem_of_lookup_2 in Hj.
  - intros j1 j2 r s H1 H2 Hv1 Hv2 Hk.
    apply lookup_insert_cases in H1 as [[-> <-]|[? H1]];
      apply lookup_insert_cases in H2 as [[-> <-]|[? H2]]; [done|..].
    + symmetry. by apply (add_slot_unique d m t _ s).
    + by apply (add_slot_unique d m t _ r).
    + by eapply (ok_unique _ Ht).
  - done.
Qed.

Lemma count_valid_acc l n : foldl (λ n r, if valid r then n + 1 else n) n l = n + count_valid l.
Proof.
  unfold count_valid. revert n. induction l as [|r l IH]; intros n; cbn; [lia|].
  destruct (valid r); rewrite IH; [rewrite (IH (0 + 1))|]; lia.
Qed.

Lemma count_valid_cons r l : count_valid (r :: l) = (if valid r then 1 else 0) + count_valid l.
Proof. unfold count_valid at 1. cbn. rewrite count_valid_acc. by destruct (valid r). Qed.

Lemma count_valid_range l : 0 ≤ count_valid l ≤ Z.of_nat (length l).
Proof.
  induction l as [|r l IH]; [done|]. rewrite count_valid_cons. cbn [length]. destruct (valid r); lia.
Qed.

Lemma count_valid_clear l i r s : l !! i = Some r → valid r = true → valid s = false →
  count_valid (<[i := s]> l) = count_valid l - 1.
Proof.
  revert i. induction l as [|x l IH]; intros [|i] Hi Hr Hs; try done.
  - injection Hi as ->. change (<[0%nat := s]> (r :: l)) with (s :: l). rewrite !count_valid_cons, Hr, Hs. lia.
  - change (<[S i := s]> (x :: l)) with (x :: <[i := s]> l).
    rewrite !count_valid_cons, (IH i Hi Hr Hs). lia.
Qed.

Lemma route_del_ok d m t : table_ok t → table_ok (fst (route_del d m t)).
Proof.
  intros Ht. unfold route_del. destruct (find_slot _ 0 _) as [i|] eqn:E; [|done].
  apply find_slot_some in E as (r & Hr & [Hv Hk]%same_route_iff). rewrite Hr. cbn [fst].
  split; cbn [routes rcount].
  - rewrite length_insert. apply Ht.
  - intros s (j & Hj)%list_elem_of_lookup. apply lookup_insert_cases in Hj as [[_ <-]|[_ Hj]]; [done|].
    apply (ok_norm _ Ht). by apply list_elem_of_lookup_2 in Hj.
  - intros j1 j2 r1 r2 H1 H2 Hv1 Hv2.
    apply lookup_insert_cases in H1 as [[-> <-]|[? H1]]; [done|].
    apply lookup_insert_cases in H2 as [[-> <-]|[? H2]]; [done|]. by eapply (ok_unique _ Ht).
  - rewrite (ok_count _ Ht), (count_valid_clear _ i r) by done. apply i32_small.
    pose proof (count_valid_range (routes t)) as Hc. rewrite (ok_slots _ Ht) in Hc. lia.
Qed.

Lemma zero_table_ok : table_ok zero_table.
Proof.
  assert (Hz : ∀ r, r ∈ routes zero_table → r = zero_route).
  { intros r Hr. by apply elem_of_replicate in Hr as [-> _]. }
  split; [done| | |done].
  - intros r ->%Hz. done.
  - intros i j r s ->%list_elem_of_lookup_2%Hz _. done.
Qed.

Lemma route_init_ok local_ip : table_ok (route_init local_ip).
Proof.
  unfold route_init. apply route_add_ok. destruct (negb _); [apply route_add_ok|]; apply zero_table_ok.
Qed.

(** ** Refinement of the map *)

(** Replacing the slot that held [old] by a valid route [r]. *)
Lemma represents_insert t M i old r n : table_ok t → represents t M → routes t !! i = Some old →
  (∀ j s, routes t !! j = Some s → valid s = true → key s = key r → j = i) → valid r = true →
  represents (RTable (<[i := r]> (routes t)) n)
    (<[key r := entry r]> (if valid old then delete (key old) M else M)).
Proof.
  intros Ht HM Hi Huniq Hv k v. cbn [routes].
  assert (Hlt : (i < length (routes t))%nat) by (by apply lookup_lt_Some in Hi).
  split.
  - intros [[<- <-]|[Hk HMk]]%lookup_insert_Some.
    { exists r. split_and!; try done. apply list_elem_of_lookup. exists i. by rewrite list_lookup_insert_eq. }
    assert (HM' : M !! k = Some v ∧ (valid old = true → key old ≠ k)).
    { destruct (valid old); [|done]. by apply lookup_delete_Some in HMk as [? ?]. }
    destruct HM' as [(s & [j Hj]%list_elem_of_lookup & Hvs & Hks & Hes)%HM Hne].
    exists s. split_and!; try done. apply list_elem_of_lookup. exists j.
    rewrite list_lookup_insert_ne; [done|]. intros ->. rewrite Hi in Hj. injection Hj as ->. by apply Hne.
  - intros (s & (j & Hj)%list_elem_of_lookup & Hvs & <- & <-).
    apply lookup_insert_cases in Hj as [[-> <-]|[Hne Hj]]; [by rewrite lookup_insert_eq|].
    rewrite lookup_insert_ne by (intros He; by destruct (Hne (Huniq j s Hj Hvs (eq_sym He)))).
    assert (HMs : M !! key s = Some (entry s)).
    { apply HM. exists s. split_and!; try done. by apply list_elem_of_lookup_2 in Hj. }
    destruct (valid old) eqn:Hvo; [|done]. rewrite lookup_delete_ne; [done|].
    intros He. destruct Hne. by eapply (ok_unique _ Ht).
Qed.

Lemma represents_in t M r : represents t M → r ∈ routes t → valid r = true →
  M !! key r = Some (entry r).
Proof. intros HM Hr Hv. apply HM. by exists r. Qed.

Lemma represents_full t M : table_ok t → represents t M →
  (∀ r, r ∈ routes t → valid r = true) ↔ rcount t = ROUTE_MAX.
Proof.
  intros Ht _. rewrite (ok_count _ Ht). pose proof (ok_slots _ Ht) as Hl. unfold ROUTE_MAX.
  change 16 with (Z.of_nat 16). rewrite <- Hl. clear. induction (routes t) as [|r l IH].
  { split; [done|]. by intros _ r ?%not_elem_of_nil. }
  rewrite count_valid_cons. pose proof (count_valid_range l). cbn [length].
  split.
  - intros Hall. rewrite (Hall r) by (by left). rewrite (proj1 IH); [lia|]. intros s Hs. apply Hall. by right.
  - intros Hc. destruct (valid r) eqn:E; [|lia].
    intros s [->|Hs]%elem_of_cons; [done|]. apply (proj2 IH); [lia|done].
Qed.

(** The route a full table gives up for a new one. *)
Definition victim (M : gmap (Z * Z) (Z * Z)) (t : rtable) : Z * Z :=
  if bool_decide (is_Some (M !! (0, 0))) then (0, 0)
  else default (0, 0) (key <$> routes t !! 0%nat).

Lemma route_add_refines d m gw ifc t M : table_ok t → represents t M →
  represents (fst (route_add d m gw ifc t))
    (<[(Z.land d m, m) := (gw, ifc)]>
       (if bool_decide (is_Some (M !! (Z.land d m, m))) || negb (rcount t =? ROUTE_MAX)
        then M else delete (victim M t) M)).
Proof.
  intros Ht HM. unfold route_add. cbn [fst].
  destruct (add_slot_spec d m (routes t) (ok_slots _ Ht)) as (old & Ho & Hcase).
  pose proof (represents_insert t M _ old (Route true (Z.land d m) m gw ifc)
    (count_valid (<[add_slot d m (routes t) := Route true (Z.land d m) m gw ifc]> (routes t)))
    Ht HM Ho) as H. cbn [key entry gateway iface dest mask] in H.
  specialize (H (λ j s Hj Hv Hk, add_slot_unique d m t j s Ht Hj Hv Hk) eq_refl).
  assert (Hin : old ∈ routes t) by (by apply list_elem_of_lookup_2 in Ho).
  eapply eq_rect; [exact H|]. clear H.
  destruct Hcase as [[Hv Hk]%same_route_iff|[Hnone Hcase]].
  - rewrite Hv, Hk, (insert_delete_eq M). rewrite bool_decide_eq_true_2; [done|].
    rewrite <- Hk. rewrite (represents_in t M old) by done. by eexists.
  - f_equal. rewrite (bool_decide_eq_false_2 (is_Some (M !! (Z.land d m, m)))).
    2:{ intros [v (r & Hr & Hv & Hk & _)%HM]. specialize (Hnone r Hr).
        assert (same_route d m r = true) by (by apply same_route_iff). congruence. }
    cbn [orb]. pose proof (represents_full t M Ht HM) as Hfull.
    destruct Hcase as [Hv|[Hall Hvict]].
    + rewrite Hv. destruct (Z.eqb_spec (rcount t) ROUTE_MAX) as [He|]; [|done].
      rewrite (proj2 Hfull He old Hin) in Hv. done.
    + rewrite (proj1 Hfull Hall), Z.eqb_refl, (Hall old Hin). cbn. f_equal. unfold victim.
      destruct Hvict as [Hk|[Hno H0]].
      * rewrite bool_decide_eq_true_2; [by rewrite Hk|]. rewrite <- Hk.
        rewrite (represents_in t M old); [by eexists|done|done|by apply Hall].
      * rewrite bool_decide_eq_false_2; [by rewrite <- H0, Ho|].
        intros [v (r & Hr & _ & Hk & _)%HM]. by apply (Hno r).
Qed.

Lemma route_del_refines d m t M : table_ok t → represents t M →
  represents (fst (route_del d m t)) (delete (Z.land d m, m) M) ∧
  snd (route_del d m t) = if bool_decide (is_Some (M !! (Z.land d m, m))) then 0 else -1.
Proof.
  intros Ht HM. unfold route_del. destruct (find_slot _ 0 _) as [i|] eqn:E.
  - apply find_slot_some in E as (r & Hr & [Hv Hk]%same_route_iff). rewrite Hr. cbn [fst snd].
    assert (r ∈ routes t) as Hin by (by apply list_elem_of_lookup_2 in Hr). split.
    2:{ rewrite bool_decide_eq_true_2; [done|]. rewrite <- Hk, (represents_in t M r) by done. by eexists. }
    intros k v. cbn [routes]. rewrite lookup_delete_Some, (HM k v). split.
    + intros [Hne (s & (j & Hj)%list_elem_of_lookup & Hvs & Hks & Hes)]. exists s. split_and!; try done.
      apply list_elem_of_lookup. exists j. rewrite list_lookup_insert_ne; [done|]. intros ->. congruence.
    + intros (s & (j & Hj)%list_elem_of_lookup & Hvs & Hks & Hes).
      apply lookup_insert_cases in Hj as [[_ <-]|[Hne Hj]]; [done|]. split.
      * intros He. destruct Hne. eapply (ok_unique _ Ht); [done..|]. congruence.
      * exists s. split_and!; try done. by apply list_elem_of_lookup_2 in Hj.
  - pose proof (find_slot_none _ _ E) as Hn. cbn [fst snd].
    assert (HMn : M !! (Z.land d m, m) = None).
    { apply eq_None_not_Some. intros [v (r & Hr & Hv & Hk & _)%HM].
      specialize (Hn r Hr). assert (same_route d m r = true) by (by apply same_route_iff). congruence. }
    rewrite delete_id by done. split; [done|]. rewrite bool_decide_eq_false_2; [done|].
    rewrite HMn. by intros [? ?].
Qed.

(** ** Longest prefix match *)

Definition matches (ip : Z) (r : route_entry_t) : Prop :=
  valid r = true ∧ Z.land ip (mask r) = dest r.

(** What the scan has after some slots: nothing matched, or the best so far. *)
Definition best_of (ip : Z) (l : list route_entry_t) (acc : option route_entry_t * Z) : Prop :=
  match fst acc with
  | None => snd acc = 0 ∧ ∀ r, r ∈ l → ¬ matches ip r
  | Some b => b ∈ l ∧ matches ip b ∧ snd acc = prefix_len (mask b) ∧
              ∀ r, r ∈ l → matches ip r → prefix_len (mask r) ≤ prefix_len (mask b)
  end.

Lemma lookup_one_best ip l acc r : best_of ip l acc → best_of ip (l ++ [r]) (lookup_one ip acc r).
Proof.
  destruct acc as [best n]. unfold best_of, lookup_one. cbn [fst snd].
  assert (Hin : ∀ s, s ∈ l ++ [r] ↔ s ∈ l ∨ s = r).
  { intros s. by rewrite elem_of_app, list_elem_of_singleton. }
  assert (Hm : matches ip r ↔ valid r = true ∧ Z.land ip (mask r) = dest r) by done.
  destruct (valid r) eqn:Hv; cbn [negb].
  2:{ destruct best; cbn [fst snd]; setoid_rewrite Hin; naive_solver. }
  destruct (Z.eqb_spec (Z.land ip (mask r)) (dest r)).
  2:{ destruct best; cbn [fst snd]; setoid_rewrite Hin; naive_solver. }
  destruct best as [b|]; cbn [fst snd]; [|rewrite orb_true_r].
  - rewrite orb_false_r. intros (Hb & Hmb & -> & Hmax). zcase; cbn [fst snd]; setoid_rewrite Hin.
    + split; [by right|]. split; [done|]. split; [done|]. intros s [Hs| ->] Hms; [|lia]. specialize (Hmax s Hs Hms). lia.
    + split; [by left|]. split; [done|]. split; [done|]. intros s [Hs| ->] Hms; [by apply Hmax|lia].
  - cbn [fst snd]. setoid_rewrite Hin. intros [_ Hno]. split; [by right|]. split; [done|]. split; [done|].
    intros s [Hs| ->] Hms; [by destruct (Hno s)|lia].
Qed.

Lemma lookup_best ip l : best_of ip l (foldl (lookup_one ip) (None, 0) l).
Proof.
  induction l as [|r l IH] using rev_ind.
  { split; [done|]. by intros r ?%not_elem_of_nil. }
  rewrite foldl_app. cbn. by apply lookup_one_best.
Qed.

(** The number of one bits of a 32-bit mask. *)
Definition ones (m : Z) : Z := zsum (λ i, Z.b2z (Z.testbit m i)) (seqZ 0 32).

Lemma zsum_seqZ_shift (g : Z → Z) n : zsum g (seqZ 1 n) = zsum (λ i, g (i + 1)) (seqZ 0 n).
Proof.
  change 1 with (1 + 0) at 1. rewrite <- fmap_add_seqZ. induction (seqZ 0 n) as [|i l IH]; [done|].
  cbn [fmap list_fmap]. rewrite !zsum_cons, IH, (Z.add_comm 1 i). done.
Qed.

Lemma prefix_len_loop_ones f m len : 0 ≤ len → len + Z.of_nat f < 2 ^ 32 →
  prefix_len_loop f m len = len + zsum (λ i, Z.b2z (Z.testbit m i)) (seqZ 0 (Z.of_nat f)).
Proof.
  revert m len. induction f as [|f IH]; intros m len H0 Hf; cbn [prefix_len_loop]; [by rewrite Z.add_0_r|].
  destruct (Z.eqb_spec m 0) as [->|_].
  { rewrite zsum_zero; [lia|]. intros i _. by rewrite Z.bits_0. }
  rewrite seqZ_cons by lia. replace (Z.pred (Z.of_nat (S f))) with (Z.of_nat f) by lia.
  rewrite zsum_cons, Z.bit0_odd. change (Z.succ 0) with 1. rewrite zsum_seqZ_shift.
  rewrite (zsum_ext _ (λ i, Z.b2z (Z.testbit (Z.shiftr m 1) i))).
  2:{ intros i [Hi _]%elem_of_seqZ. by rewrite Z.shiftr_spec by done. }
  assert (Hl : Z.land m 1 = Z.b2z (Z.odd m)).
  { change 1 with (Z.ones 1) at 1. rewrite Z.land_ones by lia. change (2 ^ 1) with 2. rewrite Zmod_odd. by destruct (Z.odd m). }
  rewrite Hl. assert (0 ≤ Z.b2z (Z.odd m) ≤ 1) by (destruct (Z.odd m); cbn; lia).
  rewrite u32_small by lia. rewrite IH by lia. lia.
Qed.

(** The loop over the mask counts its one bits. *)
Lemma prefix_len_ones m : prefix_len m = ones m.
Proof. unfold prefix_len. rewrite prefix_len_loop_ones by lia. done. Qed.

(** With any masks, a match with the most one bits wins. *)
Lemma route_lookup_most_ones ip t M : represents t M →
  match route_lookup ip t with
  | Some v => ∃ m, M !! (Z.land ip m, m) = Some v ∧
      ∀ m' v', M !! (Z.land ip m', m') = Some v' → ones m' ≤ ones m
  | None => ∀ m, M !! (Z.land ip m, m) = None
  end.
Proof.
  intros HM. unfold route_lookup. pose proof (lookup_best ip (routes t)) as Hb. unfold best_of in Hb.
  assert (Hmatch : ∀ m v, M !! (Z.land ip m, m) = Some v → ∃ r, r ∈ routes t ∧ matches ip r ∧ mask r = m).
  { intros m v (r & Hr & Hv & [= Hd Hm] & _)%HM. exists r. unfold matches. rewrite Hd, Hm. done. }
  destruct (fst (foldl _ _ _)) as [b|].
  - destruct Hb as (Hb & [Hv Hd] & _ & Hmax). exists (mask b).
    pose proof (represents_in t M b HM Hb Hv) as HMb. unfold key, entry in HMb. rewrite Hd. split; [done|].
    intros m' v' (r & Hr & Hmr & <-)%Hmatch. rewrite <- !prefix_len_ones. by apply Hmax.
  - destruct Hb as [_ Hno]. intros m. apply eq_None_not_Some. intros [v (r & Hr & Hmr & _)%Hmatch]. by destruct (Hno r).
Qed.

(** The netmask of a /n network. *)
Definition netmask (n : Z) : Z := 2 ^ 32 - 2 ^ (32 - n).

Lemma prefix_len_netmask n : 0 ≤ n ≤ 32 → prefix_len (netmask n) = n.
Proof.
  intros Hn. assert (Hall : Forall (λ k, prefix_len (netmask k) = k) (seqZ 0 33)).
  { repeat (constructor; [vm_compute; reflexivity|]). constructor. }
  rewrite Forall_forall in Hall. apply Hall. apply elem_of_seqZ. lia.
Qed.

(** Every route of the map has a contiguous netmask. *)
Definition prefix_masks (M : gmap (Z * Z) (Z * Z)) : Prop :=
  ∀ d m v, M !! (d, m) = Some v → ∃ n, 0 ≤ n ≤ 32 ∧ m = netmask n.

Lemma route_lookup_lpm ip t M : represents t M → prefix_masks M →
  match route_lookup ip t with
  | Some v => ∃ n, 0 ≤ n ≤ 32 ∧ M !! (Z.land ip (netmask n), netmask n) = Some v ∧
      ∀ n', n < n' ≤ 32 → M !! (Z.land ip (netmask n'), netmask n') = None
  | None => ∀ n, 0 ≤ n ≤ 32 → M !! (Z.land ip (netmask n), netmask n) = None
  end.
Proof.
  intros HM Hp. unfold route_lookup. pose proof (lookup_best ip (routes t)) as Hb. unfold best_of in Hb.
  assert (Hmatch : ∀ n v, M !! (Z.land ip (netmask n), netmask n) = Some v →
     ∃ r, r ∈ routes t ∧ matches ip r ∧ mask r = netmask n).
  { intros n v (r & Hr & Hv & [= Hd Hm] & _)%HM. exists r. unfold matches. rewrite Hd, Hm. done. }
  destruct (fst (foldl _ _ _)) as [b|].
  - destruct Hb as (Hb & [Hv Hd] & _ & Hmax).
    pose proof (represents_in t M b HM Hb Hv) as HMb. unfold key, entry in HMb.
    destruct (Hp _ _ _ HMb) as (n & Hn & Hmn). rewrite <- Hd, Hmn in HMb. exists n.
    split_and!; [lia|lia|done|]. intros n' Hn'. apply eq_None_not_Some. intros [v Hv'].
    destruct (Hmatch n' v Hv') as (r & Hr & Hmr & Hmk). specialize (Hmax r Hr Hmr).
    rewrite Hmk, Hmn, !prefix_len_netmask in Hmax by lia. lia.
  - destruct Hb as [_ Hno]. intros n Hn. apply eq_None_not_Some. intros [v Hv].
    destruct (Hmatch n v Hv) as (r & Hr & Hmr & _). by destruct (Hno r).
Qed.

(** The map a table stands for. *)
Definition table_map (t : rtable) : gmap (Z * Z) (Z * Z) :=
  list_to_map ((λ r, (key r, entry r)) <$> filter (λ r, valid r = true) (routes t)).

Lemma filter_keys_nodup l : (∀ i j r s, l !! i = Some r → l !! j = Some s →
    valid r = true → valid s = true → key r = key s → i = j) →
  NoDup (((λ r, (key r, entry r)) <$> filter (λ r, valid r = true) l).*1).
Proof.
  rewrite <- list_fmap_compose. induction l as [|x l IH]; intros Hu; [constructor|].
  rewrite filter_cons. assert (Hl : NoDup ((fst ∘ λ r, (key r, entry r)) <$> filter (λ r, valid r = true) l)).
  { apply IH. intros i j r s Hi Hj Hr Hs Hk. specialize (Hu (S i) (S j) r s Hi Hj Hr Hs Hk). lia. }
  case_decide as Hx; [|done]. cbn. constructor; [|done].
  intros (s & Hk & [Hs (j & Hj)%list_elem_of_lookup]%list_elem_of_filter)%list_elem_of_fmap.
  by specialize (Hu 0%nat (S j) x s eq_refl Hj Hx Hs Hk).
Qed.

Lemma table_map_represents t : table_ok t → represents t (table_map t).
Proof.
  intros Ht k v. unfold table_map. rewrite <- elem_of_list_to_map by apply filter_keys_nodup, Ht.
  rewrite list_elem_of_fmap. setoid_rewrite list_elem_of_filter. split.
  - intros (r & [= -> ->] & Hv & Hr). by exists r.
  - intros (r & Hr & Hv & <- & <-). by exists r.
Qed.

(** ** Properties *)

(** C6: the routing table refines a finite map.  For a well-formed table,
    [route_add] binds the normalised (network, mask) to its gateway and
    interface, giving up a route only when the table is full and the route is
    new (the default route if there is one, else the first slot's); the table
    stays well formed. *)
Theorem route_add_correct d m gw ifc t :
  table_ok t →
  let t' := fst (route_add d m gw ifc t) in
  let M := table_map t in
  table_ok t' ∧
  table_map t' = <[(Z.land d m, m) := (gw, ifc)]>
    (if bool_decide (is_Some (M !! (Z.land d m, m))) || negb (rcount t =? ROUTE_MAX)
     then M else delete (victim M t) M).
Proof.
  intros Ht t' M. subst t'. pose proof (route_add_ok d m gw ifc t Ht) as Ht'. split; [done|].
  pose proof (route_add_refines d m gw ifc t M Ht (table_map_represents t Ht)) as H1.
  pose proof (table_map_represents _ Ht') as H2. apply map_eq. intros k.
  apply option_eq. intros v. by rewrite (H2 k v), (H1 k v).
Qed.

(** [route_del] removes exactly the given route, reports 0 when it was
    present and -1 when it was not, and keeps the table and its count well
    formed. *)
Theorem route_del_correct d m t :
  table_ok t →
  table_ok (fst (route_del d m t)) ∧
  table_map (fst (route_del d m t)) = delete (Z.land d m, m) (table_map t) ∧
  snd (route_del d m t) =
    if bool_decide (is_Some (table_map t !! (Z.land d m, m))) then 0 else -1.
Proof.
  intros Ht. pose proof (route_del_ok d m t Ht) as Ht'. split; [done|].
  destruct (route_del_refines d m t _ Ht (table_map_represents t Ht)) as [H1 H2]. split; [|done].
  pose proof (table_map_represents _ Ht') as H3. apply map_eq. intros k.
  apply option_eq. intros v. by rewrite (H3 k v), (H1 k v).
Qed.

(** C7: lookup picks the most specific route.  In every well-formed table
    [route_lookup] fails exactly when no route matches the address, and otherwise
    returns the gateway and interface of a matching route whose mask has the most
    one bits.  When all masks are contiguous, which [route_add] does not require,
    that is longest prefix match: the route returned is the one of the longest
    matching prefix. *)
Theorem route_lookup_correct ip t :
  table_ok t →
  let M := table_map t in
  match route_lookup ip t with
  | Some v => ∃ m, M !! (Z.land ip m, m) = Some v ∧
      ∀ m' v', M !! (Z.land ip m', m') = Some v' → ones m' ≤ ones m
  | None => ∀ m, M !! (Z.land ip m, m) = None
  end ∧
  (prefix_masks M →
   match route_lookup ip t with
   | Some v => ∃ n, 0 ≤ n ≤ 32 ∧ M !! (Z.land ip (netmask n), netmask n) = Some v ∧
       ∀ n', n < n' ≤ 32 → M !! (Z.land ip (netmask n'), netmask n') = None
   | None => ∀ n, 0 ≤ n ≤ 32 → M !! (Z.land ip (netmask n), netmask n) = None
   end).
Proof.
  intros Ht M. pose proof (table_map_represents t Ht) as HM. split.
  - by apply route_lookup_most_ones.
  - by apply route_lookup_lpm.
Qed.

(** ** Witnesses *)

Definition qemu_table : rtable := route_init 0x0A00020F.

Lemma route_add_correct_witness :
  table_map (fst (route_add 0xC0A80017 0xFFFFFF00 0 0x0A00020F qemu_table))
    !! (0xC0A80000, 0xFFFFFF00) = Some (0, 0x0A00020F).
Proof.
  rewrite (proj2 (route_add_correct 0xC0A80017 0xFFFFFF00 0 0x0A00020F qemu_table
                    (route_init_ok _))).
  reflexivity.
Defined.

Lemma route_del_correct_witness : table_map (fst (route_del 0 0 qemu_table)) !! (0, 0) = None.
Proof.
  rewrite (proj1 (proj2 (route_del_correct 0 0 qemu_table (route_init_ok _)))). reflexivity.
Defined.

Lemma qemu_masks : prefix_masks (table_map qemu_table).
Proof.
  intros d m v H. change (table_map qemu_table)
    with (<[(0x0A000200, 0xFFFFFF00) := (0, 0x0A00020F)]>
            {[(0, 0) := (0x0A000202, 0x0A00020F)]} : gmap (Z * Z) (Z * Z)) in H.
  apply lookup_insert_Some in H as [[[= _ <-] _]|[_ [[= _ <-] _]%lookup_singleton_Some]].
  - exists 24. split; [lia|done].
  - exists 0. split; [lia|done].
Qed.

Lemma route_lookup_correct_witness :
  route_lookup 0x0A000205 qemu_table = Some (0, 0x0A00020F) ∧
  ∃ n, 0 ≤ n ≤ 32 ∧ table_map qemu_table !! (Z.land 0x0A000205 (netmask n), netmask n)
                      = Some (0, 0x0A00020F).
Proof.
  assert (route_lookup 0x0A000205 qemu_table = Some (0, 0x0A00020F)) as E by reflexivity.
  split; [exact E|].
  pose proof (route_lookup_correct 0x0A000205 qemu_table (route_init_ok _)) as H. cbv zeta in H.
  destruct H as [_ H]. specialize (H qemu_masks).
  rewrite E in H. destruct H as (n & Hn & Hm & _). exists n. split; [exact Hn|exact Hm].
Defined.

End Route.
