(* ===== verification/Ring.v ===== *)
(** * The byte ring of kernel/ipc/channel.c

    A single-producer single-consumer ring of power-of-two capacity whose
    [head] and [tail] are free-running 32-bit counters.  The ring refines a
    bounded FIFO queue of bytes, also across wrap-around of the counters. *)

From S2P Require Import Prelude.

Module Ring.

Definition CH_PAGE : Z := 4096.
Definition CH_MAX_CAP : Z := 2 ^ 20.

(** [rbuf] holds the bytes of the pages at the C pointer [buf]; [rbase] is that
    pointer, 0 once freed. *)
Record ch_ring_t := ChRing {
  rbase : Z; rbuf : gmap Z Z; cap : Z; mask : Z; head : Z; tail : Z }.

(** [while (c < cap && c < CH_MAX_CAP) c <<= 1], at most eight doublings. *)
Fixpoint ring_cap_loop (fuel : nat) (c want : Z) : Z :=
  match fuel with
  | O => c
  | S f => if (c <? want) && (c <? CH_MAX_CAP) then ring_cap_loop f (u32 (Z.shiftl c 1)) want else c
  end.
Definition ring_cap (want : Z) : Z := ring_cap_loop 9 CH_PAGE want.

(** [page] is what [pmm_alloc_pages(c / CH_PAGE)] returned. *)
Definition ring_init (want page : Z) : option ch_ring_t :=
  let c := ring_cap want in
  if page =? 0 then None else Some (ChRing page ∅ c (c - 1) 0 0).

Definition ring_free (r : ch_ring_t) : ch_ring_t :=
  if negb (rbase r =? 0) then ChRing 0 (rbuf r) (cap r) (mask r) (head r) (tail r) else r.

(** [buf[(pos + i) & mask] = d[i]] for the bytes of [d], from index [i]. *)
Fixpoint put_bytes (buf : gmap Z Z) (m pos i : Z) (d : list Z) : gmap Z Z :=
  match d with
  | [] => buf
  | b :: d => put_bytes (<[Z.land (u32 (pos + i)) m := b]> buf) m pos (i + 1) d
  end.

(** [d[i] = buf[(pos + i) & mask]] for [i] from 0 to [n - 1]. *)
Definition get_bytes (buf : gmap Z Z) (m pos n : Z) : list Z :=
  (λ i, default 0 (buf !! Z.land (u32 (pos + i)) m)) <$> seqZ 0 n.

Definition ring_used (r : ch_ring_t) : Z := u32 (head r - tail r).
Definition ring_room (r : ch_ring_t) : Z := u32 (cap r - ring_used r).

Definition ring_write (r : ch_ring_t) (d : list Z) (len : Z) : ch_ring_t * Z :=
  let freeb := ring_room r in
  let n := if len <? freeb then len else freeb in
  (ChRing (rbase r) (put_bytes (rbuf r) (mask r) (head r) 0 (take (Z.to_nat n) d))
     (cap r) (mask r) (u32 (head r + n)) (tail r), n).

Definition ring_read (r : ch_ring_t) (len : Z) : ch_ring_t * list Z :=
  let used := ring_used r in
  let n := if len <? used then len else used in
  (ChRing (rbase r) (rbuf r) (cap r) (mask r) (head r) (u32 (tail r + n)),
   get_bytes (rbuf r) (mask r) (tail r) n).

(** ** Invariant and abstraction *)

Record ring_ok (r : ch_ring_t) : Prop := {
  rk_cap : ∃ k, 12 ≤ k ≤ 20 ∧ cap r = 2 ^ k;
  rk_mask : mask r = cap r - 1;
  rk_head : 0 ≤ head r < 2 ^ 32;
  rk_tail : 0 ≤ tail r < 2 ^ 32;
  rk_used : ring_used r ≤ cap r }.

(** The queued bytes, oldest first. *)
Definition contents (r : ch_ring_t) : list Z :=
  get_bytes (rbuf r) (mask r) (tail r) (ring_used r).

Lemma cap_bounds r : ring_ok r → 4096 ≤ cap r ≤ 2 ^ 20 ∧ (cap r | 2 ^ 32).
Proof.
  intros [(k & Hk & ->) _ _ _ _]. split.
  - split; [change 4096 with (2 ^ 12)|]; apply Z.pow_le_mono_r; lia.
  - exists (2 ^ (32 - k)). rewrite <- Z.pow_add_r by lia. f_equal. lia.
Qed.

Lemma slot_mod r x : ring_ok r → Z.land (u32 x) (mask r) = x mod cap r.
Proof.
  intros Hr. destruct (cap_bounds r Hr) as [_ [q Hq]]. destruct Hr as [(k & Hk & Hc) Hm _ _ _].
  rewrite Hm, Hc. replace (2 ^ k - 1) with (Z.ones k) by (rewrite Z.ones_equiv; lia).
  rewrite Z.land_ones by lia. rewrite <- Hc. unfold u32. rewrite Hq.
  rewrite Z.mul_comm, Z.rem_mul_r by (rewrite ?Hc; nia).
  rewrite Z.mul_comm, Z_mod_plus_full. apply Z.mod_mod. rewrite Hc. lia.
Qed.

Lemma mod_distinct c x y : 0 < c → x < y < x + c → x mod c ≠ y mod c.
Proof.
  intros Hc Hxy He. pose proof (Z.div_mod x c ltac:(lia)). pose proof (Z.div_mod y c ltac:(lia)).
  assert (Hd : y - x = c * (y / c - x / c)) by lia.
  generalize dependent (y / c - x / c). intros d Hd. destruct (Z.lt_ge_cases d 1); nia.
Qed.

Lemma head_tail r : ring_ok r → head r mod cap r = (tail r + ring_used r) mod cap r.
Proof.
  intros Hr. destruct (cap_bounds r Hr) as [? [q Hq]]. unfold ring_used, u32.
  replace (tail r + (head r - tail r) mod 2 ^ 32)
    with (head r + (- ((head r - tail r) / 2 ^ 32) * q) * cap r)
    by (rewrite Z.mod_eq by lia; rewrite Hq; ring).
  by rewrite Z_mod_plus_full.
Qed.

Section Bytes.
Context (r : ch_ring_t) (Hr : ring_ok r).

Lemma put_bytes_other d buf pos i c :
  (∀ j, 0 ≤ j < Z.of_nat (length d) → (pos + i + j) mod cap r ≠ c) →
  put_bytes buf (mask r) pos i d !! c = buf !! c.
Proof using Hr.
  revert buf i. induction d as [|b d IH]; intros buf i Hd; [done|]. cbn [put_bytes].
  rewrite IH.
  - rewrite slot_mod by done. rewrite lookup_insert_ne; [done|].
    specialize (Hd 0). rewrite Z.add_0_r in Hd. apply Hd. cbn [length]. lia.
  - intros j Hj. replace (pos + (i + 1) + j) with (pos + i + (j + 1)) by lia.
    apply Hd. cbn [length]. lia.
Qed.

Lemma put_bytes_get d buf pos i j b :
  Z.of_nat (length d) ≤ cap r → d !! j = Some b →
  put_bytes buf (mask r) pos i d !! ((pos + i + Z.of_nat j) mod cap r) = Some b.
Proof using Hr.
  revert buf i j. induction d as [|x d IH]; intros buf i j Hl Hj; [done|]. cbn [put_bytes length] in *.
  destruct j as [|j].
  - injection Hj as ->. rewrite Z.add_0_r, put_bytes_other.
    { rewrite slot_mod by done. by rewrite lookup_insert_eq. }
    intros j Hj. apply not_eq_sym, mod_distinct; lia.
  - replace (pos + i + Z.of_nat (S j)) with (pos + (i + 1) + Z.of_nat j) by lia. apply IH; [lia|done].
Qed.

Lemma get_bytes_app buf pos n1 n2 : 0 ≤ n1 → 0 ≤ n2 →
  get_bytes buf (mask r) pos (n1 + n2) =
  get_bytes buf (mask r) pos n1 ++ get_bytes buf (mask r) (pos + n1) n2.
Proof using Hr.
  intros H1 H2. unfold get_bytes. rewrite seqZ_app, fmap_app by done. f_equal.
  apply list_eq. intros i. rewrite !list_lookup_fmap.
  destruct (decide (i < Z.to_nat n2)%nat).
  - rewrite !lookup_seqZ_lt by lia. cbn [fmap option_fmap option_map].
    by replace (pos + (0 + n1 + Z.of_nat i)) with (pos + n1 + (0 + Z.of_nat i)) by lia.
  - rewrite !lookup_seqZ_ge by lia. done.
Qed.

Lemma get_bytes_mod buf x y n : x mod cap r = y mod cap r →
  get_bytes buf (mask r) x n = get_bytes buf (mask r) y n.
Proof using Hr.
  intros He. unfold get_bytes. apply list_fmap_ext. intros _ j _. f_equal. f_equal.
  rewrite !slot_mod by done. by rewrite Zplus_mod, He, <- Zplus_mod.
Qed.

(** Writing a block and reading it back. *)
Lemma get_put d buf pos : Z.of_nat (length d) ≤ cap r →
  get_bytes (put_bytes buf (mask r) pos 0 d) (mask r) pos (Z.of_nat (length d)) = d.
Proof using Hr.
  intros Hl. unfold get_bytes. apply list_eq. intros i. rewrite list_lookup_fmap.
  destruct (d !! i) as [b|] eqn:E.
  - pose proof (lookup_lt_Some _ _ _ E). rewrite lookup_seqZ_lt by lia.
    cbn [fmap option_fmap option_map]. f_equal. rewrite slot_mod by done. pose proof (put_bytes_get d buf pos 0 i b Hl E) as Hg.
    replace (pos + 0 + Z.of_nat i) with (pos + (0 + Z.of_nat i)) in Hg by lia. by rewrite Hg.
  - apply lookup_ge_None in E. by rewrite lookup_seqZ_ge by lia.
Qed.

(** A block written outside a region leaves it alone. *)
Lemma get_put_other d buf pos0 pos n : 0 ≤ n → n + Z.of_nat (length d) ≤ cap r →
  pos mod cap r = (pos0 + n) mod cap r →
  get_bytes (put_bytes buf (mask r) pos 0 d) (mask r) pos0 n = get_bytes buf (mask r) pos0 n.
Proof using Hr.
  intros Hn Hl He. unfold get_bytes. apply list_fmap_ext. intros i j Hj.
  apply lookup_seqZ in Hj as [-> Hj]. f_equal. rewrite slot_mod by done. apply put_bytes_other.
  intros k Hk. replace (pos + 0 + k) with (pos + k) by lia.
  rewrite Zplus_mod, He, <- Zplus_mod. apply not_eq_sym, mod_distinct; lia.
Qed.

End Bytes.

Lemma length_get_bytes buf m pos n : length (get_bytes buf m pos n) = Z.to_nat n.
Proof. unfold get_bytes. by rewrite length_fmap, length_seqZ. Qed.

Lemma used_nonneg r : 0 ≤ ring_used r.
Proof. apply u32_range. Qed.

Lemma length_contents r : Z.of_nat (length (contents r)) = ring_used r.
Proof. unfold contents. rewrite length_get_bytes. pose proof (used_nonneg r). lia. Qed.

Lemma room_eq r : ring_ok r → ring_room r = cap r - ring_used r.
Proof.
  intros Hr. pose proof (cap_bounds r Hr) as [? _]. pose proof (rk_used r Hr). pose proof (used_nonneg r).
  apply u32_small. lia.
Qed.

(** Advancing the producer by a block of [n] bytes commits it. *)
Definition commit (r : ch_ring_t) (d : list Z) : ch_ring_t :=
  ChRing (rbase r) (put_bytes (rbuf r) (mask r) (head r) 0 d) (cap r) (mask r)
    (u32 (head r + Z.of_nat (length d))) (tail r).

(** Advancing the consumer by [n] bytes. *)
Definition consume (r : ch_ring_t) (n : Z) : ch_ring_t :=
  ChRing (rbase r) (rbuf r) (cap r) (mask r) (head r) (u32 (tail r + n)).

Lemma commit_spec r d : ring_ok r → Z.of_nat (length d) ≤ ring_room r →
  ring_ok (commit r d) ∧ contents (commit r d) = contents r ++ d.
Proof.
  intros Hr Hl. rewrite room_eq in Hl by done. pose proof (cap_bounds r Hr) as [Hc _].
  pose proof (used_nonneg r) as Hu.
  assert (Hu' : ring_used (commit r d) = ring_used r + Z.of_nat (length d)).
  { unfold ring_used at 1, commit, u32. cbn. rewrite Zminus_mod_idemp_l.
    replace (head r + Z.of_nat (length d) - tail r) with (head r - tail r + Z.of_nat (length d)) by lia.
    rewrite Zplus_mod. fold (u32 (head r - tail r)). fold (ring_used r).
    rewrite (Z.mod_small (Z.of_nat _)) by lia. apply Z.mod_small. lia. }
  split.
  - destruct Hr as [H1 H2 H3 H4 H5]. split; try done; [apply u32_range|]. rewrite Hu'. cbn. lia.
  - unfold contents at 1. rewrite Hu'. cbn [commit rbuf mask tail].
    rewrite (get_bytes_app r Hr), (get_put_other r Hr) by (try lia; by rewrite head_tail).
    f_equal. rewrite <- (get_bytes_mod r Hr _ (head r)) by (by apply head_tail).
    apply get_put; [done|lia].
Qed.

Lemma consume_spec r n : ring_ok r → 0 ≤ n ≤ ring_used r →
  ring_ok (consume r n) ∧ contents r = get_bytes (rbuf r) (mask r) (tail r) n ++ contents (consume r n) ∧
  contents (consume r n) = drop (Z.to_nat n) (contents r) ∧
  get_bytes (rbuf r) (mask r) (tail r) n = take (Z.to_nat n) (contents r).
Proof.
  intros Hr Hn. pose proof (cap_bounds r Hr) as [Hc [q Hq]].
  pose proof (rk_used r Hr) as Hu1.
  assert (Hu' : ring_used (consume r n) = ring_used r - n).
  { unfold ring_used at 1, consume, u32. cbn. rewrite Zminus_mod_idemp_r.
    replace (head r - (tail r + n)) with (head r - tail r - n) by lia.
    rewrite Zminus_mod. fold (u32 (head r - tail r)). fold (ring_used r).
    rewrite (Z.mod_small n) by lia. apply Z.mod_small. lia. }
  assert (Hok : ring_ok (consume r n)).
  { destruct Hr as [H1 H2 H3 H4 H5]. split; try done; [apply u32_range|]. rewrite Hu'. cbn. lia. }
  assert (Hsplit : contents r = get_bytes (rbuf r) (mask r) (tail r) n ++ contents (consume r n)).
  { unfold contents. rewrite Hu'. replace (ring_used r) with (n + (ring_used r - n)) at 1 by lia.
    rewrite (get_bytes_app r Hr) by lia. f_equal. cbn [consume rbuf mask tail].
    apply (get_bytes_mod r Hr). unfold u32. rewrite (Z.mod_eq (tail r + n) (2 ^ 32)) by lia. rewrite Hq.
    replace (tail r + n - q * cap r * ((tail r + n) / (q * cap r)))
      with (tail r + n + (- (q * ((tail r + n) / (q * cap r)))) * cap r) by ring.
    by rewrite Z_mod_plus_full. }
  assert (Hlen : length (get_bytes (rbuf r) (mask r) (tail r) n) = Z.to_nat n) by apply length_get_bytes.
  split_and!; [done|done|rewrite Hsplit, drop_app_length'; done|rewrite Hsplit, take_app_length'; done].
Qed.

Lemma ring_write_spec r d len : ring_ok r → 0 ≤ len ≤ Z.of_nat (length d) →
  let '(r', n) := ring_write r d len in
  ring_ok r' ∧ n = Z.min len (cap r - Z.of_nat (length (contents r))) ∧
  contents r' = contents r ++ take (Z.to_nat n) d ∧ cap r' = cap r.
Proof.
  intros Hr Hl. pose proof (room_eq r Hr) as Hroom. pose proof (rk_used r Hr) as Hu.
  unfold ring_write. cbv zeta. rewrite length_contents.
  set (n := if len <? ring_room r then len else ring_room r).
  assert (Hn : n = Z.min len (cap r - ring_used r)) by (unfold n; zcase; lia).
  assert (Hlen : Z.of_nat (length (take (Z.to_nat n) d)) = n) by (rewrite length_take; lia).
  pose proof (commit_spec r (take (Z.to_nat n) d) Hr ltac:(lia)) as [H1 H2].
  unfold commit in H1, H2. rewrite Hlen in H1, H2. done.
Qed.

Lemma ring_read_spec r len : ring_ok r → 0 ≤ len →
  let '(r', d) := ring_read r len in
  ring_ok r' ∧ d = take (Z.to_nat len) (contents r) ∧
  contents r' = drop (Z.to_nat len) (contents r) ∧ cap r' = cap r.
Proof.
  intros Hr Hl. unfold ring_read. cbv zeta. pose proof (used_nonneg r).
  set (n := if len <? ring_used r then len else ring_used r).
  assert (Hn : n = Z.min len (ring_used r)) by (unfold n; zcase; lia).
  destruct (consume_spec r n Hr ltac:(lia)) as (H1 & _ & H2 & H3). unfold consume in H1, H2.
  pose proof (length_contents r).
  split_and!; [done| | |done].
  - rewrite H3. destruct (Z.le_gt_cases len (ring_used r)); [f_equal; lia|].
    rewrite !take_ge; [done|lia..].
  - rewrite H2. destruct (Z.le_gt_cases len (ring_used r)); [f_equal; lia|].
    rewrite !drop_ge; [done|lia..].
Qed.

Lemma ring_cap_spec want : 0 ≤ want ≤ CH_MAX_CAP →
  (∃ k, 12 ≤ k ≤ 20 ∧ ring_cap want = 2 ^ k) ∧ want ≤ ring_cap want.
Proof.
  intros Hw. unfold ring_cap. unfold CH_MAX_CAP in *.
  assert (Hgen : ∀ f k, 12 ≤ k ≤ 20 → 20 - k < Z.of_nat f →
    (∃ k', 12 ≤ k' ≤ 20 ∧ ring_cap_loop f (2 ^ k) want = 2 ^ k') ∧ want ≤ ring_cap_loop f (2 ^ k) want).
  { induction f as [|f IH]; intros k Hk Hf; [lia|]. cbn [ring_cap_loop]. unfold CH_MAX_CAP.
    assert (Hp : 2 ^ k ≤ 2 ^ 20) by (apply Z.pow_le_mono_r; lia).
    destruct (Z.ltb_spec (2 ^ k) want); cbn [andb]; [|split; [by exists k|lia]].
    destruct (Z.ltb_spec (2 ^ k) (2 ^ 20)) as [Hlt|]; [|split; [by exists k|lia]].
    rewrite Z.shiftl_mul_pow2 by lia. rewrite u32_small by lia.
    change (2 ^ 1) with 2. replace (2 ^ k * 2) with (2 ^ (k + 1)) by (rewrite Z.pow_add_r by lia; lia).
    apply Z.pow_lt_mono_r_iff in Hlt; [|lia..]. apply IH; lia. }
  apply (Hgen 9%nat 12); lia.
Qed.

Lemma ring_init_ok want page r : 0 ≤ want ≤ CH_MAX_CAP → ring_init want page = Some r →
  ring_ok r ∧ contents r = [] ∧ want ≤ cap r.
Proof.
  intros Hw. unfold ring_init. destruct (page =? 0); [done|]. intros [= <-].
  destruct (ring_cap_spec want Hw) as [(k & Hk & Hc) Hle].
  assert (0 < 2 ^ k) by (apply Z.pow_pos_nonneg; lia).
  split_and!; [|done|done]. split; [by exists k|done|cbn; lia..|].
  change (0 ≤ ring_cap want). lia.
Qed.

End Ring.
