(* ===== verification/Channel.v ===== *)
(** * Channels (kernel/ipc/channel.c): rings, byte streams and message framing

    One channel holds two rings.  The holder of the MASTER end reads
    [to_master] and writes [to_slave]; the SLAVE end does the opposite.  On a
    CH_MSG channel a frame is a 16-byte header and its payload, committed to
    the ring at once. *)

From S2P Require Import Prelude Errno Bytes Ring.

Module Channel.
Import Ring.

Definition CH_BYTE : Z := 0x1.
Definition CH_MSG : Z := 0x2.
Definition CH_END_MASTER : Z := 0.
Definition CH_END_SLAVE : Z := 1.
Definition CH_MAX_IO : Z := 65536.

Record channel_t := Chan {
  to_master : ch_ring_t; to_slave : ch_ring_t;
  cflags : Z; refcount : Z; closed : Z }.

Record msg_packet_t := MsgPacket { mtype : Z; mflags : Z; mlen : Z; request_id : Z }.

(** [page1] and [page2] are the results of the two [pmm_alloc_pages] calls.
    The second component lists the pages handed back when the second fails. *)
Definition channel_alloc (flags capacity page1 page2 : Z) : option channel_t * list (Z * Z) :=
  match ring_init capacity page1 with
  | None => (None, [])
  | Some m =>
      match ring_init capacity page2 with
      | None => (None, [(rbase m, cap m / CH_PAGE)])
      | Some s => (Some (Chan m s flags 1 0), [])
      end
  end.

Definition write_ring (end_ : Z) (ch : channel_t) : ch_ring_t :=
  if end_ =? CH_END_SLAVE then to_master ch else to_slave ch.
Definition read_ring (end_ : Z) (ch : channel_t) : ch_ring_t :=
  if end_ =? CH_END_MASTER then to_master ch else to_slave ch.
Definition set_write_ring (end_ : Z) (r : ch_ring_t) (ch : channel_t) : channel_t :=
  if end_ =? CH_END_SLAVE
  then Chan r (to_slave ch) (cflags ch) (refcount ch) (closed ch)
  else Chan (to_master ch) r (cflags ch) (refcount ch) (closed ch).
Definition set_read_ring (end_ : Z) (r : ch_ring_t) (ch : channel_t) : channel_t :=
  if end_ =? CH_END_MASTER
  then Chan r (to_slave ch) (cflags ch) (refcount ch) (closed ch)
  else Chan (to_master ch) r (cflags ch) (refcount ch) (closed ch).

Definition channel_write (ch : channel_t) (end_ : Z) (data : list Z) (len : Z) : channel_t * Z :=
  let '(r, n) := ring_write (write_ring end_ ch) data len in (set_write_ring end_ r ch, n).
Definition channel_read (ch : channel_t) (end_ len : Z) : channel_t * list Z :=
  let '(r, d) := ring_read (read_ring end_ ch) len in (set_read_ring end_ r ch, d).
Definition channel_available (ch : channel_t) (end_ : Z) : Z := ring_used (read_ring end_ ch).

(** The raw bytes of the header struct, which has no padding. *)
Definition HSZ : Z := 16.
Definition hdr_bytes (h : msg_packet_t) : list Z :=
  le_bytes 2 (mtype h) ++ le_bytes 2 (mflags h) ++ le_bytes 4 (mlen h) ++ le_bytes 8 (request_id h).
Definition hdr_of_bytes (l : list Z) : msg_packet_t :=
  MsgPacket (le_val (take 2 l)) (le_val (take 2 (drop 2 l))) (le_val (take 4 (drop 4 l)))
    (le_val (take 8 (drop 8 l))).

(** [payload] is [None] for a NULL pointer. *)
Definition channel_write_msg (ch : channel_t) (end_ : Z) (hdr : msg_packet_t)
  (payload : option (list Z)) : channel_t * Z :=
  if Z.land (cflags ch) CH_MSG =? 0 then (ch, EINVAL)
  else if negb (mlen hdr =? 0) && match payload with None => true | Some _ => false end
  then (ch, EINVAL)
  else
    let total := u32 (HSZ + mlen hdr) in
    if total <? HSZ then (ch, EMSGSIZE)
    else
      let r := write_ring end_ ch in
      if cap r <? total then (ch, EMSGSIZE)
      else if ring_room r <? total then (ch, EAGAIN)
      else
        let buf := put_bytes (rbuf r) (mask r) (head r) 0 (hdr_bytes hdr) in
        let buf := put_bytes buf (mask r) (head r) HSZ
                     (take (Z.to_nat (mlen hdr)) (default [] payload)) in
        (set_write_ring end_
           (ChRing (rbase r) buf (cap r) (mask r) (u32 (head r + total)) (tail r)) ch, total).

(** The outcome of [channel_read_msg]: the channel, the return value, the header
    when it was filled in and the payload bytes. *)
Definition channel_read_msg (ch : channel_t) (end_ : Z) (payload_null : bool) (payload_cap : Z)
  : channel_t * Z * option msg_packet_t * list Z :=
  if Z.land (cflags ch) CH_MSG =? 0 then (ch, EINVAL, None, [])
  else if negb (payload_cap =? 0) && payload_null then (ch, EINVAL, None, [])
  else
    let r := read_ring end_ ch in
    let used := ring_used r in
    if used <? HSZ then (ch, EAGAIN, None, [])
    else
      let hdr := hdr_of_bytes (get_bytes (rbuf r) (mask r) (tail r) HSZ) in
      if used <? u32 (HSZ + mlen hdr) then (ch, EAGAIN, Some hdr, [])
      else if payload_cap <? mlen hdr then (ch, EMSGSIZE, Some hdr, [])
      else
        let t := u32 (tail r + HSZ) in
        let payload := get_bytes (rbuf r) (mask r) t (mlen hdr) in
        (set_read_ring end_
           (ChRing (rbase r) (rbuf r) (cap r) (mask r) (head r) (u32 (t + mlen hdr))) ch,
         mlen hdr, Some hdr, payload).

(** ** Header round trip *)

Definition hdr_ok (h : msg_packet_t) : Prop :=
  0 ≤ mtype h < 2 ^ 16 ∧ 0 ≤ mflags h < 2 ^ 16 ∧ 0 ≤ mlen h < 2 ^ 32 ∧ 0 ≤ request_id h < 2 ^ 64.

Lemma length_hdr_bytes h : length (hdr_bytes h) = 16%nat.
Proof. unfold hdr_bytes. by rewrite !length_app, !length_le_bytes. Qed.

Lemma hdr_round_trip h : hdr_ok h → hdr_of_bytes (hdr_bytes h) = h.
Proof.
  intros (H1 & H2 & H3 & H4). unfold hdr_of_bytes, hdr_bytes. destruct h as [t f l i]. cbn [mtype mflags mlen request_id] in *.
  change (MsgPacket (le_val (le_bytes 2 t)) (le_val (le_bytes 2 f)) (le_val (le_bytes 4 l))
            (le_val (le_bytes 8 i)) = MsgPacket t f l i).
  by rewrite !le_val_bytes.
Qed.

(** ** Message framing *)

(** A frame on the ring. *)
Definition frame (m : msg_packet_t * list Z) : list Z := hdr_bytes (fst m) ++ snd m.

Definition msg_ok (m : msg_packet_t * list Z) : Prop :=
  hdr_ok (fst m) ∧ mlen (fst m) = Z.of_nat (length (snd m)).

(** A ring that holds exactly the whole messages [q], oldest first. *)
Definition holds (r : ch_ring_t) (q : list (msg_packet_t * list Z)) : Prop :=
  ring_ok r ∧ Forall msg_ok q ∧ contents r = concat (frame <$> q).

Lemma put_bytes_app buf m pos i d1 d2 :
  put_bytes buf m pos i (d1 ++ d2) =
  put_bytes (put_bytes buf m pos i d1) m pos (i + Z.of_nat (length d1)) d2.
Proof.
  revert buf i. induction d1 as [|b d IH]; intros buf i; cbn [app put_bytes length].
  - f_equal. lia.
  - rewrite IH. f_equal. lia.
Qed.

Lemma length_frame m : msg_ok m → Z.of_nat (length (frame m)) = HSZ + mlen (fst m).
Proof. intros [_ ->]. unfold frame. rewrite length_app, length_hdr_bytes. unfold HSZ. lia. Qed.

Lemma write_msg_holds ch end_ m q : holds (write_ring end_ ch) q → msg_ok m →
  Z.land (cflags ch) CH_MSG ≠ 0 →
  let '(ch', n) := channel_write_msg ch end_ (fst m) (Some (snd m)) in
  let r := write_ring end_ ch in
  let total := HSZ + mlen (fst m) in
  if cap r <? total then ch' = ch ∧ n = EMSGSIZE
  else if cap r - Z.of_nat (length (contents r)) <? total then ch' = ch ∧ n = EAGAIN
  else n = total ∧ holds (write_ring end_ ch') (q ++ [m]) ∧
       cap (write_ring end_ ch') = cap r ∧ ch' = set_write_ring end_ (write_ring end_ ch') ch.
Proof.
  intros (Hr & Hq & Hc) Hm Hf. pose proof (cap_bounds _ Hr) as [Hcb _].
  pose proof Hm as [(_ & _ & Hl & _) Hml]. unfold channel_write_msg. cbv zeta.
  destruct (Z.eqb_spec (Z.land (cflags ch) CH_MSG) 0); [done|]. rewrite andb_false_r.
  destruct (Z.lt_ge_cases (2 ^ 32 - 1) (HSZ + mlen (fst m))) as [Hov|Hno].
  { assert (Ht : u32 (HSZ + mlen (fst m)) = HSZ + mlen (fst m) - 2 ^ 32).
    { unfold HSZ in *. unfold u32. rewrite <- (Z_mod_plus_full _ (-1)). apply Z.mod_small. lia. }
    rewrite Ht. unfold HSZ in *. destruct (Z.ltb_spec (16 + mlen (fst m) - 2 ^ 32) 16); [|lia].
    destruct (Z.ltb_spec (cap (write_ring end_ ch)) (16 + mlen (fst m))); [done|lia]. }
  rewrite (u32_small (HSZ + mlen (fst m))) by (unfold HSZ in *; lia).
  destruct (Z.ltb_spec (HSZ + mlen (fst m)) HSZ); [lia|].
  destruct (Z.ltb_spec (cap (write_ring end_ ch)) (HSZ + mlen (fst m))); [done|].
  rewrite room_eq, <- length_contents by done.
  destruct (Z.ltb_spec (cap (write_ring end_ ch) - Z.of_nat (length (contents (write_ring end_ ch))))
             (HSZ + mlen (fst m))) as [|Hfit]; [done|].
  set (r' := ChRing _ _ _ _ _ _).
  assert (Hr' : r' = commit (write_ring end_ ch) (frame m)).
  { unfold r', commit. rewrite length_frame by done. f_equal. unfold frame. rewrite put_bytes_app.
    rewrite length_hdr_bytes. change (default [] (Some (snd m))) with (snd m). by rewrite take_ge by lia. }
  assert (Hw : write_ring end_ (set_write_ring end_ r' ch) = r').
  { unfold write_ring, set_write_ring. by destruct (end_ =? CH_END_SLAVE). }
  split; [done|]. rewrite Hw. split; [|done]. rewrite Hr'.
  destruct (commit_spec (write_ring end_ ch) (frame m) Hr) as [H1 H2].
  { rewrite length_frame, room_eq, <- length_contents by done. lia. }
  split_and!; [done|by apply Forall_app_2; [|constructor]|].
  rewrite H2, Hc, fmap_app, concat_app. cbn. by rewrite app_nil_r.
Qed.

Lemma read_msg_holds ch end_ q payload_cap : holds (read_ring end_ ch) q → 0 ≤ payload_cap →
  Z.land (cflags ch) CH_MSG ≠ 0 →
  let '(ch', n, hdr, payload) := channel_read_msg ch end_ false payload_cap in
  match q with
  | [] => ch' = ch ∧ n = EAGAIN
  | m :: q' =>
      if payload_cap <? mlen (fst m) then ch' = ch ∧ n = EMSGSIZE ∧ hdr = Some (fst m)
      else n = mlen (fst m) ∧ hdr = Some (fst m) ∧ payload = snd m ∧
           holds (read_ring end_ ch') q' ∧ cap (read_ring end_ ch') = cap (read_ring end_ ch) ∧
           ch' = set_read_ring end_ (read_ring end_ ch') ch
  end.
Proof.
  intros (Hr & Hq & Hc) Hp Hf. unfold channel_read_msg. cbv zeta.
  destruct (Z.eqb_spec (Z.land (cflags ch) CH_MSG) 0); [done|]. rewrite andb_false_r.
  set (r := read_ring end_ ch) in *. pose proof (length_contents r) as Hlen.
  destruct q as [|m q'].
  { rewrite Hc in Hlen. cbn in Hlen. destruct (Z.ltb_spec (ring_used r) HSZ); [done|unfold HSZ in *; lia]. }
  apply Forall_cons in Hq as [Hm Hq]. cbn [fmap list_fmap concat] in Hc.
  pose proof (length_frame m Hm) as Hfl. pose proof Hm as [Hh Hml].
  assert (Hu : HSZ + mlen (fst m) ≤ ring_used r) by (rewrite <- Hlen, Hc, length_app; lia).
  assert (0 ≤ mlen (fst m)) by apply Hh.
  destruct (Z.ltb_spec (ring_used r) HSZ); [lia|].
  destruct (consume_spec r HSZ Hr ltac:(unfold HSZ in *; lia)) as (Hr1 & _ & Hc1 & Hg).
  rewrite Hc in Hg, Hc1. unfold frame in Hg, Hc1. rewrite <- !app_assoc in Hg, Hc1.
  rewrite take_app_length' in Hg by (by rewrite length_hdr_bytes).
  rewrite drop_app_length' in Hc1 by (by rewrite length_hdr_bytes).
  rewrite Hg, hdr_round_trip by done.
  pose proof (cap_bounds r Hr) as [Hcb _]. pose proof (rk_used r Hr).
  rewrite (u32_small (HSZ + mlen (fst m))) by (unfold HSZ in *; lia).
  destruct (Z.ltb_spec (ring_used r) (HSZ + mlen (fst m))); [lia|].
  destruct (Z.ltb_spec payload_cap (mlen (fst m))); [done|].
  assert (Hu1 : mlen (fst m) ≤ ring_used (consume r HSZ)).
  { rewrite <- length_contents, Hc1, length_app. lia. }
  destruct (consume_spec (consume r HSZ) (mlen (fst m)) Hr1 ltac:(lia)) as (Hr2 & _ & Hc2 & Hg2).
  rewrite Hc1 in Hc2, Hg2.
  rewrite take_app_length' in Hg2 by lia. rewrite drop_app_length' in Hc2 by lia.
  assert (Hrd : ∀ r', read_ring end_ (set_read_ring end_ r' ch) = r').
  { intros r'. unfold read_ring, set_read_ring. by destruct (end_ =? CH_END_MASTER). }
  rewrite Hrd. split_and!; try done.
Qed.

(** ** The rings stay well formed whatever is sent *)

Definition chan_ok (ch : channel_t) : Prop := ring_ok (to_master ch) ∧ ring_ok (to_slave ch).

(** [ch'] is [ch] with the rings replaced by well-formed ones. *)
Definition same_object (ch ch' : channel_t) : Prop :=
  cflags ch' = cflags ch ∧ refcount ch' = refcount ch ∧ closed ch' = closed ch ∧
  (chan_ok ch → chan_ok ch').

Lemma same_object_refl ch : same_object ch ch.
Proof. done. Qed.

Lemma set_write_ring_same end_ r ch : (ring_ok (write_ring end_ ch) → ring_ok r) →
  same_object ch (set_write_ring end_ r ch).
Proof.
  unfold same_object, set_write_ring, write_ring, chan_ok. destruct (end_ =? CH_END_SLAVE); cbn; tauto.
Qed.

Lemma set_read_ring_same end_ r ch : (ring_ok (read_ring end_ ch) → ring_ok r) →
  same_object ch (set_read_ring end_ r ch).
Proof.
  unfold same_object, set_read_ring, read_ring, chan_ok. destruct (end_ =? CH_END_MASTER); cbn; tauto.
Qed.

Lemma channel_write_same ch end_ data len ch' n : 0 ≤ len ≤ Z.of_nat (length data) →
  channel_write ch end_ data len = (ch', n) → same_object ch ch'.
Proof.
  intros Hl. unfold channel_write.
  pose proof (λ H, ring_write_spec (write_ring end_ ch) data len H Hl) as Hs.
  destruct (ring_write _ _ _) as [r m]. intros [= <- <-].
  apply set_write_ring_same. intros H. by apply Hs in H as (? & _).
Qed.

Lemma channel_read_same ch end_ len ch' d : 0 ≤ len →
  channel_read ch end_ len = (ch', d) → same_object ch ch'.
Proof.
  intros Hl. unfold channel_read.
  pose proof (λ H, ring_read_spec (read_ring end_ ch) len H Hl) as Hs.
  destruct (ring_read _ _) as [r m]. intros [= <- <-].
  apply set_read_ring_same. intros H. by apply Hs in H as (? & _).
Qed.

Lemma channel_write_msg_same ch end_ h payload ch' n : 0 ≤ mlen h < 2 ^ 31 →
  mlen h = Z.of_nat (length (default [] payload)) →
  channel_write_msg ch end_ h payload = (ch', n) → same_object ch ch'.
Proof.
  intros Hl Hp. unfold channel_write_msg. cbv zeta.
  destruct (Z.land (cflags ch) CH_MSG =? 0); [by intros [= <- <-]|].
  destruct (negb _ && _); [by intros [= <- <-]|].
  rewrite (u32_small (HSZ + mlen h)) by (unfold HSZ; lia).
  destruct (_ <? HSZ); [by intros [= <- <-]|]. destruct (_ <? _); [by intros [= <- <-]|].
  destruct (Z.ltb_spec (ring_room (write_ring end_ ch)) (HSZ + mlen h)); [by intros [= <- <-]|].
  intros [<- _]%pair_equal_spec. apply set_write_ring_same. intros Hr.
  rewrite take_ge by lia.
  set (r := write_ring end_ ch) in *.
  pose proof (put_bytes_app (rbuf r) (mask r) (head r) 0 (hdr_bytes h) (default [] payload)) as Hpa.
  rewrite length_hdr_bytes in Hpa. change (0 + Z.of_nat 16) with HSZ in Hpa.
  rewrite <- Hpa.
  set (d := hdr_bytes h ++ default [] payload).
  assert (Hd : HSZ + mlen h = Z.of_nat (length d)).
  { subst d. rewrite length_app, length_hdr_bytes. unfold HSZ. lia. }
  rewrite Hd in *. by apply (commit_spec _ d Hr).
Qed.

Lemma channel_read_msg_same ch end_ b c ch' n h d : 0 ≤ c < 2 ^ 31 →
  channel_read_msg ch end_ b c = (ch', n, h, d) → same_object ch ch'.
Proof.
  intros Hc. unfold channel_read_msg. cbv zeta.
  destruct (Z.land (cflags ch) CH_MSG =? 0); [by intros [= <- _ _ _]|].
  destruct (negb _ && b); [by intros [= <- _ _ _]|].
  destruct (Z.ltb_spec (ring_used (read_ring end_ ch)) HSZ) as [|Hu]; [by intros [= <- _ _ _]|].
  set (hdr := hdr_of_bytes _).
  assert (Hm : 0 ≤ mlen hdr).
  { unfold hdr, hdr_of_bytes. cbn [mlen]. apply le_val_range. }
  destruct (Z.ltb_spec (ring_used (read_ring end_ ch)) (u32 (HSZ + mlen hdr))) as [|Hu2]; [by intros [= <- _ _ _]|].
  destruct (Z.ltb_spec c (mlen hdr)); [by intros [= <- _ _ _]|]. intros [= <- _ _ _].
  rewrite u32_small in Hu2 by (unfold HSZ; lia).
  apply set_read_ring_same. intros Hr. unfold HSZ in *.
  destruct (consume_spec _ 16 Hr ltac:(lia)) as (Hr1 & _ & Hc1 & _).
  apply (consume_spec (consume (read_ring end_ ch) 16) (mlen hdr) Hr1).
  rewrite <- length_contents, Hc1, length_drop. pose proof (length_contents (read_ring end_ ch)). lia.
Qed.

End Channel.
