(* ===== verification/ChannelSys.v ===== *)
(** * Channels: handles, grants, spawn binding and reference counts

    The rest of kernel/ipc/channel.c: per-process handle tables with rights,
    one-shot grants, the stdio bindings staged for a child, and the system
    calls over them.  The invariant ties every channel's reference count to the
    handles, grants and staged bindings that point to it. *)

From S2P Require Import Prelude Errno Bytes Ring Channel.

Module ChannelSys.
Import Ring Channel.

Definition CH_R_READ : Z := 0x01.
Definition CH_R_WRITE : Z := 0x02.
Definition CH_R_TRANSFER : Z := 0x08.
Definition CH_R_ALL : Z := 0x3F.
Definition CH_READABLE : Z := 0x01.
Definition CH_WRITABLE : Z := 0x02.
Definition CH_CLOSED : Z := 0x04.
Definition CH_MAX_HANDLES : Z := 32.
Definition CH_NGRANTS : Z := 8.

(** Pointers to channels are addresses; 0 is NULL. *)
Record handle := Handle { h_ch : Z; h_end : Z; h_rights : Z }.
Record process := Proc { pid : Z; ch_handles : list handle; stdio_chan : list Z }.
Record ch_grant := Grant {
  g_used : bool; from_pid : Z; to_pid : Z; g_ch : Z; g_end : Z; g_rights : Z; gen : Z }.
Record exec_stdio_bind := Bind { b_ch : Z; b_end : Z; b_rights : Z }.

(** The live channel objects, the process table, [g_grants], [g_exec_stdio],
    and the calls made to [pmm_free_pages] (base, pages), newest first. *)
Record world := World {
  chans : gmap Z channel_t; procs : list process; g_grants : list ch_grant;
  g_exec_stdio : list exec_stdio_bind; returned : list (Z * Z) }.

Definition with_chans f w := World (f (chans w)) (procs w) (g_grants w) (g_exec_stdio w) (returned w).
Definition with_procs f w := World (chans w) (f (procs w)) (g_grants w) (g_exec_stdio w) (returned w).
Definition with_grants f w := World (chans w) (procs w) (f (g_grants w)) (g_exec_stdio w) (returned w).
Definition with_stdio f w := World (chans w) (procs w) (g_grants w) (f (g_exec_stdio w)) (returned w).

Definition with_refcount (n : Z) (c : channel_t) : channel_t :=
  Chan (to_master c) (to_slave c) (cflags c) n (closed c).

Definition channel_ref (a : Z) (w : world) : world :=
  match chans w !! a with
  | Some c => with_chans <[a := with_refcount (u32 (refcount c + 1)) c]> w
  | None => w
  end.

Definition free_pages_of (r : ch_ring_t) : list (Z * Z) :=
  if negb (rbase r =? 0) then [(rbase r, cap r / CH_PAGE)] else [].

Definition channel_unref (a : Z) (w : world) : world :=
  match chans w !! a with
  | Some c =>
      let n := if 0 <? refcount c then refcount c - 1 else refcount c in
      if n =? 0 then
        World (delete a (chans w)) (procs w) (g_grants w) (g_exec_stdio w)
          (free_pages_of (to_slave c) ++ free_pages_of (to_master c) ++ returned w)
      else with_chans <[a := with_refcount n c]> w
  | None => w
  end.

(** ** Handle tables *)

Definition empty_handle : handle := Handle 0 0 0.
Definition empty_proc : process := Proc 0 (replicate 32 empty_handle) [0; 0; 0].

(** The first free slot from 1 on. *)
Fixpoint free_slot (i : nat) (l : list handle) : option nat :=
  match l with
  | [] => None
  | h :: l => if h_ch h =? 0 then Some i else free_slot (S i) l
  end.

(** Update one process of the table. *)
Definition upd_proc (p : nat) (f : process → process) (w : world) : world :=
  match procs w !! p with
  | Some q => with_procs <[p := f q]> w
  | None => w
  end.

Definition set_handle (p h : nat) (x : handle) (w : world) : world :=
  upd_proc p (λ q, Proc (pid q) (<[h := x]> (ch_handles q)) (stdio_chan q)) w.

Definition handles_of (p : nat) (w : world) : list handle :=
  default [] (ch_handles <$> procs w !! p).
Definition pid_of (p : nat) (w : world) : Z := default 0 (pid <$> procs w !! p).

(** Process [p] is an index of the process table. *)
Definition process_alloc_handle (p : nat) (ch end_ rights : Z) (w : world) : world * Z :=
  if ch =? 0 then (w, -1)
  else
    match free_slot 1 (drop 1 (handles_of p w)) with
    | Some h => (set_handle p h (Handle ch (u8 end_) rights) w, Z.of_nat h)
    | None => (w, -1)
    end.

(** The channel and the end of a handle that carries the needed rights. *)
Definition process_get_handle (p : nat) (hd need_rights : Z) (w : world) : option (Z * Z) :=
  if (hd <=? 0) || (CH_MAX_HANDLES <=? hd) then None
  else
    match handles_of p w !! Z.to_nat hd with
    | None => None
    | Some h =>
        if h_ch h =? 0 then None
        else if negb (need_rights =? 0) && negb (Z.land (h_rights h) need_rights =? need_rights)
        then None else Some (h_ch h, h_end h)
    end.

Definition process_close_handle (p : nat) (hd : Z) (w : world) : world * Z :=
  if (hd <=? 0) || (CH_MAX_HANDLES <=? hd) then (w, -1)
  else
    match handles_of p w !! Z.to_nat hd with
    | None => (w, -1)
    | Some h =>
        if h_ch h =? 0 then (w, -1)
        else (channel_unref (h_ch h) (set_handle p (Z.to_nat hd) (Handle 0 (h_end h) 0) w), 0)
    end.

(** [g->used = 0; g->gen++; g->ch = 0; from_pid = to_pid = 0]. *)
Definition clear_grant (g : ch_grant) : ch_grant :=
  Grant false 0 0 0 (g_end g) (g_rights g) (u16 (gen g + 1)).

Definition cleanup_handle (p : nat) (w : world) (h : nat) : world :=
  match handles_of p w !! h with
  | Some x => if h_ch x =? 0 then w
              else channel_unref (h_ch x) (set_handle p h (Handle 0 (h_end x) 0) w)
  | None => w
  end.

Definition cleanup_grant (mypid : Z) (w : world) (i : nat) : world :=
  match g_grants w !! i with
  | Some g =>
      if g_used g && ((from_pid g =? mypid) || (to_pid g =? mypid))
      then with_grants <[i := clear_grant g]> (channel_unref (g_ch g) w) else w
  | None => w
  end.

Definition channel_cleanup_process (p : nat) (w : world) : world :=
  let w := foldl (cleanup_handle p) w (seq 1 31) in
  foldl (cleanup_grant (pid_of p w)) w (seq 0 8).

(** ** System calls *)

(** [kmem] is the address [kmalloc] returned (0 on failure), [page1] and
    [page2] the pages of the two rings. *)
Definition sys_ch_create (p : nat) (flags capacity kmem page1 page2 : Z) (w : world) : world * Z :=
  let c := u32 capacity in
  let c := if c =? 0 then CH_PAGE else c in
  if CH_MAX_CAP <? c then (w, EINVAL)
  else if kmem =? 0 then (w, ENOMEM)
  else
    match channel_alloc (u32 flags) c page1 page2 with
    | (None, back) =>
        (World (chans w) (procs w) (g_grants w) (g_exec_stdio w) (back ++ returned w), ENOMEM)
    | (Some ch, _) =>
        let w := with_chans <[kmem := ch]> w in
        let '(w, h) := process_alloc_handle p kmem CH_END_MASTER CH_R_ALL w in
        if h <? 0 then (channel_unref kmem w, EMFILE) else (w, h)
    end.

(** [kbuf] tells whether the bounce buffer was allocated, [user] the bytes at
    the user address ([None] when the copy faults). *)
Definition sys_ch_write (p : nat) (hd len : Z) (kbuf : bool) (user : option (list Z)) (w : world)
  : world * Z :=
  if len =? 0 then (w, 0)
  else
    let len := if CH_MAX_IO <? len then CH_MAX_IO else len in
    match process_get_handle p (i32 hd) CH_R_WRITE w with
    | None => (w, EBADF)
    | Some (a, end_) =>
        if negb kbuf then (w, ENOMEM)
        else
          match user with
          | None => (w, EFAULT)
          | Some data =>
              match chans w !! a with
              | Some ch => let '(ch, n) := channel_write ch end_ data len in
                           (with_chans <[a := ch]> w, n)
              | None => (w, -1)
              end
          end
    end.

(** [copy_ok] tells whether the copy to the user buffer succeeds. *)
Definition sys_ch_read (p : nat) (hd len : Z) (kbuf copy_ok : bool) (w : world)
  : world * Z * list Z :=
  if len =? 0 then (w, 0, [])
  else
    let len := if CH_MAX_IO <? len then CH_MAX_IO else len in
    match process_get_handle p (i32 hd) CH_R_READ w with
    | None => (w, EBADF, [])
    | Some (a, end_) =>
        if negb kbuf then (w, ENOMEM, [])
        else
          match chans w !! a with
          | Some ch =>
              let '(ch, d) := channel_read ch end_ len in
              let w := with_chans <[a := ch]> w in
              if (0 <? Z.of_nat (length d)) && negb copy_ok then (w, EFAULT, [])
              else (w, Z.of_nat (length d), d)
          | None => (w, -1, [])
          end
    end.

Definition sys_ch_wait (p : nat) (hd events : Z) (w : world) : Z :=
  match process_get_handle p (i32 hd) 0 w with
  | None => EBADF
  | Some (a, end_) =>
      match chans w !! a with
      | Some ch =>
          let ready := if negb (Z.land events CH_READABLE =? 0) && (0 <? channel_available ch end_)
                       then CH_READABLE else 0 in
          let ready := if negb (Z.land events CH_WRITABLE =? 0) then Z.lor ready CH_WRITABLE else ready in
          if negb (closed ch =? 0) then Z.lor ready CH_CLOSED else ready
      | None => 0
      end
  end.

Definition sys_ch_close (p : nat) (hd : Z) (w : world) : world * Z :=
  let '(w, r) := process_close_handle p (i32 hd) w in
  if negb (r =? 0) then (w, EBADF) else (w, 0).

(** [hdr] is the user header ([None] on a fault); [upayload] whether the payload
    pointer is non-NULL. *)
Definition sys_ch_sendmsg (p : nat) (hd : Z) (hdr : option msg_packet_t) (upayload kbuf : bool)
  (user : option (list Z)) (w : world) : world * Z :=
  match process_get_handle p (i32 hd) CH_R_WRITE w with
  | None => (w, EBADF)
  | Some (a, end_) =>
      match hdr with
      | None => (w, EFAULT)
      | Some h =>
          if CH_MAX_IO <? mlen h then (w, EMSGSIZE)
          else if negb (mlen h =? 0) && negb upayload then (w, EINVAL)
          else if negb (mlen h =? 0) && negb kbuf then (w, ENOMEM)
          else
            match (if mlen h =? 0 then Some None else Some <$> user) with
            | None => (w, EFAULT)
            | Some payload =>
                match chans w !! a with
                | Some ch => let '(ch, n) := channel_write_msg ch end_ h payload in
                             (with_chans <[a := ch]> w, n)
                | None => (w, EINVAL)
                end
            end
      end
  end.

Definition sys_ch_recvmsg (p : nat) (hd payload_cap : Z) (kbuf copy_hdr copy_payload : bool)
  (w : world) : world * Z * option (msg_packet_t * list Z) :=
  match process_get_handle p (i32 hd) CH_R_READ w with
  | None => (w, EBADF, None)
  | Some (a, end_) =>
      let c := u32 payload_cap in
      let c := if CH_MAX_IO <? c then CH_MAX_IO else c in
      if negb (c =? 0) && negb kbuf then (w, ENOMEM, None)
      else
        match chans w !! a with
        | None => (w, EINVAL, None)
        | Some ch =>
            match channel_read_msg ch end_ (c =? 0) c with
            | (ch, r, hdr, payload) =>
                let w := with_chans <[a := ch]> w in
                if r <? 0 then (w, r, None)
                else if negb copy_hdr then (w, EFAULT, None)
                else if (0 <? r) && negb copy_payload then (w, EFAULT, None)
                else (w, r, (λ h, (h, payload)) <$> hdr)
            end
        end
  end.

(** ** Grants *)

Fixpoint free_grant (i : nat) (l : list ch_grant) : option (nat * ch_grant) :=
  match l with
  | [] => None
  | g :: l => if g_used g then free_grant (S i) l else Some (i, g)
  end.

Definition sys_ch_grant (p : nat) (hd to : Z) (w : world) : world * Z :=
  match process_get_handle p (i32 hd) 0 w with
  | None => (w, EBADF)
  | Some (a, _) =>
      match process_get_handle p (i32 hd) CH_R_READ w with
      | None => (w, EPERM)
      | Some _ =>
          if Z.land (default 0 (cflags <$> chans w !! a)) CH_BYTE =? 0 then (w, EINVAL)
          else
            match free_grant 0 (g_grants w) with
            | None => (w, ENOSPC)
            | Some (i, g) =>
                let w := channel_ref a w in
                (with_grants <[i := Grant true (pid_of p w) (u32 to) a CH_END_MASTER CH_R_READ (gen g)]> w,
                 Z.lor (u32 (Z.shiftl (gen g) 16)) (Z.of_nat i + 1))
            end
      end
  end.

Definition sys_ch_accept (p : nat) (grant_id : Z) (w : world) : world * Z :=
  let raw := Z.land grant_id 0xFFFF in
  let gn := Z.land (Z.shiftr grant_id 16) 0xFFFF in
  if (raw =? 0) || (CH_NGRANTS <? raw) then (w, EBADF)
  else
    let slot := Z.to_nat (raw - 1) in
    match g_grants w !! slot with
    | None => (w, EBADF)
    | Some g =>
        if negb (g_used g) then (w, EBADF)
        else if negb (gen g =? gn) then (w, EBADF)
        else if negb (to_pid g =? pid_of p w) then (w, EPERM)
        else
          let '(w, h) := process_alloc_handle p (g_ch g) (g_end g) (g_rights g) w in
          if h <? 0 then (w, EMFILE)
          else (with_grants <[slot := clear_grant g]> w, h)
    end.

(** ** Binding a child's stdio *)

Definition set_bind (fd : nat) (b : exec_stdio_bind) (w : world) : world := with_stdio <[fd := b]> w.
Definition bind_of (fd : nat) (w : world) : exec_stdio_bind := default (Bind 0 0 0) (g_exec_stdio w !! fd).
Definition unbind (fd : nat) (w : world) : world :=
  set_bind fd (Bind 0 (b_end (bind_of fd w)) (b_rights (bind_of fd w))) w.

(** [clear_spawn_stdio], and the rollback loop of [stage_spawn_stdio]. *)
Definition clear_bind (w : world) (fd : nat) : world :=
  if negb (b_ch (bind_of fd w) =? 0) then unbind fd (channel_unref (b_ch (bind_of fd w)) w) else w.
Definition clear_spawn_stdio (w : world) : world := foldl clear_bind w (seq 0 3).

Fixpoint stage_loop (p : nat) (fd : nat) (hin : list Z) (w : world) : world * Z :=
  match hin with
  | [] => (w, 0)
  | hd :: hin =>
      let w := set_bind fd (Bind 0 CH_END_SLAVE 0) w in
      if hd =? 0 then stage_loop p (S fd) hin w
      else
        match process_get_handle p (i32 hd) CH_R_TRANSFER w with
        | None => (foldl clear_bind w (seq 0 fd), EBADF)
        | Some (a, _) =>
            let w := channel_ref a w in
            stage_loop p (S fd) hin
              (set_bind fd (Bind a CH_END_SLAVE (if (fd =? 0)%nat then CH_R_READ else CH_R_WRITE)) w)
        end
  end.
Definition stage_spawn_stdio (p : nat) (in_h out_h err_h : Z) (w : world) : world * Z :=
  stage_loop p 0 [in_h; out_h; err_h] w.

Definition set_stdio_chan (c fd : nat) (h : Z) (w : world) : world :=
  upd_proc c (λ q, Proc (pid q) (ch_handles q) (<[fd := u8 h]> (stdio_chan q))) w.

Definition install_fd (child : nat) (w : world) (fd : nat) : world :=
  let b := bind_of fd w in
  if b_ch b =? 0 then w
  else
    let '(w, h) := process_alloc_handle child (b_ch b) (b_end b) (b_rights b) w in
    let w := if 0 <? h then set_stdio_chan child fd h w else channel_unref (b_ch b) w in
    unbind fd w.
Definition channel_install_spawn_stdio (child : nat) (w : world) : world :=
  foldl (install_fd child) w (seq 0 3).

(** [spawned] is the process [sys_spawn] built and handed to
    [channel_install_spawn_stdio] on its success path, with the value it
    returned; [None] when the spawn failed before that. *)
Definition sys_spawn_ex (p : nat) (in_h out_h err_h : Z) (spawned : option nat) (ret : Z) (w : world)
  : world * Z :=
  let '(w, rc) := stage_spawn_stdio p in_h out_h err_h w in
  if negb (rc =? 0) then (w, rc)
  else
    let w := match spawned with Some c => channel_install_spawn_stdio c w | None => w end in
    (clear_spawn_stdio w, ret).

(** [argv] is the vector at [argv_buf] ([None] when the copy faults).  The last
    component is what [g_exec_spawn_argv] holds while [sys_spawn] runs; its
    length is reset to 0 on every path. *)
Definition sys_spawn_ex_argv (p : nat) (argv_len : Z) (argv : option (list Z)) (in_h out_h err_h : Z)
  (spawned : option nat) (ret : Z) (w : world) : world * Z * list Z :=
  let n := u32 argv_len in
  if 4095 <? n then (w, E2BIG, [])
  else
    match (if 0 <? n then take (Z.to_nat n) <$> argv else Some []) with
    | None => (w, EFAULT, [])
    | Some v => let '(w, r) := sys_spawn_ex p in_h out_h err_h spawned ret w in (w, r, v)
    end.

(** ** References *)

Definition href (a : Z) (h : handle) : Z := if h_ch h =? a then 1 else 0.
Definition gref (a : Z) (g : ch_grant) : Z := if g_used g && (g_ch g =? a) then 1 else 0.
Definition bref (a : Z) (b : exec_stdio_bind) : Z := if b_ch b =? a then 1 else 0.

(** The pointers to channel [a] held in the kernel's tables. *)
Definition refs (w : world) (a : Z) : Z :=
  zsum (λ p, zsum (href a) (ch_handles p)) (procs w) + zsum (gref a) (g_grants w)
  + zsum (bref a) (g_exec_stdio w).

Definition MAX_PROCESSES : Z := 256.

(** The shape of the tables. *)
Record tables_ok (w : world) : Prop := {
  tb_procs : Z.of_nat (length (procs w)) ≤ MAX_PROCESSES;
  tb_handles q : q ∈ procs w → length (ch_handles q) = 32%nat;
  tb_grants : length (g_grants w) = 8%nat;
  tb_grant g : g ∈ g_grants w → g_used g = true →
    g_ch g ≠ 0 ∧ g_rights g = CH_R_READ ∧ g_end g = CH_END_MASTER;
  tb_gen g : g ∈ g_grants w → 0 ≤ gen g < 2 ^ 16;
  tb_stdio : length (g_exec_stdio w) = 3%nat }.

(** [tmp] lists the references an operation holds in local variables. *)
Record winv (tmp : list Z) (w : world) : Prop := {
  wi_ref a c : chans w !! a = Some c →
    a ≠ 0 ∧ refcount c = refs w a + occ a tmp ∧ 0 < refcount c ∧
    ring_ok (to_master c) ∧ ring_ok (to_slave c);
  wi_live a : a ≠ 0 → 0 < refs w a + occ a tmp → is_Some (chans w !! a);
  wi_tables : tables_ok w }.

Lemma refs_bound w a : tables_ok w → 0 ≤ refs w a ≤ 8203.
Proof.
  intros [H1 H2 H3 H4 _ H5]. unfold refs, MAX_PROCESSES in *.
  assert (Hp : 0 * Z.of_nat (length (procs w)) ≤ zsum (λ p, zsum (href a) (ch_handles p)) (procs w)
               ≤ 32 * Z.of_nat (length (procs w))).
  { apply zsum_bound. intros q Hq. specialize (H2 q Hq).
    pose proof (zsum_bound (href a) (ch_handles q) 0 1) as Hb. rewrite H2 in Hb. cbn in Hb.
    apply Hb. intros h _. unfold href. zcase; lia. }
  pose proof (zsum_bound (gref a) (g_grants w) 0 1) as Hg. rewrite H3 in Hg. cbn in Hg.
  pose proof (zsum_bound (bref a) (g_exec_stdio w) 0 1) as Hb. rewrite H5 in Hb. cbn in Hb.
  assert (Hg1 := Hg ltac:(intros g _; unfold gref; destruct (g_used g && _); lia)).
  assert (Hb1 := Hb ltac:(intros b _; unfold bref; zcase; lia)). lia.
Qed.

(** Moving references between tables and local variables. *)
Lemma winv_move tmp tmp' w w' : winv tmp w → chans w' = chans w → tables_ok w' →
  (∀ b, b ≠ 0 → refs w' b + occ b tmp' = refs w b + occ b tmp) → winv tmp' w'.
Proof.
  intros [H1 H2 _] Hc Ht Hr. split; [| |done].
  - intros a c Ha. rewrite Hc in Ha. destruct (H1 a c Ha) as (Hn & Hrc & ? & ? & ?).
    rewrite Hr by done. done.
  - intros a Hn Hp. rewrite Hc. apply H2; [done|]. rewrite <- Hr; done.
Qed.

Lemma channel_ref_inv tmp a w : winv tmp w → is_Some (chans w !! a) → (length tmp ≤ 100)%nat →
  winv (a :: tmp) (channel_ref a w).
Proof.
  intros Hw [c Hc] Hl. pose proof (refs_bound w a (wi_tables _ _ Hw)) as Hb.
  unfold channel_ref. rewrite Hc. destruct (wi_ref _ _ Hw a c Hc) as (Hn & Hrc & Hp & Hr1 & Hr2).
  assert (Ho : 0 * Z.of_nat (length tmp) ≤ occ a tmp ≤ 1 * Z.of_nat (length tmp)).
  { apply zsum_bound. intros x _. by destruct (x =? a). }
  split; [| |by destruct Hw as [_ _ []]].
  - intros b d. cbn [chans with_chans]. change (refs (with_chans _ w)) with (refs w). rewrite occ_cons.
    intros [[<- <-]|[Hne Hb']]%lookup_insert_Some.
    + rewrite Z.eqb_refl. cbn. rewrite u32_small by lia. split_and!; (done || lia).
    + destruct (Z.eqb_spec a b); [done|]. by apply (wi_ref _ _ Hw).
  - intros b Hb'. cbn [chans with_chans]. change (refs (with_chans _ w)) with (refs w). rewrite occ_cons.
    destruct (Z.eqb_spec a b) as [->|]; intros Hpos.
    + rewrite lookup_insert_eq. by eexists.
    + rewrite lookup_insert_ne by done. by apply (wi_live _ _ Hw).
Qed.

Lemma channel_unref_inv tmp a w : winv (a :: tmp) w → a ≠ 0 → winv tmp (channel_unref a w).
Proof.
  intros Hw Hn. pose proof (refs_bound w a (wi_tables _ _ Hw)) as Hb. pose proof (occ_nonneg a tmp).
  destruct (wi_live _ _ Hw a Hn) as [c Hc]. { rewrite occ_cons, Z.eqb_refl. lia. }
  unfold channel_unref. rewrite Hc. destruct (wi_ref _ _ Hw a c Hc) as (_ & Hrc & Hp & Hr1 & Hr2).
  rewrite occ_cons, Z.eqb_refl in Hrc. destruct (Z.ltb_spec 0 (refcount c)); [|lia].
  assert (Hother : ∀ b d, a ≠ b → chans w !! b = Some d → b ≠ 0 ∧ refcount d = refs w b + occ b tmp ∧
     0 < refcount d ∧ ring_ok (to_master d) ∧ ring_ok (to_slave d)).
  { intros b d Hne Hd. pose proof (wi_ref _ _ Hw b d Hd) as Hi. rewrite occ_cons in Hi.
    by destruct (Z.eqb_spec a b). }
  assert (Hlive : ∀ b, a ≠ b → b ≠ 0 → 0 < refs w b + occ b tmp → is_Some (chans w !! b)).
  { intros b Hne Hb0 Hpos. apply (wi_live _ _ Hw); [done|]. rewrite occ_cons. zcase; lia. }
  zcase; split; try (by destruct Hw as [_ _ []]); cbn [chans with_chans].
  - intros b d [Hne Hd]%lookup_delete_Some. by apply Hother.
  - intros b Hb0 Hpos. change (0 < refs w b + occ b tmp) in Hpos. destruct (decide (a = b)) as [->|Hne]; [lia|].
    rewrite lookup_delete_ne by done. by apply Hlive.
  - intros b d [[<- <-]|[Hne Hd]]%lookup_insert_Some; [|by apply Hother].
    cbn. change (refs (with_chans _ w)) with (refs w). split_and!; (done || lia).
  - intros b Hb0 Hpos. change (0 < refs w b + occ b tmp) in Hpos. destruct (decide (a = b)) as [->|Hne].
    + rewrite lookup_insert_eq. by eexists.
    + rewrite lookup_insert_ne by done. by apply Hlive.
Qed.

(** Writing one handle slot. *)
Lemma set_handle_inv tmp tmp' p h x old w : winv tmp w → handles_of p w !! h = Some old →
  (∀ b, b ≠ 0 → occ b tmp' + href b x = occ b tmp + href b old) → winv tmp' (set_handle p h x w).
Proof.
  intros Hw Hold Hocc. unfold handles_of in Hold. unfold set_handle, upd_proc.
  destruct (procs w !! p) as [q|] eqn:Hq; [|done]. cbn in Hold.
  eapply winv_move; [exact Hw|done| |].
  - destruct Hw as [_ _ [H1 H2 H3 H4 H5 H6]]. split; try done; cbn [procs with_procs].
    + by rewrite length_insert.
    + intros r (i & Hi)%list_elem_of_lookup. apply list_lookup_insert_Some in Hi as [(_ & <- & _)|[_ Hi]]; cbn.
      * rewrite length_insert. apply H2. by apply list_elem_of_lookup_2 in Hq.
      * apply H2. by apply list_elem_of_lookup_2 in Hi.
  - intros b Hb. unfold refs. cbn [procs with_procs g_grants g_exec_stdio].
    rewrite (zsum_insert _ _ p q) by done. cbn [ch_handles]. rewrite (zsum_insert _ _ h old) by done.
    specialize (Hocc b Hb). lia.
Qed.

Lemma set_grant_inv tmp tmp' i g old w : winv tmp w → g_grants w !! i = Some old →
  (g_used g = true → g_ch g ≠ 0 ∧ g_rights g = CH_R_READ ∧ g_end g = CH_END_MASTER) →
  0 ≤ gen g < 2 ^ 16 →
  (∀ b, b ≠ 0 → occ b tmp' + gref b g = occ b tmp + gref b old) →
  winv tmp' (with_grants <[i := g]> w).
Proof.
  intros Hw Hold Hg Hgen Hocc. eapply winv_move; [exact Hw|done| |].
  - destruct Hw as [_ _ [H1 H2 H3 H4 H5 H6]]. split; try done; cbn [g_grants with_grants].
    + by rewrite length_insert.
    + intros r (j & Hj)%list_elem_of_lookup. apply list_lookup_insert_Some in Hj as [(_ & <- & _)|[_ Hj]]; [done|].
      apply H4. by apply list_elem_of_lookup_2 in Hj.
    + intros r (j & Hj)%list_elem_of_lookup. apply list_lookup_insert_Some in Hj as [(_ & <- & _)|[_ Hj]]; [done|].
      apply H5. by apply list_elem_of_lookup_2 in Hj.
  - intros b Hb. unfold refs. cbn [procs with_grants g_grants g_exec_stdio].
    rewrite (zsum_insert _ _ i old) by done. specialize (Hocc b Hb). lia.
Qed.

Lemma set_bind_inv tmp tmp' fd x w : winv tmp w → (fd < 3)%nat →
  (∀ b, b ≠ 0 → occ b tmp' + bref b x = occ b tmp + bref b (bind_of fd w)) →
  winv tmp' (set_bind fd x w).
Proof.
  intros Hw Hfd Hocc. pose proof (tb_stdio _ (wi_tables _ _ Hw)) as Hl.
  destruct (lookup_lt_is_Some_2 (g_exec_stdio w) fd) as [old Hold]; [lia|].
  unfold bind_of in Hocc. rewrite Hold in Hocc. cbn in Hocc.
  eapply winv_move; [exact Hw|done| |].
  - destruct Hw as [_ _ [H1 H2 H3 H4 H5 H6]]. split; try done; cbn [g_exec_stdio set_bind with_stdio].
    by rewrite length_insert.
  - intros b Hb. unfold refs. cbn [procs set_bind with_stdio g_grants g_exec_stdio].
    rewrite (zsum_insert _ _ fd old) by done. specialize (Hocc b Hb). lia.
Qed.

End ChannelSys.
