(* ===== verification/ChannelProps.v ===== *)
(** * Channels: reachable states and the properties

    Every system call keeps the reference-count invariant of [ChannelSys];
    the rings are FIFO queues, the frames survive a round trip, and rights and
    grants confine what a process can do. *)

From S2P Require Import Prelude Errno Bytes Ring Channel ChannelSys.

Module ChannelProps.
Import Ring Channel ChannelSys.

(** ** Every operation keeps the references exact *)

Lemma free_slot_spec l i j : free_slot i l = Some j →
  (i ≤ j)%nat ∧ ∃ h, l !! (j - i)%nat = Some h ∧ h_ch h = 0.
Proof.
  revert i. induction l as [|h l IH]; intros i; cbn [free_slot]; [done|].
  destruct (Z.eqb_spec (h_ch h) 0).
  - intros [= <-]. split; [done|]. exists h. by rewrite Nat.sub_diag.
  - intros (Hle & x & Hx & Hz)%IH. split; [lia|]. exists x.
    replace (j - i)%nat with (S (j - S i)) by lia. done.
Qed.

Lemma alloc_handle_inv tmp p a e r w w' h : winv (a :: tmp) w → a ≠ 0 →
  process_alloc_handle p a e r w = (w', h) →
  (0 < h ∧ winv tmp w' ∧ handles_of p w' !! Z.to_nat h = Some (Handle a (u8 e) r)) ∨
  (h = -1 ∧ w' = w).
Proof.
  intros Hw Ha. unfold process_alloc_handle. destruct (Z.eqb_spec a 0); [done|].
  destruct (free_slot 1 _) as [j|] eqn:E; intros [= <- <-]; [left|by right].
  apply free_slot_spec in E as (Hj & old & Hold & Hz). rewrite lookup_drop in Hold.
  replace (1 + (j - 1))%nat with j in Hold by lia. split_and!; [lia| |].
  - eapply set_handle_inv; [done..|]. intros b Hb. rewrite occ_cons. unfold href. cbn [h_ch]. rewrite Hz.
    destruct (Z.eqb_spec 0 b); [congruence|]. lia.
  - rewrite Nat2Z.id. unfold handles_of, set_handle, upd_proc in *.
    destruct (procs w !! p) as [q|] eqn:Hq; [|done]. cbn in Hold |- *.
    rewrite list_lookup_insert_eq by (by apply lookup_lt_Some in Hq). cbn.
    rewrite list_lookup_insert_eq; [done|]. by apply lookup_lt_Some in Hold.
Qed.

Lemma handle_live tmp p h x w : winv tmp w → handles_of p w !! h = Some x → h_ch x ≠ 0 →
  is_Some (chans w !! h_ch x).
Proof.
  intros Hw Hx Hn. apply (wi_live _ _ Hw); [done|]. unfold handles_of in Hx.
  destruct (procs w !! p) as [q|] eqn:Hq; [|done]. cbn in Hx. pose proof (occ_nonneg (h_ch x) tmp).
  assert (Hh : ∀ h, 0 ≤ href (h_ch x) h) by (intros y; unfold href; zcase; lia).
  assert (1 ≤ zsum (href (h_ch x)) (ch_handles q)) as H1.
  { pose proof (zsum_elem (href (h_ch x)) (ch_handles q) x Hh) as He. unfold href at 1 in He.
    rewrite Z.eqb_refl in He. apply He. by apply list_elem_of_lookup_2 in Hx. }
  assert (1 ≤ zsum (λ p, zsum (href (h_ch x)) (ch_handles p)) (procs w)) as H2.
  { etrans; [exact H1|]. apply (zsum_elem (λ p, zsum (href (h_ch x)) (ch_handles p))).
    - intros y. by apply zsum_nonneg.
    - by apply list_elem_of_lookup_2 in Hq. }
  assert (0 ≤ zsum (gref (h_ch x)) (g_grants w)).
  { apply zsum_nonneg. intros g. unfold gref. destruct (_ && _); lia. }
  assert (0 ≤ zsum (bref (h_ch x)) (g_exec_stdio w)).
  { apply zsum_nonneg. intros b. unfold bref. zcase; lia. }
  unfold refs. lia.
Qed.

Lemma get_handle_spec p hd need w a e : process_get_handle p hd need w = Some (a, e) →
  a ≠ 0 ∧ ∃ x, handles_of p w !! Z.to_nat hd = Some x ∧ h_ch x = a ∧ h_end x = e ∧
    (need ≠ 0 → Z.land (h_rights x) need = need).
Proof.
  unfold process_get_handle. destruct (_ || _); [done|].
  destruct (handles_of p w !! Z.to_nat hd) as [x|]; [|done].
  destruct (Z.eqb_spec (h_ch x) 0); [done|].
  destruct (Z.eqb_spec need 0), (Z.eqb_spec (Z.land (h_rights x) need) need); cbn; try done;
    intros [= <- <-]; (split; [done|]; by exists x).
Qed.

Lemma get_handle_live tmp p hd need w a e : winv tmp w →
  process_get_handle p hd need w = Some (a, e) → a ≠ 0 ∧ is_Some (chans w !! a).
Proof.
  intros Hw (Hn & x & Hx & <- & _)%get_handle_spec. split; [done|]. by eapply handle_live.
Qed.

Lemma drop_handle_inv tmp p h x w : winv tmp w → handles_of p w !! h = Some x → h_ch x ≠ 0 →
  winv tmp (channel_unref (h_ch x) (set_handle p h (Handle 0 (h_end x) 0) w)).
Proof.
  intros Hw Hx Hn. apply channel_unref_inv; [|done]. eapply set_handle_inv; [done..|].
  intros b Hb. rewrite occ_cons. unfold href. cbn [h_ch]. destruct (Z.eqb_spec 0 b); [congruence|].
  lia.
Qed.

Lemma close_handle_inv tmp p hd w : winv tmp w → winv tmp (fst (process_close_handle p hd w)).
Proof.
  intros Hw. unfold process_close_handle. destruct (_ || _); [done|].
  destruct (handles_of p w !! Z.to_nat hd) as [x|] eqn:Hx; [|done].
  destruct (Z.eqb_spec (h_ch x) 0); [done|]. by apply drop_handle_inv.
Qed.

Lemma foldl_inv {A} (P : world → Prop) (f : world → A → world) l w :
  (∀ w x, x ∈ l → P w → P (f w x)) → P w → P (foldl f w l).
Proof.
  revert w. induction l as [|x l IH]; intros w Hf Hw; [done|]. cbn. apply IH.
  - intros w' y Hy. apply Hf. by right.
  - apply Hf; [by left|done].
Qed.

Lemma grant_live tmp i g w : winv tmp w → g_grants w !! i = Some g → g_used g = true →
  g_ch g ≠ 0 → is_Some (chans w !! g_ch g).
Proof.
  intros Hw Hg Hu Hn. apply (wi_live _ _ Hw); [done|]. pose proof (occ_nonneg (g_ch g) tmp).
  pose proof (zsum_elem (gref (g_ch g)) (g_grants w) g) as He. unfold gref at 2 in He.
  rewrite Hu, Z.eqb_refl in He. cbn in He.
  assert (1 ≤ zsum (gref (g_ch g)) (g_grants w)).
  { apply He; [intros y; unfold gref; destruct (_ && _); lia|]. by apply list_elem_of_lookup_2 in Hg. }
  assert (0 ≤ zsum (bref (g_ch g)) (g_exec_stdio w)).
  { apply zsum_nonneg. intros b. unfold bref. zcase; lia. }
  assert (0 ≤ zsum (λ p, zsum (href (g_ch g)) (ch_handles p)) (procs w)).
  { apply zsum_nonneg. intros p. apply zsum_nonneg. intros h. unfold href. zcase; lia. }
  unfold refs. lia.
Qed.

Lemma unref_tables a w : procs (channel_unref a w) = procs w ∧
  g_grants (channel_unref a w) = g_grants w ∧ g_exec_stdio (channel_unref a w) = g_exec_stdio w.
Proof. unfold channel_unref. destruct (chans w !! a); [|done]. by destruct (_ =? 0). Qed.

Lemma clear_grant_inv tmp i g w : winv tmp w → g_grants w !! i = Some g → g_used g = true →
  g_ch g ≠ 0 → winv (g_ch g :: tmp) (with_grants <[i := clear_grant g]> w).
Proof.
  intros Hw Hg Hu Hn. eapply set_grant_inv; [done|done|done|apply Z.mod_pos_bound; lia|].
  intros b Hb. rewrite occ_cons. unfold gref. cbn. rewrite Hu. cbn. lia.
Qed.

Lemma unref_grants a f w : with_grants f (channel_unref a w) = channel_unref a (with_grants f w).
Proof.
  unfold channel_unref. change (chans (with_grants f w)) with (chans w).
  destruct (chans w !! a); [|done]. by destruct (_ =? 0).
Qed.

Lemma unref_stdio a f w : with_stdio f (channel_unref a w) = channel_unref a (with_stdio f w).
Proof.
  unfold channel_unref. change (chans (with_stdio f w)) with (chans w).
  destruct (chans w !! a); [|done]. by destruct (_ =? 0).
Qed.

Lemma grant_ok tmp i g w : winv tmp w → g_grants w !! i = Some g → g_used g = true →
  g_ch g ≠ 0 ∧ g_rights g = CH_R_READ ∧ g_end g = CH_END_MASTER.
Proof.
  intros Hw Hg. apply (tb_grant _ (wi_tables _ _ Hw)). by apply list_elem_of_lookup_2 in Hg.
Qed.

Lemma cleanup_inv tmp p w : winv tmp w → winv tmp (channel_cleanup_process p w).
Proof.
  intros Hw. unfold channel_cleanup_process. apply foldl_inv.
  - intros w' i _ Hw'. unfold cleanup_grant. destruct (g_grants w' !! i) as [g|] eqn:Hg; [|done].
    destruct (g_used g) eqn:Hu; [|done]. cbn [andb]. destruct (_ || _); [|done].
    pose proof (grant_ok _ _ _ _ Hw' Hg Hu) as (Hn & _).
    rewrite unref_grants. apply channel_unref_inv; [|done]. by apply clear_grant_inv.
  - apply foldl_inv; [|done]. intros w' h _ Hw'. unfold cleanup_handle.
    destruct (handles_of p w' !! h) as [x|] eqn:Hx; [|done].
    destruct (Z.eqb_spec (h_ch x) 0); [done|]. by apply drop_handle_inv.
Qed.

(** Replacing a channel by one with other rings. *)
Lemma update_chan_inv tmp a ch ch' w : winv tmp w → chans w !! a = Some ch → same_object ch ch' →
  winv tmp (with_chans <[a := ch']> w).
Proof.
  intros Hw Ha (_ & Hrc & _ & Hok). split; [| |by destruct Hw as [_ _ []]].
  - intros b c. cbn [chans with_chans]. change (refs (with_chans _ w)) with (refs w).
    intros [[<- <-]|[_ Hb]]%lookup_insert_Some; [|by apply (wi_ref _ _ Hw)].
    destruct (wi_ref _ _ Hw a ch Ha) as (? & ? & ? & H1 & H2). rewrite Hrc.
    destruct (Hok (conj H1 H2)). done.
  - intros b Hb Hp. cbn [chans with_chans]. destruct (decide (a = b)) as [->|].
    + rewrite lookup_insert_eq. by eexists.
    + rewrite lookup_insert_ne by done. by apply (wi_live _ _ Hw).
Qed.

Lemma channel_alloc_ok flags c page1 page2 ch back : 0 ≤ c ≤ CH_MAX_CAP →
  channel_alloc flags c page1 page2 = (Some ch, back) → chan_ok ch ∧ refcount ch = 1.
Proof.
  intros Hc. unfold channel_alloc. destruct (ring_init c page1) as [m|] eqn:E1; [|done].
  destruct (ring_init c page2) as [s|] eqn:E2; [|done]. intros [= <- _].
  apply ring_init_ok in E1 as [? _]; [|done]. apply ring_init_ok in E2 as [? _]; [|done]. done.
Qed.

Lemma create_inv p flags capacity kmem page1 page2 w :
  winv [] w → (kmem ≠ 0 → chans w !! kmem = None) →
  winv [] (fst (sys_ch_create p flags capacity kmem page1 page2 w)).
Proof.
  intros Hw Hfresh. unfold sys_ch_create. cbv zeta. pose proof (u32_range capacity).
  set (c := if u32 capacity =? 0 then CH_PAGE else u32 capacity).
  assert (0 ≤ c) by (unfold c, CH_PAGE; zcase; lia).
  destruct (Z.ltb_spec CH_MAX_CAP c); [done|]. destruct (Z.eqb_spec kmem 0) as [|Hk]; [done|].
  specialize (Hfresh Hk).
  destruct (channel_alloc _ c page1 page2) as [[ch|] back] eqn:E.
  2:{ eapply winv_move; [exact Hw|done|by destruct Hw as [_ _ []]|done]. }
  apply channel_alloc_ok in E as [Hok Hrc]; [|lia].
  assert (Hw1 : winv [kmem] (with_chans <[kmem := ch]> w)).
  { assert (Hz : refs w kmem = 0).
    { pose proof (refs_bound w kmem (wi_tables _ _ Hw)).
      destruct (decide (0 < refs w kmem)) as [Hp|]; [|lia].
      destruct (wi_live _ _ Hw kmem Hk) as [? ?]; [cbn; lia|congruence]. }
    split; [| |by destruct Hw as [_ _ []]].
    - intros b d. cbn [chans with_chans]. change (refs (with_chans _ w)) with (refs w). rewrite occ_cons.
      intros [[<- <-]|[Hne Hb]]%lookup_insert_Some.
      + rewrite Z.eqb_refl, Hz, Hrc. cbn. destruct Hok. split_and!; (done || lia).
      + destruct (Z.eqb_spec kmem b); [done|]. by apply (wi_ref _ _ Hw).
    - intros b Hb Hp. cbn [chans with_chans]. change (refs (with_chans _ w)) with (refs w) in Hp.
      rewrite occ_cons in Hp. destruct (Z.eqb_spec kmem b) as [->|].
      + rewrite lookup_insert_eq. by eexists.
      + rewrite lookup_insert_ne by done. by apply (wi_live _ _ Hw). }
  destruct (process_alloc_handle _ _ _ _ _) as [w' h] eqn:Eh.
  apply alloc_handle_inv with (tmp := []) in Eh as [(Hh & Hw' & _)|[-> ->]]; [..|done|done].
  - destruct (Z.ltb_spec h 0); [lia|done].
  - by apply channel_unref_inv.
Qed.

Lemma write_inv p hd len kbuf user w : winv [] w → 0 ≤ len →
  (∀ d, user = Some d → Z.of_nat (length d) = Z.min len CH_MAX_IO) →
  winv [] (fst (sys_ch_write p hd len kbuf user w)).
Proof.
  intros Hw Hl Hu. unfold sys_ch_write. cbv zeta. destruct (len =? 0); [done|].
  destruct (process_get_handle _ _ _ _) as [[a e]|] eqn:E; [|done]. destruct kbuf; [|done]. cbn [negb].
  destruct user as [d|]; [|done]. specialize (Hu d eq_refl).
  destruct (get_handle_live _ _ _ _ _ _ _ Hw E) as [_ [ch Hch]]. rewrite Hch.
  destruct (channel_write _ _ _ _) as [ch' n] eqn:Ew. cbn. eapply update_chan_inv; [done..|].
  eapply channel_write_same; [|exact Ew]. unfold CH_MAX_IO in *. zcase; lia.
Qed.

Lemma read_inv p hd len kbuf copy w : winv [] w → 0 ≤ len →
  winv [] (fst (fst (sys_ch_read p hd len kbuf copy w))).
Proof.
  intros Hw Hl. unfold sys_ch_read. cbv zeta. destruct (len =? 0); [done|].
  destruct (process_get_handle _ _ _ _) as [[a e]|] eqn:E; [|done]. destruct kbuf; [|done]. cbn [negb].
  destruct (get_handle_live _ _ _ _ _ _ _ Hw E) as [_ [ch Hch]]. rewrite Hch.
  destruct (channel_read _ _ _) as [ch' d] eqn:Er.
  assert (winv [] (with_chans <[a := ch']> w)).
  { eapply update_chan_inv; [done..|]. eapply channel_read_same; [|exact Er]. unfold CH_MAX_IO. zcase; lia. }
  by destruct (_ && _).
Qed.

Lemma sendmsg_inv p hd hdr up kbuf user w : winv [] w →
  (∀ h, hdr = Some h → 0 ≤ mlen h) →
  (∀ h d, hdr = Some h → user = Some d → Z.of_nat (length d) = mlen h) →
  winv [] (fst (sys_ch_sendmsg p hd hdr up kbuf user w)).
Proof.
  intros Hw Hl Hu. unfold sys_ch_sendmsg.
  destruct (process_get_handle _ _ _ _) as [[a e]|] eqn:E; [|done]. destruct hdr as [h|]; [|done].
  specialize (Hl h eq_refl). specialize (Hu h). destruct (Z.ltb_spec CH_MAX_IO (mlen h)); [done|].
  destruct (negb _ && _); [done|]. destruct (negb _ && _); [done|].
  destruct (get_handle_live _ _ _ _ _ _ _ Hw E) as [_ [ch Hch]]. rewrite Hch.
  unfold CH_MAX_IO in *. destruct (Z.eqb_spec (mlen h) 0) as [Hz|]; [|destruct user as [d|]; [|done]].
  - destruct (channel_write_msg _ _ _ _) as [ch' n] eqn:Ew. cbn. eapply update_chan_inv; [done..|].
    apply channel_write_msg_same in Ew; [done|lia|by rewrite Hz].
  - cbn. destruct (channel_write_msg _ _ _ _) as [ch' m] eqn:Ew. cbn. eapply update_chan_inv; [done..|].
    apply channel_write_msg_same in Ew; [done|lia|]. cbn. by rewrite (Hu d).
Qed.

Lemma recvmsg_inv p hd c kbuf c1 c2 w : winv [] w →
  winv [] (fst (fst (sys_ch_recvmsg p hd c kbuf c1 c2 w))).
Proof.
  intros Hw. unfold sys_ch_recvmsg. cbv zeta.
  destruct (process_get_handle _ _ _ _) as [[a e]|] eqn:E; [|done].
  destruct (negb _ && _); [done|].
  destruct (get_handle_live _ _ _ _ _ _ _ Hw E) as [_ [ch Hch]]. rewrite Hch.
  destruct (channel_read_msg _ _ _ _) as [[[ch' n] h] d] eqn:Er.
  assert (winv [] (with_chans <[a := ch']> w)).
  { eapply update_chan_inv; [done..|]. eapply channel_read_msg_same; [|exact Er].
    pose proof (u32_range c). unfold CH_MAX_IO. zcase; lia. }
  destruct (n <? 0); [done|]. destruct c1; [|done]. by destruct (_ && _).
Qed.

Lemma free_grant_spec l i j g : free_grant i l = Some (j, g) →
  (i ≤ j)%nat ∧ l !! (j - i)%nat = Some g ∧ g_used g = false.
Proof.
  revert i. induction l as [|x l IH]; intros i; cbn [free_grant]; [done|].
  destruct (g_used x) eqn:E.
  - intros (Hle & Hx & Hz)%IH. split; [lia|]. replace (j - i)%nat with (S (j - S i)) by lia. done.
  - intros [= <- <-]. by rewrite Nat.sub_diag.
Qed.

Lemma ref_tables a w : procs (channel_ref a w) = procs w ∧
  g_grants (channel_ref a w) = g_grants w ∧ g_exec_stdio (channel_ref a w) = g_exec_stdio w.
Proof. unfold channel_ref. by destruct (chans w !! a). Qed.

Lemma grant_inv p hd to w : winv [] w → winv [] (fst (sys_ch_grant p hd to w)).
Proof.
  intros Hw. unfold sys_ch_grant. destruct (process_get_handle _ _ 0 _) as [[a e]|] eqn:E; [|done].
  destruct (get_handle_live _ _ _ _ _ _ _ Hw E) as [Hn Hlive].
  destruct (process_get_handle _ _ CH_R_READ _); [|done]. destruct (_ =? 0); [done|].
  destruct (free_grant 0 _) as [[i g]|] eqn:Eg; [|done].
  apply free_grant_spec in Eg as (_ & Hg & Hu). rewrite Nat.sub_0_r in Hg. cbn [fst].
  apply set_grant_inv with (tmp := [a]) (old := g); [|by rewrite (proj1 (proj2 (ref_tables a w)))|done| |].
  - apply channel_ref_inv; [done|done|cbn; lia].
  - apply (tb_gen _ (wi_tables _ _ Hw) g). by apply list_elem_of_lookup_2 in Hg.
  - intros b Hb. rewrite occ_cons. unfold gref. cbn [g_used g_ch andb]. rewrite Hu. cbn [andb occ zsum foldr]. lia.
Qed.

Lemma alloc_grants p a e r w : g_grants (fst (process_alloc_handle p a e r w)) = g_grants w.
Proof.
  unfold process_alloc_handle. destruct (a =? 0); [done|]. destruct (free_slot _ _); [|done].
  unfold set_handle, upd_proc. cbn [fst]. by destruct (procs w !! p).
Qed.

Lemma alloc_stdio p a e r w : g_exec_stdio (fst (process_alloc_handle p a e r w)) = g_exec_stdio w.
Proof.
  unfold process_alloc_handle. destruct (a =? 0); [done|]. destruct (free_slot _ _); [|done].
  unfold set_handle, upd_proc. cbn [fst]. by destruct (procs w !! p).
Qed.

Lemma alloc_with_grants p a e r f w : process_alloc_handle p a e r (with_grants f w) =
  (with_grants f (fst (process_alloc_handle p a e r w)), snd (process_alloc_handle p a e r w)).
Proof.
  unfold process_alloc_handle. change (handles_of p (with_grants f w)) with (handles_of p w).
  destruct (a =? 0); [done|]. destruct (free_slot _ _); [|done].
  unfold set_handle, upd_proc. cbn [procs with_grants fst snd]. by destruct (procs w !! p).
Qed.

(** A successful accept moves the grant's reference to the new handle. *)
Lemma accept_inv p gid w : winv [] w → winv [] (fst (sys_ch_accept p gid w)).
Proof.
  intros Hw. unfold sys_ch_accept. cbv zeta. destruct (_ || _); [done|].
  set (slot := Z.to_nat _). destruct (g_grants w !! slot) as [g|] eqn:Hg; [|done].
  destruct (g_used g) eqn:Hu; [|done]. cbn [negb]. destruct (negb _); [done|]. destruct (negb _); [done|].
  destruct (grant_ok _ _ _ _ Hw Hg Hu) as (Hn & _).
  pose proof (clear_grant_inv _ _ _ _ Hw Hg Hu Hn) as Hc.
  pose proof (alloc_with_grants p (g_ch g) (g_end g) (g_rights g) <[slot := clear_grant g]> w) as Ha.
  destruct (process_alloc_handle p _ _ _ w) as [w' h] eqn:E. cbn [fst snd] in Ha.
  apply alloc_handle_inv with (tmp := []) in Ha as [(Hh & Hw' & _)|[-> Hx]]; [..|done|done].
  - destruct (Z.ltb_spec h 0); [lia|done].
  - unfold process_alloc_handle in E. destruct (g_ch g =? 0); [by injection E as <-|].
    destruct (free_slot _ _); [|by injection E as <-]. injection E as _ E. lia.
Qed.

(** ** Spawn *)

Lemma clear_bind_inv tmp w fd : winv tmp w → (fd < 3)%nat → winv tmp (clear_bind w fd).
Proof.
  intros Hw Hfd. unfold clear_bind, unbind, set_bind. destruct (Z.eqb_spec (b_ch (bind_of fd w)) 0); [done|].
  cbn [negb]. rewrite unref_stdio. apply channel_unref_inv; [|done].
  assert (Hb : bind_of fd (channel_unref (b_ch (bind_of fd w)) w) = bind_of fd w).
  { unfold bind_of at 1. by rewrite (proj2 (proj2 (unref_tables _ w))). }
  rewrite Hb. eapply (set_bind_inv tmp); [done..|]. intros b Hbn. rewrite occ_cons. unfold bref. cbn [b_ch].
  destruct (Z.eqb_spec 0 b); [congruence|]. lia.
Qed.

Lemma clear_spawn_inv w : winv [] w → winv [] (clear_spawn_stdio w).
Proof.
  intros Hw. unfold clear_spawn_stdio. apply foldl_inv; [|done].
  intros w' fd Hfd%elem_of_seq Hw'. apply clear_bind_inv; [done|lia].
Qed.

Lemma install_inv c w : winv [] w → winv [] (channel_install_spawn_stdio c w).
Proof.
  intros Hw. unfold channel_install_spawn_stdio. apply foldl_inv; [|done].
  clear w Hw. intros w fd Hfd%elem_of_seq Hw. unfold install_fd. cbv zeta.
  destruct (Z.eqb_spec (b_ch (bind_of fd w)) 0) as [|Hn]; [done|]. set (a := b_ch (bind_of fd w)) in *.
  set (x := Bind 0 (b_end (bind_of fd w)) (b_rights (bind_of fd w))).
  assert (Hc : winv [a] (set_bind fd x w)).
  { apply (set_bind_inv [] [a]); [done|lia|]. intros b Hb. rewrite occ_cons. unfold bref. subst x. cbn [b_ch].
    fold a. destruct (Z.eqb_spec 0 b); [congruence|]. cbn. lia. }
  destruct (process_alloc_handle c a _ _ w) as [w' h] eqn:E.
  assert (Hcomm : process_alloc_handle c a (b_end (bind_of fd w)) (b_rights (bind_of fd w)) (set_bind fd x w)
                  = (set_bind fd x w', h)).
  { revert E. unfold process_alloc_handle. change (handles_of c (set_bind fd x w)) with (handles_of c w).
    destruct (a =? 0); [by intros [= <- <-]|]. destruct (free_slot _ _); intros [= <- <-]; [|done].
    unfold set_handle, upd_proc. cbn [procs set_bind with_stdio]. by destruct (procs w !! c). }
  assert (Hst : g_exec_stdio w' = g_exec_stdio w).
  { pose proof (alloc_stdio c a (b_end (bind_of fd w)) (b_rights (bind_of fd w)) w) as H. by rewrite E in H. }
  apply alloc_handle_inv with (tmp := []) in Hcomm as [(Hh & Hw' & _)|[-> Hx]]; [..|done|done].
  - destruct (Z.ltb_spec 0 h); [|lia]. unfold unbind.
    assert (Hb : bind_of fd (set_stdio_chan c fd h w') = bind_of fd w).
    { unfold bind_of. unfold set_stdio_chan, upd_proc. destruct (procs w' !! c); cbn; by rewrite Hst. }
    rewrite Hb. fold x. revert Hw'. unfold set_stdio_chan, upd_proc. destruct (procs w' !! c) as [q|] eqn:Hq; [|done].
    intros Hw'. eapply winv_move; [exact Hw'|done| |].
    + destruct Hw' as [_ _ [H1 H2 H3 H4 H5 H6]]. split; try done; cbn [procs set_bind with_stdio with_procs].
      * by rewrite length_insert.
      * intros r (i & Hi)%list_elem_of_lookup. apply list_lookup_insert_Some in Hi as [(_ & <- & _)|[_ Hi]]; cbn.
        -- apply (H2 q). by apply list_elem_of_lookup_2 in Hq.
        -- apply H2. by apply list_elem_of_lookup_2 in Hi.
    + intros b Hbn. unfold refs. cbn [procs set_bind with_stdio with_procs g_grants g_exec_stdio].
      rewrite (zsum_insert _ _ c q) by done. cbn [ch_handles]. lia.
  - cbn [Z.ltb Z.compare]. unfold unbind.
    assert (Hb : bind_of fd (channel_unref a w') = bind_of fd w).
    { unfold bind_of. rewrite (proj2 (proj2 (unref_tables a w'))). by rewrite Hst. }
    rewrite Hb. fold x. unfold set_bind. rewrite unref_stdio. fold (set_bind fd x w'). rewrite Hx.
    by apply channel_unref_inv.
Qed.

Lemma stage_inv p hin fd w : winv [] w → (fd + length hin = 3)%nat →
  (∀ i, (fd ≤ i)%nat → b_ch (bind_of i w) = 0) → winv [] (fst (stage_loop p fd hin w)).
Proof.
  revert fd w. induction hin as [|hd hin IH]; intros fd w Hw Hl Hz; [done|]. cbn [stage_loop length] in *.
  assert (Hset : ∀ a r, bind_of fd (set_bind fd (Bind a CH_END_SLAVE r) w) = Bind a CH_END_SLAVE r).
  { intros a r. unfold bind_of. cbn. rewrite list_lookup_insert_eq; [done|].
    rewrite (tb_stdio _ (wi_tables _ _ Hw)). lia. }
  assert (Hoth : ∀ i x (w : world), i ≠ fd → bind_of i (set_bind fd x w) = bind_of i w).
  { intros i x w' Hi. unfold bind_of. cbn. by rewrite list_lookup_insert_ne. }
  assert (Hw0 : winv [] (set_bind fd (Bind 0 CH_END_SLAVE 0) w)).
  { apply (set_bind_inv []); [done|lia|]. intros b Hb. unfold bref. cbn [b_ch]. by rewrite Hz. }
  set (w0 := set_bind fd (Bind 0 CH_END_SLAVE 0) w) in *.
  destruct (hd =? 0).
  { apply IH; [done|lia|]. intros i Hi. subst w0. rewrite Hoth by lia. apply Hz. lia. }
  destruct (process_get_handle _ _ _ _) as [[a e]|] eqn:E.
  2:{ cbn [fst]. apply foldl_inv; [|done]. intros w' i Hi%elem_of_seq Hw'. apply clear_bind_inv; [done|lia]. }
  destruct (get_handle_live _ _ _ _ _ _ _ Hw0 E) as [Hn Hlive].
  pose proof (channel_ref_inv _ _ _ Hw0 Hlive ltac:(cbn; lia)) as Hw1.
  assert (Hst : ∀ i, bind_of i (channel_ref a w0) = bind_of i w0).
  { intros i. unfold bind_of. by rewrite (proj2 (proj2 (ref_tables a w0))). }
  apply IH; [|lia|].
  - apply (set_bind_inv [a]); [done|lia|]. intros b Hb. rewrite Hst. subst w0. rewrite Hset, occ_cons.
    unfold bref. cbn [b_ch]. destruct (Z.eqb_spec 0 b); [congruence|]. cbn. lia.
  - intros i Hi. rewrite Hoth, Hst by lia. subst w0. rewrite Hoth by lia. apply Hz. lia.
Qed.

(** Between system calls nothing is staged. *)
Definition idle (w : world) : Prop := ∀ i, b_ch (bind_of i w) = 0.

Lemma clear_bind_bind w fd i : length (g_exec_stdio w) = 3%nat → (fd < 3)%nat →
  length (g_exec_stdio (clear_bind w fd)) = 3%nat ∧
  b_ch (bind_of i (clear_bind w fd)) = if decide (i = fd) then 0 else b_ch (bind_of i w).
Proof.
  intros Hl Hfd. unfold clear_bind, unbind, set_bind. destruct (Z.eqb_spec (b_ch (bind_of fd w)) 0) as [Hz|]; cbn [negb].
  { split; [done|]. by case_decide; subst. }
  set (x := Bind 0 _ _). rewrite unref_stdio. set (w1 := with_stdio <[fd := x]> w).
  rewrite (proj2 (proj2 (unref_tables _ w1))). split; [cbn; by rewrite length_insert|].
  unfold bind_of at 1. rewrite (proj2 (proj2 (unref_tables _ w1))). cbn [g_exec_stdio w1 with_stdio].
  case_decide as Hi; [subst; by rewrite list_lookup_insert_eq by lia|]. by rewrite list_lookup_insert_ne.
Qed.

Lemma clear_binds_bind n w : length (g_exec_stdio w) = 3%nat → (n ≤ 3)%nat →
  length (g_exec_stdio (foldl clear_bind w (seq 0 n))) = 3%nat ∧
  ∀ i, b_ch (bind_of i (foldl clear_bind w (seq 0 n))) =
       if decide (i < n)%nat then 0 else b_ch (bind_of i w).
Proof.
  intros Hl. induction n as [|n IH]; intros Hn.
  { split; [done|]. intros i. case_decide; [lia|done]. }
  rewrite seq_S, foldl_snoc. destruct (IH ltac:(lia)) as [Hl' Hi]. cbn [Nat.add].
  split; [by apply (clear_bind_bind _ n 0)|]. intros i.
  rewrite (proj2 (clear_bind_bind _ n i Hl' ltac:(lia))), Hi. repeat case_decide; (lia || done).
Qed.

Lemma clear_spawn_idle w : length (g_exec_stdio w) = 3%nat → idle (clear_spawn_stdio w).
Proof.
  intros Hl i. unfold clear_spawn_stdio. rewrite (proj2 (clear_binds_bind 3 w Hl ltac:(lia))).
  case_decide; [done|]. unfold bind_of. by rewrite lookup_ge_None_2 by lia.
Qed.

Lemma stage_fail p hin fd w w' : length (g_exec_stdio w) = 3%nat → (fd + length hin = 3)%nat →
  (∀ i, (fd ≤ i)%nat → b_ch (bind_of i w) = 0) → stage_loop p fd hin w = (w', EBADF) → idle w'.
Proof.
  revert fd w. induction hin as [|hd hin IH]; intros fd w Hl Hf Hz; [done|]. cbn [stage_loop length] in *.
  assert (Hoth : ∀ i x w, i ≠ fd → bind_of i (set_bind fd x w) = bind_of i w).
  { intros i x v Hi. unfold bind_of. cbn. by rewrite list_lookup_insert_ne. }
  set (w0 := set_bind fd (Bind 0 CH_END_SLAVE 0) w).
  assert (Hl0 : length (g_exec_stdio w0) = 3%nat) by (cbn; by rewrite length_insert).
  assert (Hz0 : ∀ i, (fd ≤ i)%nat → b_ch (bind_of i w0) = 0).
  { intros i Hi. destruct (decide (i = fd)) as [->|]; [|subst w0; rewrite Hoth by done; by apply Hz].
    unfold bind_of. cbn. by rewrite list_lookup_insert_eq by lia. }
  destruct (hd =? 0); [apply IH; [done|lia|intros i Hi; apply Hz0; lia]|].
  destruct (process_get_handle _ _ _ _) as [[a e]|].
  - apply IH; [cbn; by rewrite length_insert, (proj2 (proj2 (ref_tables a w0)))|lia|].
    intros i Hi. rewrite Hoth by lia. unfold bind_of. rewrite (proj2 (proj2 (ref_tables a w0))).
    apply Hz0. lia.
  - intros [= <-] i. rewrite (proj2 (clear_binds_bind fd w0 Hl0 ltac:(lia))).
    case_decide; [done|]. apply Hz0. lia.
Qed.

Lemma stage_rc p hin fd w : snd (stage_loop p fd hin w) = 0 ∨ snd (stage_loop p fd hin w) = EBADF.
Proof.
  revert fd w. induction hin as [|hd hin IH]; intros fd w; cbn [stage_loop]; [by left|].
  destruct (hd =? 0); [apply IH|]. destruct (process_get_handle _ _ _ _) as [[a e]|]; [apply IH|by right].
Qed.

Lemma spawn_inv p ih oh eh spawned ret w : winv [] w → idle w →
  winv [] (fst (sys_spawn_ex p ih oh eh spawned ret w)) ∧
  idle (fst (sys_spawn_ex p ih oh eh spawned ret w)).
Proof.
  intros Hw Hi. unfold sys_spawn_ex, stage_spawn_stdio.
  pose proof (stage_inv p [ih; oh; eh] 0 w Hw eq_refl (λ i _, Hi i)) as Hs.
  pose proof (stage_rc p [ih; oh; eh] 0 w) as Hrc.
  pose proof (stage_fail p [ih; oh; eh] 0 w) as Hf.
  destruct (stage_loop p 0 _ w) as [w' rc]. cbn [fst snd] in *.
  destruct Hrc as [->| ->]; cbn [Z.eqb negb fst].
  - set (w1 := match spawned with Some c => _ | None => w' end).
    assert (Hw1 : winv [] w1) by (subst w1; destruct spawned; [by apply install_inv|done]).
    split; [by apply clear_spawn_inv|]. apply clear_spawn_idle, Hw1.
  - split; [done|]. apply Hf; [apply Hw|done|intros; apply Hi|done].
Qed.

(** ** Reachable states *)

Inductive sys_step : world → world → Prop :=
| st_create p flags capacity kmem page1 page2 w : (kmem ≠ 0 → chans w !! kmem = None) →
    sys_step w (fst (sys_ch_create p flags capacity kmem page1 page2 w))
| st_write p hd len kbuf user w : 0 ≤ len →
    (∀ d, user = Some d → Z.of_nat (length d) = Z.min len CH_MAX_IO) →
    sys_step w (fst (sys_ch_write p hd len kbuf user w))
| st_read p hd len kbuf copy w : 0 ≤ len →
    sys_step w (fst (fst (sys_ch_read p hd len kbuf copy w)))
| st_close p hd w : sys_step w (fst (sys_ch_close p hd w))
| st_sendmsg p hd hdr up kbuf user w : (∀ h, hdr = Some h → 0 ≤ mlen h) →
    (∀ h d, hdr = Some h → user = Some d → Z.of_nat (length d) = mlen h) →
    sys_step w (fst (sys_ch_sendmsg p hd hdr up kbuf user w))
| st_recvmsg p hd c kbuf c1 c2 w :
    sys_step w (fst (fst (sys_ch_recvmsg p hd c kbuf c1 c2 w)))
| st_grant p hd to w : sys_step w (fst (sys_ch_grant p hd to w))
| st_accept p gid w : sys_step w (fst (sys_ch_accept p gid w))
| st_spawn p ih oh eh spawned ret w : sys_step w (fst (sys_spawn_ex p ih oh eh spawned ret w))
| st_spawn_argv p n argv ih oh eh spawned ret w :
    sys_step w (fst (fst (sys_spawn_ex_argv p n argv ih oh eh spawned ret w)))
| st_cleanup p w : sys_step w (channel_cleanup_process p w).

Definition empty_grant : ch_grant := Grant false 0 0 0 0 0 0.

(** At boot no channel exists and [n] processes have empty handle tables. *)
Definition boot_world (pids : list Z) : world :=
  World ∅ ((λ i, Proc i (replicate 32 empty_handle) [0; 0; 0]) <$> pids)
    (replicate 8 empty_grant) (replicate 3 (Bind 0 0 0)) [].

Lemma boot_world_inv pids : (length pids ≤ 256)%nat → winv [] (boot_world pids) ∧ idle (boot_world pids).
Proof.
  intros Hl. split.
  - split; [done| |].
    + intros a Ha. unfold refs. cbn [procs g_grants g_exec_stdio boot_world].
      rewrite (zsum_zero _ (_ <$> pids)), !zsum_zero; [cbn; lia|..].
      * intros b [-> _]%elem_of_replicate. unfold bref. cbn [b_ch]. by destruct (Z.eqb_spec 0 a).
      * intros g [-> _]%elem_of_replicate. done.
      * intros q (i & -> & _)%list_elem_of_fmap. apply zsum_zero. intros h [-> _]%elem_of_replicate.
        unfold href. cbn [h_ch empty_handle]. by destruct (Z.eqb_spec 0 a).
    + split; cbn [procs g_grants g_exec_stdio boot_world]; try done.
      * rewrite length_fmap. unfold MAX_PROCESSES. lia.
      * by intros q (i & -> & _)%list_elem_of_fmap.
      * by intros g [-> _]%elem_of_replicate.
      * by intros g [-> _]%elem_of_replicate.
  - intros i. unfold bind_of. cbn [g_exec_stdio boot_world].
    destruct (replicate 3 (Bind 0 0 0) !! i) as [b|] eqn:E; [|done].
    by apply lookup_replicate in E as [-> _].
Qed.

Lemma idle_same w w' : g_exec_stdio w' = g_exec_stdio w → idle w → idle w'.
Proof. intros He Hi i. unfold bind_of. rewrite He. apply Hi. Qed.

Lemma set_handle_stdio p h x w : g_exec_stdio (set_handle p h x w) = g_exec_stdio w.
Proof. unfold set_handle, upd_proc. by destruct (procs w !! p). Qed.

Lemma unref_stdio_same a w : g_exec_stdio (channel_unref a w) = g_exec_stdio w.
Proof. apply unref_tables. Qed.

Lemma cleanup_stdio p w : g_exec_stdio (channel_cleanup_process p w) = g_exec_stdio w.
Proof.
  unfold channel_cleanup_process. set (w1 := foldl (cleanup_handle p) w (seq 1 31)).
  assert (g_exec_stdio w1 = g_exec_stdio w) as <-.
  { apply (foldl_inv (λ v, g_exec_stdio v = g_exec_stdio w)); [|done]. intros v h _ <-. unfold cleanup_handle.
    destruct (handles_of p v !! h) as [x|]; [|done]. destruct (_ =? 0); [done|].
    by rewrite unref_stdio_same, set_handle_stdio. }
  apply (foldl_inv (λ v, g_exec_stdio v = g_exec_stdio w1)); [|done]. intros v i _ <-. unfold cleanup_grant.
  destruct (g_grants v !! i); [|done]. destruct (_ && _); [|done]. cbn. apply unref_stdio_same.
Qed.

(** Only spawning touches the staged bindings. *)
Lemma create_stdio p f c k p1 p2 w : g_exec_stdio (fst (sys_ch_create p f c k p1 p2 w)) = g_exec_stdio w.
Proof.
  unfold sys_ch_create. cbv zeta. destruct (_ <? _); [done|]. destruct (_ =? 0); [done|].
  destruct (channel_alloc _ _ _ _) as [[ch|] ?]; [|done].
  pose proof (alloc_stdio p k CH_END_MASTER CH_R_ALL (with_chans <[k := ch]> w)) as Ha.
  destruct (process_alloc_handle _ _ _ _ _) as [w' h]. cbn [fst] in *.
  destruct (h <? 0); cbn [fst]; [by rewrite unref_stdio_same|done].
Qed.

Lemma close_stdio p hd w : g_exec_stdio (fst (sys_ch_close p hd w)) = g_exec_stdio w.
Proof.
  unfold sys_ch_close, process_close_handle. destruct (_ || _); [done|].
  destruct (handles_of p w !! _) as [x|]; [|done]. destruct (h_ch x =? 0); [done|]. cbn.
  by rewrite unref_stdio_same, set_handle_stdio.
Qed.

Lemma accept_stdio p gid w : g_exec_stdio (fst (sys_ch_accept p gid w)) = g_exec_stdio w.
Proof.
  unfold sys_ch_accept. cbv zeta. destruct (_ || _); [done|].
  destruct (g_grants w !! _) as [g|]; [|done]. repeat (destruct (negb _); [done|]).
  pose proof (alloc_stdio p (g_ch g) (g_end g) (g_rights g) w) as Ha.
  destruct (process_alloc_handle _ _ _ _ _) as [w' h]. cbn [fst] in *. by destruct (h <? 0).
Qed.

Lemma grant_stdio p hd to w : g_exec_stdio (fst (sys_ch_grant p hd to w)) = g_exec_stdio w.
Proof.
  unfold sys_ch_grant. destruct (process_get_handle p _ 0 w) as [[a ?]|]; [|done].
  destruct (process_get_handle p _ CH_R_READ w); [|done]. destruct (_ =? 0); [done|].
  destruct (free_grant _ _) as [[i g]|]; [|done]. cbn. apply ref_tables.
Qed.

Lemma data_stdio : ∀ p hd w,
  (∀ len kbuf user, g_exec_stdio (fst (sys_ch_write p hd len kbuf user w)) = g_exec_stdio w) ∧
  (∀ len kbuf copy, g_exec_stdio (fst (fst (sys_ch_read p hd len kbuf copy w))) = g_exec_stdio w) ∧
  (∀ hdr up kbuf user, g_exec_stdio (fst (sys_ch_sendmsg p hd hdr up kbuf user w)) = g_exec_stdio w) ∧
  (∀ c kbuf c1 c2, g_exec_stdio (fst (fst (sys_ch_recvmsg p hd c kbuf c1 c2 w))) = g_exec_stdio w).
Proof.
  intros p hd w. unfold sys_ch_write, sys_ch_read, sys_ch_sendmsg, sys_ch_recvmsg. cbv zeta.
  split_and!; intros; repeat case_match; simplify_eq; done.
Qed.

Lemma sys_step_inv w w' : sys_step w w' → winv [] w ∧ idle w → winv [] w' ∧ idle w'.
Proof.
  intros Hs [Hw Hi]. destruct Hs.
  - split; [by apply create_inv|]. eapply idle_same; [apply create_stdio|done].
  - split; [by apply write_inv|]. eapply idle_same; [apply data_stdio|done].
  - split; [by apply read_inv|]. eapply idle_same; [apply data_stdio|done].
  - split; [|eapply idle_same; [apply close_stdio|done]]. unfold sys_ch_close.
    pose proof (close_handle_inv [] p (i32 hd) w Hw) as H. destruct (process_close_handle _ _ _). by destruct (negb _).
  - split; [by apply sendmsg_inv|]. eapply idle_same; [apply data_stdio|done].
  - split; [by apply recvmsg_inv|]. eapply idle_same; [apply data_stdio|done].
  - split; [by apply grant_inv|]. eapply idle_same; [apply grant_stdio|done].
  - split; [by apply accept_inv|]. eapply idle_same; [apply accept_stdio|done].
  - by apply spawn_inv.
  - unfold sys_spawn_ex_argv. cbv zeta. destruct (_ <? _); [done|].
    destruct (if _ <? _ then _ else _); [|done].
    pose proof (spawn_inv p ih oh eh spawned ret w Hw Hi) as H. by destruct (sys_spawn_ex _ _ _ _ _ _ _).
  - split; [by apply cleanup_inv|]. eapply idle_same; [apply cleanup_stdio|done].
Qed.

Lemma reachable_inv pids w : (length pids ≤ 256)%nat → rtc sys_step (boot_world pids) w → winv [] w ∧ idle w.
Proof.
  intros Hl Hs. pose proof (boot_world_inv pids Hl) as Hb. revert Hb.
  induction Hs as [|w1 w2 w3 H _ IH]; [done|]. intros Hb. by apply IH, (sys_step_inv w1).
Qed.

(** ** Byte streams as bounded queues *)

(** An operation of one end: write these bytes, or read up to so many. *)
Inductive cop := CWrite (end_ : Z) (d : list Z) | CRead (end_ n : Z).

Definition cop_ok (o : cop) : Prop :=
  match o with CWrite _ _ => True | CRead _ n => 0 ≤ n end.

(** The result of a write is its count, of a read its bytes. *)
Fixpoint run_chan (ops : list cop) (ch : channel_t) : list (Z + list Z) :=
  match ops with
  | [] => []
  | CWrite e d :: ops =>
      let '(ch, n) := channel_write ch e d (Z.of_nat (length d)) in inl n :: run_chan ops ch
  | CRead e n :: ops => let '(ch, d) := channel_read ch e n in inr d :: run_chan ops ch
  end.

(** The specification: two bounded queues, [qm] towards the master end and [qs]
    towards the slave end. *)
Fixpoint run_queues (cm cs : Z) (ops : list cop) (qm qs : list Z) : list (Z + list Z) :=
  match ops with
  | [] => []
  | CWrite e d :: ops =>
      if e =? CH_END_SLAVE then
        let n := Z.min (Z.of_nat (length d)) (cm - Z.of_nat (length qm)) in
        inl n :: run_queues cm cs ops (qm ++ take (Z.to_nat n) d) qs
      else
        let n := Z.min (Z.of_nat (length d)) (cs - Z.of_nat (length qs)) in
        inl n :: run_queues cm cs ops qm (qs ++ take (Z.to_nat n) d)
  | CRead e n :: ops =>
      if e =? CH_END_MASTER
      then inr (take (Z.to_nat n) qm) :: run_queues cm cs ops (drop (Z.to_nat n) qm) qs
      else inr (take (Z.to_nat n) qs) :: run_queues cm cs ops qm (drop (Z.to_nat n) qs)
  end.

Lemma run_chan_queues ops ch : Forall cop_ok ops → chan_ok ch →
  run_chan ops ch = run_queues (cap (to_master ch)) (cap (to_slave ch)) ops
                      (contents (to_master ch)) (contents (to_slave ch)).
Proof.
  intros Ho. revert ch. induction Ho as [|o ops Hop _ IH]; intros ch [Hm Hs]; [done|].
  destruct o as [e d|e n]; cbn [run_chan run_queues].
  - unfold channel_write, write_ring, set_write_ring. destruct (e =? CH_END_SLAVE).
    + pose proof (ring_write_spec (to_master ch) d (Z.of_nat (length d)) Hm ltac:(lia)) as H.
      destruct (ring_write _ _ _) as [r n]. destruct H as (Hr & -> & Hc & Hcap).
      rewrite IH by done. cbn [to_master to_slave]. by rewrite Hc, Hcap.
    + pose proof (ring_write_spec (to_slave ch) d (Z.of_nat (length d)) Hs ltac:(lia)) as H.
      destruct (ring_write _ _ _) as [r n]. destruct H as (Hr & -> & Hc & Hcap).
      rewrite IH by done. cbn [to_master to_slave]. by rewrite Hc, Hcap.
  - unfold channel_read, read_ring, set_read_ring. destruct (e =? CH_END_MASTER).
    + pose proof (ring_read_spec (to_master ch) n Hm Hop) as H.
      destruct (ring_read _ _) as [r d]. destruct H as (Hr & -> & Hc & Hcap).
      rewrite IH by done. cbn [to_master to_slave]. by rewrite Hc, Hcap.
    + pose proof (ring_read_spec (to_slave ch) n Hs Hop) as H.
      destruct (ring_read _ _) as [r d]. destruct H as (Hr & -> & Hc & Hcap).
      rewrite IH by done. cbn [to_master to_slave]. by rewrite Hc, Hcap.
Qed.

(** ** Messages from the slave end to the master end *)

Inductive mop := MSend (m : msg_packet_t * list Z) | MRecv (payload_cap : Z).

Definition mop_ok (o : mop) : Prop :=
  match o with MSend m => msg_ok m | MRecv c => 0 ≤ c end.

(** A send yields its return value; a receive its return value and, when it
    delivered one, the message. *)
Fixpoint run_msgs (ops : list mop) (ch : channel_t) : list (Z * option (msg_packet_t * list Z)) :=
  match ops with
  | [] => []
  | MSend m :: ops =>
      let '(ch, n) := channel_write_msg ch CH_END_SLAVE (fst m) (Some (snd m)) in
      (n, None) :: run_msgs ops ch
  | MRecv c :: ops =>
      match channel_read_msg ch CH_END_MASTER false c with
      | (ch, n, hdr, payload) =>
          (n, if n <? 0 then None else (λ h, (h, payload)) <$> hdr) :: run_msgs ops ch
      end
  end.

(** The specification: a queue of messages that occupy 16 bytes and their
    payload each, with room for [cp] bytes. *)
Fixpoint run_mqueue (cp : Z) (ops : list mop) (q : list (msg_packet_t * list Z))
  : list (Z * option (msg_packet_t * list Z)) :=
  match ops with
  | [] => []
  | MSend m :: ops =>
      let total := HSZ + mlen (fst m) in
      if cp <? total then (EMSGSIZE, None) :: run_mqueue cp ops q
      else if cp - Z.of_nat (length (concat (frame <$> q))) <? total
      then (EAGAIN, None) :: run_mqueue cp ops q
      else (total, None) :: run_mqueue cp ops (q ++ [m])
  | MRecv c :: ops =>
      match q with
      | [] => (EAGAIN, None) :: run_mqueue cp ops q
      | m :: q' =>
          if c <? mlen (fst m) then (EMSGSIZE, None) :: run_mqueue cp ops q
          else (mlen (fst m), Some m) :: run_mqueue cp ops q'
      end
  end.

Lemma run_msgs_queue ops ch q : Forall mop_ok ops → Z.land (cflags ch) CH_MSG ≠ 0 →
  holds (to_master ch) q → run_msgs ops ch = run_mqueue (cap (to_master ch)) ops q.
Proof.
  intros Ho. revert ch q. induction Ho as [|o ops Hop _ IH]; intros ch q Hf Hq; [done|].
  destruct o as [m|c]; cbn [run_msgs run_mqueue].
  - pose proof (write_msg_holds ch CH_END_SLAVE m q Hq Hop Hf) as H. cbv zeta in H.
    change (write_ring CH_END_SLAVE ch) with (to_master ch) in H.
    destruct (channel_write_msg _ _ _ _) as [ch' n]. destruct Hq as (Hr & Hq & Hc). rewrite <- Hc.
    destruct (cap (to_master ch) <? _); [destruct H as [-> ->]; f_equal; by apply IH|].
    destruct (_ - _ <? _); [destruct H as [-> ->]; f_equal; by apply IH|].
    destruct H as (-> & Hh & Hcap & Hch).
    change (write_ring CH_END_SLAVE ch') with (to_master ch') in *.
    rewrite <- Hcap, <- (IH ch'); [done| |done]. by rewrite Hch.
  - pose proof (read_msg_holds ch CH_END_MASTER q c Hq Hop Hf) as H.
    destruct (channel_read_msg _ _ _ _) as [[[ch' n] hdr] payload]. destruct q as [|m q'].
    { destruct H as [-> ->]. cbn [Z.ltb EAGAIN]. f_equal. by apply IH. }
    destruct (c <? mlen (fst m)).
    { destruct H as (-> & -> & _). cbn [Z.ltb EMSGSIZE]. f_equal. by apply IH. }
    destruct H as (-> & -> & -> & Hh & Hcap & Hch).
    change (read_ring CH_END_MASTER ch') with (to_master ch') in *.
    change (read_ring CH_END_MASTER ch) with (to_master ch) in *.
    destruct Hq as (_ & [[(_ & _ & Hl & _) _] _]%Forall_cons & _).
    destruct (Z.ltb_spec (mlen (fst m)) 0); [lia|]. cbn. rewrite <- surjective_pairing. f_equal.
    rewrite <- Hcap, <- (IH ch'); [done| |done]. by rewrite Hch.
Qed.

(** ** Grant identifiers *)

Lemma grant_id_slot g i : 0 ≤ g → 0 ≤ i < 8 →
  Z.land (Z.lor (u32 (Z.shiftl g 16)) (i + 1)) 0xFFFF = i + 1.
Proof.
  intros Hg Hi. rewrite Z.land_lor_distr_l. change 0xFFFF with (Z.ones 16). rewrite !Z.land_ones by lia.
  unfold u32. rewrite Z.shiftl_mul_pow2 by lia. change (2 ^ 32) with (2 ^ 16 * 2 ^ 16).
  rewrite Z.mul_mod_distr_r by lia. rewrite Z.mod_mul by lia. cbn [Z.lor]. apply Z.mod_small. lia.
Qed.

Lemma grant_id_gen g i : 0 ≤ g < 2 ^ 16 → 0 ≤ i < 8 →
  Z.land (Z.shiftr (Z.lor (u32 (Z.shiftl g 16)) (i + 1)) 16) 0xFFFF = g.
Proof.
  intros Hg Hi. rewrite u32_small by (rewrite Z.shiftl_mul_pow2; lia).
  rewrite Z.shiftr_lor, Z.shiftr_shiftl_l by lia. rewrite Z.sub_diag, Z.shiftl_0_r.
  assert (Z.shiftr (i + 1) 16 = 0) as ->.
  { rewrite Z.shiftr_div_pow2 by lia. apply Z.div_small. lia. }
  rewrite Z.lor_0_r. change 0xFFFF with (Z.ones 16). rewrite Z.land_ones by lia. apply Z.mod_small. lia.
Qed.

(** ** Rights *)

(** Slot [hd] of process [p] refers to end [e] of channel [a] and carries the
    right of bit [bit]: 0 to read, 1 to write, 3 to transfer. *)
Definition holds_right (p : nat) (hd bit a e : Z) (w : world) : Prop :=
  0 < hd < 32 ∧ a ≠ 0 ∧
  ∃ rights, handles_of p w !! Z.to_nat hd = Some (Handle a e rights) ∧ Z.testbit rights bit = true.

(** At most the ring of channel [a] that [set] writes differs. *)
Definition confined (set : Z → ch_ring_t → channel_t → channel_t) (a e : Z) (w w' : world) : Prop :=
  w' = w ∨ ∃ ch r, chans w !! a = Some ch ∧ w' = with_chans <[a := set e r ch]> w.

Lemma land_pow2 x k : 0 ≤ k → Z.land x (2 ^ k) = 2 ^ k ↔ Z.testbit x k = true.
Proof.
  intros Hk. split.
  - intros H. pose proof (f_equal (λ z, Z.testbit z k) H) as Hb. cbn beta in Hb.
    rewrite Z.land_spec, Z.pow2_bits_true, andb_true_r in Hb by done. done.
  - intros H. apply Z.bits_inj'. intros i Hi. rewrite Z.land_spec, Z.pow2_bits_eqb by done.
    destruct (Z.eqb_spec k i) as [<-|]; [by rewrite H|apply andb_false_r].
Qed.

Lemma get_handle_right p hd bit w a e : 0 ≤ bit →
  process_get_handle p hd (2 ^ bit) w = Some (a, e) ↔ holds_right p hd bit a e w.
Proof.
  intros Hb. unfold process_get_handle, holds_right. change CH_MAX_HANDLES with 32.
  destruct (Z.eqb_spec (2 ^ bit) 0); [lia|]. cbn [negb andb].
  destruct (Z.leb_spec hd 0); [split; [done|intros [? _]; lia]|].
  destruct (Z.leb_spec 32 hd); [split; [done|intros [? _]; lia]|]. cbn [orb].
  destruct (handles_of p w !! Z.to_nat hd) as [[c f r]|]; [|split; [done|by intros (_ & _ & ? & [=] & _)]].
  cbn [h_ch h_end h_rights]. destruct (Z.eqb_spec c 0) as [->|Hc].
  { split; [done|]. intros (_ & Ha & ? & [= <- _ _] & _). done. }
  pose proof (land_pow2 r bit Hb) as Hl. destruct (Z.eqb_spec (Z.land r (2 ^ bit)) (2 ^ bit)); cbn [negb].
  - split; [intros [= <- <-]; split_and!; [lia|lia|done|]; exists r; by rewrite <- Hl|].
    by intros (_ & _ & ? & [= <- <- _] & _).
  - split; [done|]. intros (_ & _ & ? & [= _ _ <-] & Ht). by rewrite <- Hl in Ht.
Qed.

Lemma no_right p hd bit w : 0 ≤ bit → (∀ a e, ¬ holds_right p hd bit a e w) ↔ process_get_handle p hd (2 ^ bit) w = None.
Proof.
  intros Hb. setoid_rewrite <- get_handle_right; [|done]. destruct (process_get_handle _ _ _ _) as [[a e]|].
  - split; [|done]. intros H. by destruct (H a e).
  - done.
Qed.

Lemma write_confined p hd w a e len kbuf user : process_get_handle p (i32 hd) CH_R_WRITE w = Some (a, e) →
  confined set_write_ring a e w (fst (sys_ch_write p hd len kbuf user w)).
Proof.
  intros H. unfold sys_ch_write. rewrite H. destruct (len =? 0); [by left|]. destruct kbuf, user as [d|]; try by left.
  cbn [negb]. destruct (chans w !! a) as [ch|] eqn:Hc; [|by left]. unfold channel_write.
  destruct (ring_write _ _ _) as [r n]. right. by exists ch, r.
Qed.

Lemma read_confined p hd w a e len kbuf copy : process_get_handle p (i32 hd) CH_R_READ w = Some (a, e) →
  confined set_read_ring a e w (fst (fst (sys_ch_read p hd len kbuf copy w))).
Proof.
  intros H. unfold sys_ch_read. rewrite H. destruct (len =? 0); [by left|]. destruct kbuf; [|by left].
  cbn [negb]. destruct (chans w !! a) as [ch|] eqn:Hc; [|by left]. unfold channel_read.
  destruct (ring_read _ _) as [r d]. right. exists ch, r. split; [done|]. by destruct (_ && _).
Qed.

Lemma write_msg_ring ch e h pl : ∃ r, fst (channel_write_msg ch e h pl) = set_write_ring e r ch.
Proof.
  assert (Hid : ch = set_write_ring e (write_ring e ch) ch).
  { unfold set_write_ring, write_ring. by destruct ch, (e =? CH_END_SLAVE). }
  unfold channel_write_msg. cbv zeta. repeat (destruct (_ : bool); [by eexists|]). by eexists.
Qed.

Lemma read_msg_ring ch e pn c : ∃ r, fst (fst (fst (channel_read_msg ch e pn c))) = set_read_ring e r ch.
Proof.
  assert (Hid : ch = set_read_ring e (read_ring e ch) ch).
  { unfold set_read_ring, read_ring. by destruct ch, (e =? CH_END_MASTER). }
  unfold channel_read_msg. cbv zeta. repeat (destruct (_ : bool); [by eexists|]). by eexists.
Qed.

Lemma sendmsg_confined p hd w a e hdr up kbuf user : process_get_handle p (i32 hd) CH_R_WRITE w = Some (a, e) →
  confined set_write_ring a e w (fst (sys_ch_sendmsg p hd hdr up kbuf user w)).
Proof.
  intros H. unfold sys_ch_sendmsg. rewrite H. destruct hdr as [h|]; [|by left].
  destruct (CH_MAX_IO <? mlen h); [by left|]. destruct (_ && _); [by left|]. destruct (_ && _); [by left|].
  destruct (if mlen h =? 0 then _ else _) as [pl|]; [|by left].
  destruct (chans w !! a) as [ch|] eqn:Hc; [|by left]. destruct (write_msg_ring ch e h pl) as [r Hr].
  destruct (channel_write_msg ch e h pl) as [ch' n]. cbn [fst] in Hr. subst ch'. right. by exists ch, r.
Qed.

Lemma recvmsg_confined p hd w a e c kbuf c1 c2 : process_get_handle p (i32 hd) CH_R_READ w = Some (a, e) →
  confined set_read_ring a e w (fst (fst (sys_ch_recvmsg p hd c kbuf c1 c2 w))).
Proof.
  intros H. unfold sys_ch_recvmsg. rewrite H. cbv zeta. generalize (if CH_MAX_IO <? u32 c then CH_MAX_IO else u32 c). intros k.
  destruct (_ && _); [by left|]. destruct (chans w !! a) as [ch|] eqn:Hc; [|by left].
  destruct (read_msg_ring ch e (k =? 0) k) as [r Hr].
  destruct (channel_read_msg ch e (k =? 0) k) as [[[ch' n] hdr] pl]. cbn [fst] in Hr. subst ch'.
  right. exists ch, r. split; [done|]. destruct (n <? 0), c1, ((0 <? n) && negb c2); done.
Qed.

(** A handle that resolves with some right resolves without. *)
Lemma grant_confined p hd w a e to : process_get_handle p (i32 hd) CH_R_READ w = Some (a, e) →
  fst (sys_ch_grant p hd to w) = w ∨
  ∃ i g, fst (sys_ch_grant p hd to w)
    = with_grants <[i := Grant true (pid_of p w) (u32 to) a CH_END_MASTER CH_R_READ (gen g)]> (channel_ref a w).
Proof.
  intros H. unfold sys_ch_grant. rewrite H.
  assert (process_get_handle p (i32 hd) 0 w = Some (a, e)) as ->.
  { revert H. unfold process_get_handle. destruct (_ || _); [done|]. destruct (_ !! _) as [x|]; [|done].
    destruct (h_ch x =? 0); [done|]. by destruct (_ && _). }
  destruct (_ =? 0); [by left|]. destruct (free_grant 0 _) as [[i g]|]; [|by left]. right. exists i, g. cbn [fst].
  assert (pid_of p (channel_ref a w) = pid_of p w) as -> by (unfold pid_of; by rewrite (proj1 (ref_tables a w))). done.
Qed.

Lemma get_handle_procs p hd need w w' : procs w' = procs w → process_get_handle p hd need w' = process_get_handle p hd need w.
Proof. intros H. unfold process_get_handle, handles_of. by rewrite H. Qed.

Lemma clear_bind_tables l w : procs (foldl clear_bind w l) = procs w ∧ g_grants (foldl clear_bind w l) = g_grants w.
Proof.
  revert w. induction l as [|fd l IH]; intros w; [done|]. cbn [foldl]. destruct (IH (clear_bind w fd)) as [-> ->].
  unfold clear_bind. destruct (negb _); [|done]. destruct (unref_tables (b_ch (bind_of fd w)) w) as (Hp & Hg & _). done.
Qed.

(** Staging refuses a handle that may not be transferred. *)
Lemma stage_denied p hin fd w : (∃ hd, hd ∈ hin ∧ hd ≠ 0 ∧ process_get_handle p (i32 hd) CH_R_TRANSFER w = None) →
  let w' := fst (stage_loop p fd hin w) in
  snd (stage_loop p fd hin w) = EBADF ∧ procs w' = procs w ∧ g_grants w' = g_grants w.
Proof.
  revert fd w. induction hin as [|h hin IH]; intros fd w (hd & Hin & Hd & Hn); [by apply not_elem_of_nil in Hin|].
  cbn [stage_loop]. set (w0 := set_bind fd (Bind 0 CH_END_SLAVE 0) w).
  assert (Hrest : ∀ w1, procs w1 = procs w → g_grants w1 = g_grants w → hd ∈ hin →
    snd (stage_loop p (S fd) hin w1) = EBADF ∧ procs (fst (stage_loop p (S fd) hin w1)) = procs w ∧
    g_grants (fst (stage_loop p (S fd) hin w1)) = g_grants w).
  { intros w1 H1 H2 Hh. rewrite <- H1, <- H2. apply IH. exists hd. by rewrite (get_handle_procs _ _ _ w w1). }
  destruct (Z.eqb_spec h 0) as [->|].
  { apply Hrest; [done|done|]. by apply elem_of_cons in Hin as [?|?]. }
  destruct (process_get_handle p (i32 h) CH_R_TRANSFER w0) as [[a e]|] eqn:E.
  - destruct (ref_tables a w0) as (H1 & H2 & _). apply Hrest; [done|done|].
    apply elem_of_cons in Hin as [->|?]; [|done]. rewrite (get_handle_procs _ _ _ w w0) in E by done. congruence.
  - destruct (clear_bind_tables (seq 0 fd) w0) as [H1 H2]. done.
Qed.

(** ** Properties *)

(** C8: no dangling channel and no leak.  In every state reachable from boot
    by any sequence of channel system calls, spawns and process teardowns, each
    live channel's reference count is positive and equals the number of
    handles and pending grants that point to it, every handle and grant points
    to a live channel, and both rings are well formed. *)
Theorem channel_references_exact pids w :
  (length pids ≤ 256)%nat → rtc sys_step (boot_world pids) w →
  (∀ a c, chans w !! a = Some c → 0 < refcount c ∧ refcount c = refs w a ∧ chan_ok c) ∧
  (∀ a, a ≠ 0 → 0 < refs w a → is_Some (chans w !! a)).
Proof.
  intros Hl Hs. destruct (reachable_inv pids w Hl Hs) as [[H1 H2 _] _]. split.
  - intros a c Hc. destruct (H1 a c Hc) as (_ & Hr & Hp & Hm & Hsl). cbn in Hr. split_and!; [done|lia|done].
  - intros a Ha Hp. apply H2; [done|]. cbn. lia.
Qed.

(** C9: a channel is two bounded FIFO byte queues.  Any interleaving of writes
    and reads at either end gives, operation by operation, the counts and bytes
    of the two queues, across wrap-around of the 32-bit ring counters. *)
Theorem channel_refines_queues ops ch :
  Forall cop_ok ops → chan_ok ch →
  run_chan ops ch = run_queues (cap (to_master ch)) (cap (to_slave ch)) ops
                      (contents (to_master ch)) (contents (to_slave ch)).
Proof. apply run_chan_queues. Qed.

(** message framing is atomic and lossless.  On a CH_MSG channel any
    sequence of sends from the slave end and receives at the master end returns
    exactly what a queue of whole messages does: headers and payloads arrive
    intact and in order, a frame that does not fit leaves the ring unchanged,
    and a receive with too small a buffer leaves the message queued. *)
Theorem channel_messages_refine ops ch q :
  Forall mop_ok ops → Z.land (cflags ch) CH_MSG ≠ 0 → holds (to_master ch) q →
  run_msgs ops ch = run_mqueue (cap (to_master ch)) ops q.
Proof. apply run_msgs_queue. Qed.

(** C10: rights confine every operation on a channel.  A process whose slot for
    the handle is not in range, empty or without the right an operation needs is
    refused: without READ, reading and receiving give EBADF and granting fails;
    without WRITE, writing and sending give EBADF; nothing changes in either case.
    Without TRANSFER, passing the handle to a child gives EBADF and no process
    gets a handle.  With the right, reading and receiving change at most the ring
    the slot's end reads, of the slot's channel, writing and sending at most the
    ring it writes, and a grant hands out only a read right on the slot's
    channel. *)
Theorem channel_rights_enforced p hd w :
  ((∀ a e, ¬ holds_right p (i32 hd) 0 a e w) →
     (∀ len kbuf copy, 0 < len → sys_ch_read p hd len kbuf copy w = (w, EBADF, [])) ∧
     (∀ c kbuf c1 c2, sys_ch_recvmsg p hd c kbuf c1 c2 w = (w, EBADF, None)) ∧
     (∀ to, fst (sys_ch_grant p hd to w) = w ∧ snd (sys_ch_grant p hd to w) < 0)) ∧
  ((∀ a e, ¬ holds_right p (i32 hd) 1 a e w) →
     (∀ len kbuf user, 0 < len → sys_ch_write p hd len kbuf user w = (w, EBADF)) ∧
     (∀ hdr up kbuf user, sys_ch_sendmsg p hd hdr up kbuf user w = (w, EBADF))) ∧
  (hd ≠ 0 → (∀ a e, ¬ holds_right p (i32 hd) 3 a e w) →
     ∀ in_h out_h err_h spawned ret, hd ∈ [in_h; out_h; err_h] →
       let '(w', r) := sys_spawn_ex p in_h out_h err_h spawned ret w in
       r = EBADF ∧ procs w' = procs w ∧ g_grants w' = g_grants w) ∧
  (∀ a e, holds_right p (i32 hd) 0 a e w →
     (∀ len kbuf copy, confined set_read_ring a e w (fst (fst (sys_ch_read p hd len kbuf copy w)))) ∧
     (∀ c kbuf c1 c2, confined set_read_ring a e w (fst (fst (sys_ch_recvmsg p hd c kbuf c1 c2 w)))) ∧
     (∀ to, fst (sys_ch_grant p hd to w) = w ∨ ∃ i g, fst (sys_ch_grant p hd to w)
        = with_grants <[i := Grant true (pid_of p w) (u32 to) a CH_END_MASTER CH_R_READ (gen g)]> (channel_ref a w))) ∧
  (∀ a e, holds_right p (i32 hd) 1 a e w →
     (∀ len kbuf user, confined set_write_ring a e w (fst (sys_ch_write p hd len kbuf user w))) ∧
     (∀ hdr up kbuf user, confined set_write_ring a e w (fst (sys_ch_sendmsg p hd hdr up kbuf user w)))).
Proof.
  split_and!.
  - intros Hn%no_right; [|done]. change (2 ^ 0) with CH_R_READ in Hn. split_and!.
    + intros len kbuf copy Hl. unfold sys_ch_read. destruct (Z.eqb_spec len 0); [lia|]. by rewrite Hn.
    + intros. unfold sys_ch_recvmsg. by rewrite Hn.
    + intros to. unfold sys_ch_grant. rewrite Hn.
      destruct (process_get_handle p (i32 hd) 0 w) as [[? ?]|]; split; cbn; try reflexivity; unfold EPERM, EBADF; lia.
  - intros Hn%no_right; [|done]. change (2 ^ 1) with CH_R_WRITE in Hn. split.
    + intros len kbuf user Hl. unfold sys_ch_write. destruct (Z.eqb_spec len 0); [lia|]. by rewrite Hn.
    + intros. unfold sys_ch_sendmsg. by rewrite Hn.
  - intros H0 Hn%no_right in_h out_h err_h spawned ret Hin; [|done]. unfold sys_spawn_ex, stage_spawn_stdio.
    pose proof (stage_denied p [in_h; out_h; err_h] 0 w ltac:(by exists hd)) as Hs. cbv zeta in Hs.
    destruct (stage_loop _ _ _ _) as [w' rc]. cbn [fst snd] in Hs. destruct Hs as (-> & Hp & Hg). done.
  - intros a e Hh%get_handle_right; [|done]. split_and!; intros.
    + by apply read_confined.
    + by apply recvmsg_confined.
    + by apply (grant_confined p hd w a e).
  - intros a e Hh%get_handle_right; [|done]. split; intros; [by apply write_confined|by apply sendmsg_confined].
Qed.

(** a grant is a one-shot, read-only capability for one process.  A
    successful accept was made by the process the grant names, gives it a
    read-only handle on the granted channel's master end, and the same id is
    refused to everybody afterwards. *)
Theorem grant_one_shot pids w p gid w' h :
  (length pids ≤ 256)%nat → rtc sys_step (boot_world pids) w →
  sys_ch_accept p gid w = (w', h) → 0 < h →
  ∃ i g, g_grants w !! i = Some g ∧ g_used g = true ∧ to_pid g = pid_of p w ∧
    handles_of p w' !! Z.to_nat h = Some (Handle (g_ch g) CH_END_MASTER CH_R_READ) ∧
    ∀ p2, sys_ch_accept p2 gid w' = (w', EBADF).
Proof.
  intros Hl Hs. destruct (reachable_inv pids w Hl Hs) as [Hw _]. clear Hl Hs.
  unfold sys_ch_accept. cbv zeta. destruct (_ || _) eqn:Eraw; [by intros [= <- <-]|].
  set (slot := Z.to_nat _). destruct (g_grants w !! slot) as [g|] eqn:Hg; [|by intros [= <- <-]].
  destruct (g_used g) eqn:Hu; [|by intros [= <- <-]]. cbn [negb].
  destruct (negb (gen g =? _)); [by intros [= <- <-]|].
  destruct (Z.eqb_spec (to_pid g) (pid_of p w)) as [Hpid|]; [|by intros [= <- <-]]. cbn [negb].
  destruct (grant_ok _ _ _ _ Hw Hg Hu) as (Hn & Hr & He).
  pose proof (clear_grant_inv _ _ _ _ Hw Hg Hu Hn) as Hc.
  pose proof (alloc_with_grants p (g_ch g) (g_end g) (g_rights g) <[slot := clear_grant g]> w) as Ha.
  pose proof (alloc_grants p (g_ch g) (g_end g) (g_rights g) w) as Hgr.
  destruct (process_alloc_handle p _ _ _ w) as [w1 h1]. cbn [fst snd] in Ha, Hgr.
  destruct (Z.ltb_spec h1 0); [by intros [= <- <-]|]. intros [= <- <-] Hh.
  apply alloc_handle_inv with (tmp := []) in Ha as [(_ & _ & Hx)|[-> _]]; [..|lia|done|done].
  exists slot, g. split_and!; [done|done|done|by rewrite Hx, Hr, He|]. intros p2.
  cbn [g_grants with_grants]. rewrite Hgr, list_lookup_insert_eq; [done|]. by apply lookup_lt_Some in Hg.
Qed.

(** a granted capability can be taken up.  After a successful grant, the
    process named by the grant, if its handle table has a free slot, accepts
    the returned id and gets a read-only handle on the granter's channel. *)
Theorem grant_accept_round_trip pids w p hd to w1 id p2 :
  (length pids ≤ 256)%nat → rtc sys_step (boot_world pids) w →
  sys_ch_grant p hd to w = (w1, id) → 0 < id →
  pid_of p2 w1 = u32 to → free_slot 1 (drop 1 (handles_of p2 w1)) ≠ None →
  ∃ a e h, process_get_handle p (i32 hd) CH_R_READ w = Some (a, e) ∧ 0 < h ∧
    snd (sys_ch_accept p2 id w1) = h ∧
    handles_of p2 (fst (sys_ch_accept p2 id w1)) !! Z.to_nat h = Some (Handle a CH_END_MASTER CH_R_READ).
Proof.
  intros Hl Hs Hgrant Hid Hpid Hslot. destruct (reachable_inv pids w Hl Hs) as [Hw _].
  pose proof (grant_inv p hd to w Hw) as Hw1. rewrite Hgrant in Hw1. cbn [fst] in Hw1. revert Hgrant.
  unfold sys_ch_grant. destruct (process_get_handle p _ 0 w) as [[a e]|] eqn:E0; [|intros [= <- <-]; done].
  destruct (process_get_handle p _ CH_R_READ w) as [[a' e']|] eqn:E1; [|intros [= <- <-]; done].
  assert (a' = a) as ->.
  { apply get_handle_spec in E0 as (_ & x & Hx & <- & _). apply get_handle_spec in E1 as (_ & y & Hy & <- & _). congruence. }
  destruct (_ =? 0); [intros [= <- <-]; done|].
  destruct (free_grant 0 _) as [[i g]|] eqn:Eg; [|intros [= <- <-]; done].
  apply free_grant_spec in Eg as (_ & Hg & _). rewrite Nat.sub_0_r in Hg. intros [= <- <-].
  pose proof (tb_grants _ (wi_tables _ _ Hw)) as Hlen. pose proof (lookup_lt_Some _ _ _ Hg) as Hi.
  pose proof (tb_gen _ (wi_tables _ _ Hw) g ltac:(by apply list_elem_of_lookup_2 in Hg)) as Hgen.
  set (g1 := Grant _ _ _ _ _ _ _) in *. set (w1 := with_grants _ _) in *.
  exists a, e'. unfold sys_ch_accept. cbv zeta. rewrite grant_id_slot, grant_id_gen by lia.
  unfold CH_NGRANTS. destruct (Z.eqb_spec (Z.of_nat i + 1) 0); [lia|].
  destruct (Z.ltb_spec 8 (Z.of_nat i + 1)); [lia|]. cbn [orb].
  replace (Z.to_nat (Z.of_nat i + 1 - 1)) with i by lia.
  assert (Hg1 : g_grants w1 !! i = Some g1).
  { cbn. rewrite (proj1 (proj2 (ref_tables a w))). by rewrite list_lookup_insert_eq. }
  rewrite Hg1. cbn [g_used g1 negb gen to_pid]. rewrite Z.eqb_refl, Hpid, Z.eqb_refl. cbn [negb].
  destruct (grant_ok _ _ _ _ Hw1 Hg1 eq_refl) as (Hn & _).
  pose proof (clear_grant_inv _ _ _ _ Hw1 Hg1 eq_refl Hn) as Hc.
  pose proof (alloc_with_grants p2 a CH_END_MASTER CH_R_READ <[i := clear_grant g1]> w1) as Ha.
  destruct (process_alloc_handle p2 _ _ _ w1) as [w2 h2] eqn:Eh. cbn [fst snd] in Ha.
  apply alloc_handle_inv with (tmp := []) in Ha as [(Hh & _ & Hx)|[-> _]]; [..|done|done].
  - exists h2. destruct (Z.ltb_spec h2 0); [lia|]. done.
  - exfalso. revert Eh. unfold process_alloc_handle. destruct (Z.eqb_spec a 0); [done|].
    destruct (free_slot _ _); [|done]. intros [= _ ?]. lia.
Qed.

(** ** Witnesses *)

(** A 4 KiB channel of the given kind. *)
Definition fresh_chan (flags : Z) : channel_t :=
  Chan (ChRing 0x200000 ∅ 4096 4095 0xFFFFFFFE 0xFFFFFFFE) (ChRing 0x201000 ∅ 4096 4095 0 0) flags 1 0.

Lemma fresh_chan_ok flags : chan_ok (fresh_chan flags).
Proof.
  split; split; cbn; try lia; try (exists 12; split; [lia|reflexivity]); vm_compute; discriminate.
Qed.

Lemma channel_refines_queues_witness :
  run_chan [CWrite CH_END_SLAVE [80; 73; 78; 71]; CRead CH_END_MASTER 8] (fresh_chan CH_BYTE)
  = [inl 4; inr [80; 73; 78; 71]].
Proof.
  rewrite (channel_refines_queues [CWrite CH_END_SLAVE [80; 73; 78; 71]; CRead CH_END_MASTER 8]
             (fresh_chan CH_BYTE)).
  - reflexivity.
  - constructor; [exact I|]. constructor; [cbn; lia|constructor].
  - apply fresh_chan_ok.
Defined.

Definition sample_msg : msg_packet_t * list Z := (MsgPacket 0x55 0 3 0xABCD1234, [47; 98; 105]).

Lemma channel_messages_refine_witness :
  run_msgs [MSend sample_msg; MRecv 2; MRecv 64; MRecv 64] (fresh_chan CH_MSG)
  = [(19, None); (EMSGSIZE, None); (3, Some sample_msg); (EAGAIN, None)].
Proof.
  rewrite (channel_messages_refine [MSend sample_msg; MRecv 2; MRecv 64; MRecv 64] (fresh_chan CH_MSG) []).
  - reflexivity.
  - constructor; [split; [split_and!; cbn; lia|reflexivity]|].
    constructor; [cbn; lia|]. constructor; [cbn; lia|]. constructor; [cbn; lia|constructor].
  - discriminate.
  - split; [apply fresh_chan_ok|]. split; [constructor|reflexivity].
Defined.

(** Process 1 creates a channel and grants it to process 2, which accepts. *)
Definition w_boot : world := boot_world [1; 2].
Definition w_created : world := fst (sys_ch_create 0 CH_BYTE 4096 0x9000 0x200000 0x201000 w_boot).
Definition w_granted : world := fst (sys_ch_grant 0 1 2 w_created).
Definition w_accepted : world := fst (sys_ch_accept 1 1 w_granted).

Lemma w_granted_reachable : rtc sys_step w_boot w_granted.
Proof.
  eapply rtc_l; [apply (st_create 0 CH_BYTE 4096 0x9000 0x200000 0x201000); intros _; reflexivity|].
  eapply rtc_l; [apply (st_grant 0 1 2)|]. apply rtc_refl.
Qed.

Lemma channel_references_exact_witness :
  chans w_granted !! 0x9000 ≠ None ∧ refs w_granted 0x9000 = 2.
Proof.
  destruct (chans w_granted !! 0x9000) as [c|] eqn:E; [|vm_compute in E; discriminate].
  split; [discriminate|].
  destruct (proj1 (channel_references_exact [1; 2] w_granted ltac:(cbn; lia) w_granted_reachable) 0x9000 c E)
    as (_ & H & _).
  rewrite <- H. vm_compute in E. injection E as <-. reflexivity.
Defined.

Lemma accepted_read_only a e : ¬ holds_right 1 (i32 1) 1 a e w_accepted.
Proof. apply (no_right 1 (i32 1) 1); [done|]. vm_compute. reflexivity. Qed.

Lemma channel_rights_enforced_witness :
  sys_ch_write 1 1 4 true (Some [1; 2; 3; 4]) w_accepted = (w_accepted, EBADF).
Proof.
  destruct (channel_rights_enforced 1 1 w_accepted) as (_ & H & _). apply (H accepted_read_only). lia.
Defined.

Lemma w_created_reachable : rtc sys_step w_boot w_created.
Proof.
  eapply rtc_l; [apply (st_create 0 CH_BYTE 4096 0x9000 0x200000 0x201000); intros _; reflexivity|].
  apply rtc_refl.
Qed.

Lemma grant_accept_round_trip_witness : 0 < snd (sys_ch_accept 1 1 w_granted).
Proof.
  destruct (grant_accept_round_trip [1; 2] w_created 0%nat 1 2 w_granted 1 1%nat ltac:(cbn; lia)
    w_created_reachable ltac:(vm_compute; reflexivity) ltac:(lia) ltac:(vm_compute; reflexivity)
    ltac:(vm_compute; discriminate)) as (a & e & h & _ & Hh & Hs & _).
  rewrite Hs. exact Hh.
Defined.

Lemma grant_one_shot_witness : sys_ch_accept 0 1 w_accepted = (w_accepted, EBADF).
Proof.
  destruct (grant_one_shot [1; 2] w_granted 1%nat 1 w_accepted 1 ltac:(cbn; lia) w_granted_reachable
    ltac:(vm_compute; reflexivity) ltac:(lia)) as (i & g & _ & _ & _ & _ & H).
  apply H.
Defined.

End ChannelProps.
