(* ===== verification/MsgQueue.v ===== *)
(** * System V message queues (kernel/ipc/msgqueue.c)

    Queues are found by id in a direct table and by key in an open-addressing
    hash table with tombstones.  Messages hang off a queue in a singly linked
    list with a tail pointer.  Objects live in stores keyed by their kmalloc
    address; NULL is 0. *)

From S2P Require Import Prelude.

Module MsgQueue.

Definition MQ_TABLE_SIZE : Z := 256.
Definition MQ_HASH_SIZE : Z := 512.
Definition MQ_HASH_MASK : Z := 511.
Definition MQ_HASH_EMPTY : Z := 0.
Definition MQ_HASH_DEAD : Z := 1.
Definition IPC_PRIVATE : Z := 0.
Definition IPC_CREAT : Z := 0x200.
Definition IPC_EXCL : Z := 0x400.
Definition IPC_RMID : Z := 0x1000.
Definition IPC_STAT : Z := 0x2000.
Definition IPC_SET : Z := 0x3000.
Definition MSG_NOERROR : Z := 0x1000.
Definition IPC_R : Z := 256.
Definition IPC_W : Z := 128.
Definition MSGMAX : Z := 8192.
Definition MSGMNB : Z := 16384.
Definition MSG_CLEANUP_MAX : Z := 32.

Definition IPC_SUCCESS : Z := 0.
Definition IPC_EINVAL : Z := -22.
Definition IPC_ENOMEM : Z := -12.
Definition IPC_EACCES : Z := -13.
Definition IPC_EEXIST : Z := -17.
Definition IPC_ENOENT : Z := -2.
Definition IPC_EAGAIN : Z := -11.
Definition IPC_EFAULT : Z := -14.
Definition IPC_E2BIG : Z := -7.
Definition IPC_ENOMSG : Z := -42.

Record msg_message_t := Msg { mtype : Z; msize : Z; mtext : list Z; mnext : Z }.

Record msg_queue_t := Queue {
  qid : Z; key : Z; first : Z; last : Z; msg_count : Z; total_bytes : Z;
  max_msgs : Z; max_bytes : Z; creator_uid : Z; creator_gid : Z; owner_pid : Z;
  mode : Z; create_time : Z; send_time : Z; recv_time : Z }.

(** Both object stores, both tables and the id cursor. *)
Record mq_state := MqState {
  queues : gmap Z msg_queue_t; nodes : gmap Z msg_message_t;
  id_table : list Z; key_table : list Z; next_msg_id : Z }.

(** A bound on the length of any chain of messages. *)
Definition size_nodes (s : mq_state) : nat := size (nodes s).

Record cred := Cred { c_uid : Z; c_gid : Z; c_pid : Z }.

Definition with_queues f s := MqState (f (queues s)) (nodes s) (id_table s) (key_table s) (next_msg_id s).
Definition with_nodes f s := MqState (queues s) (f (nodes s)) (id_table s) (key_table s) (next_msg_id s).
Definition with_ids f s := MqState (queues s) (nodes s) (f (id_table s)) (key_table s) (next_msg_id s).
Definition with_keys f s := MqState (queues s) (nodes s) (id_table s) (f (key_table s)) (next_msg_id s).
Definition with_next n s := MqState (queues s) (nodes s) (id_table s) (key_table s) n.

Definition key_of (s : mq_state) (q : Z) : Z := default 0 (key <$> queues s !! q).

(** ** The key hash table *)

Definition mq_key_hash (k : Z) : Z :=
  let k := u32 k in
  let k := u32 (Z.lxor k (Z.shiftr k 16) * 0x45d9f3b) in
  let k := u32 (Z.lxor k (Z.shiftr k 16) * 0x45d9f3b) in
  let k := Z.lxor k (Z.shiftr k 16) in
  Z.land k MQ_HASH_MASK.

Definition probe (slot i : Z) : nat := Z.to_nat (Z.land (u32 (slot + i)) MQ_HASH_MASK).
Definition kt_get (kt : list Z) (idx : nat) : Z := default 0 (kt !! idx).

Fixpoint insert_loop (fuel : nat) (slot i q : Z) (kt : list Z) : list Z :=
  match fuel with
  | O => kt
  | S f =>
      let e := kt_get kt (probe slot i) in
      if (e =? MQ_HASH_EMPTY) || (e =? MQ_HASH_DEAD) then <[probe slot i := q]> kt
      else insert_loop f slot (i + 1) q kt
  end.
Definition key_table_insert (q : Z) (s : mq_state) : mq_state :=
  if key_of s q =? IPC_PRIVATE then s
  else with_keys (insert_loop 512 (mq_key_hash (key_of s q)) 0 q) s.

Fixpoint remove_loop (fuel : nat) (slot i q : Z) (kt : list Z) : list Z :=
  match fuel with
  | O => kt
  | S f =>
      let e := kt_get kt (probe slot i) in
      if e =? MQ_HASH_EMPTY then kt
      else if e =? q then <[probe slot i := MQ_HASH_DEAD]> kt
      else remove_loop f slot (i + 1) q kt
  end.
Definition key_table_remove (q : Z) (s : mq_state) : mq_state :=
  if key_of s q =? IPC_PRIVATE then s
  else with_keys (remove_loop 512 (mq_key_hash (key_of s q)) 0 q) s.

Fixpoint find_loop (fuel : nat) (kf : Z → Z) (slot i k : Z) (kt : list Z) : Z :=
  match fuel with
  | O => 0
  | S f =>
      let e := kt_get kt (probe slot i) in
      if e =? MQ_HASH_EMPTY then 0
      else if negb (e =? MQ_HASH_DEAD) && (kf e =? k) then e
      else find_loop f kf slot (i + 1) k kt
  end.
(** NULL is 0. *)
Definition msg_find_by_key (k : Z) (s : mq_state) : Z :=
  if k =? IPC_PRIVATE then 0 else find_loop 512 (key_of s) (mq_key_hash k) 0 k (key_table s).

Definition msg_find_by_id (id : Z) (s : mq_state) : Z :=
  if (id <=? 0) || (MQ_TABLE_SIZE <? id) then 0
  else default 0 (id_table s !! Z.to_nat (id - 1)).

Definition msg_init (s : mq_state) : mq_state :=
  MqState (queues s) (nodes s) (replicate 256 0) (replicate 512 MQ_HASH_EMPTY) 1.

Definition msg_check_permission (q : msg_queue_t) (uid gid : Z) (write : bool) : bool :=
  if uid =? 0 then true
  else if uid =? creator_uid q then true
  else if gid =? creator_gid q then
    if write then negb (Z.land (mode q) (Z.shiftr IPC_W 3) =? 0)
    else negb (Z.land (mode q) (Z.shiftr IPC_R 3) =? 0)
  else if write then negb (Z.land (mode q) (Z.shiftr IPC_W 6) =? 0)
       else negb (Z.land (mode q) (Z.shiftr IPC_R 6) =? 0).

(** ** msgget *)

(** The search for a free id slot; [None] when the cursor came round. *)
Fixpoint reserve_loop (fuel : nat) (ids : list Z) (start next : Z) : option Z :=
  match fuel with
  | O => None
  | S f =>
      if default 0 (ids !! Z.to_nat (next - 1)) =? 0 then Some next
      else
        let next := next + 1 in
        let next := if MQ_TABLE_SIZE <? next then 1 else next in
        if next =? start then None else reserve_loop f ids start next
  end.

(** Phase 1, under the lock: the answer, or a reserved id. *)
Definition msgget_reserve (k flags : Z) (s : mq_state) : mq_state * (Z + Z) :=
  let existing := if k =? IPC_PRIVATE then 0 else msg_find_by_key k s in
  if negb (k =? IPC_PRIVATE) && negb (existing =? 0) then
    if negb (Z.land flags IPC_EXCL =? 0) then (s, inl IPC_EEXIST)
    else (s, inl (default 0 (qid <$> queues s !! existing)))
  else if negb (k =? IPC_PRIVATE) && (Z.land flags IPC_CREAT =? 0) then (s, inl IPC_ENOENT)
  else
    let start := if MQ_TABLE_SIZE <? next_msg_id s then 1 else next_msg_id s in
    match reserve_loop 256 (id_table s) start start with
    | None => (with_next start s, inl IPC_ENOMEM)
    | Some id => (with_next id s, inr id)
    end.

(** Phase 2: the new object, while unlocked. *)
Definition new_queue (id k flags now : Z) (c : cred) : msg_queue_t :=
  Queue id k 0 0 0 0 100 MSGMNB (c_uid c) (c_gid c) (c_pid c) (Z.land flags 511) now 0 0.

(** Phase 3, under the lock: publish object [a], or free it when raced. *)
Definition msgget_commit (id k flags now : Z) (c : cred) (a : Z) (s : mq_state) : mq_state * Z :=
  if negb (default 0 (id_table s !! Z.to_nat (id - 1)) =? 0) then (s, IPC_ENOMEM)
  else
    let racing := if k =? IPC_PRIVATE then 0 else msg_find_by_key k s in
    if negb (racing =? 0) then
      if negb (Z.land flags IPC_EXCL =? 0) then (s, IPC_EEXIST)
      else (s, default 0 (qid <$> queues s !! racing))
    else
      let s := with_queues <[a := new_queue id k flags now c]> s in
      let s := with_ids <[Z.to_nat (id - 1) := a]> s in
      let s := key_table_insert a s in
      let next := id + 1 in
      (with_next (if MQ_TABLE_SIZE <? next then 1 else next) s, id).

(** The whole call without interference; [cur] is the current process and [a] what
    [kmalloc] returned. *)
Definition sys_msgget (key_arg msgflg now : Z) (cur : option cred) (a : Z) (s : mq_state) : mq_state * Z :=
  match cur with
  | None => (s, IPC_EINVAL)
  | Some c =>
      let k := i32 key_arg in
      let flags := i32 msgflg in
      match msgget_reserve k flags s with
      | (s, inl r) => (s, r)
      | (s, inr id) => if a =? 0 then (s, IPC_ENOMEM) else msgget_commit id k flags now c a s
      end
  end.

(** ** msgsnd *)

Definition set_next (n : Z) (m : msg_message_t) : msg_message_t := Msg (mtype m) (msize m) (mtext m) n.

(** The queue's fields once [node] is its tail. *)
Definition queue_sent (qo : msg_queue_t) (node size now : Z) : msg_queue_t :=
  Queue (qid qo) (key qo) (if negb (last qo =? 0) then first qo else node) node
    (u32 (msg_count qo + 1)) (u64 (total_bytes qo + size)) (max_msgs qo) (max_bytes qo)
    (creator_uid qo) (creator_gid qo) (owner_pid qo) (mode qo) (create_time qo) now (recv_time qo).

(** [q->last->next = node; q->last = node], or both ends of an empty queue. *)
Definition append_node (q : Z) (qo : msg_queue_t) (node : Z) (m : msg_message_t) (now : Z) (s : mq_state)
  : mq_state :=
  let s := with_nodes <[node := m]> s in
  let s := if negb (last qo =? 0) then with_nodes (alter (set_next node) (last qo)) s else s in
  with_queues <[q := queue_sent qo node (msize m) now]> s.

(** [cur] is the current process and [msgp] the pointer of the caller; [header]
    is the type read from user memory and [data] the payload bytes ([None] when
    the copy faults); [node] is what [kmalloc] returned. *)
Definition sys_msgsnd (msqid msgp size now : Z) (cur : option cred) (header : option Z) (node : Z)
  (data : option (list Z)) (s : mq_state) : mq_state * Z :=
  match cur with
  | None => (s, IPC_EINVAL)
  | Some c =>
      if (msgp =? 0) || (MSGMAX <? size) then (s, IPC_EINVAL)
      else
        match header with
        | None => (s, IPC_EFAULT)
        | Some ty =>
            if ty <=? 0 then (s, IPC_EINVAL)
            else if node =? 0 then (s, IPC_ENOMEM)
            else
              match data with
              | None => (s, IPC_EFAULT)
              | Some text =>
                  let q := msg_find_by_id (i32 msqid) s in
                  match queues s !! q with
                  | None => (s, IPC_EINVAL)
                  | Some qo =>
                      if q =? 0 then (s, IPC_EINVAL)
                      else if negb (msg_check_permission qo (c_uid c) (c_gid c) true) then (s, IPC_EACCES)
                      else if (max_msgs qo <=? msg_count qo) || (max_bytes qo <? u64 (total_bytes qo + size))
                      then (s, IPC_EAGAIN)
                      else (append_node q qo node (Msg ty size text 0) now s, IPC_SUCCESS)
                  end
              end
        end
  end.

(** ** msgrcv *)

Definition type_matches (type ty : Z) : bool :=
  if type =? 0 then true
  else if 0 <? type then ty =? type
  else ty <=? i64 (- type).

(** The walk: the matching node and its predecessor (0 for none). *)
Fixpoint walk (fuel : nat) (ns : gmap Z msg_message_t) (type prev m : Z) : option (Z * Z) :=
  match fuel with
  | O => None
  | S f =>
      if m =? 0 then None
      else
        match ns !! m with
        | None => None
        | Some x => if type_matches type (mtype x) then Some (prev, m) else walk f ns type m (mnext x)
        end
  end.

(** The queue's fields once [m], found after [prev], is unlinked. *)
Definition queue_received (qo : msg_queue_t) (prev m : Z) (x : msg_message_t) (now : Z) : msg_queue_t :=
  Queue (qid qo) (key qo) (if negb (prev =? 0) then first qo else mnext x)
    (if last qo =? m then prev else last qo)
    (u32 (msg_count qo - 1)) (u64 (total_bytes qo - msize x)) (max_msgs qo) (max_bytes qo)
    (creator_uid qo) (creator_gid qo) (owner_pid qo) (mode qo) (create_time qo) (send_time qo) now.

(** Unlink [m] after [prev] from the queue and free it. *)
Definition unlink_node (q : Z) (qo : msg_queue_t) (prev m : Z) (x : msg_message_t) (now : Z) (s : mq_state)
  : mq_state :=
  let s := if negb (prev =? 0) then with_nodes (alter (set_next (mnext x)) prev) s else s in
  let s := with_queues <[q := queue_received qo prev m x now]> s in
  with_nodes (delete m) s.

(** [tmp] tells whether the bounce buffer was allocated; [copy_type] and
    [copy_data] whether the copies of the type and of the payload to user memory
    succeed.  On success the message is returned. *)
Definition sys_msgrcv (msqid msgp size type flags now : Z) (cur : option cred) (tmp copy_type copy_data : bool)
  (s : mq_state) : mq_state * Z * option (Z * list Z) :=
  match cur with
  | None => (s, IPC_EINVAL, None)
  | Some c =>
      if msgp =? 0 then (s, IPC_EINVAL, None)
      else
        let cap := if size <? MSGMAX then size else MSGMAX in
        if (0 <? cap) && negb tmp then (s, IPC_ENOMEM, None)
        else
          let q := msg_find_by_id (i32 msqid) s in
          match queues s !! q with
          | None => (s, IPC_EINVAL, None)
          | Some qo =>
              if q =? 0 then (s, IPC_EINVAL, None)
              else if negb (msg_check_permission qo (c_uid c) (c_gid c) false) then (s, IPC_EACCES, None)
              else
                match walk (S (size_nodes s)) (nodes s) type 0 (first qo) with
                | None => (s, IPC_ENOMSG, None)
                | Some (prev, m) =>
                    match nodes s !! m with
                    | None => (s, IPC_ENOMSG, None)
                    | Some x =>
                        if (size <? msize x) && (Z.land flags MSG_NOERROR =? 0) then (s, IPC_E2BIG, None)
                        else
                          let copy_size := if size <? msize x then size else msize x in
                          let s := unlink_node q qo prev m x now s in
                          if negb copy_type then (s, IPC_EFAULT, None)
                          else if (0 <? copy_size) && negb copy_data then (s, IPC_EFAULT, None)
                          else (s, copy_size, Some (mtype x, take (Z.to_nat copy_size) (mtext x)))
                    end
                end
          end
  end.

(** ** msgctl and cleanup *)

(** [while (msg) { next = msg->next; kfree(msg); msg = next; }] *)
Fixpoint free_chain (fuel : nat) (m : Z) (ns : gmap Z msg_message_t) : gmap Z msg_message_t :=
  match fuel with
  | O => ns
  | S f =>
      if m =? 0 then ns
      else match ns !! m with
           | None => ns
           | Some x => free_chain f (mnext x) (delete m ns)
           end
  end.

Definition free_queue (q : Z) (qo : msg_queue_t) (s : mq_state) : mq_state :=
  with_queues (delete q) (with_nodes (free_chain (S (size_nodes s)) (first qo)) s).

Definition sys_msgctl (msqid cmd : Z) (cur : option cred) (s : mq_state) : mq_state * Z :=
  match cur with
  | None => (s, IPC_EINVAL)
  | Some c =>
      let command := i32 cmd in
      let q := msg_find_by_id (i32 msqid) s in
      match queues s !! q with
      | None => (s, IPC_EINVAL)
      | Some qo =>
          if q =? 0 then (s, IPC_EINVAL)
          else if command =? IPC_RMID then
            if negb (c_uid c =? 0) && negb (c_uid c =? creator_uid qo) then (s, IPC_EACCES)
            else
              let s := with_ids <[Z.to_nat (qid qo - 1) := 0]> s in
              let s := key_table_remove q s in
              (free_queue q qo s, IPC_SUCCESS)
          else if (command =? IPC_STAT) || (command =? IPC_SET) then (s, IPC_SUCCESS)
          else (s, IPC_EINVAL)
      end
  end.

(** One iteration of the sweep: the state and the deferred frees so far. *)
Definition cleanup_one (pid : Z) (acc : mq_state * list (Z * msg_queue_t)) (i : nat)
  : mq_state * list (Z * msg_queue_t) :=
  let '(s, work) := acc in
  let q := default 0 (id_table s !! i) in
  match queues s !! q with
  | None => acc
  | Some qo =>
      if (q =? 0) || negb (owner_pid qo =? pid) then acc
      else
        let s := with_ids <[i := 0]> s in
        let s := key_table_remove q s in
        (s, if Z.of_nat (length work) <? MSG_CLEANUP_MAX then work ++ [(q, qo)] else work)
  end.

Definition msg_cleanup_process (pid : Z) (s : mq_state) : mq_state :=
  let '(s, work) := foldl (cleanup_one pid) (s, []) (seq 0 256) in
  foldl (λ s x, free_queue (fst x) (snd x) s) s work.

End MsgQueue.
