(* ===== verification/MsgKeys.v ===== *)
(** * The key hash table of the message queues

    Open addressing with linear probing and tombstones, as an index from keys
    to live queues: lookup, insertion and removal against the set of live
    queues and their keys. *)

From S2P Require Import Prelude MsgQueue.

Module MsgKeys.
Import MsgQueue.

(** Slots hold EMPTY, DEAD or a live keyed queue; each keyed live queue is in
    exactly one slot, with no EMPTY slot between its hash slot and its place. *)
Record kt_ok (kf : Z → Z) (live : list Z) (kt : list Z) : Prop := {
  kt_len : length kt = 512%nat;
  kt_range j e : kt !! j = Some e → 0 ≤ e;
  kt_sound j a : kt !! j = Some a → 1 < a → a ∈ live ∧ kf a ≠ 0 ∧
    ∃ d, 0 ≤ d < 512 ∧ j = probe (mq_key_hash (kf a)) d ∧
      ∀ i, 0 ≤ i < d → kt_get kt (probe (mq_key_hash (kf a)) i) ≠ 0;
  kt_complete a : a ∈ live → kf a ≠ 0 → ∃ j, kt !! j = Some a;
  kt_once j1 j2 a : kt !! j1 = Some a → kt !! j2 = Some a → 1 < a → j1 = j2 }.

Lemma probe_mod slot i : probe slot i = Z.to_nat ((slot + i) mod 512).
Proof.
  unfold probe, MQ_HASH_MASK. change 511 with (Z.ones 9). rewrite Z.land_ones by lia. change (2 ^ 9) with 512.
  f_equal. unfold u32. change (2 ^ 32) with (512 * 8388608). rewrite Z.rem_mul_r by lia.
  rewrite Z.mul_comm, Z_mod_plus_full. apply Z.mod_mod. lia.
Qed.

Lemma probe_lt slot i : (probe slot i < 512)%nat.
Proof. rewrite probe_mod. pose proof (Z.mod_pos_bound (slot + i) 512). lia. Qed.

Lemma probe_onto slot j : (j < 512)%nat → ∃ i, 0 ≤ i < 512 ∧ probe slot i = j.
Proof.
  intros Hj. exists ((Z.of_nat j - slot) mod 512). split; [apply Z.mod_pos_bound; lia|].
  rewrite probe_mod, Zplus_mod_idemp_r. replace (slot + (Z.of_nat j - slot)) with (Z.of_nat j) by lia.
  rewrite Z.mod_small by lia. lia.
Qed.

Lemma kt_get_lookup kt j : (j < length kt)%nat → kt !! j = Some (kt_get kt j).
Proof. intros H. unfold kt_get. by destruct (lookup_lt_is_Some_2 kt j H) as [e ->]. Qed.

Lemma kt_get_insert kt i j x : (i < length kt)%nat →
  kt_get (<[i := x]> kt) j = if decide (i = j) then x else kt_get kt j.
Proof.
  intros H. unfold kt_get. case_decide as Hij; [subst; by rewrite list_lookup_insert_eq|].
  by rewrite list_lookup_insert_ne.
Qed.

(** ** The three loops *)

Lemma find_loop_sound n kf slot i k kt r : find_loop n kf slot i k kt = r → r ≠ 0 →
  r ≠ 1 ∧ kf r = k ∧ ∃ j, kt !! j = Some r.
Proof.
  revert i. induction n as [|n IH]; intros i; cbn [find_loop]; [by intros <-|].
  destruct (Z.eqb_spec (kt_get kt (probe slot i)) MQ_HASH_EMPTY) as [|Hne]; [by intros <-|].
  destruct (Z.eqb_spec (kt_get kt (probe slot i)) MQ_HASH_DEAD) as [|Hnd]; cbn [negb andb]; [apply IH|].
  destruct (Z.eqb_spec (kf (kt_get kt (probe slot i))) k) as [Hk|]; [|apply IH].
  intros <- _. split_and!; [done|done|]. exists (probe slot i). unfold kt_get in *.
  by destruct (kt !! probe slot i).
Qed.

Lemma find_loop_complete n kf slot i d k kt : i ≤ d < i + Z.of_nat n →
  kt_get kt (probe slot d) ≠ 0 → kt_get kt (probe slot d) ≠ 1 → kf (kt_get kt (probe slot d)) = k →
  (∀ e, i ≤ e < d → kt_get kt (probe slot e) ≠ 0) → find_loop n kf slot i k kt ≠ 0.
Proof.
  revert i. induction n as [|n IH]; intros i Hd H0 H1 Hk Hpre; [lia|]. cbn [find_loop].
  destruct (decide (i = d)) as [->|].
  - destruct (Z.eqb_spec (kt_get kt (probe slot d)) MQ_HASH_EMPTY); [done|].
    destruct (Z.eqb_spec (kt_get kt (probe slot d)) MQ_HASH_DEAD); [done|]. by rewrite Hk, Z.eqb_refl.
  - destruct (Z.eqb_spec (kt_get kt (probe slot i)) MQ_HASH_EMPTY) as [He|]; [by apply Hpre in He; lia|].
    destruct (negb _ && _) eqn:E; [done|]. apply IH; try done; [lia|]. intros e He. apply Hpre. lia.
Qed.

Lemma insert_loop_spec n slot i q kt :
  (∃ d, i ≤ d < i + Z.of_nat n ∧ kt_get kt (probe slot d) ∈ [0; 1]) →
  ∃ d, i ≤ d < i + Z.of_nat n ∧ kt_get kt (probe slot d) ∈ [0; 1] ∧
    insert_loop n slot i q kt = <[probe slot d := q]> kt ∧
    ∀ e, i ≤ e < d → kt_get kt (probe slot e) ∉ [0; 1].
Proof.
  revert i. induction n as [|n IH]; intros i (d & Hd & Hf); [lia|]. cbn [insert_loop].
  destruct (Z.eqb_spec (kt_get kt (probe slot i)) MQ_HASH_EMPTY) as [He|Hne];
    [|destruct (Z.eqb_spec (kt_get kt (probe slot i)) MQ_HASH_DEAD) as [He|Hnd]]; cbn [orb].
  1,2: exists i; split_and!; [lia|lia|unfold MQ_HASH_EMPTY, MQ_HASH_DEAD in *; set_solver|done|lia].
  unfold MQ_HASH_EMPTY, MQ_HASH_DEAD in *.
  destruct (decide (i = d)) as [->|]; [set_solver|].
  destruct (IH (i + 1)) as (d' & Hd' & Hf' & Hi & Hpre); [exists d; split; [lia|done]|].
  exists d'. split_and!; [lia|lia|done|done|]. intros e He.
  destruct (decide (e = i)) as [->|]; [set_solver|]. apply Hpre. lia.
Qed.

Lemma remove_loop_spec n slot i d q kt : i ≤ d < i + Z.of_nat n → q ≠ 0 →
  kt_get kt (probe slot d) = q → (∀ e, i ≤ e < d → kt_get kt (probe slot e) ≠ 0) →
  (∀ e, i ≤ e < d → kt_get kt (probe slot e) ≠ q) →
  remove_loop n slot i q kt = <[probe slot d := MQ_HASH_DEAD]> kt.
Proof.
  revert i. induction n as [|n IH]; intros i Hd Hq Hf Hpre Hne; [lia|]. cbn [remove_loop].
  destruct (decide (i = d)) as [->|].
  - rewrite Hf, Z.eqb_refl. by destruct (Z.eqb_spec q MQ_HASH_EMPTY).
  - destruct (Z.eqb_spec (kt_get kt (probe slot i)) MQ_HASH_EMPTY) as [He|]; [by apply Hpre in He; lia|].
    destruct (Z.eqb_spec (kt_get kt (probe slot i)) q) as [He|]; [by apply Hne in He; lia|].
    apply IH; try done; [lia|..]; intros e He; [apply Hpre|apply Hne]; lia.
Qed.

(** ** The table as an index *)

Lemma find_spec kf live kt k : kt_ok kf live kt → k ≠ 0 →
  (∀ a b, a ∈ live → b ∈ live → kf a = kf b → kf a ≠ 0 → a = b) → (∀ a, a ∈ live → 1 < a) →
  let r := find_loop 512 kf (mq_key_hash k) 0 k kt in
  (r ≠ 0 → r ∈ live ∧ kf r = k) ∧ (∀ a, a ∈ live → kf a = k → r = a).
Proof.
  intros Hk Hk0 Huniq Hpos r.
  assert (Hs : r ≠ 0 → r ∈ live ∧ kf r = k).
  { intros Hr. destruct (find_loop_sound 512 kf (mq_key_hash k) 0 k kt r eq_refl Hr) as (Hr1 & Hkr & j & Hj).
    split; [|done]. pose proof (kt_range _ _ _ Hk j r Hj). apply (kt_sound _ _ _ Hk j r Hj). lia. }
  split; [done|]. intros a Ha Hka.
  destruct (kt_complete _ _ _ Hk a Ha) as [j Hj]; [congruence|].
  destruct (kt_sound _ _ _ Hk j a Hj (Hpos a Ha)) as (_ & _ & d & Hd & -> & Hpre). rewrite Hka in *.
  assert (Hg : kt_get kt (probe (mq_key_hash k) d) = a) by (unfold kt_get; by rewrite Hj).
  assert (Hr : r ≠ 0).
  { apply (find_loop_complete 512 kf (mq_key_hash k) 0 d k kt); rewrite ?Hg; specialize (Hpos a Ha); try lia; try done. }
  destruct (Hs Hr) as [Hrl Hkr]. apply Huniq; [done|done|congruence|congruence].
Qed.

(** With at most 256 live queues some slot of the 512 is free. *)
Lemma free_slot_exists kf live kt slot : kt_ok kf live kt → (length live ≤ 256)%nat →
  ∃ d, 0 ≤ d < 512 ∧ kt_get kt (probe slot d) ∈ [0; 1].
Proof.
  intros Hk Hl. destruct (decide (Exists (λ e, e ∈ [0; 1]) kt)) as [Hex|Hno].
  - apply Exists_exists in Hex as (e & (j & Hj)%list_elem_of_lookup & He).
    destruct (probe_onto slot j) as (d & Hd & Hp).
    { apply lookup_lt_Some in Hj. by rewrite (kt_len _ _ _ Hk) in Hj. }
    exists d. split; [done|]. rewrite Hp. unfold kt_get. by rewrite Hj.
  - exfalso. assert (Hbig : ∀ j e, kt !! j = Some e → 1 < e).
    { intros j e Hj. pose proof (kt_range _ _ _ Hk j e Hj).
      assert (e ∉ [0; 1]) as Hn.
      { intros He. apply Hno, Exists_exists. exists e. split; [|done]. by apply list_elem_of_lookup_2 in Hj. }
      destruct (decide (e = 0)); [set_solver|]. destruct (decide (e = 1)); [set_solver|]. lia. }
    assert (NoDup kt) as Hnd.
    { apply NoDup_alt. intros j1 j2 e H1 H2. eapply (kt_once _ _ _ Hk); [done..|by eapply Hbig]. }
    assert (kt ⊆+ live) as Hsub.
    { apply NoDup_submseteq; [done|]. intros e (j & Hj)%list_elem_of_lookup.
      apply (kt_sound _ _ _ Hk j e Hj). by eapply Hbig. }
    apply submseteq_length in Hsub. rewrite (kt_len _ _ _ Hk) in Hsub. lia.
Qed.

(** Adding a fresh keyed queue [q]. *)
Lemma insert_ok kf kf' live kt q : kt_ok kf live kt → (length live ≤ 256)%nat →
  1 < q → q ∉ live → kf' q ≠ 0 → (∀ a, a ∈ live → kf' a = kf a ∧ 1 < a) →
  kt_ok kf' (q :: live) (insert_loop 512 (mq_key_hash (kf' q)) 0 q kt).
Proof.
  intros Hk Hl Hq Hnew Hkq Hsame. pose proof (kt_len _ _ _ Hk) as Hlen.
  destruct (free_slot_exists kf live kt (mq_key_hash (kf' q)) Hk Hl) as (d0 & Hd0 & Hf0).
  destruct (insert_loop_spec 512 (mq_key_hash (kf' q)) 0 q kt) as (d & Hd & Hf & -> & Hpre).
  { exists d0. split; [lia|done]. }
  set (p := probe (mq_key_hash (kf' q)) d) in *.
  assert (Hp : (p < length kt)%nat) by (rewrite Hlen; apply probe_lt).
  assert (Hnz : ∀ i, kt_get kt i ≠ 0 → kt_get (<[p := q]> kt) i ≠ 0).
  { intros i Hi. rewrite kt_get_insert by done. case_decide; [lia|done]. }
  assert (Hnq : ∀ j, kt !! j = Some q → False).
  { intros j Hj. destruct (kt_sound _ _ _ Hk j q Hj Hq) as [? _]. done. }
  split.
  - by rewrite length_insert.
  - intros j e [(<- & <- & _)|[_ Hj]]%list_lookup_insert_Some; [lia|by apply (kt_range _ _ _ Hk j)].
  - intros j a [(<- & <- & _)|[_ Hj]]%list_lookup_insert_Some Ha.
    + split_and!; [by left|done|]. exists d. split_and!; [lia|lia|done|]. intros i Hi. apply Hnz.
      intros H0. apply (Hpre i Hi). rewrite H0. by left.
    + destruct (kt_sound _ _ _ Hk j a Hj Ha) as (Hal & Hka & d' & Hd' & -> & Hpre'). rewrite (proj1 (Hsame a Hal)).
      split_and!; [by right|done|]. exists d'. split_and!; try done; try lia. intros i Hi. by apply Hnz, Hpre'.
  - intros a [->|Ha]%elem_of_cons Hka.
    + exists p. by rewrite list_lookup_insert_eq.
    + rewrite (proj1 (Hsame a Ha)) in Hka. destruct (kt_complete _ _ _ Hk a Ha Hka) as [j Hj]. exists j.
      rewrite list_lookup_insert_ne; [done|]. intros <-.
      assert (a ∈ [0; 1]) as Hin by (unfold kt_get in Hf; by rewrite Hj in Hf).
      destruct (Hsame a Ha) as [_ Hgt]. apply elem_of_cons in Hin as [->|Hin]; [lia|].
      apply list_elem_of_singleton in Hin. lia.
  - intros j1 j2 a [(<- & <- & _)|[? H1]]%list_lookup_insert_Some [(<- & Hx & _)|[? H2]]%list_lookup_insert_Some Ha; try done.
    + by apply Hnq in H2.
    + subst. by apply Hnq in H1.
    + by eapply (kt_once _ _ _ Hk).
Qed.

(** Removing a keyed queue leaves a tombstone. *)
Lemma remove_ok kf live live' kt q : kt_ok kf live kt → q ∈ live → 1 < q → kf q ≠ 0 →
  (∀ a, a ∈ live' ↔ a ∈ live ∧ a ≠ q) →
  kt_ok kf live' (remove_loop 512 (mq_key_hash (kf q)) 0 q kt).
Proof.
  intros Hk Hq Hq1 Hkq Hl'. pose proof (kt_len _ _ _ Hk) as Hlen.
  destruct (kt_complete _ _ _ Hk q Hq Hkq) as [j Hj].
  destruct (kt_sound _ _ _ Hk j q Hj Hq1) as (_ & _ & d & Hd & Hjd & Hpre).
  set (h := mq_key_hash (kf q)) in *.
  assert (Hg : kt_get kt (probe h d) = q) by (unfold kt_get; by rewrite <- Hjd, Hj).
  assert (Hlow : ∀ e, 0 ≤ e < d → kt_get kt (probe h e) ≠ q).
  { intros e He Heq. assert (Hlk : kt !! probe h e = Some q).
    { rewrite kt_get_lookup by (rewrite Hlen; apply probe_lt). by rewrite Heq. }
    pose proof (kt_once _ _ _ Hk _ _ _ Hj Hlk Hq1) as Hpp. rewrite Hjd, !probe_mod in Hpp.
    pose proof (Z.mod_pos_bound (h + d) 512). pose proof (Z.mod_pos_bound (h + e) 512).
    assert ((h + d) mod 512 = (h + e) mod 512) as Hm by lia.
    pose proof (Z.div_mod (h + d) 512). pose proof (Z.div_mod (h + e) 512). lia. }
  rewrite (remove_loop_spec 512 h 0 d q kt); [|lia|lia|done|intros e He; apply Hpre; lia|intros e He; apply Hlow; lia].
  rewrite <- Hjd. assert (Hp : (j < length kt)%nat) by (by apply lookup_lt_Some in Hj).
  assert (Hnz : ∀ i, kt_get kt i ≠ 0 → kt_get (<[j := MQ_HASH_DEAD]> kt) i ≠ 0).
  { intros i Hi. rewrite kt_get_insert by done. by case_decide. }
  unfold MQ_HASH_DEAD in *. split.
  - by rewrite length_insert.
  - intros i e [(<- & <- & _)|[_ Hi]]%list_lookup_insert_Some; [lia|by apply (kt_range _ _ _ Hk i)].
  - intros i a [(<- & <- & _)|[Hne Hi]]%list_lookup_insert_Some Ha; [lia|].
    destruct (kt_sound _ _ _ Hk i a Hi Ha) as (Hal & Hka & d' & Hd' & -> & Hpre').
    split_and!; [|done|].
    + apply Hl'. split; [done|]. intros ->. apply Hne. by eapply (kt_once _ _ _ Hk).
    + exists d'. split_and!; try done; try lia. intros e He. by apply Hnz, Hpre'.
  - intros a [Ha Hne]%Hl' Hka. destruct (kt_complete _ _ _ Hk a Ha Hka) as [i Hi]. exists i.
    rewrite list_lookup_insert_ne; [done|]. intros <-. congruence.
  - intros j1 j2 a [(<- & <- & _)|[? H1]]%list_lookup_insert_Some [(<- & Hx & _)|[? H2]]%list_lookup_insert_Some Ha;
      try lia. by eapply (kt_once _ _ _ Hk).
Qed.

(** Only keys of live queues matter, and unkeyed queues are not in the table. *)
Lemma kt_ext kf kf' live live' kt : kt_ok kf live kt → (∀ a, a ∈ live → kf' a = kf a) →
  (∀ a, a ∈ live → kf a ≠ 0 → a ∈ live') → (∀ a, a ∈ live' → kf' a ≠ 0 → a ∈ live) →
  kt_ok kf' live' kt.
Proof.
  intros Hk Hsame H1 H2. split; [apply Hk|apply Hk| | |apply Hk].
  - intros j a Hj Ha. destruct (kt_sound _ _ _ Hk j a Hj Ha) as (Hl & Hka & Hd).
    rewrite (Hsame a Hl). auto.
  - intros a Ha Hka. pose proof (H2 a Ha Hka) as Hl. rewrite (Hsame a Hl) in Hka. by apply (kt_complete _ _ _ Hk).
Qed.

Lemma kt_init kf : kt_ok kf [] (replicate 512 MQ_HASH_EMPTY).
Proof.
  assert (He : ∀ j e, replicate 512 MQ_HASH_EMPTY !! j = Some e → e = 0).
  { intros j e Hj. by apply lookup_replicate in Hj as [-> _]. }
  split.
  - done.
  - intros j e ->%He. lia.
  - intros j a ->%He Ha. lia.
  - by intros a ?%not_elem_of_nil.
  - intros j1 j2 a ->%He _ Ha. lia.
Qed.

End MsgKeys.
