(* ===== verification/MsgInv.v ===== *)
(** * Message queues: chains, tables and the invariant

    The linked list of each queue stands for a list of nodes; the id table, the
    key table and the chains of different queues stay consistent under every
    system call. *)

From S2P Require Import Prelude Bytes MsgQueue MsgKeys.

Module MsgInv.
Import MsgQueue MsgKeys.

(** ** Chains of messages *)

Fixpoint chain (ns : gmap Z msg_message_t) (p : Z) (l : list Z) : Prop :=
  match l with
  | [] => p = 0
  | a :: l => p = a ∧ a ≠ 0 ∧ ∃ m, ns !! a = Some m ∧ chain ns (mnext m) l
  end.

Lemma chain_ext ns ns' p l : (∀ a, a ∈ l → ns' !! a = ns !! a) → chain ns p l → chain ns' p l.
Proof.
  revert p. induction l as [|a l IH]; intros p He; cbn; [done|].
  intros (-> & Hn & m & Hm & Hc). split_and!; [done|done|]. exists m. split.
  - rewrite He by (by left). done.
  - apply IH; [|done]. intros b Hb. apply He. by right.
Qed.

Lemma chain_elem ns p l a : chain ns p l → a ∈ l → a ≠ 0 ∧ is_Some (ns !! a).
Proof.
  revert p. induction l as [|b l IH]; intros p; [by intros _ ?%not_elem_of_nil|].
  intros (-> & Hn & m & Hm & Hc) [->|Ha]%elem_of_cons; [by split; [|eexists]|by eapply IH].
Qed.

Lemma chain_length ns p l : chain ns p l → NoDup l → (length l ≤ size ns)%nat.
Proof.
  intros Hc Hnd. rewrite <- (size_list_to_set (C := gset Z) l) by done.
  rewrite <- (size_dom ns). apply subseteq_size. intros a Ha. apply elem_of_list_to_set in Ha.
  apply elem_of_dom. by apply (chain_elem ns p l a).
Qed.

(** Retargeting the last pointer of a segment. *)
Lemma chain_retarget ns p l1 z m l2 q l3 :
  chain ns p (l1 ++ z :: l2) → ns !! z = Some m → z ∉ l1 →
  (∀ a, a ∈ l3 → a ≠ z) → chain ns q l3 →
  chain (alter (set_next q) z ns) p (l1 ++ z :: l3).
Proof.
  revert p. induction l1 as [|a l1 IH]; intros p; cbn [app chain].
  - intros (-> & Hn & m' & Hm & _) Hz _ Hl3 Hq. split_and!; [done|done|].
    exists (set_next q m'). rewrite lookup_alter_eq, Hm. split; [done|]. cbn.
    eapply chain_ext; [|exact Hq]. intros b Hb. rewrite lookup_alter_ne; [done|]. intros ->. by apply (Hl3 b).
  - intros (-> & Hn & m' & Hm & Hc) Hz Hnin Hl3 Hq. apply not_elem_of_cons in Hnin as [Hne Hnin].
    split_and!; [done|done|]. exists m'. rewrite lookup_alter_ne by done. split; [done|]. by apply IH.
Qed.

(** Appending a fresh node through the tail pointer. *)
Lemma chain_append ns p l node m : chain ns p l → NoDup l → ns !! node = None → node ≠ 0 → mnext m = 0 →
  match list.last l with
  | None => chain (<[node := m]> ns) node [node] ∧ l = []
  | Some z => chain (alter (set_next node) z (<[node := m]> ns)) p (l ++ [node])
  end.
Proof.
  intros Hc Hnd Hf Hn Hm. assert (Hnin : node ∉ l).
  { intros Hin. destruct (chain_elem ns p l node Hc Hin) as [_ [? ?]]. congruence. }
  assert (Hnew : chain (<[node := m]> ns) node [node]).
  { cbn. split_and!; [done|done|]. exists m. by rewrite lookup_insert_eq. }
  destruct (list.last l) as [z|] eqn:El; [|by apply last_None in El].
  apply last_Some in El as [l0 ->]. apply NoDup_app in Hnd as (_ & Hd & _).
  assert (Hz : is_Some (ns !! z)) by (apply (chain_elem ns p (l0 ++ [z])); [done|set_solver]).
  destruct Hz as [mz Hz]. rewrite <- app_assoc. cbn.
  assert (z ≠ node) by set_solver.
  eapply (chain_retarget _ p l0 z mz []).
  - eapply chain_ext; [|exact Hc]. intros a Ha. rewrite lookup_insert_ne; [done|set_solver].
  - by rewrite lookup_insert_ne.
  - intros Hz0. by apply (Hd z Hz0), list_elem_of_singleton.
  - intros a ->%list_elem_of_singleton. done.
  - done.
Qed.

(** Unlinking a node. *)
Lemma chain_suffix ns p l1 l2 : chain ns p (l1 ++ l2) → ∃ r, chain ns r l2.
Proof.
  revert p. induction l1 as [|a l1 IH]; intros p; cbn; [eauto|]. intros (_ & _ & m & _ & Hc). eauto.
Qed.

Lemma chain_unlink ns p l1 m x l2 : chain ns p (l1 ++ m :: l2) → NoDup (l1 ++ m :: l2) → ns !! m = Some x →
  match list.last l1 with
  | None => chain (delete m ns) (mnext x) l2 ∧ l1 = [] ∧ p = m
  | Some z => chain (delete m (alter (set_next (mnext x)) z ns)) p (l1 ++ l2)
  end.
Proof.
  intros Hc Hnd Hx. apply NoDup_app in Hnd as (Hn1 & Hd & [Hm2 Hn2]%NoDup_cons).
  assert (Htail : chain ns (mnext x) l2).
  { destruct (chain_suffix ns p l1 (m :: l2) Hc) as (r & _ & _ & x' & Hx' & Ht). by simplify_eq. }
  destruct (list.last l1) as [z|] eqn:El.
  - apply last_Some in El as [l0 ->]. rewrite <- app_assoc in *. cbn [app] in *.
    apply NoDup_app in Hn1 as (_ & Hd1 & _).
    assert (Hzm : z ≠ m) by (intros ->; apply (Hd m); set_solver).
    destruct (chain_suffix ns p l0 (z :: m :: l2) Hc) as (r & _ & _ & mz & Hmz & _).
    eapply chain_ext; [|eapply (chain_retarget ns p l0 z mz (m :: l2) (mnext x) l2); try done].
    + intros a Ha. rewrite lookup_delete_ne; [done|]. intros <-. apply (Hd m); set_solver.
    + intros Hz0. by apply (Hd1 z Hz0), list_elem_of_singleton.
    + intros a Ha ->. apply (Hd z); set_solver.
  - apply last_None in El as ->. cbn in Hc. destruct Hc as (-> & _). split_and!; [|done|done].
    eapply chain_ext; [|exact Htail]. intros a Ha. rewrite lookup_delete_ne; [done|]. by intros <-.
Qed.

(** The walk returns the first matching node and its predecessor. *)
Lemma walk_spec fuel ns type prev p l : chain ns p l → (length l < fuel)%nat →
  match walk fuel ns type prev p with
  | Some (pr, m) => ∃ l1 l2 x, l = l1 ++ m :: l2 ∧ pr = default prev (list.last l1) ∧
      ns !! m = Some x ∧ type_matches type (mtype x) = true ∧
      ∀ a y, a ∈ l1 → ns !! a = Some y → type_matches type (mtype y) = false
  | None => ∀ a y, a ∈ l → ns !! a = Some y → type_matches type (mtype y) = false
  end.
Proof.
  revert fuel prev p. induction l as [|a l IH]; intros [|fuel] prev p Hc Hf; cbn [length] in Hf; try lia.
  { cbn in Hc. subst p. cbn. by intros a y ?%not_elem_of_nil. }
  destruct Hc as (-> & Hn & m & Hm & Hc). cbn [walk]. destruct (Z.eqb_spec a 0); [done|]. rewrite Hm.
  destruct (type_matches type (mtype m)) eqn:E.
  { exists [], l, m. split_and!; try done. by intros b y ?%not_elem_of_nil. }
  specialize (IH fuel a (mnext m) Hc ltac:(lia)). destruct (walk fuel ns type a (mnext m)) as [[pr b]|].
  - destruct IH as (l1 & l2 & x & -> & Hpr & Hx & Ht & Hno). exists (a :: l1), l2, x. split_and!; try done.
    + rewrite Hpr. destruct l1 as [|c l1]; [done|].
      change (list.last (a :: c :: l1)) with (list.last (c :: l1)).
      destruct (list.last (c :: l1)) eqn:E2; [done|]. by apply last_None in E2.
    + intros c y [->|Hin]%elem_of_cons Hy; [by simplify_eq|by eapply Hno].
  - intros c y [->|Hin]%elem_of_cons Hy; [by simplify_eq|by eapply IH].
Qed.

Lemma free_chain_lookup fuel ns p l b : chain ns p l → NoDup l → (length l < fuel)%nat →
  free_chain fuel p ns !! b = if decide (b ∈ l) then None else ns !! b.
Proof.
  revert fuel ns p. induction l as [|a l IH]; intros [|fuel] ns p Hc Hnd Hf; cbn [length] in Hf; try lia.
  { cbn in Hc. subst p. cbn. case_decide as Hb; [by apply not_elem_of_nil in Hb|done]. }
  destruct Hc as (-> & Hn & m & Hm & Hc). apply NoDup_cons in Hnd as [Hnin Hnd]. cbn [free_chain].
  destruct (Z.eqb_spec a 0); [done|]. rewrite Hm.
  rewrite IH; [|eapply chain_ext; [|exact Hc]; intros c Hc'; rewrite lookup_delete_ne; [done|by intros <-]|done|lia].
  destruct (decide (b = a)) as [->|].
  - rewrite lookup_delete_eq. by case_decide; case_decide; set_solver.
  - rewrite lookup_delete_ne by done. case_decide; case_decide; set_solver.
Qed.

(** ** One queue *)

Definition node_ok (m : msg_message_t) : Prop :=
  0 < mtype m ∧ 0 ≤ msize m ≤ MSGMAX ∧ Z.of_nat (length (mtext m)) = msize m.

(** The size of the node at [a]. *)
Definition size_at (ns : gmap Z msg_message_t) (a : Z) : Z := default 0 (msize <$> ns !! a).

Record queue_ok (ns : gmap Z msg_message_t) (q : msg_queue_t) (l : list Z) : Prop := {
  qo_chain : chain ns (first q) l;
  qo_last : last q = default 0 (list.last l);
  qo_nodup : NoDup l;
  qo_count : msg_count q = Z.of_nat (length l);
  qo_bytes : total_bytes q = zsum (size_at ns) l;
  qo_limits : max_msgs q = 100 ∧ max_bytes q = MSGMNB ∧ msg_count q ≤ 100 ∧ total_bytes q ≤ MSGMNB;
  qo_nodes a m : a ∈ l → ns !! a = Some m → node_ok m }.

Lemma queue_ext ns ns' q l : (∀ a, a ∈ l → ns' !! a = ns !! a) → queue_ok ns q l → queue_ok ns' q l.
Proof.
  intros He [H1 H2 H3 H4 H5 H6 H7]. split; try done.
  - by eapply chain_ext.
  - rewrite H5. apply zsum_ext. intros a Ha. unfold size_at. by rewrite He.
  - intros a m Ha. rewrite He by done. by apply H7.
Qed.

(** The messages of a queue, oldest first: type and text. *)
Definition msg_at (ns : gmap Z msg_message_t) (a : Z) : Z * list Z :=
  match ns !! a with Some m => (mtype m, mtext m) | None => (0, []) end.
Definition messages (ns : gmap Z msg_message_t) (l : list Z) : list (Z * list Z) := msg_at ns <$> l.

Lemma messages_ext ns ns' l : (∀ a, a ∈ l → msg_at ns' a = msg_at ns a) → messages ns' l = messages ns l.
Proof. intros He. apply list_fmap_ext. intros i a Ha. apply He. by apply list_elem_of_lookup_2 in Ha. Qed.

Lemma alter_next_same ns z n a : msg_at (alter (set_next n) z ns) a = msg_at ns a ∧
  size_at (alter (set_next n) z ns) a = size_at ns a ∧
  (∀ m, alter (set_next n) z ns !! a = Some m → ∃ m', ns !! a = Some m' ∧ mtype m = mtype m' ∧ (node_ok m' → node_ok m)).
Proof.
  unfold msg_at, size_at. destruct (decide (a = z)) as [->|].
  - rewrite lookup_alter_eq. destruct (ns !! z) as [m|]; [|done]. cbn. split_and!; try done.
    intros x [= <-]. by exists m.
  - rewrite lookup_alter_ne by done. split_and!; try done. intros m Hm. by exists m.
Qed.

Lemma size_at_nonneg ns q l a : queue_ok ns q l → a ∈ l → 0 ≤ size_at ns a ≤ MSGMAX.
Proof.
  intros Hq Ha. destruct (chain_elem _ _ _ _ (qo_chain _ _ _ Hq) Ha) as [_ [m Hm]].
  unfold size_at. rewrite Hm. cbn. apply (qo_nodes _ _ _ Hq a m Ha Hm).
Qed.

Lemma bytes_nonneg ns q l : queue_ok ns q l → 0 ≤ total_bytes q.
Proof.
  intros Hq. rewrite (qo_bytes _ _ _ Hq). apply zsum_nonneg_in. intros a Ha.
  by apply (size_at_nonneg ns q l a).
Qed.

(** The nodes of the store after an append. *)
Definition appended (ns : gmap Z msg_message_t) (z node : Z) (m : msg_message_t) : gmap Z msg_message_t :=
  if negb (z =? 0) then alter (set_next node) z (<[node := m]> ns) else <[node := m]> ns.

Lemma appended_at ns z node m a : z ≠ node →
  (a ≠ node → msg_at (appended ns z node m) a = msg_at ns a ∧ size_at (appended ns z node m) a = size_at ns a ∧
     (∀ x, appended ns z node m !! a = Some x → ∃ y, ns !! a = Some y ∧ (node_ok y → node_ok x))) ∧
  (a ≠ node → a ≠ z → appended ns z node m !! a = ns !! a) ∧
  appended ns z node m !! node = Some m.
Proof.
  intros Hz. unfold appended. split_and!.
  - intros Hne. assert (Hold : (<[node := m]> ns) !! a = ns !! a) by (by rewrite lookup_insert_ne).
    destruct (negb (z =? 0)).
    + destruct (alter_next_same (<[node := m]> ns) z node a) as (H1 & H2 & H3).
      rewrite H1, H2. unfold msg_at, size_at. rewrite Hold. split_and!; try done.
      intros x (y & Hy & _ & ?)%H3. exists y. by rewrite <- Hold.
    + unfold msg_at, size_at. rewrite Hold. split_and!; try done. eauto.
  - intros Hne Hnz. destruct (negb (z =? 0)); [rewrite lookup_alter_ne by done|]; by rewrite lookup_insert_ne.
  - destruct (negb (z =? 0)); [rewrite lookup_alter_ne by done|]; by rewrite lookup_insert_eq.
Qed.

Lemma append_queue ns qo node m now l : queue_ok ns qo l → ns !! node = None → node ≠ 0 →
  mnext m = 0 → node_ok m → msg_count qo < 100 → total_bytes qo + msize m ≤ MSGMNB →
  let ns' := appended ns (last qo) node m in
  queue_ok ns' (queue_sent qo node (msize m) now) (l ++ [node]) ∧
  messages ns' (l ++ [node]) = messages ns l ++ [(mtype m, mtext m)] ∧
  (∀ a, a ∉ l → a ≠ node → ns' !! a = ns !! a).
Proof.
  intros Hq Hf Hn Hm Hok Hc Hb ns'. pose proof (bytes_nonneg _ _ _ Hq) as Hb0.
  pose proof Hq as [H1 H2 H3 H4 H5 H6 H7].
  assert (Hnin : node ∉ l).
  { intros Hin. destruct (chain_elem _ _ _ _ H1 Hin) as [_ [? ?]]. congruence. }
  assert (Hlast : last qo ≠ node ∧ (l ≠ [] → last qo ∈ l)).
  { rewrite H2. destruct (list.last l) as [z|] eqn:El; cbn.
    - apply last_Some in El as [l0 ->]. split; [set_solver|]. set_solver.
    - apply last_None in El as ->. split; [lia|done]. }
  destruct Hlast as [Hln Hll].
  pose proof (λ a, appended_at ns (last qo) node m a Hln) as Hat. fold ns' in Hat.
  assert (Hneq : ∀ a, a ∈ l → a ≠ node) by (intros a Ha ->; done).
  pose proof (chain_append ns (first qo) l node m H1 H3 Hf Hn Hm) as Hch.
  split_and!.
  - split; cbn [first last msg_count total_bytes max_msgs max_bytes queue_sent].
    + subst ns'. unfold appended. rewrite H2. destruct (list.last l) as [z|] eqn:El; cbn [default from_option id].
      * assert (z ≠ 0) by (apply last_Some in El as [l0 ->]; eapply (chain_elem _ _ _ z H1); set_solver).
        destruct (Z.eqb_spec z 0); [done|]. exact Hch.
      * destruct Hch as [Hch ->]. exact Hch.
    + by rewrite last_snoc.
    + apply NoDup_app. split_and!; [done| |apply NoDup_singleton].
      intros a Ha ->%list_elem_of_singleton. done.
    + rewrite length_app, u32_small; cbn [length]; lia.
    + rewrite zsum_app. change (zsum (size_at ns') [node]) with (size_at ns' node + 0).
      unfold size_at at 2. rewrite (proj2 (proj2 (Hat node))). cbn [fmap option_fmap option_map default from_option id].
      rewrite (zsum_ext (size_at ns') (size_at ns)) by (intros a Ha; by apply Hat, Hneq).
      rewrite <- H5, u64_small; [lia|]. destruct Hok as (_ & ? & _). unfold MSGMNB in *. lia.
    + destruct H6 as (-> & -> & _). rewrite u32_small by lia. destruct Hok as (_ & ? & _).
      rewrite u64_small by (unfold MSGMNB in *; lia). split_and!; [done|done|lia|lia].
    + intros a x [Ha|Ha]%elem_of_app Hx.
      * destruct (proj2 (proj2 (proj1 (Hat a) (Hneq a Ha))) x Hx) as (y & Hy & Himp). apply Himp. by apply (H7 a).
      * apply list_elem_of_singleton in Ha as ->. rewrite (proj2 (proj2 (Hat node))) in Hx. by injection Hx as <-.
  - unfold messages. rewrite fmap_app. f_equal.
    + apply messages_ext. intros a Ha. by apply Hat, Hneq.
    + cbn. unfold msg_at. by rewrite (proj2 (proj2 (Hat node))).
  - intros a Ha Hne. destruct (decide (a = last qo)) as [->|]; [|by apply Hat].
    destruct l as [|b l]; [|by destruct Ha; apply Hll].
    unfold ns', appended. rewrite H2 in *. cbn. by rewrite lookup_insert_ne.
Qed.

(** The nodes of the store after [m] is unlinked from behind [prev]. *)
Definition unlinked (ns : gmap Z msg_message_t) (prev m : Z) (x : msg_message_t) : gmap Z msg_message_t :=
  delete m (if negb (prev =? 0) then alter (set_next (mnext x)) prev ns else ns).

Lemma unlinked_at ns prev m x a : a ≠ m →
  msg_at (unlinked ns prev m x) a = msg_at ns a ∧ size_at (unlinked ns prev m x) a = size_at ns a ∧
  (∀ y, unlinked ns prev m x !! a = Some y → ∃ y', ns !! a = Some y' ∧ (node_ok y' → node_ok y)) ∧
  (a ≠ prev ∨ prev = 0 → unlinked ns prev m x !! a = ns !! a).
Proof.
  intros Hne. unfold unlinked. set (ns1 := if negb (prev =? 0) then _ else _).
  assert (Hd : delete m ns1 !! a = ns1 !! a) by (by rewrite lookup_delete_ne).
  unfold msg_at, size_at. rewrite Hd. subst ns1. destruct (Z.eqb_spec prev 0) as [->|Hp]; cbn [negb].
  - split_and!; try done. eauto.
  - destruct (alter_next_same ns prev (mnext x) a) as (H1 & H2 & H3). unfold msg_at, size_at in H1, H2.
    rewrite H1, H2. split_and!; try done.
    + intros y (y' & Hy & _ & ?)%H3. eauto.
    + intros [Ha|?]; [|done]. by rewrite lookup_alter_ne.
Qed.

Lemma zsum_mid {A} (f : A → Z) l1 x l2 : zsum f (l1 ++ x :: l2) = f x + zsum f (l1 ++ l2).
Proof. rewrite !zsum_app, zsum_cons. lia. Qed.

Lemma last_mid {A} (l1 l2 : list A) x : list.last (l1 ++ x :: l2) = Some x → NoDup (l1 ++ x :: l2) → l2 = [].
Proof.
  intros Hl Hnd. destruct l2 as [|y l2 _] using rev_ind; [done|]. exfalso.
  rewrite app_comm_cons, app_assoc, last_snoc in Hl. injection Hl as ->.
  apply NoDup_app in Hnd as (_ & _ & [Hn _]%NoDup_cons). set_solver.
Qed.

Lemma unlink_queue ns qo now l1 m x l2 : queue_ok ns qo (l1 ++ m :: l2) → ns !! m = Some x →
  let prev := default 0 (list.last l1) in
  let ns' := unlinked ns prev m x in
  queue_ok ns' (queue_received qo prev m x now) (l1 ++ l2) ∧
  messages ns' (l1 ++ l2) = messages ns l1 ++ messages ns l2 ∧
  (∀ a, a ∉ l1 ++ m :: l2 → ns' !! a = ns !! a).
Proof.
  intros Hq Hx prev ns'. pose proof (bytes_nonneg _ _ _ Hq) as Hb0.
  pose proof Hq as [H1 H2 H3 H4 H5 H6 H7].
  pose proof (chain_unlink ns (first qo) l1 m x l2 H1 H3 Hx) as Hch.
  assert (Hmnin : m ∉ l1 ++ l2).
  { apply NoDup_app_cons_mid in H3 as [? _]. done. }
  assert (Hnd' : NoDup (l1 ++ l2)) by (by apply NoDup_app_cons_mid in H3 as [_ ?]).
  assert (Hne : ∀ a, a ∈ l1 ++ l2 → a ≠ m) by (intros a Ha ->; done).
  pose proof (λ a Ha, unlinked_at ns prev m x a Ha) as Hat. fold ns' in Hat.
  assert (Hprev : match list.last l1 with Some z => prev = z ∧ z ≠ 0 ∧ z ∈ l1 | None => prev = 0 end).
  { subst prev. destruct (list.last l1) as [z|] eqn:El; [|done]. split; [done|].
    assert (z ∈ l1) by (apply last_Some in El as [l0 ->]; set_solver). split; [|done].
    eapply (chain_elem _ _ _ z H1). set_solver. }
  assert (Hm0 : m ≠ 0) by (eapply (chain_elem _ _ _ m H1); set_solver).
  assert (Hsm : size_at ns m = msize x) by (unfold size_at; by rewrite Hx).
  assert (Hxm : 0 ≤ msize x) by (pose proof (size_at_nonneg ns qo _ m Hq ltac:(set_solver)); lia).
  assert (Hsum : total_bytes qo - msize x = zsum (size_at ns) (l1 ++ l2)) by (rewrite H5, zsum_mid, Hsm; lia).
  assert (Hsum0 : 0 ≤ zsum (size_at ns) (l1 ++ l2)).
  { apply zsum_nonneg_in. intros a Ha. apply (size_at_nonneg ns qo _ a Hq). set_solver. }
  assert (Hlen : msg_count qo - 1 = Z.of_nat (length (l1 ++ l2))).
  { rewrite H4, !length_app. cbn [length]. lia. }
  split_and!.
  - split; cbn [first last msg_count total_bytes max_msgs max_bytes queue_received].
    + subst ns'. unfold unlinked. destruct (list.last l1) as [z|] eqn:El.
      * destruct Hprev as (-> & Hz & _). destruct (Z.eqb_spec z 0); [done|]. exact Hch.
      * rewrite Hprev. destruct Hch as (Hch & -> & _). exact Hch.
    + rewrite H2. destruct (Z.eqb_spec (default 0 (list.last (l1 ++ m :: l2))) m) as [He|Hn].
      * destruct (list.last (l1 ++ m :: l2)) as [z|] eqn:El; cbn in He; [|done]. subst z.
        rewrite (last_mid l1 l2 m El H3), app_nil_r. done.
      * destruct l2 as [|y l2 _] using rev_ind; [by rewrite last_snoc in Hn|].
        rewrite app_comm_cons, !app_assoc, !last_snoc. done.
    + done.
    + rewrite Hlen, u32_small; [done|]. lia.
    + rewrite Hsum, u64_small by (destruct H6 as (_ & _ & _ & ?); unfold MSGMNB in *; lia).
      symmetry. apply zsum_ext. intros a Ha. by apply Hat, Hne.
    + destruct H6 as (-> & -> & ? & ?). rewrite u32_small, u64_small by (unfold MSGMNB in *; lia).
      split_and!; [done|done|lia|lia].
    + intros a y Ha Hy. destruct (proj1 (proj2 (proj2 (Hat a (Hne a Ha)))) y Hy) as (y' & Hy' & Himp).
      apply Himp, (H7 a y'); [set_solver|done].
  - rewrite messages_ext with (ns := ns) by (intros a Ha; by apply Hat, Hne).
    unfold messages. by rewrite fmap_app.
  - intros a Ha. apply Hat; [set_solver|]. destruct (list.last l1) as [z|] eqn:El.
    + destruct Hprev as (-> & _ & Hz). left. set_solver.
    + by right.
Qed.

End MsgInv.
