(* ===== verification/MsgProps.v ===== *)
(** * Message queues: reachable states and the properties

    Every system call, with [msgget] split at the point where it drops the
    lock, keeps the tables and the chains consistent; send and receive refine a
    FIFO queue with a count and a byte limit. *)

From S2P Require Import Prelude Bytes MsgQueue MsgKeys MsgInv.

Module MsgProps.
Import MsgQueue MsgKeys MsgInv.

(** ** The invariant *)

(** The published queues. *)
Definition live (s : mq_state) : list Z := filter (λ a, a ≠ 0) (id_table s).

Record tables_ok (s : mq_state) : Prop := {
  tk_ids : length (id_table s) = 256%nat;
  tk_next : 1 ≤ next_msg_id s ≤ 256;
  tk_id i a : id_table s !! i = Some a → a ≠ 0 →
    1 < a ∧ ∃ q, queues s !! a = Some q ∧ qid q = Z.of_nat i + 1;
  tk_keys : kt_ok (key_of s) (live s) (key_table s);
  tk_unique a b : a ∈ live s → b ∈ live s → key_of s a = key_of s b → key_of s a ≠ 0 → a = b }.

(** The chains of the queues [qs], which share no node. *)
Record chains_ok (s : mq_state) (L : Z → list Z) (qs : list Z) : Prop := {
  ck_queue a : a ∈ qs → ∃ q, queues s !! a = Some q ∧ queue_ok (nodes s) q (L a);
  ck_disjoint a b x : a ∈ qs → b ∈ qs → x ∈ L a → x ∈ L b → a = b }.

Definition mq_inv (s : mq_state) : Prop := tables_ok s ∧ ∃ L, chains_ok s L (live s).

Lemma elem_live s a : a ∈ live s ↔ a ≠ 0 ∧ a ∈ id_table s.
Proof. unfold live. by rewrite list_elem_of_filter. Qed.

Lemma live_pos s a : tables_ok s → a ∈ live s → 1 < a ∧ ∃ i q, id_table s !! i = Some a ∧
  queues s !! a = Some q ∧ qid q = Z.of_nat i + 1 ∧ (i < 256)%nat.
Proof.
  intros Ht [Hn (i & Hi)%list_elem_of_lookup]%elem_live. destruct (tk_id s Ht i a Hi Hn) as (H1 & q & Hq & Hid).
  split; [done|]. exists i, q. split_and!; try done. apply lookup_lt_Some in Hi. by rewrite (tk_ids s Ht) in Hi.
Qed.

Lemma live_length s : tables_ok s → (length (live s) ≤ 256)%nat.
Proof. intros Ht. unfold live. rewrite <- (tk_ids s Ht). apply length_filter. Qed.

(** The id table is a partial injection. *)
Lemma id_inj s i j a : tables_ok s → id_table s !! i = Some a → id_table s !! j = Some a → a ≠ 0 → i = j.
Proof.
  intros Ht Hi Hj Hn. destruct (tk_id s Ht i a Hi Hn) as (_ & q & Hq & ?).
  destruct (tk_id s Ht j a Hj Hn) as (_ & q' & Hq' & ?). assert (q = q') by congruence. subst. lia.
Qed.

Lemma find_by_id_live s id : tables_ok s → msg_find_by_id id s ≠ 0 →
  msg_find_by_id id s ∈ live s ∧ 1 ≤ id ≤ 256 ∧
  id_table s !! Z.to_nat (id - 1) = Some (msg_find_by_id id s).
Proof.
  intros Ht. unfold msg_find_by_id, MQ_TABLE_SIZE. destruct (Z.leb_spec id 0); cbn [orb]; [done|].
  destruct (Z.ltb_spec 256 id); [done|].
  destruct (id_table s !! Z.to_nat (id - 1)) as [a|] eqn:E; cbn; [|done]. intros Hn.
  split_and!; [|lia|lia|done]. apply elem_live. split; [done|]. by apply list_elem_of_lookup_2 in E.
Qed.

(** Changing one live queue's fields, but not its id or key. *)
Lemma tables_update s a q q' ns : tables_ok s → queues s !! a = Some q → qid q' = qid q → key q' = key q →
  tables_ok (MqState (<[a := q']> (queues s)) ns (id_table s) (key_table s) (next_msg_id s)).
Proof.
  intros [H1 H2 H3 H4 H5] Ha Hid Hkey. set (s' := MqState _ _ _ _ _).
  assert (Hk : ∀ b, key_of s' b = key_of s b).
  { intros b. unfold key_of. cbn. destruct (decide (a = b)) as [<-|].
    - rewrite lookup_insert_eq, Ha. cbn. done.
    - by rewrite lookup_insert_ne. }
  split; cbn [id_table key_table next_msg_id queues s']; try done.
  - intros i b Hi Hb. destruct (H3 i b Hi Hb) as (Hb1 & qb & Hqb & Hidb). split; [done|].
    destruct (decide (a = b)) as [<-|].
    + exists q'. rewrite lookup_insert_eq. split; [done|]. rewrite Hid. by simplify_eq.
    + exists qb. by rewrite lookup_insert_ne.
  - eapply kt_ext; [exact H4|done|..]; intros b; change (live s') with (live s); auto.
  - intros b c Hb Hc. rewrite !Hk. by apply H5.
Qed.

(** Replacing the chain of queue [a] by [l']. *)
Definition set_chain (L : Z → list Z) (a : Z) (l' : list Z) (b : Z) : list Z :=
  if b =? a then l' else L b.

Lemma set_chain_eq L a l' : set_chain L a l' a = l'.
Proof. unfold set_chain. by rewrite Z.eqb_refl. Qed.

Lemma set_chain_ne L a l' b : b ≠ a → set_chain L a l' b = L b.
Proof. intros. unfold set_chain. by destruct (Z.eqb_spec b a). Qed.

Lemma chains_update s L qs a q' ns' l' ids kt nx : chains_ok s L qs → a ∈ qs →
  queue_ok ns' q' l' → (∀ x, x ∉ L a → x ∉ l' → ns' !! x = nodes s !! x) →
  (∀ b x, b ∈ qs → b ≠ a → x ∈ L b → x ∉ l') →
  chains_ok (MqState (<[a := q']> (queues s)) ns' ids kt nx) (set_chain L a l') qs.
Proof.
  intros [H1 H2] Ha Hq Hns Hdis. split.
  - intros b Hb. cbn [queues nodes]. destruct (decide (a = b)) as [<-|Hne].
    + exists q'. rewrite lookup_insert_eq, set_chain_eq. done.
    + rewrite lookup_insert_ne, set_chain_ne by done. destruct (H1 b Hb) as (q & Hqb & Hok).
      exists q. split; [done|]. eapply queue_ext; [|exact Hok]. intros x Hx. apply Hns.
      * intros Hxa. by specialize (H2 a b x Ha Hb Hxa Hx).
      * by apply (Hdis b).
  - intros b c x Hb Hc. destruct (decide (b = a)) as [->|]; destruct (decide (c = a)) as [->|]; [done|..].
    + rewrite set_chain_eq, set_chain_ne by done. intros Hx Hxc. by destruct (Hdis c x Hc).
    + rewrite set_chain_ne, set_chain_eq by done. intros Hx Hxc. by destruct (Hdis b x Hb).
    + rewrite !set_chain_ne by done. by apply H2.
Qed.

(** ** msgsnd *)

Lemma append_node_eq a qo node m now s :
  append_node a qo node m now s =
  MqState (<[a := queue_sent qo node (msize m) now]> (queues s)) (appended (nodes s) (last qo) node m)
    (id_table s) (key_table s) (next_msg_id s).
Proof. unfold append_node, appended. by destruct (negb (last qo =? 0)). Qed.

Lemma append_inv s L a qo node m now : tables_ok s → chains_ok s L (live s) → a ∈ live s →
  queues s !! a = Some qo → nodes s !! node = None → node ≠ 0 → mnext m = 0 → node_ok m →
  msg_count qo < 100 → total_bytes qo + msize m ≤ MSGMNB →
  let s' := append_node a qo node m now s in
  let L' := set_chain L a (L a ++ [node]) in
  tables_ok s' ∧ chains_ok s' L' (live s') ∧
  messages (nodes s') (L' a) = messages (nodes s) (L a) ++ [(mtype m, mtext m)].
Proof.
  intros Ht Hc Ha Hqo Hf Hn Hm Hok Hcnt Hb s' L'. subst s'. rewrite append_node_eq.
  destruct (ck_queue _ _ _ Hc a Ha) as (q & Hq & Hqok). assert (q = qo) as -> by congruence.
  destruct (append_queue (nodes s) qo node m now (L a) Hqok Hf Hn Hm Hok Hcnt Hb) as (H1 & H2 & H3).
  split_and!.
  - by eapply tables_update.
  - apply chains_update; [done|done|done| |].
    + intros x Hx1 Hx2. apply H3; [done|]. set_solver.
    + intros b x Hb' Hne Hx [Hxa|Hxa]%elem_of_app.
      * apply Hne. by eapply (ck_disjoint _ _ _ Hc).
      * apply list_elem_of_singleton in Hxa as ->. destruct (ck_queue _ _ _ Hc b Hb') as (qb & _ & Hqb).
        destruct (chain_elem _ _ _ _ (qo_chain _ _ _ Hqb) Hx) as [_ [? ?]]. congruence.
  - subst L'. rewrite set_chain_eq. cbn [nodes]. exact H2.
Qed.

(** ** msgrcv *)

Lemma unlink_node_eq a qo prev m x now s :
  unlink_node a qo prev m x now s =
  MqState (<[a := queue_received qo prev m x now]> (queues s)) (unlinked (nodes s) prev m x)
    (id_table s) (key_table s) (next_msg_id s).
Proof. unfold unlink_node, unlinked. by destruct (negb (prev =? 0)). Qed.

Lemma unlink_inv s L a qo l1 m l2 x now : tables_ok s → chains_ok s L (live s) → a ∈ live s →
  queues s !! a = Some qo → L a = l1 ++ m :: l2 → nodes s !! m = Some x →
  let s' := unlink_node a qo (default 0 (list.last l1)) m x now s in
  let L' := set_chain L a (l1 ++ l2) in
  tables_ok s' ∧ chains_ok s' L' (live s') ∧
  messages (nodes s') (L' a) = messages (nodes s) l1 ++ messages (nodes s) l2.
Proof.
  intros Ht Hc Ha Hqo HL Hx s' L'. subst s'. rewrite unlink_node_eq.
  destruct (ck_queue _ _ _ Hc a Ha) as (q & Hq & Hqok). assert (q = qo) as -> by congruence.
  rewrite HL in Hqok. destruct (unlink_queue (nodes s) qo now l1 m x l2 Hqok Hx) as (H1 & H2 & H3).
  split_and!.
  - by eapply tables_update.
  - apply chains_update; [done|done|done| |].
    + intros y Hy1 Hy2. apply H3. by rewrite <- HL.
    + intros b y Hb Hne Hy Hin. apply Hne. eapply (ck_disjoint _ _ _ Hc); [done|done|exact Hy|].
      rewrite HL. set_solver.
  - subst L'. rewrite set_chain_eq. exact H2.
Qed.

(** ** msgget *)

(** The cursor's position after [k] steps from [start]. *)
Definition cursor (start k : Z) : Z := (start - 1 + k) mod 256 + 1.

Lemma cursor_step start k : 1 ≤ start ≤ 256 → 0 ≤ k →
  (if MQ_TABLE_SIZE <? cursor start k + 1 then 1 else cursor start k + 1) = cursor start (k + 1).
Proof.
  intros Hs Hk. unfold cursor, MQ_TABLE_SIZE. zcase; divlia.
Qed.

Lemma reserve_loop_spec fuel ids start k : 1 ≤ start ≤ 256 → 0 ≤ k → k + Z.of_nat fuel = 256 → (0 < fuel)%nat →
  length ids = 256%nat →
  match reserve_loop fuel ids start (cursor start k) with
  | Some id => 1 ≤ id ≤ 256 ∧ ids !! Z.to_nat (id - 1) = Some 0
  | None => ∀ j, k ≤ j < 256 → ids !! Z.to_nat (cursor start j - 1) ≠ Some 0
  end.
Proof.
  intros Hs. revert k. induction fuel as [|fuel IH]; intros k Hk Hf Hf0 Hl; [lia|]. cbn [reserve_loop].
  assert (Hc : 1 ≤ cursor start k ≤ 256) by (unfold cursor; pose proof (Z.mod_pos_bound (start - 1 + k) 256); lia).
  destruct (lookup_lt_is_Some_2 ids (Z.to_nat (cursor start k - 1))) as [e He]; [lia|]. rewrite He. cbn [default from_option id].
  destruct (Z.eqb_spec e 0) as [->|Hne]; [by split_and!; try lia|].
  rewrite cursor_step by lia. destruct (Z.eqb_spec (cursor start (k + 1)) start) as [Hw|Hw].
  - intros j Hj. assert (k = 255).
    { unfold cursor in Hw. assert ((start - 1 + (k + 1)) mod 256 = start - 1) by lia.
      pose proof (Z.div_mod (start - 1 + (k + 1)) 256). lia. }
    replace j with k by lia. rewrite He. congruence.
  - assert (k < 255).
    { destruct (decide (k = 255)) as [->|]; [|lia]. exfalso. apply Hw. unfold cursor.
      replace (start - 1 + (255 + 1)) with (start - 1 + 1 * 256) by lia. rewrite Z_mod_plus_full, Z.mod_small by lia. lia. }
    specialize (IH (k + 1) ltac:(lia) ltac:(lia) ltac:(lia) Hl).
    destruct (reserve_loop fuel ids start (cursor start (k + 1))); [done|].
    intros j Hj. destruct (decide (j = k)) as [->|]; [rewrite He; congruence|]. apply IH. lia.
Qed.

(** The search finds a free id, or the table is full. *)
Lemma reserve_spec s : tables_ok s →
  match reserve_loop 256 (id_table s) (next_msg_id s) (next_msg_id s) with
  | Some id => 1 ≤ id ≤ 256 ∧ id_table s !! Z.to_nat (id - 1) = Some 0
  | None => 0 ∉ id_table s
  end.
Proof.
  intros Ht. pose proof (tk_next s Ht) as Hn.
  pose proof (reserve_loop_spec 256 (id_table s) (next_msg_id s) 0 Hn ltac:(lia) ltac:(lia) ltac:(lia) (tk_ids s Ht)) as H.
  assert (Hc : cursor (next_msg_id s) 0 = next_msg_id s).
  { unfold cursor. rewrite Z.mod_small by lia. lia. }
  rewrite Hc in H. destruct (reserve_loop _ _ _ _); [done|].
  intros (i & Hi)%list_elem_of_lookup. pose proof (lookup_lt_Some _ _ _ Hi) as Hlt. rewrite (tk_ids s Ht) in Hlt.
  apply (H ((Z.of_nat i - (next_msg_id s - 1)) mod 256)); [pose proof (Z.mod_pos_bound (Z.of_nat i - (next_msg_id s - 1)) 256); lia|].
  unfold cursor. rewrite Zplus_mod_idemp_r.
  replace (next_msg_id s - 1 + (Z.of_nat i - (next_msg_id s - 1))) with (Z.of_nat i) by lia.
  rewrite Z.mod_small by lia. replace (Z.to_nat (Z.of_nat i + 1 - 1)) with i by lia. done.
Qed.

Lemma tables_next s n : tables_ok s → 1 ≤ n ≤ 256 → tables_ok (with_next n s).
Proof. intros [H1 H2 H3 H4 H5] Hn. by split. Qed.

Lemma find_by_key_spec s k : tables_ok s → k ≠ 0 →
  (msg_find_by_key k s ≠ 0 → msg_find_by_key k s ∈ live s ∧ key_of s (msg_find_by_key k s) = k) ∧
  (∀ a, a ∈ live s → key_of s a = k → msg_find_by_key k s = a).
Proof.
  intros Ht Hk. unfold msg_find_by_key. destruct (Z.eqb_spec k IPC_PRIVATE); [done|].
  apply find_spec; [apply Ht|done|apply Ht|]. intros a Ha. by apply (live_pos s a Ht).
Qed.

Lemma reserve_inv k flags s : tables_ok s →
  tables_ok (fst (msgget_reserve k flags s)) ∧
  queues (fst (msgget_reserve k flags s)) = queues s ∧ nodes (fst (msgget_reserve k flags s)) = nodes s ∧
  live (fst (msgget_reserve k flags s)) = live s ∧
  ∀ id, snd (msgget_reserve k flags s) = inr id → 1 ≤ id ≤ 256.
Proof.
  intros Ht. unfold msgget_reserve. cbv zeta.
  destruct (negb _ && negb _); [destruct (negb _); by split_and!|]. destruct (negb _ && _); [by split_and!|].
  pose proof (tk_next s Ht) as Hn. unfold MQ_TABLE_SIZE. destruct (Z.ltb_spec 256 (next_msg_id s)); [lia|].
  pose proof (reserve_spec s Ht) as Hr. destruct (reserve_loop _ _ _ _) as [id|]; cbn [fst snd].
  - destruct Hr as [Hr _]. split_and!; [by apply tables_next|done..|]. by intros ? [= <-].
  - split_and!; [by apply tables_next|done..].
Qed.

(** Publishing a fresh queue in a free slot. *)
Lemma publish_inv s L id k flags now c a : tables_ok s → chains_ok s L (live s) → 1 ≤ id ≤ 256 →
  1 < a → queues s !! a = None → id_table s !! Z.to_nat (id - 1) = Some 0 →
  (k ≠ 0 → ∀ b, b ∈ live s → key_of s b ≠ k) →
  let s1 := with_ids <[Z.to_nat (id - 1) := a]> (with_queues <[a := new_queue id k flags now c]> s) in
  let s' := key_table_insert a s1 in
  (∀ b, b ∈ live s' ↔ b = a ∨ b ∈ live s) ∧ tables_ok s' ∧ chains_ok s' (set_chain L a []) (live s').
Proof.
  intros Ht Hc Hid Ha Hfresh Hslot Hkey s1 s'.
  assert (Hlt : (Z.to_nat (id - 1) < length (id_table s))%nat) by (rewrite (tk_ids s Ht); lia).
  assert (Hnl : a ∉ live s).
  { intros Hl. destruct (live_pos s a Ht Hl) as (_ & i & q & _ & Hq & _). congruence. }
  assert (Hids : id_table s' = <[Z.to_nat (id - 1) := a]> (id_table s)).
  { subst s'. unfold key_table_insert. by destruct (_ =? _). }
  assert (Hqs : queues s' = <[a := new_queue id k flags now c]> (queues s)).
  { subst s'. unfold key_table_insert. by destruct (_ =? _). }
  assert (Hlive : ∀ b, b ∈ live s' ↔ b = a ∨ b ∈ live s).
  { intros b. rewrite !elem_live, Hids, !list_elem_of_lookup. split.
    - intros [Hb (i & [(_ & <- & _)|[_ Hi]]%list_lookup_insert_Some)]; [by left|]. right. eauto.
    - intros [->|[Hb (i & Hi)]].
      + split; [lia|]. exists (Z.to_nat (id - 1)). by rewrite list_lookup_insert_eq.
      + split; [done|]. exists i. rewrite list_lookup_insert_ne; [done|]. intros <-. congruence. }
  assert (Hka : key_of s1 a = k) by (unfold key_of; cbn; by rewrite lookup_insert_eq).
  assert (Hkb : ∀ b, b ∈ live s → key_of s1 b = key_of s b).
  { intros b Hb. unfold key_of. cbn. rewrite lookup_insert_ne; [done|]. by intros ->. }
  assert (Hks : ∀ b, key_of s' b = key_of s1 b).
  { intros b. subst s'. unfold key_table_insert. by destruct (_ =? _). }
  assert (Hkt : kt_ok (key_of s') (live s') (key_table s')).
  { assert (Hbase : kt_ok (key_of s1) (a :: live s) (key_table s')).
    { subst s'. unfold key_table_insert. rewrite Hka. destruct (Z.eqb_spec k IPC_PRIVATE) as [->|Hk0].
      - eapply kt_ext; [apply Ht|done|by right|]. intros b [->|Hb]%elem_of_cons Hb0; [by rewrite Hka in Hb0|done].
      - cbn [key_table with_keys]. rewrite <- Hka.
        apply (insert_ok (key_of s)); [apply Ht|by apply live_length|done|done|by rewrite Hka|].
        intros b Hb. split; [by apply Hkb|by apply (live_pos s b Ht)]. }
    eapply kt_ext; [exact Hbase|by intros; rewrite Hks|..]; intros b; rewrite Hlive, elem_of_cons; auto. }
  split; [done|]. split.
  - split.
    + by rewrite Hids, length_insert, (tk_ids s Ht).
    + subst s'. unfold key_table_insert. destruct (_ =? _); apply Ht.
    + intros i b Hi Hb. rewrite Hids in Hi. rewrite Hqs.
      apply list_lookup_insert_Some in Hi as [(<- & <- & _)|[Hne Hi]].
      * split; [done|]. exists (new_queue id k flags now c). rewrite lookup_insert_eq. cbn. split; [done|lia].
      * destruct (tk_id s Ht i b Hi Hb) as (Hb1 & q & Hq & Hidq). split; [done|]. exists q.
        rewrite lookup_insert_ne; [done|]. intros ->. congruence.
    + exact Hkt.
    + intros b d Hb Hd. rewrite !Hks. apply Hlive in Hb as [->|Hb], Hd as [->|Hd]; [done|..].
      * rewrite Hka, (Hkb d Hd). intros Hkd Hk0. by destruct (Hkey Hk0 d Hd).
      * rewrite Hka, (Hkb b Hb). intros Hkd Hk0. rewrite Hkd in Hk0. by destruct (Hkey Hk0 b Hb).
      * rewrite !Hkb by done. by apply Ht.
  - assert (Hns : nodes s' = nodes s) by (subst s'; unfold key_table_insert; by destruct (_ =? _)).
    split.
    + intros b [->|Hb]%Hlive; rewrite Hqs, Hns.
      * exists (new_queue id k flags now c). rewrite lookup_insert_eq, set_chain_eq. split; [done|].
        split; cbn; try done; [constructor|]. by intros x m ?%not_elem_of_nil.
      * assert (b ≠ a) by (by intros ->). rewrite set_chain_ne, lookup_insert_ne by done. by apply Hc.
    + intros b d x [->|Hb]%Hlive [->|Hd]%Hlive; [done|..].
      * rewrite set_chain_eq. by intros ?%not_elem_of_nil.
      * rewrite (set_chain_eq L a []). by intros _ ?%not_elem_of_nil.
      * rewrite !set_chain_ne by (by intros ->). by apply Hc.
Qed.

(** ** Removal *)

Lemma unpublish_inv s i a : tables_ok s → id_table s !! i = Some a → a ≠ 0 →
  let s' := key_table_remove a (with_ids <[i := 0]> s) in
  tables_ok s' ∧ queues s' = queues s ∧ nodes s' = nodes s ∧ (∀ b, b ∈ live s' ↔ b ∈ live s ∧ b ≠ a).
Proof.
  intros Ht Hi Ha s'. set (s1 := with_ids <[i := 0]> s).
  assert (Hf : queues s' = queues s ∧ nodes s' = nodes s ∧ id_table s' = <[i := 0]> (id_table s) ∧
               next_msg_id s' = next_msg_id s).
  { subst s'. unfold key_table_remove. by destruct (_ =? _). }
  destruct Hf as (Hq & Hn & Hids & Hnext).
  assert (Hl : a ∈ live s) by (apply elem_live; split; [done|by apply list_elem_of_lookup_2 in Hi]).
  assert (Hlive : ∀ b, b ∈ live s' ↔ b ∈ live s ∧ b ≠ a).
  { intros b. rewrite !elem_live, Hids, !list_elem_of_lookup. split.
    - intros [Hb (j & [(_ & <- & _)|[Hne Hj]]%list_lookup_insert_Some)]; [done|]. split; [eauto|].
      intros ->. apply Hne. by eapply id_inj.
    - intros [[Hb (j & Hj)] Hne]. split; [done|]. exists j. rewrite list_lookup_insert_ne; [done|].
      intros <-. congruence. }
  assert (Hk : ∀ b, key_of s' b = key_of s b) by (intros b; unfold key_of; by rewrite Hq).
  destruct (live_pos s a Ht Hl) as (Ha1 & _).
  split_and!; [|done|done|done]. split.
  - by rewrite Hids, length_insert, (tk_ids s Ht).
  - rewrite Hnext. apply Ht.
  - intros j b Hj Hb. rewrite Hids in Hj. rewrite Hq.
    apply list_lookup_insert_Some in Hj as [(_ & <- & _)|[_ Hj]]; [done|]. by apply (tk_id s Ht).
  - eapply (kt_ext (key_of s) _ (live s')); [|done|done|done].
    assert (Hkt : key_table s' = if key_of s a =? IPC_PRIVATE then key_table s
                    else remove_loop 512 (mq_key_hash (key_of s a)) 0 a (key_table s)).
    { subst s'. unfold key_table_remove. change (key_of s1 a) with (key_of s a). by destruct (_ =? _). }
    rewrite Hkt. destruct (Z.eqb_spec (key_of s a) IPC_PRIVATE) as [Hp|Hp].
    + apply (kt_ext (key_of s) _ (live s)); [apply (tk_keys s Ht)|done|..].
      * intros b Hb Hb0. apply Hlive. split; [done|]. by intros ->.
      * by intros b [? _]%Hlive.
    + by apply (remove_ok _ (live s)); [apply (tk_keys s Ht)|..].
  - intros b c [Hb _]%Hlive [Hc _]%Hlive. rewrite !Hk. by apply Ht.
Qed.

Lemma free_queue_chains s L qs qs' a qo : chains_ok s L qs → a ∈ qs → queues s !! a = Some qo →
  (∀ b, b ∈ qs' → b ∈ qs ∧ b ≠ a) → chains_ok (free_queue a qo s) L qs'.
Proof.
  intros [H1 H2] Ha Hqo Hqs. destruct (H1 a Ha) as (q & Hq & Hok). assert (q = qo) as -> by congruence.
  pose proof (chain_length _ _ _ (qo_chain _ _ _ Hok) (qo_nodup _ _ _ Hok)) as Hlen.
  assert (Hns : ∀ x, nodes (free_queue a qo s) !! x = if decide (x ∈ L a) then None else nodes s !! x).
  { intros x. change (nodes (free_queue a qo s)) with (free_chain (S (size_nodes s)) (first qo) (nodes s)).
    apply free_chain_lookup; [apply Hok|apply Hok|unfold size_nodes; lia]. }
  split.
  - intros b Hb. destruct (Hqs b Hb) as [Hbq Hne]. destruct (H1 b Hbq) as (qb & Hqb & Hokb). exists qb.
    split; [cbn [free_queue queues with_queues with_nodes]; by rewrite lookup_delete_ne|]. eapply queue_ext; [|exact Hokb].
    intros x Hx. rewrite Hns. case_decide as Hxa; [|done]. by destruct Hne; eapply H2.
  - intros b c x [Hb _]%Hqs [Hc _]%Hqs. by apply H2.
Qed.

Lemma free_queue_tables s a qo : tables_ok s → a ∉ live s → tables_ok (free_queue a qo s).
Proof.
  intros [H1 H2 H3 H4 H5] Ha. change (live s) with (live (free_queue a qo s)) in Ha.
  assert (Hk : ∀ b, b ∈ live s → key_of (free_queue a qo s) b = key_of s b).
  { intros b Hb. unfold key_of. cbn [free_queue queues with_queues with_nodes].
    rewrite lookup_delete_ne; [done|]. by intros ->. }
  split; try done.
  - intros i b Hi Hb. destruct (H3 i b Hi Hb) as (Hb1 & q & Hq & Hid). split; [done|]. exists q.
    cbn [free_queue queues with_queues with_nodes].
    rewrite lookup_delete_ne; [done|]. intros ->. apply Ha, elem_live. split; [done|].
    by apply list_elem_of_lookup_2 in Hi.
  - eapply kt_ext; [exact H4|done|done|done].
  - intros b c Hb Hc. rewrite !Hk by done. by apply H5.
Qed.

Lemma ctl_inv msqid cmd cur s : mq_inv s → mq_inv (fst (sys_msgctl msqid cmd cur s)).
Proof.
  intros [Ht [L Hc]]. unfold sys_msgctl. destruct cur as [c|]; [|by split; [|exists L]]. cbv zeta. set (id := i32 msqid).
  destruct (queues s !! msg_find_by_id id s) as [qo|] eqn:Hq; [|by split; [|exists L]].
  destruct (Z.eqb_spec (msg_find_by_id id s) 0) as [|Hn]; [by split; [|exists L]|].
  destruct (i32 cmd =? IPC_RMID); [|destruct (_ || _); by split; [|exists L]].
  destruct (negb _ && _); [by split; [|exists L]|]. cbn [fst].
  destruct (find_by_id_live s id Ht Hn) as (Hl & Hid & Hlk). set (a := msg_find_by_id id s) in *.
  assert (Hqid : Z.to_nat (qid qo - 1) = Z.to_nat (id - 1)).
  { destruct (tk_id s Ht _ a Hlk Hn) as (_ & q & Hq' & ?). assert (q = qo) as -> by congruence. lia. }
  rewrite Hqid. destruct (unpublish_inv s _ a Ht Hlk Hn) as (Ht1 & Hq1 & Hn1 & Hl1).
  set (s1 := key_table_remove a _) in *. split; [apply free_queue_tables; [done|]|].
  - intros [_ ?]%Hl1. done.
  - exists L. eapply (free_queue_chains _ L (live s)); [|done|by rewrite Hq1|].
    + destruct Hc as [Hc1 Hc2]. split; [|done]. intros b Hb. rewrite Hq1, Hn1. by apply Hc1.
    + intros b Hb. change (live (free_queue a qo s1)) with (live s1) in Hb. by apply Hl1.
Qed.

(** The sweep of [msg_cleanup_process]: what is unpublished and not yet freed. *)
Definition sweep_ok (s : mq_state) (acc : mq_state * list (Z * msg_queue_t)) : Prop :=
  let '(s', work) := acc in
  tables_ok s' ∧ queues s' = queues s ∧ nodes s' = nodes s ∧ (∀ b, b ∈ live s' → b ∈ live s) ∧
  NoDup work.*1 ∧ ∀ a qo, (a, qo) ∈ work → a ∈ live s ∧ a ∉ live s' ∧ queues s !! a = Some qo.

Lemma cleanup_one_ok pid s acc i : sweep_ok s acc → sweep_ok s (cleanup_one pid acc i).
Proof.
  destruct acc as [s' work]. intros (Ht & Hq & Hn & Hl & Hnd & Hw). unfold cleanup_one.
  destruct (id_table s' !! i) as [a|] eqn:Hi; cbn [default from_option id].
  2:{ destruct (queues s' !! 0); [|done]. cbn. done. }
  destruct (queues s' !! a) as [qo|] eqn:Hqa; [|done].
  destruct (Z.eqb_spec a 0) as [|Ha]; cbn [orb]; [done|]. destruct (negb _); [done|].
  destruct (unpublish_inv s' i a Ht Hi Ha) as (Ht1 & Hq1 & Hn1 & Hl1). set (s1 := key_table_remove a _) in *.
  assert (Hal : a ∈ live s') by (apply elem_live; split; [done|by apply list_elem_of_lookup_2 in Hi]).
  assert (Hanew : ∀ q, (a, q) ∉ work) by (intros q Hin; by destruct (Hw a q Hin) as (_ & ? & _)).
  split_and!; [done|congruence|congruence|intros b [? _]%Hl1; auto|..].
  - destruct (_ <? _); [|done]. rewrite fmap_app. apply NoDup_app. split_and!; [done| |apply NoDup_singleton].
    intros b Hb ->%list_elem_of_singleton. apply list_elem_of_fmap in Hb as ([b q] & Hbq & Hin). cbn in Hbq. subst b.
    by apply (Hanew q).
  - intros b q Hin.
    assert ((b, q) ∈ work ∨ (b, q) = (a, qo)) as [Hin'|[= -> ->]].
    { destruct (_ <? _); [|by left]. by apply elem_of_app in Hin as [?|?%list_elem_of_singleton]; [left|right]. }
    + destruct (Hw b q Hin') as (? & Hnb & ?). split_and!; [done| |done]. by intros [? _]%Hl1.
    + split_and!; [by apply Hl| |by rewrite <- Hq]. by intros [_ ?]%Hl1.
Qed.

Lemma mq_cleanup_inv pid s : mq_inv s → mq_inv (msg_cleanup_process pid s).
Proof.
  intros [Ht [L Hc]]. unfold msg_cleanup_process.
  assert (Hsw : sweep_ok s (foldl (cleanup_one pid) (s, []) (seq 0 256))).
  { generalize (seq 0 256). intros ixs. assert (H0 : sweep_ok s (s, [])).
    { split_and!; try done; [constructor|]. by intros a q ?%not_elem_of_nil. }
    revert H0. generalize (s, @nil (Z * msg_queue_t)). induction ixs as [|i ixs IH]; intros acc H0; [done|].
    cbn. by apply IH, cleanup_one_ok. }
  destruct (foldl (cleanup_one pid) _ _) as [s1 work]. destruct Hsw as (Ht1 & Hq & Hn & Hl & Hnd & Hw).
  assert (Hc1 : chains_ok s1 L (live s1 ++ work.*1)).
  { destruct Hc as [Hc1 Hc2].
    assert (Hin : ∀ b, b ∈ live s1 ++ work.*1 → b ∈ live s).
    { intros b [Hb|([a q] & -> & Hb)%list_elem_of_fmap]%elem_of_app; [by apply Hl|by apply (Hw a q)]. }
    split; [intros b Hb; rewrite Hq, Hn; by apply Hc1, Hin|].
    intros b d x Hb Hd. by apply Hc2; apply Hin. }
  assert (Hdisj : ∀ a q, (a, q) ∈ work → a ∉ live s1 ∧ queues s1 !! a = Some q).
  { intros a q Hin. rewrite Hq. by destruct (Hw a q Hin) as (_ & ? & ?). }
  clear Hw Hl Hq Hn Hc Ht. revert s1 Ht1 Hc1 Hdisj. induction work as [|[a qo] work IH]; intros s1 Ht1 Hc1 Hdisj.
  { split; [done|]. exists L. by rewrite app_nil_r in Hc1. }
  cbn [foldl fst snd fmap list_fmap] in *. apply NoDup_cons in Hnd as [Hna Hnd].
  destruct (Hdisj a qo ltac:(by left)) as [Hal Hqa]. apply IH.
  - done.
  - by apply free_queue_tables.
  - eapply free_queue_chains; [exact Hc1|set_solver|done|].
    intros b Hb. change (live (free_queue a qo s1)) with (live s1) in Hb. split; [set_solver|].
    intros ->. apply elem_of_app in Hb as [?|?]; [by apply Hal|done].
  - intros b q Hin. change (live (free_queue a qo s1)) with (live s1).
    destruct (Hdisj b q ltac:(by right)) as [? ?]. split; [done|]. cbn. rewrite lookup_delete_ne; [done|].
    intros <-. apply Hna, list_elem_of_fmap. by exists (a, q).
Qed.

(** ** The queues as lists of messages *)

(** The messages from node [p] on, following the links. *)
Fixpoint collect (fuel : nat) (ns : gmap Z msg_message_t) (p : Z) : list (Z * list Z) :=
  match fuel with
  | O => []
  | S f => if p =? 0 then []
           else match ns !! p with
                | None => []
                | Some m => (mtype m, mtext m) :: collect f ns (mnext m)
                end
  end.

(** The messages queued at [a]: type and text, oldest first. *)
Definition queue_msgs (s : mq_state) (a : Z) : list (Z * list Z) :=
  match queues s !! a with
  | Some q => collect (S (size_nodes s)) (nodes s) (first q)
  | None => []
  end.

Lemma collect_chain fuel ns p l : chain ns p l → (length l < fuel)%nat → collect fuel ns p = messages ns l.
Proof.
  revert fuel p. induction l as [|a l IH]; intros [|fuel] p Hc Hf; cbn [length] in Hf; try lia.
  { cbn in Hc. by subst p. }
  destruct Hc as (-> & Hn & m & Hm & Hc). cbn [collect]. destruct (Z.eqb_spec a 0); [done|].
  rewrite Hm. cbn. unfold msg_at at 1. rewrite Hm. f_equal. apply IH; [done|lia].
Qed.

Lemma queue_msgs_chain s L qs a : chains_ok s L qs → a ∈ qs → queue_msgs s a = messages (nodes s) (L a).
Proof.
  intros Hc Ha. destruct (ck_queue _ _ _ Hc a Ha) as (q & Hq & Hok). unfold queue_msgs. rewrite Hq.
  apply collect_chain; [apply Hok|]. pose proof (chain_length _ _ _ (qo_chain _ _ _ Hok) (qo_nodup _ _ _ Hok)).
  unfold size_nodes. lia.
Qed.

Definition msgs_bytes (ms : list (Z * list Z)) : Z := zsum (λ m, Z.of_nat (length (snd m))) ms.

(** The counters of a queue describe its list. *)
Lemma queue_counters s L qs a qo : chains_ok s L qs → a ∈ qs → queues s !! a = Some qo →
  msg_count qo = Z.of_nat (length (queue_msgs s a)) ∧ total_bytes qo = msgs_bytes (queue_msgs s a) ∧
  max_msgs qo = 100 ∧ max_bytes qo = MSGMNB ∧ msg_count qo ≤ 100 ∧ total_bytes qo ≤ MSGMNB ∧
  Forall (λ m, 0 < fst m ∧ Z.of_nat (length (snd m)) ≤ MSGMAX) (queue_msgs s a).
Proof.
  intros Hc Ha Hqo. rewrite (queue_msgs_chain s L qs a Hc Ha).
  destruct (ck_queue _ _ _ Hc a Ha) as (q & Hq & Hok). assert (q = qo) as -> by congruence.
  destruct Hok as [H1 H2 H3 H4 H5 (H6 & H7 & H8 & H9) H10]. unfold messages. rewrite length_fmap.
  split_and!; try done.
  - rewrite H5. unfold msgs_bytes. clear - H1 H10.
    assert (Hin : ∀ b, b ∈ L a → is_Some (nodes s !! b)) by (intros b Hb; by apply (chain_elem _ _ _ b H1)).
    clear H1. induction (L a) as [|b l IH]; [done|]. cbn [fmap list_fmap]. rewrite !zsum_cons. f_equal.
    + destruct (Hin b ltac:(by left)) as [m Hm]. unfold size_at, msg_at. rewrite Hm. cbn.
      symmetry. apply (H10 b m); [by left|done].
    + apply IH; intros; [eapply H10; [by right|done]|apply Hin; by right].
  - apply Forall_forall. intros x (b & -> & Hb)%list_elem_of_fmap.
    destruct (chain_elem _ _ _ b H1 Hb) as [_ [m Hm]]. unfold msg_at. rewrite Hm. cbn.
    destruct (H10 b m Hb Hm) as (? & ? & ?). lia.
Qed.

(** A step that changes only queue [a]'s messages. *)
Lemma other_msgs s s' L l' a b : chains_ok s L (live s) → chains_ok s' (set_chain L a l') (live s') →
  b ∈ live s → b ∈ live s' → b ≠ a → (∀ x, x ∈ L b → nodes s' !! x = nodes s !! x) →
  queue_msgs s' b = queue_msgs s b.
Proof.
  intros Hc Hc' Hb Hb' Hne Hns. rewrite (queue_msgs_chain _ _ _ b Hc Hb), (queue_msgs_chain _ _ _ b Hc' Hb').
  rewrite set_chain_ne by done. apply messages_ext. intros x Hx. unfold msg_at. by rewrite Hns.
Qed.

(** ** Whole calls *)

(** Whether the caller may access queue [a]. *)
Definition permitted (c : cred) (write : bool) (a : Z) (s : mq_state) : bool :=
  match queues s !! a with
  | Some qo => msg_check_permission qo (c_uid c) (c_gid c) write
  | None => false
  end.

(** When a send goes through. *)
Definition may_send (c : cred) (size ty a : Z) (s : mq_state) : bool :=
  (size <=? MSGMAX) && (0 <? ty) && negb (a =? 0) && permitted c true a s
  && (Z.of_nat (length (queue_msgs s a)) <? 100) && (msgs_bytes (queue_msgs s a) + size <=? MSGMNB).

Lemma live_queue s L a : chains_ok s L (live s) → a ∈ live s → is_Some (queues s !! a).
Proof. intros Hc Ha. destruct (ck_queue _ _ _ Hc a Ha) as (q & Hq & _). eauto. Qed.

Lemma msgs_bytes_nonneg ms : 0 ≤ msgs_bytes ms.
Proof. apply zsum_nonneg. intros x. lia. Qed.

Lemma append_others s L a qo node m now b : tables_ok s → chains_ok s L (live s) → a ∈ live s →
  queues s !! a = Some qo → nodes s !! node = None → node ≠ 0 → mnext m = 0 → node_ok m →
  msg_count qo < 100 → total_bytes qo + msize m ≤ MSGMNB → b ∈ live s → b ≠ a →
  queue_msgs (append_node a qo node m now s) b = queue_msgs s b.
Proof.
  intros Ht Hc Ha Hqo Hf Hn Hm Hok Hcnt Hb Hbl Hne.
  destruct (append_inv s L a qo node m now Ht Hc Ha Hqo Hf Hn Hm Hok Hcnt Hb) as (_ & Hc' & _).
  destruct (ck_queue _ _ _ Hc a Ha) as (q & Hq & Hqok). assert (q = qo) as -> by congruence.
  destruct (append_queue (nodes s) qo node m now (L a) Hqok Hf Hn Hm Hok Hcnt Hb) as (_ & _ & H3).
  rewrite append_node_eq in *. eapply other_msgs; [exact Hc|exact Hc'|done|done|done|].
  intros x Hx. cbn [nodes]. apply H3.
  - intros Hxa. by destruct Hne; eapply (ck_disjoint _ _ _ Hc).
  - intros ->. destruct (ck_queue _ _ _ Hc b Hbl) as (qb & _ & Hqb).
    destruct (chain_elem _ _ _ _ (qo_chain _ _ _ Hqb) Hx) as [_ [? ?]]. congruence.
Qed.

(** The call gets as far as the queue, and the queue takes the message. *)
Definition can_send (msgp size : Z) (cur : option cred) (header : option Z) (node : Z) (data : option (list Z)) (a : Z) (s : mq_state) : bool :=
  match cur, header, data with
  | Some c, Some ty, Some _ => negb (msgp =? 0) && negb (node =? 0) && may_send c size ty a s
  | _, _, _ => false
  end.

Lemma send_correct msqid msgp size now cur header node data s : mq_inv s → (node ≠ 0 → nodes s !! node = None) →
  0 ≤ size → (∀ text, data = Some text → Z.of_nat (length text) = size) →
  let a := msg_find_by_id (i32 msqid) s in
  let '(s', r) := sys_msgsnd msqid msgp size now cur header node data s in
  mq_inv s' ∧
  if can_send msgp size cur header node data a s
  then ∃ ty text, header = Some ty ∧ data = Some text ∧ r = IPC_SUCCESS ∧ live s' = live s ∧
       queue_msgs s' a = queue_msgs s a ++ [(ty, text)] ∧
       ∀ b, b ∈ live s → b ≠ a → queue_msgs s' b = queue_msgs s b
  else r < 0 ∧ s' = s.
Proof.
  intros Hinv Hf Hs Hlen. set (id := i32 msqid). intros a. unfold sys_msgsnd, can_send. fold id. fold a.
  destruct cur as [c|]; [|done]. destruct (Z.eqb_spec msgp 0) as [|Hp]; cbn [orb negb andb].
  { by destruct header, data. }
  destruct header as [ty|]; [|by destruct (_ <? _)].
  destruct data as [text|]; [|by destruct (MSGMAX <? size), (ty <=? 0), (node =? 0)]. specialize (Hlen text eq_refl). unfold may_send, permitted.
  rewrite Z.ltb_antisym. destruct (Z.leb_spec size MSGMAX); cbn [negb andb]; [|by rewrite andb_false_r].
  rewrite (Z.ltb_antisym ty 0). destruct (Z.leb_spec ty 0); cbn [negb andb]; [by rewrite andb_false_r|].
  destruct (Z.eqb_spec node 0) as [|Hn]; [done|]. specialize (Hf Hn). cbn [negb andb]. destruct (queues s !! a) as [qo|] eqn:Hqo; [|by rewrite andb_false_r].
  destruct (Z.eqb_spec a 0) as [|Ha0]; cbn [negb andb]; [done|].
  destruct (msg_check_permission _ _ _ _); cbn [negb andb]; [|done].
  destruct Hinv as [Ht [L Hc]]. destruct (find_by_id_live s id Ht Ha0) as (Hal & _). fold a in Hal.
  destruct (queue_counters s L (live s) a qo Hc Hal Hqo) as (Hcnt & Hb & -> & -> & _ & Hb2 & _).
  pose proof (msgs_bytes_nonneg (queue_msgs s a)).
  rewrite <- Hcnt, <- Hb. rewrite u64_small by (unfold MSGMNB, MSGMAX in *; lia).
  destruct (Z.leb_spec 100 (msg_count qo)), (Z.ltb_spec (msg_count qo) 100); try lia; cbn [orb andb].
  { split; [by split; [|exists L]|done]. }
  destruct (Z.ltb_spec MSGMNB (total_bytes qo + size)), (Z.leb_spec (total_bytes qo + size) MSGMNB); try lia; cbn [orb andb].
  { split; [by split; [|exists L]|done]. }
  set (m := Msg ty size text 0).
  assert (Hok : node_ok m) by (split_and!; cbn; lia).
  destruct (append_inv s L a qo node m now Ht Hc Hal Hqo Hf Hn eq_refl Hok) as (Ht' & Hc' & Hm); [lia|done|].
  split; [by split; [|eexists]|]. exists ty, text. split_and!; [done|done|done|by rewrite append_node_eq|..].
  - assert (Hal' : a ∈ live (append_node a qo node m now s)) by (by rewrite append_node_eq).
    rewrite (queue_msgs_chain _ _ _ a Hc' Hal'), Hm, (queue_msgs_chain _ _ _ a Hc Hal). done.
  - intros b Hb' Hne. eapply append_others; eauto; lia.
Qed.


(** ** Receiving the first message that matches *)

Fixpoint take_first (f : Z → bool) (ms : list (Z * list Z)) : option ((Z * list Z) * list (Z * list Z)) :=
  match ms with
  | [] => None
  | m :: ms =>
      if f (fst m) then Some (m, ms)
      else match take_first f ms with
           | Some (x, rest) => Some (x, m :: rest)
           | None => None
           end
  end.

Lemma take_first_app f ms1 m ms2 : (∀ x, x ∈ ms1 → f (fst x) = false) → f (fst m) = true →
  take_first f (ms1 ++ m :: ms2) = Some (m, ms1 ++ ms2).
Proof.
  intros H Hm. induction ms1 as [|x ms1 IH]; cbn [app take_first]; [by rewrite Hm|].
  rewrite (H x) by (by left). rewrite IH; [done|]. intros y Hy. apply H. by right.
Qed.

Lemma take_first_none f ms : (∀ x, x ∈ ms → f (fst x) = false) → take_first f ms = None.
Proof.
  intros H. induction ms as [|x ms IH]; [done|]. cbn. rewrite (H x) by (by left).
  rewrite IH; [done|]. intros y Hy. apply H. by right.
Qed.

Lemma recv_walk id qo size type flags now copy_type copy_data s : mq_inv s → 0 ≤ size →
  let a := msg_find_by_id id s in a ≠ 0 → queues s !! a = Some qo →
  let '(s', r, out) :=
    match walk (S (size_nodes s)) (nodes s) type 0 (first qo) with
    | None => (s, IPC_ENOMSG, None)
    | Some (prev, m) =>
        match nodes s !! m with
        | None => (s, IPC_ENOMSG, None)
        | Some x =>
            if (size <? msize x) && (Z.land flags MSG_NOERROR =? 0) then (s, IPC_E2BIG, None)
            else
              let copy_size := if size <? msize x then size else msize x in
              let s := unlink_node a qo prev m x now s in
              if negb copy_type then (s, IPC_EFAULT, None)
              else if (0 <? copy_size) && negb copy_data then (s, IPC_EFAULT, None)
              else (s, copy_size, Some (mtype x, take (Z.to_nat copy_size) (mtext x)))
        end
    end in
  mq_inv s' ∧
  match take_first (type_matches type) (queue_msgs s a) with
  | None => r = IPC_ENOMSG ∧ s' = s ∧ out = None
  | Some (m, rest) =>
      let n := Z.min size (Z.of_nat (length (snd m))) in
      if (size <? Z.of_nat (length (snd m))) && (Z.land flags MSG_NOERROR =? 0)
      then r = IPC_E2BIG ∧ s' = s ∧ out = None
      else live s' = live s ∧ queue_msgs s' a = rest ∧ (∀ b, b ∈ live s → b ≠ a → queue_msgs s' b = queue_msgs s b) ∧
           if copy_type && ((n <=? 0) || copy_data)
           then r = n ∧ r ≤ Z.min size MSGMAX ∧ out = Some (fst m, take (Z.to_nat r) (snd m))
           else r = IPC_EFAULT ∧ out = None
  end.
Proof.
  intros Hinv Hs a Ha0 Hqo. cbv zeta.
  pose proof Hinv as [Ht [L Hc]]. destruct (find_by_id_live s id Ht Ha0) as (Hal & _). fold a in Hal.
  destruct (ck_queue _ _ _ Hc a Hal) as (q & Hq & Hok). assert (q = qo) as -> by congruence.
  pose proof (chain_length _ _ _ (qo_chain _ _ _ Hok) (qo_nodup _ _ _ Hok)) as Hlen.
  rewrite (queue_msgs_chain _ _ _ a Hc Hal).
  assert (Hfirst : ∀ l, (∀ b y, b ∈ l → nodes s !! b = Some y → type_matches type (mtype y) = false) →
            (∀ b, b ∈ l → is_Some (nodes s !! b)) →
            ∀ x, x ∈ messages (nodes s) l → type_matches type (fst x) = false).
  { intros l Hl Hin x (b & -> & Hb)%list_elem_of_fmap. destruct (Hin b Hb) as [y Hy].
    unfold msg_at. rewrite Hy. by apply (Hl b y). }
  assert (Hsome : ∀ b, b ∈ L a → is_Some (nodes s !! b)).
  { intros b Hb. by apply (chain_elem _ _ _ b (qo_chain _ _ _ Hok)). }
  pose proof (walk_spec (S (size_nodes s)) (nodes s) type 0 (first qo) (L a) (qo_chain _ _ _ Hok)
    ltac:(unfold size_nodes; lia)) as Hw.
  destruct (walk _ _ _ _ _) as [[prev m]|].
  2:{ rewrite take_first_none; [done|]. by apply Hfirst. }
  destruct Hw as (l1 & l2 & x & HL & -> & Hx & Hmt & Hno). rewrite Hx, HL.
  unfold messages. rewrite fmap_app, fmap_cons. fold (messages (nodes s) l1). fold (messages (nodes s) l2).
  assert (Hmx : msg_at (nodes s) m = (mtype x, mtext x)) by (unfold msg_at; by rewrite Hx). rewrite Hmx.
  rewrite take_first_app; [|apply Hfirst; [done|intros b Hb; apply Hsome; rewrite HL; set_solver]|done].
  destruct (qo_nodes _ _ _ Hok m x) as (_ & Hsz & Htx); [rewrite HL; set_solver|done|]. cbn [snd fst].
  rewrite Htx. destruct ((size <? msize x) && _) eqn:E2; [done|].
  destruct (unlink_inv s L a qo l1 m l2 x now Ht Hc Hal Hqo HL Hx) as (Ht' & Hc' & Hms).
  set (s' := unlink_node _ _ _ _ _ _ _) in *.
  assert (Hl' : live s' = live s) by (subst s'; by rewrite unlink_node_eq).
  assert (Hr : (if size <? msize x then size else msize x) = Z.min size (msize x)) by (zcase; lia).
  rewrite Hr. set (n := Z.min size (msize x)).
  assert (Hcopy : ∃ r out, (if negb copy_type then (s', IPC_EFAULT, None)
      else if (0 <? n) && negb copy_data then (s', IPC_EFAULT, None)
      else (s', n, Some (mtype x, take (Z.to_nat n) (mtext x)))) = (s', r, out) ∧
    if copy_type && ((n <=? 0) || copy_data)
    then r = n ∧ r ≤ Z.min size MSGMAX ∧ out = Some (mtype x, take (Z.to_nat r) (mtext x))
    else r = IPC_EFAULT ∧ out = None).
  { rewrite Z.ltb_antisym. destruct copy_type, (n <=? 0), copy_data; cbn [negb andb orb];
      do 2 eexists; (split; [reflexivity|]); try done; split_and!; try done; lia. }
  destruct Hcopy as (r & out & -> & Hcopy). split; [by split; [|eexists]|]. split_and!; [done| | |done].
  - rewrite (queue_msgs_chain _ _ _ a Hc'), Hms by (by rewrite Hl'). done.
  - intros b Hb Hne. eapply other_msgs; [exact Hc|exact Hc'|done|by rewrite Hl'|done|].
    intros y Hy. subst s'. rewrite unlink_node_eq. cbn [nodes].
    rewrite HL in Hok. destruct (unlink_queue (nodes s) qo now l1 m x l2 Hok Hx) as (_ & _ & H3). apply H3.
    intros Hya. rewrite <- HL in Hya. destruct Hne. by eapply (ck_disjoint _ _ _ Hc).
Qed.

(** Some process calls with a buffer, and the bounce buffer could be allocated. *)
Definition can_receive (msgp size : Z) (cur : option cred) (tmp : bool) (a : Z) (s : mq_state) : bool :=
  match cur with
  | Some c => negb (msgp =? 0) && ((size <=? 0) || tmp) && negb (a =? 0) && permitted c false a s
  | None => false
  end.

Lemma recv_correct msqid msgp size type flags now cur tmp copy_type copy_data s : mq_inv s → 0 ≤ size →
  let a := msg_find_by_id (i32 msqid) s in
  let '(s', r, out) := sys_msgrcv msqid msgp size type flags now cur tmp copy_type copy_data s in
  mq_inv s' ∧
  if can_receive msgp size cur tmp a s then
    match take_first (type_matches type) (queue_msgs s a) with
    | None => r = IPC_ENOMSG ∧ s' = s ∧ out = None
    | Some (m, rest) =>
        let n := Z.min size (Z.of_nat (length (snd m))) in
        if (size <? Z.of_nat (length (snd m))) && (Z.land flags MSG_NOERROR =? 0)
        then r = IPC_E2BIG ∧ s' = s ∧ out = None
        else live s' = live s ∧ queue_msgs s' a = rest ∧ (∀ b, b ∈ live s → b ≠ a → queue_msgs s' b = queue_msgs s b) ∧
             if copy_type && ((n <=? 0) || copy_data)
             then r = n ∧ r ≤ Z.min size MSGMAX ∧ out = Some (fst m, take (Z.to_nat r) (snd m))
             else r = IPC_EFAULT ∧ out = None
    end
  else r < 0 ∧ s' = s ∧ out = None.
Proof.
  intros Hinv Hs. set (id := i32 msqid). intros a. unfold sys_msgrcv, can_receive, permitted. fold id. fold a.
  destruct cur as [c|]; [|done]. destruct (Z.eqb_spec msgp 0) as [|Hp]; cbn [negb andb]; [done|]. cbv zeta.
  assert (Hcap : (0 <? (if size <? MSGMAX then size else MSGMAX)) = negb (size <=? 0)).
  { unfold MSGMAX. destruct (Z.ltb_spec size 8192), (Z.leb_spec size 0); cbn [negb]; (apply Z.ltb_lt || apply Z.ltb_ge); lia. }
  rewrite Hcap. destruct (size <=? 0) eqn:Esz; [|destruct tmp]; cbn [negb andb orb]; [| |done].
  all: destruct (queues s !! a) as [qo|] eqn:Hqo; [|by rewrite andb_false_r].
  all: destruct (Z.eqb_spec a 0) as [|Ha0]; cbn [negb andb]; [done|].
  all: destruct (msg_check_permission _ _ _ _); cbn [negb]; [|done].
  all: by apply (recv_walk id).
Qed.

(** ** Publishing, and the whole of msgget *)

Lemma tables_chains_next s L n : chains_ok s L (live s) → chains_ok (with_next n s) L (live (with_next n s)).
Proof. by intros [H1 H2]. Qed.

Lemma commit_correct id k flags now c a s : mq_inv s → 1 ≤ id ≤ 256 → 1 < a → queues s !! a = None →
  let '(s', r) := msgget_commit id k flags now c a s in
  mq_inv s' ∧
  if negb (default 0 (id_table s !! Z.to_nat (id - 1)) =? 0) then r = IPC_ENOMEM ∧ s' = s
  else if negb (k =? 0) && negb (msg_find_by_key k s =? 0) then
    s' = s ∧ r = if negb (Z.land flags IPC_EXCL =? 0) then IPC_EEXIST
                 else default 0 (qid <$> queues s !! msg_find_by_key k s)
  else r = id ∧ msg_find_by_id id s' = a ∧ (∀ b, b ∈ live s' ↔ b = a ∨ b ∈ live s) ∧
       queues s' !! a = Some (new_queue id k flags now c) ∧ queue_msgs s' a = [] ∧
       (k ≠ 0 → msg_find_by_key k s' = a) ∧
       ∀ b, b ∈ live s → queues s' !! b = queues s !! b ∧ queue_msgs s' b = queue_msgs s b.
Proof.
  intros Hinv Hid Ha Hfresh. unfold msgget_commit. cbv zeta.
  destruct (Z.eqb_spec (default 0 (id_table s !! Z.to_nat (id - 1))) 0) as [Hz|]; cbn [negb]; [|done].
  pose proof Hinv as [Ht [L Hc]].
  assert (Hslot : id_table s !! Z.to_nat (id - 1) = Some 0).
  { destruct (lookup_lt_is_Some_2 (id_table s) (Z.to_nat (id - 1))) as [e He]; [rewrite (tk_ids s Ht); lia|].
    rewrite He in *. cbn in Hz. by subst e. }
  change IPC_PRIVATE with 0. destruct (Z.eqb_spec k 0) as [Hk|Hk]; cbn [negb andb Z.eqb];
    [|destruct (Z.eqb_spec (msg_find_by_key k s) 0) as [Hnone|]; cbn [negb]].
  3:{ by destruct (negb (Z.land flags IPC_EXCL =? 0)). }
  all: destruct (publish_inv s L id k flags now c a Ht Hc Hid Ha Hfresh Hslot) as (Hl & Ht' & Hc');
    [intros Hk0 b Hb Hkb; first [done|destruct (find_by_key_spec s k Ht Hk) as [_ Hf]; rewrite <- (Hf b Hb Hkb) in Hb;
       rewrite Hnone in Hb; by apply elem_live in Hb as [? _]]|].
  all: set (s1 := key_table_insert a _) in *; set (n := if MQ_TABLE_SIZE <? id + 1 then 1 else id + 1);
    assert (Hn : 1 ≤ n ≤ 256) by (subst n; unfold MQ_TABLE_SIZE; zcase; lia);
    assert (Hids : id_table s1 = <[Z.to_nat (id - 1) := a]> (id_table s) ∧
       queues s1 = <[a := new_queue id k flags now c]> (queues s) ∧ nodes s1 = nodes s)
      by (subst s1; unfold key_table_insert; by destruct (_ =? _));
    destruct Hids as (Hids & Hqs & Hns);
    assert (Hal : a ∈ live s1) by (apply Hl; by left);
    split; [split; [by apply tables_next|eexists; by apply tables_chains_next]|];
    split_and!; [done| |done|cbn; by rewrite Hqs, lookup_insert_eq| | |].
  all: try (unfold msg_find_by_id, MQ_TABLE_SIZE; destruct (Z.leb_spec id 0); [lia|];
    destruct (Z.ltb_spec 256 id); [lia|]; cbn [orb id_table with_next]; rewrite Hids, list_lookup_insert_eq;
    [done|rewrite (tk_ids s Ht); lia]).
  all: try (change (queue_msgs (with_next n s1) a) with (queue_msgs s1 a);
    rewrite (queue_msgs_chain _ _ _ a Hc' Hal), set_chain_eq; done).
  all: try (intros b Hb; assert (b ≠ a) by (intros ->; destruct (live_pos s a Ht Hb) as (_ & ? & ? & _ & ? & _); congruence);
    split; [cbn; by rewrite Hqs, lookup_insert_ne|];
    change (queue_msgs (with_next n s1) b) with (queue_msgs s1 b);
    eapply other_msgs; [exact Hc|exact Hc'|done|apply Hl; by right|done|]; intros x _; by rewrite Hns).
  all: intros Hk0; try done.
  assert (Hka : key_of s1 a = k) by (unfold key_of; by rewrite Hqs, lookup_insert_eq).
  apply (find_by_key_spec s1 k Ht' Hk); done.
Qed.

(** ** Reachable states *)

(** A [msgget] that reserved an id and is allocating its queue. *)
Record pending := Pending { p_id : Z; p_key : Z; p_flags : Z; p_cred : cred }.

Inductive mq_step : mq_state * list pending → mq_state * list pending → Prop :=
| ms_get_done k flags s ps s' r : msgget_reserve k flags s = (s', inl r) → mq_step (s, ps) (s', ps)
| ms_get_reserved k flags c s ps s' id : msgget_reserve k flags s = (s', inr id) →
    mq_step (s, ps) (s', Pending id k flags c :: ps)
| ms_get_nomem s p ps1 ps2 : mq_step (s, ps1 ++ p :: ps2) (s, ps1 ++ ps2)
| ms_get_commit s p ps1 ps2 now a : 1 < a → queues s !! a = None →
    mq_step (s, ps1 ++ p :: ps2)
            (fst (msgget_commit (p_id p) (p_key p) (p_flags p) now (p_cred p) a s), ps1 ++ ps2)
| ms_send msqid msgp size now cur header node data s ps : (node ≠ 0 → nodes s !! node = None) →
    0 ≤ size → (∀ text, data = Some text → Z.of_nat (length text) = size) →
    mq_step (s, ps) (fst (sys_msgsnd msqid msgp size now cur header node data s), ps)
| ms_recv msqid msgp size type flags now cur tmp copy_type copy_data s ps : 0 ≤ size →
    mq_step (s, ps) (fst (fst (sys_msgrcv msqid msgp size type flags now cur tmp copy_type copy_data s)), ps)
| ms_ctl msqid cmd cur s ps : mq_step (s, ps) (fst (sys_msgctl msqid cmd cur s), ps)
| ms_cleanup pid s ps : mq_step (s, ps) (msg_cleanup_process pid s, ps).

Definition mq_boot : mq_state := msg_init (MqState ∅ ∅ [] [] 0).

Definition step_inv (x : mq_state * list pending) : Prop :=
  mq_inv (fst x) ∧ Forall (λ p, 1 ≤ p_id p ≤ 256) (snd x).

Lemma boot_step_inv : step_inv (mq_boot, []).
Proof.
  assert (Hl : live mq_boot = []).
  { unfold live, mq_boot. cbn [id_table msg_init]. generalize 256%nat. induction n as [|n IH]; [done|]. cbn. done. }
  assert (He : ∀ i a, id_table mq_boot !! i = Some a → a = 0).
  { intros i a Hi. by apply lookup_replicate in Hi as [-> _]. }
  split; [|constructor]. split; cbn [fst].
  - split; rewrite ?Hl; [done|cbn; lia| |apply kt_init|by intros a b ?%not_elem_of_nil].
    intros i a ->%He. done.
  - exists (λ _, []). rewrite Hl. split; [by intros a ?%not_elem_of_nil|by intros a b x ?%not_elem_of_nil].
Qed.

Lemma mq_step_inv x y : mq_step x y → step_inv x → step_inv y.
Proof.
  intros Hs [Hi Hp]. destruct Hs as [k flags s ps s' r E|k flags c s ps s' id E|s p ps1 ps2|s p ps1 ps2 now a Ha Hf
    |msqid msgp size now cur header node data s ps Hf Hs Hl|msqid msgp size type flags now cur tmp copy_type copy_data s ps Hs|msqid cmd cur s ps|pid s ps]; cbn [fst snd] in *.
  - destruct Hi as [Ht [L Hc]]. destruct (reserve_inv k flags s Ht) as (H1 & H2 & H3 & H4 & _).
    rewrite E in *. cbn [fst] in *. split; [|done]. split; [done|]. exists L. cbn [fst]. rewrite H4.
    destruct Hc as [C1 C2]. split; [|done]. rewrite H2, H3. exact C1.
  - destruct Hi as [Ht [L Hc]]. destruct (reserve_inv k flags s Ht) as (H1 & H2 & H3 & H4 & H5).
    rewrite E in *. cbn [fst snd] in *. split; [|constructor; [by apply H5|done]]. split; [done|]. exists L.
    cbn [fst]. rewrite H4. destruct Hc as [C1 C2]. split; [|done]. rewrite H2, H3. exact C1.
  - split; [done|]. apply Forall_app in Hp as [? [_ ?]%Forall_cons]. cbn [snd]. by apply Forall_app_2.
  - apply Forall_app in Hp as [? [Hid ?]%Forall_cons]. split; [|by apply Forall_app_2].
    pose proof (commit_correct (p_id p) (p_key p) (p_flags p) now (p_cred p) a s Hi Hid Ha Hf) as H'.
    destruct (msgget_commit _ _ _ _ _ _ _) as [s' r]. apply H'.
  - split; [|done]. pose proof (send_correct msqid msgp size now cur header node data s Hi Hf Hs Hl) as H'. cbv zeta in H'.
    destruct (sys_msgsnd _ _ _ _ _ _ _ _ _) as [s' r]. apply H'.
  - split; [|done]. pose proof (recv_correct msqid msgp size type flags now cur tmp copy_type copy_data s Hi Hs) as H'. cbv zeta in H'.
    destruct (sys_msgrcv _ _ _ _ _ _ _ _ _ _ _) as [[s' r] o]. apply H'.
  - split; [|done]. by apply ctl_inv.
  - split; [|done]. by apply mq_cleanup_inv.
Qed.

Lemma mq_reachable_inv s ps : rtc mq_step (mq_boot, []) (s, ps) → mq_inv s.
Proof.
  intros Hs. assert (step_inv (s, ps)) as [H _]; [|done].
  remember (mq_boot, []) as x eqn:Ex. remember (s, ps) as y eqn:Ey.
  assert (step_inv x) as Hx by (subst x; apply boot_step_inv). clear Ex. subst y.
  induction Hs as [|x1 x2 x3 H _ IH]; [done|]. by apply IH, (mq_step_inv x1).
Qed.

(** ** Properties *)

(** both lookup tables stay exact.  In every reachable state, also with
    several [msgget] calls interleaved between their locked phases, a key that
    is not IPC_PRIVATE finds exactly the published queue with that key (there
    is at most one), and a queue's id finds that queue. *)
Theorem msg_lookup_correct s ps k a :
  rtc mq_step (mq_boot, []) (s, ps) → k ≠ IPC_PRIVATE → a ≠ 0 →
  (msg_find_by_key k s = a ↔ a ∈ live s ∧ key_of s a = k) ∧
  (a ∈ live s → ∃ q, queues s !! a = Some q ∧ msg_find_by_id (qid q) s = a).
Proof.
  intros Hr Hk Ha. destruct (mq_reachable_inv s ps Hr) as [Ht _].
  destruct (find_by_key_spec s k Ht Hk) as [H1 H2]. split.
  - split; [|intros [? ?]; by apply H2]. intros <-. by apply H1.
  - intros Hl. destruct (live_pos s a Ht Hl) as (_ & i & q & Hi & Hq & Hid & Hlt). exists q. split; [done|].
    rewrite Hid. unfold msg_find_by_id, MQ_TABLE_SIZE. destruct (Z.leb_spec (Z.of_nat i + 1) 0); [lia|].
    destruct (Z.ltb_spec 256 (Z.of_nat i + 1)); [lia|]. cbn [orb].
    replace (Z.to_nat (Z.of_nat i + 1 - 1)) with i by lia. by rewrite Hi.
Qed.

(** [msgget] returns the queue of an existing key (or EEXIST with
    IPC_EXCL), fails with ENOENT without IPC_CREAT, fails with ENOMEM exactly
    when all 256 ids are taken, and otherwise publishes a fresh empty queue that
    its id and key find, leaving every other queue as it was. *)
Theorem msgget_correct s ps key_arg msgflg now c a :
  rtc mq_step (mq_boot, []) (s, ps) → 1 < a → queues s !! a = None →
  let k := i32 key_arg in let flags := i32 msgflg in
  let '(s', r) := sys_msgget key_arg msgflg now (Some c) a s in
  let old := msg_find_by_key k s in
  if negb (k =? 0) && negb (old =? 0) then
    s' = s ∧ r = if negb (Z.land flags IPC_EXCL =? 0) then IPC_EEXIST
                 else default 0 (qid <$> queues s !! old)
  else if negb (k =? 0) && (Z.land flags IPC_CREAT =? 0) then s' = s ∧ r = IPC_ENOENT
  else if bool_decide (0 ∈ id_table s) then
    1 ≤ r ≤ 256 ∧ msg_find_by_id r s = 0 ∧ msg_find_by_id r s' = a ∧
    (∀ b, b ∈ live s' ↔ b = a ∨ b ∈ live s) ∧ queue_msgs s' a = [] ∧
    (k ≠ 0 → msg_find_by_key k s' = a) ∧
    ∀ b, b ∈ live s → queues s' !! b = queues s !! b ∧ queue_msgs s' b = queue_msgs s b
  else live s' = live s ∧ r = IPC_ENOMEM.
Proof.
  intros Hreach Ha Hf. pose proof (mq_reachable_inv s ps Hreach) as Hinv. pose proof Hinv as [Ht [L Hc]].
  unfold sys_msgget, msgget_reserve. cbv zeta. generalize (i32 key_arg) (i32 msgflg). intros k flags. change IPC_PRIVATE with 0.
  set (ex := if k =? 0 then 0 else msg_find_by_key k s).
  assert (Hex : negb (k =? 0) && negb (ex =? 0) = negb (k =? 0) && negb (msg_find_by_key k s =? 0)).
  { subst ex. by destruct (k =? 0). }
  rewrite Hex. destruct (negb (k =? 0) && negb (msg_find_by_key k s =? 0)) eqn:Eold.
  { assert (ex = msg_find_by_key k s) as -> by (subst ex; revert Eold; by destruct (k =? 0)).
    by destruct (negb (Z.land flags IPC_EXCL =? 0)). }
  destruct (negb (k =? 0) && (Z.land flags IPC_CREAT =? 0)); [done|].
  pose proof (tk_next s Ht) as Hn. unfold MQ_TABLE_SIZE. destruct (Z.ltb_spec 256 (next_msg_id s)); [lia|].
  pose proof (reserve_spec s Ht) as Hres. destruct (reserve_loop _ _ _ _) as [id|].
  2:{ by rewrite bool_decide_eq_false_2. }
  destruct Hres as [Hid Hslot]. destruct (Z.eqb_spec a 0); [lia|].
  assert (Hinv' : mq_inv (with_next id s)).
  { split; [by apply tables_next|exists L; by apply tables_chains_next]. }
  pose proof (commit_correct id k flags now c a (with_next id s) Hinv' Hid Ha Hf) as H'.
  destruct (msgget_commit _ _ _ _ _ _ _) as [s' r]. destruct H' as [_ H'].
  change (msg_find_by_key k (with_next id s)) with (msg_find_by_key k s) in H'.
  change (id_table (with_next id s)) with (id_table s) in H'. rewrite Hslot, Eold in H'. cbn in H'.
  rewrite bool_decide_eq_true_2 by (by apply list_elem_of_lookup_2 in Hslot).
  destruct H' as (-> & H1 & H2 & _ & H3 & H4 & H5). split_and!; try done; try lia.
  unfold msg_find_by_id, MQ_TABLE_SIZE. destruct (_ || _); [done|]. by rewrite Hslot.
Qed.



(** memory is bounded and the counters are exact.  In every reachable
    state a published queue holds at most 100 messages and 16384 bytes, its
    [msg_count] and [total_bytes] are the true count and size, and every queued
    message has a positive type and at most 8192 bytes. *)
Theorem msg_limits s ps a q :
  rtc mq_step (mq_boot, []) (s, ps) → a ∈ live s → queues s !! a = Some q →
  msg_count q = Z.of_nat (length (queue_msgs s a)) ∧ total_bytes q = msgs_bytes (queue_msgs s a) ∧
  msg_count q ≤ 100 ∧ total_bytes q ≤ MSGMNB ∧
  Forall (λ m, 0 < fst m ∧ Z.of_nat (length (snd m)) ≤ MSGMAX) (queue_msgs s a).
Proof.
  intros Hr Ha Hq. destruct (mq_reachable_inv s ps Hr) as [_ [L Hc]].
  by destruct (queue_counters s L (live s) a q Hc Ha Hq) as (? & ? & _ & _ & ? & ? & ?).
Qed.

(** ** Witnesses *)

Definition root : cred := Cred 0 0 1.
Definition get_flags : Z := Z.lor IPC_CREAT 438.
Definition s_reserved : mq_state := fst (msgget_reserve 77 get_flags mq_boot).
Definition s_queue : mq_state := fst (msgget_commit 1 77 get_flags 5 root 0x4000 s_reserved).
Definition s_sent : mq_state := fst (sys_msgsnd 1 0x800 3 6 (Some root) (Some 9) 0x5000 (Some [104; 105; 33]) s_queue).

Lemma s_queue_reachable : rtc mq_step (mq_boot, []) (s_queue, []).
Proof.
  eapply rtc_l; [apply (ms_get_reserved 77 get_flags root _ [] s_reserved 1); vm_compute; reflexivity|].
  eapply rtc_l; [apply (ms_get_commit s_reserved (Pending 1 77 get_flags root) [] [] 5 0x4000);
    [lia|vm_compute; reflexivity]|]. apply rtc_refl.
Qed.

Lemma s_sent_reachable : rtc mq_step (mq_boot, []) (s_sent, []).
Proof.
  eapply rtc_r; [apply s_queue_reachable|].
  apply (ms_send 1 0x800 3 6 (Some root) (Some 9) 0x5000 (Some [104; 105; 33])); [intros _; vm_compute; reflexivity|lia|by intros text [= <-]].
Qed.

Lemma msg_lookup_correct_witness : msg_find_by_key 77 s_queue = 0x4000 ∧ 0x4000 ∈ live s_queue.
Proof.
  assert (msg_find_by_key 77 s_queue = 0x4000) as E by (vm_compute; reflexivity). split; [exact E|].
  exact (proj1 (proj1 (proj1 (msg_lookup_correct s_queue [] 77 0x4000 s_queue_reachable
    ltac:(discriminate) ltac:(discriminate))) E)).
Defined.

Lemma msgget_correct_witness : snd (sys_msgget 77 get_flags 7 (Some root) 0x6000 s_queue) = 1.
Proof.
  pose proof (msgget_correct s_queue [] 77 get_flags 7 root 0x6000 s_queue_reachable ltac:(lia)
    ltac:(vm_compute; reflexivity)) as H.
  assert (msg_find_by_key 77 s_queue = 0x4000) as E by (vm_compute; reflexivity).
  cbv zeta in H. change (i32 77) with 77 in H. change (i32 get_flags) with get_flags in H. rewrite E in H. change (negb (77 =? 0) && negb (0x4000 =? 0)) with true in H. cbv iota in H.
  destruct (sys_msgget 77 get_flags 7 (Some root) 0x6000 s_queue) as [s' r]. destruct H as [_ H]. cbn [snd]. rewrite H.
  vm_compute. reflexivity.
Defined.



(** The comment on [msgrcv] promises the lowest type up to |msgtyp|; with messages
    of types 5 and 3 waiting, -10 takes the one of type 5. *)
Example negative_type_takes_oldest :
  let s := fst (sys_msgsnd 1 0x800 1 6 (Some root) (Some 5) 0x5000 (Some [1]) s_queue) in
  let s := fst (sys_msgsnd 1 0x800 1 6 (Some root) (Some 3) 0x6000 (Some [2]) s) in
  snd (sys_msgrcv 1 0x800 64 (-10) 0 8 (Some root) true true true s) = Some (5, [1]).
Proof. vm_compute. reflexivity. Qed.

Lemma msg_limits_witness : ∃ q, queues s_sent !! 0x4000 = Some q ∧ total_bytes q = 3.
Proof.
  destruct (queues s_sent !! 0x4000) as [q|] eqn:E; [|vm_compute in E; discriminate].
  exists q. split; [reflexivity|].
  destruct (msg_limits s_sent [] 0x4000 q s_sent_reachable) as (_ & H & _).
  - apply elem_live. split; [discriminate|]. vm_compute. left.
  - exact E.
  - rewrite H. vm_compute. reflexivity.
Defined.

(** ** Cleanup leaks beyond 32 queues *)

(** [n] private queues of one process, at addresses 0x1000, 0x2000, ... *)
Fixpoint make_queues (n : nat) (s : mq_state) : mq_state :=
  match n with
  | O => s
  | S n => make_queues n (fst (sys_msgget 0 get_flags 1 (Some root) (Z.of_nat (S n) * 0x1000) s))
  end.

(** The 33rd queue is unlinked from both tables but never freed. *)
Theorem cleanup_leaks_33rd_queue :
  let s := msg_cleanup_process 1 (make_queues 33 mq_boot) in
  live s = [] ∧ size (queues s) = 1%nat.
Proof. vm_compute. done. Qed.

End MsgProps.
