(* ===== verification/Words.v ===== *)
(** * Word memory

    Memory is a map from 8-byte-aligned addresses to 64-bit words, shared by the
    allocators.  A C structure is a family of word fields at fixed offsets; two
    structures are [apart] when their first 64 bytes do not overlap. *)

From S2P Require Import Prelude.

Module Words.

Notation mem := (gmap Z Z).
Definition rd (m : mem) (a : Z) : Z := default 0 (m !! a).
Definition wr (m : mem) (a v : Z) : mem := <[a := v]> m.

(** The fields of a header of at most 64 bytes. *)
Class Fields (F : Type) := {
  off : F → Z;
  off_range : ∀ f, 0 ≤ off f < 64;
  off_inj : ∀ f g, off f = off g → f = g }.

Definition apart (a b : Z) : Prop := 64 ≤ a - b ∨ 64 ≤ b - a.

Lemma apart_sym a b : apart a b → apart b a.
Proof. unfold apart. lia. Qed.

Lemma rd_wr_eq m a v : rd (wr m a v) a = v.
Proof. unfold rd, wr. by rewrite lookup_insert_eq. Qed.

Lemma rd_wr_ne m a b v : a ≠ b → rd (wr m a v) b = rd m b.
Proof. intros. unfold rd, wr. by rewrite lookup_insert_ne. Qed.

Lemma wr_ne m a b v : a ≠ b → wr m a v !! b = m !! b.
Proof. intros. unfold wr. by rewrite lookup_insert_ne. Qed.

Section Fields.
Context {F : Type} `{Fields F}.

(** [b->f] and [b->f = v]. *)
Definition get (m : mem) (b : Z) (f : F) : Z := rd m (b + off f).
Definition set (m : mem) (b : Z) (f : F) (v : Z) : mem := wr m (b + off f) v.

Lemma get_set_eq m a f v : get (set m a f v) a f = v.
Proof. apply rd_wr_eq. Qed.

Lemma get_set_field m a f g v : f ≠ g → get (set m a f v) a g = get m a g.
Proof. intros Hne. apply rd_wr_ne. intros E. apply Hne, off_inj. lia. Qed.

Lemma get_set_apart m a b f g v : apart a b → get (set m a f v) b g = get m b g.
Proof.
  intros Hap. apply rd_wr_ne. pose proof (off_range f). pose proof (off_range g). unfold apart in Hap. lia.
Qed.

(** A field that no write to [a]'s field [f] can touch. *)
Lemma get_set_other m a b f g v : a = b ∨ apart a b → f ≠ g → get (set m a f v) b g = get m b g.
Proof. intros [->|?] ?; [by apply get_set_field|by apply get_set_apart]. Qed.

End Fields.

End Words.
