(* ===== verification/Dll.v ===== *)
(** * Doubly-linked lists in word memory

    Intrusive lists with a next and a previous link at fixed fields of their
    elements: the heap's bins and the slab allocator's page lists. *)

From S2P Require Import Prelude Words.

Module Dll.
Import Words.

Section Dll.
Context {F : Type} `{HF : Fields F} (fn fp : F).
Hypothesis fn_fp : fn ≠ fp.

(** Only link words of elements of [D] are written. *)
Definition link_writes (D : Z → Prop) (m m' : mem) : Prop :=
  ∀ w, (∀ b, D b → w ≠ b + off fn ∧ w ≠ b + off fp) → m' !! w = m !! w.

Lemma link_writes_refl D m : link_writes D m m.
Proof. done. Qed.

Lemma link_writes_trans D m1 m2 m3 : link_writes D m1 m2 → link_writes D m2 m3 → link_writes D m1 m3.
Proof. intros H1 H2 w Hw. by rewrite H2, H1. Qed.

Lemma link_writes_next (D : Z → Prop) m b v : D b → link_writes D m (set m b fn v).
Proof. intros Hb w Hw. apply wr_ne. destruct (Hw b Hb). lia. Qed.

Lemma link_writes_prev (D : Z → Prop) m b v : D b → link_writes D m (set m b fp v).
Proof. intros Hb w Hw. apply wr_ne. destruct (Hw b Hb). lia. Qed.

Lemma link_writes_far D m m' a f : link_writes D m m' → (∀ b, D b → apart a b) → get m' a f = get m a f.
Proof.
  intros Hl HD. unfold get, rd, apart in *. rewrite Hl; [done|]. intros b Hb.
  destruct (HD b Hb); pose proof (off_range f); pose proof (off_range fn); pose proof (off_range fp); lia.
Qed.

(** Other fields are never touched. *)
Lemma link_writes_other D m m' a f : link_writes D m m' → (∀ b, D b → a = b ∨ apart a b) → f ≠ fn → f ≠ fp →
  get m' a f = get m a f.
Proof.
  intros Hl HD H1 H2. unfold get, rd, apart in *. rewrite Hl; [done|]. intros b Hb.
  pose proof (off_range f). pose proof (off_range fn). pose proof (off_range fp).
  assert (off f ≠ off fn) by (intros E; by apply H1, off_inj). assert (off f ≠ off fp) by (intros E; by apply H2, off_inj).
  destruct (HD b Hb); lia.
Qed.

(** [seg m p c l q e]: following the next links from [c] visits [l] and reaches
    [e]; back links start at [p] and the last visited block is [q]. *)
Fixpoint seg (m : mem) (p c : Z) (l : list Z) (q e : Z) : Prop :=
  match l with
  | [] => p = q ∧ c = e
  | b :: l => c = b ∧ b ≠ 0 ∧ get m b fp = p ∧ seg m b (get m b fn) l q e
  end.

Lemma seg_app m p c l r q e : seg m p c (l ++ r) q e ↔ ∃ q1 e1, seg m p c l q1 e1 ∧ seg m q1 e1 r q e.
Proof.
  revert p c. induction l as [|b l IH]; intros p c; cbn.
  - split; [intros H; by exists p, c|by intros (? & ? & [-> ->] & ?)].
  - rewrite IH. split.
    + intros (-> & ? & ? & q1 & e1 & ? & ?). by exists q1, e1.
    + intros (q1 & e1 & (-> & ? & ? & ?) & ?). split_and!; try done. by exists q1, e1.
Qed.

Lemma seg_ext m m' p c l q e :
  (∀ x, x ∈ l → get m' x fn = get m x fn ∧ get m' x fp = get m x fp) →
  seg m p c l q e → seg m' p c l q e.
Proof.
  revert p c. induction l as [|b l IH]; intros p c He; cbn; [done|]. intros (-> & ? & Hp & H).
  destruct (He b) as [E1 E2]; [left|]. rewrite E1, E2. split_and!; try done.
  apply IH; [|done]. intros; apply He. by right.
Qed.

(** A non-empty segment ends in a block; redirecting its exit or its entry. *)
Lemma seg_last m p c l q e : seg m p c l q e → l ≠ [] → ∃ l', l = l' ++ [q] ∧ q ≠ 0 ∧ get m q fn = e.
Proof.
  intros H Hne. destruct (exists_last Hne) as (l' & x & ->). apply seg_app in H as (q1 & e1 & _ & H).
  cbn in H. destruct H as (-> & ? & ? & <- & <-). by exists l'.
Qed.

Lemma seg_redirect m p c l q e e' : seg m p c l q e → NoDup l → l ≠ [] →
  (∀ x y, x ∈ l → y ∈ l → x = y ∨ apart x y) → seg (set m q fn e') p c l q e'.
Proof.
  intros H Hnd Hne Hsep. destruct (exists_last Hne) as (l' & x & ->).
  apply seg_app in H as (q1 & e1 & H & Hx). cbn in Hx. destruct Hx as (-> & ? & ? & <- & _).
  apply NoDup_app in Hnd as (_ & Hnd & _). apply seg_app. exists q1, x. split.
  - eapply seg_ext; [|exact H]. intros y Hy. destruct (Hsep x y) as [->|]; [set_solver..| |].
    + exfalso. apply (Hnd y Hy). set_solver.
    + by rewrite !get_set_apart.
  - cbn. rewrite get_set_eq, get_set_field by congruence. done.
Qed.

Lemma seg_back m p p' c l q : seg m p c l q 0 → NoDup l →
  (∀ x y, x ∈ l → y ∈ l → x = y ∨ apart x y) →
  ∃ q', seg (if negb (c =? 0) then set m c fp p' else m) p' c l q' 0.
Proof.
  destruct l as [|b l]; cbn.
  - intros [_ ->] _ _. by exists p'.
  - intros (-> & Hb & _ & H) [Hnb Hnd]%NoDup_cons Hsep. destruct (Z.eqb_spec b 0); [done|]. cbn [negb].
    exists q. rewrite get_set_eq, get_set_field by congruence. split_and!; try done.
    eapply seg_ext; [|exact H]. intros x Hx. destruct (Hsep b x) as [->|]; [set_solver..|done|].
    by rewrite !get_set_apart.
Qed.

Lemma seg_head m p c l q e : seg m p c l q e → l ≠ [] → c ∈ l.
Proof. destruct l; [done|]. intros (-> & _) _. left. Qed.

Lemma seg_head0 m p c l q : seg m p c l q 0 → c ≠ 0 → c ∈ l.
Proof. intros H Hc. apply (seg_head m p c l q 0 H). intros ->. by destruct H. Qed.

(** Unlinking [b] from its list, on words. *)
Definition unlinked (m : mem) (b : Z) : mem :=
  let p := get m b fp in
  let n := get m b fn in
  let m := if negb (p =? 0) then set m p fn n else m in
  let m := if negb (n =? 0) then set m n fp p else m in
  set (set m b fn 0) b fp 0.

Lemma unlinked_seg m b c l1 l2 q : seg m 0 c (l1 ++ b :: l2) q 0 → NoDup (l1 ++ b :: l2) →
  (∀ x y, x ∈ l1 ++ b :: l2 → y ∈ l1 ++ b :: l2 → x = y ∨ apart x y) →
  (∃ q', seg (unlinked m b) 0 (if get m b fp =? 0 then get m b fn else c) (l1 ++ l2) q' 0) ∧
  link_writes (λ x, x ∈ l1 ++ b :: l2) m (unlinked m b) ∧
  (get m b fp ≠ 0 → get m b fp ∈ l1) ∧ (get m b fn ≠ 0 → get m b fn ∈ l2).
Proof.
  intros Hs Hnd Hsep. apply seg_app in Hs as (p & ? & H1 & -> & Hb & Hp & H2).
  unfold unlinked. rewrite Hp. set (n := get m b fn) in *. cbv zeta.
  assert (Hpl : p ≠ 0 → p ∈ l1 ∧ l1 ≠ []).
  { intros Hp0. destruct l1 as [|a l1]; [by destruct H1|]. destruct (seg_last _ _ _ _ _ _ H1) as (l' & -> & _); [done|].
    split; [set_solver|by destruct l']. }
  assert (Hnl : n ≠ 0 → n ∈ l2) by (intros; by eapply seg_head0).
  assert (Hbn : b ∉ l1 ++ l2) by (by apply NoDup_app_cons_mid in Hnd as [? _]).
  assert (Hap : ∀ x y, x ∈ l1 → y ∈ b :: l2 → apart x y).
  { intros x y Hx Hy. destruct (Hsep x y) as [->|]; [set_solver..| |done].
    apply NoDup_app in Hnd as (_ & Hnd & _). by destruct (Hnd y Hx). }
  assert (Hapb : ∀ x, x ∈ l1 ++ l2 → apart b x).
  { intros x Hx. destruct (Hsep b x) as [->|]; [set_solver..|done|done]. }
  set (m1 := if negb (p =? 0) then set m p fn n else m).
  set (m2 := if negb (n =? 0) then set m1 n fp p else m1).
  assert (S1 : seg m1 0 (if p =? 0 then n else c) l1 p n).
  { subst m1. destruct (Z.eqb_spec p 0) as [E|Hp0]; cbn [negb].
    - destruct l1 as [|a l1]; [by destruct H1 as [<- _]|].
      destruct (seg_last _ _ _ _ _ _ H1) as (l' & _ & ? & _); done.
    - destruct (Hpl Hp0). eapply seg_redirect; [done| |done|].
      + by apply NoDup_app in Hnd as (? & _).
      + intros x y Hx Hy. apply Hsep; set_solver. }
  assert (S2 : seg m1 b n l2 q 0).
  { subst m1. destruct (Z.eqb_spec p 0) as [E|Hp0]; cbn [negb]; [done|]. eapply seg_ext; [|exact H2].
    intros x Hx. rewrite !get_set_apart; [done|apply Hap; [by apply Hpl|set_solver]..]. }
  assert (∃ q', seg m2 p n l2 q' 0) as [q' S3].
  { apply (seg_back m1 b p n l2 q S2).
    - apply NoDup_app in Hnd as (_ & _ & Hnd). by apply NoDup_cons in Hnd as [_ ?].
    - intros x y Hx Hy. apply Hsep; set_solver. }
  assert (S4 : seg m2 0 (if p =? 0 then n else c) l1 p n).
  { subst m2. destruct (Z.eqb_spec n 0) as [|Hn0]; cbn [negb]; [done|]. eapply seg_ext; [|exact S1].
    intros x Hx. rewrite !get_set_apart; [done|apply apart_sym, Hap; [done|set_solver]..]. }
  split_and!; [|..|by intros; apply Hpl|done].
  - exists q'. apply (seg_ext m2). { intros x Hx. rewrite !get_set_apart by (by apply Hapb). done. }
    apply seg_app. by exists p, n.
  - apply (link_writes_trans _ _ m2).
    + apply (link_writes_trans _ _ m1).
      * subst m1. destruct (Z.eqb_spec p 0); cbn [negb]; [done|]. apply link_writes_next. set_solver.
      * subst m2. destruct (Z.eqb_spec n 0); cbn [negb]; [done|]. apply link_writes_prev. set_solver.
    + eapply link_writes_trans; [apply link_writes_next|apply link_writes_prev]; set_solver.
Qed.

(** [list_push] and [list_remove] return the memory and the new head. *)
Definition list_push (head b : Z) (m : mem) : mem * Z :=
  let m := set (set m b fn head) b fp 0 in
  (if negb (head =? 0) then set m head fp b else m, b).

Definition list_remove (head b : Z) (m : mem) : mem * Z :=
  (unlinked m b, if get m b fp =? 0 then get m b fn else head).

Lemma list_push_spec m c l q b : seg m 0 c l q 0 → NoDup l → b ≠ 0 → (∀ x, x ∈ l → apart b x) →
  (∀ x y, x ∈ l → y ∈ l → x = y ∨ apart x y) →
  (∃ q', seg (fst (list_push c b m)) 0 b (b :: l) q' 0) ∧
  link_writes (λ x, x = b ∨ x ∈ l) m (fst (list_push c b m)).
Proof.
  intros Hq Hnd Hb0 Hap Hsep. unfold list_push. cbn [fst]. set (m1 := set (set m b fn c) b fp 0).
  set (m2 := if negb (c =? 0) then set m1 c fp b else m1).
  assert (Hmem : c ≠ 0 → c ∈ l) by (intros; by eapply seg_head0).
  assert (Hq1 : seg m1 0 c l q 0).
  { eapply seg_ext; [|exact Hq]. intros x Hx. pose proof (Hap x Hx). subst m1. by rewrite !get_set_apart. }
  split.
  - destruct (seg_back m1 0 b c l q Hq1 Hnd Hsep) as [q' Hq']. fold m2 in Hq'. exists q'.
    assert (Hb1 : get m2 b fp = 0 ∧ get m2 b fn = c).
    { subst m2. destruct (Z.eqb_spec c 0) as [|Hne]; cbn [negb];
        [|rewrite !(get_set_apart _ c b) by (apply apart_sym, Hap, Hmem, Hne)];
        subst m1; by rewrite get_set_eq, get_set_field, get_set_eq by congruence. }
    destruct Hb1 as [E1 E2]. cbn. by rewrite E1, E2.
  - assert (link_writes (λ x, x = b ∨ x ∈ l) m m1)
      by (eapply link_writes_trans; [apply link_writes_next|apply link_writes_prev]; by left).
    subst m2. destruct (Z.eqb_spec c 0); cbn [negb]; [done|].
    eapply link_writes_trans; [done|]. apply link_writes_prev. auto.
Qed.

(** ** Families of disjoint lists *)

Section Family.
Context {I : Type} `{EqDecision I}.

(** One list per index, no element in two places, all elements apart. *)
Record family (m : mem) (heads : I → Z) (ls : I → list Z) : Prop := {
  fa_seg : ∀ i, ∃ q, seg m 0 (heads i) (ls i) q 0;
  fa_nodup : ∀ i, NoDup (ls i);
  fa_disj : ∀ i j x, x ∈ ls i → x ∈ ls j → i = j;
  fa_sep : ∀ i j x y, x ∈ ls i → y ∈ ls j → x = y ∨ apart x y }.

Definition upd {A} (f : I → A) (i : I) (a : A) : I → A := λ j, if decide (j = i) then a else f j.

Lemma upd_eq {A} (f : I → A) i a : upd f i a i = a.
Proof. unfold upd. by rewrite decide_True. Qed.

Lemma upd_ne {A} (f : I → A) i j a : j ≠ i → upd f i a j = f j.
Proof. intros. unfold upd. by rewrite decide_False. Qed.

Lemma elem_upd (f : I → list Z) i l j x : x ∈ upd f i l j ↔ (j = i ∧ x ∈ l) ∨ (j ≠ i ∧ x ∈ f j).
Proof. unfold upd. destruct (decide (j = i)); naive_solver. Qed.

Lemma family_ext m m' heads ls :
  (∀ i x, x ∈ ls i → get m' x fn = get m x fn ∧ get m' x fp = get m x fp) → family m heads ls → family m' heads ls.
Proof.
  intros He [Hl ? ? ?]. split; try done. intros i. destruct (Hl i) as [q Hq].
  exists q. eapply seg_ext; [|exact Hq]. intros x Hx. by apply (He i).
Qed.

(** Replacing one list: the others are untouched when only elements of the new
    and the old list are written. *)
Lemma family_replace m m' heads ls i c' l' q' (D : Z → Prop) :
  family m heads ls → link_writes D m m' → seg m' 0 c' l' q' 0 → NoDup l' →
  (∀ x j y, D x → j ≠ i → y ∈ ls j → apart y x) →
  (∀ x j y, x ∈ l' → y ∈ ls j → j ≠ i → apart x y) →
  (∀ x y, x ∈ l' → y ∈ l' → x = y ∨ apart x y) →
  family m' (upd heads i c') (upd ls i l').
Proof.
  intros [Hl Hnd Hdis Hsep] Hw Hseg Hnd' HD Hx Hll. split.
  - intros j. destruct (decide (j = i)) as [->|Hne].
    + rewrite !upd_eq. by exists q'.
    + rewrite !upd_ne by done. destruct (Hl j) as [q Hq]. exists q. eapply seg_ext; [|exact Hq].
      intros x Hxj. split; apply (link_writes_far D); try done; intros b Hb; by apply (HD b j).
  - intros j. destruct (decide (j = i)) as [->|]; [by rewrite upd_eq|by rewrite upd_ne].
  - intros j k x. rewrite !elem_upd. intros [[-> Hj]|[? Hj]] [[-> Hk]|[? Hk]]; [done| | |by eapply Hdis].
    + pose proof (Hx x k x Hj Hk ltac:(done)) as Ha. unfold apart in Ha. lia.
    + pose proof (Hx x j x Hk Hj ltac:(done)) as Ha. unfold apart in Ha. lia.
  - intros j k x y. rewrite !elem_upd. intros [[-> Hj]|[? Hj]] [[-> Hk]|[? Hk]].
    + auto.
    + right. by apply (Hx x k y).
    + right. apply apart_sym. by apply (Hx y j x).
    + by apply (Hsep j k).
Qed.

Lemma family_apart m heads ls i j x y : family m heads ls → x ∈ ls i → y ∈ ls j → i ≠ j → apart x y.
Proof.
  intros Hf Hx Hy Hne. destruct (fa_sep _ _ _ Hf i j x y Hx Hy) as [->|]; [|done].
  by destruct Hne; apply (fa_disj _ _ _ Hf _ _ y).
Qed.

Lemma family_push m heads ls i b : family m heads ls → b ≠ 0 → (∀ j x, x ∈ ls j → apart b x) →
  family (fst (list_push (heads i) b m)) (upd heads i b) (upd ls i (b :: ls i)) ∧
  link_writes (λ x, x = b ∨ x ∈ ls i) m (fst (list_push (heads i) b m)).
Proof.
  intros Hf Hb0 Hap. destruct (fa_seg _ _ _ Hf i) as [q Hq]. pose proof (fa_sep _ _ _ Hf i i) as Hsep.
  destruct (list_push_spec m (heads i) (ls i) q b Hq (fa_nodup _ _ _ Hf i) Hb0 (Hap i) Hsep) as [[q' Hq'] Hw].
  split; [|done]. apply (family_replace m _ heads ls i b (b :: ls i) q' _ Hf Hw Hq').
  - apply NoDup_cons. split; [|apply Hf]. intros Hin. pose proof (Hap i b Hin) as H'. unfold apart in H'. lia.
  - intros x j y [->|Hx] Hj Hy; [by apply apart_sym, (Hap j)|by eapply family_apart].
  - intros x j y [->|Hx]%elem_of_cons Hy Hj; [by apply (Hap j)|by eapply family_apart].
  - intros x y [->|Hx]%elem_of_cons [->|Hy]%elem_of_cons; [by left|right; by apply (Hap i)| |by apply Hsep].
    right. by apply apart_sym, (Hap i).
Qed.

Lemma family_remove m heads ls i b l1 l2 : family m heads ls → ls i = l1 ++ b :: l2 →
  family (fst (list_remove (heads i) b m)) (upd heads i (snd (list_remove (heads i) b m))) (upd ls i (l1 ++ l2)) ∧
  link_writes (λ x, x ∈ ls i) m (fst (list_remove (heads i) b m)) ∧
  (get m b fp ≠ 0 → get m b fp ∈ ls i ∧ get m b fp ≠ b) ∧ (get m b fn ≠ 0 → get m b fn ∈ ls i ∧ get m b fn ≠ b).
Proof.
  intros Hf Hl. destruct (fa_seg _ _ _ Hf i) as [q Hq]. pose proof (fa_nodup _ _ _ Hf i) as Hnd.
  pose proof (fa_sep _ _ _ Hf i i) as Hsep. rewrite Hl in Hq, Hnd, Hsep.
  destruct (unlinked_seg m b (heads i) l1 l2 q Hq Hnd Hsep) as ([q' Hq'] & Hw & Hp & Hn). rewrite Hl.
  assert (Hbn : b ∉ l1 ++ l2) by (by apply NoDup_app_cons_mid in Hnd as [? _]).
  split_and!; [|done|..].
  2:{ intros H0. specialize (Hp H0). rewrite elem_of_app. split; [by left|]. intros E. rewrite E in Hp.
      apply Hbn, elem_of_app. by left. }
  2:{ intros H0. specialize (Hn H0). rewrite elem_of_app, elem_of_cons. split; [by right; right|]. intros E. rewrite E in Hn.
      apply Hbn, elem_of_app. by right. }
  apply (family_replace m _ heads ls i _ (l1 ++ l2) q' (λ x, x ∈ l1 ++ b :: l2) Hf Hw Hq').
  - by apply NoDup_app_cons_mid in Hnd as [_ ?].
  - intros x j y Hx Hj Hy. rewrite <- Hl in Hx. by eapply family_apart.
  - intros x j y Hx Hy Hj. assert (x ∈ ls i) as Hx' by (rewrite Hl; set_solver). by eapply family_apart.
  - intros x y Hx Hy. apply Hsep; set_solver.
Qed.

End Family.

End Dll.

End Dll.
