(* ===== verification/Heap.v ===== *)
(** * The kernel heap (src/kernel/core/mem/heap.c)

    Memory is the word memory of [Words].  A block header is five words of that memory, so stale headers left by coalescing,
    user data and live headers share one store and may alias; that they never do
    is proved, not assumed.  The slab allocator that [kmalloc] tries first is
    the interface [SlabOps]: it shares the memory and has its own state.  What
    the physical page allocator answers is an argument ([avail]: how many pages
    it hands out before it returns NULL).  [None] is a kernel panic. *)

From S2P Require Import Prelude Bytes Words.

Module Heap.
Export Words.

Definition PAGE_SIZE : Z := 4096.
Definition HEAP_START : Z := 0xFFFFFFFF90000000.
Definition HEAP_SIZE : Z := 16 * 1024 * 1024.
Definition HEAP_MAX_SIZE : Z := 256 * 1024 * 1024.
Definition HEAP_GROW_CHUNK : Z := 4 * 1024 * 1024.
Definition BLOCK_MAGIC : Z := 0xBEEFCAFE.
Definition MAGIC_SHIFT : Z := 32.
Definition FLAG_FREE : Z := 1.
Definition NUM_BINS : Z := 13.
Definition SLAB_MAGIC : Z := 0x51AB0BACE51AB0B.

(** ** Header fields *)

(** [block_t]: the fields of the 64-byte header with their offsets. *)
Inductive field := f_size | f_flags | f_prev_phys | f_bin_next | f_bin_prev.

Definition block_off (f : field) : Z :=
  match f with f_size => 0 | f_flags => 8 | f_prev_phys => 16 | f_bin_next => 24 | f_bin_prev => 32 end.

#[export] Instance block_fields : Fields field.
Proof. refine {| off := block_off |}; [intros []; cbn; lia|intros [] []; cbn; lia || done]. Defined.

Definition sizeof_block : Z := 64.

Record heap := Heap {
  hmem : mem;
  bins : list Z;             (* free-list heads *)
  heap_first : Z;
  heap_used : Z;
  heap_mapped_end : Z }.

Definition with_mem (m : mem) (h : heap) : heap :=
  Heap m (bins h) (heap_first h) (heap_used h) (heap_mapped_end h).
Definition with_bins (f : list Z → list Z) (h : heap) : heap :=
  Heap (hmem h) (f (bins h)) (heap_first h) (heap_used h) (heap_mapped_end h).
Definition with_used (u : Z) (h : heap) : heap :=
  Heap (hmem h) (bins h) (heap_first h) u (heap_mapped_end h).
Definition with_end (e : Z) (h : heap) : heap :=
  Heap (hmem h) (bins h) (heap_first h) (heap_used h) e.

(** [b->f = v]. *)
Definition put (b : Z) (f : field) (v : Z) (h : heap) : heap := with_mem (set (hmem h) b f v) h.

(** ** Bins *)

(** [63 - __builtin_clzll(size)] is the index of the highest set bit. *)
Definition bin_for_size (size : Z) : Z :=
  if size <=? 16 then 0
  else
    let b := Z.log2 size in
    let b := b - 4 in
    let b := if b <? 0 then 0 else b in
    let b := if Z.shiftl 16 b <? size then b + 1 else b in
    if NUM_BINS <=? b then NUM_BINS - 1 else b.

Definition flag_word (free_flag : bool) : Z :=
  Z.lor (Z.shiftl BLOCK_MAGIC MAGIC_SHIFT) (if free_flag then FLAG_FREE else 0).

Definition block_set_free (b : Z) (free_flag : bool) (h : heap) : heap :=
  put b f_flags (flag_word free_flag) h.

Definition block_is_free (m : mem) (b : Z) : bool := negb (Z.land (get m b f_flags) FLAG_FREE =? 0).

Definition block_magic_ok (m : mem) (b : Z) : bool := Z.shiftr (get m b f_flags) MAGIC_SHIFT =? BLOCK_MAGIC.

(** Physical next block, 0 past the mapped heap. *)
Definition block_next_phys (b : Z) (h : heap) : Z :=
  let next := u64 (b + sizeof_block + get (hmem h) b f_size) in
  if heap_mapped_end h <=? next then 0 else next.

Definition bin_push (b : Z) (h : heap) : heap :=
  let idx := Z.to_nat (bin_for_size (get (hmem h) b f_size)) in
  let head := default 0 (bins h !! idx) in
  let h := put b f_bin_next head h in
  let h := put b f_bin_prev 0 h in
  let h := if negb (head =? 0) then put head f_bin_prev b h else h in
  with_bins <[idx := b]> h.

Definition bin_remove (b : Z) (h : heap) : heap :=
  let idx := Z.to_nat (bin_for_size (get (hmem h) b f_size)) in
  let h :=
    if negb (get (hmem h) b f_bin_prev =? 0)
    then put (get (hmem h) b f_bin_prev) f_bin_next (get (hmem h) b f_bin_next) h
    else with_bins <[idx := get (hmem h) b f_bin_next]> h in
  let h :=
    if negb (get (hmem h) b f_bin_next =? 0)
    then put (get (hmem h) b f_bin_next) f_bin_prev (get (hmem h) b f_bin_prev) h
    else h in
  let h := put b f_bin_next 0 h in
  put b f_bin_prev 0 h.

(** ** Growth *)

(** The last block of the physical chain; the loop visits distinct headers, so
    the number of words in memory bounds it. *)
Fixpoint last_phys (fuel : nat) (b tail : Z) (h : heap) : Z :=
  match fuel with
  | O => tail
  | S fuel => if b =? 0 then tail else last_phys fuel (block_next_phys b h) b h
  end.

Definition last_block (h : heap) : Z := last_phys (S (size (hmem h))) (heap_first h) 0 h.

(** Bytes [heap_extend] asks for, 0 when the cap leaves no useful room. *)
Definition grow_chunk (need : Z) (h : heap) : Z :=
  let want := u64 (need + sizeof_block) in
  let chunk := if HEAP_GROW_CHUNK <? want then want else HEAP_GROW_CHUNK in
  let chunk := ALIGN_UP chunk PAGE_SIZE in
  let hard_cap := HEAP_START + HEAP_MAX_SIZE in
  if hard_cap <=? heap_mapped_end h then 0
  else if hard_cap <? u64 (heap_mapped_end h + chunk) then
    let chunk := Z.land (hard_cap - heap_mapped_end h) (not64 (PAGE_SIZE - 1)) in
    if chunk <? sizeof_block + 16 then 0 else chunk
  else chunk.

Definition heap_extend (need : Z) (avail : nat) (h : heap) : heap * bool :=
  let chunk := grow_chunk need h in
  if chunk =? 0 then (h, false)
  else
    let base := heap_mapped_end h in
    let mapped := Z.min (Z.of_nat avail) (chunk / PAGE_SIZE) in
    if mapped =? 0 then (h, false)
    else
      let chunk := mapped * PAGE_SIZE in
      let h := put base f_size (chunk - sizeof_block) h in
      let h := put base f_bin_next 0 h in
      let h := put base f_bin_prev 0 h in
      let h := put base f_prev_phys (last_block h) h in
      let h := block_set_free base true h in
      let h := with_end (base + chunk) h in
      (bin_push base h, true).

(** ** Allocation from the bins *)

(** [while (candidate)]: first block of one bin that is large enough. *)
Fixpoint scan_bin (fuel : nat) (candidate sz : Z) (m : mem) : Z :=
  match fuel with
  | O => 0
  | S fuel =>
      if candidate =? 0 then 0
      else if sz <=? get m candidate f_size then candidate
      else scan_bin fuel (get m candidate f_bin_next) sz m
  end.

(** [for (i = bin_for_size(size); i < NUM_BINS; i++)]. *)
Fixpoint scan_bins (heads : list Z) (sz : Z) (m : mem) : Z :=
  match heads with
  | [] => 0
  | c :: heads =>
      let found := scan_bin (S (size m)) c sz m in
      if found =? 0 then scan_bins heads sz m else found
  end.

Definition find_block (sz : Z) (h : heap) : Z :=
  scan_bins (drop (Z.to_nat (bin_for_size sz)) (bins h)) sz (hmem h).

(** [after = block_next_phys(a); if (after) after->prev_phys = a;] *)
Definition relinked (a : Z) (h : heap) : heap :=
  let next := block_next_phys a h in
  if negb (next =? 0) then put next f_prev_phys a h else h.

(** Write the header of the free block cut from the tail of [b] and link the
    block behind it back to it. *)
Definition carve (b sz remainder : Z) (h : heap) : heap * Z :=
  let split := u64 (b + sizeof_block + sz) in
  let h := put split f_size (remainder - sizeof_block) h in
  let h := put split f_prev_phys b h in
  let h := put split f_bin_next 0 h in
  let h := put split f_bin_prev 0 h in
  let h := block_set_free split true h in
  (relinked split h, split).

(** Take [found] out of its bin and split it. *)
Definition take_block (found sz : Z) (h : heap) : heap * Z :=
  let h := bin_remove found h in
  let h := block_set_free found false h in
  let remainder := u64 (get (hmem h) found f_size - sz) in
  let h :=
    if sizeof_block + 16 <=? remainder then
      let '(h, split) := carve found sz remainder h in
      let h := put found f_size sz h in
      bin_push split h
    else h in
  let h := with_used (u64 (heap_used h + (get (hmem h) found f_size + sizeof_block))) h in
  (h, u64 (found + sizeof_block)).

(** The part of [kmalloc] under [heap_lock]; [sz] is already rounded. *)
Definition heap_alloc (sz : Z) (avail : nat) (h : heap) : heap * Z :=
  let found := find_block sz h in
  if negb (found =? 0) then take_block found sz h
  else
    let '(h, grown) := heap_extend sz avail h in
    let found := if grown then find_block sz h else 0 in
    if found =? 0 then (h, 0) else take_block found sz h.

Definition heap_owns (ptr : Z) (h : heap) : bool := (HEAP_START <=? ptr) && (ptr <? heap_mapped_end h).

(** ** Freeing *)

(** Merge with the physically next block if it is free. *)
Definition coalesce_next (block : Z) (h : heap) : heap :=
  let next := block_next_phys block h in
  if negb (next =? 0) && block_magic_ok (hmem h) next && block_is_free (hmem h) next then
    let h := bin_remove next h in
    let h := put block f_size (u64 (get (hmem h) block f_size + (sizeof_block + get (hmem h) next f_size))) h in
    relinked block h
  else h.

(** Merge into the physically preceding block if it is free; the block that
    results is returned. *)
Definition coalesce_prev (block : Z) (h : heap) : heap * Z :=
  let prev := get (hmem h) block f_prev_phys in
  if negb (prev =? 0) && block_magic_ok (hmem h) prev && block_is_free (hmem h) prev then
    let h := bin_remove prev h in
    let h := put prev f_size (u64 (get (hmem h) prev f_size + (sizeof_block + get (hmem h) block f_size))) h in
    (relinked prev h, prev)
  else (h, block).

(** The part of [kfree] under [heap_lock], after the double-free check. *)
Definition release (block : Z) (h : heap) : heap :=
  let h := with_used (u64 (heap_used h - (get (hmem h) block f_size + sizeof_block))) h in
  let h := coalesce_next block h in
  let '(h, block) := coalesce_prev block h in
  let h := block_set_free block true h in
  bin_push block h.

(** [kfree] past the slab check: ignore foreign pointers, panic on a bad header
    or a free one. *)
Definition heap_free (ptr : Z) (h : heap) : option heap :=
  if negb (heap_owns ptr h) then Some h
  else
    let block := u64 (ptr - sizeof_block) in
    if negb (block_magic_ok (hmem h) block) then None
    else if block_is_free (hmem h) block then None
    else Some (release block h).

(** ** Shrinking in place *)

Definition shrink_block (block aligned_new : Z) (h : heap) : heap :=
  let old_size := get (hmem h) block f_size in
  let remainder := u64 (old_size - aligned_new) in
  if sizeof_block + 16 <=? remainder then
    let h := put block f_size aligned_new h in
    let '(h, split) := carve block aligned_new remainder h in
    let h := with_used (u64 (heap_used h - remainder)) h in
    bin_push split h
  else h.

(** ** Returning tail pages *)

(** Unmapping the page at [va]: its words are gone. *)
Definition unmap_page (va : Z) (m : mem) : mem := filter (λ kv, ¬ (va ≤ kv.1 < va + PAGE_SIZE)) m.

Definition unmap_range (freeable_start freeable_end : Z) (h : heap) : heap :=
  (for i < (freeable_end - freeable_start) / PAGE_SIZE from h do
     λ h, with_mem (unmap_page (freeable_end - (i + 1) * PAGE_SIZE) (hmem h)) h)%K.

Definition base_size : Z := HEAP_START + HEAP_SIZE.

Fixpoint shrink_loop (fuel : nat) (last shrink_to : Z) (h : heap) : heap * Z :=
  match fuel with
  | O => (h, shrink_to)
  | S fuel =>
      if (last =? 0) || (shrink_to <=? base_size) then (h, shrink_to)
      else
        let block_end := u64 (last + sizeof_block + get (hmem h) last f_size) in
        if negb (block_is_free (hmem h) last) || negb (block_end =? shrink_to) then (h, shrink_to)
        else
          let block_start := last in
          let freeable_end := shrink_to in
          let freeable_start := ALIGN_UP block_start PAGE_SIZE in
          if freeable_end <=? freeable_start then (h, shrink_to)
          else
            let freeable_start := if freeable_start <? base_size then base_size else freeable_start in
            if freeable_end <=? freeable_start then (h, shrink_to)
            else if negb (freeable_start =? block_start) &&
                    (u64 (freeable_start - block_start) <? sizeof_block + 16) then (h, shrink_to)
            else
              let last_prev := get (hmem h) last f_prev_phys in
              let header_unmapped := freeable_start =? block_start in
              let h := if header_unmapped then bin_remove last h else h in
              let h := unmap_range freeable_start freeable_end h in
              let shrink_to := freeable_start in
              if header_unmapped then shrink_loop fuel last_prev shrink_to h
              else
                let h := bin_remove last h in
                let h := put last f_size (u64 (freeable_start - block_start - sizeof_block)) h in
                (bin_push last h, shrink_to)
  end.

Definition heap_shrink (h : heap) : heap * Z :=
  let original_end := heap_mapped_end h in
  if heap_mapped_end h <=? base_size then (h, 0)
  else
    let '(h', shrink_to) := shrink_loop (S (size (hmem h))) (last_block h) (heap_mapped_end h) h in
    (with_end shrink_to h', original_end - shrink_to).

Definition heap_get_used_bytes (h : heap) : Z := heap_used h.

Definition heap_get_stats (h : heap) : Z * Z * Z :=
  (heap_used h, HEAP_MAX_SIZE, u64 (heap_mapped_end h - HEAP_START)).

(** The block layout [heap_init] writes into freshly mapped memory [m]. *)
Definition heap_setup (m : mem) : heap :=
  let initial := HEAP_START in
  let h := Heap (wr m HEAP_START 0xDEADBEEFCAFEBABE) (replicate (Z.to_nat NUM_BINS) 0) 0 0 0 in
  let h := put initial f_size (HEAP_SIZE - sizeof_block) h in
  let h := put initial f_prev_phys 0 h in
  let h := put initial f_bin_next 0 h in
  let h := put initial f_bin_prev 0 h in
  let h := block_set_free initial true h in
  let h := Heap (hmem h) (bins h) initial (heap_used h) (HEAP_START + HEAP_SIZE) in
  bin_push initial h.

End Heap.
