(* ===== verification/HeapFacts.v ===== *)
(** * Heap: layout, headers and free lists

    The abstract heap is a list of cells that tile the mapped window.  This file
    has the pure facts about tilings, the frame facts of header words, and the
    doubly-linked free lists. *)

From S2P Require Import Prelude Bytes Words Dll Heap.

Create HintDb heap.

Module HeapFacts.
Import Heap.

(** ** Header words *)

#[export] Instance field_eq_dec : EqDecision field.
Proof. solve_decision. Defined.

Lemma block_off_range (f : field) : 0 ≤ off f < 40.
Proof. destruct f; cbn; lia. Qed.

(** ** Cells and tilings *)

Record cell := Cell { c_addr : Z; c_size : Z; c_free : bool }.

Definition c_end (c : cell) : Z := c_addr c + 64 + c_size c.

Fixpoint layout (lo : Z) (cs : list cell) (hi : Z) : Prop :=
  match cs with
  | [] => lo = hi
  | c :: cs => c_addr c = lo ∧ 16 ≤ c_size c ∧ (16 | c_size c) ∧ layout (c_end c) cs hi
  end.

Lemma layout_app lo l r hi : layout lo (l ++ r) hi ↔ ∃ mid, layout lo l mid ∧ layout mid r hi.
Proof.
  revert lo. induction l as [|c l IH]; intros lo; cbn.
  - split; [by exists lo|by intros (? & -> & ?)].
  - rewrite IH. split.
    + intros (? & ? & ? & mid & ? & ?). by exists mid.
    + intros (mid & (? & ? & ? & ?) & ?). split_and!; [done..|]. by exists mid.
Qed.

Lemma layout_le lo cs hi : layout lo cs hi → lo ≤ hi.
Proof.
  revert lo. induction cs as [|c cs IH]; intros lo; cbn; [lia|].
  intros (<- & ? & _ & H). apply IH in H. unfold c_end in H. lia.
Qed.

Lemma layout_in lo cs hi c : layout lo cs hi → c ∈ cs →
  lo ≤ c_addr c ∧ c_end c ≤ hi ∧ 16 ≤ c_size c ∧ (16 | c_size c) ∧ ((16 | lo) → (16 | c_addr c)).
Proof.
  intros Hl Hc. apply list_elem_of_split in Hc as (l & r & ->).
  revert lo Hl. induction l as [|d l IH]; intros lo; cbn.
  - intros (<- & ? & ? & H). apply layout_le in H. split_and!; try done.
  - intros (<- & ? & ? & H). destruct (IH _ H) as (? & ? & ? & ? & Ha). unfold c_end in *.
    split_and!; try done; [lia|]. intros. apply Ha.
    apply Z.divide_add_r; [apply Z.divide_add_r|]; [done|by exists 4|done].
Qed.

Definition disjoint_cells (c d : cell) : Prop := c_end c ≤ c_addr d ∨ c_end d ≤ c_addr c.

Lemma layout_split lo l c r hi : layout lo (l ++ c :: r) hi →
  (∀ d, d ∈ l → c_end d ≤ c_addr c) ∧ (∀ d, d ∈ r → c_end c ≤ c_addr d) ∧
  layout lo l (c_addr c) ∧ layout (c_end c) r hi ∧ 16 ≤ c_size c ∧ (16 | c_size c).
Proof.
  rewrite layout_app. cbn. intros (mid & Hl & <- & ? & ? & Hr). split_and!; try done.
  - intros d Hd. by eapply layout_in in Hd as (_ & ? & _); [|exact Hl].
  - intros d Hd. by eapply layout_in in Hd as (? & _); [|exact Hr].
Qed.

Lemma layout_apart lo cs hi c d : layout lo cs hi → c ∈ cs → d ∈ cs →
  c = d ∨ (apart (c_addr c) (c_addr d) ∧ disjoint_cells c d).
Proof.
  intros Hl Hc Hd. apply list_elem_of_split in Hc as (l & r & ->).
  destruct (layout_split _ _ _ _ _ Hl) as (Hb & Ha & _ & _ & ? & _).
  pose proof (layout_in _ _ _ _ Hl Hd) as (_ & _ & ? & _).
  rewrite elem_of_app, elem_of_cons in Hd. unfold disjoint_cells, apart, c_end in *.
  destruct Hd as [Hd|[->|Hd]]; [|by left|].
  - right. specialize (Hb _ Hd). lia.
  - right. specialize (Ha _ Hd). lia.
Qed.

Lemma layout_addr_inj lo cs hi c d : layout lo cs hi → c ∈ cs → d ∈ cs → c_addr c = c_addr d → c = d.
Proof.
  intros Hl Hc Hd He. destruct (layout_apart _ _ _ _ _ Hl Hc Hd) as [|[H _]]; [done|].
  unfold apart in H. lia.
Qed.

Lemma layout_sep lo cs hi c d : layout lo cs hi → c ∈ cs → d ∈ cs →
  c_addr c = c_addr d ∨ apart (c_addr c) (c_addr d).
Proof. intros Hl Hc Hd. destruct (layout_apart _ _ _ _ _ Hl Hc Hd) as [->|[? _]]; auto. Qed.

(** Merging two neighbours and cutting a cell in two keep the tiling. *)
Lemma layout_merge lo l c d r hi f : layout lo (l ++ c :: d :: r) hi →
  layout lo (l ++ Cell (c_addr c) (c_size c + (64 + c_size d)) f :: r) hi.
Proof.
  rewrite !layout_app. intros (mid & ? & H). exists mid. split; [done|]. cbn in *. unfold c_end in *. cbn.
  destruct H as (-> & ? & ? & Ha & ? & ? & H). split_and!; [done|lia| |].
  - apply Z.divide_add_r; [done|]. apply Z.divide_add_r; [by exists 4|done].
  - rewrite Ha in H.
    replace (mid + 64 + (c_size c + (64 + c_size d))) with (mid + 64 + c_size c + 64 + c_size d) by lia. done.
Qed.

Lemma layout_cut lo l c r hi sz f g : layout lo (l ++ c :: r) hi →
  16 ≤ sz → (16 | sz) → 80 ≤ c_size c - sz →
  layout lo (l ++ Cell (c_addr c) sz f :: Cell (c_addr c + 64 + sz) (c_size c - sz - 64) g :: r) hi.
Proof.
  rewrite !layout_app. intros (mid & ? & H) ? ? ?. exists mid. split; [done|]. cbn in *. unfold c_end in *. cbn.
  destruct H as (-> & ? & ? & H). split_and!; try done; [lia| |].
  - apply Z.divide_sub_r; [by apply Z.divide_sub_r|by exists 4].
  - replace (mid + 64 + sz + 64 + (c_size c - sz - 64)) with (mid + 64 + c_size c) by lia. done.
Qed.

Lemma layout_flag lo l c r hi f : layout lo (l ++ c :: r) hi →
  layout lo (l ++ Cell (c_addr c) (c_size c) f :: r) hi.
Proof. rewrite !layout_app. intros (mid & ? & H). exists mid. by split. Qed.

Lemma layout_snoc lo cs hi n f : layout lo cs hi → 16 ≤ n → (16 | n) →
  layout lo (cs ++ [Cell hi n f]) (hi + 64 + n).
Proof. rewrite layout_app. intros H ? ?. exists hi. split; [done|]. by cbn. Qed.

(** ** Headers *)

Definition hdr_ok (m : mem) (prev : Z) (c : cell) : Prop :=
  get m (c_addr c) f_size = c_size c ∧ get m (c_addr c) f_flags = flag_word (c_free c) ∧
  get m (c_addr c) f_prev_phys = prev.

Fixpoint headers (m : mem) (prev : Z) (cs : list cell) : Prop :=
  match cs with
  | [] => True
  | c :: cs => hdr_ok m prev c ∧ headers m (c_addr c) cs
  end.

(** The address of the last cell, [prev] when there is none. *)
Definition last_addr (prev : Z) (cs : list cell) : Z := default prev (c_addr <$> last cs).

Lemma headers_app m prev l r : headers m prev (l ++ r) ↔ headers m prev l ∧ headers m (last_addr prev l) r.
Proof.
  revert prev. induction l as [|c l IH]; intros prev; cbn [headers app].
  - unfold last_addr. cbn. naive_solver.
  - rewrite IH. unfold last_addr. rewrite last_cons.
    destruct (last l); cbn; naive_solver.
Qed.

(** The three words of a header the tiling depends on are unchanged. *)
Definition same_hdr (m m' : mem) (a : Z) : Prop :=
  get m' a f_size = get m a f_size ∧ get m' a f_flags = get m a f_flags ∧
  get m' a f_prev_phys = get m a f_prev_phys.

Lemma headers_ext m m' prev cs : (∀ c, c ∈ cs → same_hdr m m' (c_addr c)) → headers m prev cs → headers m' prev cs.
Proof.
  revert prev. induction cs as [|c cs IH]; intros prev He; cbn; [done|]. intros [(H1 & H2 & H3) H].
  destruct (He c) as (E1 & E2 & E3); [left|]. split; [|apply IH; [|done]; intros; apply He; by right].
  unfold hdr_ok. by rewrite E1, E2, E3.
Qed.

Lemma same_hdr_apart m a f v b : apart a b → same_hdr m (set m a f v) b.
Proof. intros. unfold same_hdr. by rewrite !get_set_apart. Qed.

Lemma same_hdr_links m a f v b : a = b ∨ apart a b → f = f_bin_next ∨ f = f_bin_prev →
  same_hdr m (set m a f v) b.
Proof. intros H [->| ->]; unfold same_hdr; by rewrite !get_set_other. Qed.

Lemma same_hdr_trans m m' m'' a : same_hdr m m' a → same_hdr m' m'' a → same_hdr m m'' a.
Proof. unfold same_hdr. intros (-> & -> & ->) (-> & -> & ->). done. Qed.

Lemma same_hdr_refl m a : same_hdr m m a.
Proof. done. Qed.

Lemma headers_in m prev cs c : headers m prev cs → c ∈ cs →
  get m (c_addr c) f_size = c_size c ∧ get m (c_addr c) f_flags = flag_word (c_free c).
Proof.
  intros H Hc. apply list_elem_of_split in Hc as (l & r & ->).
  apply headers_app in H as [_ H]. destruct H as [(? & ? & ?) _]. done.
Qed.

Lemma flag_word_free f : negb (Z.land (flag_word f) FLAG_FREE =? 0) = f.
Proof. by destruct f. Qed.

Lemma flag_word_magic f : (Z.shiftr (flag_word f) MAGIC_SHIFT =? BLOCK_MAGIC) = true.
Proof. by destruct f. Qed.

Lemma headers_free m prev cs c : headers m prev cs → c ∈ cs → block_is_free m (c_addr c) = c_free c.
Proof. intros H Hc. unfold block_is_free. destruct (headers_in _ _ _ _ H Hc) as [_ ->]. apply flag_word_free. Qed.

Lemma headers_magic m prev cs c : headers m prev cs → c ∈ cs → block_magic_ok m (c_addr c) = true.
Proof. intros H Hc. unfold block_magic_ok. destruct (headers_in _ _ _ _ H Hc) as [_ ->]. apply flag_word_magic. Qed.

(** ** Writes confined to link words, or to header words *)

Notation link_writes := (Dll.link_writes f_bin_next f_bin_prev).
Notation seg := (Dll.seg f_bin_next f_bin_prev).
Notation unlinked := (Dll.unlinked f_bin_next f_bin_prev).

Definition hdr_writes (D : Z → Prop) (m m' : mem) : Prop :=
  ∀ w, (∀ b, D b → ¬ (b ≤ w < b + 40)) → m' !! w = m !! w.

Lemma link_hdr_writes (D : Z → Prop) m m' : link_writes D m m' → hdr_writes D m m'.
Proof. intros H w Hw. apply H. intros b Hb. specialize (Hw b Hb). cbn. lia. Qed.

Lemma hdr_writes_refl D m : hdr_writes D m m.
Proof. done. Qed.

Lemma hdr_writes_trans D m1 m2 m3 : hdr_writes D m1 m2 → hdr_writes D m2 m3 → hdr_writes D m1 m3.
Proof. intros H1 H2 w Hw. by rewrite H2, H1. Qed.

Lemma hdr_writes_weaken (D D' : Z → Prop) m m' : (∀ b, D b → D' b) → hdr_writes D m m' → hdr_writes D' m m'.
Proof. intros HD H w Hw. apply H. auto. Qed.

Lemma hdr_writes_set (D : Z → Prop) m b f v : D b → hdr_writes D m (set m b f v).
Proof.
  intros Hb w Hw. apply wr_ne. specialize (Hw b Hb). pose proof (block_off_range f). lia.
Qed.

Lemma link_writes_hdr D m m' a : link_writes D m m' → (∀ b, D b → a = b ∨ apart a b) → same_hdr m m' a.
Proof. intros H HD. unfold same_hdr. split_and!; by eapply (Dll.link_writes_other f_bin_next f_bin_prev D). Qed.

#[export] Hint Resolve hdr_writes_refl hdr_writes_set : heap.

(** ** Free lists *)

Record bins_ok (m : mem) (heads : list Z) (fl : nat → list Z) : Prop := {
  bo_len : length heads = 13%nat;
  bo_list : ∀ i c, heads !! i = Some c → ∃ q, seg m 0 c (fl i) q 0;
  bo_high : ∀ i, (13 ≤ i)%nat → fl i = [];
  bo_nodup : ∀ i, NoDup (fl i);
  bo_disj : ∀ i j x, x ∈ fl i → x ∈ fl j → i = j;
  bo_sep : ∀ i j x y, x ∈ fl i → y ∈ fl j → x = y ∨ apart x y }.

Notation upd_bin := Dll.upd.

Lemma bins_ext m m' heads fl :
  (∀ i x, x ∈ fl i → get m' x f_bin_next = get m x f_bin_next ∧ get m' x f_bin_prev = get m x f_bin_prev) →
  bins_ok m heads fl → bins_ok m' heads fl.
Proof.
  intros He [? Hl ? ? ? ?]. split; try done. intros i c Hc. destruct (Hl i c Hc) as [q Hq].
  exists q. eapply Dll.seg_ext; [|exact Hq]. intros x Hx. by apply (He i).
Qed.

(** The bins as a family of lists, and back. *)
Definition head_of (heads : list Z) (i : nat) : Z := default 0 (heads !! i).

Lemma bins_family m heads fl : bins_ok m heads fl → Dll.family f_bin_next f_bin_prev m (head_of heads) fl.
Proof.
  intros [Hlen Hl Hh ? ? ?]. split; try done. intros i. unfold head_of. destruct (heads !! i) as [c|] eqn:E; [by apply Hl|].
  apply lookup_ge_None in E. rewrite Hh by lia. by exists 0.
Qed.

Lemma family_bins m heads fl i c l : bins_ok m heads fl → (i < 13)%nat → ∀ m',
  Dll.family f_bin_next f_bin_prev m' (Dll.upd (head_of heads) i c) (Dll.upd fl i l) →
  bins_ok m' (<[i := c]> heads) (upd_bin fl i l).
Proof.
  intros [Hlen Hl Hh _ _ _] Hi m' [Hs Hnd Hd Hsep]. split; try done.
  - by rewrite length_insert.
  - intros j d Hj. destruct (Hs j) as [q Hq]. exists q. unfold Dll.upd at 1, head_of in Hq.
    destruct (decide (j = i)) as [->|Hne].
    + rewrite list_lookup_insert_eq in Hj by lia. by injection Hj as <-.
    + rewrite list_lookup_insert_ne in Hj by done. by rewrite Hj in Hq.
  - intros j Hj. rewrite Dll.upd_ne by lia. auto.
Qed.

Lemma bin_push_ok h fl b i : bins_ok (hmem h) (bins h) fl → b ≠ 0 →
  (∀ j x, x ∈ fl j → apart b x) → i = Z.to_nat (bin_for_size (get (hmem h) b f_size)) → (i < 13)%nat →
  bins_ok (hmem (bin_push b h)) (bins (bin_push b h)) (upd_bin fl i (b :: fl i)) ∧
  link_writes (λ x, x = b ∨ x ∈ fl i) (hmem h) (hmem (bin_push b h)).
Proof.
  intros Hb Hb0 Hap Hidx Hi.
  destruct (Dll.family_push f_bin_next f_bin_prev ltac:(done) _ _ _ i b (bins_family _ _ _ Hb) Hb0 Hap) as [Hf Hw].
  assert (hmem (bin_push b h) = fst (Dll.list_push f_bin_next f_bin_prev (head_of (bins h) i) b (hmem h)) ∧
    bins (bin_push b h) = <[i := b]> (bins h)) as [-> ->].
  { unfold bin_push, Dll.list_push. cbv zeta. rewrite <- Hidx. fold (head_of (bins h) i).
    by destruct (negb (head_of (bins h) i =? 0)). }
  split; [|done]. by eapply family_bins.
Qed.

Lemma bin_push_rest b h : heap_first (bin_push b h) = heap_first h ∧ heap_used (bin_push b h) = heap_used h ∧
  heap_mapped_end (bin_push b h) = heap_mapped_end h.
Proof. unfold bin_push. cbv zeta. by destruct (negb _). Qed.

Lemma bin_remove_rest b h : heap_first (bin_remove b h) = heap_first h ∧
  heap_used (bin_remove b h) = heap_used h ∧ heap_mapped_end (bin_remove b h) = heap_mapped_end h.
Proof. unfold bin_remove. cbv zeta. by destruct (negb (get (hmem h) b f_bin_prev =? 0)); cbn; destruct (negb _). Qed.

Lemma bin_remove_ok h fl b i l1 l2 : bins_ok (hmem h) (bins h) fl → fl i = l1 ++ b :: l2 →
  i = Z.to_nat (bin_for_size (get (hmem h) b f_size)) →
  bins_ok (hmem (bin_remove b h)) (bins (bin_remove b h)) (upd_bin fl i (l1 ++ l2)) ∧
  link_writes (λ x, x ∈ fl i) (hmem h) (hmem (bin_remove b h)).
Proof.
  intros Hb Hfl Hi. assert (Hi13 : (i < 13)%nat).
  { destruct (decide (i < 13)%nat); [done|]. rewrite (bo_high _ _ _ Hb) in Hfl by lia. by destruct l1. }
  destruct (Dll.family_remove f_bin_next f_bin_prev ltac:(done) _ _ _ i b l1 l2 (bins_family _ _ _ Hb) Hfl) as (Hf & Hw & Hp & _).
  assert (Hin : b ∈ fl i) by (rewrite Hfl; set_solver).
  assert (hmem (bin_remove b h) = fst (Dll.list_remove f_bin_next f_bin_prev (head_of (bins h) i) b (hmem h)) ∧
    bins (bin_remove b h) = <[i := snd (Dll.list_remove f_bin_next f_bin_prev (head_of (bins h) i) b (hmem h))]> (bins h)) as [-> ->].
  { unfold bin_remove, Dll.list_remove, Dll.unlinked. cbv zeta. cbn [fst snd]. rewrite <- Hi.
    destruct (Z.eqb_spec (get (hmem h) b f_bin_prev) 0) as [E|Hp0]; cbn [negb hmem with_bins]; [by destruct (negb _)|].
    destruct (Hp Hp0) as [Hpin Hpb]. destruct (bo_sep _ _ _ Hb i i _ b Hpin Hin) as [|Ha]; [done|].
    cbn [hmem put with_mem]. rewrite !(get_set_apart _ _ b) by done. unfold head_of.
    destruct (lookup_lt_is_Some_2 (bins h) i) as [c Hc]; [by rewrite (bo_len _ _ _ Hb)|].
    rewrite Hc, list_insert_id by done. by destruct (negb _). }
  split; [|done]. by eapply family_bins.
Qed.

End HeapFacts.
