(* ===== verification/HeapInv.v ===== *)
(** * Heap: the representation invariant and the steps that keep it

    [core h cs fl x]: the memory of [h] represents the cells [cs], and the bins
    hold exactly the free cells other than the one at address [x] (the block
    an operation has in hand; 0 when there is none).  Each lemma below is one
    step of [kmalloc], [kfree], [krealloc], [heap_extend] or [heap_shrink]. *)

From S2P Require Import Prelude Bytes Words Dll Heap HeapFacts.

Module HeapInv.
Import Heap HeapFacts.

(** ** Size classes *)

Lemma bin_for_size_range n : 0 ≤ bin_for_size n ≤ 12.
Proof.
  unfold bin_for_size, NUM_BINS. destruct (n <=? 16); [lia|]. cbv zeta.
  repeat match goal with |- context [if ?b then _ else _] => destruct b eqn:? end; lia.
Qed.

(** Above 16 bytes, and before the clamp: the least [b] with [n <= 16 << b]. *)
Lemma bin_for_size_spec n b : 0 ≤ b < 12 → bin_for_size n ≤ b ↔ n ≤ 16 * 2 ^ b.
Proof.
  intros Hb. unfold bin_for_size, NUM_BINS. assert (0 < 2 ^ b) by (apply Z.pow_pos_nonneg; lia).
  destruct (Z.leb_spec n 16); [nia|]. cbv zeta.
  pose proof (Z.log2_spec n ltac:(lia)) as [H1 H2]. set (k := Z.log2 n) in *.
  assert (4 ≤ k) by (apply (Z.log2_le_mono 16 n); lia).
  destruct (Z.ltb_spec (k - 4) 0); [lia|]. rewrite Z.shiftl_mul_pow2 by lia.
  assert (E : 2 ^ k = 16 * 2 ^ (k - 4)) by (change 16 with (2 ^ 4); rewrite <- Z.pow_add_r by lia; f_equal; lia).
  rewrite Z.pow_succ_r in H2 by lia.
  assert (Hmono : ∀ i j, 0 ≤ i → i < j → 2 * 2 ^ i ≤ 2 ^ j).
  { intros i j ? ?. rewrite <- Z.pow_succ_r by lia. apply Z.pow_le_mono_r; lia. }
  destruct (Z.ltb_spec (16 * 2 ^ (k - 4)) n);
    [destruct (Z.leb_spec 13 (k - 4 + 1))|destruct (Z.leb_spec 13 (k - 4))].
  - split; [lia|]. intros. pose proof (Hmono b (k - 4) ltac:(lia) ltac:(lia)). lia.
  - split; intros Hle.
    + pose proof (Hmono (k - 4) b ltac:(lia) ltac:(lia)). lia.
    + destruct (Z.lt_ge_cases (k - 4) b); [lia|]. assert (2 ^ b ≤ 2 ^ (k - 4)) by (apply Z.pow_le_mono_r; lia). lia.
  - split; [lia|]. intros. pose proof (Hmono b (k - 4) ltac:(lia) ltac:(lia)). lia.
  - split; intros Hle.
    + assert (2 ^ (k - 4) ≤ 2 ^ b) by (apply Z.pow_le_mono_r; lia). lia.
    + destruct (Z.le_gt_cases (k - 4) b); [lia|]. pose proof (Hmono b (k - 4) ltac:(lia) ltac:(lia)). lia.
Qed.

Lemma bin_for_size_mono n k : n ≤ k → bin_for_size n ≤ bin_for_size k.
Proof.
  intros Hle. pose proof (bin_for_size_range k). pose proof (bin_for_size_range n).
  destruct (decide (bin_for_size k = 12)); [lia|]. apply bin_for_size_spec; [lia|].
  assert (bin_for_size k ≤ bin_for_size k) as Hk by lia. apply bin_for_size_spec in Hk; lia.
Qed.

(** ** The invariant *)

Record core (h : heap) (cs : list cell) (fl : nat → list Z) (x : Z) : Prop := {
  co_first : heap_first h = HEAP_START;
  co_hi : heap_mapped_end h ≤ HEAP_START + HEAP_MAX_SIZE;
  co_layout : layout HEAP_START cs (heap_mapped_end h);
  co_headers : headers (hmem h) 0 cs;
  co_bins : bins_ok (hmem h) (bins h) fl;
  co_free : ∀ i b, b ∈ fl i ↔
    ∃ c, c ∈ cs ∧ c_addr c = b ∧ c_free c = true ∧ bin_for_size (c_size c) = Z.of_nat i ∧ b ≠ x }.

(** Bytes held by allocated blocks, headers included. *)
Definition used_bytes (cs : list cell) : Z := zsum (λ c, if c_free c then 0 else c_size c + 64) cs.

Definition addrs (cs : list cell) (a : Z) : Prop := ∃ c, c ∈ cs ∧ c_addr c = a.

(** Only header words of the cells before or after the step are written. *)
Definition touches (cs cs' : list cell) (h h' : heap) : Prop :=
  hdr_writes (λ a, addrs cs a ∨ addrs cs' a) (hmem h) (hmem h').

Lemma core_addr h cs fl x c : core h cs fl x → c ∈ cs →
  HEAP_START ≤ c_addr c ∧ c_end c ≤ HEAP_START + HEAP_MAX_SIZE ∧ 16 ≤ c_size c ∧ (16 | c_size c) ∧
  (16 | c_addr c) ∧ c_end c ≤ heap_mapped_end h.
Proof.
  intros Hc Hin. destruct (layout_in _ _ _ _ (co_layout _ _ _ _ Hc) Hin) as (? & ? & ? & ? & Ha).
  pose proof (co_hi _ _ _ _ Hc). split_and!; try done; try lia. apply Ha. by exists (HEAP_START / 16).
Qed.

Lemma core_member h cs fl x i b : core h cs fl x → b ∈ fl i → addrs cs b.
Proof. intros Hc Hb. apply (co_free _ _ _ _ Hc) in Hb as (c & ? & ? & _). by exists c. Qed.

Lemma core_sep h cs fl x a b : core h cs fl x → addrs cs a → addrs cs b → a = b ∨ apart a b.
Proof. intros Hc (c & ? & <-) (d & ? & <-). eapply layout_sep; [apply Hc|done..]. Qed.

(** An allocated block is in no bin, in hand or not. *)
Lemma core_forget h cs fl c : core h cs fl (c_addr c) → c ∈ cs → c_free c = false → core h cs fl 0.
Proof.
  intros Hc Hin Hf. pose proof (core_addr _ _ _ _ _ Hc Hin) as (? & _). split; try apply Hc.
  intros i b. rewrite (co_free _ _ _ _ Hc). split; intros (d & Hd & Hb & Hfd & Hi & Hne); exists d; split_and!; try done.
  - unfold HEAP_START in *. pose proof (core_addr _ _ _ _ _ Hc Hd) as (? & _). unfold HEAP_START in *. lia.
  - intros ->. assert (d = c) as -> by (eapply layout_addr_inj; [apply Hc|done..]). congruence.
Qed.

Lemma core_hold h cs fl c : core h cs fl 0 → c ∈ cs → c_free c = false → core h cs fl (c_addr c).
Proof.
  intros Hc Hin Hf. split; try apply Hc.
  intros i b. rewrite (co_free _ _ _ _ Hc). split; intros (d & Hd & Hb & Hfd & Hi & Hne); exists d; split_and!; try done.
  - intros ->. assert (d = c) as -> by (eapply layout_addr_inj; [apply Hc|done..]). congruence.
  - pose proof (core_addr _ _ _ _ _ Hc Hd) as (? & _). unfold HEAP_START in *. lia.
Qed.

(** ** Bins *)

Lemma core_remove h cs fl c : core h cs fl 0 → c ∈ cs → c_free c = true →
  ∃ fl', core (bin_remove (c_addr c) h) cs fl' (c_addr c) ∧ touches cs cs h (bin_remove (c_addr c) h).
Proof.
  intros Hc Hin Hf. pose proof (core_addr _ _ _ _ _ Hc Hin) as (Hlo & _). pose proof (bin_for_size_range (c_size c)).
  set (i := Z.to_nat (bin_for_size (c_size c))).
  assert (Hb : c_addr c ∈ fl i).
  { apply (co_free _ _ _ _ Hc). exists c. unfold HEAP_START in Hlo. split_and!; try done; lia. }
  apply list_elem_of_split in Hb as (l1 & l2 & Hfl).
  destruct (headers_in _ _ _ _ (co_headers _ _ _ _ Hc) Hin) as [Hsz _].
  destruct (bin_remove_ok h fl (c_addr c) i l1 l2 (co_bins _ _ _ _ Hc) Hfl) as [Hbins Hw]; [by rewrite Hsz|].
  destruct (bin_remove_rest (c_addr c) h) as (E1 & E2 & E3).
  pose proof (bo_nodup _ _ _ (co_bins _ _ _ _ Hc) i) as Hnd. rewrite Hfl in Hnd.
  apply NoDup_app_cons_mid in Hnd as [Hni _].
  exists (upd_bin fl i (l1 ++ l2)). split; [split|].
  - by rewrite E1, (co_first _ _ _ _ Hc).
  - rewrite E3. apply Hc.
  - rewrite E3. apply Hc.
  - eapply headers_ext; [|apply Hc]. intros d Hd. apply (link_writes_hdr _ _ _ _ Hw).
    intros b Hb. apply (core_sep _ _ _ _ _ _ Hc); [by exists d|by eapply core_member].
  - done.
  - intros j b. rewrite Dll.elem_upd. assert (Hold : ∀ j, b ∈ fl j ↔ _) by (intros; apply (co_free _ _ _ _ Hc)).
    split.
    + intros [[-> Hb]|[Hj Hb]].
      * assert (b ∈ fl i) as Hb' by (rewrite Hfl; set_solver). apply Hold in Hb' as (d & ? & ? & ? & ? & _).
        exists d. split_and!; try done. intros ->. done.
      * apply Hold in Hb as (d & ? & ? & ? & ? & _). exists d. split_and!; try done. intros ->.
        apply Hj. assert (d = c) as -> by (eapply layout_addr_inj; [apply Hc|done..]). subst i. lia.
    + intros (d & Hd & Hb & Hfd & Hi & Hne).
      assert (b ∈ fl j) as Hbj.
      { apply Hold. exists d. split_and!; try done.
        pose proof (core_addr _ _ _ _ _ Hc Hd) as (? & _). unfold HEAP_START in *. lia. }
      destruct (decide (j = i)) as [->|]; [left|by right]. split; [done|]. rewrite Hfl in Hbj. set_solver.
  - eapply hdr_writes_weaken; [|apply link_hdr_writes, Hw]. intros b Hb. left. exact (core_member _ _ _ _ _ _ Hc Hb).
Qed.

Lemma core_push h cs fl c : core h cs fl (c_addr c) → c ∈ cs → c_free c = true →
  ∃ fl', core (bin_push (c_addr c) h) cs fl' 0 ∧ touches cs cs h (bin_push (c_addr c) h).
Proof.
  intros Hc Hin Hf. pose proof (core_addr _ _ _ _ _ Hc Hin) as (Hlo & _). pose proof (bin_for_size_range (c_size c)).
  set (i := Z.to_nat (bin_for_size (c_size c))).
  destruct (headers_in _ _ _ _ (co_headers _ _ _ _ Hc) Hin) as [Hsz _].
  destruct (bin_push_ok h fl (c_addr c) i (co_bins _ _ _ _ Hc)) as [Hbins Hw].
  { unfold HEAP_START in Hlo. lia. }
  { intros j x Hx. pose proof (core_member _ _ _ _ _ _ Hc Hx) as Hx'. apply (co_free _ _ _ _ Hc) in Hx as (_ & _ & _ & _ & _ & Hne).
    destruct (core_sep _ _ _ _ (c_addr c) x Hc) as [E|]; [by exists c|done|done|done]. }
  { by rewrite Hsz. }
  { lia. }
  destruct (bin_push_rest (c_addr c) h) as (E1 & E2 & E3).
  exists (upd_bin fl i (c_addr c :: fl i)). split; [split|].
  - by rewrite E1, (co_first _ _ _ _ Hc).
  - rewrite E3. apply Hc.
  - rewrite E3. apply Hc.
  - eapply headers_ext; [|apply Hc]. intros d Hd. apply (link_writes_hdr _ _ _ _ Hw).
    intros b Hb. apply (core_sep _ _ _ _ _ _ Hc); [by exists d|].
    destruct Hb as [->|Hb]; [by exists c|by eapply core_member].
  - done.
  - intros j b. rewrite Dll.elem_upd, elem_of_cons, !(co_free _ _ _ _ Hc). split.
    + intros [[-> [->|(d & ? & ? & ? & ? & ?)]]|[? (d & ? & ? & ? & ? & ?)]].
      * exists c. unfold HEAP_START in Hlo. split_and!; try done; lia.
      * exists d. pose proof (core_addr _ _ _ _ d Hc) as Hd. unfold HEAP_START in Hd. split_and!; try done. naive_solver lia.
      * exists d. pose proof (core_addr _ _ _ _ d Hc) as Hd. unfold HEAP_START in Hd. split_and!; try done. naive_solver lia.
    + intros (d & Hd & Hb & Hfd & Hi & _). destruct (decide (b = c_addr c)) as [->|].
      * assert (d = c) as -> by (eapply layout_addr_inj; [apply Hc|done..]). left. split; [subst i; lia|by left].
      * destruct (decide (j = i)) as [->|]; [left|right]; (split; [done|]); [right|]; by exists d.
  - eapply hdr_writes_weaken; [|apply link_hdr_writes, Hw]. intros b Hb. left.
    destruct Hb as [->|Hb]; [by exists c|by eapply core_member].
Qed.

(** ** Header updates *)

Lemma headers_set_out m a f v prev cs : (∀ c, c ∈ cs → apart a (c_addr c)) →
  headers m prev cs → headers (set m a f v) prev cs.
Proof. intros Ha. apply headers_ext. intros c Hc. by apply same_hdr_apart, Ha. Qed.

Lemma bins_set m a f v heads fl : f ≠ f_bin_next → f ≠ f_bin_prev →
  (∀ i x, x ∈ fl i → a = x ∨ apart a x) → bins_ok m heads fl → bins_ok (set m a f v) heads fl.
Proof. intros H1 H2 Ha. apply bins_ext. intros i x Hx. by rewrite !get_set_other by eauto. Qed.

Lemma layout_mid_apart lo l c r hi : layout lo (l ++ c :: r) hi →
  (∀ d, d ∈ l → apart (c_addr c) (c_addr d)) ∧ (∀ d, d ∈ r → apart (c_addr c) (c_addr d)).
Proof.
  intros Hl. destruct (layout_split _ _ _ _ _ Hl) as (Hb & Ha & Hl1 & _ & ? & _). unfold apart, c_end in *.
  split; intros d Hd.
  - pose proof (layout_in _ _ _ _ Hl1 Hd) as (_ & _ & ? & _). specialize (Hb d Hd). lia.
  - specialize (Ha d Hd). lia.
Qed.

(** The block in hand has its flag set. *)
Lemma core_flag h l c r fl f : core h (l ++ c :: r) fl (c_addr c) →
  core (block_set_free (c_addr c) f h) (l ++ Cell (c_addr c) (c_size c) f :: r) fl (c_addr c) ∧
  touches (l ++ c :: r) (l ++ c :: r) h (block_set_free (c_addr c) f h).
Proof.
  intros Hc. pose proof (co_layout _ _ _ _ Hc) as Hl. destruct (layout_mid_apart _ _ _ _ _ Hl) as [Al Ar].
  split; [split|].
  - apply Hc.
  - apply Hc.
  - cbn. by apply layout_flag.
  - pose proof (co_headers _ _ _ _ Hc) as Hh. apply headers_app in Hh as (H1 & (E1 & E2 & E3) & H2).
    apply headers_app. split; [by apply headers_set_out|]. cbn. split; [|by apply headers_set_out].
    unfold hdr_ok. cbn. by rewrite get_set_eq, !get_set_field.
  - cbn. apply bins_set; [done..| |apply Hc]. intros i x Hx.
    apply (core_sep _ _ _ _ _ _ Hc); [exists c; set_solver|by eapply core_member].
  - intros i b. rewrite (co_free _ _ _ _ Hc).
    split; intros (d & Hd & Hb & Hfd & Hi & Hne); exists d; split_and!; try done.
    + rewrite elem_of_app, elem_of_cons in *. destruct Hd as [|[->|]]; naive_solver.
    + rewrite elem_of_app, elem_of_cons in *. destruct Hd as [|[->|]]; [by left| |by right; right]. cbn in *. naive_solver.
  - apply hdr_writes_set. left. exists c. set_solver.
Qed.

Lemma next_phys h l c r lo : layout lo (l ++ c :: r) (heap_mapped_end h) → 0 ≤ lo →
  heap_mapped_end h < 2 ^ 64 → get (hmem h) (c_addr c) f_size = c_size c →
  block_next_phys (c_addr c) h = match r with [] => 0 | d :: _ => c_addr d end.
Proof.
  intros Hl Hlo Hhi Hs. unfold block_next_phys, sizeof_block. rewrite Hs. cbv zeta.
  destruct (layout_split _ _ _ _ _ Hl) as (_ & _ & H1 & H2 & ? & _). apply layout_le in H1.
  pose proof (layout_le _ _ _ H2) as H3. unfold c_end in *. rewrite u64_small by lia.
  destruct r as [|d r]; cbn in H2.
  - destruct (Z.leb_spec (heap_mapped_end h) (c_addr c + 64 + c_size c)); lia.
  - destruct H2 as (Ed & ? & _ & H2). apply layout_le in H2. unfold c_end in H2.
    destruct (Z.leb_spec (heap_mapped_end h) (c_addr c + 64 + c_size c)); lia.
Qed.

(** The block after [c] points back to it. *)
Lemma relinked_ok h l c r q : layout HEAP_START (l ++ c :: r) (heap_mapped_end h) →
  heap_mapped_end h ≤ HEAP_START + HEAP_MAX_SIZE → get (hmem h) (c_addr c) f_size = c_size c →
  headers (hmem h) q r →
  headers (hmem (relinked (c_addr c) h)) (c_addr c) r ∧
  (∀ b f, (∀ d, d ∈ r → apart b (c_addr d)) →
    get (hmem (relinked (c_addr c) h)) b f = get (hmem h) b f) ∧
  (∀ fl, (∀ i x, x ∈ fl i → addrs (l ++ c :: r) x) → bins_ok (hmem h) (bins h) fl →
    bins_ok (hmem (relinked (c_addr c) h)) (bins h) fl) ∧
  touches r r h (relinked (c_addr c) h) ∧
  heap_mapped_end (relinked (c_addr c) h) = heap_mapped_end h ∧ bins (relinked (c_addr c) h) = bins h ∧
  heap_first (relinked (c_addr c) h) = heap_first h ∧ heap_used (relinked (c_addr c) h) = heap_used h.
Proof.
  intros Hl Hhi Hs Hh. unfold relinked.
  rewrite (next_phys h l c r HEAP_START Hl ltac:(unfold HEAP_START; lia)
    ltac:(unfold HEAP_START, HEAP_MAX_SIZE in *; lia) Hs). cbv zeta.
  destruct r as [|d r]; cbn [negb Z.eqb]. { split_and!; try done. }
  assert (HEAP_START ≤ c_addr d).
  { assert (d ∈ l ++ c :: d :: r) as Hd by set_solver. by destruct (layout_in _ _ _ _ Hl Hd) as (? & _). }
  destruct (Z.eqb_spec (c_addr d) 0); [unfold HEAP_START in *; lia|]. cbn [negb].
  assert (Hl' : layout HEAP_START ((l ++ [c]) ++ d :: r) (heap_mapped_end h)) by (by rewrite <- app_assoc).
  destruct (layout_mid_apart _ _ _ _ _ Hl') as [Al Ar]. cbn in Hh. destruct Hh as [(E1 & E2 & _) Hh].
  split_and!; try done.
  - cbn. split; [|by apply headers_set_out]. unfold hdr_ok. cbn. by rewrite get_set_eq, !get_set_field.
  - intros b f Hb. cbn. apply get_set_apart. apply apart_sym, Hb. left.
  - intros fl Hfl Hbins. cbn. apply bins_set; try done. intros i x Hx. destruct (Hfl i x Hx) as (e & He & <-).
    eapply layout_sep; [exact Hl|set_solver|done].
  - apply hdr_writes_set. left. exists d. split; [left|done].
Qed.

Lemma touches_mono cs cs' ds ds' h h' : (∀ a, addrs cs a → addrs ds a ∨ addrs ds' a) →
  (∀ a, addrs cs' a → addrs ds a ∨ addrs ds' a) → touches cs cs' h h' → touches ds ds' h h'.
Proof. intros H1 H2. apply hdr_writes_weaken. intros b []; auto. Qed.

Lemma touches_trans cs cs' h1 h2 h3 : touches cs cs' h1 h2 → touches cs cs' h2 h3 → touches cs cs' h1 h3.
Proof. apply hdr_writes_trans. Qed.

Lemma touches_put cs cs' h b f v : addrs cs b ∨ addrs cs' b → touches cs cs' h (put b f v h).
Proof. intros Hb. by apply hdr_writes_set. Qed.

Lemma addrs_app l r a : addrs (l ++ r) a ↔ addrs l a ∨ addrs r a.
Proof. unfold addrs. set_solver. Qed.

Lemma addrs_cons c r a : addrs (c :: r) a ↔ a = c_addr c ∨ addrs r a.
Proof. unfold addrs. set_solver. Qed.

(** Coalescing: [c] swallows its physical successor [d]; at most one of them is
    free and then it is the block in hand. *)
Lemma core_merge h l c d r fl x : core h (l ++ c :: d :: r) fl x →
  (c_free c = true → x = c_addr c) → (c_free d = true → x = c_addr d) → (x = 0 ∨ x = c_addr c ∨ x = c_addr d) →
  let n := c_size c + (64 + c_size d) in
  let h' := relinked (c_addr c) (put (c_addr c) f_size n h) in
  core h' (l ++ Cell (c_addr c) n (c_free c) :: r) fl (c_addr c) ∧ touches (l ++ c :: d :: r) (l ++ c :: d :: r) h h' ∧
  heap_used h' = heap_used h ∧ heap_mapped_end h' = heap_mapped_end h.
Proof.
  intros Hc Hcf Hdf Hx n. set (c' := Cell (c_addr c) n (c_free c)). cbv zeta.
  pose proof (co_layout _ _ _ _ Hc) as Hl. destruct (layout_mid_apart _ _ _ _ _ Hl) as [Al Ar].
  pose proof (layout_merge _ _ _ _ _ _ (c_free c) Hl) as Hl'. fold c' in Hl'.
  pose proof (co_headers _ _ _ _ Hc) as Hh. apply headers_app in Hh as (H1 & (E1 & E2 & E3) & _ & H2).
  set (h1 := put (c_addr c) f_size n h).
  destruct (relinked_ok h1 l c' r (c_addr d) Hl') as (R1 & R2 & R3 & R4 & R5 & R6 & R7 & R8).
  { apply Hc. }
  { cbn. by rewrite get_set_eq. }
  { apply headers_set_out; [|done]. intros e He. apply Ar. by right. }
  change (c_addr c') with (c_addr c) in *.
  assert (Hfar : ∀ e, e ∈ l → ∀ f, get (hmem (relinked (c_addr c) h1)) (c_addr e) f = get (hmem h) (c_addr e) f).
  { intros e He f. rewrite R2; [by apply get_set_apart, Al|].
    intros g Hg. destruct (layout_apart _ _ _ e g Hl') as [->|[? _]]; [set_solver..| |done].
    apply layout_split in Hl' as (_ & _ & Hl1 & Hr1 & ? & _). unfold c_end in Hr1. cbn in *.
    apply (layout_in _ _ _ _ Hl1) in He as (_ & ? & ? & _). apply (layout_in _ _ _ _ Hr1) in Hg as (? & _). unfold c_end in *. lia. }
  assert (Hfl : ∀ i b, b ∈ fl i → addrs (l ++ c :: r) b ∧ b ≠ c_addr c ∧ b ≠ c_addr d).
  { intros i b Hb. apply (co_free _ _ _ _ Hc) in Hb as (e & He & <- & Hef & _ & Hne).
    assert (c_addr e ≠ c_addr c ∧ c_addr e ≠ c_addr d) as [].
    { split; intros Ee; [assert (e = c) as -> by (eapply layout_addr_inj; [exact Hl|set_solver..])
        |assert (e = d) as -> by (eapply layout_addr_inj; [exact Hl|set_solver..])]; naive_solver. }
    split_and!; try done. exists e. split; [|done]. rewrite elem_of_app, !elem_of_cons in *. naive_solver. }
  split_and!; [split|..].
  - rewrite R7. apply Hc.
  - rewrite R5. apply Hc.
  - by rewrite R5.
  - apply headers_app. split.
    + eapply headers_ext; [|exact H1]. intros e He. unfold same_hdr. by rewrite !Hfar.
    + cbn. split; [|done]. unfold hdr_ok. cbn.
      rewrite !R2 by (intros e He; apply Ar; by right). cbn. by rewrite get_set_eq, !get_set_field.
  - rewrite R6. apply R3.
    + intros i b Hb. destruct (Hfl i b Hb) as [Ha _]. rewrite addrs_app, addrs_cons in *. done.
    + cbn. apply bins_set; [done..| |apply Hc]. intros i b Hb. apply (core_sep _ _ _ _ _ _ Hc).
      * exists c. set_solver.
      * destruct (Hfl i b Hb) as [Ha _]. rewrite !addrs_app, !addrs_cons in *. naive_solver.
  - intros i b. rewrite (co_free _ _ _ _ Hc). split.
    + intros (e & He & <- & Hef & Hi & Hne).
      assert (c_addr e ∈ fl i) as Hb by (apply (co_free _ _ _ _ Hc); by exists e).
      destruct (Hfl i _ Hb) as (_ & ? & ?). exists e. split_and!; try done.
      rewrite elem_of_app, !elem_of_cons in *. naive_solver.
    + intros (e & He & <- & Hef & Hi & Hne). exists e.
      assert (e ∈ l ∨ e ∈ r) as Hlr.
      { rewrite elem_of_app, elem_of_cons in He. destruct He as [|[->|]]; [by left|done|by right]. }
      split_and!; try done; [rewrite elem_of_app, !elem_of_cons; naive_solver|].
      destruct Hx as [->|[->| ->]]; [|done|].
      * pose proof (core_addr _ _ _ _ e Hc) as Hd. unfold HEAP_START in Hd. destruct Hlr; (destruct Hd as [? _]; [set_solver|lia]).
      * intros Ee. destruct (layout_mid_apart HEAP_START (l ++ [c]) d r (heap_mapped_end h)) as [B1 B2].
        { by rewrite <- app_assoc. }
        destruct Hlr as [He'|He']; [pose proof (B1 e ltac:(set_solver)) as B|pose proof (B2 e ltac:(set_solver)) as B];
          unfold apart in B; lia.
  - apply (touches_trans _ _ _ h1); [apply touches_put; left; exists c; set_solver|].
    eapply touches_mono; [| |exact R4]; intros a; rewrite !addrs_app, !addrs_cons; naive_solver.
  - by rewrite R8.
  - by rewrite R5.
Qed.

(** A fresh header at [a]: the five stores of [carve] and [heap_extend]. *)
Definition new_header (a n prev : Z) (h : heap) : heap :=
  block_set_free a true (put a f_bin_prev 0 (put a f_bin_next 0 (put a f_prev_phys prev (put a f_size n h)))).

Lemma new_header_get a n prev h :
  hdr_ok (hmem (new_header a n prev h)) prev (Cell a n true) ∧
  (∀ b f, apart a b → get (hmem (new_header a n prev h)) b f = get (hmem h) b f).
Proof.
  split.
  - unfold hdr_ok. cbn. by rewrite get_set_eq, !get_set_field, !get_set_eq, ?get_set_field, ?get_set_eq by done.
  - intros b f Hb. cbn. by rewrite !get_set_apart.
Qed.

Lemma new_header_touches cs cs' a n prev h : addrs cs a ∨ addrs cs' a → touches cs cs' h (new_header a n prev h).
Proof.
  intros Ha. unfold new_header, block_set_free.
  repeat (eapply touches_trans; [|by apply touches_put]). by apply hdr_writes_refl.
Qed.

Lemma carve_eq b sz remainder h :
  carve b sz remainder h =
  (relinked (u64 (b + 64 + sz)) (new_header (u64 (b + 64 + sz)) (remainder - 64) b h), u64 (b + 64 + sz)).
Proof. done. Qed.

(** Splitting an allocated block: the tail becomes a free block in hand. *)
Lemma core_cut h l c r fl sz : core h (l ++ c :: r) fl 0 → c_free c = false →
  16 ≤ sz → (16 | sz) → 80 ≤ c_size c - sz →
  let a := c_addr c + 64 + sz in
  let d := Cell a (c_size c - sz - 64) true in
  let h' := put (c_addr c) f_size sz (relinked a (new_header a (c_size c - sz - 64) (c_addr c) h)) in
  core h' (l ++ Cell (c_addr c) sz false :: d :: r) fl a ∧
  touches (l ++ c :: r) (l ++ Cell (c_addr c) sz false :: d :: r) h h' ∧
  heap_used h' = heap_used h ∧ heap_mapped_end h' = heap_mapped_end h.
Proof.
  intros Hc Hcf Hs1 Hs2 Hs3 a d. set (c' := Cell (c_addr c) sz false). cbv zeta.
  set (h1 := new_header _ _ _ _). pose proof (co_layout _ _ _ _ Hc) as Hl.
  pose proof (layout_cut _ _ _ _ _ sz false true Hl Hs1 Hs2 Hs3) as Hl'. fold c' in Hl'. change (Cell _ _ true) with d in Hl'.
  assert (Hl'' : layout HEAP_START ((l ++ [c']) ++ d :: r) (heap_mapped_end h)) by (by rewrite <- app_assoc).
  destruct (layout_mid_apart _ _ _ _ _ Hl') as [Al Ar]. destruct (layout_mid_apart _ _ _ _ _ Hl'') as [Bl Br].
  pose proof (co_headers _ _ _ _ Hc) as Hh. apply headers_app in Hh as (H1 & (E1 & E2 & E3) & H2).
  destruct (new_header_get a (c_size c - sz - 64) (c_addr c) h) as [(N1 & N2 & N3) N4]. fold h1 in N1, N2, N3, N4.
  assert (Hca : apart (c_addr c) a) by (apply (Ar d); left).
  assert (Had : ∀ e, e ∈ r → apart a (c_addr e)) by (intros e He; by apply (Br e)).
  assert (Hal : ∀ e, e ∈ l → apart a (c_addr e)) by (intros e He; apply (Bl e); set_solver).
  destruct (relinked_ok h1 (l ++ [c']) d r (c_addr c) Hl'') as (R1 & R2 & R3 & R4 & R5 & R6 & R7 & R8).
  { apply Hc. }
  { done. }
  { eapply headers_ext; [|exact H2]. intros e He. unfold same_hdr. by rewrite !N4 by auto. }
  change (c_addr d) with a in *. set (h2 := relinked a h1) in *.
  assert (Hg : ∀ b f, b = c_addr c ∨ addrs l b → get (hmem h2) b f = get (hmem h) b f).
  { intros b f Hb. rewrite R2, N4; [done|..].
    - destruct Hb as [->|(e & He & <-)]; [by apply apart_sym|auto].
    - intros e He. destruct Hb as [->|(g & Hg & <-)]; [apply Ar; by right|].
      destruct (layout_apart _ _ _ g e Hl) as [->|[? _]]; [set_solver..| |done].
      apply layout_split in Hl as (Hb1 & Hb2 & Hl1 & _ & ? & _). specialize (Hb1 _ Hg). specialize (Hb2 _ He).
      apply (layout_in _ _ _ _ Hl1) in Hg as (_ & _ & ? & _). unfold c_end in *. lia. }
  assert (Hfl : ∀ i b, b ∈ fl i → addrs (l ++ c :: r) b ∧ b ≠ c_addr c).
  { intros i b Hb. apply (co_free _ _ _ _ Hc) in Hb as (e & He & <- & Hef & _ & Hne). split; [by exists e|].
    intros Ee. assert (e = c) as -> by (eapply layout_addr_inj; [exact Hl|set_solver..]). congruence. }
  split_and!; [split|..].
  - change (heap_first h2 = HEAP_START). rewrite R7. apply Hc.
  - change (heap_mapped_end h2 ≤ HEAP_START + HEAP_MAX_SIZE). rewrite R5. apply Hc.
  - change (heap_mapped_end (put _ _ _ h2)) with (heap_mapped_end h2). rewrite R5. done.
  - cbn [hmem put with_mem]. apply headers_app. split; [|split; [|split]].
    + eapply headers_ext; [|exact H1]. intros e He. unfold same_hdr.
      rewrite !get_set_apart by (by apply Al). by rewrite !Hg by (right; by exists e).
    + unfold hdr_ok. cbn. rewrite get_set_eq, !get_set_field by done. rewrite !Hg by (by left). by rewrite E2, E3, Hcf.
    + unfold hdr_ok. cbn. rewrite !get_set_apart by done. by rewrite !R2 by (intros; by apply Had).
    + apply headers_set_out; [|done]. intros e He. apply Ar. by right.
  - cbn [hmem bins put with_mem]. rewrite R6. apply bins_set; [done..| |apply R3].
    + intros i b Hb. destruct (Hfl i b Hb) as [Hb' _]. apply (core_sep _ _ _ _ _ _ Hc); [exists c; set_solver|done].
    + intros i b Hb. destruct (Hfl i b Hb) as [Hb' _]. rewrite !addrs_app, !addrs_cons in *. naive_solver.
    + apply (bins_ext (hmem h)); [|apply Hc]. intros i b Hb. destruct (Hfl i b Hb) as [(e & He & <-) Hne].
      assert (apart a (c_addr e)) by (rewrite elem_of_app, elem_of_cons in He; naive_solver). by rewrite !N4.
  - intros i b. rewrite (co_free _ _ _ _ Hc). split.
    + intros (e & He & <- & Hef & Hi & Hne). exists e.
      assert (e ∈ l ∨ e ∈ r) as Hlr by (rewrite elem_of_app, elem_of_cons in He; naive_solver congruence).
      split_and!; try done; [set_solver|]. intros Ea. assert (apart a (c_addr e)) as Hx by naive_solver. unfold apart in Hx. lia.
    + intros (e & He & <- & Hef & Hi & Hne). exists e.
      assert (e ∈ l ∨ e ∈ r) as Hlr.
      { rewrite elem_of_app, !elem_of_cons in He. destruct He as [|[->|[->|]]]; naive_solver. }
      split_and!; try done; [set_solver|].
      assert (e ∈ l ++ c :: r) as He' by set_solver.
      pose proof (core_addr _ _ _ _ e Hc He') as (? & _). unfold HEAP_START in *. lia.
  - apply (touches_trans _ _ _ h2); [|apply touches_put; left; exists c; set_solver].
    apply (touches_trans _ _ _ h1); [apply new_header_touches; right; exists d; set_solver|].
    eapply touches_mono; [| |exact R4]; intros b; rewrite !addrs_app, !addrs_cons; naive_solver.
  - change (heap_used h2 = heap_used h). by rewrite R8.
  - change (heap_mapped_end h2 = heap_mapped_end h). by rewrite R5.
Qed.

End HeapInv.
