(* ===== verification/HeapOps.v ===== *)
(** * Heap: the operations on the abstract heap

    Each operation of heap.c is shown to act on the list of cells as its
    specification says: search, split, growth, release with coalescing, in-place
    shrinking and the return of tail pages. *)

From S2P Require Import Prelude Bytes Words Dll Heap HeapFacts HeapInv.

Module HeapOps.
Import Heap HeapFacts HeapInv.

(** The invariant between operations. *)
Record heap_ok (h : heap) (cs : list cell) : Prop := {
  ho_core : ∃ fl, core h cs fl 0;
  ho_used : heap_used h = used_bytes cs;
  ho_base : base_size ≤ heap_mapped_end h;
  ho_page : (4096 | heap_mapped_end h) }.

(** ** Bounds on walks *)

Lemma rd_nonzero m a : rd m a ≠ 0 → a ∈ dom m.
Proof. unfold rd. destruct (m !! a) eqn:E; [|done]. intros _. by apply elem_of_dom. Qed.

Lemma NoDup_addrs lo cs hi : layout lo cs hi → NoDup (c_addr <$> cs).
Proof.
  revert lo. induction cs as [|c cs IH]; intros lo; cbn; [constructor|]. intros (<- & ? & _ & H).
  apply NoDup_cons. split; [|by eapply IH]. rewrite list_elem_of_fmap. intros (d & Hd & Hin).
  apply (layout_in _ _ _ _ H) in Hin as (? & _). unfold c_end in *. lia.
Qed.

Lemma NoDup_words (m : mem) l : NoDup l → (∀ a, a ∈ l → a ∈ dom m) → (length l ≤ size m)%nat.
Proof.
  intros Hnd Hd. rewrite <- size_dom. rewrite <- (size_list_to_set (C := gset Z) l Hnd).
  apply subseteq_size. intros a. rewrite elem_of_list_to_set. apply Hd.
Qed.

Lemma core_words h cs fl x : core h cs fl x → (length cs ≤ size (hmem h))%nat.
Proof.
  intros Hc. rewrite <- (length_fmap c_addr cs). apply NoDup_words; [by eapply NoDup_addrs, Hc|].
  intros a (c & -> & Hin)%list_elem_of_fmap. apply rd_nonzero.
  destruct (headers_in _ _ _ _ (co_headers _ _ _ _ Hc) Hin) as [E _]. unfold get in E. cbn in E.
  rewrite Z.add_0_r in E. rewrite E. apply (core_addr _ _ _ _ _ Hc) in Hin as (_ & _ & ? & _). lia.
Qed.

Lemma core_bin_length h cs fl x i : core h cs fl x → (length (fl i) ≤ size (hmem h))%nat.
Proof.
  intros Hc. etransitivity; [|by eapply core_words]. rewrite <- (length_fmap c_addr cs).
  apply submseteq_length, NoDup_submseteq; [apply Hc|].
  intros b Hb. apply list_elem_of_fmap. apply (core_member _ _ _ _ _ _ Hc) in Hb as (c & ? & <-). by exists c.
Qed.

(** ** The last block *)

Definition first_addr (cs : list cell) : Z := match cs with [] => 0 | c :: _ => c_addr c end.

Lemma last_phys_spec h fl x l r tail fuel : core h (l ++ r) fl x → (length r < fuel)%nat →
  last_phys fuel (first_addr r) tail h = last_addr tail r.
Proof.
  revert l tail fuel. induction r as [|c r IH]; intros l tail fuel Hc Hf; (destruct fuel as [|fuel]; [cbn in Hf; lia|]).
  - done.
  - cbn [first_addr last_phys]. assert (c ∈ l ++ c :: r) as Hin by set_solver.
    pose proof (core_addr _ _ _ _ _ Hc Hin) as (? & _). destruct (Z.eqb_spec (c_addr c) 0); [unfold HEAP_START in *; lia|].
    pose proof (co_hi _ _ _ _ Hc).
    rewrite (next_phys h l c r HEAP_START); [|apply Hc|unfold HEAP_START; lia|unfold HEAP_START, HEAP_MAX_SIZE in *; lia|].
    2:{ by destruct (headers_in _ _ _ _ (co_headers _ _ _ _ Hc) Hin). }
    change (match r with [] => 0 | d :: _ => c_addr d end) with (first_addr r).
    rewrite (IH (l ++ [c])); [|by rewrite <- app_assoc|cbn in Hf; lia].
    unfold last_addr. rewrite last_cons. by destruct (last r).
Qed.

Lemma last_block_spec h cs fl x : core h cs fl x → cs ≠ [] → last_block h = last_addr 0 cs.
Proof.
  intros Hc Hne. unfold last_block. rewrite (co_first _ _ _ _ Hc). pose proof (core_words _ _ _ _ Hc).
  rewrite <- (last_phys_spec h fl x [] cs 0 (S (size (hmem h)))); [|done|lia].
  destruct cs as [|c cs]; [done|]. destruct (co_layout _ _ _ _ Hc) as [E _]. cbn [first_addr]. by rewrite E.
Qed.

(** ** Growth *)

Lemma core_out h cs fl x a f v : core h cs fl x → (∀ c, c ∈ cs → apart a (c_addr c)) → core (put a f v h) cs fl x.
Proof.
  intros Hc Ha. split; try apply Hc.
  - cbn. apply headers_set_out; [done|apply Hc].
  - cbn. apply (bins_ext (hmem h)); [|apply Hc]. intros i b Hb.
    apply (core_member _ _ _ _ _ _ Hc) in Hb as (c & Hin & <-). by rewrite !get_set_apart by auto.
Qed.

Lemma core_append h cs fl n : core h cs fl 0 → hdr_ok (hmem h) (last_addr 0 cs) (Cell (heap_mapped_end h) n true) →
  16 ≤ n → (16 | n) → heap_mapped_end h + 64 + n ≤ HEAP_START + HEAP_MAX_SIZE →
  core (with_end (heap_mapped_end h + 64 + n) h) (cs ++ [Cell (heap_mapped_end h) n true]) fl (heap_mapped_end h).
Proof.
  intros Hc Hh Hn1 Hn2 Hcap. split; try apply Hc.
  - done.
  - cbn. apply layout_snoc; [apply Hc|done..].
  - cbn. apply headers_app. split; [apply Hc|]. by split.
  - intros i b. rewrite (co_free _ _ _ _ Hc). split; intros (c & Hin & <- & Hf & Hi & Hne).
    + exists c. split_and!; try done; [set_solver|]. apply (core_addr _ _ _ _ _ Hc) in Hin as (_ & _ & ? & _ & _ & ?).
      unfold c_end in *. lia.
    + rewrite elem_of_app, list_elem_of_singleton in Hin. destruct Hin as [Hin| ->]; [|done]. exists c. split_and!; try done.
      apply (core_addr _ _ _ _ _ Hc) in Hin as (? & _). unfold HEAP_START in *. lia.
Qed.

(** The chunk [heap_extend] maps: at least 4 MiB or the request with its
    header, whole pages, and never past the 256 MiB cap. *)
Definition hard_cap : Z := HEAP_START + HEAP_MAX_SIZE.

Lemma heap_consts : HEAP_START = 2 ^ 64 - 1879048192 ∧ base_size = HEAP_START + 2 ^ 24 ∧
  hard_cap = HEAP_START + 2 ^ 28 ∧ HEAP_MAX_SIZE = 2 ^ 28 ∧ HEAP_GROW_CHUNK = 2 ^ 22.
Proof. by vm_compute. Qed.

Lemma grow_chunk_spec need h : (4096 | heap_mapped_end h) → base_size ≤ heap_mapped_end h ≤ hard_cap →
  0 ≤ need ≤ HEAP_MAX_SIZE →
  grow_chunk need h = Z.min (hard_cap - heap_mapped_end h) ((Z.max (need + 64) HEAP_GROW_CHUNK + 4095) / 4096 * 4096) ∧
  (4096 | grow_chunk need h) ∧ 0 ≤ grow_chunk need h ≤ hard_cap - heap_mapped_end h ∧
  (grow_chunk need h = 0 ↔ heap_mapped_end h = hard_cap).
Proof.
  intros Hp Hr Hn. set (M := (Z.max (need + 64) HEAP_GROW_CHUNK + 4095) / 4096 * 4096).
  assert (Hd : (4096 | hard_cap - heap_mapped_end h)) by (apply Z.divide_sub_r; [by exists (hard_cap / 4096)|done]).
  assert (HM : 4096 ≤ M ≤ HEAP_MAX_SIZE + 4095 + 64 ∧ (4096 | M)).
  { split; [|by eexists]. subst M. unfold HEAP_MAX_SIZE, HEAP_GROW_CHUNK in *. divlia. }
  assert (grow_chunk need h = Z.min (hard_cap - heap_mapped_end h) M) as ->.
  { unfold grow_chunk, sizeof_block, PAGE_SIZE. cbv zeta. change (HEAP_START + HEAP_MAX_SIZE) with hard_cap.
    destruct heap_consts as (? & ? & ? & ? & ?).
    rewrite (u64_small (need + 64)) by lia.
    set (w := if _ <? need + 64 then need + 64 else _).
    assert (w = Z.max (need + 64) HEAP_GROW_CHUNK) as -> by (subst w; destruct (Z.ltb_spec HEAP_GROW_CHUNK (need + 64)); lia).
    rewrite ALIGN_UP_4096 by lia. fold M.
    rewrite (u64_small (heap_mapped_end h + M)) by lia.
    destruct (Z.leb_spec hard_cap (heap_mapped_end h)); [lia|].
    destruct (Z.ltb_spec hard_cap (heap_mapped_end h + M)); [|lia].
    rewrite (land_not_ones _ 12) by lia. destruct Hd as [k Hk]. change (2 ^ 12) with 4096.
    rewrite Hk, Z.div_mul by lia. rewrite <- Hk. destruct (Z.ltb_spec (hard_cap - heap_mapped_end h) (64 + 16)); lia. }
  split_and!; [done| |lia|lia|lia..].
  destruct (Z.min_dec (hard_cap - heap_mapped_end h) M) as [->| ->]; [done|apply HM].
Qed.

Lemma heap_ok_nonempty h cs : heap_ok h cs → cs ≠ [].
Proof.
  intros [[fl Hc] _ Hb _] ->. pose proof (co_layout _ _ _ _ Hc) as Hl. cbn in Hl.
  destruct heap_consts as (? & ? & _). lia.
Qed.

Lemma used_bytes_app l r : used_bytes (l ++ r) = used_bytes l + used_bytes r.
Proof. apply zsum_app. Qed.

Lemma used_bytes_cons c r : used_bytes (c :: r) = (if c_free c then 0 else c_size c + 64) + used_bytes r.
Proof. done. Qed.

(** Pages [heap_extend] obtains: what it wants, or what is left. *)
Definition grown_pages (need : Z) (avail : nat) (h : heap) : Z :=
  Z.min (Z.of_nat avail) (grow_chunk need h / 4096).

Lemma heap_extend_spec need avail h cs : heap_ok h cs → 0 ≤ need ≤ HEAP_MAX_SIZE →
  let '(h', grown) := heap_extend need avail h in
  let n := grown_pages need avail h in
  let cs' := cs ++ [Cell (heap_mapped_end h) (n * 4096 - 64) true] in
  if grown then 0 < n ∧ heap_ok h' cs' ∧ touches cs cs' h h' ∧ heap_mapped_end h' = heap_mapped_end h + n * 4096
  else h' = h ∧ n = 0.
Proof.
  intros Hok Hn. pose proof (heap_ok_nonempty _ _ Hok) as Hne. destruct Hok as [[fl Hc] Hu Hb Hp].
  destruct (grow_chunk_spec need h Hp) as (_ & Hd & Hr & _); [split; [done|apply Hc]|done|].
  unfold heap_extend. change PAGE_SIZE with 4096. cbv zeta. fold (grown_pages need avail h).
  set (n := grown_pages need avail h). assert (0 ≤ n) by (subst n; unfold grown_pages; divlia).
  destruct (Z.eqb_spec (grow_chunk need h) 0) as [E|].
  { split; [done|]. subst n. unfold grown_pages. rewrite E. change (0 / 4096) with 0. lia. }
  destruct (Z.eqb_spec n 0); [done|].
  assert (Hcap : n * 4096 ≤ hard_cap - heap_mapped_end h).
  { destruct Hd as [k Hk]. subst n. unfold grown_pages. rewrite Hk, Z.div_mul by lia. lia. }
  set (a := heap_mapped_end h) in *. set (c := Cell a (n * 4096 - 64) true). set (cs' := cs ++ [c]).
  assert (Hap : ∀ d, d ∈ cs → apart a (c_addr d)).
  { intros d Hin. apply (core_addr _ _ _ _ _ Hc) in Hin as (_ & _ & ? & _ & _ & He). unfold apart, c_end in *. lia. }
  set (h1 := put a f_bin_prev 0 (put a f_bin_next 0 (put a f_size (n * 4096 - sizeof_block) h))).
  assert (Hc1 : core h1 cs fl 0) by (by repeat apply core_out).
  rewrite (last_block_spec h1 cs fl 0 Hc1 Hne).
  set (h2 := block_set_free a true (put a f_prev_phys (last_addr 0 cs) h1)).
  assert (Hc2 : core h2 cs fl 0) by (by repeat apply core_out).
  assert (Hin : c ∈ cs') by (subst cs'; set_solver).
  assert (Hc3 : core (with_end (a + n * 4096) h2) cs' fl (c_addr c)).
  { replace (a + n * 4096) with (a + 64 + (n * 4096 - 64)) by lia. apply (core_append h2 cs fl (n * 4096 - 64) Hc2).
    - unfold hdr_ok. cbn. by rewrite get_set_eq, !get_set_field, !get_set_eq, ?get_set_field, ?get_set_eq by done.
    - lia.
    - exists (n * 256 - 4). lia.
    - change (HEAP_START + HEAP_MAX_SIZE) with hard_cap. cbn. fold a. lia. }
  destruct (core_push _ _ _ c Hc3 Hin ltac:(done)) as (fl' & Hc4 & Ht).
  destruct (bin_push_rest (c_addr c) (with_end (a + n * 4096) h2)) as (_ & E2 & E3).
  change (c_addr c) with a in *. split_and!; [lia| | |by rewrite E3].
  - split; [by eexists|..].
    + rewrite E2. cbn. rewrite Hu. subst cs'. rewrite used_bytes_app. cbn. lia.
    + rewrite E3. cbn. lia.
    + rewrite E3. cbn. apply Z.divide_add_r; [done|by exists n].
  - apply (touches_trans _ _ _ (with_end (a + n * 4096) h2)); [|by eapply touches_mono; [| |exact Ht]; auto].
    assert (addrs cs' a) by (by exists c). repeat (eapply touches_trans; [|apply touches_put; by right]). apply hdr_writes_refl.
Qed.

(** ** Search *)

Lemma scan_bin_spec m p c l q sz fuel : seg m p c l q 0 → (length l < fuel)%nat →
  let f := scan_bin fuel c sz m in
  (f = 0 ∧ ∀ b, b ∈ l → get m b f_size < sz) ∨ (f ≠ 0 ∧ f ∈ l ∧ sz ≤ get m f f_size).
Proof.
  revert p c fuel. induction l as [|b l IH]; intros p c fuel; (destruct fuel as [|fuel]; [cbn; lia|]).
  - intros [_ ->] _. left. split; [done|]. intros b. by rewrite elem_of_nil.
  - intros (-> & Hb & _ & H) Hf. cbn in *. destruct (Z.eqb_spec b 0); [done|].
    destruct (Z.leb_spec sz (get m b f_size)).
    + right. split_and!; [done|left|done].
    + destruct (IH _ _ fuel H ltac:(lia)) as [[? Hall]|(? & ? & ?)]; [left|right].
      * split; [done|]. intros x [->|]%elem_of_cons; auto.
      * split_and!; [done|by right|done].
Qed.

Lemma scan_bins_spec m sz heads fl k : (∀ i c, heads !! i = Some c → ∃ q, seg m 0 c (fl (k + i)%nat) q 0) →
  (∀ i, (length (fl i) ≤ size m)%nat) →
  let f := scan_bins heads sz m in
  (f = 0 ∧ ∀ i b, (i < length heads)%nat → b ∈ fl (k + i)%nat → get m b f_size < sz) ∨
  (f ≠ 0 ∧ ∃ i, f ∈ fl i ∧ sz ≤ get m f f_size).
Proof.
  revert k. induction heads as [|c heads IH]; intros k Hs Hlen; cbn [scan_bins].
  - left. split; [done|]. cbn. lia.
  - destruct (Hs 0%nat c) as [q Hq]; [done|]. rewrite Nat.add_0_r in Hq.
    destruct (scan_bin_spec m 0 c (fl k) q sz (S (size m)) Hq) as [[-> Hall]|(Hf & Hin & Hle)].
    { pose proof (Hlen k). lia. }
    + cbn [Z.eqb]. destruct (IH (S k)) as [[E Hr]|H]; [|done| |by right].
      { intros i c' Hi. destruct (Hs (S i) c' Hi) as [q' Hq']. exists q'. by replace (S k + i)%nat with (k + S i)%nat by lia. }
      left. split; [done|]. intros [|i] b Hi Hb; [rewrite Nat.add_0_r in Hb; auto|].
      apply (Hr i b); [cbn in Hi; lia|]. by replace (S k + i)%nat with (k + S i)%nat by lia.
    + destruct (Z.eqb_spec (scan_bin (S (size m)) c sz m) 0); [done|]. right. split; [done|]. by exists k.
Qed.

(** The search is complete: it fails only when no free block is large enough. *)
Lemma find_block_spec h cs fl sz : core h cs fl 0 →
  (find_block sz h = 0 ∧ ∀ c, c ∈ cs → c_free c = true → c_size c < sz) ∨
  (find_block sz h ≠ 0 ∧ ∃ c, c ∈ cs ∧ c_addr c = find_block sz h ∧ c_free c = true ∧ sz ≤ c_size c).
Proof.
  intros Hc. unfold find_block. set (k := Z.to_nat (bin_for_size sz)). pose proof (co_bins _ _ _ _ Hc) as Hb.
  destruct (scan_bins_spec (hmem h) sz (drop k (bins h)) fl k) as [[-> Hall]|(Hf & i & Hin & Hle)].
  - intros i c. rewrite lookup_drop. apply Hb.
  - intros i. by eapply core_bin_length.
  - left. split; [done|]. intros c Hin Hfree. destruct (Z.lt_ge_cases (c_size c) sz) as [|Hge]; [done|]. exfalso.
    pose proof (bin_for_size_mono sz (c_size c) ltac:(lia)). pose proof (bin_for_size_range (c_size c)).
    pose proof (bin_for_size_range sz). pose proof (bo_len _ _ _ Hb).
    set (j := Z.to_nat (bin_for_size (c_size c))).
    assert (get (hmem h) (c_addr c) f_size < sz) as Hlt.
    { apply (Hall (j - k)%nat); [rewrite length_drop; lia|]. replace (k + (j - k))%nat with j by lia.
      apply (co_free _ _ _ _ Hc). exists c. split_and!; try done; [lia|].
      apply (core_addr _ _ _ _ _ Hc) in Hin as (? & _). unfold HEAP_START in *. lia. }
    destruct (headers_in _ _ _ _ (co_headers _ _ _ _ Hc) Hin) as [E _]. lia.
  - right. split; [done|]. apply (co_free _ _ _ _ Hc) in Hin as (c & Hin & E & Hfree & _). exists c. split_and!; try done.
    destruct (headers_in _ _ _ _ (co_headers _ _ _ _ Hc) Hin) as [Es _]. by rewrite <- Es, E.
Qed.

(** ** Accounting *)

Lemma in_mid (c : cell) l r : c ∈ l ++ c :: r.
Proof. apply elem_of_app. right. left. Qed.

Lemma in_mid2 (c d : cell) l r : d ∈ l ++ c :: d :: r.
Proof. apply elem_of_app. right. right. left. Qed.

Lemma layout_total lo cs hi : layout lo cs hi → zsum (λ c, c_size c + 64) cs = hi - lo.
Proof.
  revert lo. induction cs as [|c cs IH]; intros lo; cbn; [lia|]. intros (<- & _ & _ & H). apply IH in H.
  unfold c_end in H. unfold zsum in *. lia.
Qed.

Lemma used_bound h cs fl x : core h cs fl x → 0 ≤ used_bytes cs ≤ HEAP_MAX_SIZE.
Proof.
  intros Hc. pose proof (layout_total _ _ _ (co_layout _ _ _ _ Hc)) as Ht. pose proof (co_hi _ _ _ _ Hc).
  assert (0 ≤ used_bytes cs ≤ zsum (λ c, c_size c + 64) cs); [|lia].
  assert (Hsz : ∀ c, c ∈ cs → 16 ≤ c_size c) by (intros c Hin; by apply (core_addr _ _ _ _ _ Hc) in Hin as (_ & _ & ? & _)).
  clear -Hsz. induction cs as [|c cs IH]; cbn; [lia|]. pose proof (Hsz c ltac:(left)).
  destruct IH; [intros; apply Hsz; by right|]. unfold used_bytes, zsum in *. destruct (c_free c); lia.
Qed.

Lemma core_used h cs fl x u : core h cs fl x → core (with_used u h) cs fl x.
Proof. intros Hc. split; apply Hc. Qed.

Lemma core_cells_sym h cs cs' fl x : cs = cs' → core h cs fl x → core h cs' fl x.
Proof. by intros ->. Qed.

(** ** Allocation *)

(** The pieces of a block that serves a request of [sz] bytes. *)
Definition cut_cell (c : cell) (sz : Z) : list cell :=
  if 80 <=? c_size c - sz
  then [Cell (c_addr c) sz false; Cell (c_addr c + 64 + sz) (c_size c - sz - 64) true]
  else [Cell (c_addr c) (c_size c) false].

(** The block out of its bin and marked allocated, not yet split. *)
Definition grabbed (a : Z) (h : heap) : heap := block_set_free a false (bin_remove a h).

Lemma grabbed_spec h l c r fl : core h (l ++ c :: r) fl 0 → c_free c = true →
  let c' := Cell (c_addr c) (c_size c) false in
  (∃ fl', core (grabbed (c_addr c) h) (l ++ c' :: r) fl' 0) ∧
  touches (l ++ c :: r) (l ++ c :: r) h (grabbed (c_addr c) h) ∧
  heap_used (grabbed (c_addr c) h) = heap_used h ∧
  heap_mapped_end (grabbed (c_addr c) h) = heap_mapped_end h ∧
  get (hmem (grabbed (c_addr c) h)) (c_addr c) f_size = c_size c.
Proof.
  intros Hc Hf c'. pose proof (in_mid c l r) as Hin.
  destruct (core_remove _ _ _ c Hc Hin Hf) as (fl1 & Hc1 & Ht1).
  destruct (bin_remove_rest (c_addr c) h) as (_ & U1 & M1).
  destruct (core_flag (bin_remove (c_addr c) h) l c r fl1 false Hc1) as [Hc2 Ht2]. fold c' in Hc2.
  apply (core_forget _ _ fl1 c') in Hc2; [|apply in_mid|done]. fold (grabbed (c_addr c) h) in Hc2, Ht2.
  split_and!; [by exists fl1|by eapply touches_trans|done..|].
  by destruct (headers_in _ _ _ _ (co_headers _ _ _ _ Hc2) (in_mid c' l r)).
Qed.

(** Cutting an allocated block and filing the tail. *)
Definition cut_off (a sz n : Z) (h : heap) : heap :=
  bin_push (a + 64 + sz) (put a f_size sz (relinked (a + 64 + sz) (new_header (a + 64 + sz) (n - sz - 64) a h))).

Lemma cut_off_spec h l c r fl sz : core h (l ++ c :: r) fl 0 → c_free c = false →
  16 ≤ sz → (16 | sz) → 80 ≤ c_size c - sz →
  let cs' := l ++ cut_cell c sz ++ r in
  let h' := cut_off (c_addr c) sz (c_size c) h in
  (∃ fl', core h' cs' fl' 0) ∧ touches (l ++ c :: r) cs' h h' ∧ heap_used h' = heap_used h ∧
  heap_mapped_end h' = heap_mapped_end h ∧ get (hmem h') (c_addr c) f_size = sz.
Proof.
  intros Hc Hf Hs1 Hs2 H80. unfold cut_cell. destruct (Z.leb_spec 80 (c_size c - sz)); [|lia].
  destruct (core_cut h l c r fl sz Hc Hf Hs1 Hs2 H80) as (Hc3 & Ht3 & U3 & M3).
  set (d := Cell _ _ true) in *. set (c3 := Cell (c_addr c) sz false) in *. cbv zeta.
  change (l ++ [c3; d] ++ r) with (l ++ c3 :: d :: r).
  destruct (core_push _ _ fl d Hc3 (in_mid2 c3 d l r) eq_refl) as (fl4 & Hc4 & Ht4).
  destruct (bin_push_rest (c_addr d) (put (c_addr c) f_size sz (relinked (c_addr d)
    (new_header (c_addr d) (c_size c - sz - 64) (c_addr c) h)))) as (_ & U4 & M4).
  change (c_addr d) with (c_addr c + 64 + sz) in *. fold (cut_off (c_addr c) sz (c_size c) h) in *.
  split_and!.
  - by exists fl4.
  - eapply touches_trans; [exact Ht3|]. eapply touches_mono; [| |exact Ht4]; auto.
  - by rewrite U4.
  - by rewrite M4.
  - by destruct (headers_in _ _ _ _ (co_headers _ _ _ _ Hc4) (in_mid c3 l (d :: r))).
Qed.

Lemma take_block_eq h c sz : get (hmem (grabbed (c_addr c) h)) (c_addr c) f_size = c_size c →
  HEAP_START ≤ c_addr c → c_end c ≤ HEAP_START + HEAP_MAX_SIZE → 0 ≤ sz ≤ c_size c →
  take_block (c_addr c) sz h =
  let h := if 80 <=? c_size c - sz then cut_off (c_addr c) sz (c_size c) (grabbed (c_addr c) h)
           else grabbed (c_addr c) h in
  (with_used (u64 (heap_used h + (get (hmem h) (c_addr c) f_size + 64))) h, c_addr c + 64).
Proof.
  intros Hsz Ha1 Ha2 Hs. destruct heap_consts as (? & ? & ? & Hmax & _). unfold c_end in *. rewrite Hmax in Ha2.
  unfold take_block. cbv zeta. change (block_set_free _ false (bin_remove (c_addr c) h)) with (grabbed (c_addr c) h).
  change (sizeof_block + 16) with 80. change (c_addr c + sizeof_block) with (c_addr c + 64).
  rewrite Hsz, carve_eq, (u64_small (c_size c - sz)), (u64_small (c_addr c + 64)), (u64_small (c_addr c + 64 + sz)) by lia.
  done.
Qed.

(** Charging the allocated block to [heap_used]. *)
Definition charged (a : Z) (h : heap) : heap := with_used (u64 (heap_used h + (get (hmem h) a f_size + 64))) h.

Lemma charged_ok h a cs fl cs0 n : core h cs fl 0 → heap_used h = used_bytes cs0 →
  used_bytes cs = used_bytes cs0 + (n + 64) → get (hmem h) a f_size = n →
  base_size ≤ heap_mapped_end h → (4096 | heap_mapped_end h) → heap_ok (charged a h) cs.
Proof.
  intros Hc Hu Hn Hg Hb Hp. pose proof (used_bound _ _ _ _ Hc) as Hub. destruct heap_consts as (_ & _ & _ & Hmax & _).
  unfold charged. rewrite Hg, Hu, u64_small by lia. split; [exists fl; by apply core_used|cbn; lia|done..].
Qed.

Lemma take_block_spec h l c r sz : heap_ok h (l ++ c :: r) → c_free c = true →
  16 ≤ sz ≤ c_size c → (16 | sz) →
  ∃ h', take_block (c_addr c) sz h = (h', c_addr c + 64) ∧ heap_ok h' (l ++ cut_cell c sz ++ r) ∧
    touches (l ++ c :: r) (l ++ cut_cell c sz ++ r) h h' ∧ heap_mapped_end h' = heap_mapped_end h.
Proof.
  intros [[fl Hc] Hu Hb Hp] Hf [Hs1 Hs2] Hs3. pose proof (core_addr _ _ _ _ _ Hc (in_mid c l r)) as (? & ? & _).
  destruct (grabbed_spec h l c r fl Hc Hf) as ((fl2 & Hc2) & Ht2 & U2 & M2 & E2).
  rewrite take_block_eq by (done || lia). cbv zeta. fold (charged (c_addr c) (grabbed (c_addr c) h)).
  set (c2 := Cell (c_addr c) (c_size c) false) in *. generalize dependent (grabbed (c_addr c) h). intros h2 Hc2 Ht2 U2 M2 E2.
  eexists. split; [reflexivity|]. unfold cut_cell. destruct (Z.leb_spec 80 (c_size c - sz)) as [H80|H80].
  - pose proof (cut_off_spec h2 l c2 r fl2 sz Hc2 eq_refl Hs1 Hs3 H80) as H3. unfold cut_cell in H3.
    destruct (Z.leb_spec 80 (c_size c2 - sz)) in H3; [|cbn in *; lia]. cbn [c_addr c_size c2] in H3.
    change (c_addr c2) with (c_addr c) in H3. change (c_size c2) with (c_size c) in H3.
    destruct H3 as ((fl3 & Hc3) & Ht3 & U3 & M3 & E3). generalize dependent (cut_off (c_addr c) sz (c_size c) h2).
    intros h3 Hc3 Ht3 U3 M3 E3. split_and!.
    + eapply charged_ok; [exact Hc3|by rewrite U3, U2| |exact E3|by rewrite M3, M2..].
      rewrite !used_bytes_app, !used_bytes_cons, Hf. cbn. lia.
    + eapply touches_trans; [eapply touches_mono; [| |exact Ht2]; auto|].
      eapply touches_mono; [| |exact Ht3]; [|by auto]. intros a. rewrite !addrs_app, !addrs_cons. auto.
    + cbn. by rewrite M3, M2.
  - split_and!.
    + eapply charged_ok; [exact Hc2|by rewrite U2| |exact E2|by rewrite M2..].
      rewrite !used_bytes_app, !used_bytes_cons, Hf. cbn. lia.
    + eapply touches_mono; [| |exact Ht2]; auto.
    + done.
Qed.

Definition fits (sz : Z) (c : cell) : Prop := c_free c = true ∧ sz ≤ c_size c.

(** [kmalloc] below the slab path.  If some free block fits, one that fits is
    cut; otherwise the heap grows by [n] pages and the new block serves the
    request if it is large enough; NULL exactly when neither helps. *)
Lemma heap_alloc_spec sz avail h cs : heap_ok h cs → 16 ≤ sz ≤ HEAP_MAX_SIZE → (16 | sz) →
  let n := grown_pages sz avail h in
  let big := Cell (heap_mapped_end h) (n * 4096 - 64) true in
  let '(h', p) := heap_alloc sz avail h in
  (∃ l c r, cs = l ++ c :: r ∧ fits sz c ∧ p = c_addr c + 64 ∧
     heap_ok h' (l ++ cut_cell c sz ++ r) ∧ touches cs (l ++ cut_cell c sz ++ r) h h') ∨
  ((∀ c, c ∈ cs → ¬ fits sz c) ∧
   if decide (n = 0) then p = 0 ∧ h' = h
   else if decide (sz ≤ c_size big)
   then p = c_addr big + 64 ∧ heap_ok h' (cs ++ cut_cell big sz) ∧ touches cs (cs ++ cut_cell big sz) h h'
   else p = 0 ∧ heap_ok h' (cs ++ [big]) ∧ touches cs (cs ++ [big]) h h').
Proof.
  intros Hok Hsz H16 n big. pose proof Hok as [[fl Hc] _ _ _]. unfold heap_alloc. cbv zeta.
  destruct (find_block_spec h cs fl sz Hc) as [[-> Hnone]|(Hf & c & Hin & Hc' & Hfree & Hle)].
  - cbn [negb Z.eqb]. pose proof (heap_extend_spec sz avail h cs Hok ltac:(lia)) as He.
    destruct (heap_extend sz avail h) as [h1 grown]. cbv zeta in He. fold n in He. fold big in He.
    assert (Hnf : ∀ c, c ∈ cs → ¬ fits sz c) by (intros c Hc' [H1 H2]; specialize (Hnone c Hc' H1); lia).
    destruct grown; cbn [negb].
    + destruct He as (Hn & Hok1 & Ht & _). pose proof Hok1 as [[fl1 Hc1] _ _ _].
      destruct (find_block_spec h1 _ fl1 sz Hc1) as [[-> Hnone1]|(Hf & c & Hin & Hc' & Hfree & Hle)].
      * cbn [Z.eqb]. right. split; [done|]. rewrite decide_False by lia.
        rewrite decide_False; [done|]. specialize (Hnone1 big ltac:(apply in_mid) eq_refl). lia.
      * rewrite <- Hc' in *. destruct (Z.eqb_spec (c_addr c) 0); [done|].
        apply elem_of_app in Hin as [Hin| ->%list_elem_of_singleton]; [by destruct (Hnf c Hin)|].
        destruct (take_block_spec h1 cs big [] sz Hok1 eq_refl) as (h2 & -> & Hok2 & Ht2 & _); [lia|done|].
        rewrite app_nil_r in *. right. split; [done|]. rewrite decide_False by lia. rewrite decide_True by done.
        split_and!; [done..|]. assert (Hbig : addrs (cs ++ cut_cell big sz) (c_addr big)).
        { unfold cut_cell. destruct (_ <=? _); rewrite addrs_app, addrs_cons; auto. }
        eapply touches_trans; eapply touches_mono; [| |exact Ht| | |exact Ht2]; try (by auto);
          intros a; rewrite !addrs_app, ?addrs_cons; intros [|[->|(? & ?%elem_of_nil & _)]]; try (by auto); rewrite addrs_app in Hbig; auto.
    + destruct He as [-> Hn]. cbn [Z.eqb]. right. split; [done|]. by rewrite decide_True.
  - rewrite <- Hc' in *. destruct (Z.eqb_spec (c_addr c) 0); [done|]. cbn [negb]. apply list_elem_of_split in Hin as (l & r & ->).
    destruct (take_block_spec h l c r sz Hok Hfree) as (h2 & -> & Hok2 & Ht2 & _); [lia|done|].
    left. by exists l, c, r.
Qed.

(** ** Release *)

Definition join (c d : cell) : cell := Cell (c_addr c) (c_size c + (64 + c_size d)) (c_free c).

(** Swallow the successor if it is free. *)
Definition join_next (c : cell) (r : list cell) : cell * list cell :=
  match r with
  | d :: r' => if c_free d then (join c d, r') else (c, r)
  | [] => (c, [])
  end.

(** Be swallowed by the predecessor if it is free. *)
Definition join_prev (l : list cell) (c : cell) : list cell * cell :=
  match last l with
  | Some p => if c_free p then (removelast l, join p c) else (l, c)
  | None => (l, c)
  end.

(** The cells once [c] is freed between [l] and [r]. *)
Definition free_cell (l : list cell) (c : cell) (r : list cell) : list cell :=
  let '(c, r) := join_next c r in
  let '(l, c) := join_prev l c in
  l ++ Cell (c_addr c) (c_size c) true :: r.

Lemma join_next_addrs l c r a : addrs (l ++ fst (join_next c r) :: snd (join_next c r)) a → addrs (l ++ c :: r) a.
Proof.
  rewrite !addrs_app, !addrs_cons. destruct r as [|d r]; cbn [join_next fst snd]; [done|].
  destruct (c_free d); cbn; rewrite ?addrs_cons; naive_solver.
Qed.

Lemma join_prev_addrs l c r a : addrs (fst (join_prev l c) ++ snd (join_prev l c) :: r) a → addrs (l ++ c :: r) a.
Proof.
  unfold join_prev. destruct (last l) as [p|] eqn:El; [|done]. apply last_Some in El as [l' ->].
  destruct (c_free p); cbn [fst snd]; [|done]. rewrite removelast_last.
  rewrite !addrs_app, !addrs_cons. cbn. naive_solver.
Qed.

Lemma coalesce_next_spec h l c r fl : core h (l ++ c :: r) fl 0 → c_free c = false →
  let c1 := fst (join_next c r) in
  let cs' := l ++ c1 :: snd (join_next c r) in
  let h' := coalesce_next (c_addr c) h in
  c_addr c1 = c_addr c ∧ c_free c1 = false ∧ (∃ fl', core h' cs' fl' 0) ∧ touches (l ++ c :: r) (l ++ c :: r) h h' ∧
  heap_used h' = heap_used h ∧ heap_mapped_end h' = heap_mapped_end h.
Proof.
  intros Hc Hf. destruct heap_consts as (? & ? & ? & Hmax & _). pose proof (co_hi _ _ _ _ Hc) as Hhi. rewrite Hmax in Hhi.
  pose proof (headers_in _ _ _ _ (co_headers _ _ _ _ Hc) (in_mid c l r)) as [Esz _].
  unfold coalesce_next. rewrite (next_phys h l c r HEAP_START) by (apply Hc || done || lia). cbv zeta.
  destruct r as [|d r]; [cbn; split_and!; try done; by exists fl|].
  assert (Hd : d ∈ l ++ c :: d :: r) by apply in_mid2.
  rewrite (headers_magic _ _ _ _ (co_headers _ _ _ _ Hc) Hd), (headers_free _ _ _ _ (co_headers _ _ _ _ Hc) Hd).
  pose proof (core_addr _ _ _ _ _ Hc Hd) as (? & ? & ? & _). destruct (Z.eqb_spec (c_addr d) 0); [lia|]. cbn [negb andb join_next].
  destruct (c_free d) eqn:Ed; cbn [fst snd]; [|by split_and!; try done; exists fl].
  destruct (core_remove _ _ _ d Hc Hd Ed) as (fl1 & Hc1 & Ht1). destruct (bin_remove_rest (c_addr d) h) as (_ & U1 & M1).
  generalize dependent (bin_remove (c_addr d) h). intros h1 Hc1 Ht1 U1 M1.
  pose proof (headers_in _ _ _ _ (co_headers _ _ _ _ Hc1) (in_mid c l (d :: r))) as [E1 _].
  pose proof (headers_in _ _ _ _ (co_headers _ _ _ _ Hc1) Hd) as [E2 _].
  pose proof (core_addr _ _ _ _ _ Hc (in_mid c l (d :: r))) as (? & ? & ? & _). unfold c_end in *.
  rewrite E1, E2. change sizeof_block with 64. rewrite u64_small by lia.
  destruct (core_merge h1 l c d r fl1 (c_addr d) Hc1) as (Hc2 & Ht2 & U2 & M2); [congruence|done|auto|].
  split_and!; [done..| | | |].
  - exists fl1. by apply (core_forget _ _ _ (join c d)) in Hc2; [|apply in_mid|].
  - by eapply touches_trans.
  - by rewrite U2.
  - by rewrite M2.
Qed.

Lemma coalesce_prev_spec h l c r fl : core h (l ++ c :: r) fl 0 → c_free c = false →
  let '(l1, c1) := join_prev l c in
  let '(h', b) := coalesce_prev (c_addr c) h in
  b = c_addr c1 ∧ (∃ fl', core h' (l1 ++ c1 :: r) fl' (c_addr c1)) ∧ touches (l ++ c :: r) (l ++ c :: r) h h' ∧
  heap_used h' = heap_used h ∧ heap_mapped_end h' = heap_mapped_end h.
Proof.
  intros Hc Hf. destruct heap_consts as (? & ? & ? & Hmax & _).
  pose proof (co_headers _ _ _ _ Hc) as Hh. apply headers_app in Hh as (_ & (_ & _ & Ep) & _).
  unfold coalesce_prev, join_prev. rewrite Ep. unfold last_addr. cbv zeta.
  assert (Hkeep : core h (l ++ c :: r) fl (c_addr c)) by (apply core_hold; [done|apply in_mid|done]).
  destruct (last l) as [p|] eqn:El; [|cbn; split_and!; try done; by exists fl].
  apply last_Some in El as [l' ->]. rewrite removelast_last. rewrite <- app_assoc in Hc. cbn in Hc.
  assert (Hp : p ∈ l' ++ p :: c :: r) by apply in_mid.
  change (default 0 (c_addr <$> Some p)) with (c_addr p).
  rewrite (headers_magic _ _ _ _ (co_headers _ _ _ _ Hc) Hp), (headers_free _ _ _ _ (co_headers _ _ _ _ Hc) Hp).
  pose proof (core_addr _ _ _ _ _ Hc Hp) as (? & ? & ? & _). destruct (Z.eqb_spec (c_addr p) 0); [lia|]. cbn [negb andb].
  destruct (c_free p) eqn:Ed; [|split_and!; try done; by exists fl].
  destruct (core_remove _ _ _ p Hc Hp Ed) as (fl1 & Hc1 & Ht1). destruct (bin_remove_rest (c_addr p) h) as (_ & U1 & M1).
  generalize dependent (bin_remove (c_addr p) h). intros h1 Hc1 Ht1 U1 M1.
  pose proof (headers_in _ _ _ _ (co_headers _ _ _ _ Hc1) Hp) as [E1 _].
  pose proof (headers_in _ _ _ _ (co_headers _ _ _ _ Hc1) (in_mid2 p c l' r)) as [E2 _].
  pose proof (core_addr _ _ _ _ _ Hc (in_mid2 p c l' r)) as (? & ? & ? & _). unfold c_end in *.
  rewrite E1, E2. change sizeof_block with 64. rewrite u64_small by lia.
  destruct (core_merge h1 l' p c r fl1 (c_addr p) Hc1) as (Hc2 & Ht2 & U2 & M2); [done|congruence|auto|].
  rewrite <- app_assoc. cbn [app]. split_and!; [done| | | |].
  - by exists fl1.
  - by eapply touches_trans.
  - by rewrite U2.
  - by rewrite M2.
Qed.

Lemma used_join_next c r : c_free c = false →
  used_bytes (fst (join_next c r) :: snd (join_next c r)) =
  used_bytes (c :: r) + (c_size (fst (join_next c r)) - c_size c).
Proof.
  intros Hf. destruct r as [|d r]; cbn [join_next fst snd].
  - lia.
  - destruct (c_free d) eqn:Ed; cbn [fst snd]; rewrite !used_bytes_cons, ?Ed; cbn; rewrite ?Hf; lia.
Qed.

Lemma used_join_prev l c r : c_free c = false →
  used_bytes (fst (join_prev l c) ++ Cell (c_addr (snd (join_prev l c))) (c_size (snd (join_prev l c))) true :: r) =
  used_bytes (l ++ c :: r) - (c_size c + 64).
Proof.
  intros Hf. unfold join_prev. destruct (last l) as [p|] eqn:El.
  - apply last_Some in El as [l' ->]. rewrite removelast_last.
    destruct (c_free p) eqn:Ep; cbn [fst snd]; rewrite !used_bytes_app, !used_bytes_cons; cbn [c_free]; rewrite ?Ep, Hf; cbn; lia.
  - cbn [fst snd]. rewrite !used_bytes_app, !used_bytes_cons, Hf. cbn. lia.
Qed.

Lemma join_next_alloc c r : c_free c = false → c_free (fst (join_next c r)) = false.
Proof. intros Hf. destruct r as [|d r]; cbn; [|destruct (c_free d)]; done. Qed.

Lemma used_free_cell l c r : c_free c = false → used_bytes (free_cell l c r) = used_bytes (l ++ c :: r) - (c_size c + 64).
Proof.
  intros Hf. pose proof (used_join_next c r Hf) as Hj. pose proof (join_next_alloc c r Hf) as Hf1. unfold free_cell.
  destruct (join_next c r) as [c1 r1]. cbn [fst snd] in *. pose proof (used_join_prev l c1 r1 Hf1) as Hk.
  destruct (join_prev l c1) as [l2 c2]. cbn [fst snd] in *. rewrite Hk.
  rewrite !used_bytes_app, !used_bytes_cons, ?Hf, ?Hf1 in *. lia.
Qed.

Lemma release_spec h l c r : heap_ok h (l ++ c :: r) → c_free c = false →
  heap_ok (release (c_addr c) h) (free_cell l c r) ∧ touches (l ++ c :: r) (l ++ c :: r) h (release (c_addr c) h) ∧
  heap_mapped_end (release (c_addr c) h) = heap_mapped_end h.
Proof.
  intros [[fl Hc] Hu Hb Hp] Hf. unfold release. cbv zeta. change sizeof_block with 64.
  pose proof (headers_in _ _ _ _ (co_headers _ _ _ _ Hc) (in_mid c l r)) as [Esz _]. rewrite Esz, Hu.
  pose proof (used_free_cell l c r Hf) as Eu. rewrite <- Eu.
  set (h0 := with_used _ h). assert (Hc0 : core h0 (l ++ c :: r) fl 0) by (by apply core_used).
  assert (Ht0 : touches (l ++ c :: r) (l ++ c :: r) h h0) by apply hdr_writes_refl.
  assert (Hu0 : heap_used h0 = u64 (used_bytes (free_cell l c r))) by done. unfold free_cell in *.
  assert (M0 : heap_mapped_end h0 = heap_mapped_end h) by done. clearbody h0.
  destruct (coalesce_next_spec h0 l c r fl Hc0 Hf) as (Ea & Hf1 & (fl1 & Hc1) & Ht1 & U1 & M1).
  pose proof (join_next_addrs l c r) as Hs1.
  destruct (join_next c r) as [c1 r1]. cbn [fst snd] in *. rewrite <- Ea in *.
  generalize dependent (coalesce_next (c_addr c1) h0). intros h1 Hc1 Ht1 U1 M1.
  pose proof (coalesce_prev_spec h1 l c1 r1 fl1 Hc1 Hf1) as Hs. pose proof (join_prev_addrs l c1 r1) as Hs2.
  destruct (join_prev l c1) as [l2 c2]. cbn [fst snd] in *.
  destruct (coalesce_prev (c_addr c1) h1) as [h2 b]. destruct Hs as (-> & (fl2 & Hc2) & Ht2 & U2 & M2).
  destruct (core_flag h2 l2 c2 r1 fl2 true Hc2) as [Hc3 Ht3]. set (c3 := Cell (c_addr c2) (c_size c2) true) in *.
  destruct (core_push _ _ fl2 c3 Hc3 (in_mid c3 l2 r1) eq_refl) as (fl4 & Hc4 & Ht4).
  destruct (bin_push_rest (c_addr c3) (block_set_free (c_addr c2) true h2)) as (_ & U4 & M4).
  change (c_addr c3) with (c_addr c2) in *. cbn [heap_used heap_mapped_end block_set_free put with_mem] in U4, M4.
  pose proof (used_bound _ _ _ _ Hc4) as Hub. destruct heap_consts as (? & _ & _ & Hmax & _).
  rewrite u64_small in Hu0 by lia. split_and!; [split|..].
  - by exists fl4.
  - by rewrite U4, U2, U1, Hu0.
  - by rewrite M4, M2, M1, M0.
  - by rewrite M4, M2, M1, M0.
  - assert (Hs3 : ∀ a, addrs (l2 ++ c3 :: r1) a → addrs (l ++ c :: r) a).
    { intros a Ha. apply Hs1, Hs2. rewrite !addrs_app, !addrs_cons in *. done. }
    repeat (eapply touches_trans; [eassumption|]).
    eapply touches_trans; [eapply touches_mono; [| |exact Ht2]; auto|].
    eapply touches_trans; [eapply touches_mono; [| |exact Ht3]; auto|].
    eapply touches_mono; [| |exact Ht4]; auto.
  - by rewrite M4, M2, M1, M0.
Qed.

End HeapOps.
