(* ===== verification/HeapShrink.v ===== *)
(** * Heap: in-place shrinking and the return of tail pages *)

From S2P Require Import Prelude Bytes Words Dll Heap HeapFacts HeapInv HeapOps.

Module HeapShrink.
Import Heap HeapFacts HeapInv HeapOps.

(** ** [krealloc] in place *)

Lemma put_comm a f v b g w h : a + off f ≠ b + off g → put a f v (put b g w h) = put b g w (put a f v h).
Proof. intros Hne. unfold put, with_mem, set, wr. cbn. by rewrite insert_insert_ne. Qed.

Lemma put_comm_apart a f v b g w h : apart a b → put a f v (put b g w h) = put b g w (put a f v h).
Proof. intros Hap. apply put_comm. pose proof (off_range f). pose proof (off_range g). unfold apart in Hap. lia. Qed.

Lemma next_phys_put a b f v h : apart b a → block_next_phys a (put b f v h) = block_next_phys a h.
Proof. intros Hap. unfold block_next_phys. cbn [hmem put with_mem heap_mapped_end]. by rewrite get_set_apart. Qed.

Lemma relinked_put a b f v h : apart b a → block_next_phys a h = 0 ∨ apart b (block_next_phys a h) →
  relinked a (put b f v h) = put b f v (relinked a h).
Proof.
  intros Hap Hn. unfold relinked. rewrite next_phys_put by done. cbv zeta.
  destruct (Z.eqb_spec (block_next_phys a h) 0); cbn [negb]; [done|].
  apply put_comm_apart, apart_sym. by destruct Hn.
Qed.

Lemma new_header_put a n p b f v h : apart b a → new_header a n p (put b f v h) = put b f v (new_header a n p h).
Proof. intros Hap%apart_sym. unfold new_header, block_set_free. by rewrite !(put_comm_apart a _ _ b) by done. Qed.

(** Charging less and filing the tail commute. *)
Lemma bin_push_used b u h : bin_push b (with_used u h) = with_used u (bin_push b h).
Proof. unfold bin_push. cbn [hmem bins with_used]. by destruct (negb _). Qed.

Lemma shrink_block_eq h l c r fl sz : core h (l ++ c :: r) fl 0 → c_free c = false →
  16 ≤ sz → (16 | sz) → 80 ≤ c_size c - sz →
  shrink_block (c_addr c) sz h = with_used (u64 (heap_used h - (c_size c - sz))) (cut_off (c_addr c) sz (c_size c) h).
Proof.
  intros Hc Hf Hs1 Hs2 H80. pose proof (core_addr _ _ _ _ _ Hc (in_mid c l r)) as (? & He & _).
  destruct heap_consts as (? & ? & ? & Hmax & _). pose proof (co_hi _ _ _ _ Hc) as Hhi. rewrite Hmax in *. unfold c_end in *.
  destruct (headers_in _ _ _ _ (co_headers _ _ _ _ Hc) (in_mid c l r)) as [Esz _].
  unfold shrink_block. rewrite Esz. cbv zeta. change (sizeof_block + 16) with 80.
  rewrite (u64_small (c_size c - sz)) by lia. destruct (Z.leb_spec 80 (c_size c - sz)); [|lia].
  rewrite carve_eq, (u64_small (c_addr c + 64 + sz)) by lia. set (a := c_addr c + 64 + sz).
  assert (Hap : apart (c_addr c) a) by (unfold apart; lia).
  rewrite new_header_put by done. rewrite relinked_put; [|done|].
  - unfold cut_off. fold a. rewrite <- bin_push_used. do 2 f_equal. cbn [heap_used put with_mem].
    unfold relinked. by destruct (negb _).
  - set (h1 := new_header _ _ _ h). set (d := Cell a (c_size c - sz - 64) true).
    pose proof (layout_cut _ _ _ _ _ sz false true (co_layout _ _ _ _ Hc) Hs1 Hs2 H80) as Hl. fold a d in Hl.
    change a with (c_addr d). rewrite (next_phys h1 (l ++ [Cell (c_addr c) sz false]) d r HEAP_START).
    + destruct r as [|e r]; [by left|right].
      destruct (layout_mid_apart _ _ _ _ _ (co_layout _ _ _ _ Hc)) as [_ Ar]. apply (Ar e). left.
    + rewrite <- app_assoc. exact Hl.
    + lia.
    + change (heap_mapped_end h1) with (heap_mapped_end h). lia.
    + by destruct (new_header_get a (c_size c - sz - 64) (c_addr c) h) as [(? & _) _].
Qed.

Lemma shrink_block_spec h l c r sz : heap_ok h (l ++ c :: r) → c_free c = false →
  16 ≤ sz ≤ c_size c → (16 | sz) →
  heap_ok (shrink_block (c_addr c) sz h) (l ++ cut_cell c sz ++ r) ∧
  touches (l ++ c :: r) (l ++ cut_cell c sz ++ r) h (shrink_block (c_addr c) sz h) ∧
  heap_mapped_end (shrink_block (c_addr c) sz h) = heap_mapped_end h.
Proof.
  intros [[fl Hc] Hu Hb Hp] Hf [Hs1 Hs2] Hs3. destruct (Z.le_gt_cases 80 (c_size c - sz)) as [H80|H80].
  - rewrite (shrink_block_eq h l c r fl sz Hc Hf Hs1 Hs3 H80).
    destruct (cut_off_spec h l c r fl sz Hc Hf Hs1 Hs3 H80) as ((fl' & Hc') & Ht & U & M & _).
    generalize dependent (cut_off (c_addr c) sz (c_size c) h). intros h' Hc' Ht U M.
    assert (Eu : used_bytes (l ++ cut_cell c sz ++ r) = used_bytes (l ++ c :: r) - (c_size c - sz)).
    { unfold cut_cell. destruct (Z.leb_spec 80 (c_size c - sz)); [|lia].
      rewrite !used_bytes_app, !used_bytes_cons, Hf. cbn. lia. }
    pose proof (used_bound _ _ _ _ Hc') as Hub. destruct heap_consts as (_ & _ & _ & Hmax & _).
    rewrite Hu, u64_small by lia. split_and!; [split|done|done].
    + exists fl'. by apply core_used.
    + cbn. lia.
    + cbn. by rewrite M.
    + cbn. by rewrite M.
  - assert (cut_cell c sz = [c]) as ->.
    { unfold cut_cell. destruct (Z.leb_spec 80 (c_size c - sz)); [lia|]. by rewrite <- Hf; destruct c. }
    assert (shrink_block (c_addr c) sz h = h) as ->.
    { unfold shrink_block. destruct (headers_in _ _ _ _ (co_headers _ _ _ _ Hc) (in_mid c l r)) as [-> _]. cbv zeta.
      pose proof (core_addr _ _ _ _ _ Hc (in_mid c l r)) as (? & He & _). destruct heap_consts as (? & ? & ? & Hmax & _).
      unfold c_end in He. rewrite u64_small by lia. change (sizeof_block + 16) with 80.
      destruct (Z.leb_spec 80 (c_size c - sz)); [lia|done]. }
    split_and!; [|apply hdr_writes_refl|done]. split; [by exists fl|done..].
Qed.

(** ** The end of the heap moves independently of the bins *)

Lemma bin_remove_end b e h : bin_remove b (with_end e h) = with_end e (bin_remove b h).
Proof.
  unfold bin_remove. cbn [hmem bins with_end].
  destruct (negb (get (hmem h) b f_bin_prev =? 0)); cbn [hmem put with_mem with_bins with_end]; by destruct (negb _).
Qed.

Lemma bin_push_end b e h : bin_push b (with_end e h) = with_end e (bin_push b h).
Proof. unfold bin_push. cbn [hmem bins with_end]. by destruct (negb _). Qed.

(** ** Unmapping *)

Lemma unmap_page_lookup va m w : unmap_page va m !! w = if decide (va ≤ w < va + 4096) then None else m !! w.
Proof.
  unfold unmap_page, PAGE_SIZE. destruct (decide (va ≤ w < va + 4096)) as [H|H].
  - apply map_lookup_filter_None. right. intros v _ Hn. cbn in Hn. done.
  - destruct (m !! w) as [v|] eqn:E.
    + by apply map_lookup_filter_Some.
    + apply map_lookup_filter_None. by left.
Qed.

Lemma unmap_range_spec s e h : s ≤ e → (4096 | e - s) →
  (∀ w, hmem (unmap_range s e h) !! w = if decide (s ≤ w < e) then None else hmem h !! w) ∧
  unmap_range s e h = with_mem (hmem (unmap_range s e h)) h.
Proof.
  intros Hse [k Hk]. unfold unmap_range, PAGE_SIZE. rewrite Hk, Z.div_mul by lia.
  pose proof (for_ind (λ j h', (∀ w, hmem h' !! w = if decide (e - j * 4096 ≤ w < e) then None else hmem h !! w) ∧
    h' = with_mem (hmem h') h) k (λ i h, with_mem (unmap_page (e - (i + 1) * 4096) (hmem h)) h) h) as H.
  cbv beta in H. replace (e - k * 4096) with s in H by lia. apply H; [lia| |].
  - split; [|by destruct h]. intros w. rewrite decide_False by lia. done.
  - intros j h' Hj [Hl ->]. split; [|done]. intros w. cbn [hmem with_mem]. rewrite unmap_page_lookup, Hl.
    repeat case_decide; try done; lia.
Qed.

Lemma core_mem h cs fl x m : core h cs fl x →
  (∀ c w, c ∈ cs → c_addr c ≤ w < c_addr c + 40 → m !! w = hmem h !! w) → core (with_mem m h) cs fl x.
Proof.
  intros Hc Hm.
  assert (Hg : ∀ c f, c ∈ cs → get m (c_addr c) f = get (hmem h) (c_addr c) f).
  { intros c f Hin. unfold get, rd. pose proof (block_off_range f). by rewrite (Hm c) by (done || lia). }
  split; try apply Hc.
  - eapply headers_ext; [|apply Hc]. intros c Hin. unfold same_hdr. cbn. by rewrite !Hg.
  - apply (bins_ext (hmem h)); [|apply Hc]. intros i b Hb.
    apply (core_member _ _ _ _ _ _ Hc) in Hb as (c & Hin & <-). cbn. by rewrite !Hg.
Qed.

(** Dropping the last cell, which is in hand. *)
Lemma core_drop h l c fl e : core (with_end e h) (l ++ [c]) fl (c_addr c) → core (with_end (c_addr c) h) l fl 0.
Proof.
  intros Hc. destruct (layout_split _ _ _ _ _ (co_layout _ _ _ _ Hc)) as (Hb & _ & Hl & _).
  pose proof (core_addr _ _ _ _ _ Hc (in_mid c l [])) as (? & ? & ? & _). split; try apply Hc.
  - cbn. unfold c_end in *. lia.
  - done.
  - pose proof (co_headers _ _ _ _ Hc) as Hh. by apply headers_app in Hh as [? _].
  - intros i b. rewrite (co_free _ _ _ _ Hc). split; intros (d & Hd & <- & Hf & Hi & Hne); exists d.
    + assert (d ∈ l) by (apply elem_of_app in Hd as [| ->%list_elem_of_singleton]; done). split_and!; try done.
      pose proof (core_addr _ _ _ _ _ Hc Hd) as (? & _). unfold HEAP_START in *. lia.
    + split_and!; try done; [apply elem_of_app; by left|]. specialize (Hb d Hd).
      assert (d ∈ l ++ [c]) as Hd' by (apply elem_of_app; by left).
      pose proof (core_addr _ _ _ _ _ Hc Hd') as (_ & _ & ? & _). unfold c_end in *. lia.
Qed.

(** Trimming the last cell, which is in hand. *)
Lemma core_trim h l c fl e n : core (with_end e h) (l ++ [c]) fl (c_addr c) →
  16 ≤ n → (16 | n) → c_addr c + 64 + n ≤ HEAP_START + HEAP_MAX_SIZE →
  core (with_end (c_addr c + 64 + n) (put (c_addr c) f_size n h)) (l ++ [Cell (c_addr c) n (c_free c)]) fl (c_addr c).
Proof.
  intros Hc H1 H2 H3. destruct (layout_mid_apart _ _ _ _ _ (co_layout _ _ _ _ Hc)) as [Al _].
  destruct (layout_split _ _ _ _ _ (co_layout _ _ _ _ Hc)) as (_ & _ & Hl & _). split; try apply Hc.
  - done.
  - cbn. by apply layout_snoc.
  - pose proof (co_headers _ _ _ _ Hc) as Hh. apply headers_app in Hh as (Hh1 & (E1 & E2 & E3) & _).
    cbn in *. apply headers_app. split; [by apply headers_set_out|]. split; [|done].
    unfold hdr_ok. cbn. by rewrite get_set_eq, !get_set_field.
  - cbn. apply bins_set; [done..| |apply Hc]. intros i x Hx.
    apply (core_sep _ _ _ _ _ _ Hc); [exists c; split; [apply in_mid|done]|by eapply core_member].
  - intros i b. rewrite (co_free _ _ _ _ Hc). split; intros (d & Hd & <- & Hf & Hi & Hne); exists d;
      (apply elem_of_app in Hd as [Hd|Hd%list_elem_of_singleton]; [|by subst d]); split_and!; try done; apply elem_of_app; by left.
Qed.

(** ** The loop of [heap_shrink] *)

Definition page_up (a : Z) : Z := (a + 4095) / 4096 * 4096.

(** Where the last block [c], ending at [st], can be cut: [Some fs] when the
    pages of [fs, st) can go, leaving nothing or a whole block of [c]. *)
Definition cut_point (a st : Z) : option Z :=
  let fs := Z.max base_size (page_up a) in
  if bool_decide (base_size < st ∧ fs < st ∧ (fs = a ∨ 80 ≤ fs - a)) then Some fs else None.

Definition is_alloc (c : cell) : Prop := c_free c = false.

Definition allocated (cs : list cell) : list cell := filter is_alloc cs.

(** The words of the allocated blocks are as before. *)
Definition kept (cs : list cell) (h h' : heap) : Prop :=
  ∀ c w, c ∈ cs → c_free c = false → c_addr c + 64 ≤ w < c_end c → hmem h' !! w = hmem h !! w.

(** No page at the end can be returned any more. *)
Definition stuck (cs : list cell) (st : Z) : Prop :=
  ∀ l c, cs = l ++ [c] → c_free c = true → cut_point (c_addr c) st = None.

(** One iteration on the last block. *)
Lemma shrink_loop_step fuel h l c fl st : core (with_end st h) (l ++ [c]) fl 0 → base_size ≤ st →
  shrink_loop (S fuel) (c_addr c) st h =
  match (if c_free c then cut_point (c_addr c) st else None) with
  | None => (h, st)
  | Some fs =>
      if fs =? c_addr c then shrink_loop fuel (last_addr 0 l) fs (unmap_range fs st (bin_remove (c_addr c) h))
      else (bin_push (c_addr c) (put (c_addr c) f_size (fs - c_addr c - 64)
              (bin_remove (c_addr c) (unmap_range fs st h))), fs)
  end.
Proof.
  intros Hc Hst. pose proof (core_addr _ _ _ _ _ Hc (in_mid c l [])) as (? & ? & ? & _).
  destruct heap_consts as (? & ? & ? & Hmax & _). unfold c_end in *.
  destruct (layout_split _ _ _ _ _ (co_layout _ _ _ _ Hc)) as (_ & _ & _ & He & _). cbn in He. unfold c_end in He.
  pose proof (co_headers _ _ _ _ Hc) as Hh. pose proof (headers_free _ _ _ _ Hh (in_mid c l [])) as Ef.
  apply headers_app in Hh as (_ & (E1 & _ & E3) & _). cbn [hmem with_end] in *.
  cbn [shrink_loop]. cbv zeta. rewrite E1, E3, Ef. change sizeof_block with 64. change PAGE_SIZE with 4096.
  rewrite (u64_small (c_addr c + 64 + c_size c)), He, Z.eqb_refl by lia. cbn [negb]. rewrite orb_false_r.
  rewrite ALIGN_UP_4096 by lia. fold (page_up (c_addr c)).
  destruct (Z.eqb_spec (c_addr c) 0); [lia|]. cbn [orb]. unfold cut_point. cbv zeta. set (fs := Z.max base_size _).
  assert (Hfs : (if page_up (c_addr c) <? base_size then base_size else page_up (c_addr c)) = fs)
    by (subst fs; destruct (Z.ltb_spec (page_up (c_addr c)) base_size); lia). rewrite Hfs.
  assert (Hge : c_addr c ≤ fs) by (subst fs; unfold page_up; divlia).
  destruct (Z.leb_spec st base_size) as [Hb|Hb].
  { destruct (c_free c); [|done]. rewrite bool_decide_eq_false_2; [done|lia]. }
  destruct (c_free c); cbn [negb]; [|done].
  destruct (Z.leb_spec st (page_up (c_addr c))); [rewrite bool_decide_eq_false_2; [done|lia]|].
  destruct (Z.leb_spec st fs); [rewrite bool_decide_eq_false_2; [done|lia]|].
  change (64 + 16) with 80. destruct (Z.eqb_spec fs (c_addr c)) as [Efs|Efs]; cbn [negb andb].
  - rewrite bool_decide_eq_true_2 by (split_and!; [done|done|by left]). by rewrite (proj2 (Z.eqb_eq _ _) Efs).
  - rewrite (u64_small (fs - c_addr c)) by lia. destruct (Z.ltb_spec (fs - c_addr c) 80).
    + rewrite bool_decide_eq_false_2; [done|]. intros (_ & _ & [|]); lia.
    + rewrite bool_decide_eq_true_2 by (split_and!; [done|done|by right]).
      by rewrite (proj2 (Z.eqb_neq _ _) Efs), u64_small by lia.
Qed.

Lemma cut_point_spec a st fs : (4096 | st) → (16 | a) → cut_point a st = Some fs →
  base_size ≤ fs < st ∧ (4096 | fs) ∧ (fs = a ∨ 80 ≤ fs - a) ∧ (16 | fs).
Proof.
  intros Hd Ha. unfold cut_point. cbv zeta. case_bool_decide as H; [|done]. intros [= <-].
  assert (4096 | Z.max base_size (page_up a)) as Hp.
  { destruct (Z.max_dec base_size (page_up a)) as [->| ->]; [by exists (base_size / 4096)|by eexists]. }
  split_and!; try tauto; try lia. destruct Hp as [k ->]. exists (k * 256). lia.
Qed.

Lemma allocated_snoc l c : c_free c = true → allocated (l ++ [c]) = allocated l.
Proof.
  intros Hf. unfold allocated. rewrite filter_app, (filter_cons_False is_alloc c []), app_nil_r; [done|].
  unfold is_alloc. congruence.
Qed.

(** The words of an allocated block of [l] lie below the last block. *)
Lemma data_below lo l c hi d w : layout lo (l ++ [c]) hi → d ∈ l ++ [c] → c_free d = false → c_free c = true →
  c_addr d + 64 ≤ w < c_end d → d ∈ l ∧ w < c_addr c.
Proof.
  intros Hl Hd Hf Hc Hw. apply elem_of_app in Hd as [Hd|Hd%list_elem_of_singleton]; [|congruence]. split; [done|].
  destruct (layout_split _ _ _ _ _ Hl) as (Hb & _). specialize (Hb d Hd). lia.
Qed.

Lemma kept_trans cs h1 h2 h3 : kept cs h1 h2 → kept cs h2 h3 → kept cs h1 h3.
Proof. intros H1 H2 c w Hc Hf Hw. rewrite (H2 c w), (H1 c w); done. Qed.

(** Header writes of the cells of a tiling do not touch block contents. *)
Lemma touches_kept lo cs hi h h' : layout lo cs hi → touches cs cs h h' → kept cs h h'.
Proof.
  intros Hl Ht c w Hc _ Hw. apply Ht. intros b Hb Hin.
  assert (addrs cs b) as (d & Hd & <-) by tauto. destruct (layout_apart _ _ _ c d Hl Hc Hd) as [->|[_ Hdis]]; [lia|].
  pose proof (layout_in _ _ _ _ Hl Hd) as (_ & _ & ? & _). unfold disjoint_cells, c_end in *. lia.
Qed.

(** Unmapping pages above [fs] inside the last, free block. *)
Lemma unmap_kept h l c fl x fs st : core (with_end st h) (l ++ [c]) fl x → c_free c = true →
  c_addr c ≤ fs ≤ st → (4096 | st - fs) → kept (l ++ [c]) h (unmap_range fs st h).
Proof.
  intros Hc Hf Hfs Hd d w Hin Hfd Hw. destruct (unmap_range_spec fs st h) as [-> _]; [lia|done|].
  destruct (data_below _ _ _ _ d w (co_layout _ _ _ _ Hc) Hin Hfd Hf Hw). rewrite decide_False by lia. done.
Qed.

Lemma shrink_whole h l c fl st : core (with_end st h) (l ++ [c]) fl 0 → c_free c = true →
  (4096 | st) → (4096 | c_addr c) →
  let h' := unmap_range (c_addr c) st (bin_remove (c_addr c) h) in
  (∃ fl', core (with_end (c_addr c) h') l fl' 0) ∧ kept (l ++ [c]) h h' ∧ heap_used h' = heap_used h.
Proof.
  intros Hc Hf Hd Hdc. pose proof (core_addr _ _ _ _ _ Hc (in_mid c l [])) as (_ & _ & ? & _ & _ & ?).
  cbn [heap_mapped_end with_end] in *. unfold c_end in *.
  destruct (core_remove _ _ _ c Hc (in_mid c l []) Hf) as (fl1 & Hc1 & Ht1). rewrite bin_remove_end in Hc1, Ht1.
  destruct (bin_remove_rest (c_addr c) h) as (_ & U1 & _). cbv zeta.
  assert (Hk1 : kept (l ++ [c]) h (bin_remove (c_addr c) h)) by (eapply touches_kept; [apply Hc|exact Ht1]).
  generalize dependent (bin_remove (c_addr c) h). intros h1 Hc1 Ht1 U1 Hk1.
  assert (Hdiv : (4096 | st - c_addr c)) by (by apply Z.divide_sub_r).
  destruct (unmap_range_spec (c_addr c) st h1 ltac:(lia) Hdiv) as [Hm Heq]. split_and!.
  - exists fl1. rewrite Heq. apply (core_mem (with_end (c_addr c) h1)); [by eapply core_drop|].
    intros d w Hin Hw. cbn. rewrite Hm, decide_False; [done|].
    destruct (layout_split _ _ _ _ _ (co_layout _ _ _ _ Hc)) as (Hb & _). specialize (Hb d Hin).
    assert (d ∈ l ++ [c]) as Hd' by (apply elem_of_app; by left).
    apply (core_addr _ _ _ _ _ Hc) in Hd' as (_ & _ & ? & _). unfold c_end in *. lia.
  - eapply kept_trans; [exact Hk1|]. eapply unmap_kept; [exact Hc1|done|lia|done].
  - rewrite Heq. done.
Qed.

Lemma shrink_part h l c fl st fs : core (with_end st h) (l ++ [c]) fl 0 → c_free c = true →
  (4096 | st) → (4096 | fs) → (16 | fs) → 80 ≤ fs - c_addr c → fs < st →
  let c' := Cell (c_addr c) (fs - c_addr c - 64) true in
  let h' := bin_push (c_addr c) (put (c_addr c) f_size (fs - c_addr c - 64) (bin_remove (c_addr c) (unmap_range fs st h))) in
  (∃ fl', core (with_end fs h') (l ++ [c']) fl' 0) ∧ kept (l ++ [c]) h h' ∧ heap_used h' = heap_used h.
Proof.
  intros Hc Hf Hd Hdf Hd16 H80 Hlt c'. pose proof (core_addr _ _ _ _ _ Hc (in_mid c l [])) as (? & Hce & ? & _ & Ha16 & Hend).
  destruct (layout_split _ _ _ _ _ (co_layout _ _ _ _ Hc)) as (Hb & _ & Hl1 & He & _). cbn in He, Hend. unfold c_end in *. cbv zeta.
  assert (Hdiv : (4096 | st - fs)) by (by apply Z.divide_sub_r).
  destruct (unmap_range_spec fs st h ltac:(lia) Hdiv) as [Hm Heq].
  assert (Hk0 : kept (l ++ [c]) h (unmap_range fs st h)) by (eapply unmap_kept; [exact Hc|done|lia|done]).
  assert (Hc0 : core (with_end st (unmap_range fs st h)) (l ++ [c]) fl 0).
  { rewrite Heq. apply (core_mem (with_end st h)); [done|]. intros d w Hin Hw. cbn. rewrite Hm, decide_False; [done|].
    apply elem_of_app in Hin as [Hin|Hin%list_elem_of_singleton]; [|subst d; lia].
    specialize (Hb d Hin). apply (layout_in _ _ _ _ Hl1) in Hin as (_ & _ & ? & _). lia. }
  assert (U0 : heap_used (unmap_range fs st h) = heap_used h) by (by rewrite Heq).
  generalize dependent (unmap_range fs st h). intros h0 _ _ Hk0 Hc0 U0.
  destruct (core_remove _ _ _ c Hc0 (in_mid c l []) Hf) as (fl1 & Hc1 & Ht1). rewrite bin_remove_end in Hc1, Ht1.
  destruct (bin_remove_rest (c_addr c) h0) as (_ & U1 & _).
  assert (Hk1 : kept (l ++ [c]) h0 (bin_remove (c_addr c) h0)) by (eapply touches_kept; [apply Hc|exact Ht1]).
  generalize dependent (bin_remove (c_addr c) h0). intros h1 Hc1 Ht1 U1 Hk1.
  pose proof (core_trim h1 l c fl1 st (fs - c_addr c - 64) Hc1 ltac:(lia)) as Hc2. rewrite Hf in Hc2.
  replace (c_addr c + 64 + (fs - c_addr c - 64)) with fs in Hc2 by lia. fold c' in Hc2.
  specialize (Hc2 ltac:(apply Z.divide_sub_r; [by apply Z.divide_sub_r|by exists 4]) ltac:(lia)).
  set (h2 := put (c_addr c) f_size (fs - c_addr c - 64) h1) in *.
  assert (Ht2 : touches (l ++ [c]) (l ++ [c]) h1 h2) by (apply touches_put; left; exists c; split; [apply in_mid|done]).
  assert (Hk2 : kept (l ++ [c]) h1 h2) by (eapply touches_kept; [apply Hc|exact Ht2]).
  destruct (core_push _ _ fl1 c' Hc2 (in_mid c' l []) eq_refl) as (fl3 & Hc3 & Ht3).
  rewrite bin_push_end in Hc3, Ht3. change (c_addr c') with (c_addr c) in *. destruct (bin_push_rest (c_addr c) h2) as (_ & U3 & _).
  split_and!.
  - by exists fl3.
  - eapply kept_trans; [exact Hk0|]. eapply kept_trans; [exact Hk1|]. eapply kept_trans; [exact Hk2|].
    eapply touches_kept; [apply Hc|]. eapply touches_mono; [| |exact Ht3]; intros a; rewrite !addrs_app, !addrs_cons; auto.
  - rewrite U3. change (heap_used h2) with (heap_used h1). by rewrite U1.
Qed.

Lemma last_addr_snoc p l c : last_addr p (l ++ [c]) = c_addr c.
Proof. unfold last_addr. by rewrite last_snoc. Qed.

Lemma shrink_loop_spec fuel cs h fl st : core (with_end st h) cs fl 0 → base_size ≤ st → (4096 | st) →
  (length cs < fuel)%nat →
  let '(h', st') := shrink_loop fuel (last_addr 0 cs) st h in
  ∃ cs' fl', core (with_end st' h') cs' fl' 0 ∧ base_size ≤ st' ≤ st ∧ (4096 | st') ∧
    allocated cs' = allocated cs ∧ kept cs h h' ∧ heap_used h' = heap_used h ∧ stuck cs' st'.
Proof.
  revert cs h fl st. induction fuel as [|fuel IH]; intros cs h fl st Hc Hst Hd Hlen; [lia|].
  destruct cs as [|c l _] using rev_ind.
  { pose proof (co_layout _ _ _ _ Hc) as Hl. cbn in Hl. destruct heap_consts as (? & ? & _). lia. }
  rewrite last_addr_snoc, (shrink_loop_step fuel h l c fl st Hc Hst).
  destruct (if c_free c then cut_point (c_addr c) st else None) as [fs|] eqn:Ecut.
  2:{ exists (l ++ [c]), fl. split_and!; try done; try lia. intros l' c' [-> [= ->]]%app_inj_2 Hf; [|done]. by rewrite Hf in Ecut. }
  destruct (c_free c) eqn:Hf; [|done].
  pose proof (core_addr _ _ _ _ _ Hc (in_mid c l [])) as (_ & _ & _ & _ & Ha16 & _).
  destruct (cut_point_spec _ _ _ Hd Ha16 Ecut) as (Hfs & Hdf & Hor & Hd16).
  rewrite length_app in Hlen. cbn in Hlen. destruct (Z.eqb_spec fs (c_addr c)) as [->|Hne].
  - destruct (shrink_whole h l c fl st Hc Hf Hd Hdf) as ((fl1 & Hc1) & Hk & U1).
    pose proof (IH l _ fl1 (c_addr c) Hc1 ltac:(lia) Hdf ltac:(lia)) as IH'.
    destruct (shrink_loop fuel (last_addr 0 l) (c_addr c) _) as [h' st'].
    destruct IH' as (cs' & fl' & Hc' & Hst' & Hd' & Ha' & Hk' & U' & Hs'). exists cs', fl'. split_and!; try done; try lia.
    + by rewrite Ha', allocated_snoc.
    + intros d w Hin Hfd Hw. pose proof (data_below _ _ _ _ d w (co_layout _ _ _ _ Hc) Hin Hfd Hf Hw) as [Hin' _].
      rewrite (Hk' d w), (Hk d w); done.
  - destruct Hor as [|H80]; [done|].
    destruct (shrink_part h l c fl st fs Hc Hf Hd Hdf Hd16 H80 ltac:(lia)) as ((fl1 & Hc1) & Hk & U1).
    eexists _, fl1. split_and!; [exact Hc1|lia|lia|done| |done|done|].
    + by rewrite !allocated_snoc.
    + intros l' c' [-> [= <-]]%app_inj_2 _; [|done]. unfold cut_point in *. cbn. case_bool_decide as H1; [|done].
      case_bool_decide as H2; [|done]. injection Ecut as <-. lia.
Qed.

Lemma used_allocated cs : used_bytes cs = used_bytes (allocated cs).
Proof.
  induction cs as [|c cs IH]; [done|]. unfold allocated, is_alloc in *. rewrite used_bytes_cons, IH.
  destruct (c_free c) eqn:Hf.
  - rewrite (filter_cons_False (λ c, c_free c = false) c cs) by (by rewrite Hf). done.
  - rewrite (filter_cons_True (λ c, c_free c = false) c cs) by done. by rewrite used_bytes_cons, Hf.
Qed.

(** [heap_shrink] keeps every allocated block and its contents, stays at or
    above the initial size, reports what it freed, and leaves no page at the
    end that it could still return. *)
Lemma heap_shrink_spec h cs : heap_ok h cs →
  let '(h', freed) := heap_shrink h in
  ∃ cs', heap_ok h' cs' ∧ allocated cs' = allocated cs ∧ kept cs h h' ∧
    freed = heap_mapped_end h - heap_mapped_end h' ∧ 0 ≤ freed ∧ (4096 | freed) ∧ stuck cs' (heap_mapped_end h').
Proof.
  intros Hok. pose proof (heap_ok_nonempty _ _ Hok) as Hne. destruct Hok as [[fl Hc] Hu Hb Hp]. unfold heap_shrink. cbv zeta.
  destruct (Z.leb_spec (heap_mapped_end h) base_size).
  - exists cs. split_and!; try done; [by split; [exists fl|..]|lia|by exists 0|].
    intros l c -> Hf. unfold cut_point. cbv zeta. rewrite bool_decide_eq_false_2; [done|lia].
  - rewrite (last_block_spec _ _ _ _ Hc Hne).
    assert (Hc' : core (with_end (heap_mapped_end h) h) cs fl 0) by (by destruct h).
    pose proof (core_words _ _ _ _ Hc) as Hw.
    pose proof (shrink_loop_spec (S (size (hmem h))) cs h fl (heap_mapped_end h) Hc' Hb Hp ltac:(lia)) as Hs.
    destruct (shrink_loop _ _ _ _) as [h' st']. destruct Hs as (cs' & fl' & Hc1 & Hst & Hd & Ha & Hk & U & Hs).
    exists cs'. split_and!; try done; [split| |].
    + by exists fl'.
    + cbn. by rewrite U, Hu, (used_allocated cs), (used_allocated cs'), Ha.
    + cbn. lia.
    + done.
    + lia.
    + by apply Z.divide_sub_r.
Qed.

End HeapShrink.
