(* ===== verification/HeapProps.v ===== *)
(** * Heap: theorems

    The heap under any sequence of requests, and the contract of each
    operation. *)

From S2P Require Import Prelude Bytes Words Dll Heap HeapFacts HeapInv HeapOps HeapShrink.

Module HeapProps.
Import Heap HeapFacts HeapInv HeapOps HeapShrink.

(** ** Initial state *)

Definition first_cell : cell := Cell HEAP_START (HEAP_SIZE - 64) true.

Lemma heap_setup_ok m : heap_ok (heap_setup m) [first_cell].
Proof.
  unfold heap_setup. cbv zeta. set (h1 := block_set_free _ _ _).
  set (h2 := Heap (hmem h1) (bins h1) HEAP_START (heap_used h1) (HEAP_START + HEAP_SIZE)).
  assert (Hc : core h2 [first_cell] (λ _, []) (c_addr first_cell)).
  { split.
    - done.
    - by vm_compute.
    - cbn. split_and!; [done|by vm_compute|by exists 1048572|by vm_compute].
    - cbn. split; [|done]. unfold hdr_ok. cbn.
      by rewrite get_set_eq, !get_set_field, !get_set_eq, ?get_set_field, ?get_set_eq by done.
    - split; try done; try (intros; set_solver).
      + intros i c [-> _]%lookup_replicate. by exists 0.
      + intros. constructor.
    - intros i b. split; [set_solver|]. intros (c & ->%list_elem_of_singleton & <- & _ & _ & ?). done. }
  destruct (core_push h2 _ _ first_cell Hc) as (fl & Hc1 & _); [by left|done|].
  destruct (bin_push_rest (c_addr first_cell) h2) as (_ & U & M). change (c_addr first_cell) with HEAP_START in *. split.
  - by exists fl.
  - by rewrite U.
  - by rewrite M.
  - rewrite M. by exists ((HEAP_START + HEAP_SIZE) / 4096).
Qed.

(** ** Contents of allocated blocks *)

Lemma touches_kept2 lo cs hi lo' cs' hi' h h' c w : layout lo cs hi → layout lo' cs' hi' → touches cs cs' h h' →
  c ∈ cs → c ∈ cs' → c_addr c + 64 ≤ w < c_end c → hmem h' !! w = hmem h !! w.
Proof.
  intros Hl Hl' Ht Hc Hc' Hw. apply Ht. intros b Hb Hin.
  assert (∃ d, c_addr d = b ∧ (c = d ∨ disjoint_cells c d) ∧ 16 ≤ c_size d) as (d & <- & [->|Hd] & ?).
  { destruct Hb as [(d & Hd & <-)|(d & Hd & <-)]; exists d; (split; [done|]).
    - split; [|by apply (layout_in _ _ _ _ Hl) in Hd as (_ & _ & ? & _)].
      destruct (layout_apart _ _ _ c d Hl Hc Hd) as [|[_ ?]]; auto.
    - split; [|by apply (layout_in _ _ _ _ Hl') in Hd as (_ & _ & ? & _)].
      destruct (layout_apart _ _ _ c d Hl' Hc' Hd) as [|[_ ?]]; auto. }
  - lia.
  - unfold disjoint_cells, c_end in *. lia.
Qed.

Definition layout_of (h : heap) (cs : list cell) : Prop := layout HEAP_START cs (heap_mapped_end h).

Lemma heap_ok_layout h cs : heap_ok h cs → layout_of h cs.
Proof. intros [[fl Hc] _ _ _]. apply Hc. Qed.

(** Blocks that are allocated before and after keep their contents. *)
Definition contents_kept (cs cs' : list cell) (h h' : heap) : Prop :=
  ∀ c w, c ∈ cs → c ∈ cs' → c_free c = false → c_addr c + 64 ≤ w < c_end c → hmem h' !! w = hmem h !! w.

Lemma touches_contents h cs h' cs' : heap_ok h cs → heap_ok h' cs' → touches cs cs' h h' → contents_kept cs cs' h h'.
Proof. intros H1%heap_ok_layout H2%heap_ok_layout Ht c w ? ? _ ?. eapply touches_kept2; [exact H1|exact H2|done..]. Qed.

(** ** The pointers handed out *)

Definition ptr_of (c : cell) : Z := c_addr c + 64.

Definition pointers (cs : list cell) : list Z := ptr_of <$> allocated cs.

Lemma allocated_app l r : allocated (l ++ r) = allocated l ++ allocated r.
Proof. apply filter_app. Qed.

Lemma allocated_cons c l : allocated (c :: l) = if c_free c then allocated l else c :: allocated l.
Proof.
  unfold allocated. destruct (c_free c) eqn:E.
  - apply filter_cons_False. unfold is_alloc. congruence.
  - by apply filter_cons_True.
Qed.

Lemma elem_allocated c cs : c ∈ allocated cs ↔ c ∈ cs ∧ c_free c = false.
Proof. unfold allocated, is_alloc. rewrite list_elem_of_filter. tauto. Qed.

Lemma elem_pointers p cs : p ∈ pointers cs ↔ ∃ c, c ∈ cs ∧ c_free c = false ∧ p = c_addr c + 64.
Proof.
  unfold pointers. rewrite list_elem_of_fmap. split.
  - intros (c & -> & [? ?]%elem_allocated). by exists c.
  - intros (c & ? & ? & ->). exists c. split; [done|]. by apply elem_allocated.
Qed.

Lemma pointers_app l r : pointers (l ++ r) = pointers l ++ pointers r.
Proof. unfold pointers. by rewrite allocated_app, fmap_app. Qed.

Lemma pointers_cons c l : pointers (c :: l) = if c_free c then pointers l else c_addr c + 64 :: pointers l.
Proof. unfold pointers. rewrite allocated_cons. by destruct (c_free c). Qed.

Lemma pointers_cut c sz : pointers (cut_cell c sz) = [c_addr c + 64].
Proof. unfold cut_cell. by destruct (_ <=? _). Qed.

Lemma pointers_take l c r sz : c_free c = true →
  pointers (l ++ cut_cell c sz ++ r) ≡ₚ c_addr c + 64 :: pointers (l ++ c :: r).
Proof. intros Hf. rewrite !pointers_app, pointers_cut, pointers_cons, Hf. cbn. by rewrite Permutation_middle. Qed.

Lemma pointers_resize l c r sz : c_free c = false → pointers (l ++ cut_cell c sz ++ r) = pointers (l ++ c :: r).
Proof. intros Hf. by rewrite !pointers_app, pointers_cut, pointers_cons, Hf. Qed.

Lemma pointers_free l c r : c_free c = false → pointers (free_cell l c r) = pointers (l ++ r).
Proof.
  intros Hf. unfold free_cell. assert (H1 : pointers (snd (join_next c r)) = pointers r ∧ c_free (fst (join_next c r)) = false).
  { destruct r as [|d r]; [done|]. cbn [join_next]. rewrite (pointers_cons d). by destruct (c_free d) eqn:E; cbn [fst snd]; rewrite ?pointers_cons, ?E. }
  destruct (join_next c r) as [c1 r1]. destruct H1 as [H1 Hf1]. cbn [fst snd] in H1, Hf1.
  assert (H2 : pointers (fst (join_prev l c1)) = pointers l).
  { unfold join_prev. destruct (last l) as [p|] eqn:El; [|done]. apply last_Some in El as [l' ->].
    destruct (c_free p) eqn:Ep; [|done]. cbn [fst]. rewrite removelast_last, pointers_app, pointers_cons, Ep. by rewrite app_nil_r. }
  destruct (join_prev l c1) as [l2 c2]. cbn [fst snd] in H2. rewrite !pointers_app, pointers_cons. cbn [c_free]. by rewrite H1, H2.
Qed.

Lemma pointers_NoDup lo cs hi : layout lo cs hi → NoDup (pointers cs).
Proof.
  intros Hl. apply (NoDup_fmap_2_strong ptr_of).
  - intros c d [Hc _]%elem_allocated [Hd _]%elem_allocated He. unfold ptr_of in He.
    eapply layout_addr_inj; [exact Hl|done..|lia].
  - apply NoDup_filter. eapply NoDup_fmap_1, NoDup_addrs. exact Hl.
Qed.

(** The allocated piece of a cut block holds the request. *)
Lemma cut_size lo hi l c r sz d : layout lo (l ++ cut_cell c sz ++ r) hi → sz ≤ c_size c →
  d ∈ l ++ cut_cell c sz ++ r → c_addr d = c_addr c → sz ≤ c_size d.
Proof.
  intros Hl Hsz Hd Ha.
  assert (∃ e, e ∈ cut_cell c sz ∧ c_addr e = c_addr c ∧ sz ≤ c_size e) as (e & He & Ee & Hle).
  { unfold cut_cell. destruct (_ <=? _); eexists; (split; [by left|]); done. }
  assert (d = e) as ->; [|done]. eapply layout_addr_inj; [exact Hl|done| |congruence].
  rewrite !elem_of_app. auto.
Qed.

(** ** The heap as a transition system *)

(** Requests as the callers of heap.c make them, one locked section at a time:
    allocate, free or shrink a pointer that was handed out, return tail pages,
    and write any word of a block in use. *)
Inductive heap_step : heap * list Z → heap * list Z → Prop :=
  | hs_alloc n avail h ps h' p :
      0 < n ≤ HEAP_MAX_SIZE → heap_alloc (ALIGN_UP n 16) avail h = (h', p) →
      heap_step (h, ps) (h', if p =? 0 then ps else p :: ps)
  | hs_free h ps1 p ps2 h' :
      heap_free p h = Some h' → heap_step (h, ps1 ++ p :: ps2) (h', ps1 ++ ps2)
  | hs_resize h ps p n :
      p ∈ ps → 0 < n → ALIGN_UP n 16 ≤ get (hmem h) (p - 64) f_size → n ≤ HEAP_MAX_SIZE →
      heap_step (h, ps) (shrink_block (p - 64) (ALIGN_UP n 16) h, ps)
  | hs_shrink h ps : heap_step (h, ps) (fst (heap_shrink h), ps)
  | hs_write h ps p w v :
      p ∈ ps → p ≤ w < p + get (hmem h) (p - 64) f_size →
      heap_step (h, ps) (with_mem (wr (hmem h) w v) h, ps).

(** [ps] are exactly the blocks in use. *)
Definition heap_inv (s : heap * list Z) : Prop := ∃ cs, heap_ok (fst s) cs ∧ snd s ≡ₚ pointers cs.

Lemma align_request n : 0 < n ≤ HEAP_MAX_SIZE → 16 ≤ ALIGN_UP n 16 ≤ HEAP_MAX_SIZE ∧ (16 | ALIGN_UP n 16) ∧ n ≤ ALIGN_UP n 16.
Proof.
  destruct heap_consts as (_ & _ & _ & Hmax & _). rewrite Hmax. intros Hn. rewrite ALIGN_UP_16 by lia.
  split_and!; [divlia|divlia|by eexists|divlia].
Qed.

Lemma write_ok h cs c w v : heap_ok h cs → c ∈ cs → c_addr c + 64 ≤ w < c_end c → heap_ok (with_mem (wr (hmem h) w v) h) cs.
Proof.
  intros [[fl Hc] Hu Hb Hp] Hin Hw. split; [|done..]. exists fl. apply core_mem; [done|].
  intros d x Hd Hx. unfold wr. apply lookup_insert_ne.
  destruct (layout_apart _ _ _ c d (co_layout _ _ _ _ Hc) Hin Hd) as [->|[_ Hdis]]; [lia|].
  pose proof (core_addr _ _ _ _ _ Hc Hd) as (_ & _ & ? & _). unfold disjoint_cells, c_end in *. lia.
Qed.

Lemma pointer_cell h cs ps p : heap_ok h cs → ps ≡ₚ pointers cs → p ∈ ps →
  ∃ l c r, cs = l ++ c :: r ∧ c_free c = false ∧ p = c_addr c + 64 ∧ get (hmem h) (c_addr c) f_size = c_size c.
Proof.
  intros [[fl Hc] _ _ _] Hps Hp. rewrite Hps in Hp. apply elem_pointers in Hp as (c & Hin & Hf & ->).
  destruct (headers_in _ _ _ _ (co_headers _ _ _ _ Hc) Hin) as [E _].
  apply list_elem_of_split in Hin as (l & r & ->). by exists l, c, r.
Qed.

Lemma heap_free_alloc h l c r : heap_ok h (l ++ c :: r) → c_free c = false →
  heap_free (c_addr c + 64) h = Some (release (c_addr c) h).
Proof.
  intros [[fl Hc] _ _ _] Hf. pose proof (core_addr _ _ _ _ _ Hc (in_mid c l r)) as (? & ? & ? & _ & _ & ?).
  destruct heap_consts as (? & ? & ? & Hmax & _). unfold c_end in *. unfold heap_free, heap_owns, sizeof_block.
  destruct (Z.leb_spec HEAP_START (c_addr c + 64)); [|lia].
  destruct (Z.ltb_spec (c_addr c + 64) (heap_mapped_end h)); [|lia]. cbn [andb negb].
  replace (c_addr c + 64 - 64) with (c_addr c) by lia. rewrite u64_small by lia. cbv zeta.
  by rewrite (headers_magic _ _ _ _ (co_headers _ _ _ _ Hc) (in_mid c l r)),
    (headers_free _ _ _ _ (co_headers _ _ _ _ Hc) (in_mid c l r)), Hf.
Qed.

Lemma heap_step_inv s s' : heap_inv s → heap_step s s' → heap_inv s'.
Proof.
  intros (cs & Hok & Hps) Hs. destruct Hs as [n avail h ps h' p Hn Ha|h ps1 p ps2 h' Hf|h ps p n Hp Hn Hle Hmax|h ps|h ps p w v Hp Hw]; cbn in Hok, Hps.
  - destruct (align_request n Hn) as (H1 & H2 & _). pose proof (heap_alloc_spec (ALIGN_UP n 16) avail h cs Hok H1 H2) as Hs.
    cbv zeta in Hs. rewrite Ha in Hs. destruct Hs as [(l & c & r & -> & [Hfr _] & -> & Hok' & _)|[_ Hs]].
    + exists (l ++ cut_cell c (ALIGN_UP n 16) ++ r). split; [done|]. cbn [snd].
      destruct Hok as [[fl Hc] _ _ _]. pose proof (core_addr _ _ _ _ _ Hc (in_mid c l r)) as (? & _). unfold HEAP_START in *.
      destruct (Z.eqb_spec (c_addr c + 64) 0); [lia|]. by rewrite pointers_take, Hps.
    + destruct (decide _); [destruct Hs as [-> ->]; by exists cs|]. set (big := Cell _ _ true) in *.
      destruct (decide _); [destruct Hs as (-> & Hok' & _)|destruct Hs as (-> & Hok' & _)].
      * exists (cs ++ cut_cell big (ALIGN_UP n 16)). split; [done|]. cbn [snd].
        destruct Hok as [[fl Hc] _ Hb _]. change (c_addr big) with (heap_mapped_end h) in *. destruct heap_consts as (? & ? & _).
        destruct (Z.eqb_spec (heap_mapped_end h + 64) 0); [lia|].
        rewrite <- (app_nil_r (cut_cell big _)), pointers_take by done. rewrite pointers_app, Hps. by rewrite app_nil_r.
      * exists (cs ++ [big]). split; [done|]. rewrite pointers_app. cbn. by rewrite app_nil_r.
  - destruct (pointer_cell h cs (ps1 ++ p :: ps2) p Hok Hps) as (l & c & r & -> & Hfr & -> & _); [set_solver|].
    rewrite (heap_free_alloc h l c r Hok Hfr) in Hf. injection Hf as <-.
    destruct (release_spec h l c r Hok Hfr) as (Hok' & _). exists (free_cell l c r). split; [done|]. cbn [snd].
    rewrite pointers_free by done. rewrite pointers_app, pointers_cons, Hfr in Hps.
    rewrite pointers_app. rewrite <- !Permutation_middle in Hps. by apply (Permutation_cons_inv Hps).
  - destruct (pointer_cell h cs ps p Hok Hps Hp) as (l & c & r & -> & Hfr & -> & Esz).
    replace (c_addr c + 64 - 64) with (c_addr c) in * by lia. rewrite Esz in Hle.
    destruct (align_request n ltac:(lia)) as (H1 & H2 & _).
    destruct (shrink_block_spec h l c r (ALIGN_UP n 16) Hok Hfr ltac:(lia) H2) as (Hok' & _).
    eexists. split; [exact Hok'|]. cbn [snd]. by rewrite pointers_resize.
  - pose proof (heap_shrink_spec h cs Hok) as Hs. destruct (heap_shrink h) as [h' freed].
    destruct Hs as (cs' & Hok' & Ha & _). exists cs'. split; [done|]. cbn [snd]. unfold pointers. by rewrite Ha.
  - destruct (pointer_cell h cs ps p Hok Hps Hp) as (l & c & r & -> & Hfr & -> & Esz).
    replace (c_addr c + 64 - 64) with (c_addr c) in * by lia. rewrite Esz in Hw.
    eexists. split; [eapply write_ok; [exact Hok|apply in_mid|unfold c_end; lia]|done].
Qed.

Lemma heap_reachable_inv m s : rtc heap_step (heap_setup m, []) s → heap_inv s.
Proof.
  intros Hs. remember (heap_setup m, []) as x eqn:Ex.
  assert (heap_inv x) as Hx by (subst x; exists [first_cell]; split; [apply heap_setup_ok|done]). clear Ex.
  induction Hs as [|x1 x2 x3 H _ IH]; [done|]. by apply IH, (heap_step_inv x1).
Qed.

(** ** Properties *)

(** C19: blocks never overlap.  After any sequence of allocations, frees,
    in-place shrinks, returns of tail pages and writes into blocks in use, the
    pointers handed out are distinct and 16-byte aligned, each block with its
    header lies in the mapped window and apart from every other, and
    [heap_used] is exactly the bytes they hold with their headers. *)
Theorem heap_blocks_disjoint m h ps :
  rtc heap_step (heap_setup m, []) (h, ps) →
  let len p := get (hmem h) (p - 64) f_size in
  NoDup ps ∧
  (∀ p, p ∈ ps → (16 | p) ∧ HEAP_START ≤ p - 64 ∧ 16 ≤ len p ∧ p + len p ≤ heap_mapped_end h) ∧
  (∀ p q, p ∈ ps → q ∈ ps → p ≠ q → p + len p ≤ q - 64 ∨ q + len q ≤ p - 64) ∧
  heap_used h = zsum (λ p, len p + 64) ps.
Proof.
  intros (cs & Hok & Hps)%heap_reachable_inv len. cbn in Hok, Hps. pose proof Hok as [[fl Hc] Hu _ _].
  assert (Hcell : ∀ p, p ∈ ps → ∃ c, c ∈ cs ∧ p = c_addr c + 64 ∧ len p = c_size c).
  { intros p Hp. destruct (pointer_cell h cs ps p Hok Hps Hp) as (l & c & r & -> & _ & -> & E).
    exists c. split_and!; [apply in_mid|done|]. unfold len. by replace (c_addr c + 64 - 64) with (c_addr c) by lia. }
  split_and!.
  - rewrite Hps. eapply pointers_NoDup, Hc.
  - intros p (c & Hin & -> & ->)%Hcell. apply (core_addr _ _ _ _ _ Hc) in Hin as (? & ? & ? & ? & ? & ?). unfold c_end in *.
    split_and!; try lia. apply Z.divide_add_r; [done|by exists 4].
  - intros p q (c & Hin & -> & ->)%Hcell (d & Hd & -> & ->)%Hcell Hne.
    destruct (layout_apart _ _ _ c d (co_layout _ _ _ _ Hc) Hin Hd) as [->|[_ Hdis]]; [done|].
    unfold disjoint_cells, c_end in Hdis. lia.
  - rewrite Hu, used_allocated. rewrite (zsum_perm _ _ _ Hps). unfold pointers.
    assert (Hall : ∀ c, c ∈ allocated cs → c ∈ cs ∧ c_free c = false) by (by intros c ?%elem_allocated).
    induction (allocated cs) as [|c a IH]; [done|]. destruct (Hall c ltac:(left)) as [Hin Hf].
    rewrite used_bytes_cons, Hf, IH by (intros; apply Hall; by right). cbn [fmap list_fmap]. rewrite zsum_cons. f_equal.
    unfold len, ptr_of. replace (c_addr c + 64 - 64) with (c_addr c) by lia.
    by destruct (headers_in _ _ _ _ (co_headers _ _ _ _ Hc) Hin) as [-> _].
Qed.

(** C20: what an allocation promises.  NULL is returned exactly when no free
    block is large enough and the pages that can still be mapped do not make
    one; otherwise the pointer is new, aligned, and its block holds the request.
    In both cases every block in use stays where it is with its contents. *)
Theorem heap_alloc_correct n avail h cs :
  heap_ok h cs → 0 < n ≤ HEAP_MAX_SIZE →
  let sz := ALIGN_UP n 16 in
  let '(h', p) := heap_alloc sz avail h in
  (p = 0 ↔ (∀ c, c ∈ cs → ¬ fits sz c) ∧ grown_pages sz avail h * 4096 - 64 < sz) ∧
  ∃ cs', heap_ok h' cs' ∧ contents_kept cs cs' h h' ∧
    (∀ c, c ∈ cs → c_free c = false → c ∈ cs') ∧
    pointers cs' ≡ₚ (if p =? 0 then pointers cs else p :: pointers cs) ∧
    (p ≠ 0 → (16 | p) ∧ n ≤ get (hmem h') (p - 64) f_size).
Proof.
  intros Hok Hn sz. destruct (align_request n Hn) as (H1 & H2 & H3). fold sz in H1, H2, H3.
  pose proof (heap_alloc_spec sz avail h cs Hok H1 H2) as Hs. cbv zeta in Hs.
  destruct (heap_alloc sz avail h) as [h' p]. set (big := Cell (heap_mapped_end h) _ true) in Hs.
  assert (Hserved : ∀ l c r h', fits sz c → heap_ok h' (l ++ cut_cell c sz ++ r) → 
    c_addr c + 64 ≠ 0 ∧ (16 | c_addr c + 64) ∧ n ≤ get (hmem h') (c_addr c + 64 - 64) f_size).
  { intros l c r h2 [Hf Hle] Hok2. pose proof Hok2 as [[fl2 Hc2] _ _ _].
    assert (c_addr c + 64 ∈ pointers (l ++ cut_cell c sz ++ r)) as (d & Hd & Hfd & Ed)%elem_pointers
      by (rewrite !pointers_app, pointers_cut; set_solver).
    pose proof (core_addr _ _ _ _ _ Hc2 Hd) as (? & _ & _ & _ & ? & _). unfold HEAP_START in *.
    split_and!; [lia|rewrite Ed; apply Z.divide_add_r; [done|by exists 4]|].
    replace (c_addr c + 64 - 64) with (c_addr d) by lia.
    destruct (headers_in _ _ _ _ (co_headers _ _ _ _ Hc2) Hd) as [-> _].
    pose proof (cut_size _ _ l c r sz d (co_layout _ _ _ _ Hc2) Hle Hd ltac:(lia)). lia. }
  destruct Hs as [(l & c & r & -> & Hfit & -> & Hok' & Ht)|[Hnone Hs]].
  - destruct (Hserved l c r h' Hfit Hok') as (Hp0 & Hp1 & Hp2). split.
    { split; [done|]. intros [Hno _]. destruct (Hno c); [apply in_mid|done]. }
    eexists. split_and!; [exact Hok'|by apply (touches_contents h _ h' _)| | |done].
    + intros d Hd Hfd. rewrite !elem_of_app, elem_of_cons in *. destruct Hfit. naive_solver congruence.
    + destruct (Z.eqb_spec (c_addr c + 64) 0); [done|]. by apply pointers_take, Hfit.
  - destruct (decide _) as [En|En].
    { destruct Hs as [-> ->]. rewrite En. split; [split; [split; [done|lia]|done]|].
      exists cs. by split_and!. }
    destruct (decide _) as [Hle|Hle].
    + destruct Hs as (-> & Hok' & Ht). destruct (Hserved cs big [] h') as (Hp0 & Hp1 & Hp2); [done|by rewrite app_nil_r|].
      split. { split; [done|]. intros [_ Hlt]. cbn in Hle. lia. }
      eexists. split_and!; [exact Hok'|by apply (touches_contents h _ h' _)| | |done].
      * intros d Hd Hfd. apply elem_of_app. by left.
      * destruct (Z.eqb_spec (c_addr big + 64) 0); [done|]. rewrite <- (app_nil_r (cut_cell big sz)), pointers_take by done.
        rewrite pointers_app. cbn. by rewrite app_nil_r.
    + destruct Hs as (-> & Hok' & Ht). split. { split; [|done]. intros _. split; [done|]. cbn in Hle. lia. }
      eexists. split_and!; [exact Hok'|by apply (touches_contents h _ h' _)| | |done].
      * intros d Hd Hfd. apply elem_of_app. by left.
      * cbn. rewrite pointers_app. cbn. by rewrite app_nil_r.
Qed.

(** C21: freeing to the block heap.  [heap_free] is [kfree] from [heap_owns] on,
    after the probe for a slab page has failed (the probe itself is in C26).
    Given a block in use it always succeeds, merges it with a free successor and
    a free predecessor, and keeps every other block in use with its contents.
    Given a block of the list that is already free it panics; a header that was
    merged into its predecessor is no longer a block of the list.  A pointer
    outside the heap is ignored. *)
Theorem heap_free_correct h l c r :
  heap_ok h (l ++ c :: r) →
  let cs' := free_cell l c r in
  (if c_free c then heap_free (c_addr c + 64) h = None
   else ∃ h', heap_free (c_addr c + 64) h = Some h' ∧ heap_ok h' cs' ∧
     contents_kept (l ++ c :: r) cs' h h' ∧ pointers cs' = pointers (l ++ r) ∧
     heap_used h' = heap_used h - (c_size c + 64)) ∧
  (∀ p, p < HEAP_START ∨ heap_mapped_end h ≤ p → heap_free p h = Some h).
Proof.
  intros Hok cs'. split.
  - destruct (c_free c) eqn:Hf.
    + pose proof Hok as [[fl Hc] _ _ _]. pose proof (core_addr _ _ _ _ _ Hc (in_mid c l r)) as (? & ? & ? & _ & _ & ?).
      destruct heap_consts as (? & ? & ? & Hmax & _). unfold c_end in *. unfold heap_free, heap_owns, sizeof_block.
      destruct (Z.leb_spec HEAP_START (c_addr c + 64)); [|lia].
      destruct (Z.ltb_spec (c_addr c + 64) (heap_mapped_end h)); [|lia]. cbn [andb negb].
      replace (c_addr c + 64 - 64) with (c_addr c) by lia. rewrite u64_small by lia. cbv zeta.
      by rewrite (headers_magic _ _ _ _ (co_headers _ _ _ _ Hc) (in_mid c l r)),
        (headers_free _ _ _ _ (co_headers _ _ _ _ Hc) (in_mid c l r)), Hf.
    + rewrite (heap_free_alloc h l c r Hok Hf). destruct (release_spec h l c r Hok Hf) as (Hok' & Ht & _).
      eexists. split_and!; [done|exact Hok'| |by apply pointers_free|].
      * apply (touches_contents h _ _ _ Hok Hok'). eapply touches_mono; [| |exact Ht]; auto.
      * rewrite (ho_used _ _ Hok), (ho_used _ _ Hok'). by apply used_free_cell.
  - intros p Hp. unfold heap_free, heap_owns.
    destruct (Z.leb_spec HEAP_START p), (Z.ltb_spec p (heap_mapped_end h)); cbn; try done. lia.
Qed.

(** returning memory.  [heap_shrink] never moves or changes a block in
    use, never goes below the initial 16 MiB, returns whole pages and the exact
    number of bytes, and afterwards no further tail page can be returned. *)
Theorem heap_shrink_correct h cs :
  heap_ok h cs →
  let '(h', freed) := heap_shrink h in
  ∃ cs', heap_ok h' cs' ∧ allocated cs' = allocated cs ∧ kept cs h h' ∧
    HEAP_START + HEAP_SIZE ≤ heap_mapped_end h' ∧ (4096 | freed) ∧
    0 ≤ freed ∧ freed = heap_mapped_end h - heap_mapped_end h' ∧ stuck cs' (heap_mapped_end h').
Proof.
  intros Hok. pose proof (heap_shrink_spec h cs Hok) as Hs. destruct (heap_shrink h) as [h' freed].
  destruct Hs as (cs' & Hok' & Ha & Hk & Hf & H0 & Hd & Hs). exists cs'. pose proof (ho_base _ _ Hok'). by split_and!.
Qed.

(** the segregated search is a search of the whole heap.  Starting at the
    bin of the request and walking the bins upwards finds a block exactly when
    some free block of the heap is large enough, and the block found is one. *)
Theorem find_block_complete h cs sz :
  heap_ok h cs →
  (find_block sz h = 0 ↔ ∀ c, c ∈ cs → ¬ fits sz c) ∧
  (find_block sz h ≠ 0 → ∃ c, c ∈ cs ∧ c_addr c = find_block sz h ∧ fits sz c).
Proof.
  intros [[fl Hc] _ _ _]. destruct (find_block_spec h cs fl sz Hc) as [[-> Hno]|(Hf & c & Hin & Ha & Hfr & Hle)].
  - split; [|done]. split; [|done]. intros _ c Hin [Hfr Hle]. specialize (Hno c Hin Hfr). lia.
  - split; [|by intros _; exists c]. split; [done|]. intros Hno. by destruct (Hno c Hin).
Qed.

(** ** Witnesses *)

Definition h_a : heap := fst (heap_alloc (ALIGN_UP 100 16) 0 (heap_setup ∅)).
Definition p_a : Z := snd (heap_alloc (ALIGN_UP 100 16) 0 (heap_setup ∅)).
Definition h_b : heap := fst (heap_alloc (ALIGN_UP 5000 16) 0 h_a).
Definition p_b : Z := snd (heap_alloc (ALIGN_UP 5000 16) 0 h_a).

Lemma h_b_reachable : rtc heap_step (heap_setup ∅, []) (h_b, [p_b; p_a]).
Proof.
  eapply rtc_l; [apply (hs_alloc 100 0 _ [] h_a p_a); [split; done|vm_compute; reflexivity]|].
  assert ((if p_a =? 0 then [] else [p_a]) = [p_a]) as -> by (vm_compute; reflexivity).
  eapply rtc_l; [apply (hs_alloc 5000 0 _ [p_a] h_b p_b); [split; done|vm_compute; reflexivity]|].
  assert ((if p_b =? 0 then [p_a] else [p_b; p_a]) = [p_b; p_a]) as -> by (vm_compute; reflexivity). apply rtc_refl.
Qed.

Lemma heap_blocks_disjoint_witness : heap_used h_b = 5248.
Proof.
  destruct (heap_blocks_disjoint ∅ h_b [p_b; p_a] h_b_reachable) as (_ & _ & _ & ->). vm_compute. reflexivity.
Defined.

Lemma heap_alloc_correct_witness : snd (heap_alloc (ALIGN_UP 100 16) 0 (heap_setup ∅)) ≠ 0.
Proof.
  pose proof (heap_alloc_correct 100 0 (heap_setup ∅) [first_cell] (heap_setup_ok ∅) ltac:(split; done)) as H.
  cbv zeta in H. destruct (heap_alloc (ALIGN_UP 100 16) 0 (heap_setup ∅)) as [h' p] eqn:E.
  destruct H as [H _]. intros Hp. apply H in Hp as [Hno _]. apply (Hno first_cell); [left|]. split; [reflexivity|].
  vm_compute. discriminate.
Defined.

Lemma h_a_ok : heap_ok h_a ([] ++ Cell HEAP_START 112 false :: [Cell (HEAP_START + 176) 16776976 true]).
Proof.
  destruct (take_block_spec (heap_setup ∅) [] first_cell [] 112) as (h' & E & Hok & _);
    [apply heap_setup_ok|reflexivity|vm_compute; split; discriminate|exists 7; reflexivity|].
  assert (h_a = h') as ->; [|exact Hok].
  assert (h_a = fst (take_block (c_addr first_cell) 112 (heap_setup ∅))) as -> by (vm_compute; reflexivity).
  rewrite E. reflexivity.
Qed.

Lemma heap_free_correct_witness : ∃ h', heap_free (HEAP_START + 64) h_a = Some h' ∧ heap_used h' = 0.
Proof.
  destruct (heap_free_correct h_a [] (Cell HEAP_START 112 false) [Cell (HEAP_START + 176) 16776976 true] h_a_ok) as [H _].
  destruct H as (h' & E & _ & _ & _ & Hu). exists h'. split; [exact E|]. rewrite Hu. vm_compute. reflexivity.
Defined.

(** A 20 MiB request grows the heap; once it is freed the pages can go back. *)
Definition h_big : heap := fst (heap_alloc (ALIGN_UP 20971520 16) 10000 (heap_setup ∅)).
Definition p_big : Z := snd (heap_alloc (ALIGN_UP 20971520 16) 10000 (heap_setup ∅)).
Definition h_freed : heap := default h_big (heap_free p_big h_big).

Lemma h_freed_reachable : rtc heap_step (heap_setup ∅, []) (h_freed, []).
Proof.
  eapply rtc_l; [apply (hs_alloc 20971520 10000 _ [] h_big p_big); [split; done|vm_compute; reflexivity]|].
  assert ((if p_big =? 0 then [] else [p_big]) = [p_big]) as -> by (vm_compute; reflexivity).
  eapply rtc_l; [apply (hs_free h_big [] p_big [] h_freed); vm_compute; reflexivity|]. apply rtc_refl.
Qed.

Lemma heap_shrink_correct_witness :
  HEAP_START + HEAP_SIZE ≤ heap_mapped_end (fst (heap_shrink h_freed)) ∧ snd (heap_shrink h_freed) = 20975616.
Proof.
  assert (snd (heap_shrink h_freed) = 20975616) as E by (vm_compute; reflexivity). split; [|exact E].
  destruct (heap_reachable_inv ∅ _ h_freed_reachable) as (cs & Hok & _).
  pose proof (heap_shrink_correct h_freed cs Hok) as H. destruct (heap_shrink h_freed) as [h' freed].
  destruct H as (_ & _ & _ & _ & H & _). exact H.
Defined.

Lemma find_block_complete_witness : find_block 4096 (heap_setup ∅) ≠ 0.
Proof.
  destruct (find_block_complete (heap_setup ∅) [first_cell] 4096 (heap_setup_ok ∅)) as [H _].
  intros E. apply (proj1 H E first_cell); [left|]. split; [reflexivity|]. vm_compute. discriminate.
Defined.

(** ** A double free that is not detected *)

(** After [a] and its successor [b] are freed in that order, [b] is merged into
    [a] and its stale header still says "in use": freeing [b] again passes the
    magic and the double-free checks, and [heap_used] wraps below zero. *)
Definition double_free_state : option heap :=
  h ← heap_free p_a h_b; h ← heap_free p_b h; heap_free p_b h.

Theorem double_free_undetected :
  ∃ h, double_free_state = Some h ∧ heap_used h = u64 (- (16776976 + 64)).
Proof. eexists. split; vm_compute; reflexivity. Qed.

End HeapProps.
