(* ===== verification/HeapLive.v ===== *)
(** * Heap: the operations in terms of the blocks in use *)

From S2P Require Import Prelude Bytes Words Dll Heap HeapFacts HeapInv HeapOps HeapShrink HeapProps.

Module HeapLive.
Import Heap HeapFacts HeapInv HeapOps HeapShrink HeapProps.

(** The [n] data bytes at [p] belong to a block in use. *)
Definition hlive (cs : list cell) (p n : Z) : Prop :=
  ∃ c, c ∈ cs ∧ c_free c = false ∧ p = c_addr c + 64 ∧ n = c_size c.

(** Nothing outside the heap's virtual window is written. *)
Definition windowed (m m' : mem) : Prop := ∀ w, ¬ HEAP_START ≤ w < HEAP_START + HEAP_MAX_SIZE → m' !! w = m !! w.

Lemma hlive_range h cs p n : heap_ok h cs → hlive cs p n →
  HEAP_START + 64 ≤ p ∧ p + n ≤ heap_mapped_end h ∧ heap_mapped_end h ≤ HEAP_START + HEAP_MAX_SIZE ∧ 16 ≤ n ∧ (16 | p).
Proof.
  intros [[fl Hc] _ _ _] (c & Hin & _ & -> & ->). destruct (core_addr _ _ _ _ _ Hc Hin) as (? & ? & ? & ? & ? & ?).
  pose proof (co_hi _ _ _ _ Hc). unfold c_end in *. split_and!; try lia. apply Z.divide_add_r; [done|by exists 4].
Qed.

Lemma hlive_disjoint h cs p n q k : heap_ok h cs → hlive cs p n → hlive cs q k → p ≠ q → p + n ≤ q ∨ q + k ≤ p.
Proof.
  intros Hok (c & Hc & _ & -> & ->) (d & Hd & _ & -> & ->) Hne.
  destruct (layout_apart _ _ _ c d (heap_ok_layout _ _ Hok) Hc Hd) as [->|[_ Hdis]]; [done|].
  unfold disjoint_cells, c_end in Hdis. lia.
Qed.

Lemma hlive_fun h cs p n k : heap_ok h cs → hlive cs p n → hlive cs p k → n = k.
Proof.
  intros Hok (c & Hc & _ & -> & ->) (d & Hd & _ & E & ->). f_equal.
  eapply layout_addr_inj; [exact (heap_ok_layout _ _ Hok)|done..|lia].
Qed.

Lemma hlive_app l r p n : hlive (l ++ r) p n ↔ hlive l p n ∨ hlive r p n.
Proof. unfold hlive. set_solver. Qed.

Lemma hlive_cons c r p n : hlive (c :: r) p n ↔ (c_free c = false ∧ p = c_addr c + 64 ∧ n = c_size c) ∨ hlive r p n.
Proof. unfold hlive. set_solver. Qed.

Lemma hlive_nil p n : hlive [] p n ↔ False.
Proof. unfold hlive. set_solver. Qed.

(** Size of the allocated part of a block cut at [sz]. *)
Definition cut_len (c : cell) (sz : Z) : Z := if 80 <=? c_size c - sz then sz else c_size c.

Lemma hlive_cut c sz p n : hlive (cut_cell c sz) p n ↔ p = c_addr c + 64 ∧ n = cut_len c sz.
Proof.
  unfold cut_cell, cut_len. destruct (80 <=? _); rewrite !hlive_cons, ?hlive_nil; cbn; [|tauto].
  split; [|tauto]. intros [|[[? _]|[]]]; [tauto|done].
Qed.

Lemma hlive_free_cell l c r p n : c_free c = false → hlive (free_cell l c r) p n ↔ hlive (l ++ r) p n.
Proof.
  intros Hf. unfold free_cell.
  assert (H1 : hlive (snd (join_next c r)) p n ↔ hlive r p n).
  { destruct r as [|d r]; [done|]. cbn [join_next]. destruct (c_free d) eqn:E; cbn [snd]; rewrite ?hlive_cons, ?E; [|tauto].
    split; [tauto|]. intros [[? _]|]; done. }
  destruct (join_next c r) as [c1 r1]. cbn [fst snd] in H1.
  assert (H2 : hlive (fst (join_prev l c1)) p n ↔ hlive l p n).
  { unfold join_prev. destruct (last l) as [d|] eqn:El; [|done]. apply last_Some in El as [l' ->].
    destruct (c_free d) eqn:E; [|done]. cbn [fst]. rewrite removelast_last, hlive_app, hlive_cons, hlive_nil, E.
    split; [tauto|]. intros [|[[? _]|[]]]; done. }
  destruct (join_prev l c1) as [l2 c2]. cbn [fst snd] in H2. rewrite !hlive_app, hlive_cons, H1, H2. cbn.
  split; [|tauto]. intros [|[[? _]|]]; [tauto|done|tauto].
Qed.

(** ** Frames *)

Lemma touches_windowed h h' cs cs' : heap_ok h cs → heap_ok h' cs' → touches cs cs' h h' → windowed (hmem h) (hmem h').
Proof.
  intros [[fl Hc] _ _ _] [[fl' Hc'] _ _ _] Ht w Hw. apply Ht.
  assert (∀ h cs fl c, core h cs fl 0 → c ∈ cs → ¬ c_addr c ≤ w < c_addr c + 40) as Hx.
  { intros h0 cs0 fl0 c H0 Hin ?. destruct (core_addr _ _ _ _ _ H0 Hin) as (? & ? & ? & _). unfold c_end in *. lia. }
  intros b [(c & Hin & <-)|(c & Hin & <-)]; [exact (Hx h cs fl c Hc Hin)|exact (Hx h' cs' fl' c Hc' Hin)].
Qed.

(** Words outside the headers do not matter. *)
Lemma heap_ok_mem h cs m : heap_ok h cs → (∀ c w, c ∈ cs → c_addr c ≤ w < c_addr c + 40 → m !! w = hmem h !! w) →
  heap_ok (with_mem m h) cs.
Proof. intros [[fl Hc] ? ? ?] Hm. split; [|done..]. exists fl. by apply core_mem. Qed.

Lemma heap_ok_outside h cs m : heap_ok h cs → (∀ w, HEAP_START ≤ w < HEAP_START + HEAP_MAX_SIZE → m !! w = hmem h !! w) →
  heap_ok (with_mem m h) cs.
Proof.
  intros Hok Hm. apply heap_ok_mem; [done|]. intros c w Hin Hw. apply Hm. destruct Hok as [[fl Hc] _ _ _].
  destruct (core_addr _ _ _ _ _ Hc Hin) as (? & ? & ? & _). unfold c_end in *. lia.
Qed.

Lemma heap_ok_data h cs m p n : heap_ok h cs → hlive cs p n → (∀ w, ¬ p ≤ w < p + n → m !! w = hmem h !! w) →
  heap_ok (with_mem m h) cs.
Proof.
  intros Hok (c & Hin & _ & -> & ->) Hm. apply heap_ok_mem; [done|]. intros d w Hd Hw. apply Hm.
  destruct (layout_in _ _ _ _ (heap_ok_layout _ _ Hok) Hd) as (_ & _ & ? & _).
  destruct (layout_apart _ _ _ c d (heap_ok_layout _ _ Hok) Hin Hd) as [->|[_ Hdis]]; [lia|].
  unfold disjoint_cells, c_end in Hdis. lia.
Qed.

(** ** Operations *)

(** [p] with [n] bytes is the new block; 0 when there is none. *)
Definition grown (cs cs' : list cell) (p n : Z) : Prop :=
  (∀ j, ¬ hlive cs p j) ∧ (∀ q j, hlive cs' q j ↔ hlive cs q j ∨ (p ≠ 0 ∧ q = p ∧ j = n)).

Definition data_kept (A : Z → Z → Prop) (m m' : mem) : Prop := ∀ q n w, A q n → q ≤ w < q + n → m' !! w = m !! w.

Lemma alloc_kept h h' cs cs' : heap_ok h cs → heap_ok h' cs' → touches cs cs' h h' →
  (∀ c, c ∈ cs → c_free c = false → c ∈ cs') → data_kept (hlive cs) (hmem h) (hmem h').
Proof.
  intros Hok Hok' Ht Hs q n w (c & Hin & Hf & -> & ->) Hw.
  apply (touches_contents h cs h' cs' Hok Hok' Ht c w Hin (Hs c Hin Hf) Hf). unfold c_end. lia.
Qed.

Lemma new_block h cs l c r : heap_ok h cs → cs = l ++ c :: r → c_free c = true → ∀ j, ¬ hlive cs (c_addr c + 64) j.
Proof.
  intros Hok E Hf j (d & Hd & Hfd & Ea & _). assert (d = c) as ->; [|congruence].
  eapply layout_addr_inj; [exact (heap_ok_layout _ _ Hok)|done|rewrite E; apply in_mid|lia].
Qed.

Lemma heap_alloc_live sz avail h cs : heap_ok h cs → 16 ≤ sz ≤ HEAP_MAX_SIZE → (16 | sz) →
  let '(h', p) := heap_alloc sz avail h in
  ∃ cs' n, heap_ok h' cs' ∧ windowed (hmem h) (hmem h') ∧ data_kept (hlive cs) (hmem h) (hmem h') ∧
    grown cs cs' p n ∧ (p ≠ 0 → sz ≤ n ∧ (16 | p)).
Proof.
  intros Hok Hsz H16. pose proof (heap_alloc_spec sz avail h cs Hok Hsz H16) as Hs. cbv zeta in Hs.
  destruct (heap_alloc sz avail h) as [h' p]. set (big := Cell (heap_mapped_end h) _ true) in Hs.
  assert (Hnz : ∀ q j, hlive cs q j → q ≠ 0).
  { intros q j Hq ->. destruct (hlive_range _ _ _ _ Hok Hq) as (? & _). destruct heap_consts as (? & _). lia. }
  assert (Hmain : ∀ l c r, cs ⊆ l ++ c :: r → fits sz c → heap_ok h' (l ++ cut_cell c sz ++ r) →
    touches cs (l ++ cut_cell c sz ++ r) h h' → (∀ j, ¬ hlive cs (c_addr c + 64) j) → (∀ q j, hlive (l ++ r) q j ↔ hlive cs q j) →
    ∃ cs' n, heap_ok h' cs' ∧ windowed (hmem h) (hmem h') ∧ data_kept (hlive cs) (hmem h) (hmem h') ∧
      grown cs cs' (c_addr c + 64) n ∧ (c_addr c + 64 ≠ 0 → sz ≤ n ∧ (16 | c_addr c + 64))).
  { intros l c r Hsub [Hf Hle] Hok' Ht Hnew Hlr. exists (l ++ cut_cell c sz ++ r), (cut_len c sz).
    assert (Hlv : ∀ q j, hlive (l ++ cut_cell c sz ++ r) q j ↔ hlive cs q j ∨ (q = c_addr c + 64 ∧ j = cut_len c sz)).
    { intros q j. rewrite <- Hlr, !hlive_app, hlive_cut. tauto. }
    destruct (hlive_range h' _ (c_addr c + 64) (cut_len c sz) Hok') as (? & _ & _ & _ & ?); [by apply Hlv; right|].
    destruct heap_consts as (? & _).
    split_and!; [done|by eapply touches_windowed| |split; [done|]|].
    - eapply alloc_kept; [done..|]. intros d Hd%Hsub Hfd. rewrite !elem_of_app, elem_of_cons in *. naive_solver congruence.
    - intros q j. rewrite Hlv. assert (c_addr c + 64 ≠ 0) by lia. tauto.
    - intros _. split; [|done]. unfold cut_len. destruct (80 <=? _); lia. }
  destruct Hs as [(l & c & r & E & Hfit & -> & Hok' & Ht)|[Hnone Hs]].
  - apply (Hmain l c r); try done; [by rewrite E|by eapply (new_block h cs l c r Hok E), Hfit|].
    intros q j. rewrite E, !hlive_app, hlive_cons. destruct Hfit as [-> _]. split; [tauto|]. intros [|[[? _]|]]; [tauto|done|tauto].
  - destruct (decide _); [destruct Hs as [-> ->]|].
    { exists cs, 0. split_and!; try done. split; [intros j Hj; by apply (Hnz 0 j)|]. intros q j. tauto. }
    destruct (decide _) as [Hle|Hle].
    + destruct Hs as (-> & Hok' & Ht). apply (Hmain cs big []); try done; [set_solver|by rewrite app_nil_r|by rewrite app_nil_r| |by rewrite app_nil_r].
      intros j Hj. destruct (hlive_range _ _ _ _ Hok Hj) as (_ & ? & _ & ? & _). cbn in *. lia.
    + destruct Hs as (-> & Hok' & Ht). exists (cs ++ [big]), 0. split_and!; [done|by eapply touches_windowed| |split|done].
      * eapply alloc_kept; [done..|]. intros d Hd _. set_solver.
      * intros j Hj. by apply (Hnz 0 j).
      * intros q j. rewrite hlive_app, hlive_cons, hlive_nil. cbn. split; [|tauto]. intros [|[[? _]|[]]]; [tauto|done].
Qed.

Lemma heap_free_live h cs p n : heap_ok h cs → hlive cs p n →
  ∃ h' cs', heap_free p h = Some h' ∧ heap_ok h' cs' ∧ windowed (hmem h) (hmem h') ∧
    data_kept (λ q j, hlive cs q j ∧ q ≠ p) (hmem h) (hmem h') ∧ (∀ q j, hlive cs' q j ↔ hlive cs q j ∧ q ≠ p).
Proof.
  intros Hok (c & Hin & Hf & -> & ->). apply list_elem_of_split in Hin as (l & r & ->).
  destruct (release_spec h l c r Hok Hf) as (Hok' & Ht & _). exists (release (c_addr c) h), (free_cell l c r).
  assert (Hlv : ∀ q j, hlive (free_cell l c r) q j ↔ hlive (l ++ c :: r) q j ∧ q ≠ c_addr c + 64).
  { intros q j. rewrite hlive_free_cell, !hlive_app, hlive_cons by done.
    destruct (layout_split _ _ _ _ _ (heap_ok_layout _ _ Hok)) as (Hl & Hr & _ & _ & ? & _).
    assert (hlive l q j ∨ hlive r q j → q ≠ c_addr c + 64); [|tauto].
    intros [(d & Hd & _ & -> & _)|(d & Hd & _ & -> & _)]; [specialize (Hl d Hd)|specialize (Hr d Hd)]; unfold c_end in *;
      destruct (layout_in _ _ _ d (heap_ok_layout _ _ Hok)) as (_ & _ & ? & _); set_solver by lia. }
  split_and!; [by apply (heap_free_alloc h l c r)|done| | |done].
  - eapply touches_windowed; [exact Hok|exact Hok'|]. eapply touches_mono; [| |exact Ht]; auto.
  - intros q n w [(d & Hd & Hfd & -> & ->) Hne] Hw.
    assert (touches (l ++ c :: r) (l ++ c :: r) h (release (c_addr c) h)) as Ht' by done.
    eapply (touches_kept2 _ _ _ _ _ _ h _ d w (heap_ok_layout _ _ Hok) (heap_ok_layout _ _ Hok) Ht' Hd Hd). unfold c_end. lia.
Qed.

Lemma heap_resize_live h cs p n sz : heap_ok h cs → hlive cs p n → 16 ≤ sz ≤ n → (16 | sz) →
  let h' := shrink_block (p - 64) sz h in
  ∃ cs' n', heap_ok h' cs' ∧ windowed (hmem h) (hmem h') ∧ sz ≤ n' ∧
    data_kept (λ q j, hlive cs q j ∧ q ≠ p) (hmem h) (hmem h') ∧ (∀ w, p ≤ w < p + sz → hmem h' !! w = hmem h !! w) ∧
    (∀ q j, hlive cs' q j ↔ (hlive cs q j ∧ q ≠ p) ∨ (q = p ∧ j = n')).
Proof.
  intros Hok Hl Hsz H16. pose proof Hl as (c & Hin & Hf & -> & ->). apply list_elem_of_split in Hin as (l & r & ->).
  replace (c_addr c + 64 - 64) with (c_addr c) by lia. cbv zeta.
  destruct (shrink_block_spec h l c r sz Hok Hf Hsz H16) as (Hok' & Ht & _).
  set (h' := shrink_block (c_addr c) sz h) in *. exists (l ++ cut_cell c sz ++ r), (cut_len c sz).
  assert (Hlr : ∀ q j, hlive (l ++ r) q j ↔ hlive (l ++ c :: r) q j ∧ q ≠ c_addr c + 64).
  { intros q j. rewrite !hlive_app, hlive_cons.
    destruct (layout_split _ _ _ _ _ (heap_ok_layout _ _ Hok)) as (Hl' & Hr & _ & _ & ? & _).
    assert (hlive l q j ∨ hlive r q j → q ≠ c_addr c + 64); [|tauto].
    intros [(d & Hd & _ & -> & _)|(d & Hd & _ & -> & _)]; [specialize (Hl' d Hd)|specialize (Hr d Hd)]; unfold c_end in *;
      destruct (layout_in _ _ _ d (heap_ok_layout _ _ Hok)) as (_ & _ & ? & _); set_solver by lia. }
  assert (Hlen : sz ≤ cut_len c sz) by (unfold cut_len; destruct (80 <=? _); lia).
  assert (∃ d, d ∈ l ++ cut_cell c sz ++ r ∧ c_free d = false ∧ c_addr d = c_addr c ∧ c_size d = cut_len c sz) as (d & Hd & Hfd & Ea & Es).
  { unfold cut_cell, cut_len. destruct (80 <=? _); eexists; (split; [rewrite elem_of_app; right; by left|done]). }
  split_and!; [done|by eapply touches_windowed|done| | |].
  - intros q n w [(e & He & Hfe & -> & ->) Hne] Hw.
    apply (touches_contents h _ h' _ Hok Hok' Ht e w He); [|done|unfold c_end; lia].
    rewrite !elem_of_app, elem_of_cons in *. destruct He as [|[->|]]; [tauto|done|tauto].
  - intros w Hw. apply Ht. intros b Hb Hbw. destruct Hb as [(e & He & <-)|(e & He & <-)].
    + destruct (layout_apart _ _ _ c e (heap_ok_layout _ _ Hok) (in_mid c l r) He) as [->|[_ Hdis]]; [lia|].
      destruct (layout_in _ _ _ _ (heap_ok_layout _ _ Hok) He) as (_ & _ & ? & _). unfold disjoint_cells, c_end in Hdis. lia.
    + destruct (layout_apart _ _ _ d e (heap_ok_layout _ _ Hok') Hd He) as [<-|[_ Hdis]]; [lia|].
      destruct (layout_in _ _ _ _ (heap_ok_layout _ _ Hok') He) as (_ & _ & ? & _). unfold disjoint_cells, c_end in Hdis. lia.
  - intros q j. rewrite <- Hlr, !hlive_app, hlive_cut. tauto.
Qed.

End HeapLive.
