(* ===== verification/Kmalloc.v ===== *)
(** * kmalloc, kfree, krealloc, kcalloc (src/kernel/core/mem/heap.c)

    The public entry points: size classes up to 4096 bytes go to the slab
    allocator first, the rest and its failures to the heap.  The slab allocator
    is used through [SlabOps]; [Slab] implements it.  [pages] are the answers of
    [pmm_alloc_page] to the slab allocator in order, [avail] the number of pages
    it grants to [heap_extend].  [None] is a kernel panic. *)

From S2P Require Import Prelude Bytes Words Dll Heap.

Module Kmalloc.
Import Heap.

(** ** The slab allocator as heap.c sees it *)

Class SlabOps (S : Type) := {
  slab_cache_create : Z → Z → S → S * Z;                       (* obj_size, align *)
  slab_alloc : Z → list Z → mem → S → mem * S * Z;             (* cache, pages *)
  slab_free : Z → Z → mem → S → mem * S }.                     (* cache, obj *)

Definition slab_sizes : list Z := [16; 32; 64; 128; 256; 512; 1024; 2048; 4096].

Section Kmalloc.
Context {S : Type} `{SlabOps S}.

Record kernel := Kernel {
  kheap : heap;
  kslab : S;
  slab_caches : list Z;
  slab_enabled : bool;
  heap_initialized : bool }.

Definition with_heap (h : heap) (k : kernel) : kernel :=
  Kernel h (kslab k) (slab_caches k) (slab_enabled k) (heap_initialized k).
Definition with_slab (m : mem) (s : S) (k : kernel) : kernel :=
  Kernel (with_mem m (kheap k)) s (slab_caches k) (slab_enabled k) (heap_initialized k).
Definition kmem (k : kernel) : mem := hmem (kheap k).

(** ** heap_init *)

(** One cache per size class; a cache that cannot be created stays NULL. *)
Fixpoint create_caches (sizes : list Z) (s : S) : S * list Z :=
  match sizes with
  | [] => (s, [])
  | n :: sizes =>
      let '(s, c) := slab_cache_create n 16 s in
      let '(s, cs) := create_caches sizes s in
      (s, c :: cs)
  end.

(** [m] is the memory at boot and [s] the slab allocator's initial state. *)
Definition heap_init (avail : nat) (m : mem) (s : S) : option kernel :=
  let num_pages := HEAP_SIZE / PAGE_SIZE in
  if Z.of_nat avail <? num_pages then None
  else
    let h := heap_setup m in
    let '(s, caches) := create_caches slab_sizes s in
    Some (Kernel h s caches true true).

(** ** kmalloc *)

(** The first size class with a cache that the request fits in. *)
Fixpoint pick_cache (size : Z) (sizes caches : list Z) : Z :=
  match sizes, caches with
  | n :: sizes, c :: caches => if (size <=? n) && negb (c =? 0) then c else pick_cache size sizes caches
  | _, _ => 0
  end.

Definition try_slab (size : Z) (pages : list Z) (k : kernel) : kernel * Z :=
  if slab_enabled k && (size <=? 4096) then
    let c := pick_cache size slab_sizes (slab_caches k) in
    if c =? 0 then (k, 0)
    else
      let '(m, s, ptr) := slab_alloc c pages (kmem k) (kslab k) in
      (with_slab m s k, ptr)
  else (k, 0).

Definition kmalloc (size : Z) (pages : list Z) (avail : nat) (k : kernel) : option (kernel * Z) :=
  if negb (heap_initialized k) then None
  else if size =? 0 then Some (k, 0)
  else if HEAP_MAX_SIZE <? size then None
  else
    let size := ALIGN_UP size 16 in
    let '(k, ptr) := try_slab size pages k in
    if negb (ptr =? 0) then Some (k, ptr)
    else
      let '(h, ptr) := heap_alloc size avail (kheap k) in
      Some (with_heap h k, ptr).

(** ** kfree *)

Definition page_base (ptr : Z) : Z := Z.land ptr (not64 (PAGE_SIZE - 1)).

(** The word at the start of the page is the slab magic. *)
Definition is_slab (ptr : Z) (k : kernel) : bool :=
  slab_enabled k && (rd (kmem k) (page_base ptr) =? SLAB_MAGIC).

Definition kfree (ptr : Z) (k : kernel) : option kernel :=
  if ptr =? 0 then Some k
  else if negb (heap_initialized k) then None
  else if is_slab ptr k then
    let '(m, s) := slab_free 0 ptr (kmem k) (kslab k) in
    Some (with_slab m s k)
  else
    h ← heap_free ptr (kheap k);
    Some (with_heap h k).

(** ** memcpy and memset on 8-byte-aligned pointers *)

Fixpoint copy_words (n : nat) (dst src : Z) (m : mem) : mem :=
  match n with
  | O => m
  | Datatypes.S n => copy_words n (dst + 8) (src + 8) (wr m dst (rd m src))
  end.

(** The low [k] bytes of [x] on the high bytes of [y]. *)
Definition merge_low (k x y : Z) : Z := x mod 2 ^ (8 * k) + y / 2 ^ (8 * k) * 2 ^ (8 * k).

Definition memcpy (dst src n : Z) (m : mem) : mem :=
  let q := n / 8 in
  let m := copy_words (Z.to_nat q) dst src m in
  if n mod 8 =? 0 then m
  else wr m (dst + 8 * q) (merge_low (n mod 8) (rd m (src + 8 * q)) (rd m (dst + 8 * q))).

Fixpoint zero_words (n : nat) (dst : Z) (m : mem) : mem :=
  match n with
  | O => m
  | Datatypes.S n => zero_words n (dst + 8) (wr m dst 0)
  end.

Definition memset0 (dst n : Z) (m : mem) : mem :=
  let q := n / 8 in
  let m := zero_words (Z.to_nat q) dst m in
  if n mod 8 =? 0 then m
  else wr m (dst + 8 * q) (merge_low (n mod 8) 0 (rd m (dst + 8 * q))).

Definition with_kmem (f : mem → mem) (k : kernel) : kernel := with_heap (with_mem (f (kmem k)) (kheap k)) k.

(** ** krealloc and kcalloc *)

Definition krealloc (ptr new_size : Z) (pages : list Z) (avail : nat) (k : kernel) : option (kernel * Z) :=
  if negb (heap_initialized k) then None
  else if ptr =? 0 then kmalloc new_size pages avail k
  else if new_size =? 0 then k ← kfree ptr k; Some (k, 0)
  else if is_slab ptr k then
    '(k, new_ptr) ← kmalloc new_size pages avail k;
    if new_ptr =? 0 then Some (k, 0)
    else
      let copy_limit := if new_size <? 4096 then new_size else 4096 in
      let k := with_kmem (memcpy new_ptr ptr copy_limit) k in
      let '(m, s) := slab_free 0 ptr (kmem k) (kslab k) in
      Some (with_slab m s k, new_ptr)
  else if negb (heap_owns ptr (kheap k)) then Some (k, 0)
  else
    let block := u64 (ptr - sizeof_block) in
    if negb (block_magic_ok (kmem k) block) then Some (k, 0)
    else
      let old_size := get (kmem k) block f_size in
      let aligned_new := ALIGN_UP new_size 16 in
      if aligned_new <=? old_size then Some (with_heap (shrink_block block aligned_new (kheap k)) k, ptr)
      else
        '(k, new_ptr) ← kmalloc new_size pages avail k;
        if new_ptr =? 0 then Some (k, 0)
        else
          let k := with_kmem (memcpy new_ptr ptr old_size) k in
          k ← kfree ptr k;
          Some (k, new_ptr).

Definition SIZE_MAX : Z := 2 ^ 64 - 1.

Definition kcalloc (count size : Z) (pages : list Z) (avail : nat) (k : kernel) : option (kernel * Z) :=
  if negb (heap_initialized k) then None
  else if (count =? 0) || (size =? 0) then Some (k, 0)
  else if SIZE_MAX / size <? count then Some (k, 0)
  else
    let total := u64 (count * size) in
    '(k, ptr) ← kmalloc total pages avail k;
    if ptr =? 0 then Some (k, 0)
    else Some (with_kmem (memset0 ptr total) k, ptr).

End Kmalloc.

Arguments kernel : clear implicits.
Arguments Kernel {S}.

End Kmalloc.
