(* ===== verification/KmallocMem.v ===== *)
(** * memcpy and memset on words *)

From S2P Require Import Prelude Bytes Words Dll Heap Kmalloc.

Module KmallocMem.
Import Heap Kmalloc.

(** ** memcpy *)

Lemma copy_words_out n dst src m w : ¬ dst ≤ w < dst + 8 * Z.of_nat n → copy_words n dst src m !! w = m !! w.
Proof.
  revert dst src m. induction n as [|n IH]; intros dst src m Hw; cbn [copy_words]; [done|].
  rewrite IH by lia. apply wr_ne. lia.
Qed.

(** Word [i] of the source is copied if the copy has not overwritten it. *)
Lemma copy_words_in n dst src m i : 0 ≤ i < Z.of_nat n → ¬ dst ≤ src + 8 * i < dst + 8 * Z.of_nat n →
  rd (copy_words n dst src m) (dst + 8 * i) = rd m (src + 8 * i).
Proof.
  revert dst src m i. induction n as [|n IH]; intros dst src m i Hi Hs; cbn [copy_words]; [lia|].
  destruct (decide (i = 0)) as [->|Hne].
  - unfold rd at 1. rewrite copy_words_out by lia. replace (dst + 8 * 0) with dst by lia. replace (src + 8 * 0) with src by lia.
    apply rd_wr_eq.
  - specialize (IH (dst + 8) (src + 8) (wr m dst (rd m src)) (i - 1)).
    replace (dst + 8 + 8 * (i - 1)) with (dst + 8 * i) in IH by lia. replace (src + 8 + 8 * (i - 1)) with (src + 8 * i) in IH by lia.
    rewrite IH by lia. apply rd_wr_ne. lia.
Qed.

Lemma memcpy_out dst src n m w : 0 ≤ n → ¬ dst ≤ w < dst + n → memcpy dst src n m !! w = m !! w.
Proof.
  intros Hn Hw. unfold memcpy. cbv zeta. pose proof (Z.div_mod n 8 ltac:(lia)). pose proof (Z.mod_pos_bound n 8 ltac:(lia)).
  assert (0 ≤ n / 8) by (apply Z.div_pos; lia).
  destruct (Z.eqb_spec (n mod 8) 0); [|rewrite wr_ne by lia]; apply copy_words_out; lia.
Qed.

Lemma memcpy_in dst src n m i : 0 ≤ i → 8 * i + 8 ≤ n → ¬ dst ≤ src + 8 * i < dst + n →
  rd (memcpy dst src n m) (dst + 8 * i) = rd m (src + 8 * i).
Proof.
  intros Hi Hn Hs. unfold memcpy. cbv zeta. pose proof (Z.div_mod n 8 ltac:(lia)). pose proof (Z.mod_pos_bound n 8 ltac:(lia)).
  assert (E : rd (copy_words (Z.to_nat (n / 8)) dst src m) (dst + 8 * i) = rd m (src + 8 * i)) by (apply copy_words_in; lia).
  destruct (Z.eqb_spec (n mod 8) 0); [done|]. by rewrite rd_wr_ne by lia.
Qed.

(** ** memset to zero *)

Lemma zero_words_out n dst m w : ¬ dst ≤ w < dst + 8 * Z.of_nat n → zero_words n dst m !! w = m !! w.
Proof.
  revert dst m. induction n as [|n IH]; intros dst m Hw; cbn [zero_words]; [done|]. rewrite IH by lia. apply wr_ne. lia.
Qed.

Lemma zero_words_in n dst m i : 0 ≤ i < Z.of_nat n → rd (zero_words n dst m) (dst + 8 * i) = 0.
Proof.
  revert dst m i. induction n as [|n IH]; intros dst m i Hi; cbn [zero_words]; [lia|]. destruct (decide (i = 0)) as [->|Hne].
  - unfold rd. rewrite zero_words_out by lia. replace (dst + 8 * 0) with dst by lia. apply rd_wr_eq.
  - specialize (IH (dst + 8) (wr m dst 0) (i - 1)). replace (dst + 8 + 8 * (i - 1)) with (dst + 8 * i) in IH by lia. apply IH. lia.
Qed.

Lemma memset0_out dst n m w : 0 ≤ n → ¬ dst ≤ w < dst + n → memset0 dst n m !! w = m !! w.
Proof.
  intros Hn Hw. unfold memset0. cbv zeta. pose proof (Z.div_mod n 8 ltac:(lia)). pose proof (Z.mod_pos_bound n 8 ltac:(lia)).
  assert (0 ≤ n / 8) by (apply Z.div_pos; lia).
  destruct (Z.eqb_spec (n mod 8) 0); [|rewrite wr_ne by lia]; apply zero_words_out; lia.
Qed.

(** The words of the range are zero, the last one in the bytes of the range. *)
Lemma memset0_in dst n m i : 0 ≤ i → 8 * i < n → rd (memset0 dst n m) (dst + 8 * i) mod 2 ^ (8 * Z.min 8 (n - 8 * i)) = 0.
Proof.
  intros Hi Hn. unfold memset0. cbv zeta. pose proof (Z.div_mod n 8 ltac:(lia)). pose proof (Z.mod_pos_bound n 8 ltac:(lia)).
  destruct (Z.lt_ge_cases i (n / 8)).
  - assert (E : rd (zero_words (Z.to_nat (n / 8)) dst m) (dst + 8 * i) = 0) by (apply zero_words_in; lia).
    destruct (Z.eqb_spec (n mod 8) 0); [by rewrite E|]. rewrite rd_wr_ne by lia. by rewrite E.
  - assert (i = n / 8) as -> by lia. destruct (Z.eqb_spec (n mod 8) 0); [lia|]. rewrite rd_wr_eq.
    replace (Z.min 8 (n - 8 * (n / 8))) with (n mod 8) by lia. unfold merge_low. rewrite Z.mod_0_l by (apply Z.pow_nonzero; lia).
    cbn [Z.add]. apply Z.mod_mul. apply Z.pow_nonzero; lia.
Qed.

End KmallocMem.
