(* ===== verification/Slab.v ===== *)
(** * The slab allocator (src/kernel/core/mem/slab.c)

    One slab is one 4 KiB page in the direct map: a 48-byte header and slots of
    one size, the free ones linked through their first word.  The header and the
    links are words of the shared memory; the cache control blocks, a static
    array, are the state [slab_st], and a [slab_cache_t*] is the 1-based index
    of its block (0 is NULL).  [pages] are the answers of [pmm_alloc_page] in
    order; pages given back are logged in [released]. *)

From S2P Require Import Prelude Bytes Words Dll Heap Kmalloc.

Module Slab.
Import Heap Kmalloc.

Definition DIRECT_MAP_BASE : Z := 0xFFFF800000000000.
Definition SLAB_DEFAULT_ALIGN : Z := 16.
Definition SLAB_MIN_ALIGN : Z := 8.
Definition MAX_SLAB_CACHES : Z := 64.

(** ** Slab header *)

Inductive sfield := s_magic | s_cache | s_next | s_prev | s_free_list | s_counts.

Definition slab_off (f : sfield) : Z :=
  match f with s_magic => 0 | s_cache => 8 | s_next => 16 | s_prev => 24 | s_free_list => 32 | s_counts => 40 end.

#[export] Instance slab_fields : Fields sfield.
Proof. refine {| off := slab_off |}; [intros []; cbn; lia|intros [] []; cbn; lia || done]. Defined.

Definition sizeof_slab : Z := 48.

(** [free_count] and [total_slots] are the two halves of one word. *)
Definition free_count (m : mem) (s : Z) : Z := u32 (get m s s_counts).
Definition total_slots (m : mem) (s : Z) : Z := get m s s_counts / 2 ^ 32.
Definition set_free_count (m : mem) (s v : Z) : mem := set m s s_counts (u32 v + total_slots m s * 2 ^ 32).
Definition set_total_slots (m : mem) (s v : Z) : mem := set m s s_counts (free_count m s + u32 v * 2 ^ 32).

(** ** Cache control blocks *)

Record slab_cache := Cache {
  obj_size : Z; align : Z; slots_per_slab : Z;
  partial : Z; full : Z;
  objs_in_use : Z; total_slabs : Z; total_allocs : Z; total_frees : Z;
  registry_next : Z }.

Record slab_st := SlabSt { cache_pool : list slab_cache; cache_registry : Z; released : list Z }.

Definition slab_boot : slab_st := SlabSt [] 0 [].

Definition no_cache : slab_cache := Cache 0 0 0 0 0 0 0 0 0 0.
Definition cache_of (c : Z) (st : slab_st) : slab_cache := default no_cache (cache_pool st !! Z.to_nat (c - 1)).
Definition upd_cache (c : Z) (f : slab_cache → slab_cache) (st : slab_st) : slab_st :=
  SlabSt (alter f (Z.to_nat (c - 1)) (cache_pool st)) (cache_registry st) (released st).

Definition set_partial (p : Z) (k : slab_cache) : slab_cache :=
  Cache (obj_size k) (align k) (slots_per_slab k) p (full k)
    (objs_in_use k) (total_slabs k) (total_allocs k) (total_frees k) (registry_next k).
Definition set_full (p : Z) (k : slab_cache) : slab_cache :=
  Cache (obj_size k) (align k) (slots_per_slab k) (partial k) p
    (objs_in_use k) (total_slabs k) (total_allocs k) (total_frees k) (registry_next k).
Definition set_slabs (n : Z) (k : slab_cache) : slab_cache :=
  Cache (obj_size k) (align k) (slots_per_slab k) (partial k) (full k)
    (objs_in_use k) n (total_allocs k) (total_frees k) (registry_next k).
Definition count_alloc (k : slab_cache) : slab_cache :=
  Cache (obj_size k) (align k) (slots_per_slab k) (partial k) (full k)
    (u64 (objs_in_use k + 1)) (total_slabs k) (u64 (total_allocs k + 1)) (total_frees k) (registry_next k).
Definition count_free (k : slab_cache) : slab_cache :=
  Cache (obj_size k) (align k) (slots_per_slab k) (partial k) (full k)
    (u64 (objs_in_use k - 1)) (total_slabs k) (total_allocs k) (u64 (total_frees k + 1)) (registry_next k).

(** ** Helpers *)

Definition round_up (v a : Z) : Z := Z.land (u64 (v + (a - 1))) (not64 (a - 1)).

Fixpoint next_pow2 (fuel : nat) (p a : Z) : Z :=
  match fuel with
  | O => p
  | S fuel => if p <? a then next_pow2 fuel (u64 (Z.shiftl p 1)) a else p
  end.

(** [p] doubles from 8, so 61 rounds reach any 64-bit value up to 2^63. *)
Definition normalize_align (a : Z) : Z :=
  let a := if a =? 0 then SLAB_DEFAULT_ALIGN else a in
  let a := if a <? SLAB_MIN_ALIGN then SLAB_MIN_ALIGN else a in
  next_pow2 61 SLAB_MIN_ALIGN a.

(** The list operations return the memory and the new head. *)
Definition slab_list_push (head s : Z) (m : mem) : mem * Z :=
  let m := set m s s_prev 0 in
  let m := set m s s_next head in
  let m := if negb (head =? 0) then set m head s_prev s else m in
  (m, s).

Definition slab_list_remove (head s : Z) (m : mem) : mem * Z :=
  let '(m, head) :=
    if negb (get m s s_prev =? 0) then (set m (get m s s_prev) s_next (get m s s_next), head)
    else (m, get m s s_next) in
  let m := if negb (get m s s_next =? 0) then set m (get m s s_next) s_prev (get m s s_prev) else m in
  let m := set m s s_next 0 in
  let m := set m s s_prev 0 in
  (m, head).

(** ** slab_grow *)

(** Thread slot [i] onto the free list of slab [s]. *)
Definition thread_slot (s first osize i : Z) (m : mem) : mem :=
  let slot := u64 (first + i * osize) in
  let m := wr m slot (get m s s_free_list) in
  set m s s_free_list slot.

(** The new slab (0 when out of memory) and the answers not yet used. *)
Definition slab_grow (c : Z) (pages : list Z) (m : mem) (st : slab_st) : mem * slab_st * Z * list Z :=
  match pages with
  | [] => (m, st, 0, [])
  | page :: pages =>
      if page =? 0 then (m, st, 0, pages)
      else
        let k := cache_of c st in
        let s := u64 (DIRECT_MAP_BASE + page) in
        let m := set m s s_magic SLAB_MAGIC in
        let m := set m s s_cache c in
        let m := set m s s_next 0 in
        let m := set m s s_prev 0 in
        let m := set m s s_free_list 0 in
        let m := set_total_slots m s (slots_per_slab k) in
        let m := set_free_count m s (slots_per_slab k) in
        let first := round_up (u64 (s + sizeof_slab)) (align k) in
        let m := (for i < slots_per_slab k from m do λ m, thread_slot s first (obj_size k) i m)%K in
        let '(m, head) := slab_list_push (partial k) s m in
        let st := upd_cache c (set_partial head) st in
        let st := upd_cache c (λ k, set_slabs (u64 (total_slabs k + 1)) k) st in
        (m, st, s, pages)
  end.

(** ** slab_cache_create *)

Definition slab_cache_create (osize al : Z) (st : slab_st) : slab_st * Z :=
  if osize =? 0 then (st, 0)
  else
    let al := normalize_align al in
    let slot := osize in
    let slot := if slot <? 8 then 8 else slot in
    let slot := round_up slot al in
    let first := round_up sizeof_slab al in
    if PAGE_SIZE <=? first then (st, 0)
    else
      let usable := PAGE_SIZE - first in
      let per := u32 (usable / slot) in
      if per =? 0 then (st, 0)
      else if MAX_SLAB_CACHES <=? Z.of_nat (length (cache_pool st)) then (st, 0)
      else
        let c := Z.of_nat (length (cache_pool st)) + 1 in
        let k := Cache slot al per 0 0 0 0 0 0 (cache_registry st) in
        (SlabSt (cache_pool st ++ [k]) c (released st), c).

(** ** slab_alloc *)

(** The header of a partial slab or its free-list head is not plausible. *)
Definition corrupt (s obj : Z) (m : mem) : bool :=
  negb (get m s s_magic =? SLAB_MAGIC) || (total_slots m s =? 0) || (obj =? 0) ||
  negb (page_base obj =? s).

(** Leak the corrupt head, keep its successor if that looks like a slab, and
    grow a fresh slab. *)
Definition recover (c s : Z) (pages : list Z) (m : mem) (st : slab_st) : mem * slab_st * Z * list Z :=
  let raw_next := get m s s_next in
  let salvage :=
    if negb (raw_next =? 0) && (Z.land raw_next (PAGE_SIZE - 1) =? 0) && (get m raw_next s_magic =? SLAB_MAGIC)
    then raw_next else 0 in
  let m := if salvage =? 0 then m else set m salvage s_prev 0 in
  let st := upd_cache c (set_partial salvage) st in
  let st := upd_cache c (λ k, if 0 <? total_slabs k then set_slabs (total_slabs k - 1) k else k) st in
  slab_grow c pages m st.

(** Take [obj] from slab [s], which becomes full with its last slot. *)
Definition take_slot (c s obj : Z) (m : mem) (st : slab_st) : mem * slab_st :=
  let m := set m s s_free_list (rd m obj) in
  let m := set_free_count m s (free_count m s - 1) in
  let '(m, st) :=
    if free_count m s =? 0 then
      let '(m, head) := slab_list_remove (partial (cache_of c st)) s m in
      let st := upd_cache c (set_partial head) st in
      let '(m, head) := slab_list_push (full (cache_of c st)) s m in
      (m, upd_cache c (set_full head) st)
    else (m, st) in
  (m, upd_cache c count_alloc st).

Definition slab_alloc (c : Z) (pages : list Z) (m : mem) (st : slab_st) : mem * slab_st * Z :=
  if c =? 0 then (m, st, 0)
  else
    let s := partial (cache_of c st) in
    let '(m, st, s, pages) := if s =? 0 then slab_grow c pages m st else (m, st, s, pages) in
    if s =? 0 then (m, st, 0)
    else
      let '(m, st, s, pages) :=
        if corrupt s (get m s s_free_list) m then recover c s pages m st else (m, st, s, pages) in
      if s =? 0 then (m, st, 0)
      else
        let obj := get m s s_free_list in
        if obj =? 0 then (m, st, 0)
        else
          let '(m, st) := take_slot c s obj m st in
          (m, st, obj).

(** ** slab_free *)

(** The walk that looks for [obj] on the free list; a list without a cycle
    visits distinct words, so the size of the memory bounds it. *)
Fixpoint on_list (fuel : nat) (node obj : Z) (m : mem) : bool :=
  match fuel with
  | O => false
  | S fuel => if node =? 0 then false else if node =? obj then true else on_list fuel (rd m node) obj m
  end.

(** Put [obj] back on the free list of slab [s]; a full slab becomes partial. *)
Definition put_slot (c s obj : Z) (m : mem) (st : slab_st) : mem * slab_st :=
  let was_full := free_count m s =? 0 in
  let m := wr m obj (get m s s_free_list) in
  let m := set m s s_free_list obj in
  let m := set_free_count m s (free_count m s + 1) in
  let st := upd_cache c count_free st in
  if was_full then
    let '(m, head) := slab_list_remove (full (cache_of c st)) s m in
    let st := upd_cache c (set_full head) st in
    let '(m, head) := slab_list_push (partial (cache_of c st)) s m in
    (m, upd_cache c (set_partial head) st)
  else (m, st).

(** Give the page of the empty slab [s] back. *)
Definition release_slab (c s : Z) (m : mem) (st : slab_st) : mem * slab_st :=
  let '(m, head) := slab_list_remove (partial (cache_of c st)) s m in
  let st := upd_cache c (set_partial head) st in
  let st := upd_cache c (λ k, set_slabs (u64 (total_slabs k - 1)) k) st in
  let m := set m s s_magic 0 in
  (m, SlabSt (cache_pool st) (cache_registry st) (u64 (s - DIRECT_MAP_BASE) :: released st)).

Definition slab_free (c obj : Z) (m : mem) (st : slab_st) : mem * slab_st :=
  if obj =? 0 then (m, st)
  else
    let s := page_base obj in
    if negb (get m s s_magic =? SLAB_MAGIC) then (m, st)
    else if negb (c =? 0) && negb (get m s s_cache =? c) then (m, st)
    else
      let c := get m s s_cache in
      if total_slots m s <=? free_count m s then (m, st)
      else if on_list (S (size m)) (get m s s_free_list) obj m then (m, st)
      else
        let '(m, st) := put_slot c s obj m st in
        if free_count m s =? total_slots m s then release_slab c s m st else (m, st).

(** ** slab_cache_destroy *)

Fixpoint release_list (fuel : nat) (s : Z) (m : mem) (rel : list Z) : mem * list Z :=
  match fuel with
  | O => (m, rel)
  | S fuel =>
      if s =? 0 then (m, rel)
      else
        let next := get m s s_next in
        let m := set m s s_magic 0 in
        release_list fuel next m (u64 (s - DIRECT_MAP_BASE) :: rel)
  end.

Definition set_registry_next (n : Z) (k : slab_cache) : slab_cache :=
  Cache (obj_size k) (align k) (slots_per_slab k) (partial k) (full k)
    (objs_in_use k) (total_slabs k) (total_allocs k) (total_frees k) n.

(** [pp] walks the registry; [prev] is the cache whose link is [pp], 0 for the
    registry head. *)
Fixpoint unregister (fuel : nat) (prev cur c : Z) (st : slab_st) : slab_st :=
  match fuel with
  | O => st
  | S fuel =>
      if cur =? 0 then st
      else if cur =? c then
        if prev =? 0 then SlabSt (cache_pool st) (registry_next (cache_of c st)) (released st)
        else upd_cache prev (set_registry_next (registry_next (cache_of c st))) st
      else unregister fuel cur (registry_next (cache_of cur st)) c st
  end.

Definition slab_cache_destroy (c : Z) (m : mem) (st : slab_st) : mem * slab_st :=
  if c =? 0 then (m, st)
  else
    let k := cache_of c st in
    let st := upd_cache c (λ k,
      Cache (obj_size k) (align k) (slots_per_slab k) 0 0 0 0 (total_allocs k) (total_frees k) (registry_next k)) st in
    let '(m, rel) := release_list (S (size m)) (partial k) m (released st) in
    let '(m, rel) := release_list (S (size m)) (full k) m rel in
    let st := SlabSt (cache_pool st) (cache_registry st) rel in
    (m, unregister (S (length (cache_pool st))) 0 (cache_registry st) c st).

#[export] Instance slab_ops : SlabOps slab_st := {|
  Kmalloc.slab_cache_create := slab_cache_create;
  Kmalloc.slab_alloc := slab_alloc;
  Kmalloc.slab_free := slab_free |}.

End Slab.
