(* ===== verification/SlabInv.v ===== *)
(** * Slab: the representation invariant

    Every cache owns a list of partial and a list of full slab pages; every page
    has a list of free slots.  This file defines when memory and control blocks
    represent such lists, and proves what does not disturb it. *)

From S2P Require Import Prelude Bytes Words Dll Heap Kmalloc Slab.

Module SlabInv.
Import Heap Kmalloc Slab.

(** ** Geometry of a slab page *)

Definition DIRECT_MAP_SPAN : Z := 16 * 1024 * 1024 * 1024.

(** Bytes before the first slot. *)
Definition hdr_len (k : slab_cache) : Z := (48 + align k - 1) / align k * align k.

Record cache_ok (k : slab_cache) : Prop := {
  ca_align : ∃ e, align k = 2 ^ e ∧ 3 ≤ e ≤ 11;
  ca_size : 8 ≤ obj_size k;
  ca_mult : (align k | obj_size k);
  ca_slots : 1 ≤ slots_per_slab k;
  ca_fit : hdr_len k + slots_per_slab k * obj_size k ≤ 4096 }.

Definition slot (k : slab_cache) (s i : Z) : Z := s + hdr_len k + i * obj_size k.

Definition is_slot (k : slab_cache) (s x : Z) : Prop := ∃ i, 0 ≤ i < slots_per_slab k ∧ x = slot k s i.

(** Pages of the direct map. *)
Definition page_addr (s : Z) : Prop := (4096 | s) ∧ DIRECT_MAP_BASE < s < DIRECT_MAP_BASE + DIRECT_MAP_SPAN.

Lemma hdr_len_bound k : cache_ok k → 48 ≤ hdr_len k ∧ (align k | hdr_len k) ∧ 8 ≤ align k ≤ 2048 ∧ (align k | 4096).
Proof.
  intros [(e & He & Hr) _ _ _ _]. assert (8 ≤ align k ≤ 2048) as Ha.
  { rewrite He. split; [change 8 with (2 ^ 3)|change 2048 with (2 ^ 11)]; apply Z.pow_le_mono_r; lia. }
  split_and!; try lia.
  - unfold hdr_len. pose proof (Z.div_mod (48 + align k - 1) (align k) ltac:(lia)).
    pose proof (Z.mod_pos_bound (48 + align k - 1) (align k) ltac:(lia)). nia.
  - by eexists.
  - rewrite He. exists (2 ^ (12 - e)). rewrite <- Z.pow_add_r by lia. by replace (12 - e + e) with 12 by lia.
Qed.

Lemma slot_bound k s x : cache_ok k → is_slot k s x → s + 48 ≤ x ∧ x + obj_size k ≤ s + 4096.
Proof.
  intros Hk (i & Hi & ->). destruct (hdr_len_bound k Hk) as (? & _). destruct Hk as [_ ? _ ? ?]. unfold slot. nia.
Qed.

Lemma slot_disjoint k s x y : cache_ok k → is_slot k s x → is_slot k s y → x ≠ y →
  x + obj_size k ≤ y ∨ y + obj_size k ≤ x.
Proof.
  intros [_ ? _ _ _] (i & Hi & ->) (j & Hj & ->) Hne. unfold slot in *. destruct (Z.lt_trichotomy i j) as [|[->|]]; [left|done|right]; nia.
Qed.

Lemma slot_align k s x : cache_ok k → (4096 | s) → is_slot k s x → (align k | x).
Proof.
  intros Hk Hs (i & _ & ->). destruct (hdr_len_bound k Hk) as (_ & Hd & _ & H4). unfold slot.
  apply Z.divide_add_r; [apply Z.divide_add_r|]; [by etransitivity|done|]. apply Z.divide_mul_r, Hk.
Qed.

Lemma page_base_eq x : 0 ≤ x < 2 ^ 64 → page_base x = x / 4096 * 4096.
Proof. intros Hx. apply (land_not_ones x 12); lia. Qed.

Lemma page_base_slot k s x : cache_ok k → page_addr s → is_slot k s x → page_base x = s.
Proof.
  intros Hk [[q Hq] Hr] Hx. destruct (slot_bound k s x Hk Hx) as [H1 H2]. pose proof (ca_size k Hk).
  unfold DIRECT_MAP_BASE, DIRECT_MAP_SPAN in *. rewrite page_base_eq by lia. divlia.
Qed.

(** ** Free slots of a page *)

Fixpoint slot_chain (m : mem) (a : Z) (l : list Z) : Prop :=
  match l with
  | [] => a = 0
  | x :: l => a = x ∧ x ≠ 0 ∧ slot_chain m (rd m x) l
  end.

Lemma slot_chain_ext m m' a l : (∀ x, x ∈ l → m' !! x = m !! x) → slot_chain m a l → slot_chain m' a l.
Proof.
  revert a. induction l as [|x l IH]; intros a He; cbn; [done|]. intros (-> & ? & Hc). split_and!; try done.
  unfold rd. rewrite He by left. apply IH; [|done]. intros; apply He; by right.
Qed.

Record page_ok (m : mem) (c : Z) (k : slab_cache) (s : Z) (l : list Z) : Prop := {
  po_addr : page_addr s;
  po_magic : get m s s_magic = SLAB_MAGIC;
  po_cache : get m s s_cache = c;
  po_counts : get m s s_counts = Z.of_nat (length l) + slots_per_slab k * 2 ^ 32;
  po_chain : slot_chain m (get m s s_free_list) l;
  po_nodup : NoDup l;
  po_slots : ∀ x, x ∈ l → is_slot k s x }.

(** A page is unaffected by writes outside its header and its free slots. *)
Lemma page_ok_ext m m' c k s l : page_ok m c k s l →
  (∀ w, s ≤ w < s + 48 → w ≠ s + 16 → w ≠ s + 24 → m' !! w = m !! w) → (∀ x, x ∈ l → m' !! x = m !! x) →
  page_ok m' c k s l.
Proof.
  intros [? Hm Hc Hn Hf ? ?] Hw Hx.
  assert (Hg : ∀ f : sfield, f ≠ s_next → f ≠ s_prev → get m' s f = get m s f).
  { intros f H1 H2. unfold get, rd. rewrite Hw; [done|..]; destruct f; cbn; done || lia. }
  split; rewrite ?Hg by done; try done. by eapply slot_chain_ext.
Qed.

(** The number of slots never exceeds a page. *)
Lemma page_counts m c k s l : cache_ok k → page_ok m c k s l →
  free_count m s = Z.of_nat (length l) ∧ total_slots m s = slots_per_slab k ∧
  Z.of_nat (length l) ≤ slots_per_slab k ≤ 512.
Proof.
  intros Hk Hp. destruct (hdr_len_bound k Hk) as (? & _). pose proof (ca_fit k Hk) as Hfit.
  pose proof (ca_size k Hk). pose proof (ca_slots k Hk).
  assert (slots_per_slab k ≤ 512) by nia.
  assert (Z.of_nat (length l) ≤ slots_per_slab k).
  { assert (length l ≤ length (slot k s <$> (seqZ 0 (slots_per_slab k))))%nat as Hle.
    { apply submseteq_length, NoDup_submseteq; [apply Hp|]. intros x Hx. apply (po_slots _ _ _ _ _ Hp) in Hx as (i & Hi & ->).
      apply list_elem_of_fmap. exists i. split; [done|]. apply elem_of_seqZ. lia. }
    rewrite length_fmap, length_seqZ in Hle. lia. }
  unfold free_count, total_slots. rewrite (po_counts _ _ _ _ _ Hp). unfold u32. split_and!; try lia.
  - rewrite Z.mod_add by lia. apply Z.mod_small. lia.
  - rewrite Z.div_add by lia. rewrite Z.div_small by lia. lia.
Qed.

(** ** The invariant *)

Definition heads (st : slab_st) (j : nat * bool) : Z :=
  match cache_pool st !! fst j with
  | Some k => if snd j then full k else partial k
  | None => 0
  end.

Definition pages_of (ls : nat * bool → list Z) (i : nat) : list Z := ls (i, false) ++ ls (i, true).

(** [ls (i, false)] and [ls (i, true)] are the partial and the full pages of
    cache [i], [fr s] the free slots of page [s]. *)
Record slab_inv (m : mem) (st : slab_st) (ls : nat * bool → list Z) (fr : Z → list Z) : Prop := {
  si_family : Dll.family s_next s_prev m (heads st) ls;
  si_cache : ∀ i k, cache_pool st !! i = Some k → cache_ok k;
  si_page : ∀ i f s k, cache_pool st !! i = Some k → s ∈ ls (i, f) →
    page_ok m (Z.of_nat i + 1) k s (fr s) ∧ (f = true ↔ fr s = []);
  si_none : ∀ i f, cache_pool st !! i = None → ls (i, f) = [];
  si_use : ∀ i k, cache_pool st !! i = Some k →
    objs_in_use k = u64 (zsum (λ s, slots_per_slab k - Z.of_nat (length (fr s))) (pages_of ls i)) ∧
    total_slabs k = u64 (Z.of_nat (length (pages_of ls i))) }.

(** The objects handed out, with their sizes. *)
Definition live (st : slab_st) (ls : nat * bool → list Z) (fr : Z → list Z) (p n : Z) : Prop :=
  ∃ i f s k, cache_pool st !! i = Some k ∧ s ∈ ls (i, f) ∧ is_slot k s p ∧ p ∉ fr s ∧ n = obj_size k.

Lemma inv_cache m st ls fr j s : slab_inv m st ls fr → s ∈ ls j → ∃ k, cache_pool st !! fst j = Some k ∧
  page_ok m (Z.of_nat (fst j) + 1) k s (fr s) ∧ (snd j = true ↔ fr s = []) ∧ cache_ok k.
Proof.
  intros Hi Hs. destruct j as [i f]. cbn. destruct (cache_pool st !! i) as [k|] eqn:E.
  - exists k. destruct (si_page _ _ _ _ Hi i f s k E Hs). split_and!; try done; try tauto. by eapply si_cache.
  - rewrite (si_none _ _ _ _ Hi i f E) in Hs. set_solver.
Qed.

(** Pages of the lists are 4096 bytes apart. *)
Lemma pages_apart m st ls fr i j s t : slab_inv m st ls fr → s ∈ ls i → t ∈ ls j → s = t ∨ 4096 ≤ s - t ∨ 4096 ≤ t - s.
Proof.
  intros Hi Hs Ht. destruct (inv_cache _ _ _ _ _ _ Hi Hs) as (_ & _ & [[[a Ha] _] _ _ _ _ _ _] & _).
  destruct (inv_cache _ _ _ _ _ _ Hi Ht) as (_ & _ & [[[b Hb] _] _ _ _ _ _ _] & _).
  destruct (Z.lt_trichotomy a b) as [|[->|]]; lia.
Qed.

(** What a write may touch without disturbing the invariant: anything but
    headers and free slots. *)
Lemma slab_inv_ext m m' st ls fr : slab_inv m st ls fr →
  (∀ j s w, s ∈ ls j → s ≤ w < s + 48 → m' !! w = m !! w) →
  (∀ j s x, s ∈ ls j → x ∈ fr s → m' !! x = m !! x) → slab_inv m' st ls fr.
Proof.
  intros Hi Hw Hx. split; try apply Hi.
  - apply (Dll.family_ext s_next s_prev m); [|apply Hi]. intros j s Hs. unfold get, rd. rewrite !(Hw j s); cbn; done || lia.
  - intros i f s k Hk Hs. destruct (si_page _ _ _ _ Hi i f s k Hk Hs) as [Hp Hf]. split; [|done].
    eapply page_ok_ext; [exact Hp|intros w ? _ _; by eapply Hw|intros x; by eapply Hx].
Qed.

(** A live object is no header and no free slot. *)
Lemma live_clear m st ls fr p n w : slab_inv m st ls fr → live st ls fr p n → p ≤ w < p + n →
  (∀ j s, s ∈ ls j → ¬ s ≤ w < s + 48) ∧ (∀ j s x, s ∈ ls j → x ∈ fr s → w ≠ x).
Proof.
  intros Hi (i & f & s & k & Hk & Hs & Hp & Hnf & ->) Hw. pose proof (si_cache _ _ _ _ Hi i k Hk) as Hck.
  destruct (slot_bound k s p Hck Hp) as [H1 H2]. split.
  - intros j t Ht Hin. destruct (pages_apart _ _ _ _ _ _ _ _ Hi Hs Ht) as [->|]; lia.
  - intros j t x Ht Hx ->. destruct (inv_cache _ _ _ _ _ _ Hi Ht) as (k' & Hk' & Hpo & _ & Hck').
    pose proof (po_slots _ _ _ _ _ Hpo x Hx) as Hxs. destruct (slot_bound k' t x Hck' Hxs) as [H3 H4]. pose proof (ca_size k' Hck').
    destruct (pages_apart _ _ _ _ _ _ _ _ Hi Hs Ht) as [->|]; [|lia].
    pose proof (Dll.fa_disj _ _ _ _ _ (si_family _ _ _ _ Hi) _ _ _ Hs Ht) as <-. cbn in Hk'. assert (k' = k) as -> by congruence.
    destruct (slot_disjoint k t p x Hck Hp Hxs) as [|]; [intros ->; done|lia|lia].
Qed.

Lemma slab_user_write m st ls fr p n w v : slab_inv m st ls fr → live st ls fr p n → p ≤ w < p + n →
  slab_inv (wr m w v) st ls fr.
Proof.
  intros Hi Hl Hw. destruct (live_clear _ _ _ _ _ _ w Hi Hl Hw) as [H1 H2]. apply (slab_inv_ext m); [done|..].
  - intros j s x Hs Hx. apply wr_ne. intros ->. by apply (H1 j s).
  - intros j s x Hs Hx. apply wr_ne. by apply (H2 j s).
Qed.

(** Live objects lie in the direct map and are pairwise disjoint. *)
Lemma live_range m st ls fr p n : slab_inv m st ls fr → live st ls fr p n →
  DIRECT_MAP_BASE < p ∧ p + n ≤ DIRECT_MAP_BASE + DIRECT_MAP_SPAN ∧ 8 ≤ n ∧ get m (page_base p) s_magic = SLAB_MAGIC.
Proof.
  intros Hi (i & f & s & k & Hk & Hs & Hp & _ & ->). pose proof (si_cache _ _ _ _ Hi i k Hk) as Hck.
  destruct (si_page _ _ _ _ Hi i f s k Hk Hs) as [Hpo _]. destruct (slot_bound k s p Hck Hp).
  rewrite (page_base_slot k s p Hck (po_addr _ _ _ _ _ Hpo) Hp). destruct (po_addr _ _ _ _ _ Hpo) as [[q Hq] ?].
  split_and!; [lia| |apply Hck|apply Hpo]. unfold DIRECT_MAP_BASE, DIRECT_MAP_SPAN in *. lia.
Qed.

Lemma live_disjoint m st ls fr p n q k : slab_inv m st ls fr → live st ls fr p n → live st ls fr q k → p ≠ q →
  p + n ≤ q ∨ q + k ≤ p.
Proof.
  intros Hi (i & f & s & c & Hc & Hs & Hp & _ & ->) (j & g & t & d & Hd & Ht & Hq & _ & ->) Hne.
  pose proof (si_cache _ _ _ _ Hi i c Hc) as Hcc. pose proof (si_cache _ _ _ _ Hi j d Hd) as Hcd.
  destruct (slot_bound c s p Hcc Hp). destruct (slot_bound d t q Hcd Hq).
  destruct (pages_apart _ _ _ _ _ _ _ _ Hi Hs Ht) as [->|]; [|lia].
  pose proof (Dll.fa_disj _ _ _ _ _ (si_family _ _ _ _ Hi) _ _ _ Hs Ht) as [= <- <-]. assert (d = c) as -> by congruence.
  by apply (slot_disjoint c t).
Qed.

End SlabInv.
