(* ===== verification/SlabSteps.v ===== *)
(** * Slab: list moves, taking and returning slots *)

From S2P Require Import Prelude Bytes Words Dll Heap Kmalloc Slab SlabInv.

Module SlabSteps.
Import Heap Kmalloc Slab SlabInv.

(** ** The code's list operations are those of [Dll] *)

Lemma set_comm {F} `{Fields F} (m : mem) a (f g : F) v w : f ≠ g → set (set m a f v) a g w = set (set m a g w) a f v.
Proof.
  intros Hne. unfold set, wr. apply insert_insert_ne. intros E. apply Hne. apply off_inj. lia.
Qed.

Lemma slab_list_push_eq head s m : slab_list_push head s m = Dll.list_push s_next s_prev head s m.
Proof. unfold slab_list_push, Dll.list_push. by rewrite (set_comm m s s_prev s_next) by done. Qed.

Lemma slab_list_remove_eq head s m :
  (get m s s_prev ≠ 0 → apart (get m s s_prev) s) → slab_list_remove head s m = Dll.list_remove s_next s_prev head s m.
Proof.
  intros Hp. unfold slab_list_remove, Dll.list_remove, Dll.unlinked. cbv zeta.
  destruct (Z.eqb_spec (get m s s_prev) 0) as [E|Hne]; cbn [negb]; [done|].
  by rewrite !(get_set_apart _ (get m s s_prev) s) by (by apply Hp).
Qed.

Lemma family_heads {I} `{EqDecision I} m (h h' : I → Z) ls : (∀ j, h j = h' j) →
  Dll.family s_next s_prev m h ls → Dll.family s_next s_prev m h' ls.
Proof. intros He [Hs ? ? ?]. split; try done. intros i. rewrite <- He. apply Hs. Qed.

(** ** Control blocks *)

Definition set_head (f : bool) (h : Z) (k : slab_cache) : slab_cache := if f then set_full h k else set_partial h k.

Lemma pool_upd i g st j : cache_pool (upd_cache (Z.of_nat i + 1) g st) !! j =
  if decide (j = i) then g <$> (cache_pool st !! i) else cache_pool st !! j.
Proof.
  unfold upd_cache. cbn. replace (Z.to_nat (Z.of_nat i + 1 - 1)) with i by lia.
  destruct (decide (j = i)) as [->|]; [apply list_lookup_alter_eq|by apply list_lookup_alter_ne].
Qed.

Lemma cache_of_idx i k st : cache_pool st !! i = Some k → cache_of (Z.of_nat i + 1) st = k.
Proof. intros Hk. unfold cache_of. replace (Z.to_nat (Z.of_nat i + 1 - 1)) with i by lia. by rewrite Hk. Qed.

Lemma heads_upd i f h st k : cache_pool st !! i = Some k → ∀ j,
  Dll.upd (heads st) (i, f) h j = heads (upd_cache (Z.of_nat i + 1) (set_head f h) st) j.
Proof.
  intros Hk [j g]. unfold heads, Dll.upd. cbn [fst snd]. rewrite pool_upd.
  destruct (decide (j = i)) as [->|Hne].
  - rewrite Hk. cbn. destruct f, g; cbn; try (by rewrite decide_True); by rewrite decide_False.
  - rewrite decide_False by congruence. done.
Qed.

(** ** The invariant without the status of the pages *)

Record pre_inv (m : mem) (st : slab_st) (ls : nat * bool → list Z) (fr : Z → list Z) : Prop := {
  pi_family : Dll.family s_next s_prev m (heads st) ls;
  pi_cache : ∀ i k, cache_pool st !! i = Some k → cache_ok k;
  pi_page : ∀ i f s k, cache_pool st !! i = Some k → s ∈ ls (i, f) → page_ok m (Z.of_nat i + 1) k s (fr s);
  pi_none : ∀ i f, cache_pool st !! i = None → ls (i, f) = [] }.

Lemma inv_pre m st ls fr : slab_inv m st ls fr → pre_inv m st ls fr.
Proof. intros [? ? Hp ? ?]. split; try done. intros. by eapply Hp. Qed.

Definition far (s t : Z) : Prop := 4096 ≤ s - t ∨ 4096 ≤ t - s.

Lemma page_far s t : page_addr s → page_addr t → s = t ∨ far s t.
Proof. intros [[a Ha] _] [[b Hb] _]. unfold far. destruct (Z.lt_trichotomy a b) as [|[->|]]; lia. Qed.

Lemma pre_addr m st ls fr j s : pre_inv m st ls fr → s ∈ ls j → page_addr s.
Proof.
  intros Hi Hs. destruct j as [i f]. destruct (cache_pool st !! i) as [k|] eqn:E.
  - by destruct (pi_page _ _ _ _ Hi i f s k E Hs).
  - rewrite (pi_none _ _ _ _ Hi i f E) in Hs. set_solver.
Qed.

Lemma page_nonzero s : page_addr s → s ≠ 0.
Proof. intros [_ ?]. unfold DIRECT_MAP_BASE in *. lia. Qed.

(** Relinking pages leaves headers and slots alone. *)
Lemma page_relink m m' D c k s l : page_ok m c k s l → cache_ok k → Dll.link_writes s_next s_prev D m m' →
  (∀ t, D t → page_addr t) → page_ok m' c k s l.
Proof.
  intros Hp Hk Hw HD. assert (Hsep : ∀ t, D t → s = t ∨ far s t) by (intros t Ht; apply page_far; [apply Hp|by apply HD]).
  apply (page_ok_ext m); [done|..].
  - intros w H1 H2 H3. apply Hw. intros t Ht. cbn. destruct (Hsep t Ht) as [->|Hf]; [lia|unfold far in Hf; lia].
  - intros x Hx. apply Hw. intros t Ht. cbn. pose proof (po_slots _ _ _ _ _ Hp x Hx) as Hs.
    destruct (slot_bound k s x Hk Hs). pose proof (ca_size k Hk). destruct (Hsep t Ht) as [->|Hf]; [lia|unfold far in Hf; lia].
Qed.

(** Words outside the page headers are not written. *)
Definition hdrs_only (P : Z → Prop) (m m' : mem) : Prop := ∀ w, (∀ s, P s → ¬ s ≤ w < s + 48) → m' !! w = m !! w.

Lemma hdrs_only_refl P m : hdrs_only P m m.
Proof. done. Qed.

Lemma hdrs_only_trans P m1 m2 m3 : hdrs_only P m1 m2 → hdrs_only P m2 m3 → hdrs_only P m1 m3.
Proof. intros H1 H2 w Hw. by rewrite H2, H1. Qed.

Lemma hdrs_only_mono (P Q : Z → Prop) m m' : (∀ s, P s → Q s) → hdrs_only P m m' → hdrs_only Q m m'.
Proof. intros HPQ H w Hw. apply H. auto. Qed.

Lemma hdrs_only_set (P : Z → Prop) m s (f : sfield) v : P s → hdrs_only P m (set m s f v).
Proof. intros Hs w Hw. apply wr_ne. specialize (Hw s Hs). destruct f; cbn; lia. Qed.

Lemma links_hdrs D m m' : Dll.link_writes s_next s_prev D m m' → hdrs_only D m m'.
Proof. intros H w Hw. apply H. intros s Hs. specialize (Hw s Hs). cbn. lia. Qed.

(** ** Moving pages between lists *)

Lemma pre_remove m st ls fr i f k s l1 l2 : pre_inv m st ls fr → cache_pool st !! i = Some k →
  ls (i, f) = l1 ++ s :: l2 →
  let '(m', h) := slab_list_remove (heads st (i, f)) s m in
  pre_inv m' (upd_cache (Z.of_nat i + 1) (set_head f h) st) (Dll.upd ls (i, f) (l1 ++ l2)) fr ∧
  page_ok m' (Z.of_nat i + 1) k s (fr s) ∧ hdrs_only (λ t, t ∈ ls (i, f)) m m'.
Proof.
  intros Hi Hk Hl. assert (Hs : s ∈ ls (i, f)) by (rewrite Hl; set_solver).
  destruct (Dll.family_remove s_next s_prev ltac:(done) m _ ls (i, f) s l1 l2 (pi_family _ _ _ _ Hi) Hl) as (Hf & Hw & Hp & _).
  assert (Hap : get m s s_prev ≠ 0 → apart (get m s s_prev) s).
  { intros [Hin Hne]%Hp. by destruct (Dll.fa_sep _ _ _ _ _ (pi_family _ _ _ _ Hi) _ _ _ _ Hin Hs). }
  rewrite (slab_list_remove_eq _ s m Hap). unfold Dll.list_remove in *. cbn [fst snd] in *.
  set (m' := Dll.unlinked _ _ m s) in *. set (h := if get m s s_prev =? 0 then _ else _) in *.
  assert (HD : ∀ t, t ∈ ls (i, f) → page_addr t) by (intros t; by eapply pre_addr).
  split_and!.
  - split.
    + by eapply family_heads; [eapply heads_upd|].
    + intros j kj. rewrite pool_upd. destruct (decide (j = i)) as [->|]; [|by eapply pi_cache].
      rewrite Hk. intros [= <-]. pose proof (pi_cache _ _ _ _ Hi i k Hk) as [? ? ? ? ?]. destruct f; by split.
    + intros j g t kj Hkj Ht. rewrite pool_upd in Hkj.
      assert (∃ k0, cache_pool st !! j = Some k0 ∧ slots_per_slab kj = slots_per_slab k0 ∧ is_slot kj = is_slot k0) as (k0 & Hk0 & E1 & E2).
      { destruct (decide (j = i)) as [->|]; [|by exists kj]. rewrite Hk in Hkj. injection Hkj as <-. exists k. by destruct f. }
      assert (t ∈ ls (j, g)) as Ht'.
      { apply Dll.elem_upd in Ht as [[[= -> ->] Ht]|[_ ?]]; [|done]. rewrite Hl. set_solver. }
      assert (page_ok m' (Z.of_nat j + 1) k0 t (fr t)) as [? ? ? Hc ? ? Hsl].
      { eapply page_relink; [by eapply pi_page|by eapply pi_cache|exact Hw|done]. }
      split; try done; [by rewrite E1|by rewrite E2].
    + intros j g Hn. rewrite pool_upd in Hn. destruct (decide (j = i)) as [->|Hne]; [by rewrite Hk in Hn|].
      rewrite Dll.upd_ne by congruence. by apply (pi_none _ _ _ _ Hi).
  - eapply page_relink; [by eapply pi_page|by eapply pi_cache|exact Hw|done].
  - by apply links_hdrs.
Qed.

Lemma pre_add m st ls fr i f k s : pre_inv m st ls fr → cache_pool st !! i = Some k →
  page_ok m (Z.of_nat i + 1) k s (fr s) → (∀ j, s ∉ ls j) →
  let '(m', h) := slab_list_push (heads st (i, f)) s m in
  pre_inv m' (upd_cache (Z.of_nat i + 1) (set_head f h) st) (Dll.upd ls (i, f) (s :: ls (i, f))) fr ∧
  hdrs_only (λ t, t = s ∨ t ∈ ls (i, f)) m m'.
Proof.
  intros Hi Hk Hp Hnew. rewrite slab_list_push_eq. pose proof (po_addr _ _ _ _ _ Hp) as Hpa.
  assert (Hfar : ∀ j t, t ∈ ls j → far s t).
  { intros j t Ht. destruct (page_far s t Hpa) as [->|]; [by eapply pre_addr|by destruct (Hnew j)|done]. }
  destruct (Dll.family_push s_next s_prev ltac:(done) m _ ls (i, f) s (pi_family _ _ _ _ Hi)) as [Hf Hw].
  { by apply page_nonzero. }
  { intros j t Ht. specialize (Hfar j t Ht). unfold far, apart in *. lia. }
  unfold Dll.list_push in *. cbn [fst snd] in *. set (m' := if negb _ then _ else _) in *.
  assert (HD : ∀ t, (t = s ∨ t ∈ ls (i, f)) → page_addr t) by (intros t [->|Ht]; [done|by eapply pre_addr]).
  split; [|by apply links_hdrs]. split.
  - by eapply family_heads; [eapply heads_upd|].
  - intros j kj. rewrite pool_upd. destruct (decide (j = i)) as [->|]; [|by eapply pi_cache].
    rewrite Hk. intros [= <-]. pose proof (pi_cache _ _ _ _ Hi i k Hk) as [? ? ? ? ?]. destruct f; by split.
  - intros j g t kj Hkj Ht. rewrite pool_upd in Hkj.
    assert (∃ k0, cache_pool st !! j = Some k0 ∧ slots_per_slab kj = slots_per_slab k0 ∧ is_slot kj = is_slot k0) as (k0 & Hk0 & E1 & E2).
    { destruct (decide (j = i)) as [->|]; [|by exists kj]. rewrite Hk in Hkj. injection Hkj as <-. exists k. by destruct f. }
    assert (page_ok m (Z.of_nat j + 1) k0 t (fr t)) as Hpt.
    { apply Dll.elem_upd in Ht as [[[= -> ->] [->|Ht]%elem_of_cons]|[_ ?]]; [|by eapply pi_page..].
      assert (k0 = k) as -> by congruence. done. }
    assert (page_ok m' (Z.of_nat j + 1) k0 t (fr t)) as [? ? ? Hc ? ? Hsl].
    { eapply page_relink; [done|by eapply pi_cache|exact Hw|done]. }
    split; try done; [by rewrite E1|by rewrite E2].
  - intros j g Hn. rewrite pool_upd in Hn. destruct (decide (j = i)) as [->|Hne]; [by rewrite Hk in Hn|].
    rewrite Dll.upd_ne by congruence. by apply (pi_none _ _ _ _ Hi).
Qed.

(** ** Statistics *)

(** Updates of the statistics keep geometry and list heads. *)
Definition stats_only (g : slab_cache → slab_cache) : Prop := ∀ k,
  obj_size (g k) = obj_size k ∧ align (g k) = align k ∧ slots_per_slab (g k) = slots_per_slab k ∧
  partial (g k) = partial k ∧ full (g k) = full k.

Lemma is_slot_shape k k' s x : obj_size k' = obj_size k → align k' = align k → slots_per_slab k' = slots_per_slab k →
  is_slot k' s x ↔ is_slot k s x.
Proof. intros E1 E2 E3. unfold is_slot, slot, hdr_len. by rewrite E1, E2, E3. Qed.

Lemma pre_stats m st ls fr i g : pre_inv m st ls fr → stats_only g →
  pre_inv m (upd_cache (Z.of_nat i + 1) g st) ls fr.
Proof.
  intros Hi Hg. split.
  - eapply family_heads; [|apply Hi]. intros [j f]. unfold heads. cbn [fst snd]. rewrite pool_upd.
    destruct (decide (j = i)) as [->|]; [|done]. destruct (cache_pool st !! i) as [k|]; [|done]. cbn.
    destruct (Hg k) as (_ & _ & _ & E1 & E2). by rewrite E1, E2.
  - intros j k. rewrite pool_upd. destruct (decide (j = i)) as [->|]; [|by eapply pi_cache].
    destruct (cache_pool st !! i) as [k0|] eqn:E; [|done]. intros [= <-]. destruct (Hg k0) as (E1 & E2 & E3 & _).
    destruct (pi_cache _ _ _ _ Hi i k0 E) as [? ? ? ? Hf]. split; unfold hdr_len in *; by rewrite ?E1, ?E2, ?E3.
  - intros j f s k Hk Hs. rewrite pool_upd in Hk. destruct (decide (j = i)) as [->|]; [|by eapply pi_page].
    destruct (cache_pool st !! i) as [k0|] eqn:E; [|done]. injection Hk as <-. destruct (Hg k0) as (E1 & E2 & E3 & _).
    destruct (pi_page _ _ _ _ Hi i f s k0 E Hs) as [? ? ? Hc ? ? Hsl]. split; try done; [by rewrite E3|].
    intros x Hx. apply (is_slot_shape k0); auto.
  - intros j f Hn. rewrite pool_upd in Hn. destruct (decide (j = i)) as [->|]; [|by apply Hi].
    apply Hi. by destruct (cache_pool st !! i).
Qed.

(** ** Taking and returning a slot *)

Definition upd_free (fr : Z → list Z) (s : Z) (l : list Z) : Z → list Z := λ t, if t =? s then l else fr t.

Lemma upd_free_eq fr s l : upd_free fr s l s = l.
Proof. unfold upd_free. by rewrite Z.eqb_refl. Qed.

Lemma upd_free_ne fr s l t : t ≠ s → upd_free fr s l t = fr t.
Proof. intros Hne%Z.eqb_neq. unfold upd_free. by rewrite Hne. Qed.

(** The words a page writes for itself: header and, when [x] is given, a slot. *)
Lemma page_other m m' c k t l s (W : Z → Prop) : page_ok m c k t l → cache_ok k → far t s →
  (∀ w, ¬ W w → m' !! w = m !! w) → (∀ w, W w → s ≤ w < s + 4096) → page_ok m' c k t l.
Proof.
  intros Hp Hk Hf Hw HW. apply (page_ok_ext m); [done|..].
  - intros w H1 _ _. apply Hw. intros ?%HW. unfold far in Hf. lia.
  - intros x Hx. apply Hw. intros ?%HW. pose proof (po_slots _ _ _ _ _ Hp x Hx) as Hs.
    destruct (slot_bound k t x Hk Hs). pose proof (ca_size k Hk). unfold far in Hf. lia.
Qed.

(** A change confined to one page that keeps its links. *)
Lemma pre_local m m' st ls fr i f k s l : pre_inv m st ls fr → cache_pool st !! i = Some k → s ∈ ls (i, f) →
  (∀ w, ¬ s ≤ w < s + 4096 → m' !! w = m !! w) →
  get m' s s_next = get m s s_next → get m' s s_prev = get m s s_prev →
  page_ok m' (Z.of_nat i + 1) k s l → pre_inv m' st ls (upd_free fr s l).
Proof.
  intros Hi Hk Hs Hw Hn Hp Hpo.
  assert (Hfar : ∀ j t, t ∈ ls j → t = s ∨ far t s).
  { intros j t Ht. apply page_far; by eapply pre_addr. }
  split; try apply Hi.
  - apply (Dll.family_ext s_next s_prev m); [|apply Hi]. intros j t Ht. destruct (Hfar j t Ht) as [->|Hf]; [done|].
    unfold get, rd. unfold far in Hf. rewrite !Hw; [done|..]; cbn; lia.
  - intros j g t k' Hk' Ht. destruct (decide (t = s)) as [->|Hne].
    + pose proof (Dll.fa_disj _ _ _ _ _ (pi_family _ _ _ _ Hi) _ _ _ Hs Ht) as [= <- <-].
      assert (k' = k) as -> by congruence. by rewrite upd_free_eq.
    + rewrite upd_free_ne by done. destruct (Hfar (j, g) t Ht) as [|Hf]; [done|].
      eapply (page_other m m' _ _ _ _ s (λ w, s ≤ w < s + 4096)); [by eapply pi_page|by eapply pi_cache|done|done|done].
Qed.

Lemma set_counts_get m s v : 0 ≤ v < 2 ^ 32 → get (set_free_count m s v) s s_counts = v + total_slots m s * 2 ^ 32.
Proof. intros Hv. unfold set_free_count. rewrite get_set_eq. by rewrite u32_small. Qed.

Lemma set_counts_other m s v f : f ≠ s_counts → get (set_free_count m s v) s f = get m s f.
Proof. intros Hf. unfold set_free_count. by rewrite get_set_field by congruence. Qed.

(** Popping the head of a page's free list. *)
Definition popped (s obj : Z) (m : mem) : mem :=
  let m := set m s s_free_list (rd m obj) in
  set_free_count m s (free_count m s - 1).

Lemma popped_hdr s obj m : hdrs_only (λ t, t = s) m (popped s obj m).
Proof. eapply hdrs_only_trans; by apply hdrs_only_set. Qed.

Lemma pre_pop m st ls fr i f k s obj rest : pre_inv m st ls fr → cache_pool st !! i = Some k → s ∈ ls (i, f) →
  fr s = obj :: rest → pre_inv (popped s obj m) st ls (upd_free fr s rest) ∧
  free_count (popped s obj m) s = Z.of_nat (length rest).
Proof.
  intros Hi Hk Hs Hfr. pose proof (pi_page _ _ _ _ Hi i f s k Hk Hs) as Hp. pose proof (pi_cache _ _ _ _ Hi i k Hk) as Hck.
  rewrite Hfr in Hp. destruct (page_counts _ _ _ _ _ Hck Hp) as (Hc & Ht & Hle). cbn in Hc, Hle.
  pose proof (po_chain _ _ _ _ _ Hp) as (Hobj & Hnz & Hch).
  set (m1 := set m s s_free_list (rd m obj)).
  assert (Hc1 : free_count m1 s = Z.of_nat (length rest) + 1).
  { unfold free_count, m1. rewrite get_set_field by done. fold (free_count m s). lia. }
  assert (Ht1 : total_slots m1 s = slots_per_slab k).
  { unfold total_slots, m1. by rewrite get_set_field. }
  assert (Hpo : page_ok (popped s obj m) (Z.of_nat i + 1) k s rest).
  { unfold popped. fold m1. replace (free_count m1 s - 1) with (Z.of_nat (length rest)) by lia. split.
    - apply Hp.
    - rewrite set_counts_other by done. unfold m1. rewrite get_set_field by done. apply Hp.
    - rewrite set_counts_other by done. unfold m1. rewrite get_set_field by done. apply Hp.
    - rewrite set_counts_get by lia. by rewrite Ht1.
    - rewrite set_counts_other by done. unfold m1. rewrite get_set_eq. eapply slot_chain_ext; [|exact Hch].
      intros x Hx. assert (is_slot k s x) as Hsx by (apply (po_slots _ _ _ _ _ Hp); by right).
      destruct (slot_bound k s x Hck Hsx). unfold set_free_count, set. rewrite !wr_ne; [done|cbn; lia..].
    - pose proof (po_nodup _ _ _ _ _ Hp) as Hnd. by apply NoDup_cons in Hnd as [_ ?].
    - intros x Hx. apply (po_slots _ _ _ _ _ Hp). by right. }
  split; [|by destruct (page_counts _ _ _ _ _ Hck Hpo)].
  eapply (pre_local m); [done|done|exact Hs| | | |done].
  - intros w Hw. apply popped_hdr. intros t ->. lia.
  - unfold popped. fold m1. rewrite set_counts_other by done. unfold m1. by rewrite get_set_field.
  - unfold popped. fold m1. rewrite set_counts_other by done. unfold m1. by rewrite get_set_field.
Qed.

(** Pushing a slot back. *)
Definition pushed (s obj : Z) (m : mem) : mem :=
  let m := wr m obj (get m s s_free_list) in
  let m := set m s s_free_list obj in
  set_free_count m s (free_count m s + 1).

Lemma pushed_writes s obj m w : ¬ s ≤ w < s + 48 → w ≠ obj → pushed s obj m !! w = m !! w.
Proof.
  intros Hw Hne. unfold pushed, set_free_count, set. rewrite !wr_ne; [done|cbn; lia..].
Qed.

Lemma pre_push m st ls fr i f k s obj : pre_inv m st ls fr → cache_pool st !! i = Some k → s ∈ ls (i, f) →
  is_slot k s obj → obj ∉ fr s → pre_inv (pushed s obj m) st ls (upd_free fr s (obj :: fr s)) ∧
  free_count (pushed s obj m) s = Z.of_nat (length (fr s)) + 1 ∧ total_slots (pushed s obj m) s = slots_per_slab k.
Proof.
  intros Hi Hk Hs Hsl Hni. pose proof (pi_page _ _ _ _ Hi i f s k Hk Hs) as Hp. pose proof (pi_cache _ _ _ _ Hi i k Hk) as Hck.
  destruct (page_counts _ _ _ _ _ Hck Hp) as (Hc & Ht & Hle). destruct (slot_bound k s obj Hck Hsl) as [Ho1 Ho2].
  pose proof (ca_size k Hck). set (m0 := wr m obj (get m s s_free_list)). set (m1 := set m0 s s_free_list obj).
  assert (H0 : ∀ g : sfield, get m0 s g = get m s g) by (intros g; apply rd_wr_ne; destruct g; cbn; lia).
  assert (H1 : ∀ g : sfield, g ≠ s_free_list → get m1 s g = get m s g).
  { intros g Hg. unfold m1. rewrite get_set_field by congruence. apply H0. }
  assert (Hc1 : free_count m1 s = Z.of_nat (length (fr s))) by (unfold free_count; rewrite H1 by done; exact Hc).
  assert (Ht1 : total_slots m1 s = slots_per_slab k) by (unfold total_slots; rewrite H1 by done; exact Ht).
  assert (Hpo : page_ok (pushed s obj m) (Z.of_nat i + 1) k s (obj :: fr s)).
  { unfold pushed. fold m0 m1. rewrite Hc1. split.
    - apply Hp.
    - rewrite set_counts_other, H1 by done. apply Hp.
    - rewrite set_counts_other, H1 by done. apply Hp.
    - rewrite set_counts_get by lia. rewrite Ht1. cbn [length]. lia.
    - rewrite set_counts_other by done. replace (get m1 s s_free_list) with obj by (symmetry; apply get_set_eq).
      split_and!; [done|destruct (po_addr _ _ _ _ _ Hp) as [_ ?]; unfold DIRECT_MAP_BASE in *; lia|].
      assert (rd (set_free_count m1 s (Z.of_nat (length (fr s)) + 1)) obj = get m s s_free_list) as ->.
      { unfold set_free_count, set, m1, set. rewrite !rd_wr_ne by (cbn; lia). unfold m0. apply rd_wr_eq. }
      eapply slot_chain_ext; [|apply Hp]. intros x Hx. pose proof (po_slots _ _ _ _ _ Hp x Hx) as Hsx.
      destruct (slot_bound k s x Hck Hsx). unfold set_free_count, m1, set, m0. rewrite !wr_ne; [done|..]; try (cbn; lia).
      intros ->. done.
    - apply NoDup_cons. split; [done|apply Hp].
    - intros x [->|Hx]%elem_of_cons; [done|by apply Hp]. }
  destruct (page_counts _ _ _ _ _ Hck Hpo) as (Hcn & Htn & _). split; [|split; [rewrite Hcn; cbn [length]; lia|done]].
  eapply (pre_local m); [done|done|exact Hs| | | |done].
  - intros w Hw. apply pushed_writes; lia.
  - unfold pushed. fold m0 m1. by rewrite set_counts_other, H1.
  - unfold pushed. fold m0 m1. by rewrite set_counts_other, H1.
Qed.

End SlabSteps.
