(* ===== verification/SlabGrow.v ===== *)
(** * Slab: creating caches and carving pages *)

From S2P Require Import Prelude Bytes Words Dll Heap Kmalloc Slab SlabInv SlabSteps.

Module SlabGrow.
Import Heap Kmalloc Slab SlabInv SlabSteps.

(** ** Rounding *)

Lemma round_up_pow2 v e : 0 ≤ e ≤ 12 → 0 ≤ v → v + 2 ^ e < 2 ^ 64 → round_up v (2 ^ e) = (v + 2 ^ e - 1) / 2 ^ e * 2 ^ e.
Proof.
  intros He Hv Hb. unfold round_up. assert (0 < 2 ^ e) by (apply Z.pow_pos_nonneg; lia).
  rewrite u64_small by lia. replace (v + (2 ^ e - 1)) with (v + 2 ^ e - 1) by lia. apply land_not_ones; lia.
Qed.

Lemma round_up_slot k s : cache_ok k → page_addr s → round_up (u64 (s + 48)) (align k) = s + hdr_len k.
Proof.
  intros Hk [Hd Hr]. destruct (hdr_len_bound k Hk) as (_ & _ & Ha & [q Hq]). destruct (ca_align k Hk) as (e & He & Hr').
  unfold DIRECT_MAP_BASE, DIRECT_MAP_SPAN in *. rewrite u64_small by lia. rewrite He, round_up_pow2, <- He by (rewrite <- ?He; lia).
  unfold hdr_len. destruct Hd as [p Hp].
  replace (s + 48 + align k - 1) with (48 + align k - 1 + p * q * align k) by nia. rewrite Z.div_add by lia. nia.
Qed.

(** ** Carving *)

(** The slots threaded so far, the last one first. *)
Fixpoint threaded (k : slab_cache) (s : Z) (n : nat) : list Z :=
  match n with
  | O => []
  | S n => slot k s (Z.of_nat n) :: threaded k s n
  end.

Lemma elem_threaded k s n x : x ∈ threaded k s n ↔ ∃ i, 0 ≤ i < Z.of_nat n ∧ x = slot k s i.
Proof.
  induction n as [|n IH]; cbn [threaded].
  - split; [set_solver|]. intros (i & ? & _). lia.
  - rewrite elem_of_cons, IH. split.
    + intros [->|(i & ? & ->)]; [exists (Z.of_nat n); split; [lia|done]|exists i; split; [lia|done]].
    + intros (i & Hi & ->). destruct (decide (i = Z.of_nat n)) as [->|]; [by left|right]. exists i. split; [lia|done].
Qed.

Lemma threaded_NoDup k s n : 0 < obj_size k → NoDup (threaded k s n).
Proof.
  intros Ho. induction n as [|n IH]; cbn [threaded]; [constructor|]. apply NoDup_cons. split; [|done].
  rewrite elem_threaded. intros (i & Hi & E). unfold slot in E. nia.
Qed.

Lemma length_threaded k s n : length (threaded k s n) = n.
Proof. induction n; cbn; lia. Qed.

(** One more slot on the list of the fresh page. *)
Lemma thread_slot_ok m k s i l : cache_ok k → page_addr s → 0 ≤ i < slots_per_slab k →
  l = threaded k s (Z.to_nat i) → slot_chain m (get m s s_free_list) l →
  let m' := thread_slot s (s + hdr_len k) (obj_size k) i m in
  slot_chain m' (get m' s s_free_list) (threaded k s (Z.to_nat (i + 1))) ∧
  (∀ f : sfield, f ≠ s_free_list → get m' s f = get m s f) ∧ (∀ w, ¬ s ≤ w < s + 4096 → m' !! w = m !! w).
Proof.
  intros Hk Hs Hi -> Hc. assert (Hsl : is_slot k s (slot k s i)) by (by exists i).
  destruct (slot_bound k s _ Hk Hsl) as [H1 H2]. pose proof (ca_size k Hk). destruct Hs as [_ Hr].
  unfold thread_slot. replace (s + hdr_len k + i * obj_size k) with (slot k s i) by done.
  unfold DIRECT_MAP_BASE, DIRECT_MAP_SPAN in *. rewrite u64_small by lia. set (x := slot k s i) in *. cbv zeta.
  set (m0 := wr m x (get m s s_free_list)).
  assert (H0 : ∀ g : sfield, get m0 s g = get m s g) by (intros g; apply rd_wr_ne; destruct g; cbn; lia).
  split_and!.
  - rewrite get_set_eq. replace (Z.to_nat (i + 1)) with (S (Z.to_nat i)) by lia. cbn [threaded slot_chain].
    rewrite Z2Nat.id by lia. fold x. split_and!; [done|lia|].
    assert (rd (set m0 s s_free_list x) x = get m s s_free_list) as ->.
    { unfold set. rewrite rd_wr_ne by (cbn; lia). apply rd_wr_eq. }
    eapply slot_chain_ext; [|exact Hc]. intros y (j & Hj & ->)%elem_threaded.
    assert (is_slot k s (slot k s j)) as Hy by (exists j; split; [lia|done]). destruct (slot_bound k s _ Hk Hy).
    unfold set, m0. rewrite !wr_ne; [done|unfold x, slot; nia|cbn; lia].
  - intros f Hf. rewrite get_set_field by congruence. apply H0.
  - intros w Hw. unfold set, m0. rewrite !wr_ne; [done|lia|cbn; lia].
Qed.

(** The fresh page before its slots are threaded. *)
Definition new_page (c s n : Z) (m : mem) : mem :=
  set_free_count (set_total_slots (set (set (set (set (set m s s_magic SLAB_MAGIC) s s_cache c) s s_next 0) s s_prev 0)
    s s_free_list 0) s n) s n.

Lemma new_page_get c s n m : 0 ≤ n < 2 ^ 32 →
  get (new_page c s n m) s s_magic = SLAB_MAGIC ∧ get (new_page c s n m) s s_cache = c ∧
  get (new_page c s n m) s s_free_list = 0 ∧ get (new_page c s n m) s s_counts = n + n * 2 ^ 32.
Proof.
  intros Hn. unfold new_page, set_free_count, set_total_slots, total_slots. set (m1 := set (set (set (set (set m _ _ _) _ _ _) _ _ _) _ _ _) _ _ _).
  rewrite !get_set_eq, !get_set_field by done. split_and!.
  - unfold m1. by rewrite !get_set_field, get_set_eq by done.
  - unfold m1. by rewrite !get_set_field, get_set_eq by done.
  - unfold m1. by rewrite get_set_eq.
  - unfold free_count. pose proof (u32_range (get m1 s s_counts)). rewrite (u32_small n) by lia.
    rewrite Z.div_add by lia. rewrite (Z.div_small (u32 _)) by lia. lia.
Qed.

Lemma new_page_hdr c s n m : hdrs_only (λ t, t = s) m (new_page c s n m).
Proof.
  unfold new_page, set_free_count, set_total_slots. repeat (eapply hdrs_only_trans; [|by apply hdrs_only_set]). done.
Qed.

Definition carved (c s : Z) (k : slab_cache) (m : mem) : mem :=
  (for i < slots_per_slab k from new_page c s (slots_per_slab k) m do
     λ m, thread_slot s (s + hdr_len k) (obj_size k) i m)%K.

Lemma carved_ok c s k m : cache_ok k → page_addr s →
  page_ok (carved c s k m) c k s (threaded k s (Z.to_nat (slots_per_slab k))) ∧
  (∀ w, ¬ s ≤ w < s + 4096 → carved c s k m !! w = m !! w).
Proof.
  intros Hk Hs. pose proof (ca_slots k Hk) as Hn. pose proof (ca_size k Hk). pose proof (ca_fit k Hk).
  destruct (hdr_len_bound k Hk) as (? & _). assert (slots_per_slab k ≤ 512) by nia.
  set (m0 := new_page c s (slots_per_slab k) m). destruct (new_page_get c s (slots_per_slab k) m ltac:(lia)) as (G1 & G2 & G3 & G4).
  fold m0 in G1, G2, G3, G4.
  assert (P : slot_chain (carved c s k m) (get (carved c s k m) s s_free_list) (threaded k s (Z.to_nat (slots_per_slab k))) ∧
    (∀ f : sfield, f ≠ s_free_list → get (carved c s k m) s f = get m0 s f) ∧
    (∀ w, ¬ s ≤ w < s + 4096 → carved c s k m !! w = m0 !! w)).
  { unfold carved. fold m0. apply (for_ind (λ j m', slot_chain m' (get m' s s_free_list) (threaded k s (Z.to_nat j)) ∧
      (∀ f : sfield, f ≠ s_free_list → get m' s f = get m0 s f) ∧ (∀ w, ¬ s ≤ w < s + 4096 → m' !! w = m0 !! w)));
      [lia|split_and!; [cbn; by rewrite G3|done..]|].
    intros j m' Hj (I1 & I2 & I3). destruct (thread_slot_ok m' k s j _ Hk Hs ltac:(lia) eq_refl I1) as (J1 & J2 & J3).
    split_and!; [done|intros f Hf; by rewrite J2, I2|intros w Hw; by rewrite J3, I3]. }
  destruct P as (P1 & P2 & P3). split.
  - split; [done|by rewrite P2|by rewrite P2| |done| |].
    + rewrite P2, G4 by done. rewrite length_threaded. lia.
    + apply threaded_NoDup. lia.
    + intros x (i & Hi & ->)%elem_threaded. exists i. split; [lia|done].
  - intros w Hw. rewrite P3 by done. apply new_page_hdr. intros t ->. lia.
Qed.

End SlabGrow.
