(* ===== verification/SlabOps.v ===== *)
(** * Slab: allocating and freeing objects *)

From S2P Require Import Prelude Bytes Words Dll Heap Kmalloc Slab SlabInv SlabSteps SlabGrow.

Module SlabOps.
Import Heap Kmalloc Slab SlabInv SlabSteps SlabGrow.

(** ** The invariant in three parts *)

Definition status (ls : nat * bool → list Z) (fr : Z → list Z) : Prop :=
  ∀ i f s, s ∈ ls (i, f) → (f = true ↔ fr s = []).

(** Objects in use on the pages [l] of cache [k]. *)
Definition used_slots (k : slab_cache) (fr : Z → list Z) (l : list Z) : Z :=
  zsum (λ s, slots_per_slab k - Z.of_nat (length (fr s))) l.

Definition counted (k : slab_cache) (fr : Z → list Z) (l : list Z) : Prop :=
  objs_in_use k = u64 (used_slots k fr l) ∧ total_slabs k = u64 (Z.of_nat (length l)).

Definition uses (st : slab_st) (ls : nat * bool → list Z) (fr : Z → list Z) : Prop :=
  ∀ i k, cache_pool st !! i = Some k → counted k fr (pages_of ls i).

Lemma slab_inv_parts m st ls fr : slab_inv m st ls fr ↔ pre_inv m st ls fr ∧ status ls fr ∧ uses st ls fr.
Proof.
  split.
  - intros Hi. split_and!; [by apply inv_pre| |intros i k Hk; apply (si_use _ _ _ _ Hi i k Hk)].
    intros i f s Hs. destruct (inv_cache _ _ _ _ _ _ Hi Hs) as (k & _ & _ & ? & _). done.
  - intros ([? ? Hp ?] & Hs & Hu). split; try done. intros i f s k Hk Hin. split; [by eapply Hp|by eapply Hs].
Qed.

Lemma counted_perm k fr l l' : l ≡ₚ l' → counted k fr l → counted k fr l'.
Proof.
  intros Hp [H1 H2]. split; [rewrite H1; unfold used_slots; by rewrite (zsum_perm _ _ _ Hp)|].
  by rewrite H2, (Permutation_length Hp).
Qed.

Lemma used_slots_ext k k' fr fr' l : slots_per_slab k' = slots_per_slab k → (∀ s, s ∈ l → fr' s = fr s) →
  used_slots k' fr' l = used_slots k fr l.
Proof. intros E H. apply zsum_ext. intros s Hs. by rewrite H, E. Qed.

(** A control block with the same geometry. *)
Definition shape (k : slab_cache) : Z * Z * Z := (obj_size k, align k, slots_per_slab k).

(** Only cache [i] changes, from [k] to [k']. *)
Definition pool_to (i : nat) (k' : slab_cache) (st st' : slab_st) : Prop :=
  ∀ j, cache_pool st' !! j = if decide (j = i) then Some k' else cache_pool st !! j.

Lemma pool_to_upd i g k st : cache_pool st !! i = Some k → pool_to i (g k) st (upd_cache (Z.of_nat i + 1) g st).
Proof. intros Hk j. rewrite pool_upd. destruct (decide (j = i)); [by rewrite Hk|done]. Qed.

Lemma pool_to_trans i k1 k2 st1 st2 st3 : pool_to i k1 st1 st2 → pool_to i k2 st2 st3 → pool_to i k2 st1 st3.
Proof. intros H1 H2 j. rewrite H2. destruct (decide (j = i)) eqn:E; [done|]. by rewrite H1, E. Qed.

Lemma pool_to_at i k st st' : pool_to i k st st' → cache_pool st' !! i = Some k.
Proof. intros H. by rewrite H, decide_True. Qed.

Lemma pool_to_step i g k st st' : pool_to i k st st' → pool_to i (g k) st (upd_cache (Z.of_nat i + 1) g st').
Proof. intros H. eapply pool_to_trans; [done|]. apply pool_to_upd. by eapply pool_to_at. Qed.

(** The other caches keep their counts. *)
Lemma uses_to i k k' st st' ls ls' fr fr' : uses st ls fr → cache_pool st !! i = Some k → pool_to i k' st st' →
  (∀ j, j ≠ i → pages_of ls' j = pages_of ls j) → (∀ j s, j ≠ i → s ∈ pages_of ls j → fr' s = fr s) →
  counted k' fr' (pages_of ls' i) → uses st' ls' fr'.
Proof.
  intros Hu Hk Hto Hpg Hfr Hc j kj Hj. rewrite Hto in Hj. destruct (decide (j = i)) as [->|Hne]; [by injection Hj as <-|].
  destruct (Hu j kj Hj) as [H1 H2]. rewrite Hpg by done. split; [|done]. rewrite H1. f_equal. symmetry.
  apply used_slots_ext; [done|]. intros s Hs. by apply (Hfr j).
Qed.

Lemma elem_pages ls i s : s ∈ pages_of ls i ↔ ∃ f, s ∈ ls (i, f).
Proof.
  unfold pages_of. rewrite elem_of_app. split; [intros [|]; by eexists|]. intros [[] ?]; auto.
Qed.

Lemma pages_upd_ne ls i f l j : j ≠ i → pages_of (Dll.upd ls (i, f) l) j = pages_of ls j.
Proof. intros Hne. unfold pages_of. by rewrite !Dll.upd_ne by congruence. Qed.

Lemma pages_upd_partial ls i l : pages_of (Dll.upd ls (i, false) l) i = l ++ ls (i, true).
Proof. unfold pages_of. by rewrite Dll.upd_eq, Dll.upd_ne. Qed.

Lemma pages_upd_full ls i l : pages_of (Dll.upd ls (i, true) l) i = ls (i, false) ++ l.
Proof. unfold pages_of. by rewrite Dll.upd_eq, Dll.upd_ne. Qed.

(** Pages of different caches, and of the two lists of one, differ. *)
Lemma pages_disj m st ls fr i j s : pre_inv m st ls fr → s ∈ pages_of ls i → s ∈ pages_of ls j → i = j.
Proof.
  rewrite !elem_pages. intros Hi [f Hf] [g Hg].
  by pose proof (Dll.fa_disj _ _ _ _ _ (pi_family _ _ _ _ Hi) _ _ _ Hf Hg) as [= ->].
Qed.

Lemma pages_NoDup m st ls fr i : pre_inv m st ls fr → NoDup (pages_of ls i).
Proof.
  intros Hi. apply NoDup_app. split_and!; [apply (pi_family _ _ _ _ Hi)| |apply (pi_family _ _ _ _ Hi)].
  intros s H1 H2. by pose proof (Dll.fa_disj _ _ _ _ _ (pi_family _ _ _ _ Hi) _ _ _ H1 H2).
Qed.

(** Replacing the free list of one page of the list. *)
Lemma used_slots_upd k fr s l pg : NoDup pg → s ∈ pg →
  used_slots k (upd_free fr s l) pg = used_slots k fr pg + Z.of_nat (length (fr s)) - Z.of_nat (length l).
Proof.
  intros Hnd [l1 [l2 ->]]%list_elem_of_split. apply NoDup_app in Hnd as (_ & H1 & [H2 _]%NoDup_cons).
  unfold used_slots. rewrite !zsum_app, !zsum_cons, upd_free_eq.
  rewrite (zsum_ext _ (λ s, slots_per_slab k - Z.of_nat (length (fr s))) l1).
  2: { intros x Hx. rewrite upd_free_ne; [done|]. intros ->. apply (H1 s Hx). by left. }
  rewrite (zsum_ext (λ s0, _ - Z.of_nat (length (upd_free _ _ _ s0))) (λ s, slots_per_slab k - Z.of_nat (length (fr s))) l2); [lia|].
  intros x Hx. rewrite upd_free_ne; [done|]. intros ->. done.
Qed.

(** ** Growing *)

Lemma u64_add a b : u64 (u64 a + b) = u64 (a + b).
Proof. unfold u64. by rewrite Zplus_mod_idemp_l. Qed.

(** [w] lies outside every page of the lists. *)
Definition off_pages (ls : nat * bool → list Z) (w : Z) : Prop := ∀ j s, s ∈ ls j → ¬ s ≤ w < s + 4096.

Definition fresh (ls : nat * bool → list Z) (page : Z) : Prop :=
  page_addr (DIRECT_MAP_BASE + page) ∧ ∀ j, DIRECT_MAP_BASE + page ∉ ls j.

(** A fresh page joins the partial list with all of its slots free. *)
Lemma carve_pre m st ls fr c k s : pre_inv m st ls fr → cache_ok k → page_addr s → (∀ j, s ∉ ls j) →
  pre_inv (carved c s k m) st ls (upd_free fr s (threaded k s (Z.to_nat (slots_per_slab k)))).
Proof.
  intros Hi Hk Hs Hnew. destruct (carved_ok c s k m Hk Hs) as [_ Hw].
  assert (Hfar : ∀ j t, t ∈ ls j → t ≠ s ∧ far t s).
  { intros j t Ht. destruct (page_far t s) as [->|]; [by eapply pre_addr|done|by destruct (Hnew j)|].
    split; [intros ->; by apply (Hnew j)|done]. }
  split; try apply Hi.
  - apply (Dll.family_ext s_next s_prev m); [|apply Hi]. intros j t Ht. destruct (Hfar j t Ht) as [_ Hf].
    unfold get, rd. unfold far in Hf. rewrite !Hw; [done|..]; cbn; lia.
  - intros j g t k' Hk' Ht. destruct (Hfar _ t Ht) as [Hne Hf]. rewrite upd_free_ne by done.
    eapply (page_other m _ _ _ _ _ s (λ w, s ≤ w < s + 4096)); [by eapply pi_page|by eapply pi_cache|done|done|done].
Qed.

Lemma slab_grow_eq i page pages m st k : cache_pool st !! i = Some k → cache_ok k → page ≠ 0 →
  page_addr (DIRECT_MAP_BASE + page) →
  slab_grow (Z.of_nat i + 1) (page :: pages) m st =
  (let s := DIRECT_MAP_BASE + page in
   let '(m, head) := slab_list_push (partial k) s (carved (Z.of_nat i + 1) s k m) in
   (m, upd_cache (Z.of_nat i + 1) (λ k, set_slabs (u64 (total_slabs k + 1)) k)
         (upd_cache (Z.of_nat i + 1) (set_partial head) st), s, pages)).
Proof.
  intros Hk Hok Hp Hs. unfold slab_grow. rewrite (proj2 (Z.eqb_neq page 0) Hp), (cache_of_idx i k st Hk).
  assert (u64 (DIRECT_MAP_BASE + page) = DIRECT_MAP_BASE + page) as ->.
  { apply u64_small. destruct Hs as [_ ?]. unfold DIRECT_MAP_BASE, DIRECT_MAP_SPAN in *. lia. }
  cbv zeta. unfold sizeof_slab. rewrite (round_up_slot k _ Hok Hs). done.
Qed.

Lemma slab_grow_spec m st ls fr i k page pages : slab_inv m st ls fr → cache_pool st !! i = Some k → page ≠ 0 →
  fresh ls page →
  let s := DIRECT_MAP_BASE + page in
  let '(m', st', s', pages') := slab_grow (Z.of_nat i + 1) (page :: pages) m st in
  s' = s ∧ pages' = pages ∧
  slab_inv m' st' (Dll.upd ls (i, false) (s :: ls (i, false)))
    (upd_free fr s (threaded k s (Z.to_nat (slots_per_slab k)))) ∧
  (∃ k', pool_to i k' st st' ∧ shape k' = shape k) ∧ released st' = released st ∧
  (∀ w, ¬ s ≤ w < s + 4096 → (∀ j t, t ∈ ls j → ¬ t ≤ w < t + 48) → m' !! w = m !! w).
Proof.
  intros Hi Hk Hp [Hs Hnew] s. pose proof (si_cache _ _ _ _ Hi i k Hk) as Hok. apply slab_inv_parts in Hi as (Hpre & Hst & Hu).
  rewrite (slab_grow_eq i page pages m st k Hk Hok Hp Hs). fold s. cbv zeta.
  destruct (carved_ok (Z.of_nat i + 1) s k m Hok Hs) as [Hpo Hw].
  pose proof (carve_pre m st ls fr (Z.of_nat i + 1) k s Hpre Hok Hs Hnew) as Hpre1.
  set (m1 := carved _ _ _ _) in *. set (free := threaded _ _ _) in *. set (fr' := upd_free fr s free) in *.
  assert (fr' s = free) as Efr by apply upd_free_eq.
  pose proof (pre_add m1 st ls fr' i false k s Hpre1 Hk ltac:(by rewrite Efr) Hnew) as Ha.
  assert (heads st (i, false) = partial k) as Eh by (unfold heads; cbn; by rewrite Hk). rewrite Eh in Ha.
  destruct (slab_list_push (partial k) s m1) as [m2 h] eqn:Epush. destruct Ha as [Hpre2 Hh].
  set (st1 := upd_cache _ (set_partial h) st) in *. change (set_head false h) with (set_partial h) in Hpre2. fold st1 in Hpre2.
  assert (Hto : pool_to i (set_slabs (u64 (total_slabs k + 1)) (set_partial h k)) st
    (upd_cache (Z.of_nat i + 1) (λ k, set_slabs (u64 (total_slabs k + 1)) k) st1)).
  { apply (pool_to_step i (λ k, set_slabs (u64 (total_slabs k + 1)) k) (set_partial h k)). by apply pool_to_upd. }
  set (st2 := upd_cache _ _ st1) in *. split_and!; try done.
  - apply slab_inv_parts. split_and!; [by apply pre_stats| |].
    + intros j f t [[[= -> ->] [->|Ht]%elem_of_cons]|[_ Ht]]%Dll.elem_upd.
      * rewrite Efr. split; [done|]. intros E. pose proof (length_threaded k s (Z.to_nat (slots_per_slab k))) as Hl.
        fold free in Hl. rewrite E in Hl. cbn in Hl. pose proof (ca_slots k Hok). lia.
      * unfold fr'. rewrite upd_free_ne by (intros ->; by apply (Hnew (i, false))). exact (Hst _ _ _ Ht).
      * unfold fr'. rewrite upd_free_ne by (intros ->; by apply (Hnew (j, f))). exact (Hst _ _ _ Ht).
    + eapply (uses_to i k); [done..| | |]; [intros j ?; by apply pages_upd_ne| |].
      { intros j t Hj [f Ht]%elem_pages. unfold fr'. apply upd_free_ne. intros ->. by apply (Hnew (j, f)). }
      destruct (Hu i k Hk) as [H1 H2]. rewrite pages_upd_partial. change ((s :: ls (i, false)) ++ ls (i, true)) with (s :: pages_of ls i). split; cbn [objs_in_use total_slabs set_slabs set_partial].
      * rewrite H1. f_equal. unfold used_slots. cbn [slots_per_slab set_slabs set_partial]. rewrite zsum_cons, Efr. unfold free.
        rewrite length_threaded. pose proof (ca_slots k Hok). rewrite Z2Nat.id by lia.
        rewrite (zsum_ext (λ s0, _ - Z.of_nat (length (fr' s0))) (λ s, slots_per_slab k - Z.of_nat (length (fr s)))); [lia|].
        intros t [f Ht]%elem_pages. unfold fr'. rewrite upd_free_ne; [done|]. intros ->. by apply (Hnew (i, f)).
      * rewrite H2, u64_add. f_equal. cbn [length]. lia.
  - eexists. split; [exact Hto|done].
  - intros w H1 H2. rewrite Hh, Hw; [done|lia|]. intros t [->|Ht]; [lia|by apply (H2 (i, false))].
Qed.

(** ** Taking a slot *)

Lemma corrupt_false m st ls fr i s : slab_inv m st ls fr → s ∈ ls (i, false) → corrupt s (get m s s_free_list) m = false.
Proof.
  intros Hi Hs. destruct (inv_cache _ _ _ _ _ _ Hi Hs) as (k & Hk & Hp & Hf & Hok). cbn in Hk, Hp, Hf.
  destruct (page_counts _ _ _ _ _ Hok Hp) as (_ & Ht & _). pose proof (ca_slots k Hok).
  destruct (fr s) as [|x l] eqn:E; [by discriminate (proj2 Hf eq_refl)|]. destruct (po_chain _ _ _ _ _ Hp) as (-> & Hnz & _).
  unfold corrupt. rewrite (po_magic _ _ _ _ _ Hp), Z.eqb_refl, Ht.
  rewrite (page_base_slot k s x Hok (po_addr _ _ _ _ _ Hp)) by (apply (po_slots _ _ _ _ _ Hp); by left).
  rewrite Z.eqb_refl, (proj2 (Z.eqb_neq x 0) Hnz), (proj2 (Z.eqb_neq (slots_per_slab k) 0)) by lia. done.
Qed.

(** A page moves from one list of its cache to the other. *)
Definition moved (ls : nat * bool → list Z) (i : nat) (f : bool) (s : Z) (l : list Z) : nat * bool → list Z :=
  Dll.upd (Dll.upd ls (i, f) l) (i, negb f) (s :: ls (i, negb f)).

Lemma moved_elem m st ls fr i f s l1 l2 : pre_inv m st ls fr → ls (i, f) = l1 ++ s :: l2 →
  (∀ j, s ∉ Dll.upd ls (i, f) (l1 ++ l2) j) ∧
  ∀ j g t, t ∈ moved ls i f s (l1 ++ l2) (j, g) ↔ (t = s ∧ (j, g) = (i, negb f)) ∨ (t ≠ s ∧ t ∈ ls (j, g)).
Proof.
  intros Hpre Hl. pose proof (Dll.fa_nodup _ _ _ _ _ (pi_family _ _ _ _ Hpre) (i, f)) as Hn. rewrite Hl in Hn.
  assert (Hs : s ∈ ls (i, f)) by (rewrite Hl; set_solver).
  assert (Hu : ∀ j, s ∈ ls j → j = (i, f)) by (intros j Hj; by eapply (Dll.fa_disj _ _ _ _ _ (pi_family _ _ _ _ Hpre))).
  apply NoDup_app in Hn as (_ & Hn1 & [Hn2 _]%NoDup_cons).
  assert (s ∉ l1 ++ l2) as Hni. { intros [Hin|Hin]%elem_of_app; [|done]. apply (Hn1 s Hin). by left. }
  split.
  - intros j [[-> Hin]|[Hne Hin]]%Dll.elem_upd; auto.
  - intros j g t. unfold moved. rewrite !Dll.elem_upd, elem_of_cons.
    destruct (decide (t = s)) as [->|Hne].
    + split; [|naive_solver]. intros [[-> _]|[_ [[-> ?]|[Hne ?%Hu]]]]; [by left|done|done].
    + assert (t ∈ l1 ++ l2 ↔ t ∈ ls (i, f)) as -> by (rewrite Hl; set_solver).
      destruct (decide ((j, g) = (i, negb f))) as [E|]; [rewrite E|destruct (decide ((j, g) = (i, f))) as [E|]; [rewrite E|]];
        destruct f; naive_solver.
Qed.

Lemma moved_pages ls i f s l1 l2 : ls (i, f) = l1 ++ s :: l2 → ∀ j, pages_of (moved ls i f s (l1 ++ l2)) j ≡ₚ pages_of ls j.
Proof.
  intros Hl j. unfold moved. destruct (decide (j = i)) as [->|]; [|by rewrite !pages_upd_ne].
  destruct f; cbn [negb]; rewrite ?pages_upd_full, ?pages_upd_partial, Dll.upd_eq; unfold pages_of; rewrite Hl; solve_Permutation.
Qed.

Lemma pre_move m st ls fr i f k s l1 l2 : pre_inv m st ls fr → cache_pool st !! i = Some k → ls (i, f) = l1 ++ s :: l2 →
  let '(m1, h1) := slab_list_remove (heads st (i, f)) s m in
  let st1 := upd_cache (Z.of_nat i + 1) (set_head f h1) st in
  let '(m2, h2) := slab_list_push (heads st1 (i, negb f)) s m1 in
  pre_inv m2 (upd_cache (Z.of_nat i + 1) (set_head (negb f) h2) st1) (moved ls i f s (l1 ++ l2)) fr ∧
  hdrs_only (λ t, ∃ j, t ∈ ls j) m m2.
Proof.
  intros Hpre Hk Hl. assert (Hs : s ∈ ls (i, f)) by (rewrite Hl; set_solver).
  pose proof (pre_remove m st ls fr i f k s l1 l2 Hpre Hk Hl) as Hrm.
  destruct (slab_list_remove (heads st (i, f)) s m) as [m1 h1]. destruct Hrm as (Hpre1 & Hpo & Hh1). cbv zeta.
  set (st1 := upd_cache _ (set_head f h1) st) in *.
  assert (Hk1 : cache_pool st1 !! i = Some (set_head f h1 k)) by (unfold st1; by rewrite pool_upd, decide_True, Hk by done).
  assert (page_ok m1 (Z.of_nat i + 1) (set_head f h1 k) s (fr s)) as Hpo1 by (destruct f; by destruct Hpo; split).
  destruct (moved_elem m st ls fr i f s l1 l2 Hpre Hl) as [Hnew _].
  pose proof (pre_add m1 st1 _ fr i (negb f) (set_head f h1 k) s Hpre1 Hk1 Hpo1 Hnew) as Had.
  destruct (slab_list_push (heads st1 (i, negb f)) s m1) as [m2 h2]. destruct Had as [Hpre2 Hh2].
  rewrite (Dll.upd_ne ls) in Hpre2, Hh2 by (destruct f; done). split; [done|].
  eapply hdrs_only_trans; [eapply hdrs_only_mono; [|exact Hh1]; by eexists|].
  eapply hdrs_only_mono; [|exact Hh2]. intros t [->|Ht]; by eexists.
Qed.

Lemma heads_at st i f k : cache_pool st !! i = Some k → heads st (i, f) = if f then full k else partial k.
Proof. intros Hk. unfold heads. cbn. by rewrite Hk. Qed.

(** The free list of [s] changes by [d] slots and so does the use count. *)
Lemma counted_upd m st ls fr i k k' s l : pre_inv m st ls fr → uses st ls fr → cache_pool st !! i = Some k →
  s ∈ pages_of ls i → objs_in_use k' = u64 (objs_in_use k + Z.of_nat (length (fr s)) - Z.of_nat (length l)) →
  total_slabs k' = total_slabs k → shape k' = shape k → counted k' (upd_free fr s l) (pages_of ls i).
Proof.
  intros Hpre Hu Hk Hs E1 E2 [= _ _ E3]. destruct (Hu i k Hk) as [H1 H2]. split; [|by rewrite E2, H2].
  rewrite E1, H1. rewrite (used_slots_ext k k' (upd_free fr s l) (upd_free fr s l)) by done.
  rewrite used_slots_upd by (done || by eapply pages_NoDup).
  replace (u64 (used_slots k fr (pages_of ls i)) + _ - _) with (u64 (used_slots k fr (pages_of ls i)) + (Z.of_nat (length (fr s)) - Z.of_nat (length l))) by lia.
  rewrite u64_add. f_equal. lia.
Qed.

(** ** The effect of an operation on cache [i] *)

(** Geometry kept, pages permuted, only headers and the words [W] written. *)
Record effect (W : Z → Prop) (i : nat) (k : slab_cache) (m m' : mem) (st st' : slab_st) (ls ls' : nat * bool → list Z) : Prop := {
  ef_pages : ∀ j, pages_of ls' j ≡ₚ pages_of ls j;
  ef_pool : ∃ k', pool_to i k' st st' ∧ shape k' = shape k;
  ef_mem : ∀ w, ¬ W w → (∀ j t, t ∈ ls j → ¬ t ≤ w < t + 48) → m' !! w = m !! w }.

Lemma uses_upd m st st' ls ls' fr i k k' s l : pre_inv m st ls fr → uses st ls fr → cache_pool st !! i = Some k →
  s ∈ pages_of ls i → pool_to i k' st st' → (∀ j, pages_of ls' j ≡ₚ pages_of ls j) → (∀ j, j ≠ i → pages_of ls' j = pages_of ls j) →
  objs_in_use k' = u64 (objs_in_use k + Z.of_nat (length (fr s)) - Z.of_nat (length l)) →
  total_slabs k' = total_slabs k → shape k' = shape k → uses st' ls' (upd_free fr s l).
Proof.
  intros Hpre Hu Hk Hs Hto Hp Hpn E1 E2 E3. eapply (uses_to i k); [done..| |].
  - intros j t Hj Ht. apply upd_free_ne. intros ->. apply Hj. by eapply pages_disj.
  - apply (counted_perm _ _ (pages_of ls i)); [symmetry; apply Hp|]. by eapply counted_upd.
Qed.

Lemma take_slot_spec m st ls fr i k s obj rest l1 l2 : slab_inv m st ls fr → cache_pool st !! i = Some k →
  ls (i, false) = l1 ++ s :: l2 → fr s = obj :: rest →
  let '(m', st') := take_slot (Z.of_nat i + 1) s obj m st in
  released st' = released st ∧
  ∃ ls', slab_inv m' st' ls' (upd_free fr s rest) ∧ effect (λ _, False) i k m m' st st' ls ls'.
Proof.
  intros Hi Hk Hl Hfr. assert (Hs : s ∈ ls (i, false)) by (rewrite Hl; set_solver).
  assert (Hsp : s ∈ pages_of ls i) by (apply elem_pages; by eexists).
  apply slab_inv_parts in Hi as (Hpre & Hst & Hu).
  destruct (pre_pop m st ls fr i false k s obj rest Hpre Hk Hs Hfr) as [Hpre1 Hc].
  unfold take_slot. fold (popped s obj m). cbv zeta. rewrite Hc.
  assert (Hh0 : hdrs_only (λ t, ∃ j, t ∈ ls j) m (popped s obj m)).
  { eapply hdrs_only_mono; [|apply popped_hdr]. intros t ->. by eexists. }
  set (m1 := popped s obj m) in *. set (fr' := upd_free fr s rest) in *.
  assert (Hfr' : ∀ t, t ≠ s → fr' t = fr t) by (intros t; apply upd_free_ne).
  assert (Hfs : fr' s = rest) by apply upd_free_eq.
  destruct (Z.eqb_spec (Z.of_nat (length rest)) 0) as [Hz|Hnz].
  - assert (rest = []) as Er by (destruct rest; [done|cbn in Hz; lia]).
    rewrite (cache_of_idx i k st Hk). pose proof (pre_move m1 st ls fr' i false k s l1 l2 Hpre1 Hk Hl) as Hmv.
    rewrite (heads_at st i false k Hk) in Hmv. destruct (slab_list_remove (partial k) s m1) as [m2 h1]. cbv zeta in Hmv.
    set (st1 := upd_cache _ (set_head false h1) st) in *. change (upd_cache (Z.of_nat i + 1) (set_partial h1) st) with st1.
    assert (Hto1 : pool_to i (set_partial h1 k) st st1) by (by apply (pool_to_upd i (set_head false h1))).
    rewrite (heads_at st1 i _ _ (pool_to_at _ _ _ _ Hto1)), (cache_of_idx i _ st1 (pool_to_at _ _ _ _ Hto1)) in *. cbn [negb] in Hmv.
    destruct (slab_list_push _ s m2) as [m3 h2]. destruct Hmv as [Hpre3 Hh].
    change (set_head true h2) with (set_full h2) in Hpre3. set (st2 := upd_cache _ (set_full h2) st1) in *.
    assert (Hto2 : pool_to i (count_alloc (set_full h2 (set_partial h1 k))) st (upd_cache (Z.of_nat i + 1) count_alloc st2)).
    { by do 2 apply pool_to_step. }
    split; [done|]. exists (moved ls i false s (l1 ++ l2)). split.
    + apply slab_inv_parts. split_and!; [by apply pre_stats| |].
      * intros j g t Ht. apply (moved_elem m st ls fr) in Ht as [[-> [= -> ->]]|[Hne Ht]]; [|rewrite Hfr' by done; exact (Hst _ _ _ Ht)|done..].
        by rewrite Hfs.
      * eapply (uses_upd m st _ ls _ fr i k); [done..|by apply moved_pages| | |done|done].
        { intros j Hj. unfold moved. by rewrite !pages_upd_ne. }
        cbn [objs_in_use count_alloc set_full set_partial]. rewrite Hfr. f_equal. cbn [length]. lia.
    + split; [by apply moved_pages|by eexists|]. intros w _ Hw. assert (hdrs_only (λ t, ∃ j, t ∈ ls j) m m3) as H by (by eapply hdrs_only_trans).
      apply H. intros t [j Ht]. by apply (Hw j).
  - split; [done|]. exists ls. pose proof (pool_to_upd i count_alloc k st Hk) as Hto. split.
    + apply slab_inv_parts. split_and!; [by apply pre_stats| |].
      * intros j f t Ht. destruct (decide (t = s)) as [->|Hne]; [|rewrite Hfr' by done; exact (Hst _ _ _ Ht)].
        rewrite Hfs. pose proof (Dll.fa_disj _ _ _ _ _ (pi_family _ _ _ _ Hpre) _ _ _ Hs Ht) as [= <- <-].
        split; [done|]. intros ->. cbn in Hnz. lia.
      * eapply (uses_upd m st _ ls _ fr i k); [done..| |done|done]. cbn [objs_in_use count_alloc]. rewrite Hfr. f_equal. cbn [length]. lia.
    + split; [done|by eexists|]. intros w _ Hw. apply Hh0. intros t [j Ht]. by apply (Hw j).
Qed.

End SlabOps.
