(* ===== verification/SlabAlloc.v ===== *)
(** * Slab: slab_alloc against the set of live objects *)

From S2P Require Import Prelude Bytes Words Dll Heap Kmalloc Slab SlabInv SlabSteps SlabGrow SlabOps.

Module SlabAlloc.
Import Heap Kmalloc Slab SlabInv SlabSteps SlabGrow SlabOps.

(** ** Live objects depend on geometry, pages and free lists only *)

Definition geom (st st' : slab_st) : Prop := ∀ j, shape <$> cache_pool st' !! j = shape <$> cache_pool st !! j.

Lemma geom_trans st1 st2 st3 : geom st1 st2 → geom st2 st3 → geom st1 st3.
Proof. intros H1 H2 j. by rewrite H2, H1. Qed.

Lemma geom_sym st st' : geom st st' → geom st' st.
Proof. intros H j. by rewrite H. Qed.

Lemma pool_to_geom i k k' st st' : cache_pool st !! i = Some k → pool_to i k' st st' → shape k' = shape k → geom st st'.
Proof. intros Hk Hto Hs j. rewrite Hto. destruct (decide (j = i)) as [->|]; [|done]. rewrite Hk. cbn. by rewrite Hs. Qed.

Lemma geom_at st st' j k' : geom st st' → cache_pool st' !! j = Some k' → ∃ k, cache_pool st !! j = Some k ∧ shape k' = shape k.
Proof. intros H Hk. specialize (H j). rewrite Hk in H. destruct (cache_pool st !! j) as [k|]; [|done]. exists k. split; [done|]. cbn in H. congruence. Qed.

Lemma live_geom_1 st st' ls ls' fr p n : geom st st' → (∀ j, pages_of ls' j ≡ₚ pages_of ls j) →
  live st' ls' fr p n → live st ls fr p n.
Proof.
  intros Hg Hp (i & f & s & k & Hk & Hs & Hx & Hf & ->). destruct (geom_at _ _ _ _ Hg Hk) as (k0 & Hk0 & [= E1 E2 E3]).
  assert (s ∈ pages_of ls i) as [g Hg']%elem_pages by (rewrite <- Hp; apply elem_pages; by eexists).
  exists i, g, s, k0. split_and!; try done. by apply (is_slot_shape k0 k).
Qed.

Lemma live_geom st st' ls ls' fr p n : geom st st' → (∀ j, pages_of ls' j ≡ₚ pages_of ls j) →
  live st' ls' fr p n ↔ live st ls fr p n.
Proof. intros Hg Hp. split; apply live_geom_1; [done|done|by apply geom_sym|]. intros j. by symmetry. Qed.

(** Taking the head of a free list makes it live. *)
Lemma live_take m st ls fr i f k s obj rest q n : pre_inv m st ls fr → cache_pool st !! i = Some k → s ∈ ls (i, f) →
  fr s = obj :: rest → live st ls (upd_free fr s rest) q n ↔ live st ls fr q n ∨ (q = obj ∧ n = obj_size k).
Proof.
  intros Hi Hk Hs Hfr. pose proof (pi_page _ _ _ _ Hi i f s k Hk Hs) as Hp. rewrite Hfr in Hp.
  pose proof (po_nodup _ _ _ _ _ Hp) as [Hni _]%NoDup_cons.
  assert (Hslot : is_slot k s obj) by (apply (po_slots _ _ _ _ _ Hp); by left). split.
  - intros (j & g & t & kj & Hkj & Ht & Hq & Hnf & ->). destruct (decide (t = s)) as [->|Hne].
    + rewrite upd_free_eq in Hnf. pose proof (Dll.fa_disj _ _ _ _ _ (pi_family _ _ _ _ Hi) _ _ _ Hs Ht) as [= <- <-].
      assert (kj = k) as -> by congruence. destruct (decide (q = obj)) as [->|Hq']; [by right|left].
      exists i, f, s, k. split_and!; try done. rewrite Hfr. by apply not_elem_of_cons.
    + rewrite upd_free_ne in Hnf by done. left. by exists j, g, t, kj.
  - intros [(j & g & t & kj & Hkj & Ht & Hq & Hnf & ->)|[-> ->]].
    + exists j, g, t, kj. split_and!; try done. destruct (decide (t = s)) as [->|Hne]; [|by rewrite upd_free_ne].
      rewrite upd_free_eq. rewrite Hfr in Hnf. by apply not_elem_of_cons in Hnf as [_ ?].
    + exists i, f, s, k. split_and!; try done. by rewrite upd_free_eq.
Qed.

(** A fresh page adds no live object. *)
Lemma live_grow st ls fr i k s q n : cache_pool st !! i = Some k → (∀ j, s ∉ ls j) →
  live st (Dll.upd ls (i, false) (s :: ls (i, false))) (upd_free fr s (threaded k s (Z.to_nat (slots_per_slab k)))) q n ↔
  live st ls fr q n.
Proof.
  intros Hk Hnew. split.
  - intros (j & g & t & kj & Hkj & [[[= -> ->] [->|Ht]%elem_of_cons]|[_ Ht]]%Dll.elem_upd & Hq & Hnf & ->).
    + assert (kj = k) as -> by congruence. rewrite upd_free_eq in Hnf. destruct Hnf. apply elem_threaded.
      destruct Hq as (x & Hx & ->). exists x. split; [lia|done].
    + rewrite upd_free_ne in Hnf by (intros ->; by apply (Hnew (i, false))). by exists i, false, t, kj.
    + rewrite upd_free_ne in Hnf by (intros ->; by apply (Hnew (j, g))). by exists j, g, t, kj.
  - intros (j & g & t & kj & Hkj & Ht & Hq & Hnf & ->). exists j, g, t, kj. split_and!; try done.
    + apply Dll.elem_upd. destruct (decide ((j, g) = (i, false))) as [[= -> ->]|]; [left|by right]. split; [done|by right].
    + rewrite upd_free_ne; [done|]. intros ->. by apply (Hnew (j, g)).
Qed.

(** ** slab_alloc *)

(** Words of the old live objects, and words off the pages, are kept. *)
Definition preserves (m m' : mem) (st : slab_st) (ls ls' : nat * bool → list Z) (fr : Z → list Z) : Prop :=
  (∀ w, off_pages ls w → off_pages ls' w → m' !! w = m !! w) ∧
  (∀ q n w, live st ls fr q n → q ≤ w < q + n → m' !! w = m !! w).

(** From a partial page. *)
Lemma slab_alloc_partial m st ls fr i k pages s l : slab_inv m st ls fr → cache_pool st !! i = Some k →
  ls (i, false) = s :: l →
  let '(m', st', obj) := slab_alloc (Z.of_nat i + 1) pages m st in
  released st' = released st ∧ is_slot k s obj ∧ obj ∈ fr s ∧
  ∃ ls' fr', slab_inv m' st' ls' fr' ∧ effect (λ _, False) i k m m' st st' ls ls' ∧
    ∀ q n, live st' ls' fr' q n ↔ live st ls fr q n ∨ (q = obj ∧ n = obj_size k).
Proof.
  intros Hi Hk Hl. assert (Hs : s ∈ ls (i, false)) by (rewrite Hl; by left).
  destruct (inv_cache _ _ _ _ _ _ Hi Hs) as (k' & Hk' & Hp & Hf & Hok). cbn in Hk', Hp, Hf. assert (k' = k) as -> by congruence.
  assert (partial k = s) as Eh.
  { rewrite <- (heads_at st i false k Hk). pose proof (Dll.fa_seg _ _ _ _ _ (si_family _ _ _ _ Hi) (i, false)) as [q Hq].
    rewrite Hl in Hq. by destruct Hq. }
  pose proof (page_nonzero s (po_addr _ _ _ _ _ Hp)) as Hnz.
  destruct (fr s) as [|obj rest] eqn:Hfr; [by discriminate (proj2 Hf eq_refl)|].
  destruct (po_chain _ _ _ _ _ Hp) as (Ef & Hobj & _).
  unfold slab_alloc. rewrite (proj2 (Z.eqb_neq (Z.of_nat i + 1) 0)) by lia. cbv zeta.
  rewrite (cache_of_idx i k st Hk), Eh, (proj2 (Z.eqb_neq s 0) Hnz). cbn [snd fst].
  rewrite (proj2 (Z.eqb_neq s 0) Hnz), (corrupt_false m st ls fr i s Hi Hs), (proj2 (Z.eqb_neq s 0) Hnz), Ef, (proj2 (Z.eqb_neq obj 0) Hobj).
  pose proof (take_slot_spec m st ls fr i k s obj rest [] l Hi Hk Hl Hfr) as Ht.
  destruct (take_slot _ s obj m st) as [m' st']. destruct Ht as (Hr & ls' & Hi' & He).
  split_and!; [done|apply (po_slots _ _ _ _ _ Hp); by left|by left|].
  exists ls', (upd_free fr s rest). split_and!; [done|done|]. intros q n.
  destruct (ef_pool _ _ _ _ _ _ _ _ _ He) as (k' & Hto & Hsh).
  rewrite (live_geom st st' ls ls'); [|by eapply pool_to_geom|apply He].
  by eapply (live_take m); [apply inv_pre|..].
Qed.

Lemma effect_mono (W W' : Z → Prop) i k m m' st st' ls ls' : (∀ w, W w → W' w) →
  effect W i k m m' st st' ls ls' → effect W' i k m m' st st' ls ls'.
Proof. intros H [? ? Hm]. split; try done. intros w Hw. apply Hm. auto. Qed.

Lemma preserves_intro m m' st ls ls' fr (W : Z → Prop) : slab_inv m st ls fr →
  (∀ w, W w → ∃ j s, s ∈ ls' j ∧ s ≤ w < s + 4096) → (∀ q n w, live st ls fr q n → q ≤ w < q + n → ¬ W w) →
  (∀ w, ¬ W w → (∀ j t, t ∈ ls j → ¬ t ≤ w < t + 48) → m' !! w = m !! w) → preserves m m' st ls ls' fr.
Proof.
  intros Hi HW Hl Hm. split.
  - intros w H1 H2. apply Hm; [|intros j t Ht ?; apply (H1 j t Ht); lia]. intros (j & s & Hs & ?)%HW. by apply (H2 j s).
  - intros q n w Hq Hw. apply Hm; [by eapply Hl|]. by apply (live_clear _ _ _ _ _ _ w Hi Hq).
Qed.

(** The pages after an allocation: the old ones and the fresh one, if any. *)
Definition pages_grow (ls ls' : nat * bool → list Z) (page : Z) : Prop :=
  ∀ s, (∃ j, s ∈ ls' j) ↔ (∃ j, s ∈ ls j) ∨ (page ≠ 0 ∧ s = DIRECT_MAP_BASE + page).

Lemma pages_perm ls ls' s : (∀ j, pages_of ls' j ≡ₚ pages_of ls j) → (∃ j, s ∈ ls' j) ↔ (∃ j, s ∈ ls j).
Proof.
  intros Hp. split.
  - intros [[i f] Hs]. assert (s ∈ pages_of ls i) as [g ?]%elem_pages; [|by eexists]. rewrite <- Hp. apply elem_pages. by eexists.
  - intros [[i f] Hs]. assert (s ∈ pages_of ls' i) as [g ?]%elem_pages; [|by eexists]. rewrite Hp. apply elem_pages. by eexists.
Qed.

(** The first page the physical allocator would hand out. *)
Definition next_page (pages : list Z) : Z := hd 0 pages.

Lemma free_not_live m st ls fr j s x n : slab_inv m st ls fr → s ∈ ls j → x ∈ fr s → ¬ live st ls fr x n.
Proof.
  intros Hi Hs Hx Hl. destruct (live_range _ _ _ _ _ _ Hi Hl) as (_ & _ & ? & _).
  destruct (live_clear _ _ _ _ _ _ x Hi Hl ltac:(lia)) as [_ Hc]. by apply (Hc j s x).
Qed.

Lemma live_in_page m st ls fr q n w : slab_inv m st ls fr → live st ls fr q n → q ≤ w < q + n →
  ∃ j s, s ∈ ls j ∧ s ≤ w < s + 4096.
Proof.
  intros Hi (i & f & s & k & Hk & Hs & Hp & _ & ->) Hw. destruct (slot_bound k s q (si_cache _ _ _ _ Hi i k Hk) Hp).
  exists (i, f), s. split; [done|lia].
Qed.

(** [obj] is a new object of cache [k]. *)
Record granted (k : slab_cache) (page obj : Z) (m m' : mem) (st st' : slab_st) (ls ls' : nat * bool → list Z)
    (fr fr' : Z → list Z) : Prop := {
  gr_nonzero : obj ≠ 0;
  gr_align : (align k | obj);
  gr_new : ∀ n, ¬ live st ls fr obj n;
  gr_inv : slab_inv m' st' ls' fr';
  gr_keep : preserves m m' st ls ls' fr;
  gr_pages : pages_grow ls ls' page;
  gr_live : ∀ q n, live st' ls' fr' q n ↔ live st ls fr q n ∨ (q = obj ∧ n = obj_size k) }.

Lemma alloc_partial_granted m st ls fr i k pages s l : slab_inv m st ls fr → cache_pool st !! i = Some k →
  ls (i, false) = s :: l →
  let '(m', st', obj) := slab_alloc (Z.of_nat i + 1) pages m st in
  released st' = released st ∧ geom st st' ∧ (∃ ls' fr', granted k 0 obj m m' st st' ls ls' fr fr') ∧
  (∀ w, (∀ j t, t ∈ ls j → ¬ t ≤ w < t + 48) → m' !! w = m !! w).
Proof.
  intros Hi Hk Hl. pose proof (si_cache _ _ _ _ Hi i k Hk) as Hok.
  assert (Hs : s ∈ ls (i, false)) by (rewrite Hl; by left). destruct (si_page _ _ _ _ Hi i false s k Hk Hs) as [Hp _].
  pose proof (slab_alloc_partial m st ls fr i k pages s l Hi Hk Hl) as Ha.
  destruct (slab_alloc _ pages m st) as [[m' st'] obj]. destruct Ha as (Hr & Hsl & Hin & ls' & fr' & Hi' & He & Hlv).
  destruct (ef_pool _ _ _ _ _ _ _ _ _ He) as (k' & Hto & Hsh).
  destruct (slot_bound k s obj Hok Hsl). pose proof (po_addr _ _ _ _ _ Hp) as [Hd Hrg].
  split_and!; [done|by eapply pool_to_geom| |intros w Hw; apply (ef_mem _ _ _ _ _ _ _ _ _ He); auto].
  exists ls', fr'. split; try done.
  - unfold DIRECT_MAP_BASE in *. lia.
  - by eapply slot_align.
  - intros n. by eapply free_not_live.
  - eapply (preserves_intro m m' st ls ls' fr (λ _, False)); [done|done|auto|apply He].
  - intros t. rewrite (pages_perm ls ls') by apply He. tauto.
Qed.

Lemma partial_head m st ls fr i k : slab_inv m st ls fr → cache_pool st !! i = Some k → partial k = hd 0 (ls (i, false)).
Proof.
  intros Hi Hk. rewrite <- (heads_at st i false k Hk). pose proof (Dll.fa_seg _ _ _ _ _ (si_family _ _ _ _ Hi) (i, false)) as [q Hq].
  destruct (ls (i, false)); by destruct Hq.
Qed.

(** With no partial page the allocator grows and then takes from the new page. *)
Lemma slab_alloc_grows i k pages m st m1 st1 s pages1 : cache_pool st !! i = Some k → partial k = 0 →
  slab_grow (Z.of_nat i + 1) pages m st = (m1, st1, s, pages1) → s ≠ 0 → partial (cache_of (Z.of_nat i + 1) st1) = s →
  slab_alloc (Z.of_nat i + 1) pages m st = slab_alloc (Z.of_nat i + 1) pages1 m1 st1.
Proof.
  intros Hk Hp Hg Hs Hh. unfold slab_alloc. rewrite (proj2 (Z.eqb_neq (Z.of_nat i + 1) 0)) by lia. cbv zeta.
  rewrite (cache_of_idx i k st Hk), Hp, Hh, Hg. change (0 =? 0) with true. by rewrite (proj2 (Z.eqb_neq s 0) Hs).
Qed.

Lemma slab_alloc_oom i k pages m st : cache_pool st !! i = Some k → partial k = 0 → next_page pages = 0 →
  slab_alloc (Z.of_nat i + 1) pages m st = (m, st, 0).
Proof.
  intros Hk Hp Hz. unfold slab_alloc. rewrite (proj2 (Z.eqb_neq (Z.of_nat i + 1) 0)) by lia. cbv zeta.
  rewrite (cache_of_idx i k st Hk), Hp. cbn [Z.eqb]. destruct pages as [|p pages]; [done|]. cbn in Hz. by subst p.
Qed.

Lemma alloc_grow_granted m st ls fr i k page pages : slab_inv m st ls fr → cache_pool st !! i = Some k →
  ls (i, false) = [] → page ≠ 0 → fresh ls page →
  let '(m', st', obj) := slab_alloc (Z.of_nat i + 1) (page :: pages) m st in
  released st' = released st ∧ geom st st' ∧ ∃ ls' fr', granted k page obj m m' st st' ls ls' fr fr'.
Proof.
  intros Hi Hk Hl Hpg Hfr. pose proof (partial_head _ _ _ _ _ _ Hi Hk) as Hph. rewrite Hl in Hph. cbn in Hph.
  pose proof (slab_grow_spec m st ls fr i k page pages Hi Hk Hpg Hfr) as Hg. cbv zeta in Hg. destruct Hfr as [Hs Hnew].
  set (s := DIRECT_MAP_BASE + page) in *.
  destruct (slab_grow (Z.of_nat i + 1) (page :: pages) m st) as [[[m1 st1] s1] pages1] eqn:Eg.
  destruct Hg as (-> & -> & Hi1 & (k1 & Hto & Hsh) & Hr1 & Hm1). rewrite Hl in Hi1.
  pose proof (pool_to_at _ _ _ _ Hto) as Hk1. pose proof (pool_to_geom i k k1 st st1 Hk Hto Hsh) as Hg1.
  pose proof (partial_head _ _ _ _ _ _ Hi1 Hk1) as Hh. rewrite Dll.upd_eq in Hh. cbn in Hh.
  rewrite (slab_alloc_grows i k _ m st m1 st1 s pages) by (done || by apply page_nonzero || by rewrite (cache_of_idx i k1)).
  pose proof (alloc_partial_granted m1 st1 _ _ i k1 pages s [] Hi1 Hk1 (Dll.upd_eq _ _ _)) as Ha.
  destruct (slab_alloc _ pages m1 st1) as [[m' st'] obj]. destruct Ha as (Hr & Hg2 & (ls' & fr' & Hgr) & Hm2).
  split_and!; [by rewrite Hr|by eapply geom_trans|]. exists ls', fr'. injection Hsh as E1 E2 _.
  assert (Hlv : ∀ q n, live st1 (Dll.upd ls (i, false) [s]) (upd_free fr s (threaded k s (Z.to_nat (slots_per_slab k)))) q n ↔ live st ls fr q n).
  { intros q n. rewrite (live_geom st st1 (Dll.upd ls (i, false) [s])) by done.
    rewrite <- (live_grow st ls fr i k s q n) by done. by rewrite Hl. }
  split; try apply Hgr.
  - rewrite <- E2. apply Hgr.
  - intros n Hn. apply (gr_new _ _ _ _ _ _ _ _ _ _ _ Hgr n). by apply Hlv.
  - eapply (preserves_intro m m' st ls ls' fr (λ w, s ≤ w < s + 4096)); [done|..].
    + intros w Hw. assert (∃ j, s ∈ ls' j) as [j ?]; [|by exists j, s]. apply (gr_pages _ _ _ _ _ _ _ _ _ _ _ Hgr). left. exists (i, false). rewrite Dll.upd_eq. by left.
    + intros q n w Hq Hw Hin. destruct (live_in_page _ _ _ _ _ _ _ Hi Hq Hw) as (j & t & Ht & ?).
      destruct (page_far s t Hs (pre_addr _ _ _ _ _ _ (inv_pre _ _ _ _ Hi) Ht)) as [E|[|]]; [|lia..].
      rewrite <- E in Ht. by apply (Hnew j).
    + intros w Hw Hh'. rewrite Hm2; [by apply Hm1|]. intros j t [[_ ->%list_elem_of_singleton]|[_ Ht]]%Dll.elem_upd; [lia|by apply (Hh' j)].
  - intros t. rewrite (gr_pages _ _ _ _ _ _ _ _ _ _ _ Hgr t). split.
    + intros [[j [[_ ->%list_elem_of_singleton]|[_ ?]]%Dll.elem_upd]|[? _]]; [by right|left; by eexists|done].
    + intros [[j Ht]|[_ ->]]; left; [exists j|exists (i, false); rewrite Dll.upd_eq; by left].
      apply Dll.elem_upd. right. split; [|done]. intros ->. rewrite Hl in Ht. set_solver.
  - intros q n. by rewrite (gr_live _ _ _ _ _ _ _ _ _ _ _ Hgr), Hlv, E1.
Qed.

(** The page an allocation from cache [i] takes from the physical allocator. *)
Definition taken (ls : nat * bool → list Z) (i : nat) (pages : list Z) : Z :=
  match ls (i, false) with [] => next_page pages | _ => 0 end.

(** [slab_alloc] answers NULL, unchanged, exactly when the cache has no partial
    page and the physical allocator no page; otherwise it grants an object. *)
Lemma slab_alloc_spec m st ls fr i k pages : slab_inv m st ls fr → cache_pool st !! i = Some k →
  (next_page pages = 0 ∨ fresh ls (next_page pages)) →
  let '(m', st', obj) := slab_alloc (Z.of_nat i + 1) pages m st in
  (obj = 0 ∧ m' = m ∧ st' = st ∧ ls (i, false) = [] ∧ next_page pages = 0) ∨
  (released st' = released st ∧ geom st st' ∧ ∃ ls' fr', granted k (taken ls i pages) obj m m' st st' ls ls' fr fr').
Proof.
  intros Hi Hk Hpg. unfold taken. destruct (ls (i, false)) as [|s l] eqn:Hl.
  - destruct (decide (next_page pages = 0)) as [Hz|Hz].
    + rewrite (slab_alloc_oom i k) by (done || by rewrite (partial_head _ _ _ _ _ _ Hi Hk), Hl). by left.
    + destruct Hpg as [|Hf]; [done|]. destruct pages as [|page pages]; [done|].
      pose proof (alloc_grow_granted m st ls fr i k page pages Hi Hk Hl Hz Hf) as Ha.
      destruct (slab_alloc _ _ m st) as [[m' st'] obj]. by right.
  - pose proof (alloc_partial_granted m st ls fr i k pages s l Hi Hk Hl) as Ha.
    destruct (slab_alloc _ _ m st) as [[m' st'] obj]. right. by destruct Ha as (? & ? & ? & _).
Qed.

End SlabAlloc.
