(* ===== verification/SlabFree.v ===== *)
(** * Slab: slab_free against the set of live objects *)

From S2P Require Import Prelude Bytes Words Dll Heap Kmalloc Slab SlabInv SlabSteps SlabGrow SlabOps SlabAlloc.

Module SlabFree.
Import Heap Kmalloc Slab SlabInv SlabSteps SlabGrow SlabOps SlabAlloc.

(** ** The walk over the free list *)

Lemma chain_keys m a l z : slot_chain m a (l ++ [z]) → ∀ x, x ∈ l → is_Some (m !! x).
Proof.
  revert a. induction l as [|y l IH]; intros a; cbn; [set_solver|]. intros (_ & _ & Hc) x [->|Hx]%elem_of_cons; [|by eapply IH].
  unfold rd in Hc. destruct (m !! y); [by eexists|]. destruct l; cbn in Hc; destruct Hc as (? & ? & _); congruence.
Qed.

(** Free lists are no longer than the memory has words, plus the last slot. *)
Lemma slot_chain_length m a l : slot_chain m a l → NoDup l → (length l ≤ S (size m))%nat.
Proof.
  intros Hc Hnd. destruct l as [|z l _] using rev_ind; [cbn; lia|]. rewrite length_app. cbn.
  apply NoDup_app in Hnd as (Hnd & _ & _). assert (length l ≤ size (dom m))%nat; [|rewrite size_dom in *; lia].
  rewrite <- (size_list_to_set (C := gset Z)) by done. apply subseteq_size. intros x Hx%elem_of_list_to_set.
  apply elem_of_dom. by eapply chain_keys.
Qed.

Lemma on_list_spec m a l obj fuel : slot_chain m a l → (length l ≤ fuel)%nat → on_list fuel a obj m = bool_decide (obj ∈ l).
Proof.
  revert a l. induction fuel as [|fuel IH]; intros a l Hc Hl.
  - destruct l; [|cbn in Hl; lia]. cbn. symmetry. apply bool_decide_false. set_solver.
  - destruct l as [|x l]; cbn in Hc; cbn [on_list].
    + subst a. cbn. symmetry. apply bool_decide_false. set_solver.
    + destruct Hc as (-> & Hnz & Hc). rewrite (proj2 (Z.eqb_neq x 0) Hnz). destruct (Z.eqb_spec x obj) as [->|Hne].
      * symmetry. apply bool_decide_true. by left.
      * rewrite (IH _ l Hc) by (cbn in Hl; lia). apply bool_decide_ext. set_solver.
Qed.

(** ** Putting a slot back *)

Lemma live_put m st ls fr i f k s obj q n : pre_inv m st ls fr → cache_pool st !! i = Some k → s ∈ ls (i, f) →
  is_slot k s obj → live st ls (upd_free fr s (obj :: fr s)) q n ↔ live st ls fr q n ∧ q ≠ obj.
Proof.
  intros Hi Hk Hs Hslot. pose proof (pi_cache _ _ _ _ Hi i k Hk) as Hok. split.
  - intros (j & g & t & kj & Hkj & Ht & Hq & Hnf & ->). destruct (decide (t = s)) as [->|Hne].
    + rewrite upd_free_eq in Hnf. apply not_elem_of_cons in Hnf as [? ?]. split; [by exists j, g, s, kj|done].
    + rewrite upd_free_ne in Hnf by done. split; [by exists j, g, t, kj|]. intros ->.
      pose proof (pi_cache _ _ _ _ Hi j kj Hkj) as Hokj. destruct (slot_bound _ _ _ Hok Hslot), (slot_bound _ _ _ Hokj Hq).
      pose proof (ca_size k Hok). pose proof (ca_size kj Hokj).
      destruct (page_far t s) as [|[|]]; [by eapply pre_addr..|done|lia|lia].
  - intros [(j & g & t & kj & Hkj & Ht & Hq & Hnf & ->) Hne]. exists j, g, t, kj. split_and!; try done.
    destruct (decide (t = s)) as [->|]; [|by rewrite upd_free_ne]. rewrite upd_free_eq. by apply not_elem_of_cons.
Qed.

Lemma put_slot_spec m st ls fr i f k s obj l1 l2 : slab_inv m st ls fr → cache_pool st !! i = Some k →
  ls (i, f) = l1 ++ s :: l2 → is_slot k s obj → obj ∉ fr s →
  let '(m', st') := put_slot (Z.of_nat i + 1) s obj m st in
  released st' = released st ∧
  ∃ ls', slab_inv m' st' ls' (upd_free fr s (obj :: fr s)) ∧ s ∈ ls' (i, false) ∧
    effect (λ w, w = obj) i k m m' st st' ls ls'.
Proof.
  intros Hi Hk Hl Hsl Hni. assert (Hs : s ∈ ls (i, f)) by (rewrite Hl; set_solver).
  assert (Hsp : s ∈ pages_of ls i) by (apply elem_pages; by eexists).
  destruct (si_page _ _ _ _ Hi i f s k Hk Hs) as [Hpg Hf]. pose proof (si_cache _ _ _ _ Hi i k Hk) as Hok.
  destruct (page_counts _ _ _ _ _ Hok Hpg) as (Hc & _). apply slab_inv_parts in Hi as (Hpre & Hst & Hu).
  destruct (pre_push m st ls fr i f k s obj Hpre Hk Hs Hsl Hni) as (Hpre1 & _).
  unfold put_slot. cbv zeta. fold (pushed s obj m). rewrite Hc.
  pose proof (pushed_writes s obj m) as Hw. set (m1 := pushed s obj m) in *. set (fr' := upd_free fr s (obj :: fr s)) in *.
  assert (Hfr' : ∀ t, t ≠ s → fr' t = fr t) by (intros t; apply upd_free_ne).
  assert (Hfs : fr' s = obj :: fr s) by apply upd_free_eq.
  apply (pre_stats _ _ _ _ i count_free) in Hpre1; [|done]. pose proof (pool_to_upd i count_free k st Hk) as Hto0.
  set (st0 := upd_cache _ count_free st) in *. pose proof (pool_to_at _ _ _ _ Hto0) as Hk0.
  assert (Huse : ∀ k' ls' st', shape k' = shape k → objs_in_use k' = objs_in_use (count_free k) → total_slabs k' = total_slabs k →
    pool_to i k' st st' → (∀ j, pages_of ls' j ≡ₚ pages_of ls j) → (∀ j, j ≠ i → pages_of ls' j = pages_of ls j) → uses st' ls' fr').
  { intros k' ls' st' E1 E2 E3 Hto Hp Hpn. eapply (uses_upd m st _ ls _ fr i k); try done. rewrite E2. cbn [objs_in_use count_free length]. f_equal. lia. }
  destruct (Z.eqb_spec (Z.of_nat (length (fr s))) 0) as [Hz|Hnz].
  - assert (fr s = []) as Er by (by destruct (fr s)). assert (f = true) as -> by (by apply Hf).
    pose proof (pre_move m1 st0 ls fr' i true _ s l1 l2 Hpre1 Hk0 Hl) as Hmv.
    rewrite (heads_at st0 i true _ Hk0) in Hmv. rewrite (cache_of_idx i _ st0 Hk0).
    destruct (slab_list_remove (full (count_free k)) s m1) as [m2 h1]. cbv zeta in Hmv.
    set (st1 := upd_cache _ (set_head true h1) st0) in *. change (upd_cache (Z.of_nat i + 1) (set_full h1) st0) with st1.
    assert (Hto1 : pool_to i (set_full h1 (count_free k)) st st1) by (by apply (pool_to_step i (set_head true h1))).
    rewrite (heads_at st1 i _ _ (pool_to_at _ _ _ _ Hto1)), (cache_of_idx i _ st1 (pool_to_at _ _ _ _ Hto1)) in *. cbn [negb] in Hmv.
    destruct (slab_list_push _ s m2) as [m3 h2]. destruct Hmv as [Hpre3 Hh].
    change (set_head false h2) with (set_partial h2) in Hpre3.
    assert (Hto2 := pool_to_step i (set_partial h2) _ _ _ Hto1). set (st2 := upd_cache _ (set_partial h2) st1) in *.
    pose proof (moved_elem m st ls fr i true s l1 l2 Hpre Hl) as [_ Hme]. cbn [negb] in Hme.
    split; [done|]. exists (moved ls i true s (l1 ++ l2)). split_and!.
    + apply slab_inv_parts. split_and!; [done| |].
      * intros j g t [[-> [= -> ->]]|[Hne Ht]]%Hme; [|rewrite Hfr' by done; exact (Hst _ _ _ Ht)]. by rewrite Hfs.
      * eapply Huse; [| | |exact Hto2|by apply moved_pages|]; [done..|]. intros j Hj. unfold moved. by rewrite !pages_upd_ne.
    + apply Hme. by left.
    + split; [by apply moved_pages|by eexists|]. intros w Hne Hhd. rewrite Hh by (intros t [j Ht]; by apply (Hhd j)). apply Hw; [by apply (Hhd _ _ Hs)|done].
  - assert (f = false) as ->. { destruct f; [|done]. by rewrite (proj1 Hf eq_refl) in Hnz. }
    split; [done|]. exists ls. split_and!; [|done|].
    + apply slab_inv_parts. split_and!; [done| |by apply (Huse (count_free k))].
      intros j g t Ht. destruct (decide (t = s)) as [->|Hne]; [|rewrite Hfr' by done; exact (Hst _ _ _ Ht)].
      rewrite Hfs. pose proof (Dll.fa_disj _ _ _ _ _ (pi_family _ _ _ _ Hpre) _ _ _ Hs Ht) as [= <- <-]. done.
    + split; [done|by eexists|]. intros w Hne Hhd. apply Hw; [by apply (Hhd _ _ Hs)|done].
Qed.

(** ** Giving an empty page back *)

(** With all slots on the free list none is live. *)
Lemma all_free m c k s l x : page_ok m c k s l → Z.of_nat (length l) = slots_per_slab k → is_slot k s x → x ∈ l.
Proof.
  intros Hp Hn (i & Hi & ->). assert (l ≡ₚ slot k s <$> seqZ 0 (slots_per_slab k)) as ->.
  { apply submseteq_length_Permutation; [|rewrite length_fmap, length_seqZ; lia].
    apply NoDup_submseteq; [apply Hp|]. intros y (j & Hj & ->)%(po_slots _ _ _ _ _ Hp).
    apply list_elem_of_fmap. exists j. split; [done|]. apply elem_of_seqZ. lia. }
  apply list_elem_of_fmap. exists i. split; [done|]. apply elem_of_seqZ. lia.
Qed.

(** Writes to a page of no list are invisible. *)
Lemma pre_off m m' st ls fr s : pre_inv m st ls fr → page_addr s → (∀ j, s ∉ ls j) →
  (∀ w, ¬ s ≤ w < s + 4096 → m' !! w = m !! w) → pre_inv m' st ls fr.
Proof.
  intros Hi Hs Hnew Hw.
  assert (Hfar : ∀ j t, t ∈ ls j → far t s).
  { intros j t Ht. destruct (page_far t s) as [->|]; [by eapply pre_addr|done|by destruct (Hnew j)|done]. }
  split; try apply Hi.
  - apply (Dll.family_ext s_next s_prev m); [|apply Hi]. intros j t Ht. pose proof (Hfar j t Ht) as Hf.
    unfold get, rd. unfold far in Hf. rewrite !Hw; [done|..]; cbn; lia.
  - intros j g t k Hk Ht. pose proof (Hfar _ t Ht) as Hf.
    eapply (page_other m _ _ _ _ _ s (λ w, s ≤ w < s + 4096)); [by eapply pi_page|by eapply pi_cache|done|done|done].
Qed.

Lemma pre_pool m st st' ls fr : cache_pool st' = cache_pool st → pre_inv m st ls fr → pre_inv m st' ls fr.
Proof.
  intros E [Hf ? ? ?]. split; try (by rewrite E). eapply family_heads; [|exact Hf]. intros j. unfold heads. by rewrite E.
Qed.

Lemma release_slab_spec m st ls fr i k s l1 l2 : slab_inv m st ls fr → cache_pool st !! i = Some k →
  ls (i, false) = l1 ++ s :: l2 → Z.of_nat (length (fr s)) = slots_per_slab k →
  let '(m', st') := release_slab (Z.of_nat i + 1) s m st in
  let ls' := Dll.upd ls (i, false) (l1 ++ l2) in
  slab_inv m' st' ls' fr ∧ geom st st' ∧ released st' = s - DIRECT_MAP_BASE :: released st ∧ get m' s s_magic = 0 ∧
  (∀ j, s ∉ ls' j) ∧ hdrs_only (λ t, ∃ j, t ∈ ls j) m m' ∧ (∀ q n, live st' ls' fr q n ↔ live st ls fr q n).
Proof.
  intros Hi Hk Hl Hfull. assert (Hs : s ∈ ls (i, false)) by (rewrite Hl; set_solver).
  destruct (si_page _ _ _ _ Hi i false s k Hk Hs) as [Hpg _]. apply slab_inv_parts in Hi as (Hpre & Hst & Hu).
  destruct (moved_elem m st ls fr i false s l1 l2 Hpre Hl) as [Hnew _].
  unfold release_slab. rewrite (cache_of_idx i k st Hk). pose proof (pre_remove m st ls fr i false k s l1 l2 Hpre Hk Hl) as Hrm.
  rewrite (heads_at st i false k Hk) in Hrm. destruct (slab_list_remove (partial k) s m) as [m1 h].
  destruct Hrm as (Hpre1 & _ & Hh). change (set_head false h) with (set_partial h) in Hpre1. cbv zeta.
  set (g := λ k, set_slabs (u64 (total_slabs k - 1)) k).
  assert (Hto : pool_to i (g (set_partial h k)) st (upd_cache (Z.of_nat i + 1) g (upd_cache (Z.of_nat i + 1) (set_partial h) st))).
  { apply pool_to_step. by apply pool_to_upd. }
  apply (pre_stats _ _ _ _ i g) in Hpre1; [|done]. set (st1 := upd_cache _ g _) in *. set (ls' := Dll.upd ls (i, false) (l1 ++ l2)) in *.
  set (st2 := SlabSt (cache_pool st1) (cache_registry st1) _).
  assert (Hg : geom st st2) by (by eapply (pool_to_geom i k (g (set_partial h k)) st st2)).
  assert (Hperm : pages_of ls i ≡ₚ s :: pages_of ls' i).
  { unfold ls'. rewrite pages_upd_partial. unfold pages_of. rewrite Hl. solve_Permutation. }
  assert (Hsub : ∀ j t, t ∈ ls' j → t ∈ ls j).
  { intros j t [[-> Ht]|[_ ?]]%Dll.elem_upd; [|done]. rewrite Hl. set_solver. }
  assert (Hlive : ∀ q n, live st2 ls' fr q n ↔ live st ls fr q n).
  { intros q n. rewrite (live_geom st st2 ls' ls') by done. split.
    - intros (j & f & t & kj & Hkj & Ht & Hq). exists j, f, t, kj. split_and!; try done; [by apply Hsub|apply Hq..].
    - intros (j & f & t & kj & Hkj & Ht & Hq & Hnf & ->). exists j, f, t, kj. split_and!; try done.
      apply Dll.elem_upd. destruct (decide ((j, f) = (i, false))) as [[= -> ->]|]; [left|by right]. split; [done|].
      rewrite Hl in Ht. apply elem_of_app in Ht as [|[->|]%elem_of_cons]; [set_solver| |set_solver].
      destruct Hnf. eapply all_free; [exact Hpg|done|]. assert (kj = k) as -> by congruence. done. }
  split_and!; try done.
  - apply slab_inv_parts. split_and!.
    + eapply (pre_pool _ st1); [done|]. eapply (pre_off m1); [done|apply Hpg|done|]. intros w Hw. unfold set. apply wr_ne. cbn. lia.
    + intros j f t Ht%Hsub. exact (Hst _ _ _ Ht).
    + assert (pool_to i (g (set_partial h k)) st st2) as Hto2 by exact Hto.
      eapply (uses_to i k); [done..| | |]; [intros j Hj; by apply pages_upd_ne|done|].
      destruct (counted_perm k fr _ _ Hperm (Hu i k Hk)) as [H1 H2]. split.
      * cbn [objs_in_use g set_slabs set_partial]. rewrite H1. f_equal. unfold used_slots. rewrite zsum_cons. rewrite Hfull. cbn [slots_per_slab]. unfold g. cbn [slots_per_slab set_slabs set_partial]. lia.
      * unfold g. cbn [total_slabs set_slabs set_partial]. rewrite H2. replace (u64 (Z.of_nat _) - 1) with (u64 (Z.of_nat (length (s :: pages_of ls' i))) + -1) by lia.
        rewrite u64_add. f_equal. cbn [length]. lia.
  - unfold st2. cbn. f_equal. apply u64_small. destruct (po_addr _ _ _ _ _ Hpg) as [_ ?]. unfold DIRECT_MAP_BASE, DIRECT_MAP_SPAN in *. lia.
  - apply get_set_eq.
  - eapply hdrs_only_trans; [eapply hdrs_only_mono; [|exact Hh]; by eexists|]. apply hdrs_only_set. by eexists.
Qed.

(** ** slab_free *)

(** [obj] is the only object in use on its page. *)
Definition alone (st : slab_st) (ls : nat * bool → list Z) (fr : Z → list Z) (obj : Z) : Prop :=
  ∀ q n, live st ls fr q n → page_base q = page_base obj → q = obj.

Lemma all_free_iff k s l : cache_ok k → NoDup l → (∀ x, x ∈ l → is_slot k s x) →
  Z.of_nat (length l) = slots_per_slab k ↔ ∀ x, is_slot k s x → x ∈ l.
Proof.
  intros Hk Hnd Hl. set (all := slot k s <$> seqZ 0 (slots_per_slab k)).
  assert (Hall : ∀ x, x ∈ all ↔ is_slot k s x).
  { intros x. unfold all, is_slot. rewrite list_elem_of_fmap. setoid_rewrite elem_of_seqZ. split; intros (i & ? & ?); exists i; split; (done || lia). }
  assert (Hlen : length all = Z.to_nat (slots_per_slab k)) by (unfold all; by rewrite length_fmap, length_seqZ).
  pose proof (ca_slots k Hk). assert (Hsub : l ⊆+ all) by (apply NoDup_submseteq; [done|]; intros x Hx; by apply Hall, Hl). split.
  - intros He x Hx. rewrite (submseteq_length_Permutation l all); [by apply Hall|done|lia].
  - intros Hx. assert (all ⊆+ l) as Hsub2.
    { apply NoDup_submseteq; [|intros x ?%Hall; by apply Hx]. apply NoDup_fmap_2_strong; [|apply NoDup_seqZ].
      intros i j _ _. unfold slot. pose proof (ca_size k Hk). nia. }
    apply submseteq_length in Hsub, Hsub2. lia.
Qed.

Lemma alone_iff m st ls fr i f k s obj : slab_inv m st ls fr → cache_pool st !! i = Some k → s ∈ ls (i, f) →
  is_slot k s obj → obj ∉ fr s → alone st ls fr obj ↔ Z.of_nat (S (length (fr s))) = slots_per_slab k.
Proof.
  intros Hi Hk Hs Hsl Hnf. pose proof (si_cache _ _ _ _ Hi i k Hk) as Hok. destruct (si_page _ _ _ _ Hi i f s k Hk Hs) as [Hp _].
  pose proof (page_base_slot k s obj Hok (po_addr _ _ _ _ _ Hp) Hsl) as Eb.
  change (S (length (fr s))) with (length (obj :: fr s)). rewrite (all_free_iff k s); [|done| |].
  2:{ constructor; [done|apply Hp]. }
  2:{ intros x [->|Hx]%elem_of_cons; [done|by apply (po_slots _ _ _ _ _ Hp)]. }
  unfold alone. rewrite Eb. split.
  - intros Ha x Hx. destruct (decide (x ∈ fr s)); [by right|]. rewrite (Ha x (obj_size k)); [by left| |].
    + by exists i, f, s, k.
    + by apply (page_base_slot k s x Hok (po_addr _ _ _ _ _ Hp)).
  - intros Ha q n (i' & f' & s' & k' & Hk' & Hs' & Hq & Hqf & _) Hb.
    destruct (si_page _ _ _ _ Hi i' f' s' k' Hk' Hs') as [Hp' _].
    rewrite (page_base_slot k' s' q (si_cache _ _ _ _ Hi i' k' Hk') (po_addr _ _ _ _ _ Hp') Hq) in Hb. subst s'.
    pose proof (po_cache _ _ _ _ _ Hp) as H1. rewrite (po_cache _ _ _ _ _ Hp') in H1. assert (i' = i) as -> by lia.
    assert (k' = k) as -> by congruence. by destruct (proj1 (elem_of_cons _ _ _) (Ha q Hq)).
Qed.

(** [obj] is no longer an object; its page has been given back exactly when no
    other object on it is in use. *)
Record freed (obj : Z) (m m' : mem) (st st' : slab_st) (ls ls' : nat * bool → list Z) (fr fr' : Z → list Z) : Prop := {
  fd_inv : slab_inv m' st' ls' fr';
  fd_geom : geom st st';
  fd_live : ∀ q n, live st' ls' fr' q n ↔ live st ls fr q n ∧ q ≠ obj;
  fd_off : ∀ w, off_pages ls w → m' !! w = m !! w;
  fd_keep : ∀ q n w, live st ls fr q n → q ≠ obj → q ≤ w < q + n → m' !! w = m !! w;
  fd_pages : (¬ alone st ls fr obj ∧ released st' = released st ∧ ∀ s, (∃ j, s ∈ ls' j) ↔ (∃ j, s ∈ ls j)) ∨
    (alone st ls fr obj ∧ released st' = page_base obj - DIRECT_MAP_BASE :: released st ∧ get m' (page_base obj) s_magic = 0 ∧
     ∀ s, (∃ j, s ∈ ls' j) ↔ s ≠ page_base obj ∧ (∃ j, s ∈ ls j)) }.

(** Writes confined to headers and to [obj] keep the rest. *)
Lemma freed_frame (m m' : mem) st ls fr obj n0 : slab_inv m st ls fr → live st ls fr obj n0 →
  (∀ w, w ≠ obj → (∀ j t, t ∈ ls j → ¬ t ≤ w < t + 48) → m' !! w = m !! w) →
  (∀ w, off_pages ls w → m' !! w = m !! w) ∧
  (∀ q n w, live st ls fr q n → q ≠ obj → q ≤ w < q + n → m' !! w = m !! w).
Proof.
  intros Hi Ho Hm. destruct (live_range _ _ _ _ _ _ Hi Ho) as (_ & _ & ? & _). split.
  - intros w Hw. apply Hm; [|intros j t Ht ?; apply (Hw j t Ht); lia]. intros ->.
    destruct (live_in_page _ _ _ _ _ _ obj Hi Ho ltac:(lia)) as (j & s & Hs & ?). by apply (Hw j s).
  - intros q n w Hq Hne Hw. apply Hm; [|by apply (live_clear _ _ _ _ _ _ w Hi Hq)].
    destruct (live_disjoint _ _ _ _ _ _ _ _ Hi Hq Ho Hne); lia.
Qed.

Lemma slab_free_spec m st ls fr c obj n0 : slab_inv m st ls fr → live st ls fr obj n0 →
  (c = 0 ∨ c = get m (page_base obj) s_cache) →
  let '(m', st') := slab_free c obj m st in ∃ ls' fr', freed obj m m' st st' ls ls' fr fr'.
Proof.
  intros Hi Ho Hc. pose proof Ho as (i & f & s & k & Hk & Hs & Hsl & Hnf & _). pose proof (si_cache _ _ _ _ Hi i k Hk) as Hok.
  destruct (si_page _ _ _ _ Hi i f s k Hk Hs) as [Hp _]. pose proof (page_base_slot k s obj Hok (po_addr _ _ _ _ _ Hp) Hsl) as Eb.
  rewrite Eb, (po_cache _ _ _ _ _ Hp) in Hc. destruct (page_counts _ _ _ _ _ Hok Hp) as (Efc & Ets & _).
  pose proof (alone_iff m st ls fr i f k s obj Hi Hk Hs Hsl Hnf) as Hal.
  apply list_elem_of_split in Hs as (l1 & l2 & Hl).
  pose proof (put_slot_spec m st ls fr i f k s obj l1 l2 Hi Hk Hl Hsl Hnf) as Hput.
  destruct (slot_bound k s obj Hok Hsl). pose proof (po_addr _ _ _ _ _ Hp) as [_ Hr].
  unfold slab_free. rewrite (proj2 (Z.eqb_neq obj 0)) by (unfold DIRECT_MAP_BASE in *; lia). cbv zeta.
  rewrite Eb, (po_magic _ _ _ _ _ Hp), Z.eqb_refl, (po_cache _ _ _ _ _ Hp), Ets, Efc. cbn [negb].
  assert (negb (c =? 0) && negb (Z.of_nat i + 1 =? c) = false) as ->.
  { destruct Hc as [->| ->]; [done|]. by rewrite Z.eqb_refl, andb_false_r. }
  rewrite (on_list_spec m _ (fr s)) by (apply Hp || by eapply slot_chain_length; apply Hp). rewrite bool_decide_false by done.
  destruct (put_slot _ s obj m st) as [m1 st1]. destruct Hput as (Hr1 & ls1 & Hi1 & Hs1 & [Hpp (k1 & Hto & Hsh) Hm1]).
  pose proof (pool_to_geom i k k1 st st1 Hk Hto Hsh) as Hg1. pose proof (pool_to_at _ _ _ _ Hto) as Hk1.
  set (fr1 := upd_free fr s (obj :: fr s)) in *. assert (Efr : fr1 s = obj :: fr s) by apply upd_free_eq.
  destruct (si_page _ _ _ _ Hi1 i false s k1 Hk1 Hs1) as [Hp1 _]. pose proof (si_cache _ _ _ _ Hi1 i k1 Hk1) as Hok1.
  destruct (page_counts _ _ _ _ _ Hok1 Hp1) as (Ef1 & Et1 & Hle1). rewrite Efr in Ef1, Hle1. cbn [length] in Ef1, Hle1.
  assert (slots_per_slab k1 = slots_per_slab k) as Esl by (by injection Hsh).
  assert (Hlv1 : ∀ q n, live st1 ls1 fr1 q n ↔ live st ls fr q n ∧ q ≠ obj).
  { intros q n. rewrite (live_geom st st1 ls ls1) by done. eapply (live_put m); [by apply inv_pre|done| |done]. rewrite Hl. set_solver. }
  rewrite (proj2 (Z.leb_gt (slots_per_slab k) _)) by lia. rewrite Ef1, Et1.
  destruct (Z.eqb_spec (Z.of_nat (S (length (fr s)))) (slots_per_slab k1)) as [Efull|]; rewrite <- Esl in Hal.
  - apply list_elem_of_split in Hs1 as (r1 & r2 & Hl1). pose proof (release_slab_spec m1 st1 ls1 fr1 i k1 s r1 r2 Hi1 Hk1 Hl1) as Hrel.
    destruct (release_slab _ s m1 st1) as [m2 st2]. cbv zeta in Hrel. rewrite Efr in Hrel. destruct Hrel as (Hi2 & Hg2 & Hr2 & Hmg & Hnew & Hh2 & Hlv2); [done|].
    destruct (freed_frame m m2 st ls fr obj n0 Hi Ho) as [Hoff Hkeep].
    { intros w Hne Hw. rewrite Hh2; [by apply Hm1|]. intros t Ht. apply (pages_perm ls ls1 t Hpp) in Ht as [j Ht]. by apply (Hw j). }
    exists (Dll.upd ls1 (i, false) (r1 ++ r2)), fr1. split; try done; [by eapply geom_trans|intros q n; by rewrite Hlv2|].
    right. rewrite Eb. split_and!; [by apply Hal|by rewrite Hr2, Hr1|done|]. intros t. rewrite <- (pages_perm ls ls1 t Hpp). split.
    + intros [j Hj]. split; [intros ->; by apply (Hnew j)|]. exists j. apply Dll.elem_upd in Hj as [[-> Hj]|[_ ?]]; [|done]. rewrite Hl1. set_solver.
    + intros [Hne [j Hj]]. exists j. apply Dll.elem_upd. destruct (decide (j = (i, false))) as [->|]; [left|by right].
      split; [done|]. rewrite Hl1 in Hj. set_solver.
  - destruct (freed_frame m m1 st ls fr obj n0 Hi Ho) as [Hoff Hkeep]; [by intros; apply Hm1|].
    exists ls1, fr1. split; try done. left. rewrite Hal. split_and!; [done|done|]. intros t. by apply pages_perm.
Qed.

(** A slot that is already free is refused, through any cache handle. *)
Lemma slab_free_blocked m st ls fr c j s obj : slab_inv m st ls fr → s ∈ ls j → obj ∈ fr s → slab_free c obj m st = (m, st).
Proof.
  intros Hi Hs Ho. destruct (inv_cache _ _ _ _ _ _ Hi Hs) as (k & Hk & Hp & _ & Hok).
  pose proof (po_slots _ _ _ _ _ Hp _ Ho) as Hsl. pose proof (page_base_slot k s obj Hok (po_addr _ _ _ _ _ Hp) Hsl) as Eb.
  unfold slab_free. destruct (obj =? 0); [done|]. cbv zeta. rewrite Eb. destruct (negb _); [done|]. destruct (negb _ && _); [done|].
  destruct (_ <=? _); [done|]. rewrite (on_list_spec m _ (fr s)) by (apply Hp || by eapply slot_chain_length; apply Hp).
  by rewrite bool_decide_true.
Qed.

End SlabFree.
