(* ===== verification/SlabCreate.v ===== *)
(** * Slab: creating a cache *)

From S2P Require Import Prelude Bytes Words Dll Heap Kmalloc Slab SlabInv SlabSteps SlabGrow SlabOps SlabAlloc.

Module SlabCreate.
Import Heap Kmalloc Slab SlabInv SlabSteps SlabGrow SlabOps SlabAlloc.

(** ** Alignment *)

Lemma next_pow2_spec fuel e a : 0 ≤ e → a ≤ 2 ^ 63 → 63 ≤ e + Z.of_nat fuel → e ≤ 63 →
  ∃ e', next_pow2 fuel (2 ^ e) a = 2 ^ e' ∧ e ≤ e' ≤ 63 ∧ a ≤ 2 ^ e' ∧ (e < e' → 2 ^ (e' - 1) < a).
Proof.
  revert e. induction fuel as [|fuel IH]; intros e He Ha Hf Hm; cbn [next_pow2].
  - exists e. assert (e = 63) as -> by lia. split_and!; try done; lia.
  - destruct (Z.ltb_spec (2 ^ e) a) as [Hlt|Hge]; [|exists e; split_and!; try done; lia].
    assert (e < 63) by (destruct (decide (e = 63)) as [->|]; lia).
    rewrite Z.shiftl_mul_pow2 by lia. assert (2 ^ e * 2 ^ 1 = 2 ^ (e + 1)) as -> by (by rewrite <- Z.pow_add_r by lia).
    assert (2 ^ (e + 1) ≤ 2 ^ 63) by (apply Z.pow_le_mono_r; lia). rewrite u64_small by lia.
    destruct (IH (e + 1)) as (e' & E & H1 & H2 & H3); [lia..|]. exists e'. split_and!; try done; try lia.
    intros _. destruct (decide (e' = e + 1)) as [->|]; [by replace (e + 1 - 1) with e by lia|apply H3; lia].
Qed.

(** The alignment is a power of two from 8 on that covers the request, and no
    larger than needed. *)
Lemma normalize_align_spec al : 0 ≤ al ≤ 2 ^ 63 →
  ∃ e, normalize_align al = 2 ^ e ∧ 3 ≤ e ≤ 63 ∧ al ≤ 2 ^ e ∧ (al ≤ 16 → e ≤ 4) ∧ (16 < al → 2 ^ (e - 1) < al) ∧ (al = 0 → e = 4).
Proof.
  intros Ha. unfold normalize_align, SLAB_DEFAULT_ALIGN, SLAB_MIN_ALIGN. cbv zeta.
  set (a1 := if al =? 0 then 16 else al). set (a2 := if a1 <? 8 then 8 else a1).
  assert (al ≤ a2 ∧ 8 ≤ a2 ≤ 2 ^ 63 ∧ (al ≤ 16 → a2 ≤ 16) ∧ (16 < al → a2 = al) ∧ (al = 0 → a2 = 16)) as (H1 & H2 & H3 & H4 & H5).
  { subst a1 a2. destruct (Z.eqb_spec al 0); [subst al; cbn; lia|]. destruct (Z.ltb_spec al 8); lia. }
  destruct (next_pow2_spec 61 3 a2) as (e & E & He & Hc & Hm); [lia..|]. change (2 ^ 3) with 8 in E. exists e.
  assert (Hp : 4 < e → 2 ^ 4 ≤ 2 ^ (e - 1)) by (intros; apply Z.pow_le_mono_r; lia).
  split_and!; try done; try lia.
  - intros Hs. rewrite (H4 Hs) in *. apply Hm. destruct (decide (e = 3)) as [->|]; lia.
  - intros Hz. rewrite (H5 Hz) in *. destruct (Z.lt_trichotomy e 4) as [|[|]]; [|done|specialize (Hm ltac:(lia)); lia].
    assert (2 ^ e ≤ 2 ^ 3) by (apply Z.pow_le_mono_r; lia). lia.
Qed.

(** ** Geometry of a new cache *)

(** Slot size for objects of [osize] bytes at alignment [a]. *)
Definition slot_size (osize a : Z) : Z := (Z.max osize 8 + a - 1) / a * a.

Lemma round_up_wide v e : 0 ≤ e < 64 → 0 ≤ v → v + 2 ^ e ≤ 2 ^ 64 → round_up v (2 ^ e) = (v + 2 ^ e - 1) / 2 ^ e * 2 ^ e.
Proof.
  intros He Hv Hb. unfold round_up. assert (0 < 2 ^ e) by (apply Z.pow_pos_nonneg; lia).
  rewrite u64_small by lia. replace (v + (2 ^ e - 1)) with (v + 2 ^ e - 1) by lia. apply land_not_ones; lia.
Qed.

Definition new_cache (osize a reg : Z) : slab_cache :=
  let first := (48 + a - 1) / a * a in
  Cache (slot_size osize a) a ((4096 - first) / slot_size osize a) 0 0 0 0 0 0 reg.

Lemma div_up v a : 0 < a → v ≤ (v + a - 1) / a * a < v + a.
Proof. intros Ha. pose proof (Z.div_mod (v + a - 1) a ltac:(lia)). pose proof (Z.mod_pos_bound (v + a - 1) a Ha). nia. Qed.

(** A slot fits behind the header. *)
Definition roomy (osize a : Z) : Prop := (48 + a - 1) / a * a + slot_size osize a ≤ 4096.

#[export] Instance roomy_dec osize a : Decision (roomy osize a).
Proof. unfold roomy. apply _. Defined.

Lemma slab_cache_create_eq osize al e st : 0 ≤ osize < 2 ^ 63 → normalize_align al = 2 ^ e → 3 ≤ e ≤ 63 →
  slab_cache_create osize al st =
  if bool_decide (osize ≠ 0 ∧ roomy osize (2 ^ e) ∧ Z.of_nat (length (cache_pool st)) < 64) then
    (SlabSt (cache_pool st ++ [new_cache osize (2 ^ e) (cache_registry st)]) (Z.of_nat (length (cache_pool st)) + 1) (released st),
     Z.of_nat (length (cache_pool st)) + 1)
  else (st, 0).
Proof.
  intros Ho Ea He. unfold slab_cache_create. destruct (Z.eqb_spec osize 0) as [->|Hnz]; [by rewrite bool_decide_false by tauto|].
  rewrite Ea. cbv zeta. change PAGE_SIZE with 4096. change sizeof_slab with 48. set (a := 2 ^ e).
  assert (8 ≤ a ≤ 2 ^ 63) as Ha by (split; [change 8 with (2 ^ 3)|]; apply Z.pow_le_mono_r; lia).
  assert ((if osize <? 8 then 8 else osize) = Z.max osize 8) as -> by (destruct (Z.ltb_spec osize 8); lia).
  assert (∀ v, 0 ≤ v < 2 ^ 63 → round_up v a = (v + a - 1) / a * a) as Hup by (intros v ?; apply round_up_wide; fold a; lia).
  rewrite !Hup by lia.
  change ((Z.max osize 8 + a - 1) / a * a) with (slot_size osize a).
  pose proof (div_up 48 a ltac:(lia)) as H1. pose proof (div_up (Z.max osize 8) a ltac:(lia)) as H2.
  change ((Z.max osize 8 + a - 1) / a * a) with (slot_size osize a) in H2.
  unfold roomy. set (first := (48 + a - 1) / a * a) in *. set (sz := slot_size osize a) in *.
  destruct (Z.leb_spec 4096 first); [rewrite bool_decide_false by lia; done|].
  assert (Hd : (4096 - first) / sz ≤ 4096) by (transitivity (4096 - first); [apply Z.div_le_upper_bound; nia|lia]).
  pose proof (Z.div_pos (4096 - first) sz ltac:(lia) ltac:(lia)). rewrite u32_small by lia.
  destruct (Z.eqb_spec ((4096 - first) / sz) 0) as [Hz|Hz].
  { apply Z.div_small_iff in Hz; [|lia]. rewrite bool_decide_false by lia. done. }
  assert (first + sz ≤ 4096). { destruct (Z.le_gt_cases (first + sz) 4096); [done|]. rewrite Z.div_small in Hz by lia. done. }
  change MAX_SLAB_CACHES with 64. destruct (Z.leb_spec 64 (Z.of_nat (length (cache_pool st)))).
  - rewrite bool_decide_false by lia. done.
  - rewrite bool_decide_true by lia. done.
Qed.

Lemma new_cache_ok osize e reg : 0 < osize → 3 ≤ e → roomy osize (2 ^ e) → cache_ok (new_cache osize (2 ^ e) reg).
Proof.
  intros Ho He Hr. unfold roomy in Hr. set (a := 2 ^ e) in *. assert (8 ≤ a) by (change 8 with (2 ^ 3); apply Z.pow_le_mono_r; lia).
  pose proof (div_up (Z.max osize 8) a ltac:(lia)) as H2. pose proof (div_up 48 a ltac:(lia)) as H1. unfold slot_size in Hr.
  assert (e ≤ 11). { destruct (Z.le_gt_cases e 11); [done|]. assert (2 ^ 12 ≤ a) by (apply Z.pow_le_mono_r; lia).
    assert (0 < (48 + a - 1) / a) by (apply Z.div_str_pos; lia). nia. }
  pose proof (Z.mul_div_le (4096 - (48 + a - 1) / a * a) ((Z.max osize 8 + a - 1) / a * a) ltac:(lia)).
  split; unfold new_cache, hdr_len, slot_size; cbn [obj_size align slots_per_slab].
  - by exists e.
  - lia.
  - by eexists.
  - apply Z.div_le_lower_bound; lia.
  - lia.
Qed.

(** A new, empty cache at the end of the pool. *)
Lemma slab_inv_new m st ls fr k reg : slab_inv m st ls fr → cache_ok k → partial k = 0 → full k = 0 →
  objs_in_use k = 0 → total_slabs k = 0 → slab_inv m (SlabSt (cache_pool st ++ [k]) reg (released st)) ls fr.
Proof.
  intros Hi Hk Ep Ef Eo Et. set (n := length (cache_pool st)).
  assert (Hn : ∀ f, ls (n, f) = []) by (intros f; apply (si_none _ _ _ _ Hi), lookup_ge_None; done).
  assert (Hl : ∀ i ki, (cache_pool st ++ [k]) !! i = Some ki → cache_pool st !! i = Some ki ∨ (i = n ∧ ki = k)).
  { intros i ki [|[? H]]%lookup_app_Some; [by left|right]. apply list_lookup_singleton_Some in H as [? ->]. split; [unfold n; lia|done]. }
  split; cbn [cache_pool].
  - eapply family_heads; [|apply Hi]. intros [i f]. unfold heads. cbn [fst snd cache_pool].
    destruct (cache_pool st !! i) as [ki|] eqn:E; [by rewrite (lookup_app_l_Some _ _ _ _ E)|].
    destruct ((cache_pool st ++ [k]) !! i) as [ki|] eqn:E2; [|done]. destruct (Hl _ _ E2) as [|[_ ->]]; [congruence|].
    destruct f; done.
  - intros i ki [|[_ ->]]%Hl; [by eapply si_cache|done].
  - intros i f s ki [|[-> ->]]%Hl Hs; [by eapply si_page|]. rewrite Hn in Hs. set_solver.
  - intros i f He%lookup_ge_None. rewrite length_app in He. apply (si_none _ _ _ _ Hi), lookup_ge_None. lia.
  - intros i ki [|[-> ->]]%Hl; [by apply (si_use _ _ _ _ Hi)|]. unfold pages_of. rewrite !Hn, Eo, Et. done.
Qed.

End SlabCreate.
