(* ===== verification/SlabProps.v ===== *)
(** * Slab: theorems

    The slab allocator under any sequence of requests, and the contract of each
    operation. *)

From S2P Require Import Prelude Bytes Words Dll Heap Kmalloc Slab SlabInv SlabSteps SlabGrow SlabOps SlabAlloc SlabFree SlabCreate.

Module SlabProps.
Import Heap Kmalloc Slab SlabInv SlabSteps SlabGrow SlabOps SlabAlloc SlabFree SlabCreate.

Lemma slab_boot_inv m : slab_inv m slab_boot (λ _, []) (λ _, []).
Proof.
  split; try done; try (intros; set_solver). split; try done; try (intros; set_solver).
  intros. constructor.
Qed.

Lemma slab_create_inv m st ls fr osize al : slab_inv m st ls fr → 0 ≤ osize < 2 ^ 63 → 0 ≤ al ≤ 2 ^ 63 →
  slab_inv m (fst (slab_cache_create osize al st)) ls fr.
Proof.
  intros Hi Ho Ha. destruct (normalize_align_spec al Ha) as (e & Ea & He & _).
  rewrite (slab_cache_create_eq osize al e st Ho Ea He). case_bool_decide as H; [|done].
  apply slab_inv_new; try done. apply new_cache_ok; [lia|lia|tauto].
Qed.

(** ** The allocator as a transition system *)

(** [objs] are the objects handed out with their sizes, [held] the pages the
    physical allocator has given and not taken back. *)
Record sys := Sys { s_mem : mem; s_st : slab_st; objs : list (Z * Z); held : list Z }.

(** A page handed out is not held already. *)
Definition grantable (page : Z) (s : sys) : Prop :=
  page = 0 ∨ (page_addr (DIRECT_MAP_BASE + page) ∧ DIRECT_MAP_BASE + page ∉ held s).

Definition held_alloc (c page : Z) (s : sys) : list Z :=
  if (partial (cache_of c (s_st s)) =? 0) && negb (page =? 0) then DIRECT_MAP_BASE + page :: held s else held s.

(** The pages still held once [rel], newly released, went back. *)
Definition held_free (old new : list Z) (pg : list Z) : list Z :=
  if bool_decide (old = new) then pg
  else match new with p :: _ => filter (λ s, s ≠ DIRECT_MAP_BASE + p) pg | [] => pg end.

Inductive slab_step : sys → sys → Prop :=
| step_create s osize al : 0 ≤ osize < 2 ^ 63 → 0 ≤ al ≤ 2 ^ 63 →
    slab_step s (Sys (s_mem s) (fst (slab_cache_create osize al (s_st s))) (objs s) (held s))
| step_alloc s i k pages m' st' p : cache_pool (s_st s) !! i = Some k → grantable (next_page pages) s →
    slab_alloc (Z.of_nat i + 1) pages (s_mem s) (s_st s) = (m', st', p) →
    slab_step s (Sys m' st' (if p =? 0 then objs s else (p, obj_size k) :: objs s) (held_alloc (Z.of_nat i + 1) (next_page pages) s))
| step_free s p n m' st' : (p, n) ∈ objs s → slab_free 0 p (s_mem s) (s_st s) = (m', st') →
    slab_step s (Sys m' st' (filter (λ o, fst o ≠ p) (objs s)) (held_free (released (s_st s)) (released st') (held s)))
| step_write s p n w v : (p, n) ∈ objs s → p ≤ w < p + n →
    slab_step s (Sys (wr (s_mem s) w v) (s_st s) (objs s) (held s)).

Definition sys_inv (s : sys) : Prop := ∃ ls fr, slab_inv (s_mem s) (s_st s) ls fr ∧
  (∀ p n, (p, n) ∈ objs s ↔ live (s_st s) ls fr p n) ∧ NoDup (objs s).*1 ∧ (∀ t, t ∈ held s ↔ ∃ j, t ∈ ls j).

Lemma live_create st ls fr osize al m p n : slab_inv m st ls fr → 0 ≤ osize < 2 ^ 63 → 0 ≤ al ≤ 2 ^ 63 →
  live (fst (slab_cache_create osize al st)) ls fr p n ↔ live st ls fr p n.
Proof.
  intros Hi Ho Ha. destruct (normalize_align_spec al Ha) as (e & Ea & He & _).
  rewrite (slab_cache_create_eq osize al e st Ho Ea He). case_bool_decide as H; [|done]. cbn [fst]. split.
  - intros (i & f & s & k & Hk & Hs & Hq). cbn in Hk. apply lookup_app_Some in Hk as [Hk|[Hge _]]; [by exists i, f, s, k|].
    rewrite (si_none _ _ _ _ Hi i f) in Hs by (by apply lookup_ge_None). set_solver.
  - intros (i & f & s & k & Hk & Hs & Hq). exists i, f, s, k. split; [by apply lookup_app_l_Some|done].
Qed.

Lemma objs_live_fun m st ls fr p n n' : slab_inv m st ls fr → live st ls fr p n → live st ls fr p n' → n = n'.
Proof.
  intros Hi (i & f & s & k & Hk & Hs & Hp & _ & ->) (j & g & t & k' & Hk' & Ht & Hp' & _ & ->).
  destruct (slot_bound _ _ _ (si_cache _ _ _ _ Hi i k Hk) Hp), (slot_bound _ _ _ (si_cache _ _ _ _ Hi j k' Hk') Hp').
  pose proof (ca_size _ (si_cache _ _ _ _ Hi i k Hk)). pose proof (ca_size _ (si_cache _ _ _ _ Hi j k' Hk')).
  destruct (pages_apart _ _ _ _ _ _ _ _ Hi Hs Ht) as [->|]; [|lia].
  pose proof (Dll.fa_disj _ _ _ _ _ (si_family _ _ _ _ Hi) _ _ _ Hs Ht) as [= <- <-]. congruence.
Qed.

Lemma NoDup_filter_fst (l : list (Z * Z)) p : NoDup l.*1 → NoDup (filter (λ o, fst o ≠ p) l).*1.
Proof.
  induction l as [|[q n] l IH]; [done|]. cbn [fmap list_fmap fst]. intros [Hni Hnd]%NoDup_cons.
  rewrite filter_cons. case_decide; [|auto]. cbn. apply NoDup_cons. split; [|auto].
  intros (o & -> & [_ Ho]%list_elem_of_filter)%list_elem_of_fmap. apply Hni. apply list_elem_of_fmap. by exists o.
Qed.

Lemma slab_step_inv s s' : sys_inv s → slab_step s s' → sys_inv s'.
Proof.
  intros (ls & fr & Hi & Ho & Hnd & Hh) Hst. destruct Hst as [s osize al H1 H2|s i k pages m' st' p Hk Hg Ha|s p n m' st' Hp Hf|s p n w v Hp Hw].
  - exists ls, fr. split_and!; cbn; [by apply slab_create_inv| |done|done]. intros p n. rewrite (live_create _ _ _ _ _ (s_mem s)) by done. apply Ho.
  - pose proof (slab_alloc_spec _ _ ls fr i k pages Hi Hk) as Hs. rewrite Ha in Hs.
    destruct Hs as [(-> & -> & -> & Hl & Hz)|(_ & _ & ls' & fr' & [Hnz _ Hnew Hi' _ Hpg Hlv])].
    { destruct Hg as [|[Hpa Hni]]; [by left|right]. split; [done|]. intros j Hj. apply Hni, Hh. by exists j. }
    + exists ls, fr. unfold held_alloc. rewrite Hz, andb_false_r. by split_and!.
    + exists ls', fr'. rewrite (proj2 (Z.eqb_neq p 0) Hnz). split_and!; cbn [s_mem s_st objs held]; [done| | |].
      * intros q n. rewrite elem_of_cons, Hlv, <- Ho. split; [intros [[= -> ->]|]; auto|]. intros [|[-> ->]]; auto.
      * cbn [fmap list_fmap fst]. apply NoDup_cons. split; [|done]. intros ([q n] & -> & Hq)%list_elem_of_fmap. apply Ho in Hq. by apply (Hnew n).
      * intros t. rewrite (Hpg t). unfold held_alloc, taken.
        rewrite (cache_of_idx i k _ Hk), (partial_head _ _ _ _ _ _ Hi Hk). destruct (ls (i, false)) as [|x l] eqn:Hl; cbn [hd].
        { destruct (Z.eqb_spec (next_page pages) 0); cbn; rewrite ?elem_of_cons, Hh; naive_solver. }
        rewrite (proj2 (Z.eqb_neq x 0)); [cbn; rewrite Hh; naive_solver|]. apply page_nonzero.
        apply (pre_addr _ _ ls fr (i, false) x (inv_pre _ _ _ _ Hi)). rewrite Hl. by left.
  - assert (Hlp : live (s_st s) ls fr p n) by (by apply Ho).
    pose proof (slab_free_spec _ _ ls fr 0 p n Hi Hlp ltac:(by left)) as Hs. rewrite Hf in Hs.
    destruct Hs as (ls' & fr' & [Hi' _ Hlv _ _ Hpg]). exists ls', fr'. split_and!; cbn [s_mem s_st objs held]; [done| | |].
    + intros q k. rewrite list_elem_of_filter, Ho, Hlv. cbn. tauto.
    + by apply NoDup_filter_fst.
    + intros t. unfold held_free. destruct Hpg as [(_ & -> & Hpg)|(_ & -> & _ & Hpg)].
      * rewrite bool_decide_true by done. by rewrite Hh, Hpg.
      * rewrite bool_decide_false by (intros E%(f_equal length); cbn in E; lia).
        rewrite list_elem_of_filter, Hh, Hpg. replace (DIRECT_MAP_BASE + (page_base p - DIRECT_MAP_BASE)) with (page_base p) by lia. done.
  - exists ls, fr. split_and!; cbn; [|done..]. eapply slab_user_write; [done|by apply Ho|done].
Qed.

Definition slab_start (m : mem) : sys := Sys m slab_boot [] [].

Lemma slab_reachable_inv m s : rtc slab_step (slab_start m) s → sys_inv s.
Proof.
  intros H. assert (sys_inv (slab_start m)) as H0.
  { exists (λ _, []), (λ _, []). split_and!; [apply slab_boot_inv| |constructor|cbn; intros; set_solver].
    intros p n. cbn. split; [set_solver|]. intros (i & f & s' & k & Hk & _). by destruct i. }
  revert H0. induction H as [|x y z Hxy _ IH]; [done|]. intros Hx. apply IH. by eapply slab_step_inv.
Qed.

(** ** Properties *)

(** C22: objects never overlap and never meet the allocator's own data.  After
    any sequence of cache creations, allocations, frees and writes by the owners
    of objects, starting from boot, the objects in use are pairwise disjoint,
    each lies inside one page the allocator holds, behind the page's header,
    and is found again through the page header ([SLAB_MAGIC] at its page base).  *)
Theorem slab_objects_disjoint m s p n :
  rtc slab_step (slab_start m) s → (p, n) ∈ objs s →
  page_base p ∈ held s ∧ page_base p + 48 ≤ p ∧ p + n ≤ page_base p + PAGE_SIZE ∧ 8 ≤ n ∧ (8 | p) ∧
  get (s_mem s) (page_base p) s_magic = SLAB_MAGIC ∧
  ∀ q k, (q, k) ∈ objs s → (q, k) = (p, n) ∨ p + n ≤ q ∨ q + k ≤ p.
Proof.
  intros (ls & fr & Hi & Ho & _ & Hh)%slab_reachable_inv Hp%Ho.
  pose proof Hp as (i & f & t & c & Hc & Ht & Hs & _ & En). pose proof (si_cache _ _ _ _ Hi i c Hc) as Hok.
  destruct (si_page _ _ _ _ Hi i f t c Hc Ht) as [Hpo _]. destruct (slot_bound c t p Hok Hs). pose proof (ca_size c Hok).
  rewrite (page_base_slot c t p Hok (po_addr _ _ _ _ _ Hpo) Hs). change PAGE_SIZE with 4096. rewrite En in *. split_and!; try lia.
  - apply Hh. by exists (i, f).
  - transitivity (align c); [|by eapply slot_align; [|apply (po_addr _ _ _ _ _ Hpo)|]]. destruct (ca_align c Hok) as (e & -> & He).
    exists (2 ^ (e - 3)). change 8 with (2 ^ 3). rewrite <- Z.pow_add_r by lia. f_equal. lia.
  - apply Hpo.
  - intros q k Hq%Ho. destruct (decide (p = q)) as [->|Hne]; [left; f_equal; by eapply objs_live_fun|right; by eapply live_disjoint].
Qed.

(** C23: what an allocation promises.  On a cache whose state is well formed,
    [slab_alloc] returns NULL, changing nothing, exactly when the cache has no
    partial page and the physical allocator no page to give.  Otherwise it
    returns an aligned object that was not in use, adds exactly this object of
    the cache's size to the objects in use, takes at most the offered page,
    and leaves the words of every other object, and all memory outside the
    slab pages, as they were.  The recovery path is never entered. *)
Theorem slab_alloc_correct m st ls fr i k pages :
  slab_inv m st ls fr → cache_pool st !! i = Some k → (next_page pages = 0 ∨ fresh ls (next_page pages)) →
  let '(m', st', obj) := slab_alloc (Z.of_nat i + 1) pages m st in
  (obj = 0 ∧ m' = m ∧ st' = st ∧ ls (i, false) = [] ∧ next_page pages = 0) ∨
  (released st' = released st ∧ geom st st' ∧ ∃ ls' fr', granted k (taken ls i pages) obj m m' st st' ls ls' fr fr').
Proof. apply slab_alloc_spec. Qed.

(** C24: freeing.  [slab_free] of an object in use, through its cache or
    through NULL, ends its use and keeps every other object and its contents.
    When no other object of its page is in use, the page is invalidated, leaves
    the cache's lists and is given back to the physical allocator; when another
    one is, the page stays and nothing is given back.  A slot that is already
    free, a pointer whose page is not a slab, and an object of another cache are
    refused without any change. *)
Theorem slab_free_correct m st ls fr c obj :
  slab_inv m st ls fr →
  (∀ n, live st ls fr obj n → c = 0 ∨ c = get m (page_base obj) s_cache →
    ∃ ls' fr', freed obj m (fst (slab_free c obj m st)) st (snd (slab_free c obj m st)) ls ls' fr fr') ∧
  (∀ j s, s ∈ ls j → obj ∈ fr s → slab_free c obj m st = (m, st)) ∧
  (get m (page_base obj) s_magic ≠ SLAB_MAGIC → slab_free c obj m st = (m, st)) ∧
  (c ≠ 0 → c ≠ get m (page_base obj) s_cache → slab_free c obj m st = (m, st)).
Proof.
  intros Hi. split_and!.
  - intros n Hl Hc. pose proof (slab_free_spec m st ls fr c obj n Hi Hl Hc). by destruct (slab_free c obj m st).
  - intros j s Hs Ho. by eapply slab_free_blocked.
  - intros Hm. unfold slab_free. destruct (obj =? 0); [done|]. by rewrite (proj2 (Z.eqb_neq _ _) Hm).
  - intros H0 Hc. unfold slab_free. destruct (obj =? 0); [done|]. cbv zeta. destruct (negb _); [done|].
    rewrite (proj2 (Z.eqb_neq c 0) H0), (proj2 (Z.eqb_neq _ c)) by done. done.
Qed.

(** creating a cache.  For every size and alignment below 2^63 the
    alignment becomes a power of two that is at least 8 and covers the request.
    A cache is created exactly when the size is not 0, a header and one slot
    fit in a page and one of the 64 control blocks is free; its slots are the
    aligned size, as many as fit, and the new cache joins a well-formed state
    without disturbing it.  In particular no cache for 4096-byte objects can
    exist. *)
Theorem slab_cache_create_correct m st ls fr osize al :
  slab_inv m st ls fr → 0 ≤ osize < 2 ^ 63 → 0 ≤ al ≤ 2 ^ 63 →
  let a := normalize_align al in
  let '(st', c) := slab_cache_create osize al st in
  (∃ e, a = 2 ^ e ∧ 3 ≤ e) ∧ al ≤ a ∧ slab_inv m st' ls fr ∧
  (c = 0 ↔ osize = 0 ∨ ¬ roomy osize a ∨ 64 ≤ Z.of_nat (length (cache_pool st))) ∧
  (c = 0 → st' = st) ∧ (4049 ≤ osize → c = 0) ∧
  (c ≠ 0 → ∃ k, c = Z.of_nat (length (cache_pool st)) + 1 ∧ cache_pool st' = cache_pool st ++ [k] ∧ cache_ok k ∧
    align k = a ∧ osize ≤ obj_size k < Z.max osize 8 + a ∧
    PAGE_SIZE < hdr_len k + (slots_per_slab k + 1) * obj_size k).
Proof.
  intros Hi Ho Ha a. pose proof (slab_create_inv m st ls fr osize al Hi Ho Ha) as Hinv.
  destruct (normalize_align_spec al Ha) as (e & Ea & He & Hal & _). fold a in Ea.
  rewrite (slab_cache_create_eq osize al e st Ho Ea He) in *. rewrite Ea in *. set (b := 2 ^ e) in *.
  assert (8 ≤ b) by (change 8 with (2 ^ 3); apply Z.pow_le_mono_r; lia).
  pose proof (div_up (Z.max osize 8) b ltac:(lia)) as Hd. pose proof (div_up 48 b ltac:(lia)) as Hd1.
  change ((Z.max osize 8 + b - 1) / b * b) with (slot_size osize b) in Hd.
  assert (Hexp : ∃ e, b = 2 ^ e ∧ 3 ≤ e) by (exists e; split; [done|lia]).
  case_bool_decide as H'; split_and!; try done; try lia.
  - split; [lia|]. intros [|[|]]; [|tauto|]; lia.
  - intros Hbig. destruct H' as (_ & Hr & _). unfold roomy in Hr. lia.
  - intros _. eexists. split_and!; [done|done|apply new_cache_ok; [lia|lia|tauto]|done|..]; cbn [obj_size new_cache]; try lia.
    change PAGE_SIZE with 4096. unfold new_cache, hdr_len. cbn [slots_per_slab align obj_size].
    destruct H' as (_ & Hr & _). unfold roomy in Hr. set (first := (48 + b - 1) / b * b) in *. set (sz := slot_size osize b) in *.
    pose proof (Z.mul_succ_div_gt (4096 - first) sz ltac:(lia)). nia.
  - split; [|done]. intros _. destruct (decide (osize = 0)); [by left|right]. destruct (decide (roomy osize b)); [right|by left].
    destruct (Z.le_gt_cases 64 (Z.of_nat (length (cache_pool st)))); [done|tauto].
Qed.

(** ** Witnesses *)

(** A cache of 64-byte objects, and one object of it on page 0x100000. *)
Definition st_a : slab_st := fst (slab_cache_create 64 16 slab_boot).
Definition k_a : slab_cache := cache_of 1 st_a.
Definition pg_a : Z := 0x100000.
Definition r_a : mem * slab_st * Z := slab_alloc 1 [pg_a] ∅ st_a.
Definition s_a : sys := Sys (fst (fst r_a)) (snd (fst r_a)) [(snd r_a, 64)] [DIRECT_MAP_BASE + pg_a].

Lemma st_a_inv : slab_inv ∅ st_a (λ _, []) (λ _, []).
Proof. apply slab_create_inv; [apply slab_boot_inv|lia|lia]. Qed.

Lemma st_a_k : cache_pool st_a !! 0%nat = Some k_a.
Proof. by vm_compute. Qed.

Lemma pg_a_fresh : fresh (λ _, []) pg_a.
Proof. split; [|set_solver]. split; [by exists ((DIRECT_MAP_BASE + pg_a) / 4096)|by vm_compute]. Qed.

Lemma s_a_reachable : rtc slab_step (slab_start ∅) s_a.
Proof.
  eapply rtc_l; [apply (step_create _ 64 16); lia|]. apply rtc_once.
  change (slab_step (Sys ∅ st_a [] []) s_a).
  assert (slab_alloc (Z.of_nat 0 + 1) [pg_a] ∅ st_a = (fst (fst r_a), snd (fst r_a), snd r_a)) as E.
  { replace (Z.of_nat 0 + 1) with 1 by lia. unfold r_a. by destruct (slab_alloc 1 [pg_a] ∅ st_a) as [[? ?] ?]. }
  assert ((snd r_a =? 0) = false) as E1 by (by vm_compute).
  assert (held_alloc (Z.of_nat 0 + 1) (next_page [pg_a]) (Sys ∅ st_a [] []) = [DIRECT_MAP_BASE + pg_a]) as E2 by (by vm_compute).
  pose proof st_a_k as Hk. assert (obj_size k_a = 64) as E3 by (by vm_compute).
  unfold s_a. revert E E1. generalize r_a. intros [[m' st'] p]. cbn [fst snd]. intros E E1.
  assert (grantable (next_page [pg_a]) (Sys ∅ st_a [] [])) as Hg by (right; split; [exact (proj1 pg_a_fresh)|apply not_elem_of_nil]).
  pose proof (step_alloc (Sys ∅ st_a [] []) 0 k_a [pg_a] m' st' p Hk Hg E) as H.
  by rewrite E1, E2, E3 in H.
Qed.

Lemma slab_objects_disjoint_witness : page_base (snd r_a) ∈ held s_a.
Proof. apply (slab_objects_disjoint ∅ s_a (snd r_a) 64 s_a_reachable). by left. Defined.

Lemma slab_alloc_correct_witness : snd r_a ≠ 0 ∧
  let '(m', st', obj) := slab_alloc (Z.of_nat 0 + 1) [pg_a] ∅ st_a in
  (obj = 0 ∧ m' = ∅ ∧ st' = st_a ∧ @nil Z = [] ∧ next_page [pg_a] = 0) ∨
  (released st' = released st_a ∧ geom st_a st' ∧
   ∃ ls' fr', granted k_a (taken (λ _, []) 0 [pg_a]) obj ∅ m' st_a st' (λ _, []) ls' (λ _, []) fr').
Proof.
  split; [by vm_compute|].
  exact (slab_alloc_correct ∅ st_a (λ _, []) (λ _, []) 0 k_a [pg_a] st_a_inv st_a_k (or_intror pg_a_fresh)).
Defined.

(** Freeing the only object of the page. *)
Definition f_a : mem * slab_st := slab_free 0 (snd r_a) (s_mem s_a) (s_st s_a).

Lemma slab_free_correct_witness : released (snd f_a) = [pg_a] ∧
  ∃ ls fr ls' fr', freed (snd r_a) (s_mem s_a) (fst f_a) (s_st s_a) (snd f_a) ls ls' fr fr'.
Proof.
  split; [by vm_compute|]. destruct (slab_reachable_inv ∅ s_a s_a_reachable) as (ls & fr & Hi & Ho & _). exists ls, fr.
  apply (proj1 (slab_free_correct (s_mem s_a) (s_st s_a) ls fr 0 (snd r_a) Hi) 64); [|by left]. apply Ho. by left.
Defined.

Lemma slab_cache_create_correct_witness : snd (slab_cache_create 4096 16 slab_boot) = 0.
Proof.
  pose proof (slab_cache_create_correct ∅ slab_boot (λ _, []) (λ _, []) 4096 16 (slab_boot_inv ∅) ltac:(lia) ltac:(lia)) as H.
  cbv zeta in H. destruct (slab_cache_create 4096 16 slab_boot) as [st' c]. destruct H as (_ & _ & _ & _ & _ & H & _). apply H. lia.
Defined.

End SlabProps.
