(* ===== verification/SlabSpec.v ===== *)
(** * What the slab allocator promises to heap.c

    The contract [kmalloc] and its siblings are proved against, and the proof
    that [Slab] meets it. *)

From S2P Require Import Prelude Bytes Words Dll Heap Kmalloc Slab SlabInv SlabSteps SlabGrow SlabOps SlabAlloc SlabFree SlabCreate SlabProps.

Module SlabSpec.
Import Heap Kmalloc Slab SlabInv SlabSteps SlabOps SlabAlloc SlabFree SlabCreate SlabProps.

(** ** The contract *)

(** [in_range p n w]: the word at [w] belongs to the [n] bytes at [p]. *)
Definition in_range (p n w : Z) : Prop := p ≤ w < p + n.

(** Outside the pages [P] nothing changes. *)
Definition confined (P : Z → Prop) (m m' : mem) : Prop := ∀ w, (∀ t, P t → ¬ in_range t 4096 w) → m' !! w = m !! w.

(** [A] are the objects in use; their words are kept. *)
Definition keeps (A : Z → Z → Prop) (m m' : mem) : Prop := ∀ q n w, A q n → in_range q n w → m' !! w = m !! w.

(** [ghost] is the allocator's view of its pages; [pages g t]: page [t] is
    held; [cache s c n]: handle [c] serves objects of [n] bytes, aligned to 16;
    [objects s g p n]: the [n] bytes at [p] are in use. *)
Class SlabLaws (S : Type) `{SlabOps S} := {
  ghost : Type;
  valid : mem → S → ghost → Prop;
  pages : ghost → Z → Prop;
  cache : S → Z → Z → Prop;
  objects : S → ghost → Z → Z → Prop;

  page_direct m s g t : valid m s g → pages g t → page_addr t;
  object_page m s g p n : valid m s g → objects s g p n →
    pages g (page_base p) ∧ rd m (page_base p) = SLAB_MAGIC ∧ page_base p < p ∧ p + n ≤ page_base p + 4096 ∧ 8 ≤ n;
  object_disjoint m s g p n q k : valid m s g → objects s g p n → objects s g q k → p ≠ q → p + n ≤ q ∨ q + k ≤ p;
  object_size m s g p n k : valid m s g → objects s g p n → objects s g p k → n = k;
  valid_frame m m' s g : valid m s g → (∀ t w, pages g t → in_range t 4096 w → m' !! w = m !! w) → valid m' s g;
  valid_write m m' s g p n : valid m s g → objects s g p n → (∀ w, ¬ in_range p n w → m' !! w = m !! w) → valid m' s g;

  create_law m s g n a : valid m s g → 0 ≤ n < 2 ^ 63 → a = 16 →
    let '(s', c) := Kmalloc.slab_cache_create n a s in
    valid m s' g ∧ (∀ p k, objects s' g p k ↔ objects s g p k) ∧ (∀ d k, cache s d k → cache s' d k) ∧
    (c = 0 ∨ ∃ k, n ≤ k ∧ cache s' c k);

  alloc_law m s g c n answers : valid m s g → cache s c n →
    hd 0 answers = 0 ∨ (page_addr (DIRECT_MAP_BASE + hd 0 answers) ∧ ¬ pages g (DIRECT_MAP_BASE + hd 0 answers)) →
    let '(m', s', p) := Kmalloc.slab_alloc c answers m s in
    (p = 0 ∧ m' = m ∧ s' = s) ∨
    (p ≠ 0 ∧ (16 | p) ∧ (∀ k, ¬ objects s g p k) ∧ ∃ g', valid m' s' g' ∧
      (∀ q k, objects s' g' q k ↔ objects s g q k ∨ (q = p ∧ k = n)) ∧ (∀ d k, cache s' d k ↔ cache s d k) ∧
      (∀ t, pages g' t → pages g t ∨ t = DIRECT_MAP_BASE + hd 0 answers) ∧
      confined (λ t, pages g t ∨ pages g' t) m m' ∧ keeps (objects s g) m m');

  free_law m s g p n : valid m s g → objects s g p n →
    let '(m', s') := Kmalloc.slab_free 0 p m s in
    ∃ g', valid m' s' g' ∧ (∀ q k, objects s' g' q k ↔ objects s g q k ∧ q ≠ p) ∧ (∀ d k, cache s' d k ↔ cache s d k) ∧
      (∀ t, pages g' t → pages g t) ∧ confined (pages g) m m' ∧ keeps (λ q k, objects s g q k ∧ q ≠ p) m m' }.

(** ** The slab allocator meets it *)

Definition slab_ghost : Type := (nat * bool → list Z) * (Z → list Z).

Definition slab_cache_is (st : slab_st) (c n : Z) : Prop :=
  ∃ i k, c = Z.of_nat i + 1 ∧ cache_pool st !! i = Some k ∧ n = obj_size k ∧ (16 | align k).

Lemma slab_cache_is_geom st st' c n : geom st st' → slab_cache_is st' c n ↔ slab_cache_is st c n.
Proof.
  assert (∀ st st', geom st st' → slab_cache_is st' c n → slab_cache_is st c n) as Hx.
  { intros s s' Hg (i & k & -> & Hk & -> & Ha). destruct (geom_at _ _ _ _ Hg Hk) as (k0 & Hk0 & [= E1 E2 E3]).
    exists i, k0. by rewrite E1, <- E2. }
  intros Hg. split; apply Hx; [done|by apply geom_sym].
Qed.

Lemma slab_object_page m st ls fr p n : slab_inv m st ls fr → live st ls fr p n →
  (∃ j, page_base p ∈ ls j) ∧ rd m (page_base p) = SLAB_MAGIC ∧ page_base p < p ∧ p + n ≤ page_base p + 4096 ∧ 8 ≤ n.
Proof.
  intros Hi (i & f & s & k & Hk & Hs & Hp & _ & ->). pose proof (si_cache _ _ _ _ Hi i k Hk) as Hok.
  destruct (si_page _ _ _ _ Hi i f s k Hk Hs) as [Hpo _]. destruct (slot_bound k s p Hok Hp). pose proof (ca_size k Hok).
  rewrite (page_base_slot k s p Hok (po_addr _ _ _ _ _ Hpo) Hp). split_and!; [by exists (i, f)| |lia..].
  rewrite <- (po_magic _ _ _ _ _ Hpo). unfold get. f_equal. cbn. lia.
Qed.

Lemma slab_create_law m st ls fr n a : slab_inv m st ls fr → 0 ≤ n < 2 ^ 63 → a = 16 →
  let '(st', c) := Slab.slab_cache_create n a st in
  slab_inv m st' ls fr ∧ (∀ p k, live st' ls fr p k ↔ live st ls fr p k) ∧
  (∀ d k, slab_cache_is st d k → slab_cache_is st' d k) ∧ (c = 0 ∨ ∃ k, n ≤ k ∧ slab_cache_is st' c k).
Proof.
  intros Hi Hn ->. pose proof (slab_create_inv m st ls fr n 16 Hi Hn ltac:(lia)) as Hinv.
  pose proof (λ p k, live_create st ls fr n 16 m p k Hi Hn ltac:(lia)) as Hlv.
  assert (normalize_align 16 = 2 ^ 4) as Ea by (by vm_compute).
  rewrite (slab_cache_create_eq n 16 4 st Hn Ea ltac:(lia)) in *.
  pose proof (div_up (Z.max n 8) (2 ^ 4) ltac:(lia)) as Hd. case_bool_decide; cbn [fst] in *; [|by split_and!; [..|left]].
  split_and!; [done|done| |].
  - intros d k (i & c & -> & Hc & -> & Ha). exists i, c. split_and!; try done. by apply lookup_app_l_Some.
  - right. exists (slot_size n (2 ^ 4)). split; [unfold slot_size; lia|].
    exists (length (cache_pool st)), (new_cache n (2 ^ 4) (cache_registry st)). split_and!; try done.
    cbn. by rewrite lookup_app_r, Nat.sub_diag.
Qed.

#[local] Obligation Tactic := idtac.

#[export] Program Instance slab_laws : SlabLaws slab_st := {|
  ghost := slab_ghost;
  valid m st g := slab_inv m st (fst g) (snd g);
  pages g t := ∃ j, t ∈ fst g j;
  cache := slab_cache_is;
  objects st g p n := live st (fst g) (snd g) p n |}.
Next Obligation. intros m st g t Hi [j Ht]. exact (pre_addr _ _ _ _ j t (inv_pre _ _ _ _ Hi) Ht). Qed.
Next Obligation. intros m st g p n Hi Hl. exact (slab_object_page m st _ _ p n Hi Hl). Qed.
Next Obligation. intros m st g p n q k Hi Hp Hq Hne. exact (live_disjoint m st _ _ p n q k Hi Hp Hq Hne). Qed.
Next Obligation. intros m st g p n k Hi Hp Hq. exact (objs_live_fun m st _ _ p n k Hi Hp Hq). Qed.
Next Obligation.
  intros m m' st g Hi Hw. apply (slab_inv_ext m); [done|..].
  - intros j s w Hs Hin. apply (Hw s); [by exists j|unfold in_range; lia].
  - intros j s x Hs Hx. destruct (inv_cache _ _ _ _ _ _ Hi Hs) as (k & Hk & Hpo & _ & Hok).
    destruct (slot_bound k s x Hok (po_slots _ _ _ _ _ Hpo x Hx)). pose proof (ca_size k Hok).
    apply (Hw s); [by exists j|unfold in_range; lia].
Qed.
Next Obligation.
  intros m m' st g p n Hi Hl Hw. apply (slab_inv_ext m); [done|..].
  - intros j s w Hs Hin. apply Hw. intros Hr. by apply (proj1 (live_clear _ _ _ _ _ _ w Hi Hl Hr) j s).
  - intros j s x Hs Hx. apply Hw. intros Hr. by apply (proj2 (live_clear _ _ _ _ _ _ x Hi Hl Hr) j s x).
Qed.
Next Obligation. intros m st g n a Hi Hn Ha. by apply slab_create_law. Qed.
Next Obligation.
  intros m st [ls fr] c n answers Hi (i & k & -> & Hk & -> & Ha) Hpg. cbn in *.
  pose proof (slab_alloc_spec m st ls fr i k answers Hi Hk) as Hs. cbn. unfold next_page in Hs.
  destruct (Slab.slab_alloc _ answers m st) as [[m' st'] p].
  destruct Hs as [(-> & -> & -> & _)|(_ & Hg & ls' & fr' & [Hnz Hal Hnew Hi' [Hoff Hkeep] Hgrow Hlv])].
  { destruct Hpg as [|[? Hno]]; [by left|right]. split; [done|]. intros j Hj. apply Hno. by exists j. }
  - by left.
  - right. split_and!; [done|by etransitivity|done|]. exists (ls', fr'). cbn. split_and!; [done|done| | | |].
    + intros d j. by apply slab_cache_is_geom.
    + intros t Ht. apply Hgrow in Ht as [|[Hp ->]]; [by left|right]. f_equal. unfold taken in *. by destruct (ls (i, false)).
    + intros w Hw. apply Hoff; intros j s Hs; apply Hw; [left|right]; by exists j.
    + exact Hkeep.
Qed.
Next Obligation.
  intros m st [ls fr] p n Hi Hl. cbn in *. pose proof (slab_free_spec m st ls fr 0 p n Hi Hl ltac:(by left)) as Hs.
  destruct (Slab.slab_free 0 p m st) as [m' st']. destruct Hs as (ls' & fr' & [Hi' Hg Hlv Hoff Hkeep Hpg]).
  exists (ls', fr'). cbn. split_and!; [done|done| | | |].
  - intros d j. by apply slab_cache_is_geom.
  - intros t Ht. destruct Hpg as [[_ Hpg]|(_ & _ & Hpg)]; [by apply Hpg|]. by apply Hpg in Ht as [_ ?].
  - intros w Hw. apply Hoff. intros j s Hs. apply Hw. by exists j.
  - intros q j w [Hq Hne] Hw. by eapply Hkeep.
Qed.

End SlabSpec.
