(* ===== verification/KmallocInv.v ===== *)
(** * kmalloc: the combined invariant and the two paths

    Proved against [SlabLaws]: nothing here depends on how the slab allocator
    works. *)

From S2P Require Import Prelude Bytes Words Dll Heap HeapFacts HeapInv HeapOps HeapShrink HeapProps HeapLive.
From S2P Require Import Kmalloc KmallocMem Slab SlabInv SlabSpec.

Module KmallocInv.
Import Heap HeapFacts HeapOps HeapProps HeapLive Kmalloc KmallocMem SlabSpec.

Section Spec.
Context {S : Type} {ops : SlabOps S} {laws : SlabLaws S}.
Implicit Types (k : kernel S) (g : ghost).

(** ** Invariant *)

Record kinv k (cs : list cell) g : Prop := {
  ki_heap : heap_ok (kheap k) cs;
  ki_slab : valid (kmem k) (kslab k) g;
  ki_on : heap_initialized k = true;
  ki_enabled : slab_enabled k = true;
  ki_caches : Forall2 (λ n c, c = 0 ∨ ∃ j, n ≤ j ∧ cache (kslab k) c j) slab_sizes (slab_caches k) }.

(** The [n] bytes at [p] are in use, as a slab object or as a heap block. *)
Definition klive k (cs : list cell) g (p n : Z) : Prop := objects (kslab k) g p n ∨ hlive cs p n.

(** The physical allocator offers no page the slab allocator holds. *)
Definition offered g (answers : list Z) : Prop :=
  hd 0 answers = 0 ∨ (SlabInv.page_addr (Slab.DIRECT_MAP_BASE + hd 0 answers) ∧ ¬ pages g (Slab.DIRECT_MAP_BASE + hd 0 answers)).

Lemma direct_below t : SlabInv.page_addr t → t + 4096 ≤ HEAP_START.
Proof.
  intros [_ ?]. destruct heap_consts as (E & _). rewrite E. unfold SlabInv.DIRECT_MAP_SPAN, Slab.DIRECT_MAP_BASE in *. lia.
Qed.

Lemma object_below k cs g p n : kinv k cs g → objects (kslab k) g p n → 0 < p ∧ p + n ≤ HEAP_START ∧ 8 ≤ n.
Proof.
  intros Hi Ho. destruct (object_page _ _ _ _ _ (ki_slab _ _ _ Hi) Ho) as (Hp & _ & ? & ? & ?).
  pose proof (page_direct _ _ _ _ (ki_slab _ _ _ Hi) Hp) as Hd. pose proof (direct_below _ Hd). destruct Hd as [_ ?].
  unfold Slab.DIRECT_MAP_BASE in *. lia.
Qed.

Lemma klive_range k cs g p n : kinv k cs g → klive k cs g p n → 0 < p ∧ 8 ≤ n.
Proof.
  intros Hi [Ho|Hl]; [by destruct (object_below _ _ _ _ _ Hi Ho) as (? & _ & ?)|].
  destruct (hlive_range _ _ _ _ (ki_heap _ _ _ Hi) Hl) as (? & _ & _ & ? & _). destruct heap_consts as (? & _). lia.
Qed.

Lemma klive_disjoint k cs g p n q j : kinv k cs g → klive k cs g p n → klive k cs g q j → p ≠ q → p + n ≤ q ∨ q + j ≤ p.
Proof.
  intros Hi [Hp|Hp] [Hq|Hq] Hne.
  - by eapply object_disjoint; [apply Hi|..].
  - destruct (object_below _ _ _ _ _ Hi Hp) as (_ & ? & _). destruct (hlive_range _ _ _ _ (ki_heap _ _ _ Hi) Hq) as (? & _). lia.
  - destruct (object_below _ _ _ _ _ Hi Hq) as (_ & ? & _). destruct (hlive_range _ _ _ _ (ki_heap _ _ _ Hi) Hp) as (? & _). lia.
  - by eapply hlive_disjoint; [apply Hi|..].
Qed.

Lemma klive_fun k cs g p n j : kinv k cs g → klive k cs g p n → klive k cs g p j → n = j.
Proof.
  intros Hi [Hp|Hp] [Hq|Hq].
  - by eapply object_size; [apply Hi|..].
  - destruct (object_below _ _ _ _ _ Hi Hp) as (_ & ? & ?). destruct (hlive_range _ _ _ _ (ki_heap _ _ _ Hi) Hq) as (? & _). lia.
  - destruct (object_below _ _ _ _ _ Hi Hq) as (_ & ? & ?). destruct (hlive_range _ _ _ _ (ki_heap _ _ _ Hi) Hp) as (? & _). lia.
  - by eapply hlive_fun; [apply Hi|..].
Qed.

(** ** Steps of one allocator keep the other *)

Lemma kinv_heap k cs g h' cs' : kinv k cs g → heap_ok h' cs' → windowed (kmem k) (hmem h') → kinv (with_heap h' k) cs' g.
Proof.
  intros Hi Hok Hw. split; try apply Hi; [done|]. cbn. eapply valid_frame; [apply Hi|]. intros t w Ht Hin. apply Hw.
  pose proof (direct_below t (page_direct _ _ _ _ (ki_slab _ _ _ Hi) Ht)). unfold in_range in Hin. lia.
Qed.

Lemma windowed_keeps k cs g m' : kinv k cs g → windowed (kmem k) m' → data_kept (objects (kslab k) g) (kmem k) m'.
Proof. intros Hi Hw q n w Hq Hin. apply Hw. destruct (object_below _ _ _ _ _ Hi Hq) as (_ & ? & _). lia. Qed.

Lemma kinv_slab k cs g (P : Z → Prop) m' s' g' : kinv k cs g → valid m' s' g' → (∀ t, P t → SlabInv.page_addr t) →
  confined P (kmem k) m' → (∀ d j, cache (kslab k) d j → cache s' d j) →
  kinv (with_slab m' s' k) cs g' ∧ data_kept (hlive cs) (kmem k) m'.
Proof.
  intros Hi Hv HP Hc Hca.
  assert (Hw : ∀ w, HEAP_START ≤ w → m' !! w = kmem k !! w).
  { intros w Hw. apply Hc. intros t Ht Hin. pose proof (direct_below t (HP t Ht)). unfold in_range in Hin. lia. }
  split; [split; cbn; try apply Hi; try done|].
  - apply heap_ok_outside; [apply Hi|]. intros w [? _]. by apply Hw.
  - eapply Forall2_impl; [apply Hi|]. cbn. intros n c [|(j & ? & ?)]; [by left|right]. exists j. auto.
  - intros q n w Hq Hin. apply Hw. destruct (hlive_range _ _ _ _ (ki_heap _ _ _ Hi) Hq) as (? & _). lia.
Qed.

(** Writes inside an object in use. *)
Lemma kinv_data k cs g p n m' : kinv k cs g → klive k cs g p n → (∀ w, ¬ in_range p n w → m' !! w = kmem k !! w) →
  kinv (with_kmem (λ _, m') k) cs g.
Proof.
  intros Hi [Ho|Hl] Hm.
  - split; cbn; try apply Hi.
    + apply heap_ok_outside; [apply Hi|]. intros w [? _]. apply Hm. destruct (object_below _ _ _ _ _ Hi Ho) as (_ & ? & _).
      unfold in_range. lia.
    + eapply valid_write; [apply Hi|done|done].
  - split; cbn; try apply Hi.
    + eapply heap_ok_data; [apply Hi|done|done].
    + eapply valid_frame; [apply Hi|]. intros t w Ht Hin. apply Hm. pose proof (direct_below t (page_direct _ _ _ _ (ki_slab _ _ _ Hi) Ht)).
      destruct (hlive_range _ _ _ _ (ki_heap _ _ _ Hi) Hl) as (? & _). unfold in_range in *. lia.
Qed.

(** ** kmalloc *)

Lemma pick_cache_ok size sizes caches (s : S) : Forall2 (λ n c, c = 0 ∨ ∃ j, n ≤ j ∧ cache s c j) sizes caches →
  pick_cache size sizes caches = 0 ∨ ∃ j, size ≤ j ∧ cache s (pick_cache size sizes caches) j.
Proof.
  induction 1 as [|n c sizes caches Hc _ IH]; cbn; [by left|]. destruct (Z.leb_spec size n); cbn [andb]; [|done].
  destruct (Z.eqb_spec c 0); cbn [negb]; [done|]. destruct Hc as [|(j & ? & ?)]; [done|right]. exists j. split; [lia|done].
Qed.

(** [p] with [n] bytes is new and everything else is as before; 0 if there is
    no new block. *)
Record kgrown k k' (cs cs' : list cell) g g' (p n : Z) : Prop := {
  kg_inv : kinv k' cs' g';
  kg_new : ∀ j, ¬ klive k cs g p j;
  kg_live : ∀ q j, klive k' cs' g' q j ↔ klive k cs g q j ∨ (p ≠ 0 ∧ q = p ∧ j = n);
  kg_kept : data_kept (klive k cs g) (kmem k) (kmem k') }.

Lemma not_live_0 k cs g j : kinv k cs g → ¬ klive k cs g 0 j.
Proof. intros Hi Hl. destruct (klive_range _ _ _ _ _ Hi Hl). lia. Qed.

Lemma kgrown_refl k cs g n : kinv k cs g → kgrown k k cs cs g g 0 n.
Proof. intros Hi. split; try done; [intros j; by eapply not_live_0|]. intros q j. tauto. Qed.

Lemma try_slab_ok k cs g size answers : kinv k cs g → offered g answers →
  let '(k', p) := try_slab size answers k in
  (p = 0 ∧ k' = k) ∨ (p ≠ 0 ∧ (16 | p) ∧ ∃ g' n, size ≤ n ∧ kgrown k k' cs cs g g' p n ∧
    ∀ t, pages g' t → pages g t ∨ t = Slab.DIRECT_MAP_BASE + hd 0 answers).
Proof.
  intros Hi Hof. unfold try_slab. rewrite (ki_enabled _ _ _ Hi). cbn [andb]. destruct (size <=? 4096); [|by left].
  cbv zeta. destruct (pick_cache_ok size _ _ _ (ki_caches _ _ _ Hi)) as [->|(n & Hn & Hc)]; [by left|].
  destruct (Z.eqb_spec (pick_cache size slab_sizes (slab_caches k)) 0); [by left|].
  pose proof (alloc_law _ _ _ _ _ answers (ki_slab _ _ _ Hi) Hc Hof) as Ha.
  destruct (slab_alloc _ answers (kmem k) (kslab k)) as [[m' s'] p].
  destruct Ha as [(-> & -> & ->)|(Hp & H16 & Hnew & g' & Hv & Hlv & Hca & Hpg & Hcf & Hk)].
  - left. split; [done|]. by destruct k as [[] ? ? ? ?].
  - right. assert (HP : ∀ t, pages g t ∨ pages g' t → SlabInv.page_addr t).
    { intros t [Ht|Ht]; [exact (page_direct _ _ _ _ (ki_slab _ _ _ Hi) Ht)|exact (page_direct _ _ _ _ Hv Ht)]. }
    destruct (kinv_slab k cs g _ m' s' g' Hi Hv HP Hcf) as [Hi' Hh]; [intros d j ?; by apply Hca|].
    assert (Ho : objects s' g' p n) by (apply Hlv; auto).
    split_and!; [done|done|]. exists g', n. split_and!; [done| |done]. split; [done| | |].
    + intros j [Hj|Hj]; [by eapply Hnew|]. destruct (object_below _ _ _ p n Hi' Ho) as (_ & ? & ?).
      destruct (hlive_range _ _ _ _ (ki_heap _ _ _ Hi) Hj) as (? & _). lia.
    + intros q j. unfold klive. cbn [kslab with_slab]. rewrite Hlv. tauto.
    + intros q j w [Hq|Hq] Hw; [by eapply Hk|by eapply Hh].
Qed.

Lemma heap_path_ok k cs g sz avail : kinv k cs g → 16 ≤ sz ≤ HEAP_MAX_SIZE → (16 | sz) →
  let '(h', p) := heap_alloc sz avail (kheap k) in
  ∃ cs' n, kgrown k (with_heap h' k) cs cs' g g p n ∧ (p ≠ 0 → sz ≤ n ∧ (16 | p)).
Proof.
  intros Hi Hsz H16. pose proof (heap_alloc_live sz avail _ _ (ki_heap _ _ _ Hi) Hsz H16) as Ha.
  destruct (heap_alloc sz avail (kheap k)) as [h' p]. destruct Ha as (cs' & n & Hok & Hw & Hk & [Hnew Hlv] & Hp).
  pose proof (kinv_heap k cs g h' cs' Hi Hok Hw) as Hi'. exists cs', n. split; [|done]. split; [done| | |].
  - intros j [Hj|Hj]; [|by eapply Hnew]. destruct (decide (p = 0)) as [->|Hnz]; [by apply (not_live_0 k cs g j Hi); left|].
    destruct (object_below _ _ _ _ _ Hi Hj) as (_ & ? & ?).
    destruct (hlive_range _ _ p n (ki_heap _ _ _ Hi')) as (? & _); [apply Hlv; auto|]. lia.
  - intros q j. unfold klive. cbn [kslab with_heap]. rewrite Hlv. tauto.
  - intros q j w [Hq|Hq] Hin; [by eapply (windowed_keeps k cs g)|by eapply Hk].
Qed.

Lemma kmalloc_spec k cs g size answers avail : kinv k cs g → 0 < size ≤ HEAP_MAX_SIZE → offered g answers →
  ∃ k' p cs' g' n, kmalloc size answers avail k = Some (k', p) ∧ kgrown k k' cs cs' g g' p n ∧
    (p ≠ 0 → size ≤ n ∧ (16 | p)) ∧ (∀ t, pages g' t → pages g t ∨ t = Slab.DIRECT_MAP_BASE + hd 0 answers).
Proof.
  intros Hi Hs Hof. destruct (align_request size Hs) as (H1 & H2 & H3). unfold kmalloc.
  rewrite (ki_on _ _ _ Hi), (proj2 (Z.eqb_neq size 0)), (proj2 (Z.ltb_ge HEAP_MAX_SIZE size)) by lia. cbn [negb]. cbv zeta.
  pose proof (try_slab_ok k cs g (ALIGN_UP size 16) answers Hi Hof) as Ht.
  destruct (try_slab (ALIGN_UP size 16) answers k) as [k1 p]. destruct Ht as [[-> ->]|(Hp & H16 & g' & n & Hn & Hg & Hpg)].
  - cbn [negb Z.eqb]. pose proof (heap_path_ok k cs g (ALIGN_UP size 16) avail Hi H1 H2) as Hh.
    destruct (heap_alloc _ avail (kheap k)) as [h' p]. destruct Hh as (cs' & n & Hg & Hp).
    exists (with_heap h' k), p, cs', g, n. split_and!; [done|done| |by left]. intros Hnz. destruct (Hp Hnz). split; [lia|done].
  - rewrite (proj2 (Z.eqb_neq p 0) Hp). cbn [negb]. exists k1, p, cs, g', n. split_and!; [done|done| |done]. intros _. split; [lia|done].
Qed.

(** ** kfree *)

(** [p] and its object are gone and everything else is as before. *)
Record kshrunk k k' (cs cs' : list cell) g g' (p : Z) : Prop := {
  ks_inv : kinv k' cs' g';
  ks_live : ∀ q j, klive k' cs' g' q j ↔ klive k cs g q j ∧ q ≠ p;
  ks_kept : data_kept (λ q j, klive k cs g q j ∧ q ≠ p) (kmem k) (kmem k');
  ks_pages : ∀ t, pages g' t → pages g t }.

(** A heap block is not taken for a slab object. *)
Definition unmistaken k (cs : list cell) (p : Z) : Prop := ∀ n, hlive cs p n → rd (kmem k) (page_base p) ≠ SLAB_MAGIC.

Lemma is_slab_object k cs g p n : kinv k cs g → objects (kslab k) g p n → is_slab p k = true.
Proof.
  intros Hi Ho. destruct (object_page _ _ _ _ _ (ki_slab _ _ _ Hi) Ho) as (_ & E & _). unfold is_slab.
  by rewrite (ki_enabled _ _ _ Hi), E, Z.eqb_refl.
Qed.

Lemma is_slab_heap k cs g p n : kinv k cs g → hlive cs p n → unmistaken k cs p → is_slab p k = false.
Proof.
  intros Hi Hl Hu. specialize (Hu n Hl). unfold is_slab. rewrite (proj2 (Z.eqb_neq _ _) Hu). by rewrite andb_false_r.
Qed.

Lemma slab_path_free k cs g p n : kinv k cs g → objects (kslab k) g p n →
  let '(m', s') := slab_free 0 p (kmem k) (kslab k) in ∃ g', kshrunk k (with_slab m' s' k) cs cs g g' p.
Proof.
  intros Hi Ho. pose proof (free_law _ _ _ _ _ (ki_slab _ _ _ Hi) Ho) as Hf.
  destruct (slab_free 0 p (kmem k) (kslab k)) as [m' s']. destruct Hf as (g' & Hv & Hlv & Hca & Hpg & Hcf & Hk).
  destruct (kinv_slab k cs g (pages g) m' s' g' Hi Hv) as [Hi' Hh]; [intros t; by eapply page_direct, ki_slab|done|intros d j ?; by apply Hca|].
  exists g'. split; [done| | |done].
  - intros q j. unfold klive. cbn [kslab with_slab]. rewrite Hlv. split; [|tauto]. intros [|Hq]; [tauto|]. split; [by right|]. intros ->.
    destruct (object_below _ _ _ _ _ Hi Ho) as (_ & ? & ?). destruct (hlive_range _ _ _ _ (ki_heap _ _ _ Hi) Hq) as (? & _). lia.
  - intros q j w [[Hq|Hq] Hne] Hw; [by eapply Hk|by eapply Hh].
Qed.

Lemma kfree_spec k cs g p n : kinv k cs g → klive k cs g p n → unmistaken k cs p →
  ∃ k' cs' g', kfree p k = Some k' ∧ kshrunk k k' cs cs' g g' p.
Proof.
  intros Hi Hl Hu. destruct (klive_range _ _ _ _ _ Hi Hl). unfold kfree.
  rewrite (proj2 (Z.eqb_neq p 0)), (ki_on _ _ _ Hi) by lia. cbn [negb]. destruct Hl as [Ho|Hl].
  - rewrite (is_slab_object _ _ _ _ _ Hi Ho). pose proof (slab_path_free k cs g p n Hi Ho) as Hf.
    destruct (slab_free 0 p (kmem k) (kslab k)) as [m' s']. destruct Hf as [g' Hf]. by exists (with_slab m' s' k), cs, g'.
  - rewrite (is_slab_heap _ _ _ _ _ Hi Hl Hu). destruct (heap_free_live _ _ _ _ (ki_heap _ _ _ Hi) Hl) as (h' & cs' & -> & Hok & Hw & Hk & Hlv).
    cbn. exists (with_heap h' k), cs', g. split; [done|]. split; [by apply (kinv_heap k cs)| | |done].
    + intros q j. unfold klive. cbn [kslab with_heap]. rewrite Hlv. split; [|tauto]. intros [Hq|]; [|tauto]. split; [by left|]. intros ->.
      destruct (object_below _ _ _ _ _ Hi Hq) as (_ & ? & ?). destruct (hlive_range _ _ _ _ (ki_heap _ _ _ Hi) Hl) as (? & _). lia.
    + intros q j w [[Hq|Hq] Hne] Hin; [by eapply (windowed_keeps k cs g)|by eapply Hk].
Qed.

End Spec.

End KmallocInv.
