(* ===== verification/KmallocProps.v ===== *)
(** * kmalloc: theorems

    The public allocation interface over the two allocators. *)

From S2P Require Import Prelude Bytes Words Dll Heap HeapFacts HeapInv HeapOps HeapShrink HeapProps HeapLive.
From S2P Require Import Kmalloc KmallocMem Slab SlabInv SlabProps SlabSpec KmallocInv.

Module KmallocProps.
Import Heap HeapFacts HeapInv HeapOps HeapProps HeapLive Kmalloc KmallocMem SlabSpec KmallocInv.

(** ** The initial heap *)

Lemma empty_bins n i : default 0 (replicate n 0 !! i) = 0.
Proof. destruct (replicate n 0 !! i) as [x|] eqn:E; [|done]. by apply lookup_replicate in E as [-> _]. Qed.

Lemma put_window b f v h w : HEAP_START ≤ b → b + 64 ≤ HEAP_START + HEAP_MAX_SIZE → ¬ HEAP_START ≤ w < HEAP_START + HEAP_MAX_SIZE →
  hmem (put b f v h) !! w = hmem h !! w.
Proof. intros ? ? Hw. cbn. apply wr_ne. pose proof (block_off_range f). lia. Qed.

Lemma heap_setup_windowed m : windowed m (hmem (heap_setup m)).
Proof.
  intros w Hw. destruct heap_consts as (? & _ & _ & Hmax & _). unfold heap_setup, bin_push, block_set_free. cbv zeta.
  cbn [bins put with_mem]. rewrite empty_bins. cbn [Z.eqb negb]. cbn [hmem with_bins].
  rewrite !put_window by (done || lia). cbn [hmem]. rewrite !put_window by (done || lia). cbn [hmem]. apply wr_ne. lia.
Qed.

Section Props.
Context {S : Type} {ops : SlabOps S} {laws : SlabLaws S}.
Implicit Types (k : kernel S) (g : ghost).

(** ** Writing into a fresh object *)

Lemma fill_new k k1 cs cs1 g g1 q n' m' : kgrown k k1 cs cs1 g g1 q n' → q ≠ 0 →
  (∀ w, ¬ in_range q n' w → m' !! w = kmem k1 !! w) →
  kinv (with_kmem (λ _, m') k1) cs1 g1 ∧ data_kept (klive k cs g) (kmem k) m'.
Proof.
  intros Hg Hq Hm. assert (Hl : klive k1 cs1 g1 q n') by (apply (kg_live _ _ _ _ _ _ _ _ Hg); auto).
  split; [by eapply kinv_data; [apply Hg|exact Hl|]|]. intros p n w Hp Hw. rewrite Hm; [by eapply (kg_kept _ _ _ _ _ _ _ _ Hg)|].
  assert (Hp1 : klive k1 cs1 g1 p n) by (apply (kg_live _ _ _ _ _ _ _ _ Hg); auto).
  intros Hin. unfold in_range in Hin. destruct (klive_disjoint _ _ _ _ _ _ _ (kg_inv _ _ _ _ _ _ _ _ Hg) Hp1 Hl) as [?|?]; [|lia|lia].
  intros ->. by apply (kg_new _ _ _ _ _ _ _ _ Hg n).
Qed.

(** ** krealloc *)

(** The block moved (or was cut in place): [p] is gone, [q] holds [n'] bytes
    that start with the first [len] bytes of [p]; the rest is as before. *)
Record kmoved k k' (cs cs' : list cell) g g' (p q n' len : Z) : Prop := {
  km_inv : kinv k' cs' g';
  km_live : ∀ r j, klive k' cs' g' r j ↔ (klive k cs g r j ∧ r ≠ p) ∨ (r = q ∧ j = n');
  km_kept : data_kept (λ r j, klive k cs g r j ∧ r ≠ p) (kmem k) (kmem k');
  km_copied : ∀ i, 0 ≤ i → 8 * i + 8 ≤ len → rd (kmem k') (q + 8 * i) = rd (kmem k) (p + 8 * i) }.

(** Copying into the new object, then freeing the old one. *)
Lemma moved_by_copy k k1 k3 cs cs1 cs3 g g1 g3 p n q n' lim :
  kgrown k k1 cs cs1 g g1 q n' → q ≠ 0 → klive k cs g p n → 0 ≤ lim ≤ n' →
  let k2 := with_kmem (memcpy q p lim) k1 in
  kshrunk k2 k3 cs1 cs3 g1 g3 p → kmoved k k3 cs cs3 g g3 p q n' (Z.min n lim).
Proof.
  intros Hg Hq Hp Hlim k2 Hs. assert (Hlive := kg_live _ _ _ _ _ _ _ _ Hg). pose proof (kg_inv _ _ _ _ _ _ _ _ Hg) as Hi1.
  assert (Hql : klive k1 cs1 g1 q n') by (apply Hlive; auto). assert (Hpl : klive k1 cs1 g1 p n) by (apply Hlive; auto).
  assert (Hne : q ≠ p) by (intros ->; by apply (kg_new _ _ _ _ _ _ _ _ Hg n)).
  destruct (fill_new k k1 cs cs1 g g1 q n' (memcpy q p lim (kmem k1)) Hg Hq) as [_ Hk2].
  { intros w Hw. apply memcpy_out; [lia|]. unfold in_range in Hw. lia. }
  assert (Hl2 : ∀ r j, klive k2 cs1 g1 r j ↔ klive k1 cs1 g1 r j) by done.
  split; [apply Hs| | |].
  - intros r j. rewrite (ks_live _ _ _ _ _ _ _ Hs), Hl2, Hlive. split; [|intros [|[-> ->]]; tauto]. tauto.
  - intros r j w [Hr Hnp] Hw. rewrite (ks_kept _ _ _ _ _ _ _ Hs r j w); [by apply (Hk2 r j)| |done]. split; [|done]. apply Hl2, Hlive. auto.
  - intros i H0 Hi. assert (E : kmem k3 !! (q + 8 * i) = kmem k2 !! (q + 8 * i)).
    { apply (ks_kept _ _ _ _ _ _ _ Hs q n'); [split; [by apply Hl2|done]|lia]. }
    unfold rd at 1. rewrite E. change (rd (memcpy q p lim (kmem k1)) (q + 8 * i) = rd (kmem k) (p + 8 * i)).
    rewrite memcpy_in; [|lia|lia|].
    + unfold rd. by rewrite (kg_kept _ _ _ _ _ _ _ _ Hg p n) by (done || lia).
    + destruct (klive_disjoint _ _ _ _ _ _ _ Hi1 Hpl Hql); [done|lia|lia].
Qed.

Lemma object_stays k k1 cs cs1 g g1 q n' p n : kinv k cs g → kgrown k k1 cs cs1 g g1 q n' → objects (kslab k) g p n → objects (kslab k1) g1 p n.
Proof.
  intros Hi Hg Ho. destruct (proj2 (kg_live _ _ _ _ _ _ _ _ Hg p n)) as [|Hl]; [by left; left|done|].
  destruct (object_below _ _ _ _ _ Hi Ho) as (_ & ? & ?).
  destruct (hlive_range _ _ _ _ (ki_heap _ _ _ (kg_inv _ _ _ _ _ _ _ _ Hg)) Hl) as (? & _). lia.
Qed.

Lemma block_stays k k1 cs cs1 g g1 q n' p n : kinv k cs g → kgrown k k1 cs cs1 g g1 q n' → hlive cs p n → hlive cs1 p n.
Proof.
  intros Hi Hg Hl. destruct (proj2 (kg_live _ _ _ _ _ _ _ _ Hg p n)) as [Ho|]; [by left; right| |done].
  destruct (object_below _ _ _ _ _ (kg_inv _ _ _ _ _ _ _ _ Hg) Ho) as (_ & ? & ?).
  destruct (hlive_range _ _ _ _ (ki_heap _ _ _ Hi) Hl) as (? & _). lia.
Qed.

(** The probe of the page base never mistakes a heap block for a slab object,
    neither before the move nor after the copy. *)
Definition never_mistaken k (cs : list cell) (p n new_size : Z) (answers : list Z) (avail : nat) : Prop :=
  unmistaken k cs p ∧
  ∀ k1 q, hlive cs p n → kmalloc new_size answers avail k = Some (k1, q) → rd (memcpy q p n (kmem k1)) (page_base p) ≠ SLAB_MAGIC.

(** What [krealloc] of a block in use guarantees. *)
Definition krealloc_post k (cs : list cell) g (p n new_size : Z) (r : option (kernel S * Z)) : Prop :=
  ∃ k' q cs' g' n', r = Some (k', q) ∧
    ((q = 0 ∧ kgrown k k' cs cs' g g' 0 n') ∨
     (q ≠ 0 ∧ new_size ≤ n' ∧ kmoved k k' cs cs' g g' p q n' (Z.min n new_size))).

Lemma kmoved_len k k' cs cs' g g' p q n' len len' : len' ≤ len → kmoved k k' cs cs' g g' p q n' len → kmoved k k' cs cs' g g' p q n' len'.
Proof. intros Hle [? ? ? Hc]. split; try done. intros i H0 Hi. apply Hc; lia. Qed.

Lemma krealloc_slab k cs g p n new_size answers avail : kinv k cs g → objects (kslab k) g p n →
  0 < new_size ≤ HEAP_MAX_SIZE → offered g answers → krealloc_post k cs g p n new_size (krealloc p new_size answers avail k).
Proof.
  intros Hi Ho Hs Hof. destruct (object_below _ _ _ _ _ Hi Ho) as (Hp & _). unfold krealloc.
  rewrite (ki_on _ _ _ Hi), (proj2 (Z.eqb_neq p 0)), (proj2 (Z.eqb_neq new_size 0)), (is_slab_object _ _ _ _ _ Hi Ho) by lia. cbn [negb].
  destruct (kmalloc_spec k cs g new_size answers avail Hi Hs Hof) as (k1 & q & cs1 & g1 & n' & -> & Hg & Hq & _).
  change (Some (k1, q) ≫= _) with ((λ '(k, new_ptr), if new_ptr =? 0 then Some (k, 0) else
    let copy_limit := if new_size <? 4096 then new_size else 4096 in
    let k := with_kmem (memcpy new_ptr p copy_limit) k in
    let '(m, s) := slab_free 0 p (kmem k) (kslab k) in Some (with_slab m s k, new_ptr)) (k1, q)). cbn beta iota zeta.
  destruct (Z.eqb_spec q 0) as [->|Hnz]; [exists k1, 0, cs1, g1, n'; split; [done|by left]|].
  destruct (Hq Hnz) as [Hn' _]. set (lim := if new_size <? 4096 then new_size else 4096).
  assert (0 ≤ lim ≤ new_size) by (unfold lim; destruct (Z.ltb_spec new_size 4096); lia).
  destruct (fill_new k k1 cs cs1 g g1 q n' (memcpy q p lim (kmem k1)) Hg Hnz) as [Hi2 _].
  { intros w Hw. apply memcpy_out; [lia|]. unfold in_range in Hw. lia. }
  set (k2 := with_kmem (memcpy q p lim) k1). assert (Hi2' : kinv k2 cs1 g1) by exact Hi2.
  assert (Ho2 : objects (kslab k2) g1 p n) by exact (object_stays _ _ _ _ _ _ _ _ _ _ Hi Hg Ho).
  pose proof (slab_path_free k2 cs1 g1 p n Hi2' Ho2) as Hf. destruct (slab_free 0 p (kmem k2) (kslab k2)) as [m3 s3]. destruct Hf as [g3 Hf].
  exists (with_slab m3 s3 k2), q, cs1, g3, n'. split; [done|right]. split_and!; [done|lia|].
  eapply kmoved_len; [|eapply (moved_by_copy k k1 _ cs cs1 cs1 g g1 g3 p n q n' lim Hg Hnz); [by left|lia|exact Hf]].
  destruct (object_page _ _ _ _ _ (ki_slab _ _ _ Hi) Ho) as (_ & _ & ? & ? & _). unfold lim. destruct (Z.ltb_spec new_size 4096); lia.
Qed.

(** Reading the header of a block in use. *)
Lemma hlive_header k cs g p n : kinv k cs g → hlive cs p n →
  heap_owns p (kheap k) = true ∧ u64 (p - sizeof_block) = p - 64 ∧ block_magic_ok (kmem k) (p - 64) = true ∧
  get (kmem k) (p - 64) f_size = n ∧ (16 | n).
Proof.
  intros Hi Hl. pose proof (hlive_range _ _ _ _ (ki_heap _ _ _ Hi) Hl) as (? & ? & ? & ? & _). destruct heap_consts as (? & ? & ? & Hmax & _).
  destruct Hl as (c & Hin & Hf & -> & ->). destruct (ki_heap _ _ _ Hi) as [[fl Hc] _ _ _].
  replace (c_addr c + 64 - 64) with (c_addr c) by lia. change sizeof_block with 64. unfold heap_owns. split_and!.
  - destruct (Z.leb_spec HEAP_START (c_addr c + 64)), (Z.ltb_spec (c_addr c + 64) (heap_mapped_end (kheap k))); done || lia.
  - rewrite u64_small by lia. lia.
  - exact (headers_magic _ _ _ _ (co_headers _ _ _ _ Hc) Hin).
  - by destruct (headers_in _ _ _ _ (co_headers _ _ _ _ Hc) Hin).
  - by destruct (core_addr _ _ _ _ _ Hc Hin) as (_ & _ & _ & ? & _).
Qed.

Lemma krealloc_shrink k cs g p n new_size : kinv k cs g → hlive cs p n → 0 < new_size ≤ HEAP_MAX_SIZE → ALIGN_UP new_size 16 ≤ n →
  krealloc_post k cs g p n new_size (Some (with_heap (shrink_block (p - 64) (ALIGN_UP new_size 16) (kheap k)) k, p)).
Proof.
  intros Hi Hl Hs Hle. destruct (align_request new_size Hs) as (H1 & H2 & H3).
  destruct (heap_resize_live _ _ p n (ALIGN_UP new_size 16) (ki_heap _ _ _ Hi) Hl ltac:(lia) H2) as (cs' & n' & Hok & Hw & Hn' & Hk & Hd & Hlv).
  pose proof (hlive_range _ _ _ _ (ki_heap _ _ _ Hi) Hl) as (? & ? & ? & ? & _). destruct heap_consts as (? & _).
  eexists _, p, cs', g, n'. split; [done|right]. split_and!; [lia|lia|]. split.
  - by apply (kinv_heap k cs).
  - intros q j. unfold klive. cbn [kslab with_heap]. rewrite Hlv. split; [|tauto]. intros [Hq|]; [left|tauto]. split; [tauto|]. intros ->.
    destruct (object_below _ _ _ _ _ Hi Hq) as (_ & ? & ?). lia.
  - intros q j w [[Hq|Hq] Hne] Hin; [by eapply (windowed_keeps k cs g)|by eapply Hk].
  - intros i Hi0 Hi8. unfold rd. f_equal. apply Hd. lia.
Qed.

Lemma krealloc_heap k cs g p n new_size answers avail : kinv k cs g → hlive cs p n →
  0 < new_size ≤ HEAP_MAX_SIZE → offered g answers → never_mistaken k cs p n new_size answers avail →
  krealloc_post k cs g p n new_size (krealloc p new_size answers avail k).
Proof.
  intros Hi Hl Hs Hof [Hu Hu2]. destruct (hlive_header _ _ _ _ _ Hi Hl) as (E1 & E2 & E3 & E4 & Hn16).
  destruct (klive_range k cs g p n Hi) as [Hp _]; [by right|]. unfold krealloc.
  rewrite (ki_on _ _ _ Hi), (proj2 (Z.eqb_neq p 0)), (proj2 (Z.eqb_neq new_size 0)), (is_slab_heap _ _ _ _ _ Hi Hl Hu), E1, E2 by lia.
  cbn [negb]. cbv zeta. rewrite E3, E4. cbn [negb]. destruct (Z.leb_spec (ALIGN_UP new_size 16) n) as [Hle|Hgt]; [by apply krealloc_shrink|].
  destruct (kmalloc_spec k cs g new_size answers avail Hi Hs Hof) as (k1 & q & cs1 & g1 & n' & Ek & Hg & Hq & _). rewrite Ek.
  cbn [mbind option_bind]. destruct (Z.eqb_spec q 0) as [->|Hnz]; [exists k1, 0, cs1, g1, n'; split; [done|by left]|].
  destruct (Hq Hnz) as [Hn' _]. assert (n < new_size).
  { destruct (Z.le_gt_cases new_size n); [|done]. destruct heap_consts as (_ & _ & _ & Hmax & _).
    rewrite ALIGN_UP_16 in Hgt by lia. destruct Hn16 as [z ->]. divlia. }
  pose proof (hlive_range _ _ _ _ (ki_heap _ _ _ Hi) Hl) as (_ & _ & _ & ? & _).
  destruct (fill_new k k1 cs cs1 g g1 q n' (memcpy q p n (kmem k1)) Hg Hnz) as [Hi2 _].
  { intros w Hw. apply memcpy_out; [lia|]. unfold in_range in Hw. lia. }
  set (k2 := with_kmem (memcpy q p n) k1). assert (Hi2' : kinv k2 cs1 g1) by exact Hi2.
  assert (Hl2 : hlive cs1 p n) by exact (block_stays _ _ _ _ _ _ _ _ _ _ Hi Hg Hl).
  destruct (kfree_spec k2 cs1 g1 p n Hi2') as (k3 & cs3 & g3 & -> & Hf); [by right|intros j _; by apply (Hu2 k1 q)|].
  cbn [mbind option_bind]. exists k3, q, cs3, g3, n'. split; [done|right]. split_and!; [done|lia|].
  eapply kmoved_len; [|eapply (moved_by_copy k k1 _ cs cs1 cs3 g g1 g3 p n q n' n Hg Hnz); [by right|lia|exact Hf]]. lia.
Qed.

(** ** heap_init *)

Lemma create_caches_ok sizes (s : S) g m : valid m s g → (∀ n, n ∈ sizes → 0 ≤ n < 2 ^ 63) →
  let '(s', cs) := create_caches sizes s in
  valid m s' g ∧ (∀ p n, objects s' g p n ↔ objects s g p n) ∧ (∀ d j, cache s d j → cache s' d j) ∧
  Forall2 (λ n c, c = 0 ∨ ∃ j, n ≤ j ∧ cache s' c j) sizes cs.
Proof.
  revert s. induction sizes as [|n sizes IH]; intros s Hv Hs; cbn [create_caches]; [by split_and!|].
  pose proof (create_law m s g n 16 Hv (Hs n ltac:(by left)) eq_refl) as Hc. destruct (slab_cache_create n 16 s) as [s1 c].
  destruct Hc as (Hv1 & Ho1 & Hca1 & Hc). specialize (IH s1 Hv1 ltac:(intros; apply Hs; by right)).
  destruct (create_caches sizes s1) as [s2 cs]. destruct IH as (Hv2 & Ho2 & Hca2 & Hf). split_and!; [done| | |].
  - intros p j. by rewrite Ho2.
  - auto.
  - constructor; [|done]. destruct Hc as [|(j & ? & ?)]; [by left|right]. exists j. auto.
Qed.

Lemma heap_init_spec avail m (s : S) g : valid m s g → 4096 ≤ Z.of_nat avail →
  ∃ k, heap_init avail m s = Some k ∧ kinv k [first_cell] g ∧ (∀ p n, klive k [first_cell] g p n ↔ objects s g p n).
Proof.
  intros Hv Ha. unfold heap_init. cbv zeta. change (HEAP_SIZE / PAGE_SIZE) with 4096. rewrite (proj2 (Z.ltb_ge _ _)) by lia.
  pose proof (heap_setup_ok m) as Hok. assert (Hw : windowed m (hmem (heap_setup m))) by apply heap_setup_windowed.
  pose proof (create_caches_ok slab_sizes s g (hmem (heap_setup m))) as Hc. destruct (create_caches slab_sizes s) as [s' cs].
  destruct Hc as (Hv' & Ho & _ & Hf).
  { eapply valid_frame; [exact Hv|]. intros t w Ht Hin. apply Hw. pose proof (direct_below t (page_direct _ _ _ _ Hv Ht)).
    unfold in_range in Hin. lia. }
  { unfold slab_sizes. intros n. rewrite !elem_of_cons, elem_of_nil. lia. }
  eexists. split; [done|]. split; [by split|]. intros p n. unfold klive. cbn [kslab]. rewrite Ho.
  split; [|by left]. intros [|(c & ->%list_elem_of_singleton & ? & _)]; done.
Qed.

(** ** Properties *)


(** C26: [kfree] of a block in use, slab object or heap block, always
    succeeds; the block is no longer in use and every other one keeps its place
    and contents.  [kfree(NULL)] does nothing.  For a heap block this needs
    that the first word of its page, which may belong to anyone, is not the
    slab magic. *)
Theorem kfree_correct k cs g p n :
  kinv k cs g → klive k cs g p n → unmistaken k cs p →
  kfree 0 k = Some k ∧ ∃ k' cs' g', kfree p k = Some k' ∧ kshrunk k k' cs cs' g g' p.
Proof. intros Hi Hl Hu. split; [done|by eapply kfree_spec]. Qed.

(** [krealloc] of a block in use never loses it.  Either NULL is returned
    and all blocks, the old one included, are as before, or the pointer returned
    is the start of a block of at least the new size that begins with the
    words the old block had (up to the smaller of the two sizes), the old
    block is no longer in use, and every other block keeps its place and
    contents; it never panics.  [krealloc(NULL, n)] is [kmalloc(n)] and
    [krealloc(p, 0)] frees. *)
Theorem krealloc_correct k cs g p n new_size answers avail :
  kinv k cs g → klive k cs g p n → 0 < new_size ≤ HEAP_MAX_SIZE → offered g answers →
  never_mistaken k cs p n new_size answers avail →
  krealloc_post k cs g p n new_size (krealloc p new_size answers avail k) ∧
  krealloc 0 new_size answers avail k = kmalloc new_size answers avail k ∧
  (∃ k' cs' g', krealloc p 0 answers avail k = Some (k', 0) ∧ kshrunk k k' cs cs' g g' p).
Proof.
  intros Hi Hl Hs Hof Hm. destruct (klive_range _ _ _ _ _ Hi Hl). split_and!.
  - destruct Hl; [by apply krealloc_slab|by apply krealloc_heap].
  - unfold krealloc. by rewrite (ki_on _ _ _ Hi).
  - destruct (kfree_spec k cs g p n Hi Hl (proj1 Hm)) as (k' & cs' & g' & Ef & Hf). exists k', cs', g'. split; [|done].
    unfold krealloc. rewrite (ki_on _ _ _ Hi), (proj2 (Z.eqb_neq p 0)) by lia. cbn [negb Z.eqb]. by rewrite Ef.
Qed.


End Props.

(** ** Witnesses: the kernel with the slab allocator of slab.c *)

#[local] Existing Instance Slab.slab_ops.

Definition g_boot : @ghost _ _ slab_laws := (λ _, [], λ _, []).

Definition k_boot : kernel Slab.slab_st := default (Kernel (heap_setup ∅) Slab.slab_boot [] false false) (heap_init 4096 ∅ Slab.slab_boot).

Lemma k_boot_inv : kinv k_boot [first_cell] g_boot.
Proof.
  destruct (heap_init_spec 4096 ∅ Slab.slab_boot g_boot) as (k & E & Hi & _); [apply SlabProps.slab_boot_inv|lia|].
  unfold k_boot. by rewrite E.
Qed.

Lemma pg_offered : offered g_boot [SlabProps.pg_a].
Proof. right. split; [apply SlabProps.pg_a_fresh|]. intros [j Hj]. cbn in Hj. set_solver. Qed.


(** The state after one allocation of 100 bytes, served by a slab. *)
Definition r_one : option (kernel Slab.slab_st * Z) := kmalloc 100 [SlabProps.pg_a] 0 k_boot.
Definition k_one : kernel Slab.slab_st := default k_boot (fst <$> r_one).
Definition p_one : Z := default 0 (snd <$> r_one).

Lemma p_one_slab : p_one ≠ 0 ∧ p_one < HEAP_START.
Proof. by vm_compute. Qed.

Lemma some_parts {A B} (o : option (A * B)) a b : match o with Some _ => true | None => false end = true →
  o = Some (default a (fst <$> o), default b (snd <$> o)).
Proof. by destruct o as [[x y]|]. Qed.

Lemma r_one_eq : kmalloc 100 [SlabProps.pg_a] 0 k_boot = Some (k_one, p_one).
Proof. unfold k_one, p_one, r_one. apply some_parts. by vm_compute. Qed.

Lemma after_kmalloc (k k' : kernel Slab.slab_st) p cs (g : @ghost _ _ slab_laws) answers : kinv k cs g → offered g answers →
  (∀ t, ¬ pages g t) → kmalloc 100 answers 0 k = Some (k', p) → p ≠ 0 → p < HEAP_START →
  ∃ cs' (g' : @ghost _ _ slab_laws) n, kinv k' cs' g' ∧ klive k' cs' g' p n ∧ 100 ≤ n ∧
    (∀ j, ¬ hlive cs' p j) ∧ ∀ t, pages g' t → t = Slab.DIRECT_MAP_BASE + hd 0 answers.
Proof.
  intros Hi Hof Hnone E Hp Hb. destruct heap_consts as (_ & _ & _ & Hmax & _).
  destruct (kmalloc_spec k cs g 100 answers 0 Hi ltac:(lia) Hof) as (k1 & q & cs' & g' & n & E1 & Hg & Hp' & Hpg).
  rewrite E in E1. injection E1 as <- <-. exists cs', g', n. split_and!; [apply Hg| |by apply Hp'| |].
  - apply (kg_live _ _ _ _ _ _ _ _ Hg). by right.
  - intros j Hj. destruct (hlive_range _ _ _ _ (ki_heap _ _ _ (kg_inv _ _ _ _ _ _ _ _ Hg)) Hj) as (? & _). lia.
  - intros t [Ht|Ht]%Hpg; [by destruct (Hnone t)|done].
Qed.

Lemma k_one_inv : ∃ cs (g : @ghost _ _ slab_laws) n, kinv k_one cs g ∧ klive k_one cs g p_one n ∧ 100 ≤ n ∧
  (∀ j, ¬ hlive cs p_one j) ∧ ∀ t, pages g t → t = Slab.DIRECT_MAP_BASE + SlabProps.pg_a.
Proof.
  apply (after_kmalloc k_boot k_one p_one [first_cell] g_boot [SlabProps.pg_a] k_boot_inv pg_offered).
  - intros t [j Hj]. by apply not_elem_of_nil in Hj.
  - exact r_one_eq.
  - apply p_one_slab.
  - apply p_one_slab.
Qed.

Lemma kfree_correct_witness : ∃ cs g k' cs' g', kfree p_one k_one = Some k' ∧ kshrunk k_one k' cs cs' g g' p_one.
Proof.
  destruct k_one_inv as (cs & g & n & Hi & Hl & _ & Hno & _). exists cs, g.
  apply (kfree_correct k_one cs g p_one n Hi Hl). intros j Hj. by destruct (Hno j).
Defined.

Definition pg_b : Z := 0x200000.

Lemma krealloc_correct_witness : ∃ cs g n, 100 ≤ n ∧
  krealloc_post k_one cs g p_one n 1000 (krealloc p_one 1000 [pg_b] 0 k_one).
Proof.
  destruct k_one_inv as (cs & g & n & Hi & Hl & Hn & Hno & Hpg). destruct heap_consts as (_ & _ & _ & Hmax & _).
  exists cs, g, n. split; [done|]. apply (krealloc_correct k_one cs g p_one n 1000 [pg_b] 0 Hi Hl ltac:(lia)).
  - right. split; [split; [by exists ((Slab.DIRECT_MAP_BASE + pg_b) / 4096)|by vm_compute]|]. intros E%Hpg. by vm_compute in E.
  - split; [intros j Hj; by destruct (Hno j)|]. intros k1 q Hj. by destruct (Hno n).
Defined.


(** ** A heap block that is taken for a slab object *)

(** A block of two pages lies across a page boundary; its owner writes the slab
    magic there.  A block allocated behind it, on that page, can no longer be
    freed: the probe of [kfree] sees the magic. *)
Definition k_user (k : kernel Slab.slab_st) (w v : Z) : kernel Slab.slab_st := with_kmem (λ m, wr m w v) k.

Definition mistaken_state : option (kernel Slab.slab_st * Z) :=
  '(k, a) ← kmalloc 8000 [] 0 k_boot;
  '(k, b) ← kmalloc 5000 [] 0 k;
  Some (k_user k (page_base b) SLAB_MAGIC, b).

Theorem kfree_mistakes_heap_block :
  match mistaken_state with
  | Some (k, b) => heap_owns b (kheap k) = true ∧ is_slab b k = true ∧
      heap_used <$> (kheap <$> kfree b k) = Some (heap_used (kheap k))
  | None => False
  end.
Proof. by vm_compute. Qed.

End KmallocProps.
