(* ===== verification/CString.v ===== *)
(** * Memory and string functions (src/kernel/lib/string.c)

    Memory is a map from addresses to bytes; [rd] and [wr] access one byte and
    [ld64]/[st64] eight of them in little-endian order, at any alignment.  An
    address without a byte reads as 0.  Pointers are plain addresses: ranges
    that wrap around the address space are not considered.  Loops that end at a
    NUL byte run on the size of the memory as fuel, which every string that
    ends inside it respects. *)

From S2P Require Import Prelude Words.

Module CString.
Import Words.

(** ** Words in memory *)

Definition ld64 (m : mem) (a : Z) : Z :=
  rd m a + rd m (a + 1) * 2 ^ 8 + rd m (a + 2) * 2 ^ 16 + rd m (a + 3) * 2 ^ 24 +
  rd m (a + 4) * 2 ^ 32 + rd m (a + 5) * 2 ^ 40 + rd m (a + 6) * 2 ^ 48 + rd m (a + 7) * 2 ^ 56.

Definition byte_of (v i : Z) : Z := u8 (v / 2 ^ (8 * i)).

Definition st64 (m : mem) (a v : Z) : mem :=
  wr (wr (wr (wr (wr (wr (wr (wr m a (byte_of v 0)) (a + 1) (byte_of v 1)) (a + 2) (byte_of v 2)) (a + 3) (byte_of v 3))
    (a + 4) (byte_of v 4)) (a + 5) (byte_of v 5)) (a + 6) (byte_of v 6)) (a + 7) (byte_of v 7).

Definition ERMS_THRESHOLD : Z := 4096.

(** ** memcpy *)

(** [rep movsb] with the direction flag clear. *)
Fixpoint rep_movsb (n : nat) (d s : Z) (m : mem) : mem :=
  match n with
  | O => m
  | S n => rep_movsb n (d + 1) (s + 1) (wr m d (rd m s))
  end.

(** [while ((d & 7) && n) { *d++ = *s++; n--; }] ends within 7 rounds. *)
Fixpoint copy_head (fuel : nat) (d s n : Z) (m : mem) : mem * Z * Z * Z :=
  match fuel with
  | O => (m, d, s, n)
  | S fuel =>
      if negb (Z.land d 7 =? 0) && negb (n =? 0) then copy_head fuel (d + 1) (s + 1) (n - 1) (wr m d (rd m s))
      else (m, d, s, n)
  end.

(** [while (quads--)]: four words per round. *)
Fixpoint copy_quads (k : nat) (d s : Z) (m : mem) : mem :=
  match k with
  | O => m
  | S k =>
      let m := st64 m d (ld64 m s) in
      let m := st64 m (d + 8) (ld64 m (s + 8)) in
      let m := st64 m (d + 16) (ld64 m (s + 16)) in
      let m := st64 m (d + 24) (ld64 m (s + 24)) in
      copy_quads k (d + 32) (s + 32) m
  end.

Fixpoint copy_words8 (k : nat) (d s : Z) (m : mem) : mem :=
  match k with
  | O => m
  | S k => copy_words8 k (d + 8) (s + 8) (st64 m d (ld64 m s))
  end.

(** Head, words and tail; the forward path of [memmove] is the same code. *)
Definition copy_fwd (d s n : Z) (m : mem) : mem :=
  let '(m, d, s, n) := copy_head 8 d s n m in
  let quads := Z.shiftr n 5 in
  let n := Z.land n 31 in
  let m := copy_quads (Z.to_nat quads) d s m in
  let d := d + 32 * quads in
  let s := s + 32 * quads in
  let words := Z.shiftr n 3 in
  let n := Z.land n 7 in
  let m := copy_words8 (Z.to_nat words) d s m in
  let d := d + 8 * words in
  let s := s + 8 * words in
  rep_movsb (Z.to_nat n) d s m.

Definition memcpy (erms_ok : bool) (dest src n : Z) (m : mem) : mem :=
  if n =? 0 then m
  else if erms_ok && (ERMS_THRESHOLD <=? n) then rep_movsb (Z.to_nat n) dest src m
  else copy_fwd dest src n m.

(** ** memset *)

(** [rep stosb], and the byte loops of [memset]. *)
Fixpoint rep_stosb (n : nat) (d v : Z) (m : mem) : mem :=
  match n with
  | O => m
  | S n => rep_stosb n (d + 1) v (wr m d v)
  end.

Fixpoint set_head (fuel : nat) (d v n : Z) (m : mem) : mem * Z * Z :=
  match fuel with
  | O => (m, d, n)
  | S fuel =>
      if negb (Z.land d 7 =? 0) && negb (n =? 0) then set_head fuel (d + 1) v (n - 1) (wr m d v)
      else (m, d, n)
  end.

Definition pattern (byte_val : Z) : Z :=
  let pattern := byte_val in
  let pattern := Z.lor pattern (u64 (Z.shiftl pattern 8)) in
  let pattern := Z.lor pattern (u64 (Z.shiftl pattern 16)) in
  Z.lor pattern (u64 (Z.shiftl pattern 32)).

Fixpoint set_quads (k : nat) (d p : Z) (m : mem) : mem :=
  match k with
  | O => m
  | S k =>
      let m := st64 m d p in
      let m := st64 m (d + 8) p in
      let m := st64 m (d + 16) p in
      let m := st64 m (d + 24) p in
      set_quads k (d + 32) p m
  end.

Fixpoint set_words (k : nat) (d p : Z) (m : mem) : mem :=
  match k with
  | O => m
  | S k => set_words k (d + 8) p (st64 m d p)
  end.

Definition memset (erms_ok : bool) (dest val n : Z) (m : mem) : mem :=
  let byte_val := u8 val in
  if n =? 0 then m
  else if erms_ok && (ERMS_THRESHOLD <=? n) then rep_stosb (Z.to_nat n) dest byte_val m
  else
    let '(m, d, n) := set_head 8 dest byte_val n m in
    let p := pattern byte_val in
    let quads := Z.shiftr n 5 in
    let n := Z.land n 31 in
    let m := set_quads (Z.to_nat quads) d p m in
    let d := d + 32 * quads in
    let words := Z.shiftr n 3 in
    let n := Z.land n 7 in
    let m := set_words (Z.to_nat words) d p m in
    let d := d + 8 * words in
    rep_stosb (Z.to_nat n) d byte_val m.

(** ** memmove *)

(** The backward loops; [d] and [s] are one past the end. *)
Fixpoint back_head (fuel : nat) (d s n : Z) (m : mem) : mem * Z * Z * Z :=
  match fuel with
  | O => (m, d, s, n)
  | S fuel =>
      if negb (Z.land d 7 =? 0) && negb (n =? 0) then back_head fuel (d - 1) (s - 1) (n - 1) (wr m (d - 1) (rd m (s - 1)))
      else (m, d, s, n)
  end.

Fixpoint back_quads (k : nat) (d s : Z) (m : mem) : mem :=
  match k with
  | O => m
  | S k =>
      let d := d - 32 in
      let s := s - 32 in
      let m := st64 m (d + 24) (ld64 m (s + 24)) in
      let m := st64 m (d + 16) (ld64 m (s + 16)) in
      let m := st64 m (d + 8) (ld64 m (s + 8)) in
      let m := st64 m d (ld64 m s) in
      back_quads k d s m
  end.

Fixpoint back_words (k : nat) (d s : Z) (m : mem) : mem :=
  match k with
  | O => m
  | S k => back_words k (d - 8) (s - 8) (st64 m (d - 8) (ld64 m (s - 8)))
  end.

Fixpoint back_bytes (k : nat) (d s : Z) (m : mem) : mem :=
  match k with
  | O => m
  | S k => back_bytes k (d - 1) (s - 1) (wr m (d - 1) (rd m (s - 1)))
  end.

Definition copy_back (d s n : Z) (m : mem) : mem :=
  let d := d + n in
  let s := s + n in
  let '(m, d, s, n) := back_head 8 d s n m in
  let quads := Z.shiftr n 5 in
  let n := Z.land n 31 in
  let m := back_quads (Z.to_nat quads) d s m in
  let d := d - 32 * quads in
  let s := s - 32 * quads in
  let words := Z.shiftr n 3 in
  let n := Z.land n 7 in
  let m := back_words (Z.to_nat words) d s m in
  let d := d - 8 * words in
  let s := s - 8 * words in
  back_bytes (Z.to_nat n) d s m.

Definition memmove (dest src n : Z) (m : mem) : mem :=
  if (n =? 0) || (dest =? src) then m
  else if (dest <? src) || (src + n <=? dest) then copy_fwd dest src n m
  else copy_back dest src n m.

(** ** memcmp *)

Fixpoint memcmp_loop (n : nat) (a b : Z) (m : mem) : Z :=
  match n with
  | O => 0
  | S n => if negb (rd m a =? rd m b) then rd m a - rd m b else memcmp_loop n (a + 1) (b + 1) m
  end.

Definition memcmp (s1 s2 n : Z) (m : mem) : Z := memcmp_loop (Z.to_nat n) s1 s2 m.

(** ** Strings *)

Definition str_fuel (m : mem) : nat := S (size m).

Fixpoint strlen_loop (fuel : nat) (str len : Z) (m : mem) : Z :=
  match fuel with
  | O => len
  | S fuel => if negb (rd m (str + len) =? 0) then strlen_loop fuel str (len + 1) m else len
  end.

Definition strlen (str : Z) (m : mem) : Z := strlen_loop (str_fuel m) str 0 m.

Fixpoint strcmp_loop (fuel : nat) (s1 s2 : Z) (m : mem) : Z :=
  match fuel with
  | O => rd m s1 - rd m s2
  | S fuel =>
      if negb (rd m s1 =? 0) && (rd m s1 =? rd m s2) then strcmp_loop fuel (s1 + 1) (s2 + 1) m
      else rd m s1 - rd m s2
  end.

Definition strcmp (s1 s2 : Z) (m : mem) : Z := strcmp_loop (str_fuel m) s1 s2 m.

Fixpoint strncmp_loop (n : nat) (s1 s2 : Z) (m : mem) : Z :=
  match n with
  | O => 0
  | S n =>
      if negb (rd m s1 =? 0) && (rd m s1 =? rd m s2) then strncmp_loop n (s1 + 1) (s2 + 1) m
      else rd m s1 - rd m s2
  end.

Definition strncmp (s1 s2 n : Z) (m : mem) : Z := strncmp_loop (Z.to_nat n) s1 s2 m.

(** [while (( *d++ = *src++));] *)
Fixpoint strcpy_loop (fuel : nat) (d src : Z) (m : mem) : mem :=
  match fuel with
  | O => m
  | S fuel =>
      let c := rd m src in
      let m := wr m d c in
      if negb (c =? 0) then strcpy_loop fuel (d + 1) (src + 1) m else m
  end.

Definition strcpy (dest src : Z) (m : mem) : mem := strcpy_loop (str_fuel m) dest src m.

(** [while (n && ( *d++ = *src++)) n--;]: both pointers move on the byte that
    ends the loop, [n] does not count it. *)
Fixpoint strncpy_loop (fuel : nat) (d src n : Z) (m : mem) : mem * Z * Z :=
  match fuel with
  | O => (m, d, n)
  | S fuel =>
      if n =? 0 then (m, d, n)
      else
        let c := rd m src in
        let m := wr m d c in
        if negb (c =? 0) then strncpy_loop fuel (d + 1) (src + 1) (n - 1) m else (m, d + 1, n)
  end.

Definition strncpy (dest src n : Z) (m : mem) : mem :=
  let '(m, d, n) := strncpy_loop (S (Z.to_nat n)) dest src n m in
  rep_stosb (Z.to_nat n) d 0 m.

(** [while ( *h && *n && *h == *n) { h++; n++; }] *)
Fixpoint match_at (fuel : nat) (h n : Z) (m : mem) : Z * Z :=
  match fuel with
  | O => (h, n)
  | S fuel =>
      if negb (rd m h =? 0) && negb (rd m n =? 0) && (rd m h =? rd m n) then match_at fuel (h + 1) (n + 1) m
      else (h, n)
  end.

Fixpoint strstr_loop (fuel : nat) (haystack needle : Z) (m : mem) : Z :=
  match fuel with
  | O => 0
  | S fuel =>
      if rd m haystack =? 0 then 0
      else
        let '(h, n) := match_at (str_fuel m) haystack needle m in
        if rd m n =? 0 then haystack else strstr_loop fuel (haystack + 1) needle m
  end.

Definition strstr (haystack needle : Z) (m : mem) : Z :=
  if rd m needle =? 0 then haystack else strstr_loop (str_fuel m) haystack needle m.

(** [while ( *d) d++;] *)
Fixpoint str_end (fuel : nat) (d : Z) (m : mem) : Z :=
  match fuel with
  | O => d
  | S fuel => if negb (rd m d =? 0) then str_end fuel (d + 1) m else d
  end.

Definition strcat (dest src : Z) (m : mem) : mem :=
  let d := str_end (str_fuel m) dest m in
  strcpy_loop (str_fuel m) d src m.

(** [while (n-- && ( *d = *src++)) d++;] *)
Fixpoint strncat_loop (n : nat) (d src : Z) (m : mem) : mem * Z :=
  match n with
  | O => (m, d)
  | S n =>
      let c := rd m src in
      let m := wr m d c in
      if negb (c =? 0) then strncat_loop n (d + 1) (src + 1) m else (m, d)
  end.

Definition strncat (dest src n : Z) (m : mem) : mem :=
  let d := str_end (str_fuel m) dest m in
  let '(m, d) := strncat_loop (Z.to_nat n) d src m in
  wr m d 0.

Fixpoint strnlen_loop (n : nat) (str len : Z) (m : mem) : Z :=
  match n with
  | O => len
  | S n => if negb (rd m (str + len) =? 0) then strnlen_loop n str (len + 1) m else len
  end.

Definition strnlen (str maxlen : Z) (m : mem) : Z := strnlen_loop (Z.to_nat maxlen) str 0 m.

(** A [char] argument is the low byte of an [int]. *)
Fixpoint strchr_loop (fuel : nat) (s c : Z) (m : mem) : Z :=
  match fuel with
  | O => 0
  | S fuel =>
      if rd m s =? 0 then (if c =? 0 then s else 0)
      else if rd m s =? u8 c then s else strchr_loop fuel (s + 1) c m
  end.

Definition strchr (s c : Z) (m : mem) : Z := strchr_loop (str_fuel m) s c m.

Fixpoint strrchr_loop (fuel : nat) (s c last : Z) (m : mem) : Z :=
  match fuel with
  | O => last
  | S fuel =>
      if rd m s =? 0 then (if c =? 0 then s else last)
      else strrchr_loop fuel (s + 1) c (if rd m s =? u8 c then s else last) m
  end.

Definition strrchr (s c : Z) (m : mem) : Z := strrchr_loop (str_fuel m) s c 0 m.

End CString.
