(* ===== verification/CStringMem.v ===== *)
(** * String functions: copying and filling memory *)

From S2P Require Import Prelude Words CString.

Module CStringMem.
Import Words CString.

(** ** Bytes and words *)

Definition bytes_ok (m : mem) : Prop := ∀ a, 0 ≤ rd m a < 256.

Lemma bytes_ok_wr m a v : bytes_ok m → 0 ≤ v < 256 → bytes_ok (wr m a v).
Proof. intros Hm Hv b. destruct (decide (a = b)) as [->|]; [by rewrite rd_wr_eq|by rewrite rd_wr_ne]. Qed.

Lemma byte_of_range v i : 0 ≤ byte_of v i < 256.
Proof. apply Z.mod_pos_bound. lia. Qed.

Lemma bytes_ok_st64 m a v : bytes_ok m → bytes_ok (st64 m a v).
Proof. intros Hm. unfold st64. repeat (apply bytes_ok_wr; [|apply byte_of_range]). done. Qed.

Lemma rd_wr m a b v : rd (wr m a v) b = if decide (a = b) then v else rd m b.
Proof. destruct (decide (a = b)) as [->|]; [apply rd_wr_eq|by apply rd_wr_ne]. Qed.

Lemma rd_st64 m a v w : rd (st64 m a v) w = if decide (a ≤ w < a + 8) then byte_of v (w - a) else rd m w.
Proof.
  unfold st64. rewrite !rd_wr. destruct (decide (a ≤ w < a + 8)) as [H|H].
  - repeat (destruct (decide (_ = w)) as [E|?]; [f_equal; lia|]). lia.
  - by rewrite !decide_False by lia.
Qed.

Lemma byte_split lo b hi i v : 0 ≤ i → 0 ≤ lo < 2 ^ (8 * i) → 0 ≤ b < 256 → v = lo + (b + hi * 256) * 2 ^ (8 * i) → byte_of v i = b.
Proof.
  intros Hi Hlo Hb ->. unfold byte_of, u8. assert (0 < 2 ^ (8 * i)) by lia. rewrite Z.div_add by lia. rewrite (Z.div_small lo) by lia.
  rewrite Z.add_0_l. change (2 ^ 8) with 256. rewrite Z.mod_add by lia. by apply Z.mod_small.
Qed.

(** A word stored as it was read copies its bytes. *)
Lemma byte_ld64 m a i : bytes_ok m → 0 ≤ i < 8 → byte_of (ld64 m a) i = rd m (a + i).
Proof.
  intros Hm Hi. pose proof (Hm a) as B0. pose proof (Hm (a + 1)) as B1. pose proof (Hm (a + 2)) as B2. pose proof (Hm (a + 3)) as B3.
  pose proof (Hm (a + 4)) as B4. pose proof (Hm (a + 5)) as B5. pose proof (Hm (a + 6)) as B6. pose proof (Hm (a + 7)) as B7.
  assert (i = 0 ∨ i = 1 ∨ i = 2 ∨ i = 3 ∨ i = 4 ∨ i = 5 ∨ i = 6 ∨ i = 7) as Hc by lia. unfold ld64.
  destruct Hc as [->|[->|[->|[->|[->|[->|[->| ->]]]]]]]; rewrite ?Z.add_0_r.
  all: generalize dependent (rd m a); generalize dependent (rd m (a + 1)); generalize dependent (rd m (a + 2)); generalize dependent (rd m (a + 3));
    generalize dependent (rd m (a + 4)); generalize dependent (rd m (a + 5)); generalize dependent (rd m (a + 6)); generalize dependent (rd m (a + 7)).
  all: intros b7 B7 b6 B6 b5 B5 b4 B4 b3 B3 b2 B2 b1 B1 b0 B0.
  - apply (byte_split 0 b0 (b1 + b2 * 2 ^ 8 + b3 * 2 ^ 16 + b4 * 2 ^ 24 + b5 * 2 ^ 32 + b6 * 2 ^ 40 + b7 * 2 ^ 48)); lia.
  - apply (byte_split b0 b1 (b2 + b3 * 2 ^ 8 + b4 * 2 ^ 16 + b5 * 2 ^ 24 + b6 * 2 ^ 32 + b7 * 2 ^ 40)); lia.
  - apply (byte_split (b0 + b1 * 2 ^ 8) b2 (b3 + b4 * 2 ^ 8 + b5 * 2 ^ 16 + b6 * 2 ^ 24 + b7 * 2 ^ 32)); lia.
  - apply (byte_split (b0 + b1 * 2 ^ 8 + b2 * 2 ^ 16) b3 (b4 + b5 * 2 ^ 8 + b6 * 2 ^ 16 + b7 * 2 ^ 24)); lia.
  - apply (byte_split (b0 + b1 * 2 ^ 8 + b2 * 2 ^ 16 + b3 * 2 ^ 24) b4 (b5 + b6 * 2 ^ 8 + b7 * 2 ^ 16)); lia.
  - apply (byte_split (b0 + b1 * 2 ^ 8 + b2 * 2 ^ 16 + b3 * 2 ^ 24 + b4 * 2 ^ 32) b5 (b6 + b7 * 2 ^ 8)); lia.
  - apply (byte_split (b0 + b1 * 2 ^ 8 + b2 * 2 ^ 16 + b3 * 2 ^ 24 + b4 * 2 ^ 32 + b5 * 2 ^ 40) b6 b7); lia.
  - apply (byte_split (b0 + b1 * 2 ^ 8 + b2 * 2 ^ 16 + b3 * 2 ^ 24 + b4 * 2 ^ 32 + b5 * 2 ^ 40 + b6 * 2 ^ 48) b7 0); lia.
Qed.

(** ** The effect of a copy *)

(** The [n] bytes at [d] are what the [n] bytes at [s] were. *)
Definition moved (d s n : Z) (m m' : mem) : Prop :=
  ∀ w, rd m' w = if decide (d ≤ w < d + n) then rd m (s + (w - d)) else rd m w.

Lemma moved_0 d s m : moved d s 0 m m.
Proof. intros w. by rewrite decide_False by lia. Qed.

Lemma moved_byte d s m : moved d s 1 m (wr m d (rd m s)).
Proof.
  intros w. rewrite rd_wr. destruct (decide (d = w)) as [->|]; [rewrite decide_True by lia; f_equal; lia|by rewrite decide_False by lia].
Qed.

Lemma moved_word d s m : bytes_ok m → moved d s 8 m (st64 m d (ld64 m s)).
Proof. intros Hm w. rewrite rd_st64. destruct (decide _); [|done]. apply byte_ld64; [done|lia]. Qed.

Lemma moved_bytes_ok d s n m m' : bytes_ok m → moved d s n m m' → bytes_ok m'.
Proof. intros Hm Hc a. rewrite Hc. destruct (decide _); apply Hm. Qed.

(** Forward copying: the front first. *)
Definition fwd_ok (d s n : Z) : Prop := d ≤ s ∨ s + n ≤ d.

Lemma moved_fwd d s a b m1 m2 m3 : 0 ≤ a → 0 ≤ b → fwd_ok d s (a + b) → moved d s a m1 m2 → moved (d + a) (s + a) b m2 m3 →
  moved d s (a + b) m1 m3.
Proof.
  intros Ha Hb Hf H1 H2 w. rewrite H2. unfold fwd_ok in Hf. destruct (decide (d + a ≤ w < d + a + b)).
  - rewrite H1, decide_False, decide_True by lia. f_equal. lia.
  - rewrite H1. destruct (decide (d ≤ w < d + a)); [rewrite decide_True by lia|rewrite decide_False by lia]; done.
Qed.

(** Backward copying: the back first. *)
Lemma moved_back d s a b m1 m2 m3 : 0 ≤ a → 0 ≤ b → s ≤ d → moved (d + b) (s + b) a m1 m2 → moved d s b m2 m3 →
  moved d s (a + b) m1 m3.
Proof.
  intros Ha Hb Hf H1 H2 w. rewrite H2. destruct (decide (d ≤ w < d + b)).
  - rewrite H1, decide_False, decide_True by lia. done.
  - rewrite H1. destruct (decide (d + b ≤ w < d + b + a)); [rewrite decide_True by lia; f_equal; lia|by rewrite decide_False by lia].
Qed.

Lemma fwd_mono d s n a b : 0 ≤ a → 0 ≤ b → a + b ≤ n → fwd_ok d s n → fwd_ok (d + a) (s + a) b.
Proof. unfold fwd_ok. lia. Qed.

(** ** The forward loops *)

Lemma rep_movsb_ok n d s m : fwd_ok d s (Z.of_nat n) → moved d s (Z.of_nat n) m (rep_movsb n d s m).
Proof.
  revert d s m. induction n as [|n IH]; intros d s m Hf; cbn [rep_movsb]; [apply moved_0|].
  replace (Z.of_nat (S n)) with (1 + Z.of_nat n) in * by lia. eapply moved_fwd; [lia|lia|done|apply moved_byte|].
  apply IH. eapply fwd_mono; [..|exact Hf]; lia.
Qed.

Lemma copy_words8_ok k d s m : bytes_ok m → fwd_ok d s (8 * Z.of_nat k) → moved d s (8 * Z.of_nat k) m (copy_words8 k d s m).
Proof.
  revert d s m. induction k as [|k IH]; intros d s m Hm Hf; cbn [copy_words8]; [apply moved_0|].
  replace (8 * Z.of_nat (S k)) with (8 + 8 * Z.of_nat k) in * by lia. pose proof (moved_word d s m Hm) as Hw.
  eapply moved_fwd; [lia|lia|done|exact Hw|]. apply IH; [by eapply moved_bytes_ok|]. eapply fwd_mono; [..|exact Hf]; lia.
Qed.

(** One round of four words. *)
Lemma copy_quads_unroll k d s m : copy_quads (S k) d s m = copy_quads k (d + 32) (s + 32) (copy_words8 4 d s m).
Proof.
  cbn [copy_quads copy_words8]. replace (d + 8 + 8) with (d + 16) by lia. replace (d + 16 + 8) with (d + 24) by lia.
  replace (s + 8 + 8) with (s + 16) by lia. by replace (s + 16 + 8) with (s + 24) by lia.
Qed.

Lemma copy_quads_ok k d s m : bytes_ok m → fwd_ok d s (32 * Z.of_nat k) → moved d s (32 * Z.of_nat k) m (copy_quads k d s m).
Proof.
  revert d s m. induction k as [|k IH]; intros d s m Hm Hf; [apply moved_0|]. rewrite copy_quads_unroll.
  replace (32 * Z.of_nat (S k)) with (32 + 32 * Z.of_nat k) in * by lia.
  assert (moved d s 32 m (copy_words8 4 d s m)) as Hw. { apply (copy_words8_ok 4 d s m Hm). unfold fwd_ok in *. lia. }
  eapply moved_fwd; [lia|lia|done|exact Hw|]. apply IH; [by eapply moved_bytes_ok|]. eapply fwd_mono; [..|exact Hf]; lia.
Qed.

Lemma copy_head_ok fuel d s n m m' d' s' n' : 0 ≤ n → fwd_ok d s n → copy_head fuel d s n m = (m', d', s', n') →
  ∃ a, 0 ≤ a ≤ n ∧ d' = d + a ∧ s' = s + a ∧ n' = n - a ∧ moved d s a m m'.
Proof.
  revert d s n m. induction fuel as [|fuel IH]; intros d s n m Hn Hf; cbn [copy_head].
  { intros [= <- <- <- <-]. exists 0. split_and!; try lia. apply moved_0. }
  destruct (negb (Z.land d 7 =? 0)) eqn:E1; cbn [andb]; [destruct (Z.eqb_spec n 0) as [|Hnz]; cbn [negb]|].
  - intros [= <- <- <- <-]. exists 0. split_and!; try lia. apply moved_0.
  - intros Hc. apply IH in Hc as (a & Ha & -> & -> & -> & Hm); [|lia|eapply (fwd_mono d s n 1 (n - 1)); lia || done].
    exists (1 + a). split_and!; try lia. eapply moved_fwd; [lia|lia| |apply moved_byte|done]. unfold fwd_ok in *. lia.
  - intros [= <- <- <- <-]. exists 0. split_and!; try lia. apply moved_0.
Qed.

Lemma split_len n : 0 ≤ n → n = 32 * Z.shiftr n 5 + (8 * Z.shiftr (Z.land n 31) 3 + Z.land (Z.land n 31) 7) ∧
  0 ≤ Z.shiftr n 5 ∧ 0 ≤ Z.shiftr (Z.land n 31) 3 ∧ 0 ≤ Z.land (Z.land n 31) 7.
Proof.
  intros Hn. change 31 with (Z.ones 5). change 7 with (Z.ones 3). rewrite !Z.land_ones, !Z.shiftr_div_pow2 by lia.
  change (2 ^ 5) with 32. change (2 ^ 3) with 8. split_and!; divlia.
Qed.

Lemma copy_fwd_ok d s n m : bytes_ok m → 0 ≤ n → fwd_ok d s n → moved d s n m (copy_fwd d s n m).
Proof.
  intros Hm Hn Hf. unfold copy_fwd. destruct (copy_head 8 d s n m) as [[[m1 d1] s1] n1] eqn:Eh.
  apply copy_head_ok in Eh as (a & Ha & -> & -> & -> & H1); [|done..]. pose proof (moved_bytes_ok _ _ _ _ _ Hm H1) as Hm1. cbv zeta.
  destruct (split_len (n - a)) as (En & Hq & Hw & Ht); [lia|]. set (q := Z.shiftr (n - a) 5) in *.
  set (w := Z.shiftr (Z.land (n - a) 31) 3) in *. set (t := Z.land (Z.land (n - a) 31) 7) in *.
  pose proof (copy_quads_ok (Z.to_nat q) (d + a) (s + a) m1 Hm1) as H2. rewrite Z2Nat.id in H2 by done.
  specialize (H2 ltac:(eapply fwd_mono; [..|exact Hf]; lia)). set (m2 := copy_quads _ _ _ _) in *.
  pose proof (moved_bytes_ok _ _ _ _ _ Hm1 H2) as Hm2.
  pose proof (copy_words8_ok (Z.to_nat w) (d + a + 32 * q) (s + a + 32 * q) m2 Hm2) as H3. rewrite Z2Nat.id in H3 by done.
  specialize (H3 ltac:(rewrite <- !Z.add_assoc; eapply fwd_mono; [..|exact Hf]; lia)). set (m3 := copy_words8 _ _ _ _) in *.
  pose proof (rep_movsb_ok (Z.to_nat t) (d + a + 32 * q + 8 * w) (s + a + 32 * q + 8 * w) m3) as H4. rewrite Z2Nat.id in H4 by done.
  specialize (H4 ltac:(rewrite <- !Z.add_assoc; eapply fwd_mono; [..|exact Hf]; lia)).
  replace n with (a + (32 * q + (8 * w + t))) by lia. eapply moved_fwd; [lia|lia|by replace (a + _) with n by lia|exact H1|].
  eapply moved_fwd; [lia|lia|eapply fwd_mono; [..|exact Hf]; lia|exact H2|].
  eapply moved_fwd; [lia|lia|rewrite <- !Z.add_assoc; eapply fwd_mono; [..|exact Hf]; lia|exact H3|exact H4].
Qed.

(** ** The backward loops *)

Lemma back_bytes_ok k d s m : s ≤ d → moved (d - Z.of_nat k) (s - Z.of_nat k) (Z.of_nat k) m (back_bytes k d s m).
Proof.
  revert d s m. induction k as [|k IH]; intros d s m Hf; cbn [back_bytes]; [apply moved_0|].
  replace (Z.of_nat (S k)) with (1 + Z.of_nat k) by lia. eapply moved_back; [lia|lia|lia| |].
  - replace (d - (1 + Z.of_nat k) + Z.of_nat k) with (d - 1) by lia. replace (s - (1 + Z.of_nat k) + Z.of_nat k) with (s - 1) by lia. apply moved_byte.
  - replace (d - (1 + Z.of_nat k)) with (d - 1 - Z.of_nat k) by lia. replace (s - (1 + Z.of_nat k)) with (s - 1 - Z.of_nat k) by lia. apply IH. lia.
Qed.

Lemma back_words_ok k d s m : bytes_ok m → s ≤ d → moved (d - 8 * Z.of_nat k) (s - 8 * Z.of_nat k) (8 * Z.of_nat k) m (back_words k d s m).
Proof.
  revert d s m. induction k as [|k IH]; intros d s m Hm Hf; cbn [back_words]; [apply moved_0|].
  replace (8 * Z.of_nat (S k)) with (8 + 8 * Z.of_nat k) by lia. pose proof (moved_word (d - 8) (s - 8) m Hm) as Hw. eapply moved_back; [lia|lia|lia| |].
  - replace (d - (8 + 8 * Z.of_nat k) + 8 * Z.of_nat k) with (d - 8) by lia. replace (s - (8 + 8 * Z.of_nat k) + 8 * Z.of_nat k) with (s - 8) by lia. exact Hw.
  - replace (d - (8 + 8 * Z.of_nat k)) with (d - 8 - 8 * Z.of_nat k) by lia. replace (s - (8 + 8 * Z.of_nat k)) with (s - 8 - 8 * Z.of_nat k) by lia.
    apply IH; [by eapply moved_bytes_ok|lia].
Qed.

Lemma back_quads_unroll k d s m : back_quads (S k) d s m = back_quads k (d - 32) (s - 32) (back_words 4 d s m).
Proof.
  cbn [back_quads back_words]. replace (d - 32 + 24) with (d - 8) by lia. replace (d - 32 + 16) with (d - 8 - 8) by lia.
  replace (d - 32 + 8) with (d - 8 - 8 - 8) by lia. replace (s - 32 + 24) with (s - 8) by lia. replace (s - 32 + 16) with (s - 8 - 8) by lia.
  replace (s - 32 + 8) with (s - 8 - 8 - 8) by lia. by replace (d - 8 - 8 - 8 - 8) with (d - 32) by lia; replace (s - 8 - 8 - 8 - 8) with (s - 32) by lia.
Qed.

Lemma back_quads_ok k d s m : bytes_ok m → s ≤ d → moved (d - 32 * Z.of_nat k) (s - 32 * Z.of_nat k) (32 * Z.of_nat k) m (back_quads k d s m).
Proof.
  revert d s m. induction k as [|k IH]; intros d s m Hm Hf; [apply moved_0|]. rewrite back_quads_unroll.
  replace (32 * Z.of_nat (S k)) with (32 + 32 * Z.of_nat k) by lia. pose proof (back_words_ok 4 d s m Hm Hf) as Hw. change (8 * Z.of_nat 4) with 32 in Hw.
  eapply moved_back; [lia|lia|lia| |].
  - replace (d - (32 + 32 * Z.of_nat k) + 32 * Z.of_nat k) with (d - 32) by lia. replace (s - (32 + 32 * Z.of_nat k) + 32 * Z.of_nat k) with (s - 32) by lia. exact Hw.
  - replace (d - (32 + 32 * Z.of_nat k)) with (d - 32 - 32 * Z.of_nat k) by lia. replace (s - (32 + 32 * Z.of_nat k)) with (s - 32 - 32 * Z.of_nat k) by lia.
    apply IH; [by eapply moved_bytes_ok|lia].
Qed.

Lemma back_head_ok fuel d s n m m' d' s' n' : 0 ≤ n → s ≤ d → back_head fuel d s n m = (m', d', s', n') →
  ∃ a, 0 ≤ a ≤ n ∧ d' = d - a ∧ s' = s - a ∧ n' = n - a ∧ moved (d - a) (s - a) a m m'.
Proof.
  revert d s n m. induction fuel as [|fuel IH]; intros d s n m Hn Hf; cbn [back_head].
  { intros [= <- <- <- <-]. exists 0. split_and!; try lia. apply moved_0. }
  destruct (negb (Z.land d 7 =? 0)) eqn:E1; cbn [andb]; [destruct (Z.eqb_spec n 0) as [|Hnz]; cbn [negb]|].
  - intros [= <- <- <- <-]. exists 0. split_and!; try lia. apply moved_0.
  - intros Hc. apply IH in Hc as (a & Ha & -> & -> & -> & Hm); [|lia|lia]. exists (1 + a). split_and!; try lia.
    eapply moved_back; [lia|lia|lia| |].
    + replace (d - (1 + a) + a) with (d - 1) by lia. replace (s - (1 + a) + a) with (s - 1) by lia. apply moved_byte.
    + replace (d - (1 + a)) with (d - 1 - a) by lia. by replace (s - (1 + a)) with (s - 1 - a) by lia.
  - intros [= <- <- <- <-]. exists 0. split_and!; try lia. apply moved_0.
Qed.

Lemma copy_back_ok d s n m : bytes_ok m → 0 ≤ n → s ≤ d → moved d s n m (copy_back d s n m).
Proof.
  intros Hm Hn Hf. unfold copy_back. destruct (back_head 8 (d + n) (s + n) n m) as [[[m1 d1] s1] n1] eqn:Eh.
  apply back_head_ok in Eh as (a & Ha & -> & -> & -> & H1); [|lia|lia]. pose proof (moved_bytes_ok _ _ _ _ _ Hm H1) as Hm1. cbv zeta.
  destruct (split_len (n - a)) as (En & Hq & Hw & Ht); [lia|]. set (q := Z.shiftr (n - a) 5) in *.
  set (w := Z.shiftr (Z.land (n - a) 31) 3) in *. set (t := Z.land (Z.land (n - a) 31) 7) in *.
  pose proof (back_quads_ok (Z.to_nat q) (d + n - a) (s + n - a) m1 Hm1 ltac:(lia)) as H2. rewrite Z2Nat.id in H2 by done.
  set (m2 := back_quads _ _ _ _) in *. pose proof (moved_bytes_ok _ _ _ _ _ Hm1 H2) as Hm2.
  pose proof (back_words_ok (Z.to_nat w) (d + n - a - 32 * q) (s + n - a - 32 * q) m2 Hm2 ltac:(lia)) as H3. rewrite Z2Nat.id in H3 by done.
  set (m3 := back_words _ _ _ _) in *.
  pose proof (back_bytes_ok (Z.to_nat t) (d + n - a - 32 * q - 8 * w) (s + n - a - 32 * q - 8 * w) m3 ltac:(lia)) as H4. rewrite Z2Nat.id in H4 by done.
  assert (∀ x, x + n - a - 32 * q - 8 * w - t = x) as E0 by (intros; lia). rewrite !E0 in H4.
  assert (∀ x, x + n - a - 32 * q - 8 * w = x + t) as E1 by (intros; lia). rewrite !E1 in H3.
  assert (∀ x, x + n - a - 32 * q = x + (8 * w + t)) as E2 by (intros; lia). rewrite !E2 in H2.
  assert (∀ x, x + n - a = x + (32 * q + (8 * w + t))) as E3 by (intros; lia). rewrite !E3 in H1.
  set (m4 := back_bytes _ _ _ _) in *. clearbody m4. replace n with (a + (32 * q + (8 * w + t))) by lia. eapply moved_back; [lia|lia|lia|exact H1|].
  eapply moved_back; [lia|lia|lia|exact H2|]. eapply moved_back; [lia|lia|lia|exact H3|exact H4].
Qed.

(** ** Filling *)

Definition filled (d v n : Z) (m m' : mem) : Prop := ∀ w, rd m' w = if decide (d ≤ w < d + n) then v else rd m w.

Lemma filled_app d v a b m1 m2 m3 : 0 ≤ a → 0 ≤ b → filled d v a m1 m2 → filled (d + a) v b m2 m3 → filled d v (a + b) m1 m3.
Proof.
  intros Ha Hb H1 H2 w. rewrite H2, H1. destruct (decide (d + a ≤ w < d + a + b)); [by rewrite decide_True by lia|].
  destruct (decide (d ≤ w < d + a)); [by rewrite decide_True by lia|by rewrite decide_False by lia].
Qed.

Lemma filled_0 d v m : filled d v 0 m m.
Proof. intros w. by rewrite decide_False by lia. Qed.

Lemma filled_byte d v m : filled d v 1 m (wr m d v).
Proof. intros w. rewrite rd_wr. destruct (decide (d = w)); [by rewrite decide_True by lia|by rewrite decide_False by lia]. Qed.

(** Every byte of the broadcast word is the byte. *)
Lemma pattern_byte v i : 0 ≤ v < 256 → 0 ≤ i < 8 → byte_of (pattern v) i = v.
Proof.
  intros Hv Hi. assert (Forall (λ v, Forall (λ i, byte_of (pattern v) i = v) (seqZ 0 8)) (seqZ 0 256)) as H.
  { apply (bool_decide_unpack _). by vm_compute. }
  rewrite Forall_forall in H. specialize (H v ltac:(apply elem_of_seqZ; lia)). rewrite Forall_forall in H. apply H, elem_of_seqZ. lia.
Qed.

Lemma filled_word d v m : 0 ≤ v < 256 → filled d v 8 m (st64 m d (pattern v)).
Proof. intros Hv w. rewrite rd_st64. destruct (decide _); [|done]. apply pattern_byte; lia. Qed.

Lemma rep_stosb_ok n d v m : filled d v (Z.of_nat n) m (rep_stosb n d v m).
Proof.
  revert d m. induction n as [|n IH]; intros d m; cbn [rep_stosb]; [apply filled_0|].
  replace (Z.of_nat (S n)) with (1 + Z.of_nat n) by lia. eapply filled_app; [lia|lia|apply filled_byte|apply IH].
Qed.

Lemma set_words_ok k d v m : 0 ≤ v < 256 → filled d v (8 * Z.of_nat k) m (set_words k d (pattern v) m).
Proof.
  intros Hv. revert d m. induction k as [|k IH]; intros d m; cbn [set_words]; [apply filled_0|].
  replace (8 * Z.of_nat (S k)) with (8 + 8 * Z.of_nat k) by lia. eapply filled_app; [lia|lia|by apply filled_word|apply IH].
Qed.

Lemma set_quads_ok k d v m : 0 ≤ v < 256 → filled d v (32 * Z.of_nat k) m (set_quads k d (pattern v) m).
Proof.
  intros Hv. revert d m. induction k as [|k IH]; intros d m; [apply filled_0|].
  assert (set_quads (S k) d (pattern v) m = set_quads k (d + 32) (pattern v) (set_words 4 d (pattern v) m)) as ->.
  { cbn [set_quads set_words]. replace (d + 8 + 8) with (d + 16) by lia. by replace (d + 16 + 8) with (d + 24) by lia. }
  replace (32 * Z.of_nat (S k)) with (32 + 32 * Z.of_nat k) by lia.
  eapply filled_app; [lia|lia|exact (set_words_ok 4 d v m Hv)|apply IH].
Qed.

Lemma set_head_ok fuel d v n m m' d' n' : 0 ≤ n → set_head fuel d v n m = (m', d', n') →
  ∃ a, 0 ≤ a ≤ n ∧ d' = d + a ∧ n' = n - a ∧ filled d v a m m'.
Proof.
  revert d n m. induction fuel as [|fuel IH]; intros d n m Hn; cbn [set_head].
  { intros [= <- <- <-]. exists 0. split_and!; try lia. apply filled_0. }
  destruct (negb (Z.land d 7 =? 0)) eqn:E1; cbn [andb]; [destruct (Z.eqb_spec n 0) as [|Hnz]; cbn [negb]|].
  - intros [= <- <- <-]. exists 0. split_and!; try lia. apply filled_0.
  - intros Hc. apply IH in Hc as (a & Ha & -> & -> & Hm); [|lia]. exists (1 + a). split_and!; try lia.
    eapply filled_app; [lia|lia|apply filled_byte|done].
  - intros [= <- <- <-]. exists 0. split_and!; try lia. apply filled_0.
Qed.

Lemma memset_ok erms d val n m : 0 ≤ n → filled d (u8 val) n m (memset erms d val n m).
Proof.
  intros Hn. unfold memset. cbv zeta. assert (0 ≤ u8 val < 256) as Hv by (apply Z.mod_pos_bound; lia). set (v := u8 val) in *.
  destruct (Z.eqb_spec n 0) as [->|]; [apply filled_0|]. destruct (erms && _).
  { pose proof (rep_stosb_ok (Z.to_nat n) d v m) as H. by rewrite Z2Nat.id in H by done. }
  destruct (set_head 8 d v n m) as [[m1 d1] n1] eqn:Eh. apply set_head_ok in Eh as (a & Ha & -> & -> & H1); [|done].
  destruct (split_len (n - a)) as (En & Hq & Hw & Ht); [lia|]. set (q := Z.shiftr (n - a) 5) in *.
  set (w := Z.shiftr (Z.land (n - a) 31) 3) in *. set (t := Z.land (Z.land (n - a) 31) 7) in *.
  replace n with (a + (32 * q + (8 * w + t))) by lia. eapply filled_app; [lia|lia|exact H1|].
  pose proof (set_quads_ok (Z.to_nat q) (d + a) v m1 Hv) as H2. rewrite Z2Nat.id in H2 by done.
  eapply filled_app; [lia|lia|exact H2|]. set (m2 := set_quads _ _ _ _).
  pose proof (set_words_ok (Z.to_nat w) (d + a + 32 * q) v m2 Hv) as H3. rewrite Z2Nat.id in H3 by done.
  eapply filled_app; [lia|lia|exact H3|]. set (m3 := set_words _ _ _ _).
  pose proof (rep_stosb_ok (Z.to_nat t) (d + a + 32 * q + 8 * w) v m3) as H4. by rewrite Z2Nat.id in H4 by done.
Qed.

End CStringMem.
