(* ===== verification/CStringStr.v ===== *)
(** * String functions: NUL-terminated strings as lists of bytes *)

From S2P Require Import Prelude Words CString CStringMem.

Module CStringStr.
Import Words CString CStringMem.

(** ** Strings in memory *)

Fixpoint cstr (m : mem) (a : Z) (l : list Z) : Prop :=
  match l with
  | [] => rd m a = 0
  | x :: l => rd m a = x ∧ x ≠ 0 ∧ cstr m (a + 1) l
  end.

Lemma cstr_ext m m' a l : (∀ w, a ≤ w ≤ a + Z.of_nat (length l) → rd m' w = rd m w) → cstr m a l → cstr m' a l.
Proof.
  revert a. induction l as [|x l IH]; intros a He; cbn [cstr length] in *; [rewrite He by lia; done|].
  intros (H1 & H2 & H3). split_and!; [rewrite He by lia; done|done|]. apply IH; [|done]. intros w Hw. apply He. lia.
Qed.

Lemma cstr_at m a l i : cstr m a l → 0 ≤ i ≤ Z.of_nat (length l) → rd m (a + i) = default 0 (l !! Z.to_nat i) ∧
  (rd m (a + i) = 0 ↔ i = Z.of_nat (length l)).
Proof.
  revert a i. induction l as [|x l IH]; intros a i; cbn [cstr length].
  - intros H0 Hi. assert (i = 0) as -> by lia. rewrite Z.add_0_r, H0. done.
  - intros (H1 & H2 & H3) Hi. destruct (decide (i = 0)) as [->|Hne].
    + rewrite Z.add_0_r, H1. cbn. split; [done|]. split; [done|lia].
    + destruct (IH (a + 1) (i - 1) H3 ltac:(lia)) as [E1 E2]. replace (a + 1 + (i - 1)) with (a + i) in * by lia.
      replace (Z.to_nat i) with (S (Z.to_nat (i - 1))) by lia. cbn. split; [done|]. rewrite E2. lia.
Qed.

Lemma cstr_fun m a l l' : cstr m a l → cstr m a l' → l = l'.
Proof.
  revert a l'. induction l as [|x l IH]; intros a [|y l'] H1 H2; cbn in *; [done|destruct H2 as (? & ? & _); congruence|destruct H1 as (? & ? & _); congruence|].
  destruct H1 as (<- & _ & H1), H2 as (<- & _ & H2). f_equal. by eapply IH.
Qed.

(** A string ends inside the memory. *)
Lemma cstr_size m a l : cstr m a l → (length l ≤ size m)%nat.
Proof.
  intros Hs. assert (length l ≤ size (dom m))%nat as H; [|by rewrite size_dom in H].
  replace (length l) with (length (seqZ a (Z.of_nat (length l)))) by (rewrite length_seqZ; lia).
  rewrite <- (size_list_to_set (C := gset Z)) by apply NoDup_seqZ. apply subseteq_size. intros w Hw%elem_of_list_to_set. apply elem_of_seqZ in Hw.
  apply elem_of_dom. destruct (cstr_at m a l (w - a) Hs) as [_ E]; [lia|]. replace (a + (w - a)) with w in E by lia. unfold rd in E.
  destruct (m !! w); [by eexists|]. cbn in E. lia.
Qed.

Lemma cstr_bytes m a l : bytes_ok m → cstr m a l → Forall (λ x, 0 < x < 256) l.
Proof.
  intros Hm. revert a. induction l as [|x l IH]; intros a; cbn; [constructor|]. intros (H1 & H2 & H3). constructor; [|by eapply IH].
  pose proof (Hm a). lia.
Qed.

(** ** Length *)

Lemma strlen_loop_ok fuel str len m l : cstr m (str + len) l → (length l < fuel)%nat → strlen_loop fuel str len m = len + Z.of_nat (length l).
Proof.
  revert len l. induction fuel as [|fuel IH]; intros len l Hs Hf; [lia|]. cbn [strlen_loop]. destruct l as [|x l]; cbn [cstr length] in *.
  - rewrite Hs. cbn. lia.
  - destruct Hs as (-> & Hx & Hs). rewrite (proj2 (Z.eqb_neq x 0) Hx). cbn [negb]. rewrite (IH (len + 1) l); [lia|by replace (str + (len + 1)) with (str + len + 1) by lia|lia].
Qed.

Lemma strlen_ok str m l : cstr m str l → strlen str m = Z.of_nat (length l).
Proof.
  intros Hs. unfold strlen. rewrite (strlen_loop_ok _ str 0 m l); [lia|by rewrite Z.add_0_r|]. pose proof (cstr_size _ _ _ Hs). unfold str_fuel. lia.
Qed.

Lemma strnlen_loop_ok n str len m l : cstr m (str + len) l → strnlen_loop n str len m = len + Z.of_nat (min n (length l)).
Proof.
  revert len l. induction n as [|n IH]; intros len l Hs; [cbn; lia|]. cbn [strnlen_loop]. destruct l as [|x l]; cbn [cstr length] in *.
  - rewrite Hs. cbn. lia.
  - destruct Hs as (-> & Hx & Hs). rewrite (proj2 (Z.eqb_neq x 0) Hx). cbn [negb]. rewrite (IH (len + 1) l); [lia|by replace (str + (len + 1)) with (str + len + 1) by lia].
Qed.

(** ** Comparison *)

(** The difference of the first bytes that differ, the terminator included. *)
Fixpoint diff (l1 l2 : list Z) : Z :=
  match l1, l2 with
  | [], [] => 0
  | [], y :: _ => 0 - y
  | x :: _, [] => x - 0
  | x :: l1, y :: l2 => if x =? y then diff l1 l2 else x - y
  end.

Lemma diff_zero l1 l2 : Forall (λ x, 0 < x) l1 → Forall (λ x, 0 < x) l2 → diff l1 l2 = 0 ↔ l1 = l2.
Proof.
  intros H1. revert l2. induction H1 as [|x l1 Hx H1 IH]; intros [|y l2] H2; cbn; [done| | |].
  - apply Forall_cons in H2 as [? _]. split; [lia|done].
  - split; [lia|done].
  - apply Forall_cons in H2 as [? H2]. destruct (Z.eqb_spec x y) as [->|]; [rewrite IH by done; naive_solver|]. split; [lia|]. intros [= -> _]. done.
Qed.

(** Lexicographic order on the bytes. *)
Inductive lex : list Z → list Z → Prop :=
| lex_nil y l : lex [] (y :: l)
| lex_lt x y l1 l2 : x < y → lex (x :: l1) (y :: l2)
| lex_eq x l1 l2 : lex l1 l2 → lex (x :: l1) (x :: l2).

Lemma diff_lex l1 l2 : Forall (λ x, 0 < x) l1 → Forall (λ x, 0 < x) l2 → diff l1 l2 < 0 ↔ lex l1 l2.
Proof.
  intros H1. revert l2. induction H1 as [|x l1 Hx H1 IH]; intros [|y l2] H2; cbn.
  - split; [lia|]. inversion 1.
  - apply Forall_cons in H2 as [? _]. split; [constructor|lia].
  - split; [lia|]. inversion 1.
  - apply Forall_cons in H2 as [? H2]. destruct (Z.eqb_spec x y) as [->|].
    + rewrite IH by done. split; [by constructor|]. inversion 1; [lia|done].
    + split; [intros; constructor; lia|]. inversion 1; [lia|done].
Qed.

Lemma strcmp_loop_ok fuel s1 s2 m l1 l2 : cstr m s1 l1 → cstr m s2 l2 → (length l1 < fuel)%nat → strcmp_loop fuel s1 s2 m = diff l1 l2.
Proof.
  revert s1 s2 l1 l2. induction fuel as [|fuel IH]; intros s1 s2 l1 l2 H1 H2 Hf; [lia|]. cbn [strcmp_loop].
  destruct l1 as [|x l1], l2 as [|y l2]; cbn [cstr length diff] in *.
  - rewrite H1, H2. done.
  - destruct H2 as (E2 & ? & _). rewrite H1, E2. done.
  - destruct H1 as (E1 & Hx & _). rewrite E1, H2. rewrite (proj2 (Z.eqb_neq x 0) Hx). done.
  - destruct H1 as (-> & Hx & H1), H2 as (-> & Hy & H2). rewrite (proj2 (Z.eqb_neq x 0) Hx). cbn [negb andb].
    destruct (x =? y); [apply IH; [done|done|lia]|done].
Qed.

Lemma strcmp_ok s1 s2 m l1 l2 : cstr m s1 l1 → cstr m s2 l2 → strcmp s1 s2 m = diff l1 l2.
Proof. intros H1 H2. apply strcmp_loop_ok; [done|done|]. pose proof (cstr_size _ _ _ H1). unfold str_fuel. lia. Qed.

Lemma strncmp_ok n s1 s2 m l1 l2 : cstr m s1 l1 → cstr m s2 l2 → strncmp_loop n s1 s2 m = diff (take n l1) (take n l2).
Proof.
  revert s1 s2 l1 l2. induction n as [|n IH]; intros s1 s2 l1 l2 H1 H2; cbn [strncmp_loop]; [done|].
  destruct l1 as [|x l1], l2 as [|y l2]; cbn [cstr diff take] in *.
  - rewrite H1, H2. done.
  - destruct H2 as (E2 & ? & _). rewrite H1, E2. done.
  - destruct H1 as (E1 & Hx & _). rewrite E1, H2. rewrite (proj2 (Z.eqb_neq x 0) Hx). done.
  - destruct H1 as (-> & Hx & H1), H2 as (-> & Hy & H2). rewrite (proj2 (Z.eqb_neq x 0) Hx). cbn [negb andb].
    destruct (x =? y); [by apply IH|done].
Qed.

Lemma memcmp_loop_zero n a b m : memcmp_loop n a b m = 0 ↔ ∀ i, 0 ≤ i < Z.of_nat n → rd m (a + i) = rd m (b + i).
Proof.
  revert a b. induction n as [|n IH]; intros a b; cbn [memcmp_loop]; [split; [lia|done]|].
  destruct (Z.eqb_spec (rd m a) (rd m b)) as [E|E]; cbn [negb].
  - rewrite IH. split; intros H i Hi.
    + destruct (decide (i = 0)) as [->|]; [by rewrite !Z.add_0_r|]. specialize (H (i - 1) ltac:(lia)).
      by replace (a + 1 + (i - 1)) with (a + i) in H by lia; replace (b + 1 + (i - 1)) with (b + i) in H by lia.
    + replace (a + 1 + i) with (a + (i + 1)) by lia. replace (b + 1 + i) with (b + (i + 1)) by lia. apply H. lia.
  - split; [lia|]. intros H. specialize (H 0 ltac:(lia)). rewrite !Z.add_0_r in H. done.
Qed.

(** ** Searching *)

Lemma strchr_loop_ok fuel s c m l : cstr m s l → (length l < fuel)%nat → strchr_loop fuel s c m =
  match list_find (λ x, x = u8 c) l with
  | Some (i, _) => s + Z.of_nat i
  | None => if c =? 0 then s + Z.of_nat (length l) else 0
  end.
Proof.
  revert s l. induction fuel as [|fuel IH]; intros s l Hs Hf; [lia|]. cbn [strchr_loop]. destruct l as [|x l]; cbn [cstr length list_find] in *.
  - rewrite Hs. cbn. by rewrite Z.add_0_r.
  - destruct Hs as (-> & Hx & Hs). rewrite (proj2 (Z.eqb_neq x 0) Hx). destruct (Z.eqb_spec x (u8 c)) as [E|E].
    + rewrite decide_True by done. cbn. lia.
    + rewrite decide_False by done. rewrite (IH (s + 1) l Hs) by lia. destruct (list_find _ l) as [[i y]|]; cbn [fmap option_fmap option_map prod_map]; [cbn; lia|].
      destruct (c =? 0); lia.
Qed.

(** The last position of [x] in [l]. *)
Fixpoint last_index (x : Z) (l : list Z) : option nat :=
  match l with
  | [] => None
  | y :: l => match last_index x l with Some i => Some (S i) | None => if y =? x then Some O else None end
  end.

Lemma strrchr_loop_ok fuel s c last m l : cstr m s l → (length l < fuel)%nat → strrchr_loop fuel s c last m =
  if c =? 0 then s + Z.of_nat (length l)
  else match last_index (u8 c) l with Some i => s + Z.of_nat i | None => last end.
Proof.
  revert s last l. induction fuel as [|fuel IH]; intros s last l Hs Hf; [lia|]. cbn [strrchr_loop]. destruct l as [|x l]; cbn [cstr length last_index] in *.
  - rewrite Hs. cbn. by rewrite Z.add_0_r.
  - destruct Hs as (-> & Hx & Hs). rewrite (proj2 (Z.eqb_neq x 0) Hx). rewrite (IH (s + 1) _ l Hs) by lia.
    destruct (c =? 0); [lia|]. destruct (last_index (u8 c) l) as [i|]; [lia|]. destruct (x =? u8 c); [lia|done].
Qed.

(** The longest common start of the two strings. *)
Fixpoint common (l1 l2 : list Z) : nat :=
  match l1, l2 with
  | x :: l1, y :: l2 => if x =? y then S (common l1 l2) else O
  | _, _ => O
  end.

Lemma match_at_ok fuel h n m l1 l2 : cstr m h l1 → cstr m n l2 → (length l1 < fuel)%nat →
  match_at fuel h n m = (h + Z.of_nat (common l1 l2), n + Z.of_nat (common l1 l2)).
Proof.
  revert h n l1 l2. induction fuel as [|fuel IH]; intros h n l1 l2 H1 H2 Hf; [lia|]. cbn [match_at].
  destruct l1 as [|x l1], l2 as [|y l2]; cbn [cstr length common] in *.
  - rewrite H1. cbn. by rewrite !Z.add_0_r.
  - rewrite H1. cbn. by rewrite !Z.add_0_r.
  - destruct H1 as (E1 & Hx & _). rewrite E1, H2, andb_false_r. cbn. by rewrite !Z.add_0_r.
  - destruct H1 as (-> & Hx & H1), H2 as (-> & Hy & H2). rewrite (proj2 (Z.eqb_neq x 0) Hx), (proj2 (Z.eqb_neq y 0) Hy). cbn [negb andb].
    destruct (x =? y); [|by rewrite !Z.add_0_r]. rewrite (IH _ _ l1 l2 H1 H2) by lia. f_equal; lia.
Qed.

Lemma common_prefix l1 l2 : common l1 l2 = length l2 ↔ l2 `prefix_of` l1.
Proof.
  revert l2. induction l1 as [|x l1 IH]; intros [|y l2]; cbn.
  - split; [|done]. intros _. apply prefix_nil.
  - split; [lia|]. intros [k Hk]. done.
  - split; [|done]. intros _. apply prefix_nil.
  - destruct (Z.eqb_spec x y) as [->|Hne].
    + split; [intros [= E]; by apply prefix_cons, IH|intros Hp%prefix_cons_inv_2; f_equal; by apply IH].
    + split; [lia|]. intros [k [= ? _]]. congruence.
Qed.

(** The first suffix of [l] that starts with [k]. *)
Fixpoint find_sub (l k : list Z) : option nat :=
  match l with
  | [] => None
  | x :: l' => if bool_decide (k `prefix_of` l) then Some O else S <$> find_sub l' k
  end.

Lemma strstr_loop_ok fuel h n m l k : cstr m h l → cstr m n k → k ≠ [] → (length l < fuel)%nat →
  strstr_loop fuel h n m = match find_sub l k with Some i => h + Z.of_nat i | None => 0 end.
Proof.
  revert h l. induction fuel as [|fuel IH]; intros h l H1 H2 Hk Hf; [lia|]. cbn [strstr_loop].
  destruct l as [|x l]; [cbn in H1; by rewrite H1|]. pose proof H1 as (E & Hx & H1'). rewrite E, (proj2 (Z.eqb_neq x 0) Hx).
  rewrite (match_at_ok _ h n m (x :: l) k H1 H2) by (pose proof (cstr_size _ _ _ H1); unfold str_fuel; lia).
  set (c := common (x :: l) k). assert (Hc : (c ≤ length k)%nat).
  { subst c. clear. revert k. induction (x :: l) as [|y r IH]; intros [|z k]; cbn; try lia. destruct (y =? z); [|lia]. specialize (IH k). lia. }
  destruct (cstr_at m n k (Z.of_nat c) H2 ltac:(lia)) as [_ Ez]. cbn [find_sub].
  destruct (Z.eqb_spec (rd m (n + Z.of_nat c)) 0) as [Hz|Hz].
  - apply Ez in Hz. rewrite bool_decide_true; [lia|]. apply common_prefix. subst c. lia.
  - rewrite bool_decide_false; [|intros Hp%common_prefix; apply Hz, Ez; subst c; lia].
    cbn [length] in Hf. rewrite (IH (h + 1) l H1' H2 Hk) by lia. destruct (find_sub l k); cbn [fmap option_fmap option_map]; lia.
Qed.

(** ** Copying *)

Lemma cstr_shift m d s l w : cstr m s l → fwd_ok d s (1 + Z.of_nat (length l)) → l ≠ [] →
  w = rd m s → cstr (wr m d w) (s + 1) (tail l).
Proof.
  intros Hs Hf Hl ->. destruct l as [|x l]; [done|]. cbn [tail cstr] in *. destruct Hs as (_ & _ & Hs). eapply cstr_ext; [|exact Hs].
  intros y Hy. apply rd_wr_ne. unfold fwd_ok in Hf. cbn [length] in Hf. lia.
Qed.

Lemma strcpy_loop_ok fuel d s m l : cstr m s l → (length l < fuel)%nat → fwd_ok d s (1 + Z.of_nat (length l)) →
  moved d s (1 + Z.of_nat (length l)) m (strcpy_loop fuel d s m).
Proof.
  revert d s m l. induction fuel as [|fuel IH]; intros d s m l Hs Hl Hf; [lia|]. cbn [strcpy_loop]. cbv zeta. destruct l as [|x l].
  - cbn [cstr length] in *. rewrite Hs. cbn. rewrite <- Hs. apply moved_byte.
  - pose proof (cstr_shift m d s (x :: l) (rd m s) Hs Hf ltac:(done) eq_refl) as Ht. cbn [tail length] in *. destruct Hs as (E & Hx & _).
    rewrite E, (proj2 (Z.eqb_neq x 0) Hx). cbn [negb]. rewrite <- E. replace (1 + Z.of_nat (S (length l))) with (1 + (1 + Z.of_nat (length l))) in * by lia.
    eapply moved_fwd; [lia|lia|done|apply moved_byte|]. apply IH; [done|lia|]. eapply fwd_mono; [..|exact Hf]; lia.
Qed.

(** [strncpy] of a string of at least [n] bytes. *)
Lemma strncpy_loop_long fuel d s n m l : cstr m s l → 0 ≤ n ≤ Z.of_nat (length l) → (Z.to_nat n < fuel)%nat → fwd_ok d s (1 + Z.of_nat (length l)) →
  ∃ m', strncpy_loop fuel d s n m = (m', d + n, 0) ∧ moved d s n m m'.
Proof.
  revert d s n m l. induction fuel as [|fuel IH]; intros d s n m l Hs Hn Hl Hf; [lia|]. cbn [strncpy_loop]. destruct (Z.eqb_spec n 0) as [->|Hnz].
  { exists m. rewrite Z.add_0_r. split; [done|apply moved_0]. }
  destruct l as [|x l]; [cbn in Hn; lia|]. pose proof (cstr_shift m d s (x :: l) (rd m s) Hs Hf ltac:(done) eq_refl) as Ht. cbn [tail length] in *.
  destruct Hs as (E & Hx & _). cbv zeta. rewrite E, (proj2 (Z.eqb_neq x 0) Hx). cbn [negb]. rewrite <- E.
  destruct (IH (d + 1) (s + 1) (n - 1) (wr m d (rd m s)) l Ht) as (m' & -> & Hm); [lia|lia|unfold fwd_ok in *; lia|].
  exists m'. split; [by replace (d + 1 + (n - 1)) with (d + n) by lia|]. replace n with (1 + (n - 1)) by lia.
  eapply moved_fwd; [lia|lia|unfold fwd_ok in *; lia|apply moved_byte|done].
Qed.

(** [strncpy] of a shorter one: the terminator is copied without being
    counted. *)
Lemma strncpy_loop_short fuel d s n m l : cstr m s l → Z.of_nat (length l) < n → (length l < fuel)%nat → fwd_ok d s (1 + Z.of_nat (length l)) →
  ∃ m', strncpy_loop fuel d s n m = (m', d + 1 + Z.of_nat (length l), n - Z.of_nat (length l)) ∧ moved d s (1 + Z.of_nat (length l)) m m'.
Proof.
  revert d s n m l. induction fuel as [|fuel IH]; intros d s n m l Hs Hn Hl Hf; [lia|]. cbn [strncpy_loop]. rewrite (proj2 (Z.eqb_neq n 0)) by lia.
  cbv zeta. destruct l as [|x l].
  - cbn [cstr length] in *. exists (wr m d (rd m s)). rewrite Hs. cbn. split; [by rewrite Z.add_0_r, Z.sub_0_r|]. rewrite <- Hs. apply moved_byte.
  - pose proof (cstr_shift m d s (x :: l) (rd m s) Hs Hf ltac:(done) eq_refl) as Ht. cbn [tail length] in *.
    destruct Hs as (E & Hx & _). rewrite E, (proj2 (Z.eqb_neq x 0) Hx). cbn [negb]. rewrite <- E.
    destruct (IH (d + 1) (s + 1) (n - 1) (wr m d (rd m s)) l Ht) as (m' & -> & Hm); [lia|lia|unfold fwd_ok in *; lia|].
    exists m'. split; [by replace (d + 1 + 1 + Z.of_nat (length l)) with (d + 1 + Z.of_nat (S (length l))) by lia; replace (n - 1 - Z.of_nat (length l)) with (n - Z.of_nat (S (length l))) by lia|]. replace (1 + Z.of_nat (S (length l))) with (1 + (1 + Z.of_nat (length l))) in * by lia.
    eapply moved_fwd; [lia|lia|done|apply moved_byte|done].
Qed.

Lemma str_end_ok fuel d m l : cstr m d l → (length l < fuel)%nat → str_end fuel d m = d + Z.of_nat (length l).
Proof.
  revert d l. induction fuel as [|fuel IH]; intros d l Hs Hf; [lia|]. cbn [str_end]. destruct l as [|x l]; cbn [cstr length] in *.
  - rewrite Hs. cbn. lia.
  - destruct Hs as (-> & Hx & Hs). rewrite (proj2 (Z.eqb_neq x 0) Hx). cbn [negb]. rewrite (IH (d + 1) l Hs) by lia. lia.
Qed.

Lemma strncat_loop_ok n d s m l : cstr m s l → fwd_ok d s (1 + Z.of_nat (length l)) →
  ∃ m', strncat_loop n d s m = (m', d + Z.of_nat (min n (length l))) ∧
    (moved d s (Z.of_nat (min n (length l))) m m' ∨ moved d s (1 + Z.of_nat (length l)) m m' ∧ (length l < n)%nat).
Proof.
  revert d s m l. induction n as [|n IH]; intros d s m l Hs Hf; cbn [strncat_loop].
  { exists m. cbn. rewrite Z.add_0_r. split; [done|left; apply moved_0]. }
  cbv zeta. destruct l as [|x l].
  - cbn [cstr length] in *. exists (wr m d (rd m s)). rewrite Hs. cbn. rewrite Z.add_0_r. split; [done|right]. rewrite <- Hs. split; [apply moved_byte|lia].
  - pose proof (cstr_shift m d s (x :: l) (rd m s) Hs Hf ltac:(done) eq_refl) as Ht. cbn [tail length] in *.
    destruct Hs as (E & Hx & _). rewrite E, (proj2 (Z.eqb_neq x 0) Hx). cbn [negb]. rewrite <- E.
    destruct (IH (d + 1) (s + 1) (wr m d (rd m s)) l Ht) as (m' & -> & Hm); [unfold fwd_ok in *; lia|].
    exists m'. split; [f_equal; lia|]. destruct Hm as [Hm|[Hm Hlt]]; [left|right].
    + replace (Z.of_nat (min (S n) (S (length l)))) with (1 + Z.of_nat (min n (length l))) by lia.
      eapply moved_fwd; [lia|lia|unfold fwd_ok in *; lia|apply moved_byte|done].
    + split; [|lia]. replace (1 + Z.of_nat (S (length l))) with (1 + (1 + Z.of_nat (length l))) in * by lia.
      eapply moved_fwd; [lia|lia|done|apply moved_byte|done].
Qed.

End CStringStr.
