(* ===== verification/CStringProps.v ===== *)
(** * String functions: theorems *)

From S2P Require Import Prelude Words CString CStringMem CStringStr.

Module CStringProps.
Import Words CString CStringMem CStringStr.

(** ** Rounding up the string lemmas *)

Lemma memcpy_ok erms d s n m : bytes_ok m → 0 ≤ n → fwd_ok d s n → moved d s n m (memcpy erms d s n m).
Proof.
  intros Hm Hn Hf. unfold memcpy. destruct (Z.eqb_spec n 0) as [->|]; [apply moved_0|]. destruct (erms && _); [|by apply copy_fwd_ok].
  pose proof (rep_movsb_ok (Z.to_nat n) d s m) as H. rewrite Z2Nat.id in H by done. by apply H.
Qed.

Lemma moved_self d n m : moved d d n m m.
Proof. intros w. destruct (decide _); [|done]. f_equal. lia. Qed.

Lemma memmove_ok d s n m : bytes_ok m → 0 ≤ n → moved d s n m (memmove d s n m).
Proof.
  intros Hm Hn. unfold memmove. destruct (Z.eqb_spec n 0) as [->|]; cbn [orb]; [apply moved_0|].
  destruct (Z.eqb_spec d s) as [->|]; [apply moved_self|].
  destruct (Z.ltb_spec d s); cbn [orb]; [apply copy_fwd_ok; [done|done|left; lia]|].
  destruct (Z.leb_spec (s + n) d); [apply copy_fwd_ok; [done|done|by right]|]. apply copy_back_ok; [done|done|lia].
Qed.

(** A copy that ends with a terminator. *)
Definition appended (d s k : Z) (m m' : mem) : Prop :=
  ∀ w, rd m' w = if decide (d ≤ w < d + k) then rd m (s + (w - d)) else if decide (w = d + k) then 0 else rd m w.

Lemma strncat_ok d s n m ld ls : cstr m d ld → cstr m s ls → 0 ≤ n → fwd_ok (d + Z.of_nat (length ld)) s (1 + Z.of_nat (length ls)) →
  appended (d + Z.of_nat (length ld)) s (Z.min n (Z.of_nat (length ls))) m (strncat d s n m).
Proof.
  intros Hd Hs Hn Hf. unfold strncat. rewrite (str_end_ok _ d m ld Hd) by (pose proof (cstr_size _ _ _ Hd); unfold str_fuel; lia). cbv zeta.
  set (e := d + Z.of_nat (length ld)) in *. destruct (strncat_loop_ok (Z.to_nat n) e s m ls Hs Hf) as (m' & -> & Hm).
  assert (Z.of_nat (Nat.min (Z.to_nat n) (length ls)) = Z.min n (Z.of_nat (length ls))) as -> by lia.
  set (k := Z.min n (Z.of_nat (length ls))) in *. intros w. rewrite rd_wr.
  destruct (decide (e + k = w)) as [<-|]; [by rewrite decide_False, decide_True by lia|].
  rewrite (decide_False (P := w = e + k)) by lia.
  destruct Hm as [Hm|[Hm Hlt]]; [replace (Z.of_nat (Nat.min (Z.to_nat n) (length ls))) with k in Hm by lia; apply Hm|].
  rewrite Hm. destruct (decide (e ≤ w < e + k)); [by rewrite decide_True by lia|]. by rewrite decide_False by lia.
Qed.

(** The shape of a memory after [strncpy] of a string shorter than [n]. *)
Lemma strncpy_short d s n m l : cstr m s l → Z.of_nat (length l) < n → fwd_ok d s (1 + Z.of_nat (length l)) →
  ∀ w, rd (strncpy d s n m) w =
    if decide (d ≤ w < d + Z.of_nat (length l)) then rd m (s + (w - d)) else if decide (d ≤ w < d + n + 1) then 0 else rd m w.
Proof.
  intros Hs Hn Hf w. unfold strncpy. destruct (strncpy_loop_short (S (Z.to_nat n)) d s n m l Hs Hn ltac:(lia) Hf) as (m' & -> & Hm).
  pose proof (rep_stosb_ok (Z.to_nat (n - Z.of_nat (length l))) (d + 1 + Z.of_nat (length l)) 0 m') as Hz. rewrite Hz, Hm. clear Hz Hm.
  destruct (decide (d ≤ w < d + Z.of_nat (length l))); [by rewrite decide_False, decide_True by lia|].
  destruct (decide (w = d + Z.of_nat (length l))) as [->|].
  - rewrite decide_False, decide_True, decide_True by lia. destruct (cstr_at m s l (Z.of_nat (length l)) Hs ltac:(lia)) as [_ [_ H0]].
    rewrite <- (H0 eq_refl). f_equal. lia.
  - destruct (decide (d ≤ w < d + n + 1)); [by rewrite decide_True by lia|]. by rewrite !decide_False by lia.
Qed.

Lemma strncpy_long d s n m l : cstr m s l → 0 ≤ n ≤ Z.of_nat (length l) → fwd_ok d s (1 + Z.of_nat (length l)) → moved d s n m (strncpy d s n m).
Proof.
  intros Hs Hn Hf. unfold strncpy. destruct (strncpy_loop_long (S (Z.to_nat n)) d s n m l Hs Hn ltac:(lia) Hf) as (m' & -> & Hm). exact Hm.
Qed.

Lemma strcat_ok d s m ld ls : cstr m d ld → cstr m s ls → fwd_ok (d + Z.of_nat (length ld)) s (1 + Z.of_nat (length ls)) →
  moved (d + Z.of_nat (length ld)) s (1 + Z.of_nat (length ls)) m (strcat d s m).
Proof.
  intros Hd Hs Hf. unfold strcat. rewrite (str_end_ok _ d m ld Hd) by (pose proof (cstr_size _ _ _ Hd); unfold str_fuel; lia). cbv zeta.
  apply strcpy_loop_ok; [done| |done]. pose proof (cstr_size _ _ _ Hs). unfold str_fuel. lia.
Qed.

(** ** First occurrences *)

Definition occurs (k l : list Z) (i : nat) : Prop := k `prefix_of` drop i l.

Lemma find_sub_spec l k : k ≠ [] → match find_sub l k with
  | Some i => occurs k l i ∧ ∀ j, (j < i)%nat → ¬ occurs k l j
  | None => ∀ j, ¬ occurs k l j
  end.
Proof.
  intros Hk. induction l as [|x l IH]; cbn [find_sub].
  { intros j. unfold occurs. rewrite drop_nil. intros H. by apply prefix_nil_inv in H. }
  destruct (bool_decide_reflect (k `prefix_of` x :: l)) as [H|H]; [split; [done|lia]|].
  destruct (find_sub l k) as [i|]; cbn [fmap option_fmap option_map].
  - destruct IH as [H1 H2]. split; [done|]. intros [|j] Hj; [done|]. apply H2. lia.
  - intros [|j]; [done|]. apply IH.
Qed.

Lemma strstr_ok h n m l k : cstr m h l → cstr m n k →
  (∃ i, strstr h n m = h + Z.of_nat i ∧ occurs k l i ∧ ∀ j, (j < i)%nat → ¬ occurs k l j) ∨
  (strstr h n m = 0 ∧ ∀ j, ¬ occurs k l j).
Proof.
  intros Hh Hn. unfold strstr. destruct k as [|y k].
  - cbn in Hn. rewrite Hn. left. exists O. split_and!; [cbn; lia|apply prefix_nil|lia].
  - rewrite (strstr_loop_ok _ h n m l (y :: k) Hh Hn) by (done || (pose proof (cstr_size _ _ _ Hh); unfold str_fuel; lia)).
    destruct Hn as (-> & Hy & _). rewrite (proj2 (Z.eqb_neq y 0) Hy). pose proof (find_sub_spec l (y :: k)) as Hs.
    destruct (find_sub l (y :: k)) as [i|]; [left; exists i; split; [done|auto]|right; split; [done|auto]].
Qed.

Lemma strchr_ok s c m l : cstr m s l → strchr s c m =
  match list_find (λ x, x = u8 c) l with
  | Some (i, _) => s + Z.of_nat i
  | None => if c =? 0 then s + Z.of_nat (length l) else 0
  end.
Proof. intros Hs. apply strchr_loop_ok; [done|]. pose proof (cstr_size _ _ _ Hs). unfold str_fuel. lia. Qed.

Lemma strrchr_ok s c m l : cstr m s l → strrchr s c m =
  if c =? 0 then s + Z.of_nat (length l) else match last_index (u8 c) l with Some i => s + Z.of_nat i | None => 0 end.
Proof. intros Hs. apply strrchr_loop_ok; [done|]. pose proof (cstr_size _ _ _ Hs). unfold str_fuel. lia. Qed.

Lemma cstr_pos m a l : bytes_ok m → cstr m a l → Forall (λ x, 0 < x) l.
Proof. intros Hm Hs. eapply Forall_impl; [by eapply cstr_bytes|]. cbn. lia. Qed.

(** ** Properties *)

(** C28: The word-at-a-time copies are byte copies.  [memcpy], with or without
    the string instructions, leaves in the destination the bytes the source
    had, when the ranges do not overlap or the destination lies below;
    [memmove] does so for any overlap, whichever direction it picks; [memset]
    stores the low byte of its argument; no byte outside the destination
    changes, at any alignment and length. *)
Theorem block_functions_correct erms d s n val m : bytes_ok m → 0 ≤ n →
  (fwd_ok d s n → moved d s n m (memcpy erms d s n m)) ∧
  moved d s n m (memmove d s n m) ∧
  filled d (u8 val) n m (memset erms d val n m).
Proof. intros Hm Hn. split_and!; [by apply memcpy_ok|by apply memmove_ok|by apply memset_ok]. Qed.

(** The functions that read strings compute what the list of characters
    says: lengths, the lexicographic order of [strcmp], equality of prefixes
    in [strncmp], equality of blocks in [memcmp], first and last occurrence of
    a character, and the first occurrence of a substring, or NULL exactly when
    there is none. *)
Theorem string_readers_correct m a b la lb n c : bytes_ok m → cstr m a la → cstr m b lb → 0 ≤ n →
  strlen a m = Z.of_nat (length la) ∧
  strnlen a n m = Z.min n (Z.of_nat (length la)) ∧
  (strcmp a b m = 0 ↔ la = lb) ∧
  (strcmp a b m < 0 ↔ lex la lb) ∧
  (strncmp a b n m = 0 ↔ take (Z.to_nat n) la = take (Z.to_nat n) lb) ∧
  (strncmp a b n m < 0 ↔ lex (take (Z.to_nat n) la) (take (Z.to_nat n) lb)) ∧
  (memcmp a b n m = 0 ↔ ∀ i, 0 ≤ i < n → rd m (a + i) = rd m (b + i)) ∧
  strchr a c m = match list_find (λ x, x = u8 c) la with
    | Some (i, _) => a + Z.of_nat i
    | None => if c =? 0 then a + Z.of_nat (length la) else 0
    end ∧
  strrchr a c m = (if c =? 0 then a + Z.of_nat (length la)
    else match last_index (u8 c) la with Some i => a + Z.of_nat i | None => 0 end) ∧
  ((∃ i, strstr a b m = a + Z.of_nat i ∧ occurs lb la i ∧ ∀ j, (j < i)%nat → ¬ occurs lb la j) ∨
   (strstr a b m = 0 ∧ ∀ j, ¬ occurs lb la j)).
Proof.
  intros Hm Ha Hb Hn. pose proof (cstr_pos _ _ _ Hm Ha) as Pa. pose proof (cstr_pos _ _ _ Hm Hb) as Pb.
  unfold strncmp. rewrite (strcmp_ok a b m la lb Ha Hb), (strncmp_ok _ a b m la lb Ha Hb). split_and!.
  - by apply strlen_ok.
  - unfold strnlen. rewrite (strnlen_loop_ok _ a 0 m la) by by rewrite Z.add_0_r. lia.
  - by apply diff_zero.
  - by apply diff_lex.
  - apply diff_zero; by apply Forall_take.
  - apply diff_lex; by apply Forall_take.
  - unfold memcmp. rewrite memcmp_loop_zero. by rewrite Z2Nat.id.
  - by apply strchr_ok.
  - by apply strrchr_ok.
  - by apply strstr_ok.
Qed.

(** C29: What the functions that write strings write, and nothing else.
    [strcpy] and [strcat] copy the source with its terminator to the
    destination, or to its end; [strncat] at most [n] characters and a
    terminator; [strncpy] exactly [n] characters when the source has them.
    When the source is shorter, the terminator that ends the copy is not
    counted and the padding runs one byte over: [strncpy] stores [n + 1]
    bytes. *)
Theorem string_writers_correct m d s n ld ls : cstr m d ld → cstr m s ls → 0 ≤ n →
  fwd_ok d s (1 + Z.of_nat (length ls)) → fwd_ok (d + Z.of_nat (length ld)) s (1 + Z.of_nat (length ls)) →
  moved d s (1 + Z.of_nat (length ls)) m (strcpy d s m) ∧
  moved (d + Z.of_nat (length ld)) s (1 + Z.of_nat (length ls)) m (strcat d s m) ∧
  appended (d + Z.of_nat (length ld)) s (Z.min n (Z.of_nat (length ls))) m (strncat d s n m) ∧
  (n ≤ Z.of_nat (length ls) → moved d s n m (strncpy d s n m)) ∧
  (Z.of_nat (length ls) < n → ∀ w, rd (strncpy d s n m) w =
    if decide (d ≤ w < d + Z.of_nat (length ls)) then rd m (s + (w - d))
    else if decide (d ≤ w < d + n + 1) then 0 else rd m w).
Proof.
  intros Hd Hs Hn Hf1 Hf2. split_and!.
  - apply strcpy_loop_ok; [done| |done]. pose proof (cstr_size _ _ _ Hs). unfold str_fuel. lia.
  - by apply strcat_ok.
  - by apply strncat_ok.
  - intros ?. by eapply strncpy_long.
  - intros ?. by apply strncpy_short.
Qed.

(** ** Witnesses *)

(** "abcab" at 100, "ab" at 200, a buffer of 0xFF at 300. *)
Definition sample : mem :=
  list_to_map ([(100, 97); (101, 98); (102, 99); (103, 97); (104, 98); (105, 0); (200, 97); (201, 98); (202, 0); (300, 99); (301, 0)] ++
    ((λ a, (a, 255)) <$> seqZ 302 8)).

Lemma bytes_ok_dec (m : mem) : bool_decide (map_Forall (λ _ v, 0 ≤ v < 256) m) = true → bytes_ok m.
Proof.
  intros H%bool_decide_eq_true a. unfold rd. destruct (m !! a) as [v|] eqn:E; cbn; [by apply (H a)|lia].
Qed.

Lemma block_functions_witness : memmove 101 100 4 sample !! 104 = Some 97 ∧ moved 101 100 4 sample (memmove 101 100 4 sample).
Proof.
  split; [by vm_compute|]. apply (block_functions_correct true 101 100 4 0 sample); [|lia]. apply bytes_ok_dec. by vm_compute.
Defined.

Lemma string_readers_witness : strlen 100 sample = 5 ∧ strrchr 100 98 sample = 104 ∧ strstr 102 200 sample = 103 ∧
  (strcmp 200 100 sample < 0 ↔ lex [97; 98] [97; 98; 99; 97; 98]).
Proof.
  split; [by vm_compute|]. split; [by vm_compute|]. split; [by vm_compute|].
  apply (string_readers_correct sample 200 100 [97; 98] [97; 98; 99; 97; 98] 3 98); [apply bytes_ok_dec; by vm_compute| |  |lia];
    cbn [cstr]; split_and!; by vm_compute.
Defined.

Lemma string_writers_witness : rd sample 304 = 255 ∧ rd (strncpy 300 200 4 sample) 304 = 0.
Proof.
  split; [by vm_compute|].
  assert (∀ w, rd (strncpy 300 200 4 sample) w =
    if decide (300 ≤ w < 302) then rd sample (200 + (w - 300)) else if decide (300 ≤ w < 305) then 0 else rd sample w) as ->; [|by vm_compute].
  apply (string_writers_correct sample 300 200 4 [99] [97; 98]); [cbn [cstr]; split_and!; by vm_compute|cbn [cstr]; split_and!; by vm_compute|lia|right; cbn; lia|right; cbn; lia|cbn; lia].
Defined.

End CStringProps.
