(* ===== verification/Format.v ===== *)
(** * vsnprintf (src/kernel/lib/string.c)

    The format string and the strings its arguments point to are read from the
    memory [ro]; the output buffer is not part of it (the C library leaves
    overlap undefined).  The variadic arguments are a list of 64-bit words,
    narrowed where the code fetches an [int]; fetching past the end gives 0.
    The loop over the format is written for any place to put characters
    ([Section Loop]); [vsnprintf] runs it on the buffer and its position. *)

From S2P Require Import Prelude Words CString.

Module Format.
Import Words CString.

Section Loop.
Context {W : Type} (putc : Z → W → W) (ro : mem).

Fixpoint puts (l : list Z) (w : W) : W :=
  match l with
  | [] => w
  | c :: l => puts l (putc c w)
  end.

(** [while (pad-- > 0) PUTC(c);] *)
Definition putpad (c pad : Z) (w : W) : W := puts (replicate (Z.to_nat pad) c) w.

(** [while (val) { tmp[ti++] = digit(val % base); val /= base; }]: the digits
    from the last one stored.  A 64-bit value has at most 64. *)
Fixpoint digits (fuel : nat) (base : Z) (digit : Z → Z) (val : Z) (tmp : list Z) : list Z :=
  match fuel with
  | O => tmp
  | S fuel => if val =? 0 then tmp else digits fuel base digit (val / base) (digit (val mod base) :: tmp)
  end.

Definition numeral (base : Z) (digit : Z → Z) (val : Z) : list Z :=
  if val =? 0 then [48] else digits 64 base digit val [].

Definition dec_digit (d : Z) : Z := 48 + d.
Definition hex_digit (upper : bool) (d : Z) : Z := if d <? 10 then 48 + d else if upper then 55 + d else 87 + d.

(** A number of [tmp] characters in a field of [width]. *)
Definition putnum (zero_pad left_align : bool) (width : Z) (tmp : list Z) (w : W) : W :=
  let pad := width - Z.of_nat (length tmp) in
  let w := if left_align then w else putpad (if zero_pad then 48 else 32) pad w in
  let w := puts tmp w in
  if left_align then putpad 32 pad w else w.

(** [while ( *fmt == '0' || *fmt == '-')] *)
Fixpoint flags (fuel : nat) (fmt : Z) (zero_pad left_align : bool) : Z * bool * bool :=
  match fuel with
  | O => (fmt, zero_pad, left_align)
  | S fuel =>
      let c := rd ro fmt in
      if c =? 48 then flags fuel (fmt + 1) true left_align
      else if c =? 45 then flags fuel (fmt + 1) zero_pad true
      else (fmt, zero_pad, left_align)
  end.

(** A run of decimal digits as an [int]; a number that does not fit wraps. *)
Fixpoint int_field (fuel : nat) (fmt n : Z) : Z * Z :=
  match fuel with
  | O => (fmt, n)
  | S fuel =>
      let c := rd ro fmt in
      if (48 <=? c) && (c <=? 57) then int_field fuel (fmt + 1) (i32 (n * 10 + (c - 48))) else (fmt, n)
  end.

Definition va_arg (args : list Z) : Z * list Z :=
  match args with [] => (0, []) | a :: args => (a, args) end.

(** [has_precision], [precision]; a [*] takes an argument. *)
Definition precision_field (fmt : Z) (args : list Z) : Z * bool * Z * list Z :=
  if rd ro fmt =? 46 then
    let fmt := fmt + 1 in
    if rd ro fmt =? 42 then
      let '(a, args) := va_arg args in
      (fmt + 1, true, i32 a, args)
    else
      let '(fmt, p) := int_field (str_fuel ro) fmt 0 in
      (fmt, true, p, args)
  else (fmt, false, 0, args).

Fixpoint longs (fuel : nat) (fmt long_flag : Z) : Z * Z :=
  match fuel with
  | O => (fmt, long_flag)
  | S fuel => if rd ro fmt =? 108 then longs fuel (fmt + 1) (long_flag + 1) else (fmt, long_flag)
  end.

Definition length_field (fmt : Z) : Z * Z :=
  let '(fmt, long_flag) := longs (str_fuel ro) fmt 0 in
  if rd ro fmt =? 122 then (fmt + 1, 1) else (fmt, long_flag).

Definition null_str : list Z := [40; 110; 117; 108; 108; 41].

(** The bytes [s[0] .. s[n-1]]; a NULL pointer is "(null)". *)
Definition str_bytes (s n : Z) : list Z :=
  if s =? 0 then take (Z.to_nat n) null_str else (λ j, rd ro (s + j)) <$> seqZ 0 n.

Definition put_string (s width : Z) (has_precision : bool) (precision : Z) (left_align : bool) (w : W) : W :=
  let slen := if s =? 0 then 6 else strlen_loop (str_fuel ro) s 0 ro in
  let slen := if has_precision && (precision <? slen) then precision else slen in
  let pad := width - slen in
  let w := if left_align then w else putpad 32 pad w in
  let w := puts (str_bytes s slen) w in
  if left_align then putpad 32 pad w else w.

(** The [switch] on the conversion character [c]. *)
Definition convert (c width precision long_flag : Z) (zero_pad left_align has_precision : bool)
    (args : list Z) (w : W) : W * list Z :=
  if (c =? 100) || (c =? 105) then
    let '(a, args) := va_arg args in
    let val := if 1 <=? long_flag then i64 a else i32 a in
    let '(w, uval, width) :=
      if val <? 0 then (putc 45 w, u64 (- u64 val), i32 (width - 1)) else (w, val, width) in
    (putnum zero_pad left_align width (numeral 10 dec_digit uval) w, args)
  else if c =? 117 then
    let '(a, args) := va_arg args in
    let val := if 1 <=? long_flag then u64 a else u32 a in
    (putnum zero_pad left_align width (numeral 10 dec_digit val) w, args)
  else if (c =? 120) || (c =? 88) then
    let '(a, args) := va_arg args in
    let val := if 1 <=? long_flag then u64 a else u32 a in
    (putnum zero_pad left_align width (numeral 16 (hex_digit (c =? 88)) val) w, args)
  else if c =? 112 then
    let '(a, args) := va_arg args in
    let w := putc 120 (putc 48 w) in
    (puts (numeral 16 (hex_digit false) (u64 a)) w, args)
  else if c =? 115 then
    let '(s, args) := va_arg args in
    (put_string (u64 s) width has_precision precision left_align w, args)
  else if c =? 99 then
    let '(a, args) := va_arg args in
    (putc (u8 a) w, args)
  else if c =? 37 then (putc 37 w, args)
  else (putc c (putc 37 w), args).

(** [while ( *fmt)]: every round starts at a byte that is not 0, and [fmt]
    only grows, so the size of the memory bounds the rounds. *)
Fixpoint fmt_loop (fuel : nat) (fmt : Z) (args : list Z) (w : W) : W :=
  match fuel with
  | O => w
  | S fuel =>
      let c := rd ro fmt in
      if c =? 0 then w
      else if negb (c =? 37) then fmt_loop fuel (fmt + 1) args (putc c w)
      else
        let '(fmt, zero_pad, left_align) := flags (str_fuel ro) (fmt + 1) false false in
        let '(fmt, width) := int_field (str_fuel ro) fmt 0 in
        let '(fmt, has_precision, precision, args) := precision_field fmt args in
        let '(fmt, long_flag) := length_field fmt in
        let '(w, args) := convert (rd ro fmt) width precision long_flag zero_pad left_align has_precision args w in
        fmt_loop fuel (fmt + 1) args w
  end.

End Loop.

(** ** The buffer *)

(** [buf] by offset, and [pos]. *)
Definition out : Type := mem * Z.

(** [PUTC]: characters past the limit are counted, not stored. *)
Definition PUTC (limit : Z) (ch : Z) (o : out) : out :=
  (if snd o <? limit then wr (fst o) (snd o) (u8 ch) else fst o, snd o + 1).

(** The buffer and the return value; [buf] is not NULL. *)
Definition vsnprintf (ro : mem) (size fmt : Z) (args : list Z) (buf : mem) : mem * Z :=
  if size =? 0 then (buf, 0)
  else
    let limit := size - 1 in
    let '(buf, pos) := fmt_loop (PUTC limit) ro (str_fuel ro) fmt args (buf, 0) in
    let buf := if pos <? size then wr buf pos 0 else wr buf (size - 1) 0 in
    (buf, i32 pos).

End Format.
