(* ===== verification/FormatProps.v ===== *)
(** * vsnprintf: theorems *)

From S2P Require Import Prelude Words CString CStringMem CStringStr Format.

Module FormatProps.
Import Words CString CStringMem CStringStr Format.

(** ** vsnprintf and its text *)

(** Collecting the characters in a list. *)
Definition snoc (c : Z) (l : list Z) : list Z := l ++ [c].

Definition text (ro : mem) (fmt : Z) (args : list Z) : list Z := fmt_loop snoc ro (str_fuel ro) fmt args [].

Section Sim.
Context {V W : Type} (pv : Z → V → V) (pw : Z → W → W) (ro : mem) (R : V → W → Prop).
Context (Hput : ∀ c v w, R v w → R (pv c v) (pw c w)).

Lemma puts_sim l v w : R v w → R (puts pv l v) (puts pw l w).
Proof. revert v w. induction l as [|c l IH]; intros v w H; cbn; [done|]. by apply IH, Hput. Qed.

Lemma putnum_sim z la wd tmp v w : R v w → R (putnum pv z la wd tmp v) (putnum pw z la wd tmp w).
Proof. intros H. unfold putnum, putpad. destruct la; cbv zeta; by repeat apply puts_sim. Qed.

Lemma put_string_sim s wd hp p la v w : R v w → R (put_string pv ro s wd hp p la v) (put_string pw ro s wd hp p la w).
Proof. intros H. unfold put_string, putpad. destruct la; cbv zeta; by repeat apply puts_sim. Qed.

Lemma convert_sim c wd p lf z la hp args v w : R v w →
  R (fst (convert pv ro c wd p lf z la hp args v)) (fst (convert pw ro c wd p lf z la hp args w)) ∧
  snd (convert pv ro c wd p lf z la hp args v) = snd (convert pw ro c wd p lf z la hp args w).
Proof.
  intros H. unfold convert. destruct (va_arg args) as [a rest]. destruct (_ || _).
  { destruct ((if 1 <=? lf then i64 a else i32 a) <? 0); (split; [|done]); apply putnum_sim; auto. }
  destruct (c =? 117); [split; [by apply putnum_sim|done]|]. destruct (_ || _); [split; [by apply putnum_sim|done]|].
  destruct (c =? 112); [split; [apply puts_sim; auto|done]|]. destruct (c =? 115); [split; [by apply put_string_sim|done]|].
  destruct (c =? 99); [split; cbn; auto|]. destruct (c =? 37); split; cbn; auto.
Qed.

(** The loop cannot tell two places apart that [R] relates. *)
Lemma fmt_loop_sim fuel fmt args v w : R v w → R (fmt_loop pv ro fuel fmt args v) (fmt_loop pw ro fuel fmt args w).
Proof.
  revert fmt args v w. induction fuel as [|fuel IH]; intros fmt args v w H; cbn [fmt_loop]; [done|]. cbv zeta.
  destruct (rd ro fmt =? 0); [done|]. destruct (negb _); [auto|].
  destruct (flags ro _ _ _ _) as [[fmt1 z] la]. destruct (int_field ro _ _ _) as [fmt2 wd].
  destruct (precision_field ro _ _) as [[[fmt3 hp] p] args3]. destruct (length_field ro _) as [fmt4 lf].
  pose proof (convert_sim (rd ro fmt4) wd p lf z la hp args3 v w H) as [H1 H2].
  destruct (convert pv _ _ _ _ _ _ _ _ _ v) as [v' av], (convert pw _ _ _ _ _ _ _ _ _ w) as [w' aw]. cbn in H1, H2. subst aw. by apply IH.
Qed.

End Sim.

(** The buffer holds the text as far as it fits. *)
Definition holds (limit : Z) (buf : mem) (o : out) (l : list Z) : Prop :=
  snd o = Z.of_nat (length l) ∧
  ∀ i, rd (fst o) i = if decide (0 ≤ i < Z.min (Z.of_nat (length l)) limit) then u8 (l !!! Z.to_nat i) else rd buf i.

Lemma holds_put limit buf c o l : 0 ≤ limit → holds limit buf o l → holds limit buf (PUTC limit c o) (snoc c l).
Proof.
  intros Hlim [Hp Hb]. unfold PUTC, snoc. split; cbn [fst snd]; [rewrite length_app, Hp; cbn; lia|]. intros i.
  assert (Hl : ∀ j, (j < length l)%nat → (l ++ [c]) !!! j = l !!! j) by (intros j Hj; by apply lookup_total_app_l).
  rewrite length_app. cbn [length]. destruct (Z.ltb_spec (snd o) limit) as [Hlt|Hge].
  - rewrite rd_wr, Hb, Hp. destruct (decide (Z.of_nat (length l) = i)) as [<-|Hne].
    + rewrite decide_True by lia. f_equal. rewrite Nat2Z.id. by rewrite lookup_total_app_r, Nat.sub_diag.
    + destruct (decide (0 ≤ i < Z.min (Z.of_nat (length l)) limit)).
      * rewrite decide_True by lia. rewrite Hl by lia. done.
      * by rewrite decide_False by lia.
  - rewrite Hb. destruct (decide (0 ≤ i < Z.min (Z.of_nat (length l)) limit)).
    + rewrite decide_True by lia. rewrite Hl by lia. done.
    + by rewrite decide_False by lia.
Qed.

(** Plain text is copied. *)
Lemma text_plain ro fmt args l : cstr ro fmt l → 37 ∉ l → text ro fmt args = l.
Proof.
  intros Hs Hn. unfold text. assert (∀ fuel fmt l acc, cstr ro fmt l → 37 ∉ l → (length l < fuel)%nat → fmt_loop snoc ro fuel fmt args acc = acc ++ l) as H.
  { clear. induction fuel as [|fuel IH]; intros fmt l acc Hs Hn Hf; [lia|]. cbn [fmt_loop]. destruct l as [|x l]; cbn [cstr length] in *.
    - rewrite Hs. cbn. by rewrite app_nil_r.
    - destruct Hs as (-> & Hx & Hs). apply not_elem_of_cons in Hn as [? Hn]. rewrite (proj2 (Z.eqb_neq x 0) Hx), (proj2 (Z.eqb_neq x 37)) by congruence.
      cbn [negb]. rewrite (IH (fmt + 1) l (snoc x acc)); [|done|done|lia]. unfold snoc. by rewrite <- app_assoc. }
  apply (H (str_fuel ro) fmt l []); [done|done|]. pose proof (cstr_size _ _ _ Hs). unfold str_fuel. lia.
Qed.

(** ** Numerals *)

(** Reading digits back. *)
Definition read_digits (base : Z) (value : Z → Z) (l : list Z) : Z := foldl (λ n c, n * base + value c) 0 l.

Definition dec_value (c : Z) : Z := c - 48.
Definition hex_value (c : Z) : Z := if c <? 58 then c - 48 else if c <? 71 then c - 55 else c - 87.

Lemma read_digits_app base value l k : read_digits base value (l ++ k) =
  read_digits base value l * base ^ Z.of_nat (length k) + read_digits base value k.
Proof.
  unfold read_digits. rewrite foldl_app. generalize (foldl (λ n c, n * base + value c) 0 l) as n. clear l.
  induction k as [|c k IH] using rev_ind; intros n; [cbn; lia|]. rewrite !foldl_app, length_app. cbn [foldl length]. rewrite IH.
  replace (Z.of_nat (length k + 1)) with (Z.of_nat (length k) + 1) by lia. rewrite Z.pow_add_r by lia. lia.
Qed.

Lemma digits_ok base digit value fuel v acc : 2 ≤ base → (∀ d, 0 ≤ d < base → value (digit d) = d) → 0 ≤ v < base ^ Z.of_nat fuel →
  ∃ l, digits fuel base digit v acc = l ++ acc ∧ read_digits base value l = v ∧
    (v ≠ 0 → ∃ c k, l = c :: k ∧ 0 < value c) ∧ (∀ n, v < base ^ Z.of_nat n → (length l ≤ n)%nat).
Proof.
  intros Hb Hv. revert v acc. induction fuel as [|fuel IH]; intros v acc Hr; cbn [digits].
  { exists []. cbn in Hr. split_and!; [done|cbn; lia|lia|]. intros; cbn; lia. }
  destruct (Z.eqb_spec v 0) as [->|Hnz]. { exists []. split_and!; [done|done|done|]. intros; cbn; lia. }
  pose proof (Z.div_mod v base ltac:(lia)) as Hdm. pose proof (Z.mod_pos_bound v base ltac:(lia)) as Hmb.
  assert (Hq : 0 ≤ v / base < base ^ Z.of_nat fuel).
  { split; [apply Z.div_pos; lia|]. apply Z.div_lt_upper_bound; [lia|]. replace (Z.of_nat (S fuel)) with (Z.of_nat fuel + 1) in Hr by lia.
    rewrite Z.pow_add_r in Hr by lia. lia. }
  destruct (IH (v / base) (digit (v mod base) :: acc) Hq) as (l & -> & Hl & Hc & Hn). exists (l ++ [digit (v mod base)]).
  split_and!.
  - by rewrite <- app_assoc.
  - rewrite read_digits_app, Hl. cbn. unfold read_digits. cbn. rewrite Hv by done. lia.
  - intros _. destruct (decide (v / base = 0)) as [E|Hne].
    + destruct l as [|c k]; [exists (digit (v mod base)), []; split; [done|rewrite Hv by done; lia]|].
      specialize (Hn 0%nat ltac:(rewrite E; cbn; lia)). cbn in Hn. lia.
    + destruct (Hc Hne) as (c & k & -> & ?). exists c, (k ++ [digit (v mod base)]). done.
  - intros n Hlt. rewrite length_app. cbn. destruct n as [|n]; [cbn in Hlt; lia|].
    assert (length l ≤ n)%nat; [|lia]. apply Hn. apply Z.div_lt_upper_bound; [lia|]. replace (Z.of_nat (S n)) with (Z.of_nat n + 1) in Hlt by lia.
    rewrite Z.pow_add_r in Hlt by lia. lia.
Qed.

Lemma numeral_ok base digit value v n : 2 ≤ base → (∀ d, 0 ≤ d < base → value (digit d) = d) → digit 0 = 48 → 0 ≤ v < 2 ^ 64 → v < base ^ Z.of_nat n → (0 < n)%nat →
  read_digits base value (numeral base digit v) = v ∧ (length (numeral base digit v) ≤ n)%nat ∧
  (v ≠ 0 → ∃ c k, numeral base digit v = c :: k ∧ 0 < value c).
Proof.
  intros Hb Hv H0 Hr Hn Hpos. unfold numeral. destruct (Z.eqb_spec v 0) as [->|Hnz].
  { split_and!; [|cbn; lia|done]. unfold read_digits. cbn. rewrite <- H0, Hv by lia. done. }
  destruct (digits_ok base digit value 64 v [] Hb Hv) as (l & -> & Hl & Hc & Hlen).
  { split; [lia|]. apply Z.lt_le_trans with (2 ^ 64); [lia|]. apply Z.pow_le_mono_l. lia. }
  rewrite app_nil_r. split_and!; [done|by apply Hlen|auto].
Qed.

(** ** The loops end *)

Section Fuel.
Context {W : Type} (putc : Z → W → W) (ro : mem).

(** The bytes of memory from [a] on: what bounds every loop over the format. *)
Definition ahead (a : Z) : nat := size (filter (λ p : Z * Z, a ≤ p.1) ro).

Lemma ahead_le a b : a ≤ b → (ahead b ≤ ahead a)%nat.
Proof.
  intros H. unfold ahead. apply map_subseteq_size. apply map_subseteq_spec. intros i x. rewrite !map_lookup_filter_Some. cbn. intros [? ?]. split; [done|lia].
Qed.

Lemma ahead_fuel a : (ahead a < str_fuel ro)%nat.
Proof. unfold ahead, str_fuel. pose proof (map_subseteq_size _ _ (map_filter_subseteq (λ p : Z * Z, a ≤ p.1) ro)). lia. Qed.

Lemma ahead_step a : rd ro a ≠ 0 → (ahead (a + 1) < ahead a)%nat.
Proof.
  intros Hr. unfold ahead. apply map_subset_size. split.
  - apply map_subseteq_spec. intros i x. rewrite !map_lookup_filter_Some. cbn. intros [? ?]. split; [done|lia].
  - intros H. unfold rd in Hr. destruct (ro !! a) as [v|] eqn:E; [|done].
    assert (filter (λ p : Z * Z, a ≤ p.1) ro !! a = Some v) as Ha by (apply map_lookup_filter_Some; split; [done|cbn; lia]).
    eapply lookup_weaken in Ha; [|exact H]. apply map_lookup_filter_Some in Ha as [_ Ha]. cbn in Ha. lia.
Qed.

Lemma flags_fuel fuel k a z l : (ahead a < fuel)%nat → flags ro (fuel + k) a z l = flags ro fuel a z l ∧ a ≤ (flags ro fuel a z l).1.1.
Proof.
  revert a z l. induction fuel as [|fuel IH]; intros a z l Hf; [lia|]. cbn [flags Nat.add]. cbv zeta. pose proof (ahead_step a) as Hs.
  destruct (Z.eqb_spec (rd ro a) 48) as [E|]; [|destruct (Z.eqb_spec (rd ro a) 45) as [E|]; [|cbn; split; [done|lia]]].
  all: specialize (Hs ltac:(lia)); edestruct (IH (a + 1)) as [-> ?]; [lia|split; [done|lia]].
Qed.

Lemma int_field_fuel fuel k a n : (ahead a < fuel)%nat → int_field ro (fuel + k) a n = int_field ro fuel a n ∧ a ≤ (int_field ro fuel a n).1.
Proof.
  revert a n. induction fuel as [|fuel IH]; intros a n Hf; [lia|]. cbn [int_field Nat.add]. cbv zeta. pose proof (ahead_step a) as Hs.
  destruct (Z.leb_spec 48 (rd ro a)); cbn [andb]; [|cbn; split; [done|lia]]. destruct (rd ro a <=? 57); [|cbn; split; [done|lia]].
  specialize (Hs ltac:(lia)). edestruct (IH (a + 1)) as [-> ?]; [lia|split; [done|lia]].
Qed.

Lemma longs_fuel fuel k a n : (ahead a < fuel)%nat → longs ro (fuel + k) a n = longs ro fuel a n ∧ a ≤ (longs ro fuel a n).1.
Proof.
  revert a n. induction fuel as [|fuel IH]; intros a n Hf; [lia|]. cbn [longs Nat.add]. pose proof (ahead_step a) as Hs.
  destruct (Z.eqb_spec (rd ro a) 108) as [E|]; [|cbn; split; [done|lia]].
  specialize (Hs ltac:(lia)). edestruct (IH (a + 1)) as [-> ?]; [lia|split; [done|lia]].
Qed.

Lemma flags_le a z l : a ≤ (flags ro (str_fuel ro) a z l).1.1.
Proof. apply (flags_fuel _ 0), ahead_fuel. Qed.

Lemma int_field_le a n : a ≤ (int_field ro (str_fuel ro) a n).1.
Proof. apply (int_field_fuel _ 0), ahead_fuel. Qed.

Lemma precision_field_le a args : a ≤ (precision_field ro a args).1.1.1.
Proof.
  unfold precision_field. destruct (_ =? 46); [|cbn; lia]. cbv zeta. destruct (_ =? 42).
  - destruct (va_arg args). cbn. lia.
  - pose proof (int_field_le (a + 1) 0). destruct (int_field ro _ _ _). cbn in *. lia.
Qed.

Lemma length_field_le a : a ≤ (length_field ro a).1.
Proof.
  unfold length_field. pose proof (proj2 (longs_fuel _ 0 a 0 (ahead_fuel a))). destruct (longs ro _ _ _) as [b n]. destruct (_ =? 122); cbn in *; lia.
Qed.

Lemma fmt_loop_fuel fuel k a args w : (ahead a < fuel)%nat → fmt_loop putc ro (fuel + k) a args w = fmt_loop putc ro fuel a args w.
Proof.
  revert a args w. induction fuel as [|fuel IH]; intros a args w Hf; [lia|]. cbn [fmt_loop Nat.add]. cbv zeta. pose proof (ahead_step a) as Hs.
  destruct (Z.eqb_spec (rd ro a) 0) as [|Hnz]; [done|]. specialize (Hs Hnz). destruct (negb _); [apply IH; lia|].
  pose proof (flags_le (a + 1) false false) as H1. destruct (flags ro _ _ _ _) as [[a1 z] la]. cbn in H1.
  pose proof (int_field_le a1 0) as H2. destruct (int_field ro _ _ _) as [a2 wd]. cbn in H2.
  pose proof (precision_field_le a2 args) as H3. destruct (precision_field ro _ _) as [[[a3 hp] p] args3]. cbn in H3.
  pose proof (length_field_le a3) as H4. destruct (length_field ro _) as [a4 lf]. cbn in H4.
  destruct (convert _ _ _ _ _ _ _ _ _ _ _) as [w' args']. apply IH. pose proof (ahead_le (a + 1) (a4 + 1)). lia.
Qed.

End Fuel.

(** ** One conversion *)

Lemma flags_stop ro fuel a z l : rd ro a ≠ 48 ∧ rd ro a ≠ 45 → flags ro (S fuel) a z l = (a, z, l).
Proof. intros [H1 H2]. cbn [flags]. cbv zeta. by rewrite (proj2 (Z.eqb_neq _ _) H1), (proj2 (Z.eqb_neq _ _) H2). Qed.

Lemma int_field_stop ro fuel a n : rd ro a < 48 ∨ 57 < rd ro a → int_field ro (S fuel) a n = (a, n).
Proof. intros H. cbn [int_field]. cbv zeta. destruct (Z.leb_spec 48 (rd ro a)), (Z.leb_spec (rd ro a) 57); cbn [andb]; done || lia. Qed.

(** A format that is one [%l] conversion. *)
Lemma text_long ro fmt args c : cstr ro fmt [37; 108; c] → c ≠ 108 → c ≠ 122 →
  text ro fmt args = fst (convert snoc ro c 0 0 1 false false false args []).
Proof.
  intros Hs Hc1 Hc2. pose proof (cstr_size _ _ _ Hs) as Hz. cbn in Hz. unfold text.
  assert (∃ k, str_fuel ro = S (S (S (S k)))) as [k Hk] by (exists (size ro - 3)%nat; unfold str_fuel; lia).
  destruct Hs as (R0 & _ & R1 & _ & R2 & _ & R3). cbn [cstr] in R3.
  rewrite Hk at 1. cbn [fmt_loop]. rewrite R0. change (37 =? 0) with false. change (negb (37 =? 37)) with false. cbv iota.
  rewrite Hk, flags_stop, int_field_stop by (rewrite R1; lia). unfold precision_field. rewrite R1. change (108 =? 46) with false. cbv iota.
  unfold length_field. rewrite Hk. cbn [longs]. rewrite R1, R2, (proj2 (Z.eqb_neq c 108) Hc1). change (108 =? 108) with true. cbv iota.
  rewrite R2, (proj2 (Z.eqb_neq c 122) Hc2). change (0 + 1) with 1. rewrite R2.
  destruct (convert snoc ro c 0 0 1 false false false args []) as [w args']. by rewrite R3.
Qed.

Lemma puts_snoc l acc : puts snoc l acc = acc ++ l.
Proof. revert acc. induction l as [|x l IH]; intros acc; cbn; [by rewrite app_nil_r|]. rewrite IH. unfold snoc. by rewrite <- app_assoc. Qed.

Lemma putnum_plain wd l acc : wd ≤ 0 → putnum snoc false false wd l acc = acc ++ l.
Proof. intros H. unfold putnum, putpad. cbv zeta. rewrite !puts_snoc. replace (Z.to_nat (wd - Z.of_nat (length l))) with O by lia. cbn. by rewrite app_nil_r. Qed.

(** A sign and decimal digits. *)
Definition read_signed (l : list Z) : Z :=
  match l with
  | 45 :: l => - read_digits 10 dec_value l
  | _ => read_digits 10 dec_value l
  end.

Lemma dec_numeral v : 0 ≤ v < 2 ^ 64 → read_digits 10 dec_value (numeral 10 dec_digit v) = v ∧
  (length (numeral 10 dec_digit v) ≤ 20)%nat ∧ (v ≠ 0 → ∃ c k, numeral 10 dec_digit v = c :: k ∧ 0 < dec_value c).
Proof. intros H. apply numeral_ok; unfold dec_value, dec_digit; try done; lia. Qed.

Lemma hex_numeral up v : 0 ≤ v < 2 ^ 64 → read_digits 16 hex_value (numeral 16 (hex_digit up) v) = v ∧
  (length (numeral 16 (hex_digit up) v) ≤ 16)%nat ∧ (v ≠ 0 → ∃ c k, numeral 16 (hex_digit up) v = c :: k ∧ 0 < hex_value c).
Proof.
  intros H. apply numeral_ok; [lia| |done|done|cbn; lia|lia]. intros d Hd. unfold hex_value, hex_digit.
  destruct (Z.ltb_spec d 10); [destruct (Z.ltb_spec (48 + d) 58); lia|]. destruct up.
  - destruct (Z.ltb_spec (55 + d) 58); [lia|]. destruct (Z.ltb_spec (55 + d) 71); lia.
  - destruct (Z.ltb_spec (87 + d) 58); [lia|]. destruct (Z.ltb_spec (87 + d) 71); lia.
Qed.

Lemma read_unsigned v : 0 ≤ v < 2 ^ 64 → read_signed (numeral 10 dec_digit v) = v.
Proof.
  intros Hv. destruct (dec_numeral v Hv) as (H1 & _ & H2). destruct (decide (v = 0)) as [->|Hnz]; [done|].
  destruct (H2 Hnz) as (c & k & E & Hc). rewrite E in *. unfold dec_value in Hc. unfold read_signed. assert (c ≠ 45) by lia.
  destruct c as [|p|p]; [done| |done]. repeat (destruct p as [p|p|]; try exact H1). lia.
Qed.

Lemma i64_range a : - 2 ^ 63 ≤ i64 a < 2 ^ 63.
Proof. unfold i64. pose proof (Z.mod_pos_bound (a + 2 ^ 63) (2 ^ 64)). lia. Qed.

Lemma u64_neg v : - 2 ^ 63 ≤ v < 0 → u64 (- u64 v) = - v.
Proof.
  intros H. unfold u64. replace (v mod 2 ^ 64) with (v + 2 ^ 64); [|apply Z.mod_unique with (-1); lia].
  symmetry. apply Z.mod_unique with (-1); lia.
Qed.

Lemma text_ld ro fmt a : cstr ro fmt [37; 108; 100] →
  text ro fmt [a] = if i64 a <? 0 then 45 :: numeral 10 dec_digit (- i64 a) else numeral 10 dec_digit (i64 a).
Proof.
  intros Hs. rewrite (text_long ro fmt [a] 100 Hs) by done. unfold convert. cbn [va_arg Z.eqb Pos.eqb orb Z.leb Z.compare Pos.compare Pos.compare_cont fst].
  pose proof (i64_range a). destruct (Z.ltb_spec (i64 a) 0); cbn [fst]; rewrite putnum_plain by (vm_compute; discriminate); [|done]. by rewrite u64_neg by lia.
Qed.

Lemma text_lu ro fmt a : cstr ro fmt [37; 108; 117] → text ro fmt [a] = numeral 10 dec_digit (u64 a).
Proof. intros Hs. rewrite (text_long ro fmt [a] 117 Hs) by done. unfold convert. cbn [va_arg Z.eqb Pos.eqb orb Z.leb Z.compare Pos.compare Pos.compare_cont fst]. by rewrite putnum_plain. Qed.

Lemma text_lx ro fmt a : cstr ro fmt [37; 108; 120] → text ro fmt [a] = numeral 16 (hex_digit false) (u64 a).
Proof. intros Hs. rewrite (text_long ro fmt [a] 120 Hs) by done. unfold convert. cbn [va_arg Z.eqb Pos.eqb orb Z.leb Z.compare Pos.compare Pos.compare_cont fst]. by rewrite putnum_plain. Qed.

(** ** Properties *)

(** C30: [vsnprintf] stores a prefix of the text and nothing else.  The text is
    what the format loop writes when it appends to a list.  The buffer gets its
    first [size - 1] characters at most, a terminator after them, and no other
    byte of memory changes; the result is the length of the whole text, as an
    [int].  A format without [%] is its own text. *)
Theorem vsnprintf_correct ro size fmt args buf : 0 < size →
  (let len := Z.of_nat (length (text ro fmt args)) in
   let '(buf', r) := vsnprintf ro size fmt args buf in
   r = i32 len ∧
   ∀ i, rd buf' i =
     if decide (0 ≤ i < Z.min len (size - 1)) then u8 (text ro fmt args !!! Z.to_nat i)
     else if decide (i = Z.min len (size - 1)) then 0 else rd buf i) ∧
  ∀ l, cstr ro fmt l → 37 ∉ l → text ro fmt args = l.
Proof.
  intros Hsz. split; [|intros l; apply text_plain]. cbv zeta. unfold vsnprintf. rewrite (proj2 (Z.eqb_neq size 0)) by lia. cbv zeta.
  pose proof (fmt_loop_sim (PUTC (size - 1)) snoc ro (holds (size - 1) buf) (λ c v w, holds_put (size - 1) buf c v w ltac:(lia))
    (str_fuel ro) fmt args (buf, 0) []) as H. fold (text ro fmt args) in H. destruct (fmt_loop (PUTC (size - 1)) ro _ _ _ _) as [buf' pos].
  destruct H as [Hp Hb]. { split; [done|]. intros i. cbn [fst length]. by rewrite decide_False by lia. }
  cbn [fst snd] in Hp, Hb. set (l := text ro fmt args) in *. clearbody l. subst pos. split; [done|]. intros i.
  assert ((if Z.of_nat (length l) <? size then wr buf' (Z.of_nat (length l)) 0 else wr buf' (size - 1) 0) =
    wr buf' (Z.min (Z.of_nat (length l)) (size - 1)) 0) as ->.
  { destruct (Z.ltb_spec (Z.of_nat (length l)) size); do 2 f_equal; lia. }
  rewrite rd_wr, Hb. destruct (decide (Z.min _ _ = i)) as [<-|]; [by rewrite decide_False, decide_True by lia|].
  destruct (decide (0 ≤ i < _)); [done|]. by rewrite decide_False by lia.
Qed.

(** C31: Formatting ends.  Whatever the format, the loop over it and the loops
    over flags, widths and length modifiers give with the fuel they run on what
    they give with any more: none is cut short, since each round moves past a
    byte of memory that is not 0. *)
Theorem vsnprintf_terminates {W : Type} (putc : Z → W → W) ro k fmt args w zero_pad left_align n :
  fmt_loop putc ro (str_fuel ro + k) fmt args w = fmt_loop putc ro (str_fuel ro) fmt args w ∧
  flags ro (str_fuel ro + k) fmt zero_pad left_align = flags ro (str_fuel ro) fmt zero_pad left_align ∧
  int_field ro (str_fuel ro + k) fmt n = int_field ro (str_fuel ro) fmt n ∧
  longs ro (str_fuel ro + k) fmt n = longs ro (str_fuel ro) fmt n.
Proof.
  pose proof (ahead_fuel ro fmt) as H. split_and!; [by apply fmt_loop_fuel|by apply flags_fuel|by apply int_field_fuel|by apply longs_fuel].
Qed.

(** C32: Numbers survive printing: the text of [%ld], [%lu] and [%lx] reads
    back as the argument, for every 64-bit value, the most negative one
    included; and the digits fit in the arrays the code collects them in (20 of
    24, 16 of 20). *)
Theorem numbers_roundtrip ro fmt a :
  (cstr ro fmt [37; 108; 100] → read_signed (text ro fmt [a]) = i64 a) ∧
  (cstr ro fmt [37; 108; 117] → read_signed (text ro fmt [a]) = u64 a) ∧
  (cstr ro fmt [37; 108; 120] → read_digits 16 hex_value (text ro fmt [a]) = u64 a) ∧
  ∀ v up, 0 ≤ v < 2 ^ 64 → (length (numeral 10 dec_digit v) ≤ 20)%nat ∧ (length (numeral 16 (hex_digit up) v) ≤ 16)%nat.
Proof.
  assert (0 ≤ u64 a < 2 ^ 64) as Hu by (apply Z.mod_pos_bound; lia). split_and!.
  - intros Hs. rewrite (text_ld ro fmt a Hs). pose proof (i64_range a). destruct (Z.ltb_spec (i64 a) 0); [|apply read_unsigned; lia].
    cbn [read_signed]. destruct (dec_numeral (- i64 a)) as [-> _]; lia.
  - intros Hs. rewrite (text_lu ro fmt a Hs). by apply read_unsigned.
  - intros Hs. rewrite (text_lx ro fmt a Hs). by apply hex_numeral.
  - intros v up Hv. split; [by apply dec_numeral|by apply hex_numeral].
Qed.

(** ** Witnesses *)

(** The characters of [l] at [a], with a terminator. *)
Definition bytes_at (a : Z) (l : list Z) : mem := list_to_map (imap (λ i c, (a + Z.of_nat i, c)) (l ++ [0])).

(** "x=%d" with -7 into four bytes. *)
Lemma vsnprintf_witness : (λ '(b, r), (rd b <$> seqZ 0 5, r)) (vsnprintf (bytes_at 10 [120; 61; 37; 100]) 4 10 [u64 (-7)] ∅) = ([120; 61; 45; 0; 0], 4) ∧
  text (bytes_at 10 [120; 61]) 10 [] = [120; 61].
Proof.
  split; [by vm_compute|]. apply (vsnprintf_correct (bytes_at 10 [120; 61]) 4 10 [] ∅); [lia|cbn [cstr]; split_and!; by vm_compute|].
  rewrite !not_elem_of_cons. split_and!; [lia|lia|apply not_elem_of_nil].
Defined.

Lemma numbers_witness : read_signed (text (bytes_at 10 [37; 108; 100]) 10 [2 ^ 63]) = - 2 ^ 63.
Proof. apply (numbers_roundtrip (bytes_at 10 [37; 108; 100]) 10 (2 ^ 63)). cbn [cstr]. split_and!; by vm_compute. Defined.

(** A format that ends in [%] is read past its terminator. *)
Example format_overread : text (<[12 := 65]> (<[13 := 66]> (bytes_at 10 [37]))) 10 [] = [37; 0; 65; 66].
Proof. by vm_compute. Qed.

(** The sign of a padded number comes before the spaces. *)
Example padded_negative : text (bytes_at 10 [37; 53; 100]) 10 [u64 (-3)] = [45; 32; 32; 32; 51].
Proof. by vm_compute. Qed.

End FormatProps.
