(* ===== verification/KmallocBytes.v ===== *)
(** * The word-level copies of the heap against the byte-level ones

    heap.c calls [memcpy] and [memset] on 16-byte-aligned blocks, and the model
    of the heap has a memory of words.  The byte memory [mb] shows the words of
    [mw] in little-endian order ([views]); on aligned pointers the two readings
    of the copies agree on it. *)

From S2P Require Import Prelude Words Heap Kmalloc CString CStringMem CStringProps.

Module KmallocBytes.
Import Words CString CStringMem CStringProps.

Definition views (mw mb : mem) : Prop := ∀ a, rd mb a = byte_of (rd mw (8 * (a / 8))) (a mod 8).

Lemma views_bytes_ok mw mb : views mw mb → bytes_ok mb.
Proof. intros H a. rewrite H. apply byte_of_range. Qed.

(** Byte [i] of the word at an aligned address. *)
Lemma views_at mw mb a i : views mw mb → a mod 8 = 0 → 0 ≤ i < 8 → rd mb (a + i) = byte_of (rd mw a) i.
Proof.
  intros H Ha Hi. rewrite H. pose proof (Z.div_mod a 8 ltac:(lia)) as E. assert ((a + i) / 8 = a / 8) as ->.
  { symmetry. apply Z.div_unique with i; lia. }
  assert ((a + i) mod 8 = i) as -> by (symmetry; apply Z.mod_unique with (a / 8); lia). by replace (8 * (a / 8)) with a by lia.
Qed.

(** Two memories that differ in one word. *)
Lemma views_wr mw mb mb' d v : views mw mb → d mod 8 = 0 →
  (∀ w, rd mb' w = if decide (d ≤ w < d + 8) then byte_of v (w - d) else rd mb w) → views (wr mw d v) mb'.
Proof.
  intros H Hd He a. rewrite He, rd_wr. pose proof (Z.div_mod a 8 ltac:(lia)). pose proof (Z.mod_pos_bound a 8 ltac:(lia)). pose proof (Z.div_mod d 8 ltac:(lia)).
  destruct (decide (d ≤ a < d + 8)).
  - rewrite decide_True by lia. f_equal. lia.
  - rewrite decide_False by lia. apply H.
Qed.

Lemma views_copy mw mb d s : views mw mb → d mod 8 = 0 → s mod 8 = 0 → views (wr mw d (rd mw s)) (st64 mb d (ld64 mb s)).
Proof.
  intros H Hd Hs. eapply views_wr; [done|done|]. intros w. rewrite rd_st64. destruct (decide _); [|done].
  rewrite byte_ld64 by (eauto using views_bytes_ok || lia). apply views_at; [done|done|lia].
Qed.

Lemma next_aligned a k : a mod 8 = 0 → (a + 8 * k) mod 8 = 0.
Proof. intros H. rewrite Z.mul_comm, Z.mod_add by lia. done. Qed.

Lemma views_copy_words n d s mw mb : views mw mb → d mod 8 = 0 → s mod 8 = 0 → views (Kmalloc.copy_words n d s mw) (copy_words8 n d s mb).
Proof.
  revert d s mw mb. induction n as [|n IH]; intros d s mw mb H Hd Hs; cbn [Kmalloc.copy_words copy_words8]; [done|].
  apply IH; [by apply views_copy|by apply (next_aligned d 1)|by apply (next_aligned s 1)].
Qed.

Lemma views_zero_words n d mw mb : views mw mb → d mod 8 = 0 → views (Kmalloc.zero_words n d mw) (set_words n d 0 mb).
Proof.
  revert d mw mb. induction n as [|n IH]; intros d mw mb H Hd; cbn [Kmalloc.zero_words set_words]; [done|].
  apply IH; [|by apply (next_aligned d 1)]. eapply views_wr; [done|done|]. intros w. by rewrite rd_st64.
Qed.

(** ** The last word *)

Lemma byte_of_low v c k i : 0 ≤ i < k → byte_of (v + c * 2 ^ (8 * k)) i = byte_of v i.
Proof.
  intros Hi. unfold byte_of, u8. replace (c * 2 ^ (8 * k)) with (c * 2 ^ (8 * (k - i - 1)) * 2 ^ 8 * 2 ^ (8 * i)).
  - rewrite Z.div_add by lia. by rewrite Z.mod_add by lia.
  - rewrite <- !Z.mul_assoc, <- !Z.pow_add_r by lia. do 2 f_equal. lia.
Qed.

Lemma byte_of_high v k i : 0 ≤ k ≤ i → byte_of v i = byte_of (v / 2 ^ (8 * k)) (i - k).
Proof.
  intros Hi. unfold byte_of. rewrite Z.div_div by lia. rewrite <- Z.pow_add_r by lia. do 3 f_equal. lia.
Qed.

Lemma byte_merge_low k x y i : 0 ≤ k → 0 ≤ i → byte_of (Kmalloc.merge_low k x y) i = if decide (i < k) then byte_of x i else byte_of y i.
Proof.
  intros Hk Hi. unfold Kmalloc.merge_low. destruct (decide (i < k)).
  - rewrite byte_of_low by lia. rewrite <- (byte_of_low _ (x / 2 ^ (8 * k)) k i) by lia. f_equal. pose proof (Z.div_mod x (2 ^ (8 * k)) ltac:(lia)). lia.
  - rewrite (byte_of_high _ k) by lia. rewrite (byte_of_high y k) by lia. f_equal. rewrite Z.div_add by lia.
    rewrite (Z.div_small (x mod _)) by (apply Z.mod_pos_bound; lia). lia.
Qed.

Lemma views_tail mw mb mb' d r x : views mw mb → d mod 8 = 0 → 0 ≤ r < 8 →
  (∀ w, rd mb' w = if decide (d ≤ w < d + r) then byte_of x (w - d) else rd mb w) →
  views (wr mw d (Kmalloc.merge_low r x (rd mw d))) mb'.
Proof.
  intros H Hd Hr He. eapply views_wr; [done|done|]. intros w. rewrite He. destruct (decide (d ≤ w < d + 8)).
  - rewrite byte_merge_low by lia. destruct (decide (w - d < r)); [by rewrite decide_True by lia|]. rewrite decide_False by lia.
    rewrite <- (views_at mw mb d (w - d)) by (done || lia). f_equal. lia.
  - by rewrite decide_False by lia.
Qed.

Lemma views_ext mw mb mb' : views mw mb → (∀ w, rd mb' w = rd mb w) → views mw mb'.
Proof. intros H He a. rewrite He. apply H. Qed.

Lemma split8 n : 0 ≤ n → n = 8 * Z.of_nat (Z.to_nat (n / 8)) + n mod 8 ∧ 0 ≤ n mod 8 < 8 ∧ Z.of_nat (Z.to_nat (n / 8)) = n / 8.
Proof. intros Hn. pose proof (Z.div_mod n 8 ltac:(lia)). pose proof (Z.mod_pos_bound n 8 ltac:(lia)). lia. Qed.

(** Words and a part of one, as bytes. *)
Lemma memcpy_views d s n mw mb : views mw mb → d mod 8 = 0 → s mod 8 = 0 → 0 ≤ n → fwd_ok d s n →
  ∃ mb', views (Kmalloc.memcpy d s n mw) mb' ∧ moved d s n mb mb'.
Proof.
  intros H Hd Hs Hn Hf. destruct (split8 n Hn) as (En & Hr & Eq). unfold Kmalloc.memcpy. cbv zeta.
  pose proof (views_copy_words (Z.to_nat (n / 8)) d s mw mb H Hd Hs) as H1. pose proof (copy_words8_ok (Z.to_nat (n / 8)) d s mb (views_bytes_ok _ _ H)) as M1.
  rewrite Eq in M1, En. specialize (M1 ltac:(unfold fwd_ok in *; lia)).
  set (mw1 := Kmalloc.copy_words _ d s mw) in *. set (mb1 := copy_words8 _ d s mb) in *. clearbody mw1 mb1.
  destruct (Z.eqb_spec (n mod 8) 0) as [E|E]; [exists mb1; split; [done|]; by replace n with (8 * (n / 8)) by lia|].
  set (q := 8 * (n / 8)) in *. set (r := n mod 8) in *. pose proof (rep_movsb_ok (Z.to_nat r) (d + q) (s + q) mb1) as M2.
  rewrite Z2Nat.id in M2 by lia. specialize (M2 ltac:(unfold fwd_ok in *; lia)). exists (rep_movsb (Z.to_nat r) (d + q) (s + q) mb1). split.
  - eapply views_tail; [exact H1|by apply next_aligned|done|]. intros w. rewrite M2. destruct (decide _); [|done].
    apply views_at; [done|by apply next_aligned|lia].
  - rewrite En at 1. eapply moved_fwd; [lia|lia|by rewrite <- En|exact M1|exact M2].
Qed.

Lemma memset0_views d n mw mb : views mw mb → d mod 8 = 0 → 0 ≤ n → ∃ mb', views (Kmalloc.memset0 d n mw) mb' ∧ filled d 0 n mb mb'.
Proof.
  intros H Hd Hn. destruct (split8 n Hn) as (En & Hr & Eq). unfold Kmalloc.memset0. cbv zeta.
  pose proof (views_zero_words (Z.to_nat (n / 8)) d mw mb H Hd) as H1. pose proof (set_words_ok (Z.to_nat (n / 8)) d 0 mb ltac:(lia)) as M1.
  change (pattern 0) with 0 in M1. rewrite Eq in M1, En.
  set (mw1 := Kmalloc.zero_words _ d mw) in *. set (mb1 := set_words _ d 0 mb) in *. clearbody mw1 mb1.
  destruct (Z.eqb_spec (n mod 8) 0) as [E|E]; [exists mb1; split; [done|]; by replace n with (8 * (n / 8)) by lia|].
  set (q := 8 * (n / 8)) in *. set (r := n mod 8) in *. pose proof (rep_stosb_ok (Z.to_nat r) (d + q) 0 mb1) as M2.
  rewrite Z2Nat.id in M2 by lia. exists (rep_stosb (Z.to_nat r) (d + q) 0 mb1). split.
  - eapply views_tail; [exact H1|by apply next_aligned|done|]. intros w. rewrite M2. destruct (decide _); [|done].
    unfold byte_of. by rewrite Z.div_0_l by lia.
  - rewrite En at 1. eapply filled_app; [lia|lia|exact M1|exact M2].
Qed.

(** ** Property *)

(** The heap and its C library agree.  When a byte memory shows the words
    of the heap's memory, [memcpy] and [memset] to zero as string.c runs them on
    the bytes, with or without string instructions, end in a byte memory that
    shows what the heap's word-level copies end in, for aligned pointers and any
    length. *)
Theorem heap_copies_agree erms d s n mw mb : views mw mb → d mod 8 = 0 → s mod 8 = 0 → 0 ≤ n →
  (fwd_ok d s n → views (Kmalloc.memcpy d s n mw) (memcpy erms d s n mb)) ∧
  views (Kmalloc.memset0 d n mw) (memset erms d 0 n mb).
Proof.
  intros H Hd Hs Hn. split.
  - intros Hf. destruct (memcpy_views d s n mw mb H Hd Hs Hn Hf) as (mb' & Hv & Hm). eapply views_ext; [exact Hv|].
    intros w. rewrite Hm. by rewrite (memcpy_ok erms d s n mb (views_bytes_ok _ _ H) Hn Hf).
  - destruct (memset0_views d n mw mb H Hd Hn) as (mb' & Hv & Hm). eapply views_ext; [exact Hv|].
    intros w. rewrite Hm. by rewrite (memset_ok erms d 0 n mb Hn).
Qed.

(** Eleven bytes from one block to another, one word and three bytes. *)
Lemma heap_copies_agree_witness : views (Kmalloc.memcpy 64 32 11 {[32 := 0x0807060504030201]}) (memcpy false 64 32 11 (st64 ∅ 32 0x0807060504030201)).
Proof.
  refine (proj1 (heap_copies_agree false 64 32 11 {[32 := 0x0807060504030201]} (st64 ∅ 32 0x0807060504030201) _ _ _ _) _); [|done|done|lia|right; lia].
  apply (views_wr ∅ ∅); [|done|intros w; apply rd_st64]. intros a. unfold rd. rewrite !lookup_empty. cbn. unfold byte_of. by rewrite Z.div_0_l by (apply Z.pow_nonzero; [lia|apply Z.mul_nonneg_nonneg; [lia|apply Z.mod_pos_bound; lia]]).
Defined.

End KmallocBytes.
