(* ===== verification/Bpf.v ===== *)
(** * Seccomp filter programs (src/kernel/security/seccomp/filter.c)

    Validation and interpretation of classic BPF over the 64 bytes of
    [seccomp_data].  A program is the list of its instructions.  A load outside
    the 64 bytes would read kernel memory that is not part of the data; the
    interpreter then has no result ([None]). *)

From S2P Require Import Prelude Bytes.

Module Bpf.

(** ** Constants of seccomp.h *)

Definition SECCOMP_RET_KILL : Z := 0x00000000.
Definition SECCOMP_RET_TRAP : Z := 0x00030000.
Definition SECCOMP_RET_ERRNO : Z := 0x00050000.
Definition SECCOMP_RET_TRACE : Z := 0x7ff00000.
Definition SECCOMP_RET_LOG : Z := 0x7ffc0000.
Definition SECCOMP_RET_ALLOW : Z := 0x7fff0000.
Definition SECCOMP_RET_ACTION_MASK : Z := 0xffff0000.
Definition SECCOMP_RET_DATA_MASK : Z := 0x0000ffff.

Definition BPF_CLASS_MASK : Z := 0x07.
Definition BPF_LD : Z := 0x00.
Definition BPF_JMP : Z := 0x05.
Definition BPF_RET : Z := 0x06.
Definition BPF_SIZE_MASK : Z := 0x18.
Definition BPF_W : Z := 0x00.
Definition BPF_H : Z := 0x08.
Definition BPF_B : Z := 0x10.
Definition BPF_MODE_MASK : Z := 0xe0.
Definition BPF_ABS : Z := 0x20.
Definition BPF_IMM : Z := 0x00.
Definition BPF_OP_MASK : Z := 0xf0.
Definition BPF_JEQ : Z := 0x10.
Definition BPF_JGT : Z := 0x20.
Definition BPF_JGE : Z := 0x30.
Definition BPF_JSET : Z := 0x40.
Definition BPF_SRC_MASK : Z := 0x08.
Definition BPF_K : Z := 0x00.

Definition MAX_BPF_INSNS : Z := 4096.
Definition MAX_BPF_JUMP : Z := 256.

(** ** Instructions and data *)

Record bpf_insn := Insn { code : Z; jt : Z; jf : Z; k : Z }.

#[global] Instance bpf_insn_eq : EqDecision bpf_insn.
Proof. solve_decision. Defined.

Definition BPF_STMT (c k : Z) : bpf_insn := Insn c 0 0 k.
Definition BPF_JUMP (c k jt jf : Z) : bpf_insn := Insn c jt jf k.

Definition cls (i : bpf_insn) : Z := Z.land (code i) BPF_CLASS_MASK.
Definition mode (i : bpf_insn) : Z := Z.land (code i) BPF_MODE_MASK.
Definition size_of (i : bpf_insn) : Z := Z.land (code i) BPF_SIZE_MASK.
Definition op (i : bpf_insn) : Z := Z.land (code i) BPF_OP_MASK.
Definition src (i : bpf_insn) : Z := Z.land (code i) BPF_SRC_MASK.

Record seccomp_data := Data { nr : Z; arch : Z; instruction_pointer : Z; args : list Z }.

Definition sizeof_seccomp_data : Z := 64.
Definition AUDIT_ARCH_X86_64 : Z := 0xc000003e.
Definition offsetof_nr : Z := 0.
Definition offsetof_arch : Z := 4.

(** The structure in memory; [args] has six elements. *)
Definition data_bytes (d : seccomp_data) : list Z :=
  le_bytes 4 (nr d) ++ le_bytes 4 (arch d) ++ le_bytes 8 (instruction_pointer d) ++ concat (le_bytes 8 <$> args d).

(** ** Validation *)

Definition access_size (size : Z) : Z := if size =? BPF_W then 4 else if size =? BPF_H then 2 else 1.

(** One round of the loop; [i] is the index of the instruction. *)
Definition insn_ok (len i : Z) (insn : bpf_insn) : bool :=
  if cls insn =? BPF_LD then
    if mode insn =? BPF_ABS then negb (sizeof_seccomp_data <? u32 (k insn + access_size (size_of insn)))
    else mode insn =? BPF_IMM
  else if cls insn =? BPF_JMP then
    if op insn =? 0 then false
    else
      let jt_target := u32 (i + jt insn + 1) in
      let jf_target := u32 (i + jf insn + 1) in
      if (len <=? jt_target) || (len <=? jf_target) then false
      else negb ((MAX_BPF_JUMP <? jt insn) || (MAX_BPF_JUMP <? jf insn))
  else cls insn =? BPF_RET.

Fixpoint insns_ok (len i : Z) (l : list bpf_insn) : bool :=
  match l with
  | [] => true
  | insn :: l => insn_ok len i insn && insns_ok len (i + 1) l
  end.

(** Return value 0 of [bpf_prog_validate]. *)
Definition bpf_prog_validate (insns : list bpf_insn) : bool :=
  let len := Z.of_nat (length insns) in
  if len =? 0 then false
  else if insns_ok len 0 insns then
    match last insns with Some insn => cls insn =? BPF_RET | None => false end
  else false.

(** ** The interpreter *)

(** A load inside the data, little-endian; a size that is none of the three
    gives 0 and reads nothing. *)
Definition bpf_load (data : list Z) (offset size : Z) : option Z :=
  let read n := if offset + Z.of_nat n <=? Z.of_nat (length data) then Some (le_val (take n (drop (Z.to_nat offset) data))) else None in
  if size =? BPF_W then read 4%nat
  else if size =? BPF_H then read 2%nat
  else if size =? BPF_B then read 1%nat
  else Some 0.

Record bpf_vm := VM { A : Z; X : Z; pc : Z }.

Definition jump_condition (op a k : Z) : bool :=
  if op =? BPF_JEQ then a =? k
  else if op =? BPF_JGT then k <? a
  else if op =? BPF_JGE then k <=? a
  else if op =? BPF_JSET then negb (Z.land a k =? 0)
  else false.

(** What one iteration does: go on, return, or read out of bounds. *)
Inductive outcome :=
| Goto (vm : bpf_vm)
| Return (ret : Z)
| OutOfBounds.

Definition exec (data : list Z) (vm : bpf_vm) (insn : bpf_insn) : outcome :=
  if cls insn =? BPF_LD then
    let next a := Goto (VM a (X vm) (u32 (pc vm + 1))) in
    if mode insn =? BPF_ABS then
      match bpf_load data (k insn) (size_of insn) with Some a => next a | None => OutOfBounds end
    else if mode insn =? BPF_IMM then next (k insn)
    else next (A vm)
  else if cls insn =? BPF_JMP then
    let k' := if src insn =? BPF_K then k insn else X vm in
    let d := if jump_condition (op insn) (A vm) k' then jt insn else jf insn in
    Goto (VM (A vm) (X vm) (u32 (pc vm + (d + 1))))
  else if cls insn =? BPF_RET then Return (k insn)
  else Return SECCOMP_RET_KILL.

(** [while (vm.pc < prog->len && iterations < max_iterations)] *)
Fixpoint run_loop (iterations : nat) (insns : list bpf_insn) (data : list Z) (vm : bpf_vm) : option Z :=
  match iterations with
  | O => Some SECCOMP_RET_KILL
  | S iterations =>
      match insns !! Z.to_nat (pc vm) with
      | None => Some SECCOMP_RET_KILL
      | Some insn =>
          match exec data vm insn with
          | Goto vm => run_loop iterations insns data vm
          | Return ret => Some ret
          | OutOfBounds => None
          end
      end
  end.

Definition bpf_prog_run (insns : list bpf_insn) (data : seccomp_data) : option Z :=
  run_loop (Z.to_nat (u32 (Z.of_nat (length insns) * 10))) insns (data_bytes data) (VM 0 0 0).

(** ** Building filters *)

Definition bpf_syscall_allow (syscall_nr : Z) : list bpf_insn :=
  [BPF_STMT (Z.lor (Z.lor BPF_LD BPF_W) BPF_ABS) offsetof_nr;
   BPF_JUMP (Z.lor (Z.lor BPF_JMP BPF_JEQ) BPF_K) syscall_nr 0 1;
   BPF_STMT (Z.lor BPF_RET BPF_K) SECCOMP_RET_ALLOW;
   BPF_STMT (Z.lor BPF_RET BPF_K) SECCOMP_RET_KILL].

(** The three instructions it stores. *)
Definition bpf_check_arch_x86_64 : list bpf_insn :=
  [BPF_STMT (Z.lor (Z.lor BPF_LD BPF_W) BPF_ABS) offsetof_arch;
   BPF_JUMP (Z.lor (Z.lor BPF_JMP BPF_JEQ) BPF_K) AUDIT_ARCH_X86_64 1 0;
   BPF_STMT (Z.lor BPF_RET BPF_K) SECCOMP_RET_KILL].

(** ** What a program means

    Jumps only go forward, so a program denotes a decision tree: [eval] walks
    the suffix of the program that is left. *)

Fixpoint eval (fuel : nat) (l : list bpf_insn) (data : list Z) (a : Z) : option Z :=
  match fuel, l with
  | O, _ | _, [] => None
  | S fuel, insn :: l =>
      if cls insn =? BPF_LD then
        if mode insn =? BPF_ABS then
          match bpf_load data (k insn) (size_of insn) with Some a => eval fuel l data a | None => None end
        else eval fuel l data (k insn)
      else if cls insn =? BPF_JMP then
        let k' := if src insn =? BPF_K then k insn else 0 in
        eval fuel (drop (Z.to_nat (if jump_condition (op insn) a k' then jt insn else jf insn)) l) data a
      else Some (k insn)
  end.

Definition meaning (insns : list bpf_insn) (data : seccomp_data) : option Z := eval (length insns) insns (data_bytes data) 0.

(** The instruction set: field widths, and no load whose end wraps around. *)
Definition in_width (insn : bpf_insn) : Prop :=
  0 ≤ code insn < 2 ^ 16 ∧ 0 ≤ jt insn < 2 ^ 8 ∧ 0 ≤ jf insn < 2 ^ 8 ∧ 0 ≤ k insn < 2 ^ 32.

Definition no_wrap (insn : bpf_insn) : Prop := k insn + access_size (size_of insn) < 2 ^ 32.

#[global] Instance in_width_dec i : Decision (in_width i).
Proof. unfold in_width. apply _. Defined.
#[global] Instance no_wrap_dec i : Decision (no_wrap i).
Proof. unfold no_wrap. apply _. Defined.

(** ** Validated programs run to a return *)

Lemma insns_ok_lookup len i l j insn : insns_ok len i l = true → l !! j = Some insn → insn_ok len (i + Z.of_nat j) insn = true.
Proof.
  revert i j. induction l as [|x l IH]; intros i j H Hj; [done|]. cbn in H. apply andb_prop in H as [H1 H2]. destruct j as [|j].
  - injection Hj as ->. by rewrite Z.add_0_r.
  - replace (i + Z.of_nat (S j)) with (i + 1 + Z.of_nat j) by lia. by apply IH.
Qed.

Lemma length_data_bytes d : length (args d) = 6%nat → length (data_bytes d) = 64%nat.
Proof.
  intros H. unfold data_bytes. rewrite !length_app, !length_le_bytes. destruct (args d) as [|a1 [|a2 [|a3 [|a4 [|a5 [|a6 [|]]]]]]]; try done.
Qed.

Lemma bpf_load_in data offset size : length data = 64%nat → 0 ≤ offset → offset + access_size size ≤ 64 → ∃ a, bpf_load data offset size = Some a.
Proof.
  intros Hd Ho Ha. unfold bpf_load, access_size in *. rewrite Hd. destruct (size =? BPF_W); [rewrite (proj2 (Z.leb_le _ _)) by lia; eauto|].
  destruct (size =? BPF_H); [rewrite (proj2 (Z.leb_le _ _)) by lia; eauto|]. destruct (size =? BPF_B); [rewrite (proj2 (Z.leb_le _ _)) by lia; eauto|eauto].
Qed.

Section Valid.
Context (insns : list bpf_insn) (data : list Z).
Context (Hlen : Z.of_nat (length insns) < 2 ^ 31) (Hdata : length data = 64%nat).
Context (Hval : bpf_prog_validate insns = true).
Context (Hw : Forall in_width insns) (Hnw : Forall no_wrap insns).

Lemma valid_at j insn : insns !! j = Some insn → insn_ok (Z.of_nat (length insns)) (Z.of_nat j) insn = true.
Proof.
  intros Hj. unfold bpf_prog_validate in Hval. cbv zeta in Hval. destruct (_ =? 0); [done|].
  destruct (insns_ok _ 0 insns) eqn:E; [|done]. apply (insns_ok_lookup _ 0 _ _ _ E Hj).
Qed.

(** Only a return can be last. *)
Lemma valid_last j insn : insns !! j = Some insn → cls insn ≠ BPF_RET → (S j < length insns)%nat.
Proof.
  intros Hj Hc. pose proof (lookup_lt_Some _ _ _ Hj). destruct (decide (S j = length insns)) as [E|]; [|lia].
  unfold bpf_prog_validate in Hval. cbv zeta in Hval. destruct (_ =? 0); [done|]. destruct (insns_ok _ _ _); [|done].
  assert (last insns = Some insn) as Hl. { rewrite last_lookup, <- E. done. }
  rewrite Hl in Hval. apply Z.eqb_eq in Hval. done.
Qed.

(** From any instruction, the loop returns what the rest of the program means,
    the constant of one of its returns. *)
Lemma run_loop_eval n j a : (j < length insns)%nat → (length insns - j ≤ n)%nat →
  ∃ r, run_loop n insns data (VM a 0 (Z.of_nat j)) = Some r ∧ eval n (drop j insns) data a = Some r ∧
    ∃ insn, insn ∈ insns ∧ cls insn = BPF_RET ∧ k insn = r.
Proof.
  revert j a. induction n as [|n IH]; intros j a Hj Hn; [lia|]. cbn [run_loop pc]. rewrite Nat2Z.id.
  destruct (lookup_lt_is_Some_2 _ _ Hj) as [insn Hi]. rewrite Hi. rewrite (drop_S _ _ _ Hi). cbn [eval].
  pose proof (valid_at _ _ Hi) as Hok. pose proof (proj1 (Forall_lookup _ _) Hw _ _ Hi) as (Hc & Hjt & Hjf & Hk).
  pose proof (proj1 (Forall_lookup _ _) Hnw _ _ Hi) as Hnwi. unfold no_wrap in Hnwi.
  unfold exec, insn_ok in *. cbv zeta in *. cbn [A X pc]. destruct (Z.eqb_spec (cls insn) BPF_LD) as [El|El].
  - assert (S j < length insns)%nat as Hs by (apply (valid_last j insn Hi); rewrite El; done).
    assert (u32 (Z.of_nat j + 1) = Z.of_nat (S j)) as Epc by (rewrite u32_small; lia).
    destruct (mode insn =? BPF_ABS).
    + apply negb_true_iff, Z.ltb_ge in Hok. rewrite u32_small in Hok by (unfold access_size in *; repeat case_match; lia).
      destruct (bpf_load_in data (k insn) (size_of insn) Hdata) as [b ->]; [lia|exact Hok|]. rewrite Epc. apply IH; lia.
    + rewrite Hok, Epc. apply IH; lia.
  - destruct (Z.eqb_spec (cls insn) BPF_JMP) as [Ej|Ej].
    + destruct (op insn =? 0); [done|]. destruct (_ || _) eqn:Eo; [done|]. apply orb_false_iff in Eo as [E1%Z.leb_gt E2%Z.leb_gt].
      rewrite u32_small in E1 by lia. rewrite u32_small in E2 by lia.
      set (d := if jump_condition _ _ _ then jt insn else jf insn).
      assert (0 ≤ d ∧ Z.of_nat j + d + 1 < Z.of_nat (length insns)) as [Hd1 Hd2] by (unfold d; destruct (jump_condition _ _ _); lia).
      rewrite u32_small by lia. rewrite drop_drop. replace (Z.of_nat j + (d + 1)) with (Z.of_nat (S j + Z.to_nat d)) by lia. apply IH; lia.
    + rewrite Hok. exists (k insn). split_and!; [done|done|]. exists insn. split_and!; [by eapply list_elem_of_lookup_2|by apply Z.eqb_eq|done].
Qed.

End Valid.

End Bpf.
