(* ===== verification/Seccomp.v ===== *)
(** * Seccomp enforcement
    (src/kernel/security/seccomp/enforce.c and seccomp_syscall.c)

    Filters are layered: each process has a chain of filters, the newest first,
    each pointing to a reference-counted program.  Programs and filters live in
    stores keyed by their kmalloc address; NULL is 0.  What [kmalloc] and
    [copy_from_user] answer and the time stamp are arguments. *)

From S2P Require Import Prelude Errno Bytes Bpf.

Module Seccomp.
Import Bpf.

Definition SECCOMP_MODE_DISABLED : Z := 0.
Definition SECCOMP_MODE_STRICT : Z := 1.
Definition SECCOMP_MODE_FILTER : Z := 2.
Definition SECCOMP_FILTER_STRICT : Z := 1.
Definition SECCOMP_FILTER_LOG : Z := 2.
Definition SECCOMP_SET_MODE_STRICT : Z := 0.
Definition SECCOMP_SET_MODE_FILTER : Z := 1.
Definition SECCOMP_USER_MAX_INSNS : Z := 1024.
Definition SYS_EXIT : Z := 0.
Definition SYS_READ : Z := 2.
Definition SYS_WRITE : Z := 3.

(** ** State *)

Record bpf_prog := Prog { insns : list bpf_insn; prog_flags : Z; ref_count : Z }.
Record seccomp_filter := Filter { f_prog : Z; f_prev : Z; f_mode : Z; f_flags : Z }.
Record process := Process { pid : Z; seccomp_mode : Z; proc_filter : Z }.
Record seccomp_stats := Stats { total_checks : Z; allowed : Z; denied : Z; killed : Z; logged : Z }.
Record audit_entry := Entry { e_timestamp : Z; e_pid : Z; e_nr : Z; e_action : Z; e_args : list Z; e_ip : Z }.

Definition AUDIT_LOG_SIZE : Z := 1024.

Record state := State {
  progs : gmap Z bpf_prog;
  filters : gmap Z seccomp_filter;
  procs : gmap Z process;
  global_stats : seccomp_stats;
  audit_log : list audit_entry;
  audit_log_index : Z }.

Definition with_progs f s := State (f (progs s)) (filters s) (procs s) (global_stats s) (audit_log s) (audit_log_index s).
Definition with_filters f s := State (progs s) (f (filters s)) (procs s) (global_stats s) (audit_log s) (audit_log_index s).
Definition with_procs f s := State (progs s) (filters s) (f (procs s)) (global_stats s) (audit_log s) (audit_log_index s).
Definition with_stats f s := State (progs s) (filters s) (procs s) (f (global_stats s)) (audit_log s) (audit_log_index s).
Definition with_log l i s := State (progs s) (filters s) (procs s) (global_stats s) l i.

Definition count_check t := Stats (u64 (total_checks t + 1)) (allowed t) (denied t) (killed t) (logged t).
Definition count_allowed t := Stats (total_checks t) (u64 (allowed t + 1)) (denied t) (killed t) (logged t).
Definition count_denied t := Stats (total_checks t) (allowed t) (u64 (denied t + 1)) (killed t) (logged t).
Definition count_killed t := Stats (total_checks t) (allowed t) (denied t) (u64 (killed t + 1)) (logged t).
Definition count_logged t := Stats (total_checks t) (allowed t) (denied t) (killed t) (u64 (logged t + 1)).

Definition empty_entry : audit_entry := Entry 0 0 0 0 (replicate 6 0) 0.

(** [seccomp_init]: the statistics and the log are cleared. *)
Definition seccomp_init (s : state) : state :=
  with_stats (λ _, Stats 0 0 0 0 0) (with_log (replicate (Z.to_nat AUDIT_LOG_SIZE) empty_entry) 0 s).

(** ** Programs *)

(** [p] and [a] are what the two [kmalloc] calls return; the instruction array
    is kept with its program. *)
Definition bpf_prog_create (l : list bpf_insn) (p a : Z) (s : state) : state * Z :=
  let len := Z.of_nat (length l) in
  if (len =? 0) || (MAX_BPF_INSNS <? len) then (s, 0)
  else if p =? 0 then (s, 0)
  else if a =? 0 then (s, 0)
  else (with_progs <[p := Prog l 0 1]> s, p).

Definition set_refs (n : Z) (q : bpf_prog) : bpf_prog := Prog (insns q) (prog_flags q) n.

Definition bpf_prog_destroy (p : Z) (s : state) : state :=
  match progs s !! p with
  | None => s
  | Some q =>
      let n := u32 (ref_count q - 1) in
      if n =? 0 then with_progs (delete p) s else with_progs <[p := set_refs n q]> s
  end.

(** ** Installing and removing filters *)

Definition set_policy (mode filter : Z) (pr : process) : process := Process (pid pr) mode filter.

(** [f] is what [kmalloc] returns for the filter. *)
Definition seccomp_install_filter (proc p mode flags f : Z) (s : state) : state * Z :=
  match procs s !! proc, progs s !! p with
  | Some pr, Some q =>
      if negb (bpf_prog_validate (insns q)) then (s, EINVAL)
      else if f =? 0 then (s, ENOMEM)
      else
        let s := with_filters <[f := Filter p (proc_filter pr) mode flags]> s in
        let s := with_progs <[p := set_refs (u32 (ref_count q + 1)) q]> s in
        (with_procs <[proc := set_policy mode f pr]> s, 0)
  | _, _ => (s, EINVAL)
  end.

Definition seccomp_remove_filter (proc : Z) (s : state) : state * Z :=
  match procs s !! proc with
  | None => (s, EINVAL)
  | Some pr =>
      if proc_filter pr =? 0 then (s, EINVAL)
      else
        match filters s !! proc_filter pr with
        | None => (s, EINVAL)
        | Some f =>
            if negb (Z.land (f_flags f) SECCOMP_FILTER_STRICT =? 0) then (s, EPERM)
            else
              let s := if negb (f_prog f =? 0) then bpf_prog_destroy (f_prog f) s else s in
              let mode := if f_prev f =? 0 then SECCOMP_MODE_DISABLED else seccomp_mode pr in
              let s := with_procs <[proc := set_policy mode (f_prev f) pr]> s in
              (with_filters (delete (proc_filter pr)) s, 0)
        end
  end.

(** ** Checking a system call *)

(** [while (filter)]: the most restrictive action wins.  A program that reads
    outside its data has no result, and neither has the walk. *)
Fixpoint run_filters (fuel : nat) (s : state) (data : seccomp_data) (filter result : Z) : option Z :=
  match fuel with
  | O => Some result
  | S fuel =>
      match filters s !! filter with
      | None => Some result
      | Some f =>
          filter_result ← bpf_prog_run (from_option insns [] (progs s !! f_prog f)) data;
          let action := Z.land filter_result SECCOMP_RET_ACTION_MASK in
          let result := if action <? Z.land result SECCOMP_RET_ACTION_MASK then filter_result else result in
          run_filters fuel s data (f_prev f) result
      end
  end.

Definition seccomp_audit_log (pr : process) (nr action : Z) (args : list Z) (ip timestamp : Z) (s : state) : state :=
  let entry := Entry timestamp (pid pr) nr action args ip in
  with_log (<[Z.to_nat (audit_log_index s) := entry]> (audit_log s)) ((audit_log_index s + 1) mod AUDIT_LOG_SIZE) s.

Definition strict_allows (nr : Z) : bool := (nr =? SYS_READ) || (nr =? SYS_WRITE) || (nr =? SYS_EXIT).

Definition filter_flags_of (s : state) (pr : process) : Z := from_option f_flags 0 (filters s !! proc_filter pr).

Definition seccomp_check_syscall (pr : process) (nr : Z) (args : list Z) (ip timestamp : Z) (s : state) : option (state * Z) :=
  if seccomp_mode pr =? SECCOMP_MODE_DISABLED then Some (with_stats count_allowed s, SECCOMP_RET_ALLOW)
  else
    let s := with_stats count_check s in
    if seccomp_mode pr =? SECCOMP_MODE_STRICT then
      if strict_allows nr then Some (with_stats count_allowed s, SECCOMP_RET_ALLOW)
      else Some (with_stats count_denied s, SECCOMP_RET_KILL)
    else if seccomp_mode pr =? SECCOMP_MODE_FILTER then
      if proc_filter pr =? 0 then Some (with_stats count_denied s, SECCOMP_RET_KILL)
      else
        result ← run_filters (S (size (filters s))) s (Data nr AUDIT_ARCH_X86_64 ip args) (proc_filter pr) SECCOMP_RET_ALLOW;
        if Z.land result SECCOMP_RET_ACTION_MASK =? SECCOMP_RET_ALLOW then Some (with_stats count_allowed s, result)
        else
          let s := with_stats count_denied s in
          let s := if negb (Z.land (filter_flags_of s pr) SECCOMP_FILTER_LOG =? 0)
                   then seccomp_audit_log pr nr result args ip timestamp s else s in
          Some (s, result)
    else Some (with_stats count_denied s, SECCOMP_RET_KILL).

Definition seccomp_handle_violation (action : Z) (s : state) : state :=
  let action_type := Z.land action SECCOMP_RET_ACTION_MASK in
  if action_type =? SECCOMP_RET_KILL then with_stats count_killed s
  else if action_type =? SECCOMP_RET_LOG then with_stats count_logged s
  else s.

(** The number of entries reported to readers of the log. *)
Definition seccomp_get_audit_log (s : state) : Z :=
  if audit_log_index s <? AUDIT_LOG_SIZE then audit_log_index s else AUDIT_LOG_SIZE.

(** ** Profiles *)

Definition LOAD_NR : bpf_insn := BPF_STMT (Z.lor (Z.lor BPF_LD BPF_W) BPF_ABS) offsetof_nr.
Definition IF_NR (n : Z) : bpf_insn := BPF_JUMP (Z.lor (Z.lor BPF_JMP BPF_JEQ) BPF_K) n 0 1.
Definition RET (action : Z) : bpf_insn := BPF_STMT (Z.lor BPF_RET BPF_K) action.

Definition profile_strict : list bpf_insn :=
  bpf_check_arch_x86_64 ++
  [LOAD_NR; IF_NR 2; RET SECCOMP_RET_ALLOW; IF_NR 3; RET SECCOMP_RET_ALLOW; IF_NR 0; RET SECCOMP_RET_ALLOW; RET SECCOMP_RET_KILL].

Definition profile_browser : list bpf_insn :=
  bpf_check_arch_x86_64 ++
  [LOAD_NR; IF_NR 7; RET SECCOMP_RET_KILL; IF_NR 1; RET (Z.lor SECCOMP_RET_ERRNO 1); RET SECCOMP_RET_ALLOW].

Definition profile_network : list bpf_insn :=
  bpf_check_arch_x86_64 ++ [LOAD_NR; IF_NR 7; RET SECCOMP_RET_KILL; RET SECCOMP_RET_ALLOW].

Definition profile_untrusted : list bpf_insn :=
  bpf_check_arch_x86_64 ++
  [LOAD_NR; IF_NR 2; RET SECCOMP_RET_ALLOW; IF_NR 3; RET SECCOMP_RET_ALLOW; IF_NR 0; RET SECCOMP_RET_ALLOW;
   IF_NR 8; RET SECCOMP_RET_ALLOW; RET SECCOMP_RET_KILL].

Definition profile_insns (profile_id : Z) : option (list bpf_insn) :=
  if profile_id =? 1 then Some profile_strict
  else if profile_id =? 2 then Some profile_browser
  else if profile_id =? 3 then Some profile_network
  else if profile_id =? 4 then Some profile_untrusted
  else None.

(** [p], [a] and [f] are what the three [kmalloc] calls return. *)
Definition seccomp_load_profile (proc profile_id p a f : Z) (s : state) : state * Z :=
  match procs s !! proc, profile_insns profile_id with
  | Some _, Some l =>
      let '(s, prog) := bpf_prog_create l p a s in
      if prog =? 0 then (s, ENOMEM)
      else
        let '(s, result) := seccomp_install_filter proc prog SECCOMP_MODE_FILTER (Z.lor SECCOMP_FILTER_STRICT SECCOMP_FILTER_LOG) f s in
        if negb (result =? 0) then (bpf_prog_destroy prog s, result) else (s, result)
  | _, _ => (s, EINVAL)
  end.

(** ** The system call and the dispatcher's hook *)

(** [fprog] is the length and the pointer copied from user space, [user] the
    instruction array at that pointer, of which the first [len] are copied
    ([None]: the copy faults), [kbuf] the temporary buffer. *)
Definition sys_seccomp (proc operation flags : Z) (fprog : option (Z * Z)) (kbuf : Z) (user : option (Z → bpf_insn)) (p a f : Z) (s : state)
  : state * Z :=
  match procs s !! proc with
  | None => (s, ESRCH)
  | Some pr =>
      if operation =? SECCOMP_SET_MODE_STRICT then (with_procs <[proc := set_policy SECCOMP_MODE_STRICT (proc_filter pr) pr]> s, 0)
      else if operation =? SECCOMP_SET_MODE_FILTER then
        match fprog with
        | None => (s, EFAULT)
        | Some (len, filter) =>
            if (len =? 0) || (SECCOMP_USER_MAX_INSNS <? len) || (filter =? 0) then (s, EINVAL)
            else if kbuf =? 0 then (s, ENOMEM)
            else
              match user with
              | None => (s, EFAULT)
              | Some filter =>
                  let kinsns := filter <$> seqZ 0 len in
                  let '(s, prog) := bpf_prog_create kinsns p a s in
                  if prog =? 0 then (s, EINVAL)
                  else
                    let filter_flags := if negb (Z.land flags SECCOMP_FILTER_STRICT =? 0)
                                        then Z.lor SECCOMP_FILTER_LOG SECCOMP_FILTER_STRICT else SECCOMP_FILTER_LOG in
                    let '(s, rc) := seccomp_install_filter proc prog SECCOMP_MODE_FILTER filter_flags f s in
                    if negb (rc =? 0) then (bpf_prog_destroy prog s, rc) else (bpf_prog_destroy prog s, 0)
              end
        end
      else (s, EINVAL)
  end.

(** 0 lets the call through; [None] as in [run_filters]. *)
Definition seccomp_check (proc nr : Z) (args : list Z) (ip timestamp : Z) (s : state) : option (state * Z) :=
  match procs s !! proc with
  | None => Some (s, 0)
  | Some pr =>
      let mode := seccomp_mode pr in
      if mode =? SECCOMP_MODE_DISABLED then Some (s, 0)
      else if negb (mode =? SECCOMP_MODE_STRICT) && negb (mode =? SECCOMP_MODE_FILTER) then Some (s, 0)
      else if (mode =? SECCOMP_MODE_FILTER) && (proc_filter pr =? 0) then Some (s, 0)
      else
        '(s, result) ← seccomp_check_syscall pr (u32 nr) args ip timestamp s;
        let action := Z.land result SECCOMP_RET_ACTION_MASK in
        if (action =? SECCOMP_RET_ALLOW) || (action =? SECCOMP_RET_LOG) then Some (s, 0)
        else
          let s := seccomp_handle_violation result s in
          if action =? SECCOMP_RET_ERRNO then
            let errno_val := Z.land result SECCOMP_RET_DATA_MASK in
            if errno_val =? 0 then Some (s, EPERM) else Some (s, - errno_val)
          else Some (s, EPERM)
  end.

End Seccomp.
