(* ===== verification/SeccompInv.v ===== *)
(** * Seccomp: chains of filters and the invariant

    The filters of a process form a list that ends; every filter holds a live,
    validated program of its own. *)

From S2P Require Import Prelude Errno Bytes Bpf Seccomp.

Module SeccompInv.
Import Bpf Seccomp.

(** ** Chains *)

Fixpoint chain (m : gmap Z seccomp_filter) (f : Z) (c : list Z) : Prop :=
  match c with
  | [] => f = 0
  | g :: c => f = g ∧ g ≠ 0 ∧ ∃ fl, m !! g = Some fl ∧ chain m (f_prev fl) c
  end.

Lemma chain_fun m f c c' : chain m f c → chain m f c' → c = c'.
Proof.
  revert f c'. induction c as [|g c IH]; intros f [|g' c'] H H'; cbn in *; [done|by destruct H' as (-> & ? & _)|by destruct H as (-> & ? & _)|].
  destruct H as (-> & _ & fl & Hm & H), H' as (-> & _ & fl' & Hm' & H'). rewrite Hm in Hm'. injection Hm' as <-. f_equal. by eapply IH.
Qed.

Lemma filter_chain_ext m m' f c : (∀ g, g ∈ c → m' !! g = m !! g) → chain m f c → chain m' f c.
Proof.
  revert f. induction c as [|g c IH]; intros f He H; cbn in *; [done|]. destruct H as (-> & Hg & fl & Hm & H). split_and!; [done|done|].
  exists fl. split; [rewrite He; [done|left]|]. apply IH; [|done]. intros h Hh. apply He. by right.
Qed.

Lemma chain_in m f c g : chain m f c → g ∈ c → is_Some (m !! g).
Proof.
  revert f. induction c as [|h c IH]; intros f H Hg; [by apply elem_of_nil in Hg|]. destruct H as (-> & _ & fl & Hm & H).
  apply elem_of_cons in Hg as [->|Hg]; [by eexists|by eapply IH].
Qed.

Lemma chain_size m f c : chain m f c → NoDup c → (length c ≤ size m)%nat.
Proof.
  intros H Hn. rewrite <- size_dom. rewrite <- (size_list_to_set (C := gset Z) c) by done. apply subseteq_size.
  intros g Hg. apply elem_of_list_to_set in Hg. apply elem_of_dom. by eapply chain_in.
Qed.

(** ** The invariant *)

(** A program that passed validation; it has one reference from its filter and
    at most one more, which [seccomp_load_profile] does not give back. *)
Record good (q : bpf_prog) : Prop := {
  g_valid : bpf_prog_validate (insns q) = true;
  g_width : Forall in_width (insns q);
  g_len : Z.of_nat (length (insns q)) ≤ MAX_BPF_INSNS;
  g_refs : 1 ≤ ref_count q ≤ 2 }.

Definition mode_ok (pr : process) : Prop :=
  (seccomp_mode pr = SECCOMP_MODE_DISABLED ∧ proc_filter pr = 0) ∨ seccomp_mode pr = SECCOMP_MODE_STRICT ∨
  (seccomp_mode pr = SECCOMP_MODE_FILTER ∧ proc_filter pr ≠ 0).

Record inv (s : state) : Prop := {
  i_chain a pr : procs s !! a = Some pr → ∃ c, chain (filters s) (proc_filter pr) c ∧ NoDup c;
  i_apart a b pa pb ca cb f : procs s !! a = Some pa → procs s !! b = Some pb →
    chain (filters s) (proc_filter pa) ca → chain (filters s) (proc_filter pb) cb → f ∈ ca → f ∈ cb → a = b;
  i_prog f fl : filters s !! f = Some fl → f_prog fl ≠ 0 ∧ ∃ q, progs s !! f_prog fl = Some q ∧ good q;
  i_own f g fl gl : filters s !! f = Some fl → filters s !! g = Some gl → f_prog fl = f_prog gl → f = g;
  i_mode a pr : procs s !! a = Some pr → mode_ok pr;
  i_null : filters s !! 0 = None }.

(** Only the stores and the processes matter. *)
Lemma inv_same s s' : progs s' = progs s → filters s' = filters s → procs s' = procs s → inv s → inv s'.
Proof. intros E1 E2 E3 [H1 H2 H3 H4 H5 H6]. split; rewrite ?E1, ?E2, ?E3; done. Qed.

Lemma insert_in {V} (m : gmap Z V) i x j y : <[i := x]> m !! j = Some y → (i = j ∧ x = y) ∨ (i ≠ j ∧ m !! j = Some y).
Proof. intros H. apply lookup_insert_Some in H. tauto. Qed.

Lemma delete_in {V} (m : gmap Z V) i j (y : V) : delete i m !! j = Some y → i ≠ j ∧ m !! j = Some y.
Proof. intros H. by apply lookup_delete_Some in H. Qed.

(** ** Programs *)

(** A program no filter uses may come, go and change. *)
Lemma inv_progs s m : inv s → (∀ f fl, filters s !! f = Some fl → ∃ q, m !! f_prog fl = Some q ∧ good q) → inv (with_progs (λ _, m) s).
Proof.
  intros [H1 H2 H3 H4 H5 H6] Hm. split; cbn; [done|done| |done|done|done]. intros f fl Hf. destruct (H3 f fl Hf) as [? _]. split; [done|eauto].
Qed.

Definition unused (p : Z) (s : state) : Prop := ∀ f fl, filters s !! f = Some fl → f_prog fl ≠ p.

Lemma unused_fresh p s : inv s → progs s !! p = None → unused p s.
Proof. intros Hi Hp f fl Hf E. destruct (i_prog s Hi f fl Hf) as (_ & q & Hq & _). congruence. Qed.

Lemma prog_create_inv l p a s s' r : inv s → progs s !! p = None → bpf_prog_create l p a s = (s', r) → inv s' ∧ filters s' = filters s ∧ procs s' = procs s ∧
  (r = 0 ∧ s' = s ∨ r = p ∧ p ≠ 0 ∧ Z.of_nat (length l) ≤ MAX_BPF_INSNS ∧ progs s' = <[p := Prog l 0 1]> (progs s)).
Proof.
  intros Hi Hp. unfold bpf_prog_create. cbv zeta. destruct (_ || _) eqn:E; [intros [= <- <-]; split_and!; auto|]. apply orb_false_iff in E as [_ E%Z.ltb_ge].
  destruct (Z.eqb_spec p 0); [intros [= <- <-]; split_and!; auto|]. destruct (a =? 0); [intros [= <- <-]; split_and!; auto|]. intros [= <- <-]. split_and!; [|done|done|right; done].
  apply (inv_progs s (<[p := Prog l 0 1]> (progs s))); [done|]. intros f fl Hf. destruct (i_prog s Hi f fl Hf) as (_ & q & Hq & Hg). exists q. split; [|done].
  rewrite lookup_insert_ne; [done|]. intros ->. congruence.
Qed.

Lemma destroy_unused_inv p s : inv s → unused p s → inv (bpf_prog_destroy p s).
Proof.
  intros Hi Hu. unfold bpf_prog_destroy. destruct (progs s !! p) as [q|] eqn:Eq; [|done]. cbv zeta.
  assert (∀ m, (∀ x, x ≠ p → m !! x = progs s !! x) → inv (with_progs (λ _, m) s)) as Hm.
  { intros m Hm. apply inv_progs; [done|]. intros f fl Hf. rewrite Hm by by eapply Hu. by destruct (i_prog s Hi f fl Hf) as (_ & ? & ? & ?); eauto. }
  destruct (_ =? 0); [apply (Hm (delete p (progs s))); intros; by rewrite lookup_delete_ne|apply (Hm (<[p := _]> (progs s))); intros; by rewrite lookup_insert_ne].
Qed.

(** Giving back the second reference. *)
Lemma destroy_second_inv p q s : inv s → progs s !! p = Some q → good q → ref_count q = 2 → inv (bpf_prog_destroy p s).
Proof.
  intros Hi Hq Hg Hr. unfold bpf_prog_destroy. rewrite Hq, Hr. cbv zeta. change (u32 (2 - 1)) with 1. cbn [Z.eqb].
  apply (inv_progs s (<[p := set_refs 1 q]> (progs s))); [done|]. intros f fl Hf. destruct (i_prog s Hi f fl Hf) as (_ & q' & Hq' & Hg').
  destruct (decide (f_prog fl = p)) as [->|]; [|rewrite lookup_insert_ne by done; eauto]. rewrite lookup_insert_eq. eexists; split; [done|].
  destruct Hg as [V W L R]. by split; cbn; [..|lia].
Qed.

(** ** Installing and removing *)

Lemma filter_install_inv proc p mode flags f s s' r : inv s → unused p s → p ≠ 0 → filters s !! f = None →
  (∀ q, progs s !! p = Some q → Forall in_width (insns q) ∧ Z.of_nat (length (insns q)) ≤ MAX_BPF_INSNS ∧ ref_count q = 1) →
  mode = SECCOMP_MODE_FILTER → seccomp_install_filter proc p mode flags f s = (s', r) →
  (r ≠ 0 ∧ s' = s) ∨
  (∃ pr q, r = 0 ∧ procs s !! proc = Some pr ∧ progs s !! p = Some q ∧ bpf_prog_validate (insns q) = true ∧ f ≠ 0 ∧ inv s' ∧
    filters s' = <[f := Filter p (proc_filter pr) mode flags]> (filters s) ∧
    progs s' = <[p := set_refs 2 q]> (progs s) ∧ procs s' = <[proc := set_policy mode f pr]> (procs s) ∧ good (set_refs 2 q)).
Proof.
  intros Hi Hu Hp Hf Hq Hmode. unfold seccomp_install_filter. destruct (procs s !! proc) as [pr|] eqn:Epr; [|intros [= <- <-]; by left].
  destruct (progs s !! p) as [q|] eqn:Eq; [|intros [= <- <-]; by left]. destruct (bpf_prog_validate _) eqn:Ev; [|intros [= <- <-]; by left]. cbn [negb].
  destruct (Z.eqb_spec f 0) as [|Hf0]; [intros [= <- <-]; by left|]. destruct (Hq q eq_refl) as (Hw & Hl & Hr). rewrite Hr. change (u32 (1 + 1)) with 2.
  cbv zeta. intros [= <- <-]. right. assert (Hg : good (set_refs 2 q)) by (split; cbn; [done|done|done|lia]).
  exists pr, q. split_and!; try done. clear Hq. destruct (i_chain s Hi _ _ Epr) as (c & Hc & Hn).
  assert (Hext : ∀ g cg, chain (filters s) g cg → chain (<[f := Filter p (proc_filter pr) mode flags]> (filters s)) g cg ∧ f ∉ cg).
  { intros g cg Hcg. assert (f ∉ cg) as Hnf. { intros Hin. destruct (chain_in _ _ _ _ Hcg Hin). congruence. }
    split; [|done]. eapply filter_chain_ext; [|done]. intros h Hh. rewrite lookup_insert_ne; [done|]. intros ->. done. }
  assert (Hnew : chain (<[f := Filter p (proc_filter pr) mode flags]> (filters s)) f (f :: c)).
  { split_and!; [done|done|]. eexists. rewrite lookup_insert_eq. split; [done|]. by apply Hext. }
  assert (Hcase : ∀ a pa ca, <[proc := set_policy mode f pr]> (procs s) !! a = Some pa →
    chain (<[f := Filter p (proc_filter pr) mode flags]> (filters s)) (proc_filter pa) ca →
    (a = proc ∧ ca = f :: c) ∨ (a ≠ proc ∧ procs s !! a = Some pa ∧ chain (filters s) (proc_filter pa) ca ∧ f ∉ ca)).
  { intros a pa ca [[<- <-]|[Hne Ha]]%insert_in Hca; [left; split; [done|]; by eapply chain_fun|right].
    destruct (i_chain s Hi _ _ Ha) as (c' & Hc' & _). destruct (Hext _ _ Hc') as [Hc'' Hnf]. assert (ca = c') as -> by by eapply chain_fun. done. }
  split; cbn.
  - intros a pa [[<- <-]|[Hne Ha]]%insert_in.
    + exists (f :: c). split; [done|]. constructor; [by eapply Hext|done].
    + destruct (i_chain s Hi _ _ Ha) as (c' & Hc' & Hn'). exists c'. split; [by apply Hext|done].
  - intros a b pa pb ca cb g Ha Hb Hca Hcb Hga Hgb.
    destruct (Hcase _ _ _ Ha Hca) as [[-> ->]|(Na & Ha' & Hca' & Nfa)], (Hcase _ _ _ Hb Hcb) as [[-> ->]|(Nb & Hb' & Hcb' & Nfb)]; [done| | |].
    + apply elem_of_cons in Hga as [->|Hga]; [done|]. exfalso. apply Nb. by eapply (i_apart s Hi b proc).
    + apply elem_of_cons in Hgb as [->|Hgb]; [done|]. by eapply (i_apart s Hi a proc).
    + by eapply (i_apart s Hi a b).
  - intros g fl [[<- <-]|[Hne Hg']]%insert_in; cbn.
    + split; [done|]. eexists. by rewrite lookup_insert_eq.
    + destruct (i_prog s Hi _ _ Hg') as (? & q' & Hq' & Hgq'). split; [done|]. exists q'. rewrite lookup_insert_ne; [done|]. intros E. by eapply Hu.
  - intros g h gl hl [[<- <-]|[Hne Hg']]%insert_in [[<- <-]|[Hne' Hh']]%insert_in E; cbn in E; [done| | |by eapply (i_own s Hi)].
    + exfalso. by eapply (Hu h hl).
    + exfalso. by eapply (Hu g gl).
  - intros a pa [[<- <-]|[Hne Ha]]%insert_in; [right; right; by rewrite Hmode|by eapply (i_mode s Hi)].
  - rewrite lookup_insert_ne by done. apply (i_null s Hi).
Qed.

Lemma destroy_stores p s : filters (bpf_prog_destroy p s) = filters s ∧ procs (bpf_prog_destroy p s) = procs s ∧
  ∀ x, x ≠ p → progs (bpf_prog_destroy p s) !! x = progs s !! x.
Proof.
  unfold bpf_prog_destroy. destruct (progs s !! p) as [q|]; [|done]. cbv zeta.
  destruct (_ =? 0); cbn; split_and!; try done; intros x Hx; [by rewrite lookup_delete_ne|by rewrite lookup_insert_ne].
Qed.

(** The top filter of a process goes, with its reference. *)
Lemma pop_inv proc pr fl s mode : inv s → procs s !! proc = Some pr → proc_filter pr ≠ 0 → filters s !! proc_filter pr = Some fl →
  mode_ok (set_policy mode (f_prev fl) pr) →
  inv (with_filters (delete (proc_filter pr)) (with_procs <[proc := set_policy mode (f_prev fl) pr]> (bpf_prog_destroy (f_prog fl) s))).
Proof.
  intros Hi Hpr Hnz Hfl Hmo. destruct (destroy_stores (f_prog fl) s) as (Ef & Ep & Hq). destruct (i_chain s Hi _ _ Hpr) as (c & Hc & Hn).
  destruct c as [|f c]; [done|]. pose proof Hc as (Eq & _ & fl' & Hfl' & Hc'). rewrite Eq in *. rewrite Hfl in Hfl'. injection Hfl' as <-.
  apply NoDup_cons in Hn as [Hfc Hn].
  assert (Hext : ∀ g cg, chain (filters s) g cg → f ∉ cg → chain (delete f (filters s)) g cg).
  { intros g cg Hcg Hnf. eapply filter_chain_ext; [|done]. intros h Hh. rewrite lookup_delete_ne; [done|]. by intros ->. }
  assert (Hcase : ∀ a pa, <[proc := set_policy mode (f_prev fl) pr]> (procs s) !! a = Some pa →
    ∃ ca pa', procs s !! a = Some pa' ∧ (∀ g, g ∈ ca → ∃ ca', chain (filters s) (proc_filter pa') ca' ∧ g ∈ ca') ∧
      chain (delete f (filters s)) (proc_filter pa) ca ∧ NoDup ca).
  { intros a pa [[<- <-]|[Hne Ha]]%insert_in.
    - exists c, pr. split_and!; [done| |by apply Hext|done]. intros g Hg. exists (f :: c). split; [by rewrite Eq|by right].
    - destruct (i_chain s Hi _ _ Ha) as (ca & Hca & Hna). exists ca, pa. split_and!; [done|eauto| |done]. apply Hext; [done|].
      intros Hin. apply Hne. eapply (i_apart s Hi proc a pr pa (f :: c) ca f); [done|done|by rewrite Eq|done|left|done]. }
  split; cbn; rewrite ?Ef, ?Ep.
  - intros a pa Ha. destruct (Hcase a pa Ha) as (ca & _ & _ & _ & ? & ?). eauto.
  - intros a b pa pb ca cb g Ha Hb Hca Hcb Hga Hgb. destruct (Hcase a pa Ha) as (ca' & pa' & Ha' & Hina & Hca' & _), (Hcase b pb Hb) as (cb' & pb' & Hb' & Hinb & Hcb' & _).
    rewrite (chain_fun _ _ _ _ Hca Hca') in Hga. rewrite (chain_fun _ _ _ _ Hcb Hcb') in Hgb.
    destruct (Hina g Hga) as (xa & ? & ?), (Hinb g Hgb) as (xb & ? & ?). by eapply (i_apart s Hi a b).
  - intros g gl [Hne Hg]%delete_in. destruct (i_prog s Hi _ _ Hg) as (? & q & Hgq & Hgood). split; [done|]. exists q. split; [|done].
    rewrite Hq; [done|]. intros E. apply Hne. by eapply (i_own s Hi f g).
  - intros g h gl hl [_ Hg]%delete_in [_ Hh]%delete_in. by eapply (i_own s Hi).
  - intros a pa [[<- <-]|[Hne Ha]]%insert_in; [done|by eapply (i_mode s Hi)].
  - rewrite lookup_delete_None. right. apply (i_null s Hi).
Qed.

Lemma remove_inv proc s s' r : inv s → seccomp_remove_filter proc s = (s', r) → inv s'.
Proof.
  intros Hi. unfold seccomp_remove_filter. destruct (procs s !! proc) as [pr|] eqn:Epr; [|by intros [= <- <-]].
  destruct (Z.eqb_spec (proc_filter pr) 0) as [|Hnz]; [by intros [= <- <-]|]. destruct (filters s !! proc_filter pr) as [fl|] eqn:Efl; [|by intros [= <- <-]].
  destruct (negb _); [by intros [= <- <-]|]. destruct (i_prog s Hi _ _ Efl) as [Hp _]. rewrite (proj2 (Z.eqb_neq _ _) Hp). cbn [negb]. cbv zeta.
  intros [= <- <-]. apply pop_inv; [done..|]. unfold mode_ok. cbn. destruct (i_mode s Hi _ _ Epr) as [[_ E]|[E|[E _]]]; [done| |].
  - destruct (Z.eqb_spec (f_prev fl) 0); [by left|by right; left].
  - destruct (Z.eqb_spec (f_prev fl) 0); [by left|right; right; done].
Qed.

(** ** System calls *)

(** The addresses [kmalloc] hands out are not in use. *)
Definition fresh (p f : Z) (s : state) : Prop := progs s !! p = None ∧ filters s !! f = None.

(** Creating, installing and, if asked or on failure, dropping the creator's
    reference. *)
Lemma create_install_inv l proc p a flags f s s1 s2 prog r : inv s → fresh p f s → Forall in_width l →
  bpf_prog_create l p a s = (s1, prog) → prog ≠ 0 → seccomp_install_filter proc prog SECCOMP_MODE_FILTER flags f s1 = (s2, r) →
  (r ≠ 0 ∧ inv (bpf_prog_destroy prog s2) ∧ filters (bpf_prog_destroy prog s2) = filters s ∧ procs (bpf_prog_destroy prog s2) = procs s ∧
    ∀ x, x ≠ p → progs (bpf_prog_destroy prog s2) !! x = progs s !! x) ∨
  (r = 0 ∧ inv s2 ∧ inv (bpf_prog_destroy prog s2) ∧ f ≠ 0 ∧ prog = p ∧ ∃ pr, procs s !! proc = Some pr ∧ bpf_prog_validate l = true ∧
    filters s2 = <[f := Filter p (proc_filter pr) SECCOMP_MODE_FILTER flags]> (filters s) ∧
    procs s2 = <[proc := set_policy SECCOMP_MODE_FILTER f pr]> (procs s) ∧
    progs s2 = <[p := Prog l 0 2]> (progs s) ∧ progs (bpf_prog_destroy prog s2) = <[p := Prog l 0 1]> (progs s)).
Proof.
  intros Hi [Fp Ff] Hw Hc Hnz Hins. destruct (prog_create_inv _ _ _ _ _ _ Hi Fp Hc) as (Hi1 & Ef1 & Ep1 & [[? _]|(-> & Hp0 & Hl & Eq1)]); [done|].
  assert (Hu : unused p s1). { intros g gl Hg. rewrite Ef1 in Hg. by eapply (unused_fresh p s Hi Fp). }
  assert (Hq1 : progs s1 !! p = Some (Prog l 0 1)) by (rewrite Eq1; apply lookup_insert_eq).
  destruct (filter_install_inv proc p SECCOMP_MODE_FILTER flags f s1 s2 r Hi1 Hu Hp0) as [[Hr ->]|(pr & q & -> & Hpr & Hq & Hv & Hf0 & Hi2 & Ef2 & Eq2 & Ep2 & Hg)]; [by rewrite Ef1| |done|done| |].
  - intros q Hq. rewrite Hq1 in Hq. injection Hq as <-. done.
  - left. destruct (destroy_stores p s1) as (E1 & E2 & E3). split_and!; [done|by apply destroy_unused_inv|by rewrite E1|by rewrite E2|].
    intros x Hx. rewrite (E3 x Hx), Eq1. by rewrite lookup_insert_ne.
  - rewrite Hq1 in Hq. injection Hq as <-. assert (Eq2' : progs s2 = <[p := Prog l 0 2]> (progs s)) by by rewrite Eq2, Eq1, insert_insert_eq.
    assert (progs s2 !! p = Some (Prog l 0 2)) as Hq2 by (rewrite Eq2'; apply lookup_insert_eq).
    right. split_and!; [done|done|by eapply destroy_second_inv|done|done|]. exists pr. rewrite Ef1 in Ef2. rewrite Ep1 in Ep2, Hpr. split_and!; [done|done|done|done|done|].
    unfold bpf_prog_destroy. rewrite Hq2. change (progs (with_progs <[p := Prog l 0 1]> s2) = <[p := Prog l 0 1]> (progs s)). unfold with_progs, progs at 1. by rewrite Eq2', insert_insert_eq.
Qed.

End SeccompInv.
