(* ===== verification/SeccompProps.v ===== *)
(** * Seccomp: reachable states and the properties *)

From S2P Require Import Prelude Errno Bytes Bpf Seccomp SeccompInv.

Module SeccompProps.
Import Bpf Seccomp SeccompInv.

(** ** Programs *)

Lemma eval_fuel n n' l data a r : eval n l data a = Some r → (n ≤ n')%nat → eval n' l data a = Some r.
Proof.
  revert n' l a. induction n as [|n IH]; intros n' l a H Hle; [by destruct l|]. destruct n' as [|n']; [lia|]. destruct l as [|insn l]; [done|]. cbn [eval] in *.
  destruct (_ =? BPF_LD).
  - destruct (_ =? BPF_ABS); [destruct (bpf_load _ _ _); [|done]|]; apply IH; [done|lia|done|lia].
  - destruct (_ =? BPF_JMP); [apply IH; [done|lia]|done].
Qed.

Lemma validate_nonempty l : bpf_prog_validate l = true → (0 < length l)%nat.
Proof. destruct l; [done|]. intros _. cbn. lia. Qed.

Lemma run_meaning l data : bpf_prog_validate l = true → Forall in_width l → Forall no_wrap l → Z.of_nat (length l) ≤ MAX_BPF_INSNS → length (args data) = 6%nat →
  ∃ r, bpf_prog_run l data = Some r ∧ meaning l data = Some r ∧ ∃ insn, insn ∈ l ∧ cls insn = BPF_RET ∧ k insn = r.
Proof.
  intros Hv Hw Hn Hl Ha. pose proof (validate_nonempty l Hv) as Hpos. unfold MAX_BPF_INSNS in Hl. apply length_data_bytes in Ha.
  unfold bpf_prog_run, meaning. rewrite u32_small by lia.
  destruct (run_loop_eval l (data_bytes data) ltac:(lia) Ha Hv Hw Hn (Z.to_nat (Z.of_nat (length l) * 10)) 0 0 Hpos ltac:(lia)) as (r & H1 & H2 & H3).
  destruct (run_loop_eval l (data_bytes data) ltac:(lia) Ha Hv Hw Hn (length l) 0 0 Hpos ltac:(lia)) as (r' & _ & H4 & _). rewrite drop_0 in H2, H4.
  apply (eval_fuel _ (Z.to_nat (Z.of_nat (length l) * 10))) in H4 as H5; [|lia]. assert (r' = r) as -> by congruence. exists r. split_and!; [exact H1|done|done].
Qed.

(** ** What a chain decides *)

Definition act (o : option Z) : Z := Z.land (default SECCOMP_RET_KILL o) SECCOMP_RET_ACTION_MASK.

(** The smallest action of the layers, at most [z]. *)
Definition tight (ls : list (list bpf_insn)) (data : seccomp_data) (z : Z) : Z :=
  foldr (λ l a, Z.min (act (meaning l data)) a) z ls.

Definition strictest (ls : list (list bpf_insn)) (data : seccomp_data) : Z := tight ls data SECCOMP_RET_ALLOW.

Lemma tight_min ls data v z : tight ls data (Z.min v z) = Z.min v (tight ls data z).
Proof. induction ls as [|l ls IH]; [done|]. unfold tight in *. cbn. rewrite IH. lia. Qed.

Definition layer (s : state) (f : Z) : list bpf_insn := from_option insns [] (filters s !! f ≫= λ fl, progs s !! f_prog fl).
Definition layers (s : state) (c : list Z) : list (list bpf_insn) := layer s <$> c.

Lemma layer_eq s f fl q : filters s !! f = Some fl → progs s !! f_prog fl = Some q → layer s f = insns q.
Proof. intros H1 H2. unfold layer. rewrite H1. cbn. by rewrite H2. Qed.

Definition all_no_wrap (s : state) : Prop := map_Forall (λ _ q, Forall no_wrap (insns q)) (progs s).

Lemma run_filters_ok s data c f res fuel : inv s → all_no_wrap s → length (args data) = 6%nat → chain (filters s) f c → (length c < fuel)%nat →
  ∃ r, run_filters fuel s data f res = Some r ∧
    Z.land r SECCOMP_RET_ACTION_MASK = tight (layers s c) data (Z.land res SECCOMP_RET_ACTION_MASK).
Proof.
  intros Hi Hnw Ha. revert f res fuel. induction c as [|g c IH]; intros f res [|fuel] Hc Hf; cbn [length] in Hf; try lia; cbn [run_filters].
  - cbn in Hc. subst f. rewrite (i_null s Hi). eauto.
  - destruct Hc as (-> & _ & fl & Hfl & Hc). rewrite Hfl. destruct (i_prog s Hi _ _ Hfl) as (_ & q & Hq & [V W L _]). rewrite Hq. cbn [from_option].
    destruct (run_meaning (insns q) data V W (Hnw _ _ Hq) L Ha) as (x & Hrun & Hmean & _). rewrite Hrun. cbn [mbind option_bind]. cbv zeta.
    edestruct (IH (f_prev fl)) as (r & -> & Hr); [done|lia|]. exists r. split; [done|]. rewrite Hr.
    change (layers s (g :: c)) with (layer s g :: layers s c). rewrite (layer_eq s g fl q Hfl Hq).
    change (tight (insns q :: layers s c) data (Z.land res SECCOMP_RET_ACTION_MASK)) with
      (Z.min (act (meaning (insns q) data)) (tight (layers s c) data (Z.land res SECCOMP_RET_ACTION_MASK))).
    rewrite Hmean, <- tight_min. unfold act. change (default SECCOMP_RET_KILL (Some x)) with x. f_equal. destruct (Z.ltb_spec (Z.land x SECCOMP_RET_ACTION_MASK) (Z.land res SECCOMP_RET_ACTION_MASK)); lia.
Qed.

(** ** What a process may do *)

Definition six (args : list Z) : Prop := length args = 6%nat.

Definition lets_through (action : Z) : Prop := action = SECCOMP_RET_ALLOW ∨ action = SECCOMP_RET_LOG.

(** The policy of the process at [a] for one call. *)
Definition permitted (s : state) (a nr : Z) (args : list Z) (ip : Z) : Prop :=
  match procs s !! a with
  | None => True
  | Some pr =>
      (seccomp_mode pr = SECCOMP_MODE_STRICT → strict_allows (u32 nr) = true) ∧
      (seccomp_mode pr = SECCOMP_MODE_FILTER → ∀ c, chain (filters s) (proc_filter pr) c →
        lets_through (strictest (layers s c) (Data (u32 nr) AUDIT_ARCH_X86_64 ip args)))
  end.

Lemma permitted_filter s a pr c nr args ip : inv s → procs s !! a = Some pr → seccomp_mode pr = SECCOMP_MODE_FILTER → chain (filters s) (proc_filter pr) c →
  permitted s a nr args ip ↔ lets_through (strictest (layers s c) (Data (u32 nr) AUDIT_ARCH_X86_64 ip args)).
Proof.
  intros Hi Ha Hm Hc. unfold permitted. rewrite Ha. split; [intros [_ H]; by apply H|]. intros H. split; [rewrite Hm; done|].
  intros _ c' Hc'. by rewrite (chain_fun _ _ _ _ Hc' Hc).
Qed.

Definition unchanged (s s' : state) : Prop := progs s' = progs s ∧ filters s' = filters s ∧ procs s' = procs s.

Lemma check_ok s a nr args ip t : inv s → all_no_wrap s → six args →
  ∃ s' r, seccomp_check a nr args ip t s = Some (s', r) ∧ unchanged s s' ∧ r ≤ 0 ∧ (r = 0 ↔ permitted s a nr args ip).
Proof.
  intros Hi Hnw Ha. unfold seccomp_check. destruct (procs s !! a) as [pr|] eqn:Epr; [|exists s, 0; unfold permitted; rewrite Epr; done].
  cbv zeta. destruct (i_mode s Hi _ _ Epr) as [[E E0]|[E|[E E0]]].
  - rewrite E. exists s, 0. split_and!; [done|done|done|]. unfold permitted. rewrite Epr, E. done.
  - rewrite E. cbn [Z.eqb SECCOMP_MODE_STRICT SECCOMP_MODE_DISABLED SECCOMP_MODE_FILTER Pos.eqb negb andb]. unfold seccomp_check_syscall. rewrite E.
    cbn [Z.eqb SECCOMP_MODE_STRICT SECCOMP_MODE_DISABLED Pos.eqb]. cbv zeta. destruct (strict_allows (u32 nr)) eqn:Es; cbn.
    + eexists _, 0. split_and!; [done|done|done|]. unfold permitted. rewrite Epr, E. done.
    + eexists _, EPERM. split_and!; [done|done|done|]. unfold permitted. rewrite Epr, E, Es. split; [done|]. intros [H _]. by specialize (H eq_refl).
  - rewrite E. cbn [Z.eqb SECCOMP_MODE_STRICT SECCOMP_MODE_DISABLED SECCOMP_MODE_FILTER Pos.eqb negb andb]. rewrite (proj2 (Z.eqb_neq _ _) E0).
    unfold seccomp_check_syscall. rewrite E. cbn [Z.eqb SECCOMP_MODE_STRICT SECCOMP_MODE_DISABLED SECCOMP_MODE_FILTER Pos.eqb]. cbv zeta. rewrite (proj2 (Z.eqb_neq _ _) E0).
    destruct (i_chain s Hi _ _ Epr) as (c & Hc & Hn). pose proof (chain_size _ _ _ Hc Hn) as Hsz.
    pose proof (permitted_filter s a pr c nr args ip Hi Epr E Hc) as Hp. set (data := Data (u32 nr) AUDIT_ARCH_X86_64 ip args) in *.
    destruct (run_filters_ok (with_stats count_check s) data c (proc_filter pr) SECCOMP_RET_ALLOW (S (size (filters s)))) as (r & Hr & Hact); [by apply (inv_same s)|done|done|done|cbn; lia|].
    change (filters (with_stats count_check s)) with (filters s). rewrite Hr. cbn [mbind option_bind].
    change (tight (layers (with_stats count_check s) c) data (Z.land SECCOMP_RET_ALLOW SECCOMP_RET_ACTION_MASK)) with (strictest (layers s c) data) in Hact.
    rewrite Hact. unfold lets_through in Hp. set (z := strictest _ _) in *. clearbody z. clear Hr.
    destruct (Z.eqb_spec z SECCOMP_RET_ALLOW) as [Ez|Ez]; cbn [mbind option_bind].
    { rewrite Hact, (proj2 (Z.eqb_eq _ _) Ez). cbn [orb]. eexists _, 0. split_and!; [done|done|done|]. tauto. }
    rewrite Hact, (proj2 (Z.eqb_neq _ _) Ez). cbn [orb]. set (s1 := if negb _ then _ else _).
    assert (unchanged s s1) as Hs1 by (unfold s1; by destruct (negb _)). clearbody s1.
    destruct (Z.eqb_spec z SECCOMP_RET_LOG) as [El|El]. { eexists _, 0. split_and!; [done|done|done|]. tauto. }
    assert (unchanged s (seccomp_handle_violation r s1)) as Hs2.
    { unfold seccomp_handle_violation. cbv zeta. destruct (_ =? _); [done|]. by destruct (_ =? _). }
    destruct (z =? SECCOMP_RET_ERRNO); [|eexists _, EPERM; split_and!; [done|done|done|]; rewrite Hp; split; [done|tauto]].
    destruct (Z.eqb_spec (Z.land r SECCOMP_RET_DATA_MASK) 0) as [|Hne]; eexists _, _; (split_and!; [done|done| |]).
    + done.
    + rewrite Hp. split; [done|tauto].
    + assert (0 ≤ Z.land r SECCOMP_RET_DATA_MASK) by (apply Z.land_nonneg; by right). lia.
    + assert (0 ≤ Z.land r SECCOMP_RET_DATA_MASK) by (apply Z.land_nonneg; by right). rewrite Hp. split; [lia|tauto].
Qed.

(** ** Reachable states *)

Definition init : state := seccomp_init (State ∅ ∅ ∅ (Stats 0 0 0 0 0) [] 0).

(** [process_create] clears the whole process structure. *)
Inductive step (s : state) : state → Prop :=
| step_spawn a : procs s !! a = None → step s (with_procs <[a := Process a 0 0]> s)
| step_seccomp a operation flags fprog kbuf user p i f : fresh p f s → (∀ g j, user = Some g → in_width (g j)) →
    step s (fst (sys_seccomp a operation flags fprog kbuf user p i f s))
| step_profile a id p i f : fresh p f s → step s (fst (seccomp_load_profile a id p i f s))
| step_remove a : step s (fst (seccomp_remove_filter a s))
| step_check a nr args ip t s' r : seccomp_check a nr args ip t s = Some (s', r) → step s s'.

Definition reachable (s : state) : Prop := rtc step init s.

Lemma init_inv : inv init.
Proof. split; cbn; try done. Qed.

Lemma seccomp_spawn_inv a s : inv s → procs s !! a = None → inv (with_procs <[a := Process a 0 0]> s).
Proof.
  intros Hi Ha. split; cbn; [| |apply (i_prog s Hi)|apply (i_own s Hi)| |apply (i_null s Hi)].
  - intros b pr [[<- <-]|[_ Hb]]%insert_in; [exists []; split; [done|constructor]|by apply (i_chain s Hi b)].
  - intros b c pb pc cb cc f [[<- <-]|[_ Hb]]%insert_in [[<- <-]|[_ Hc]]%insert_in H1 H2 H3 H4; [done| | |by eapply (i_apart s Hi b c)].
    + rewrite (chain_fun _ _ _ [] H1 eq_refl) in H3. by apply elem_of_nil in H3.
    + rewrite (chain_fun _ _ _ [] H2 eq_refl) in H4. by apply elem_of_nil in H4.
  - intros b pr [[<- <-]|[_ Hb]]%insert_in; [left; done|by apply (i_mode s Hi b)].
Qed.

Lemma strict_inv a pr s : inv s → procs s !! a = Some pr → inv (with_procs <[a := set_policy SECCOMP_MODE_STRICT (proc_filter pr) pr]> s).
Proof.
  intros Hi Ha. assert (∀ b pb, <[a := set_policy SECCOMP_MODE_STRICT (proc_filter pr) pr]> (procs s) !! b = Some pb →
    ∃ pb', procs s !! b = Some pb' ∧ proc_filter pb = proc_filter pb') as Hsame.
  { intros b pb [[<- <-]|[_ Hb]]%insert_in; eauto. }
  split; cbn; [| |apply (i_prog s Hi)|apply (i_own s Hi)| |apply (i_null s Hi)].
  - intros b pb (pb' & Hb & ->)%Hsame. by apply (i_chain s Hi b).
  - intros b c pb pc cb cc f (pb' & Hb & ->)%Hsame (pc' & Hc & ->)%Hsame. by eapply (i_apart s Hi b c).
  - intros b pb [[<- <-]|[_ Hb]]%insert_in; [right; left; done|by apply (i_mode s Hi b)].
Qed.

Lemma profile_width id l : profile_insns id = Some l → Forall in_width l ∧ Forall no_wrap l ∧ bpf_prog_validate l = true.
Proof.
  unfold profile_insns. repeat (destruct (_ =? _); [intros [= <-]; split_and!; [by apply (bool_decide_unpack _)|by apply (bool_decide_unpack _)|by vm_compute]|]). done.
Qed.

Lemma create_zero l p i s s' : bpf_prog_create l p i s = (s', 0) → s' = s.
Proof. unfold bpf_prog_create. cbv zeta. destruct (_ || _); [by intros [= <-]|]. destruct (Z.eqb_spec p 0); [by intros [= <-]|]. destruct (i =? 0); [by intros [= <-]|]. by intros [= _ ->]. Qed.

Lemma sys_seccomp_inv a operation flags fprog kbuf user p i f s : inv s → fresh p f s → (∀ g j, user = Some g → in_width (g j)) →
  inv (fst (sys_seccomp a operation flags fprog kbuf user p i f s)).
Proof.
  intros Hi Hf Hu. unfold sys_seccomp. destruct (procs s !! a) as [pr|] eqn:Epr; [|done]. destruct (_ =? _); [by apply strict_inv|]. destruct (_ =? _); [|done].
  destruct fprog as [[len filter]|]; [|done]. destruct (_ || _); [done|]. destruct (_ =? _); [done|]. destruct user as [g|]; [|done]. cbv zeta.
  set (l := g <$> seqZ 0 len). assert (Hl : Forall in_width l) by (apply Forall_fmap, Forall_true; intros j; by apply Hu).
  destruct (bpf_prog_create l p i s) as [s1 prog] eqn:Ec. destruct (Z.eqb_spec prog 0) as [->|Hnz]; [by rewrite (create_zero _ _ _ _ _ Ec)|]. cbv zeta.
  destruct (seccomp_install_filter _ _ _ _ _ _) as [s2 rc] eqn:Ei. destruct (create_install_inv _ _ _ _ _ _ _ _ _ _ _ Hi Hf Hl Ec Hnz Ei) as [(Hr & H & _)|(-> & _ & H & _)]; [|done].
  by rewrite (proj2 (Z.eqb_neq rc 0) Hr).
Qed.

Lemma load_profile_inv a id p i f s : inv s → fresh p f s → inv (fst (seccomp_load_profile a id p i f s)).
Proof.
  intros Hi Hf. unfold seccomp_load_profile. destruct (procs s !! a); [|done]. destruct (profile_insns id) as [l|] eqn:El; [|done].
  destruct (profile_width id l El) as (Hw & _ & _).
  destruct (bpf_prog_create l p i s) as [s1 prog] eqn:Ec. destruct (Z.eqb_spec prog 0) as [->|Hnz]; [by rewrite (create_zero _ _ _ _ _ Ec)|].
  destruct (seccomp_install_filter _ _ _ _ _ _) as [s2 rc] eqn:Ei. destruct (create_install_inv _ _ _ _ _ _ _ _ _ _ _ Hi Hf Hw Ec Hnz Ei) as [(Hr & H & _)|(-> & H & _)]; [|done].
  by rewrite (proj2 (Z.eqb_neq rc 0) Hr).
Qed.

Lemma check_unchanged a nr args ip t s s' r : seccomp_check a nr args ip t s = Some (s', r) → unchanged s s'.
Proof.
  assert (∀ pr nr' s1 r1, seccomp_check_syscall pr nr' args ip t s = Some (s1, r1) → unchanged s s1) as Hc.
  { intros pr nr' s1 r1. unfold seccomp_check_syscall. cbv zeta. destruct (_ =? _); [by intros [= <- <-]|]. destruct (_ =? _); [destruct (strict_allows _); by intros [= <- <-]|].
    destruct (_ =? _); [|by intros [= <- <-]]. destruct (_ =? _); [by intros [= <- <-]|]. destruct (run_filters _ _ _ _ _); [|done]. cbn [mbind option_bind].
    destruct (_ =? _); [by intros [= <- <-]|]. intros [= <- <-]. by destruct (negb _). }
  unfold seccomp_check. destruct (procs s !! a) as [pr|]; [|by intros [= <- <-]]. cbv zeta. destruct (_ =? _); [by intros [= <- <-]|]. destruct (_ && _); [by intros [= <- <-]|].
  destruct (_ && _); [by intros [= <- <-]|]. destruct (seccomp_check_syscall _ _ _ _ _ _) as [[s1 res]|] eqn:E; [|done]. apply Hc in E. cbn [mbind option_bind].
  destruct (_ || _); [by intros [= <- <-]|]. assert (unchanged s (seccomp_handle_violation res s1)) as Hv.
  { unfold seccomp_handle_violation. cbv zeta. destruct (_ =? _); [done|]. by destruct (_ =? _). }
  destruct (_ =? _); [destruct (_ =? _)|]; by intros [= <- <-].
Qed.

Lemma seccomp_step_inv s s' : inv s → step s s' → inv s'.
Proof.
  intros Hi. destruct 1 as [|a operation flags fprog kbuf user p i f Hf Hu|a id p i f Hf|a|a nr args ip t s' r H].
  - by apply seccomp_spawn_inv.
  - by apply sys_seccomp_inv.
  - by apply load_profile_inv.
  - destruct (seccomp_remove_filter a s) as [s' r] eqn:E. by eapply remove_inv.
  - apply check_unchanged in H as (E1 & E2 & E3). by apply (inv_same s).
Qed.

Lemma seccomp_reachable_inv s : reachable s → inv s.
Proof. unfold reachable. intros H. pose proof init_inv as H0. revert H0. induction H as [|? ? ? H1 _ IH]; [done|]. intros H0. apply IH. by eapply seccomp_step_inv. Qed.

(** ** What installing a filter changes *)









(** Actions strictly between LOG and ALLOW are not defined; programs do not
    return them. *)
Definition orderly (l : list bpf_insn) : Prop :=
  Forall (λ insn, cls insn = BPF_RET → act (Some (k insn)) ≤ SECCOMP_RET_LOG ∨ SECCOMP_RET_ALLOW ≤ act (Some (k insn))) l.

#[global] Instance orderly_dec l : Decision (orderly l).
Proof. unfold orderly. apply _. Defined.


(** ** Profiles *)









(** ** Properties *)

(** C33: Validated filter programs run safely and to a decision.  A program that
    passes validation, and whose loads do not end beyond 2^32, reads only the 64
    bytes of its input, stays inside its own instructions, reaches a return
    within the iteration limit, and gives what its decision tree means: the
    constant of one of its return instructions. *)
Theorem bpf_validated_programs_run l data :
  bpf_prog_validate l = true → Forall in_width l → Forall no_wrap l → Z.of_nat (length l) ≤ MAX_BPF_INSNS → length (args data) = 6%nat →
  ∃ r, bpf_prog_run l data = Some r ∧ meaning l data = Some r ∧ ∃ insn, insn ∈ l ∧ cls insn = BPF_RET ∧ k insn = r.
Proof. apply run_meaning. Qed.

(** C34: In every reachable state, with any number of processes that install,
    layer and remove filters and whose calls are checked, and in which no
    instruction of an installed filter is a load whose end wraps around 2^32, the
    hook of the dispatcher answers for every call, changes no policy, and returns
    0 exactly when the policy permits the call: no restriction, or strict mode and
    the call is read, write or exit, or the smallest action over all layers of the
    process is ALLOW or LOG; otherwise it returns a negative error number.  (The
    comments list sigreturn among the calls of strict mode; the code does not.) *)
Theorem seccomp_check_correct s a nr args ip t : reachable s → all_no_wrap s → six args →
  ∃ s' r, seccomp_check a nr args ip t s = Some (s', r) ∧ unchanged s s' ∧ r ≤ 0 ∧ (r = 0 ↔ permitted s a nr args ip).
Proof. intros Hr. apply check_ok. by apply seccomp_reachable_inv. Qed.


(** ** Witnesses *)

Lemma bpf_validated_witness : bpf_prog_run profile_browser (Data 1 AUDIT_ARCH_X86_64 0 (replicate 6 0)) = Some 0x00050001.
Proof.
  destruct (bpf_validated_programs_run profile_browser (Data 1 AUDIT_ARCH_X86_64 0 (replicate 6 0))) as (r & Hrun & _ & _);
    [by vm_compute|by apply (bool_decide_unpack _)|by apply (bool_decide_unpack _)|done|done|]. rewrite Hrun. vm_compute in Hrun. by injection Hrun as <-.
Defined.

(** Process 1 runs the network profile. *)
Definition sandboxed : state := fst (seccomp_load_profile 1 3 100 101 102 (with_procs <[1 := Process 1 0 0]> init)).

Lemma sandboxed_reachable : reachable sandboxed.
Proof.
  eapply rtc_l; [by apply (step_spawn init 1)|]. eapply rtc_l; [|apply rtc_refl]. by apply (step_profile _ 1 3 100 101 102).
Qed.

Lemma seccomp_check_witness : ∃ s' r, seccomp_check 1 7 (replicate 6 0) 0 0 sandboxed = Some (s', r) ∧ unchanged sandboxed s' ∧ r ≤ 0 ∧
  (r = 0 ↔ permitted sandboxed 1 7 (replicate 6 0) 0).
Proof. apply (seccomp_check_correct sandboxed 1 7 (replicate 6 0) 0 0); [apply sandboxed_reachable|apply (bool_decide_unpack _); by vm_compute|done]. Defined.


(** A load whose end wraps around passes validation and reads outside. *)
Example wrapped_load : let l := [BPF_STMT (Z.lor (Z.lor BPF_LD BPF_W) BPF_ABS) 0xfffffffc; RET SECCOMP_RET_ALLOW] in
  bpf_prog_validate l = true ∧ bpf_prog_run l (Data 0 AUDIT_ARCH_X86_64 0 (replicate 6 0)) = None.
Proof. by vm_compute. Qed.

(** A process whose filter forbids writing may write after it enters strict
    mode: strict mode replaces the filters. *)
Definition no_write (i : Z) : bpf_insn :=
  nth (Z.to_nat i) [LOAD_NR; IF_NR 3; RET SECCOMP_RET_KILL; RET SECCOMP_RET_ALLOW] LOAD_NR.

Example strict_mode_widens :
  let s0 := with_procs <[1 := Process 1 0 0]> init in
  let s1 := fst (sys_seccomp 1 SECCOMP_SET_MODE_FILTER 0 (Some (4, 1)) 1 (Some no_write) 100 101 102 s0) in
  let s2 := fst (sys_seccomp 1 SECCOMP_SET_MODE_STRICT 0 None 0 None 0 0 0 s1) in
  snd <$> seccomp_check 1 SYS_WRITE (replicate 6 0) 0 0 s1 = Some EPERM ∧ snd <$> seccomp_check 1 SYS_WRITE (replicate 6 0) 0 0 s2 = Some 0.
Proof. by vm_compute. Qed.

(** A program loaded as a profile keeps a reference after its filter. *)
Example profile_reference_leaks : ref_count <$> progs sandboxed !! 100 = Some 2.
Proof. by vm_compute. Qed.

End SeccompProps.
