(* ===== verification/Capability.v ===== *)
(** * Capabilities (src/kernel/core/capability)

    A capability set is a linked list owned by its process, here the list of its
    nodes from the head.  The type-specific data is a C union: 260 bytes that
    each kind of capability reads in its own way.  Strings are lists of bytes
    without their terminator.  [kmalloc] answers from a stream of booleans; the
    generation counter is global.  Both are threaded by a small state monad. *)

From S2P Require Import Prelude Bytes.

Module Capability.

(** ** Constants of capability.h *)

Definition CAP_NONE : Z := 0.
Definition CAP_FILE_READ : Z := 1.
Definition CAP_FILE_WRITE : Z := 2.
Definition CAP_FILE_EXECUTE : Z := 3.
Definition CAP_FILE_CREATE : Z := 4.
Definition CAP_FILE_DELETE : Z := 5.
Definition CAP_FILE_CHOWN : Z := 6.
Definition CAP_FILE_CHMOD : Z := 7.
Definition CAP_NET_BIND : Z := 10.
Definition CAP_NET_CONNECT : Z := 11.
Definition CAP_NET_RAW : Z := 12.
Definition CAP_NET_LISTEN : Z := 13.
Definition CAP_DEVICE_ACCESS : Z := 20.
Definition CAP_GPU : Z := 21.
Definition CAP_AUDIO : Z := 22.
Definition CAP_USB : Z := 23.
Definition CAP_SERIAL : Z := 24.
Definition CAP_IPC : Z := 30.
Definition CAP_IPC_BROADCAST : Z := 31.
Definition CAP_IPC_RECEIVE : Z := 32.
Definition CAP_SYS_ADMIN : Z := 40.
Definition CAP_SYS_MODULE : Z := 41.
Definition CAP_SYS_TIME : Z := 42.
Definition CAP_SYS_BOOT : Z := 43.
Definition CAP_SYS_PTRACE : Z := 44.
Definition CAP_PROCESS_KILL : Z := 50.
Definition CAP_PROCESS_SETUID : Z := 52.
Definition CAP_PROCESS_SETGID : Z := 53.

Definition CAP_FLAG_INHERITABLE : Z := 0x01.
Definition CAP_FLAG_DELEGATABLE : Z := 0x02.
Definition CAP_FLAG_PERMANENT : Z := 0x04.

Definition CAP_SUCCESS : Z := 0.
Definition CAP_ENOMEM : Z := -2.
Definition CAP_EINVAL : Z := -3.
Definition CAP_EPERM : Z := -4.
Definition CAP_ENOTFOUND : Z := -5.
Definition CAP_EDUP : Z := -6.

(** ** Data *)

(** The characters up to the first NUL. *)
Fixpoint cstring (l : list Z) : list Z :=
  match l with
  | [] => []
  | x :: l => if x =? 0 then [] else x :: cstring l
  end.

(** [strncpy(buf, s, n - 1); buf[n - 1] = 0] on a buffer of [n] zero bytes. *)
Definition fill (n : nat) (s : list Z) : list Z :=
  let s := take (n - 1) (cstring s) in s ++ replicate (n - length s) 0.

(** The union, and its members. *)
Definition sizeof_data : nat := 260.
Definition path_pattern (d : list Z) : list Z := cstring (take 256 d).
Definition host (d : list Z) : list Z := cstring (take 256 d).
Definition port_min (d : list Z) : Z := le_val (take 2 (drop 256 d)).
Definition port_max (d : list Z) : Z := le_val (take 2 (drop 258 d)).
Definition device_id (d : list Z) : Z := le_val (take 4 d).
Definition target_pid (d : list Z) : Z := le_val (take 4 d).

Record capability := Cap { type : Z; flags : Z; ref_count : Z; data : list Z }.
Record capability_set := CapSet { caps : list capability; count : Z; bitmask : Z; generation : Z }.

Definition is_file (t : Z) : bool := (CAP_FILE_READ <=? t) && (t <=? CAP_FILE_CHMOD).
Definition is_net (t : Z) : bool := (CAP_NET_BIND <=? t) && (t <=? CAP_NET_LISTEN).

(** ** Memory and the generation counter *)

Record world := World { global_generation : Z; kmallocs : list bool }.

Definition M (A : Type) : Type := world → A * world.
Definition ret {A} (x : A) : M A := λ w, (x, w).
Definition bind {A B} (m : M A) (f : A → M B) : M B := λ w, let '(x, w) := m w in f x w.

Notation "x <- m ; b" := (bind m (λ x, b)) (at level 100, m at level 99, b at level 200, right associativity) : kernel_scope.
Local Open Scope kernel_scope.
Local Open Scope Z_scope.

(** Whether the next allocation succeeds. *)
Definition kmalloc_ok : M bool := λ w,
  match kmallocs w with
  | [] => (false, w)
  | b :: l => (b, World (global_generation w) l)
  end.

Definition get_generation : M Z := λ w, (global_generation w, w).
Definition bump_generation : M unit := λ w, (tt, World (u32 (global_generation w + 1)) (kmallocs w)).

Definition capability_init : M unit := λ w, (tt, World 1 (kmallocs w)).

(** ** Sets (cap_table.c) *)

Definition capability_set_create : M (option capability_set) :=
  ok <- kmalloc_ok;
  if negb ok then ret None
  else g <- get_generation; ret (Some (CapSet [] 0 0 g)).

(** [capability_destroy]: the references left; the node is freed at 0. *)
Definition capability_destroy (c : capability) : Z := u32 (ref_count c - 1).

Definition capability_set_refresh (set : capability_set) : M capability_set :=
  g <- get_generation;
  if generation set <? g then ret (CapSet (caps set) (count set) (bitmask set) g) else ret set.

(** The test that makes [capability_add] refuse [c] next to [e]. *)
Definition duplicate (c e : capability) : bool :=
  if type e =? type c then
    if is_file (type e) then bool_decide (path_pattern (data e) = path_pattern (data c))
    else if is_net (type e) then
      bool_decide (host (data e) = host (data c)) && (port_min (data e) =? port_min (data c)) && (port_max (data e) =? port_max (data c))
    else true
  else false.

Definition capability_add (set : capability_set) (c : capability) : capability_set * Z :=
  if existsb (duplicate c) (caps set) then (set, CAP_EDUP)
  else
    let bits := if type c <? 64 then Z.lor (bitmask set) (Z.shiftl 1 (type c)) else bitmask set in
    (CapSet (c :: caps set) (u32 (count set + 1)) bits (generation set), CAP_SUCCESS).

Definition has_type (t : Z) (l : list capability) : bool := existsb (λ c, type c =? t) l.

(** The loop unlinks every node of the type and counts each. *)
Fixpoint remove_type (t : Z) (l : list capability) (n : Z) : list capability * Z :=
  match l with
  | [] => ([], n)
  | c :: l =>
      if type c =? t then remove_type t l (u32 (n - 1))
      else let '(l, n) := remove_type t l n in (c :: l, n)
  end.

Definition capability_remove (set : capability_set) (t : Z) : capability_set * Z :=
  let '(l, n) := remove_type t (caps set) (count set) in
  if negb (has_type t (caps set)) then (CapSet l n (bitmask set) (generation set), CAP_ENOTFOUND)
  else
    let bits :=
      if t <? 64 then
        let bits := Z.land (bitmask set) (not64 (Z.shiftl 1 t)) in
        if has_type t l then Z.lor bits (Z.shiftl 1 t) else bits
      else bitmask set in
    (CapSet l n bits (generation set), CAP_SUCCESS).

Definition capability_has (set : capability_set) (t : Z) : M (bool * capability_set) :=
  set <- capability_set_refresh set;
  if t <? 64 then ret (negb (Z.land (bitmask set) (Z.shiftl 1 t) =? 0), set)
  else ret (has_type t (caps set), set).

Definition capability_can_delegate (c : capability) : bool := negb (Z.land (flags c) CAP_FLAG_DELEGATABLE =? 0).

(** [memcpy] of a node; the copy has one reference. *)
Definition copy_of (c : capability) : capability := Cap (type c) (flags c) 1 (data c).

(** Copies of the nodes that pass the test, in the order of the walk; [None]
    when an allocation or an addition fails. *)
Fixpoint copy_all (keep : capability → bool) (l : list capability) (set : capability_set) : M (option capability_set) :=
  match l with
  | [] => ret (Some set)
  | c :: l =>
      if negb (keep c) then copy_all keep l set
      else
        ok <- kmalloc_ok;
        if negb ok then ret None
        else
          let '(set, r) := capability_add set (copy_of c) in
          if negb (r =? CAP_SUCCESS) then ret None else copy_all keep l set
  end.

Definition capability_set_clone (set : capability_set) : M (option capability_set) :=
  new <- capability_set_create;
  match new with
  | None => ret None
  | Some new => copy_all (λ _, true) (caps set) new
  end.

Definition inheritable (inherit_mask : Z) (c : capability) : bool :=
  negb (Z.land (flags c) CAP_FLAG_INHERITABLE =? 0) && ((type c <? 64) && negb (Z.land inherit_mask (Z.shiftl 1 (type c)) =? 0)).

(** A NULL parent gives an empty set. *)
Definition capability_inherit (parent : option capability_set) (inherit_mask : Z) : M (option capability_set) :=
  child <- capability_set_create;
  match parent, child with
  | None, _ | _, None => ret child
  | Some parent, Some child => copy_all (inheritable inherit_mask) (caps parent) child
  end.

(** The pattern is replaced when the new one starts with the old one. *)
Definition capability_restrict (c : capability) (pattern : list Z) : capability * Z :=
  if negb (is_file (type c)) then (c, CAP_EINVAL)
  else
    let old := path_pattern (data c) in
    if negb (bool_decide (take (length old) old = take (length old) pattern)) then (c, CAP_EPERM)
    else (Cap (type c) (flags c) (ref_count c) (fill 256 pattern ++ drop 256 (data c)), CAP_SUCCESS).

(** ** Processes *)

Record process := Process { pid : Z; capabilities : capability_set }.

Definition with_caps (s : capability_set) (p : process) : process := Process (pid p) s.

(** [cap] is the object the caller passes. *)
Definition capability_grant (granter grantee : process) (cap : capability) : M (process * process * Z) :=
  r <- capability_has (capabilities granter) (type cap);
  let granter := with_caps (snd r) granter in
  if negb (fst r) then ret (granter, grantee, CAP_EPERM)
  else if negb (capability_can_delegate cap) then ret (granter, grantee, CAP_EPERM)
  else
    ok <- kmalloc_ok;
    if negb ok then ret (granter, grantee, CAP_ENOMEM)
    else
      let '(set, r) := capability_add (capabilities grantee) (copy_of cap) in
      ret (granter, with_caps set grantee, r).

(** The same when both pointers are to one process: the node is added to the set
    the check has refreshed. *)
Definition capability_grant_self (p : process) (cap : capability) : M (process * Z) :=
  r <- capability_has (capabilities p) (type cap);
  let p := with_caps (snd r) p in
  if negb (fst r) then ret (p, CAP_EPERM)
  else if negb (capability_can_delegate cap) then ret (p, CAP_EPERM)
  else
    ok <- kmalloc_ok;
    if negb ok then ret (p, CAP_ENOMEM)
    else let '(set, r) := capability_add (capabilities p) (copy_of cap) in ret (with_caps set p, r).

Definition capability_revoke (p : process) (t : Z) : M (process * Z) :=
  let '(set, r) := capability_remove (capabilities p) t in
  if r =? CAP_SUCCESS then _ <- bump_generation; ret (with_caps set p, r)
  else ret (with_caps set p, r).

(** The first node of the type decides. *)
Fixpoint find_type (t : Z) (l : list capability) : option capability :=
  match l with
  | [] => None
  | c :: l => if type c =? t then Some c else find_type t l
  end.

Definition capability_delegate (granter grantee : process) (t : Z) (constraint : option (list Z)) : M (process * Z) :=
  match find_type t (caps (capabilities granter)) with
  | None => ret (grantee, CAP_ENOTFOUND)
  | Some c =>
      if Z.land (flags c) CAP_FLAG_DELEGATABLE =? 0 then ret (grantee, CAP_EPERM)
      else
        ok <- kmalloc_ok;
        if negb ok then ret (grantee, CAP_ENOMEM)
        else
          let '(new, r) :=
            match constraint with
            | Some pattern => if is_file t then capability_restrict (copy_of c) pattern else (copy_of c, CAP_SUCCESS)
            | None => (copy_of c, CAP_SUCCESS)
            end in
          if negb (r =? CAP_SUCCESS) then ret (grantee, CAP_EPERM)
          else
            let '(set, r) := capability_add (capabilities grantee) new in
            ret (with_caps set grantee, r)
  end.

Definition capability_kernel_grant (p : process) (cap : capability) : process * Z :=
  let '(set, r) := capability_add (capabilities p) cap in (with_caps set p, r).

(** [capability_global_revoke] only counts. *)
Definition capability_global_revoke : M Z := _ <- bump_generation; ret CAP_SUCCESS.

(** ** Building capabilities (cap_grant.c) *)

Definition made (t fl : Z) (d : list Z) : M (option capability) :=
  ok <- kmalloc_ok; if negb ok then ret None else ret (Some (Cap t fl 1 d)).

Definition no_data : list Z := replicate sizeof_data 0.

Definition capability_create_file (t : Z) (pattern : list Z) (fl : Z) : M (option capability) :=
  if negb (is_file t) then ret None else made t fl (fill 256 pattern ++ replicate 4 0).

Definition capability_create_net (t : Z) (h : list Z) (pmin pmax fl : Z) : M (option capability) :=
  if negb (is_net t) then ret None else made t fl (fill 256 h ++ le_bytes 2 pmin ++ le_bytes 2 pmax).

Definition capability_create_device (id : Z) (class : list Z) (fl : Z) : M (option capability) :=
  made CAP_DEVICE_ACCESS fl (le_bytes 4 id ++ fill 32 class ++ replicate (sizeof_data - 36) 0).

Definition capability_create_ipc (target fl : Z) : M (option capability) :=
  made CAP_IPC fl (le_bytes 4 target ++ replicate (sizeof_data - 4) 0).

Definition capability_create_simple (t fl : Z) : M (option capability) := made t fl no_data.

(** ** Checks (cap_check.c) *)

Definition STAR : Z := 42.

Fixpoint path_matches_pattern (pattern path : list Z) : bool :=
  match pattern with
  | [] => match path with [] => true | _ => false end
  | c :: pattern =>
      if c =? STAR then
        match pattern with
        | [] => true
        | _ =>
            (fix rest (path : list Z) : bool :=
              match path with
              | [] => false
              | _ :: path' => if path_matches_pattern pattern path then true else rest path'
              end) path
        end
      else
        match path with
        | x :: path => if c =? x then path_matches_pattern pattern path else false
        | [] => false
        end
  end.

Definition file_match (path : list Z) (access : Z) (c : capability) : bool :=
  (type c =? access) && path_matches_pattern (path_pattern (data c)) path.

Definition capability_check_file (set : capability_set) (path : list Z) (access : Z) : M (bool * capability_set) :=
  set <- capability_set_refresh set; ret (existsb (file_match path access) (caps set), set).

Definition host_matches_pattern (h pattern : list Z) : bool :=
  if bool_decide (pattern = [STAR]) then true
  else if bool_decide (h = pattern) then true
  else path_matches_pattern pattern h.

Definition port_match (port : Z) (d : list Z) : bool :=
  if port_max d =? 0 then (port_min d =? 0) || (port_min d =? port) else (port_min d <=? port) && (port <=? port_max d).

Definition net_match (h : list Z) (port access : Z) (c : capability) : bool :=
  (type c =? access) && (host_matches_pattern h (host (data c)) && port_match port (data c)).

Definition capability_check_net (set : capability_set) (h : list Z) (port access : Z) : M (bool * capability_set) :=
  set <- capability_set_refresh set; ret (existsb (net_match h port access) (caps set), set).

Definition is_device (t : Z) : bool :=
  (t =? CAP_DEVICE_ACCESS) || (t =? CAP_GPU) || (t =? CAP_AUDIO) || (t =? CAP_USB) || (t =? CAP_SERIAL).

Definition device_match (id : Z) (c : capability) : bool :=
  is_device (type c) && ((device_id (data c) =? 0xFFFFFFFF) || (device_id (data c) =? id)).

Definition capability_check_device (set : capability_set) (id : Z) : M (bool * capability_set) :=
  set <- capability_set_refresh set; ret (existsb (device_match id) (caps set), set).

Definition ipc_match (target : Z) (c : capability) : bool :=
  (type c =? CAP_IPC) && ((target_pid (data c) =? 0) || (target_pid (data c) =? target)).

Definition capability_check_ipc (set : capability_set) (target : Z) : M (bool * capability_set) :=
  set <- capability_set_refresh set;
  r <- capability_has set CAP_IPC_BROADCAST;
  if fst r then ret (true, snd r) else ret (existsb (ipc_match target) (caps (snd r)), snd r).

(** [SYS_EXIT] 0, FORK 1, READ 2, WRITE 3, OPEN 4, CLOSE 5, WAITPID 6, EXECVE 7,
    GETPID 8, SLEEP 9. *)
Definition syscall_check_capability (nr : Z) (set : capability_set) : M (bool * capability_set) :=
  set <- capability_set_refresh set;
  ret (existsb (Z.eqb nr) [2; 3; 4; 1; 0; 8; 5; 6; 7; 9], set).

(** ** Inheritance and defaults (cap_inherit.c) *)

Definition bit (t : Z) : Z := Z.shiftl 1 t.

Definition DEFAULT_INHERIT_MASK : Z :=
  foldr Z.lor 0 (bit <$> [CAP_FILE_READ; CAP_FILE_WRITE; CAP_FILE_EXECUTE; CAP_FILE_CREATE; CAP_NET_BIND; CAP_NET_CONNECT;
    CAP_NET_LISTEN; CAP_IPC; CAP_IPC_RECEIVE]).

(** Evaluating the array of a set's capabilities, then adding them in order. *)
Fixpoint evaluate (l : list (M (option capability))) : M (list (option capability)) :=
  match l with
  | [] => ret []
  | m :: l => c <- m; cs <- evaluate l; ret (c :: cs)
  end.

Definition add_all (set : capability_set) (l : list (option capability)) : capability_set :=
  foldl (λ set c, match c with Some c => fst (capability_add set c) | None => set end) set l.

Definition set_with (l : list (M (option capability))) : M (option capability_set) :=
  set <- capability_set_create;
  match set with
  | None => ret None
  | Some set => cs <- evaluate l; ret (Some (add_all set cs))
  end.

(** The patterns, as bytes. *)
Definition ROOT_ANY : list Z := [47; 42].
Definition TMP_ANY : list Z := [47; 116; 109; 112; 47; 42].
Definition HOME_ANY : list Z := [47; 104; 111; 109; 101; 47; 42].
Definition ANY : list Z := [42].
Definition ALL : list Z := [97; 108; 108].

Definition init_flags : Z := Z.lor (Z.lor CAP_FLAG_PERMANENT CAP_FLAG_INHERITABLE) CAP_FLAG_DELEGATABLE.
Definition admin_flags : Z := Z.lor CAP_FLAG_PERMANENT CAP_FLAG_DELEGATABLE.

Definition capability_create_init_set : M (option capability_set) :=
  set_with
    [capability_create_file CAP_FILE_READ ROOT_ANY init_flags; capability_create_file CAP_FILE_WRITE ROOT_ANY init_flags;
     capability_create_file CAP_FILE_EXECUTE ROOT_ANY init_flags; capability_create_file CAP_FILE_CREATE ROOT_ANY init_flags;
     capability_create_file CAP_FILE_DELETE ROOT_ANY init_flags; capability_create_net CAP_NET_BIND ANY 0 65535 init_flags;
     capability_create_net CAP_NET_CONNECT ANY 0 65535 init_flags; capability_create_device 0xFFFFFFFF ALL init_flags;
     capability_create_simple CAP_IPC_BROADCAST init_flags; capability_create_simple CAP_SYS_ADMIN admin_flags;
     capability_create_simple CAP_SYS_MODULE admin_flags; capability_create_simple CAP_PROCESS_KILL admin_flags].

Definition capability_create_user_set : M (option capability_set) :=
  set_with
    [capability_create_file CAP_FILE_READ TMP_ANY CAP_FLAG_INHERITABLE; capability_create_file CAP_FILE_WRITE TMP_ANY CAP_FLAG_INHERITABLE;
     capability_create_file CAP_FILE_READ HOME_ANY CAP_FLAG_INHERITABLE; capability_create_file CAP_FILE_WRITE HOME_ANY CAP_FLAG_INHERITABLE;
     capability_create_net CAP_NET_CONNECT ANY 80 443 CAP_FLAG_INHERITABLE; capability_create_simple CAP_IPC_RECEIVE CAP_FLAG_INHERITABLE].

Definition capability_inherit_from_parent (parent : option capability_set) : M (option capability_set) :=
  capability_inherit parent DEFAULT_INHERIT_MASK.

Definition BIN : list Z := [47; 98; 105; 110; 47].
Definition SBIN : list Z := [47; 115; 98; 105; 110; 47].

(** [strncmp(path, prefix, strlen(prefix)) == 0] *)
Definition starts_with (prefix path : list Z) : bool := bool_decide (take (length prefix) path = prefix).

Definition capability_reset_for_exec (executable_path : list Z) : M (option capability_set) :=
  set_with
    (if starts_with BIN executable_path || starts_with SBIN executable_path then
       [capability_create_file CAP_FILE_READ ROOT_ANY CAP_FLAG_INHERITABLE; capability_create_file CAP_FILE_WRITE TMP_ANY CAP_FLAG_INHERITABLE;
        capability_create_net CAP_NET_CONNECT ANY 0 65535 CAP_FLAG_INHERITABLE; capability_create_simple CAP_IPC_RECEIVE CAP_FLAG_INHERITABLE]
     else
       [capability_create_file CAP_FILE_READ TMP_ANY CAP_FLAG_INHERITABLE; capability_create_file CAP_FILE_WRITE TMP_ANY CAP_FLAG_INHERITABLE;
        capability_create_file CAP_FILE_READ HOME_ANY CAP_FLAG_INHERITABLE; capability_create_net CAP_NET_CONNECT ANY 80 443 CAP_FLAG_INHERITABLE]).

Definition privileged : list Z :=
  [CAP_SYS_ADMIN; CAP_SYS_MODULE; CAP_SYS_TIME; CAP_SYS_BOOT; CAP_SYS_PTRACE; CAP_PROCESS_KILL; CAP_PROCESS_SETUID; CAP_PROCESS_SETGID].

Definition capability_drop_privileged (set : capability_set) : capability_set :=
  foldl (λ set t, fst (capability_remove set t)) set privileged.

(** [capability_elevate_privileged]: always refused. *)
Definition capability_elevate_privileged (set : capability_set) : capability_set * Z := (set, CAP_EPERM).

Definition capability_revoke_all : M (option capability_set) :=
  set <- capability_set_create; _ <- bump_generation; ret set.

End Capability.
