(* ===== verification/CapabilityProps.v ===== *)
(** * Capabilities: theorems

    Sets stay consistent under every operation, patterns mean globs, and no
    operation on sets makes authority out of nothing. *)

From S2P Require Import Prelude Bytes Capability.

Module CapabilityProps.
Import Capability.

(** ** Patterns *)

(** The language of a pattern: a star stands for any sequence. *)
Inductive glob : list Z → list Z → Prop :=
| glob_nil : glob [] []
| glob_char c p s : c ≠ STAR → glob p s → glob (c :: p) (c :: s)
| glob_skip p s : glob p s → glob (STAR :: p) s
| glob_eat p x s : glob (STAR :: p) s → glob (STAR :: p) (x :: s).

(** No two stars side by side. *)
Fixpoint single_stars (p : list Z) : bool :=
  match p with
  | [] => true
  | c :: q => match q with d :: _ => negb ((c =? STAR) && (d =? STAR)) | [] => true end && single_stars q
  end.

(** The loop after a star: the rest matches some suffix that is not empty. *)
Definition after_star (f : list Z → bool) : list Z → bool :=
  fix rest s := match s with
  | [] => false
  | _ :: s' => if f s then true else rest s'
  end.

Lemma after_star_ok f s : after_star f s = true ↔ ∃ s1 s2, s = s1 ++ s2 ∧ s2 ≠ [] ∧ f s2 = true.
Proof.
  induction s as [|x s IH]; cbn [after_star].
  - split; [done|]. intros (s1 & s2 & E & Hne & _). symmetry in E. apply app_eq_nil in E as [_ ->]. done.
  - destruct (f (x :: s)) eqn:E; [split; [|done]; intros _; by exists [], (x :: s)|]. rewrite IH. split.
    + intros (s1 & s2 & -> & H1 & H2). by exists (x :: s1), s2.
    + intros ([|y s1] & s2 & E' & H1 & H2); [cbn in E'; subst s2; congruence|]. injection E' as -> ->. by exists s1, s2.
Qed.

Lemma match_star d p s : path_matches_pattern (STAR :: d :: p) s = true ↔ ∃ s1 s2, s = s1 ++ s2 ∧ s2 ≠ [] ∧ path_matches_pattern (d :: p) s2 = true.
Proof. exact (after_star_ok (path_matches_pattern (d :: p)) s). Qed.

Lemma glob_suffix p s1 s2 : glob p s2 → glob (STAR :: p) (s1 ++ s2).
Proof. intros H. induction s1 as [|x s1 IH]; cbn; [by apply glob_skip|by apply glob_eat]. Qed.

Lemma glob_star_inv p s : glob (STAR :: p) s → ∃ s1 s2, s = s1 ++ s2 ∧ glob p s2.
Proof.
  intros H. remember (STAR :: p) as q eqn:E. induction H as [| | |q x s H IH]; [done| | |].
  - injection E as -> ->. done.
  - injection E as ->. by exists [], s.
  - destruct (IH E) as (s1 & s2 & -> & Hg). by exists (x :: s1), s2.
Qed.

Lemma match_sound p s : path_matches_pattern p s = true → glob p s.
Proof.
  revert s. induction p as [|c p IH]; intros s H; [destruct s; [constructor|done]|]. destruct (Z.eqb_spec c STAR) as [->|Hc].
  - destruct p as [|d p]. { rewrite <- (app_nil_r s). apply glob_suffix. constructor. }
    apply match_star in H as (s1 & s2 & -> & _ & H). apply glob_suffix. by apply IH.
  - cbn in H. rewrite (proj2 (Z.eqb_neq c STAR) Hc) in H. destruct s as [|x s]; [done|]. destruct (Z.eqb_spec c x) as [->|]; [|done]. apply glob_char; [done|by apply IH].
Qed.

Lemma match_complete p s : single_stars p = true → glob p s → path_matches_pattern p s = true.
Proof.
  revert s. induction p as [|c p IH]; intros s Hp H; [by inversion H|]. destruct (Z.eqb_spec c STAR) as [->|Hc].
  - apply glob_star_inv in H as (s1 & s2 & -> & H). destruct p as [|d p]; [done|]. apply andb_prop in Hp as [Hd Hp]. change (STAR =? STAR) with true in Hd. cbn in Hd.
    apply negb_true_iff, Z.eqb_neq in Hd. apply match_star. exists s1, s2. split_and!; [done| |by apply IH]. intros ->. inversion H; congruence.
  - apply andb_prop in Hp as [_ Hp].
    inversion H as [|c' p' s' _ Hg| |]; subst; [|done|done]. cbn. rewrite (proj2 (Z.eqb_neq c STAR) Hc), Z.eqb_refl. by apply IH.
Qed.

(** What follows a star only restricts. *)
Lemma match_more p x s : path_matches_pattern (p ++ STAR :: x) s = true → path_matches_pattern (p ++ [STAR]) s = true.
Proof.
  revert s. induction p as [|c p IH]; intros s H; [done|]. cbn [app] in *. destruct (Z.eqb_spec c STAR) as [->|Hc].
  - destruct (p ++ STAR :: x) as [|d q] eqn:E1; [by destruct p|]. destruct (p ++ [STAR]) as [|d' q'] eqn:E2; [by destruct p|].
    apply match_star in H as (s1 & s2 & -> & Hne & H). apply match_star. exists s1, s2. auto.
  - cbn [path_matches_pattern] in *. rewrite (proj2 (Z.eqb_neq c STAR) Hc) in *. destruct s as [|y s]; [done|]. destruct (c =? y); [auto|done].
Qed.

(** ** Strings in the union *)

Lemma cstring_nz l : Forall (λ x, x ≠ 0) (cstring l).
Proof. induction l as [|x l IH]; cbn; [constructor|]. destruct (Z.eqb_spec x 0); [constructor|by constructor]. Qed.

Lemma cstring_id l k : Forall (λ x, x ≠ 0) l → cstring (l ++ 0 :: k) = l.
Proof. induction 1 as [|x l Hx _ IH]; [done|]. cbn. rewrite (proj2 (Z.eqb_neq x 0) Hx). by rewrite IH. Qed.

Lemma cstring_prefix l : ∃ k, l = cstring l ++ k.
Proof. induction l as [|x l [k IH]]; [by exists []|]. cbn. destruct (x =? 0); [by exists (x :: l)|]. exists k. cbn. by rewrite <- IH. Qed.

Lemma length_fill n s : (0 < n)%nat → length (fill n s) = n.
Proof. intros Hn. unfold fill. rewrite length_app, length_replicate, length_take. lia. Qed.

(** A string written into its buffer reads back, truncated. *)
Lemma path_pattern_fill s r : path_pattern (fill 256 s ++ r) = take 255 (cstring s).
Proof.
  unfold path_pattern. rewrite take_app_length' by by rewrite length_fill by lia. unfold fill. change (256 - 1)%nat with 255%nat.
  set (t := take 255 (cstring s)). assert (length t ≤ 255)%nat by (unfold t; rewrite length_take; lia).
  replace (256 - length t)%nat with (S (255 - length t)) by lia. cbn [replicate]. apply cstring_id. apply Forall_take, cstring_nz.
Qed.

Lemma length_path_pattern d : (length (path_pattern d) ≤ 256)%nat.
Proof. unfold path_pattern. destruct (cstring_prefix (take 256 d)) as [k E]. apply (f_equal length) in E. rewrite length_app, length_take in E. lia. Qed.

(** ** Consistent sets *)

Definition cap_ok (c : capability) : Prop := 0 ≤ type c < 2 ^ 32 ∧ (is_file (type c) = true → (length (path_pattern (data c)) ≤ 255)%nat).

(** No node repeats a later one. *)
Fixpoint distinct (l : list capability) : Prop :=
  match l with
  | [] => True
  | c :: l => existsb (duplicate c) l = false ∧ distinct l
  end.

Record wf (set : capability_set) : Prop := {
  w_count : count set = u32 (Z.of_nat (length (caps set)));
  w_bits t : 0 ≤ t < 64 → Z.testbit (bitmask set) t = has_type t (caps set);
  w_range : 0 ≤ bitmask set < 2 ^ 64;
  w_caps : Forall cap_ok (caps set);
  w_distinct : distinct (caps set) }.

Lemma u32_add a b : u32 (u32 a + b) = u32 (a + b).
Proof. unfold u32. by rewrite Zplus_mod_idemp_l. Qed.

Lemma empty_wf g : wf (CapSet [] 0 0 g).
Proof. split; cbn; [done|intros; apply Z.bits_0|lia|constructor|done]. Qed.

Lemma regen_wf set g : wf set → wf (CapSet (caps set) (count set) (bitmask set) g).
Proof. intros []. by split. Qed.

Lemma lor_range a b n : 0 ≤ n → 0 ≤ a < 2 ^ n → 0 ≤ b < 2 ^ n → 0 ≤ Z.lor a b < 2 ^ n.
Proof.
  intros Hn Ha Hb. assert (0 ≤ Z.lor a b) by (apply Z.lor_nonneg; lia). split; [done|]. apply bits_bound; [done| |done].
  intros i Hi. rewrite Z.lor_spec, (testbit_high a n), (testbit_high b n) by done. done.
Qed.

Lemma shiftl_range t : 0 ≤ t < 64 → 0 ≤ Z.shiftl 1 t < 2 ^ 64.
Proof. intros Ht. rewrite Z.shiftl_1_l. split; [lia|]. apply Z.pow_lt_mono_r; lia. Qed.

Lemma add_wf set c : wf set → cap_ok c → wf (fst (capability_add set c)).
Proof.
  intros [H1 H2 H3 H4 H5] Hc. unfold capability_add. destruct (existsb _ _) eqn:E; [by split|]. split; cbn [fst caps count bitmask].
  - rewrite H1, u32_add. f_equal. cbn [length]. lia.
  - intros t Ht. change (has_type t (c :: caps set)) with ((type c =? t) || has_type t (caps set)). rewrite <- (H2 t Ht). destruct Hc as [Hty _]. destruct (Z.ltb_spec (type c) 64).
    + rewrite Z.lor_spec, shiftl_1_bit by lia. rewrite orb_comm, (Z.eqb_sym t). done.
    + rewrite (proj2 (Z.eqb_neq (type c) t)) by lia. done.
  - destruct (Z.ltb_spec (type c) 64); [|done]. apply lor_range; [lia|done|]. apply shiftl_range. destruct Hc. lia.
  - by constructor.
  - done.
Qed.

Lemma remove_type_spec t l n : remove_type t l n = (filter (λ c, type c ≠ t) l, u32 (n - (Z.of_nat (length l) - Z.of_nat (length (filter (λ c, type c ≠ t) l))))) ∨
  remove_type t l n = (filter (λ c, type c ≠ t) l, n) ∧ filter (λ c, type c ≠ t) l = l.
Proof.
  revert n. induction l as [|c l IH]; intros n; [by right|]. cbn [remove_type]. rewrite filter_cons. destruct (Z.eqb_spec (type c) t) as [->|Hne].
  - rewrite decide_False by tauto. left. destruct (IH (u32 (n - 1))) as [->|[-> E]].
    + f_equal. unfold Z.sub at 1. rewrite u32_add. f_equal. cbn [length]. lia.
    + rewrite E. f_equal. f_equal. cbn [length]. lia.
  - rewrite decide_True by done. destruct (IH n) as [->|[-> E]].
    + left. f_equal. cbn [length]. f_equal. lia.
    + right. by rewrite E.
Qed.

Lemma has_type_filter t t' l : has_type t (filter (λ c, type c ≠ t') l) = has_type t l && negb (t =? t').
Proof.
  induction l as [|c l IH]; [done|]. rewrite filter_cons. change (has_type t (c :: l)) with ((type c =? t) || has_type t l).
  destruct (decide (type c ≠ t')) as [Hne|He].
  - change (has_type t (c :: filter (λ c, type c ≠ t') l)) with ((type c =? t) || has_type t (filter (λ c, type c ≠ t') l)). rewrite IH.
    destruct (Z.eqb_spec (type c) t) as [<-|]; [|done]. by rewrite (proj2 (Z.eqb_neq _ _) Hne).
  - rewrite IH. assert (type c = t') as -> by (destruct (decide (type c = t')); [done|tauto]). destruct (Z.eqb_spec t' t) as [->|]; [|done].
    rewrite Z.eqb_refl. cbn. by rewrite andb_false_r.
Qed.

Lemma existsb_filter {A} (f : A → bool) (P : A → Prop) `{∀ x, Decision (P x)} l : existsb f l = false → existsb f (filter P l) = false.
Proof.
  intros Hf. apply not_true_iff_false. intros (x & [_ Hx]%list_elem_of_In%list_elem_of_filter & Hfx)%existsb_exists. apply not_true_iff_false in Hf.
  apply Hf, existsb_exists. exists x. by rewrite <- list_elem_of_In.
Qed.

Lemma distinct_filter (P : capability → Prop) `{∀ x, Decision (P x)} l : distinct l → distinct (filter P l).
Proof.
  induction l as [|c l IH]; [done|]. intros [H1 H2]. rewrite filter_cons. destruct (decide (P c)); [|by apply IH]. split; [by apply existsb_filter|by apply IH].
Qed.

Lemma has_type_true t l : has_type t l = true ↔ ∃ c, c ∈ l ∧ type c = t.
Proof. unfold has_type. rewrite existsb_exists. split; intros (c & H1 & H2); exists c; rewrite list_elem_of_In in *; rewrite Z.eqb_eq in *; done. Qed.

(** Removing a type keeps the rest, in order. *)
Lemma remove_wf set t : 0 ≤ t → wf set → wf (fst (capability_remove set t)) ∧ caps (fst (capability_remove set t)) = filter (λ c, type c ≠ t) (caps set).
Proof.
  intros Ht0 [H1 H2 H3 H4 H5]. unfold capability_remove. pose proof (remove_type_spec t (caps set) (count set)) as Hspec.
  destruct (remove_type t (caps set) (count set)) as [l n] eqn:E. assert (l = filter (λ c, type c ≠ t) (caps set)) as -> by (by destruct Hspec as [[= -> _]|[[= -> _] _]]).
  set (l := filter _ _) in *. assert (Hn : n = u32 (Z.of_nat (length l))).
  { destruct Hspec as [[= ->]|[[= ->] El]]; [|by rewrite El]. rewrite H1. unfold Z.sub at 1. rewrite u32_add. f_equal. lia. }
  assert (Hbits : ∀ u, 0 ≤ u < 64 → has_type u l = Z.testbit (bitmask set) u && negb (u =? t)) by (intros u Hu; unfold l; by rewrite has_type_filter, H2).
  assert (Hok : Forall cap_ok l) by (apply Forall_forall; intros c [_ Hc]%list_elem_of_filter; by apply (proj1 (Forall_forall _ _) H4)).
  assert (Hd : distinct l) by by apply distinct_filter. destruct (has_type t (caps set)) eqn:Eh; cbn [negb fst caps].
  - split; [|done]. destruct (Z.ltb_spec t 64).
    + assert (has_type t l = false) as -> by (rewrite Hbits, Z.eqb_refl by lia; by rewrite andb_false_r).
      split; cbn [caps count bitmask generation]; [done| |split; [apply Z.land_nonneg; left; lia|]|done|done].
      * intros u Hu. rewrite Hbits by done. rewrite Z.land_spec, not64_spec, shiftl_1_bit by (lia || by apply shiftl_range).
        rewrite (proj2 (Z.ltb_lt u 64)) by lia. done.
      * apply bits_bound; [lia| |apply Z.land_nonneg; left; lia]. intros i Hi. by rewrite Z.land_spec, (testbit_high (bitmask set) 64).
    + split; cbn [caps count bitmask generation]; [done| |done|done|done]. intros u Hu. rewrite Hbits by done. rewrite (proj2 (Z.eqb_neq u t)) by lia. by rewrite andb_true_r.
  - split; [|done]. split; cbn [caps count bitmask generation]; [done| |done|done|done]. intros u Hu. rewrite Hbits by done. destruct (Z.eqb_spec u t) as [->|]; [|by rewrite andb_true_r].
    rewrite (H2 t Hu). by rewrite Eh.
Qed.

(** ** Copies *)

Lemma create_run w o w' : capability_set_create w = (o, w') → global_generation w' = global_generation w ∧ (o = None ∨ ∃ g, o = Some (CapSet [] 0 0 g)).
Proof.
  unfold capability_set_create, bind, kmalloc_ok, ret, get_generation. destruct (kmallocs w) as [|[] l]; cbn; intros [= <- <-]; eauto.
Qed.

Lemma duplicate_sym c e : duplicate c e = duplicate e c.
Proof.
  unfold duplicate. rewrite (Z.eqb_sym (type e)). destruct (Z.eqb_spec (type c) (type e)) as [->|]; [|done]. destruct (is_file _); [by apply bool_decide_ext|].
  destruct (is_net _); [|done]. f_equal; [f_equal; [by apply bool_decide_ext|apply Z.eqb_sym]|apply Z.eqb_sym].
Qed.

Lemma add_fail set c : snd (capability_add set c) ≠ CAP_SUCCESS → fst (capability_add set c) = set.
Proof. unfold capability_add. by destruct (existsb _ _). Qed.

Lemma add_caps set c : snd (capability_add set c) = CAP_SUCCESS → caps (fst (capability_add set c)) = c :: caps set.
Proof. unfold capability_add. by destruct (existsb _ _). Qed.

Lemma copy_all_spec keep l set w w' s' : wf set → Forall cap_ok l → copy_all keep l set w = (Some s', w') →
  wf s' ∧ caps s' = rev (copy_of <$> filter (λ c, keep c = true) l) ++ caps set.
Proof.
  revert set w. induction l as [|c l IH]; intros set w Hs Hl; cbn [copy_all]; [by intros [= <- <-]|]. apply Forall_cons in Hl as [Hc Hl]. rewrite filter_cons.
  destruct (keep c) eqn:Ek; cbn [negb]; [rewrite decide_True by done|rewrite decide_False by done; by apply IH].
  unfold bind. destruct (kmalloc_ok w) as [[] w1]; cbn [negb]; [|done]. pose proof (add_wf set (copy_of c) Hs Hc) as Hw. pose proof (add_caps set (copy_of c)) as Hcs.
  destruct (capability_add set (copy_of c)) as [s1 r]. cbn in Hw, Hcs. destruct (Z.eqb_spec r CAP_SUCCESS) as [->|]; cbn [negb]; [|done].
  intros H. apply IH in H as [H1 H2]; [|done|done]. split; [done|]. rewrite H2, Hcs by done. cbn [fmap list_fmap rev]. by rewrite <- app_assoc.
Qed.

Lemma duplicate_copy c e : duplicate c (copy_of e) = duplicate c e.
Proof. done. Qed.

(** Copying into a set without a duplicate only fails for lack of memory. *)
Lemma copy_all_total keep l set w : distinct l → (∀ c, c ∈ l → existsb (duplicate c) (caps set) = false) →
  Forall (λ b, b = true) (kmallocs w) → (length l ≤ length (kmallocs w))%nat → ∃ s' w', copy_all keep l set w = (Some s', w').
Proof.
  revert set w. induction l as [|c l IH]; intros set w Hd Hn Hk Hlen; cbn [copy_all]; [by eexists _, _|]. destruct Hd as [Hc Hd]. destruct (keep c); cbn [negb].
  - unfold bind, kmalloc_ok. destruct (kmallocs w) as [|b ks]; cbn in Hlen; [lia|]. apply Forall_cons in Hk as [-> Hk]. cbn [negb]. unfold capability_add.
    change (duplicate (copy_of c)) with (duplicate c). rewrite (Hn c) by left. cbn [negb Z.eqb CAP_SUCCESS]. apply IH; [done| |done|cbn; lia]. intros e He.
    cbn [caps existsb]. rewrite (Hn e) by by right. rewrite duplicate_copy, duplicate_sym, orb_false_r.
    destruct (duplicate c e) eqn:E; [|done]. assert (existsb (duplicate c) l = true) by (apply existsb_exists; exists e; by rewrite <- list_elem_of_In). congruence.
  - apply IH; [done| |done|cbn in Hlen; lia]. intros e He. apply Hn. by right.
Qed.

(** ** Rights *)

Inductive right :=
| FileRight (access : Z) (path : list Z)
| NetRight (access : Z) (h : list Z) (port : Z)
| DeviceRight (id : Z)
| IpcRight (target : Z)
| TypeRight (t : Z).

Definition gives (r : right) (c : capability) : bool :=
  match r with
  | FileRight access path => is_file access && file_match path access c
  | NetRight access h port => is_net access && net_match h port access c
  | DeviceRight id => device_match id c
  | IpcRight target => (type c =? CAP_IPC_BROADCAST) || ipc_match target c
  | TypeRight t => type c =? t
  end.

Definition may (set : capability_set) (r : right) : bool := existsb (gives r) (caps set).

Lemma may_true set r : may set r = true ↔ ∃ c, c ∈ caps set ∧ gives r c = true.
Proof. unfold may. rewrite existsb_exists. by setoid_rewrite list_elem_of_In. Qed.

Lemma existsb_orb {A} (f g : A → bool) l : existsb (λ x, f x || g x) l = existsb f l || existsb g l.
Proof. induction l as [|x l IH]; [done|]. cbn. rewrite IH. by destruct (f x), (g x), (existsb f l). Qed.

Lemma existsb_same {A} (f g : A → bool) l : (∀ x, f x = g x) → existsb f l = existsb g l.
Proof. intros H. induction l as [|x l IH]; [done|]. cbn. by rewrite H, IH. Qed.

Lemma refresh_run set w : ∃ g, capability_set_refresh set w = (CapSet (caps set) (count set) (bitmask set) g, w).
Proof. unfold capability_set_refresh, bind, get_generation, ret. destruct (_ <? _); [by eexists|]. destruct set. by eexists. Qed.

Lemma has_run set t w : wf set → 0 ≤ t → ∃ g, capability_has set t w = ((has_type t (caps set), CapSet (caps set) (count set) (bitmask set) g), w).
Proof.
  intros Hs Ht. unfold capability_has, bind. destruct (refresh_run set w) as [g ->]. exists g. cbn [bitmask caps]. destruct (Z.ltb_spec t 64); [|done]. unfold ret. do 3 f_equal.
  rewrite <- (w_bits set Hs) by lia. destruct (Z.eqb_spec (Z.land (bitmask set) (Z.shiftl 1 t)) 0) as [E|E]; cbn [negb].
  - apply (f_equal (λ z, Z.testbit z t)) in E. rewrite Z.land_spec, shiftl_1_bit, Z.eqb_refl, andb_true_r, Z.bits_0 in E by lia. done.
  - destruct (Z.testbit (bitmask set) t) eqn:Eb; [done|]. exfalso. apply E. apply Z.bits_inj'. intros n Hn. rewrite Z.land_spec, shiftl_1_bit, Z.bits_0 by lia.
    destruct (Z.eqb_spec n t) as [->|]; [by rewrite Eb|by rewrite andb_false_r].
Qed.

(** ** Attenuation *)

Lemma gives_copy r c : gives r (copy_of c) = gives r c.
Proof. by destruct r. Qed.

(** The pattern ends in a star. *)
Definition open_ended (c : capability) : Prop := ∃ p, path_pattern (data c) = p ++ [STAR].

Lemma restrict_gives c pattern c' r : cap_ok c → open_ended c → cstring pattern = pattern → capability_restrict c pattern = (c', CAP_SUCCESS) →
  cap_ok c' ∧ (gives r c' = true → gives r c = true).
Proof.
  intros [Hty Hlen] [p Hp] Hz. unfold capability_restrict. destruct (is_file (type c)) eqn:Ef; cbn [negb]; [|done]. specialize (Hlen eq_refl).
  destruct (bool_decide_reflect (take (length (path_pattern (data c))) (path_pattern (data c)) = take (length (path_pattern (data c))) pattern)) as [Hpre|]; cbn [negb]; [|done].
  intros [= <-]. rewrite take_ge in Hpre by done.
  assert (∃ x, path_pattern (fill 256 pattern ++ drop 256 (data c)) = p ++ STAR :: x) as [x Hnew].
  { rewrite path_pattern_fill, Hz. rewrite <- (take_drop (length (path_pattern (data c))) pattern), <- Hpre. rewrite take_app_ge by done.
    rewrite Hp. rewrite <- app_assoc. eexists. done. }
  split.
  - split; [done|]. intros _. cbn [data]. rewrite path_pattern_fill, length_take. lia.
  - destruct r as [access path|access h port|id|target|u]; cbn [gives type data].
    + intros [Ha Hm]%andb_prop. rewrite Ha. unfold file_match in *. cbn [type data] in Hm. apply andb_prop in Hm as [Ht Hm]. rewrite Ht. cbn [andb].
      rewrite Hnew in Hm. rewrite Hp. by eapply match_more.
    + intros [Ha Hm]%andb_prop. unfold net_match in Hm. cbn [type] in Hm. apply andb_prop in Hm as [Ht%Z.eqb_eq _]. rewrite Ht in Ef.
      unfold is_file, is_net, CAP_FILE_CHMOD, CAP_NET_BIND in *. apply andb_prop in Ef as [_ Ef%Z.leb_le]. apply andb_prop in Ha as [Ha%Z.leb_le _]. lia.
    + unfold device_match, is_device. cbn [type]. intros [Ha _]%andb_prop. exfalso. unfold is_file, CAP_FILE_CHMOD in Ef. apply andb_prop in Ef as [_ Ef%Z.leb_le].
      repeat (apply orb_prop in Ha as [Ha|Ha]); apply Z.eqb_eq in Ha; unfold CAP_DEVICE_ACCESS, CAP_GPU, CAP_AUDIO, CAP_USB, CAP_SERIAL in *; lia.
    + unfold ipc_match. cbn [type]. intros [Ha%Z.eqb_eq|[Ha%Z.eqb_eq _]%andb_prop]%orb_prop; exfalso; unfold is_file, CAP_FILE_CHMOD in Ef; apply andb_prop in Ef as [_ Ef%Z.leb_le];
        unfold CAP_IPC_BROADCAST, CAP_IPC in *; lia.
    + done.
Qed.

Lemma find_type_in t l c : find_type t l = Some c → c ∈ l ∧ type c = t.
Proof. induction l as [|e l IH]; cbn; [done|]. destruct (Z.eqb_spec (type e) t) as [E|]; [intros [= ->]; split; [left|done]|]. intros [H1 H2]%IH. split; [by right|done]. Qed.

Lemma add_may set c r : may (fst (capability_add set c)) r = true → may set r = true ∨ gives r c = true.
Proof. unfold capability_add. destruct (existsb (duplicate c) _); [by left|]. unfold may. cbn. intros [H|H]%orb_prop; auto. Qed.

(** ** The sets the kernel builds *)

Lemma restrict_ok c pattern c' r : cap_ok c → capability_restrict c pattern = (c', r) → cap_ok c' ∧ type c' = type c.
Proof.
  intros Hc. unfold capability_restrict. destruct (negb _); [by intros [= <- <-]|]. destruct (negb _); [by intros [= <- <-]|]. intros [= <- <-]. destruct Hc as [Ht _].
  split; [|done]. split; [done|]. intros _. cbn [data]. rewrite path_pattern_fill, length_take. lia.
Qed.

Definition builds_ok (m : M (option capability)) : Prop := ∀ w c w', m w = (Some c, w') → cap_ok c.

Lemma made_ok t fl d : cap_ok (Cap t fl 1 d) → builds_ok (made t fl d).
Proof. intros Hc w c w'. unfold made, bind, ret. destruct (kmalloc_ok w) as [[] w1]; cbn [negb]; [by intros [= <- <-]|done]. Qed.

Lemma file_ok t pattern fl : builds_ok (capability_create_file t pattern fl).
Proof.
  unfold capability_create_file. destruct (is_file t) eqn:E; cbn [negb]; [|intros w c w'; done]. apply made_ok. split; cbn [type data].
  - unfold is_file, CAP_FILE_READ, CAP_FILE_CHMOD in E. apply andb_prop in E as [?%Z.leb_le ?%Z.leb_le]. lia.
  - intros _. rewrite path_pattern_fill, length_take. lia.
Qed.

Lemma net_ok t h a b fl : builds_ok (capability_create_net t h a b fl).
Proof.
  unfold capability_create_net. destruct (is_net t) eqn:E; cbn [negb]; [|intros w c w'; done]. apply made_ok.
  unfold is_net, CAP_NET_BIND, CAP_NET_LISTEN in E. apply andb_prop in E as [?%Z.leb_le ?%Z.leb_le]. split; cbn [type data]; [lia|].
  intros [_ ?%Z.leb_le]%andb_prop. unfold CAP_FILE_CHMOD in *. lia.
Qed.

Lemma device_ok id class fl : builds_ok (capability_create_device id class fl).
Proof. apply made_ok. split; cbn [type]; [unfold CAP_DEVICE_ACCESS; lia|done]. Qed.

Lemma simple_ok t fl : 0 ≤ t < 2 ^ 32 → builds_ok (capability_create_simple t fl).
Proof. intros Ht. apply made_ok. split; [done|]. intros _. cbn [data]. vm_compute. lia. Qed.

Lemma add_all_wf set l : wf set → Forall (λ o, ∀ c, o = Some c → cap_ok c) l → wf (add_all set l).
Proof.
  intros Hs Hl. revert set Hs. induction Hl as [|[c|] l Hc _ IH]; intros set Hs; [done| |by apply IH]. apply IH. apply add_wf; [done|by apply Hc].
Qed.

Lemma evaluate_ok l w cs w' : Forall builds_ok l → evaluate l w = (cs, w') → Forall (λ o, ∀ c, o = Some c → cap_ok c) cs.
Proof.
  intros Hl. revert w cs. induction Hl as [|m l Hm _ IH]; intros w cs; cbn [evaluate]; [intros [= <- <-]; constructor|]. unfold bind. destruct (m w) as [o w1] eqn:Em.
  destruct (evaluate l w1) as [cs1 w2] eqn:El. intros [= <- <-]. constructor; [intros c ->; by eapply Hm|by eapply IH].
Qed.

Lemma set_with_wf l w set w' : Forall builds_ok l → set_with l w = (Some set, w') → wf set.
Proof.
  intros Hl. unfold set_with, bind. destruct (capability_set_create w) as [o w1] eqn:Ec. destruct (create_run _ _ _ Ec) as [_ [->|[g ->]]]; [done|].
  destruct (evaluate l w1) as [cs w2] eqn:El. intros [= <- <-]. apply add_all_wf; [apply empty_wf|by eapply evaluate_ok].
Qed.

#[local] Hint Resolve file_ok net_ok device_ok : caps.
#[local] Hint Extern 1 (builds_ok (capability_create_simple _ _)) => apply simple_ok; apply (bool_decide_unpack _); vm_compute; exact I : caps.

Lemma init_set_wf w set w' : capability_create_init_set w = (Some set, w') → wf set.
Proof. apply set_with_wf. repeat (apply Forall_cons; split); auto with caps. Qed.

Lemma user_set_wf w set w' : capability_create_user_set w = (Some set, w') → wf set.
Proof. apply set_with_wf. repeat (apply Forall_cons; split); auto with caps. Qed.

Lemma exec_set_wf path w set w' : capability_reset_for_exec path w = (Some set, w') → wf set.
Proof. apply set_with_wf. destruct (_ || _); repeat (apply Forall_cons; split); auto with caps. Qed.

Lemma inherit_spec parent mask w child w' : wf parent → capability_inherit (Some parent) mask w = (Some child, w') →
  wf child ∧ caps child = rev (copy_of <$> filter (λ c, inheritable mask c = true) (caps parent)).
Proof.
  intros Hp. unfold capability_inherit, bind. destruct (capability_set_create w) as [o w1] eqn:Ec. destruct (create_run _ _ _ Ec) as [_ [->|[g ->]]]; [done|].
  intros H. apply copy_all_spec in H as [H1 H2]; [|apply empty_wf|apply (w_caps _ Hp)]. split; [done|]. by rewrite H2, app_nil_r.
Qed.

Lemma clone_spec set w new w' : wf set → capability_set_clone set w = (Some new, w') → wf new ∧ caps new = rev (copy_of <$> caps set).
Proof.
  intros Hp. unfold capability_set_clone, bind. destruct (capability_set_create w) as [o w1] eqn:Ec. destruct (create_run _ _ _ Ec) as [_ [->|[g ->]]]; [done|].
  intros H. apply copy_all_spec in H as [H1 H2]; [|apply empty_wf|apply (w_caps _ Hp)]. split; [done|]. rewrite H2, app_nil_r. do 2 f_equal.
  clear. induction (caps set) as [|c l IH]; [done|]. rewrite filter_cons, decide_True by done. by rewrite IH.
Qed.

Lemma drop_spec set : wf set → wf (capability_drop_privileged set) ∧ ∀ c, c ∈ caps (capability_drop_privileged set) ↔ c ∈ caps set ∧ type c ∉ privileged.
Proof.
  unfold capability_drop_privileged. assert (Forall (λ t, 0 ≤ t) privileged) as Hpos by (repeat constructor; done). revert set Hpos. induction privileged as [|u l IH]; intros set Hpos Hs.
  - split; [done|]. intros c. cbn. split; [intros H; split; [done|apply not_elem_of_nil]|tauto].
  - cbn [foldl]. apply Forall_cons in Hpos as [Hu Hpos]. destruct (remove_wf set u Hu Hs) as [Hw Hc]. destruct (IH _ Hpos Hw) as [H1 H2]. split; [done|].
    intros c. rewrite H2, Hc, list_elem_of_filter, not_elem_of_cons. tauto.
Qed.

Lemma delegate_spec granter grantee t constraint w new r w' : wf (capabilities granter) → wf (capabilities grantee) →
  capability_delegate granter grantee t constraint w = ((new, r), w') →
  wf (capabilities new) ∧
  (∀ c, find_type t (caps (capabilities granter)) = Some c → from_option (λ p, open_ended c ∧ cstring p = p) True constraint →
    ∀ q, may (capabilities new) q = true → may (capabilities grantee) q = true ∨ may (capabilities granter) q = true).
Proof.
  intros Hg Hr. unfold capability_delegate. destruct (find_type t _) as [c|] eqn:Ef; [|unfold ret; intros [= <- <- <-]; split; [done|done]].
  apply find_type_in in Ef as [Hin Hty]. pose proof (proj1 (Forall_forall _ _) (w_caps _ Hg) c Hin) as Hc.
  assert (Hskip : wf (capabilities grantee) ∧ ∀ c', Some c = Some c' → from_option (λ p, open_ended c' ∧ cstring p = p) True constraint →
    ∀ q, may (capabilities grantee) q = true → may (capabilities grantee) q = true ∨ may (capabilities granter) q = true) by (split; [done|tauto]).
  destruct (_ =? 0); [unfold ret; by intros [= <- <- <-]|]. unfold bind. destruct (kmalloc_ok w) as [[] w1]; cbn [negb]; [|unfold ret; by intros [= <- <- <-]].
  set (d := match constraint with Some pattern => _ | None => _ end).
  assert (Hd : cap_ok (fst d) ∧ (snd d = CAP_SUCCESS → from_option (λ p, open_ended c ∧ cstring p = p) True constraint → ∀ q, gives q (fst d) = true → gives q c = true)).
  { unfold d. destruct constraint as [pattern|]; [destruct (is_file t)|]; try (cbn [fst snd]; split; [exact Hc|intros _ _ q; by rewrite gives_copy]).
    destruct (capability_restrict (copy_of c) pattern) as [c' r'] eqn:Er. split; [exact (proj1 (restrict_ok (copy_of c) pattern c' r' Hc Er))|]. cbn. intros -> [Ho Hp] q Hq.
    rewrite <- (gives_copy q c). exact (proj2 (restrict_gives (copy_of c) pattern c' q Hc Ho Hp Er) Hq). }
  destruct d as [c' r']. cbn [fst snd] in Hd. destruct Hd as [Hok Hgives]. destruct (Z.eqb_spec r' CAP_SUCCESS) as [->|]; cbn [negb]; [|unfold ret; by intros [= <- <- <-]].
  pose proof (add_wf _ c' Hr Hok) as Hw. pose proof (add_may (capabilities grantee) c') as Hm. destruct (capability_add (capabilities grantee) c') as [s1 r1]. cbn in Hw, Hm.
  unfold ret. intros [= <- <- <-]. split; [done|]. intros c'' [= <-] Hcon q Hq. cbn in Hq. destruct (Hm q Hq) as [?|Hq']; [by left|right].
  apply may_true. exists c. auto.
Qed.

(** ** All processes *)

Inductive query :=
| HasType (t : Z)
| CheckFile (path : list Z) (access : Z)
| CheckNet (h : list Z) (port access : Z)
| CheckDevice (id : Z)
| CheckIpc (target : Z).

Definition ask (q : query) (set : capability_set) : M (bool * capability_set) :=
  match q with
  | HasType t => capability_has set t
  | CheckFile path access => capability_check_file set path access
  | CheckNet h port access => capability_check_net set h port access
  | CheckDevice id => capability_check_device set id
  | CheckIpc target => capability_check_ipc set target
  end.

Definition asks (q : query) : right :=
  match q with
  | HasType t => TypeRight t
  | CheckFile path access => FileRight access path
  | CheckNet h port access => NetRight access h port
  | CheckDevice id => DeviceRight id
  | CheckIpc target => IpcRight target
  end.

(** The access type fits the check. *)
Definition sane (q : query) : Prop :=
  match q with
  | HasType t => 0 ≤ t
  | CheckFile _ access => is_file access = true
  | CheckNet _ _ access => is_net access = true
  | _ => True
  end.

Lemma ask_exact q set w : wf set → sane q → ∃ g, ask q set w = ((may set (asks q), CapSet (caps set) (count set) (bitmask set) g), w).
Proof.
  intros Hs Hq. unfold may. destruct q as [t|path access|h port access|id|target]; cbn [ask asks sane gives] in *.
  - destruct (has_run set t w Hs Hq) as [g ->]. by exists g.
  - unfold capability_check_file, bind. destruct (refresh_run set w) as [g ->]. exists g. unfold ret. do 2 f_equal. apply existsb_same. intros c. cbn. by rewrite Hq.
  - unfold capability_check_net, bind. destruct (refresh_run set w) as [g ->]. exists g. unfold ret. do 2 f_equal. apply existsb_same. intros c. cbn. by rewrite Hq.
  - unfold capability_check_device, bind. destruct (refresh_run set w) as [g ->]. by exists g.
  - unfold capability_check_ipc, bind. destruct (refresh_run set w) as [g ->]. destruct (has_run _ CAP_IPC_BROADCAST w (regen_wf set g Hs)) as [g' ->]; [done|].
    exists g'. cbn [fst snd caps count bitmask]. rewrite (existsb_same (gives (IpcRight target)) (λ c, (type c =? CAP_IPC_BROADCAST) || ipc_match target c)) by done.
    rewrite existsb_orb. unfold has_type. by destruct (existsb (λ c, type c =? CAP_IPC_BROADCAST) (caps set)).
Qed.

Record system := System { sets : gmap Z capability_set; mem : world }.

Inductive step (s : system) : system → Prop :=
| step_init p set w : capability_create_init_set (mem s) = (Some set, w) → step s (System (<[p := set]> (sets s)) w)
| step_user p set w : capability_create_user_set (mem s) = (Some set, w) → step s (System (<[p := set]> (sets s)) w)
| step_exec p path set w : capability_reset_for_exec path (mem s) = (Some set, w) → step s (System (<[p := set]> (sets s)) w)
| step_fork p q set child w : sets s !! p = Some set → capability_inherit_from_parent (Some set) (mem s) = (Some child, w) →
    step s (System (<[q := child]> (sets s)) w)
| step_clone p q set new w : sets s !! p = Some set → capability_set_clone set (mem s) = (Some new, w) → step s (System (<[q := new]> (sets s)) w)
| step_grant p q a b c a' b' r w : p ≠ q → sets s !! p = Some a → sets s !! q = Some b → cap_ok c →
    capability_grant (Process p a) (Process q b) c (mem s) = ((a', b', r), w) →
    step s (System (<[q := capabilities b']> (<[p := capabilities a']> (sets s))) w)
| step_grant_self p a c a' r w : sets s !! p = Some a → cap_ok c → capability_grant_self (Process p a) c (mem s) = ((a', r), w) →
    step s (System (<[p := capabilities a']> (sets s)) w)
| step_delegate p q a b t constraint b' r w : sets s !! p = Some a → sets s !! q = Some b →
    capability_delegate (Process p a) (Process q b) t constraint (mem s) = ((b', r), w) → step s (System (<[q := capabilities b']> (sets s)) w)
| step_kernel p a c : sets s !! p = Some a → cap_ok c → step s (System (<[p := capabilities (fst (capability_kernel_grant (Process p a) c))]> (sets s)) (mem s))
| step_revoke p a t a' r w : sets s !! p = Some a → 0 ≤ t → capability_revoke (Process p a) t (mem s) = ((a', r), w) →
    step s (System (<[p := capabilities a']> (sets s)) w)
| step_revoke_all p set w : capability_revoke_all (mem s) = (Some set, w) → step s (System (<[p := set]> (sets s)) w)
| step_drop p a : sets s !! p = Some a → step s (System (<[p := capability_drop_privileged a]> (sets s)) (mem s))
| step_ask p a q r a' w : sets s !! p = Some a → sane q → ask q a (mem s) = ((r, a'), w) → step s (System (<[p := a']> (sets s)) w).

(** From boot, with no process and any memory. *)
Definition reachable (s : system) : Prop := ∃ w, rtc step (System ∅ (snd (capability_init w))) s.

Lemma grant_wf p a q b c a' b' r w w' : wf a → wf b → cap_ok c → capability_grant (Process p a) (Process q b) c w = ((a', b', r), w') →
  wf (capabilities a') ∧ wf (capabilities b').
Proof.
  intros Ha Hb Hc. unfold capability_grant, bind. cbn [capabilities]. destruct (has_run a (type c) w Ha) as [g ->]; [destruct Hc; lia|]. cbn [fst snd with_caps capabilities].
  pose proof (regen_wf a g Ha) as Ha'. destruct (negb _); [by intros [= <- <- <- <-]|]. destruct (negb _); [by intros [= <- <- <- <-]|].
  destruct (kmalloc_ok w) as [[] w1]; cbn [negb]; [|by intros [= <- <- <- <-]]. pose proof (add_wf b (copy_of c) Hb Hc) as Hw.
  destruct (capability_add b (copy_of c)) as [s1 r1]. by intros [= <- <- <- <-].
Qed.

Lemma grant_self_wf p a c a' r w w' : wf a → cap_ok c → capability_grant_self (Process p a) c w = ((a', r), w') → wf (capabilities a').
Proof.
  intros Ha Hc. unfold capability_grant_self, bind. cbn [capabilities]. destruct (has_run a (type c) w Ha) as [g ->]; [destruct Hc; lia|]. cbn [fst snd with_caps capabilities].
  pose proof (regen_wf a g Ha) as Ha'. destruct (negb _); [by intros [= <- <- <-]|]. destruct (negb _); [by intros [= <- <- <-]|].
  destruct (kmalloc_ok w) as [[] w1]; cbn [negb]; [|by intros [= <- <- <-]]. pose proof (add_wf _ (copy_of c) Ha' Hc) as Hw.
  destruct (capability_add _ (copy_of c)) as [s1 r1]. by intros [= <- <- <-].
Qed.

Lemma step_wf s s' : step s s' → map_Forall (λ _, wf) (sets s) → map_Forall (λ _, wf) (sets s').
Proof.
  intros H Hs. destruct H as [p set w H|p set w H|p path set w H|p q set child w Hp H|p q set new w Hp H|p q a b c a' b' r w Hne Hp Hq Hc H|p a c a' r w Hp Hc H|p q a b t con b' r w Hp Hq H|p a c Hp Hc|p a t a' r w Hp Ht H|p set w H|p a Hp|p a q r a' w Hp Hq H];
    cbn [sets]; try apply (Hs _ _) in Hp as Ha; try apply (Hs _ _) in Hq as Hb.
  - apply map_Forall_insert_2; [by eapply init_set_wf|done].
  - apply map_Forall_insert_2; [by eapply user_set_wf|done].
  - apply map_Forall_insert_2; [by eapply exec_set_wf|done].
  - apply map_Forall_insert_2; [by eapply inherit_spec|done].
  - apply map_Forall_insert_2; [by eapply clone_spec|done].
  - destruct (grant_wf _ _ _ _ _ _ _ _ _ _ Ha Hb Hc H). by repeat apply map_Forall_insert_2.
  - apply map_Forall_insert_2; [|done]. by eapply grant_self_wf.
  - apply map_Forall_insert_2; [|done]. eapply delegate_spec; [..|exact H]; done.
  - apply map_Forall_insert_2; [|done]. unfold capability_kernel_grant. cbn [capabilities]. pose proof (add_wf a c Ha Hc). by destruct (capability_add a c).
  - apply map_Forall_insert_2; [|done]. unfold capability_revoke in H. destruct (remove_wf a t Ht Ha) as [Hw _]. cbn [capabilities] in H.
    destruct (capability_remove a t) as [s1 r1]. destruct (_ =? _); [unfold bind in H; cbn in H|]; by injection H as <- <- <-.
  - apply map_Forall_insert_2; [|done]. unfold capability_revoke_all, bind in H. destruct (capability_set_create (mem s)) as [o w1] eqn:Ec.
    destruct (create_run _ _ _ Ec) as [_ [->|[g ->]]]; [done|]. injection H as <- _. apply empty_wf.
  - apply map_Forall_insert_2; [by apply drop_spec|done].
  - apply map_Forall_insert_2; [|done]. destruct (ask_exact q a (mem s) Ha Hq) as [g E]. rewrite E in H. injection H as _ <- _. by apply regen_wf.
Qed.

Lemma reachable_wf s p set : reachable s → sets s !! p = Some set → wf set.
Proof.
  intros [w H]. assert (map_Forall (λ _, wf) (sets s)) as Hs; [|apply Hs].
  remember (System ∅ (snd (capability_init w))) as s0 eqn:E. assert (map_Forall (λ _, wf) (sets s0)) as H0 by (subst; apply map_Forall_empty). clear E.
  induction H as [|? ? ? H1 _ IH]; [done|]. apply IH. by eapply step_wf.
Qed.

Lemma bool_eq_iff_alt (a b : bool) : (a = true ↔ b = true) → a = b.
Proof. destruct a, b; naive_solver. Qed.

(** ** Properties *)

(** C36: In every state reachable by creating, forking, cloning, granting,
    delegating, revoking and dropping, every capability set is consistent (its
    counter and its bit mask describe its list, which has no duplicates), and
    every check answers exactly what the list says, without changing it. *)
Theorem capability_checks_exact s p set q w : reachable s → sets s !! p = Some set → sane q →
  wf set ∧ ∃ set', ask q set w = ((may set (asks q), set'), w) ∧ caps set' = caps set.
Proof.
  intros Hr Hp Hq. pose proof (reachable_wf s p set Hr Hp) as Hs. split; [done|]. destruct (ask_exact q set w Hs Hq) as [g H]. by eexists.
Qed.

(** The pattern matcher accepts only paths of the glob language, where a
    star is any sequence, and accepts all of them when no two stars are
    adjacent. *)
Theorem path_matches_pattern_glob pattern path :
  (path_matches_pattern pattern path = true → glob pattern path) ∧
  (single_stars pattern = true → glob pattern path → path_matches_pattern pattern path = true).
Proof. split; [apply match_sound|apply match_complete]. Qed.

(** C37: Rights do not grow.  A child has only what its parent has in inheritable
    capabilities of the mask, and gets all of that when memory lasts; a clone has
    the same rights; dropping privileges removes exactly the privileged types; a
    delegation gives the receiver no right that neither party had, provided the
    pattern it narrows ends in a star. *)
Theorem capability_attenuation s p set : reachable s → sets s !! p = Some set →
  (∀ mask w child w' r, capability_inherit (Some set) mask w = (Some child, w') →
    may child r = true ↔ ∃ c, c ∈ caps set ∧ inheritable mask c = true ∧ gives r c = true) ∧
  (∀ mask w, Forall (λ b, b = true) (kmallocs w) → (length (caps set) < length (kmallocs w))%nat →
    ∃ child w', capability_inherit (Some set) mask w = (Some child, w')) ∧
  (∀ w new w' r, capability_set_clone set w = (Some new, w') → may new r = may set r) ∧
  (∀ r, may (capability_drop_privileged set) r = true ↔ ∃ c, c ∈ caps set ∧ type c ∉ privileged ∧ gives r c = true) ∧
  (∀ q receiver t constraint w new code w' c, sets s !! q = Some receiver → find_type t (caps set) = Some c →
    from_option (λ p, open_ended c ∧ cstring p = p) True constraint →
    capability_delegate (Process p set) (Process q receiver) t constraint w = ((new, code), w') →
    ∀ r, may (capabilities new) r = true → may receiver r = true ∨ may set r = true).
Proof.
  intros Hr Hp. pose proof (reachable_wf s p set Hr Hp) as Hs. split_and!.
  - intros mask w child w' r H. apply inherit_spec in H as [_ Hc]; [|done]. rewrite may_true. setoid_rewrite Hc. setoid_rewrite list_elem_of_In. setoid_rewrite <- in_rev.
    setoid_rewrite <- list_elem_of_In. split.
    + intros (c & (e & -> & [He1 He2]%list_elem_of_filter)%list_elem_of_fmap & Hg). rewrite gives_copy in Hg. eauto.
    + intros (c & H1 & H2 & H3). exists (copy_of c). rewrite gives_copy. split; [|done]. apply list_elem_of_fmap_2. by apply list_elem_of_filter.
  - intros mask w Hk Hlen. unfold capability_inherit, capability_set_create, bind, kmalloc_ok, get_generation, ret.
    destruct (kmallocs w) as [|b ks]; [cbn in Hlen; lia|]. apply Forall_cons in Hk as [-> Hk]. cbn [negb]. apply copy_all_total; [apply (w_distinct _ Hs)|done|done|cbn in *; lia].
  - intros w new w' r H. apply clone_spec in H as [_ Hc]; [|done]. apply bool_eq_iff_alt. rewrite !may_true, Hc. split.
    + intros (c & Hin%list_elem_of_In%in_rev%list_elem_of_In & Hg). apply list_elem_of_fmap in Hin as (e & -> & He). rewrite gives_copy in Hg. eauto.
    + intros (c & Hin & Hg). exists (copy_of c). rewrite gives_copy. split; [|done]. apply list_elem_of_In, in_rev. rewrite rev_involutive. apply list_elem_of_In. by apply list_elem_of_fmap_2.
  - intros r. destruct (drop_spec set Hs) as [_ Hd]. rewrite may_true. setoid_rewrite Hd. by split; intros (c & H); exists c; tauto.
  - intros q receiver t constraint w new code w' c Hq Hf Hcon H. pose proof (reachable_wf s q receiver Hr Hq) as Hb.
    apply delegate_spec in H as [_ H]; [|done|done]. exact (H c Hf Hcon).
Qed.

(** ** Witnesses *)

Definition plenty : world := World 0 (replicate 64 true).

Definition after_init : system := System ∅ (snd (capability_init plenty)).

(** The first process, with the set of init. *)
Definition init_caps : capability_set := match fst (capability_create_init_set (mem after_init)) with Some set => set | None => CapSet [] 0 0 0 end.
Definition one_process : system := System (<[1 := init_caps]> ∅) (snd (capability_create_init_set (mem after_init))).

Lemma one_process_reachable : reachable one_process.
Proof.
  exists plenty. eapply rtc_l; [|apply rtc_refl]. refine (step_init after_init 1 init_caps _ _). by vm_compute.
Qed.

Lemma capability_checks_witness : length (caps init_caps) = 12%nat ∧ wf init_caps ∧ ∃ set',
  ask (CheckFile [47; 120] CAP_FILE_READ) init_caps plenty = ((may init_caps (FileRight CAP_FILE_READ [47; 120]), set'), plenty) ∧ caps set' = caps init_caps.
Proof.
  split; [by vm_compute|]. apply (capability_checks_exact one_process 1 init_caps (CheckFile [47; 120] CAP_FILE_READ) plenty); [apply one_process_reachable|apply lookup_insert_eq|done].
Defined.

Lemma path_matches_witness : path_matches_pattern TMP_ANY [47; 116; 109; 112; 47; 120] = true ∧ glob TMP_ANY [47; 116; 109; 112; 47; 120].
Proof. split; [by vm_compute|]. apply (path_matches_pattern_glob TMP_ANY). by vm_compute. Defined.

Lemma capability_attenuation_witness : may (capability_drop_privileged init_caps) (TypeRight CAP_SYS_ADMIN) = true ↔
  ∃ c, c ∈ caps init_caps ∧ type c ∉ privileged ∧ gives (TypeRight CAP_SYS_ADMIN) c = true.
Proof. apply (capability_attenuation one_process 1 init_caps); [apply one_process_reachable|apply lookup_insert_eq]. Defined.

(** Two adjacent stars do not match the empty rest. *)
Example double_star : path_matches_pattern [97; 42; 42] [97] = false ∧ glob [97; 42; 42] [97].
Proof. split; [by vm_compute|]. apply glob_char; [done|]. apply glob_skip, glob_skip. constructor. Qed.

(** A pattern without a star can be widened: from one file to all that start
    with its name. *)
Example restrict_widens :
  let c := Cap CAP_FILE_READ CAP_FLAG_DELEGATABLE 1 (fill 256 [47; 97] ++ replicate 4 0) in
  let '(c', r) := capability_restrict c [47; 97; 42] in
  r = CAP_SUCCESS ∧ gives (FileRight CAP_FILE_READ [47; 97; 98]) c = false ∧ gives (FileRight CAP_FILE_READ [47; 97; 98]) c' = true.
Proof. by vm_compute. Qed.

(** A permanent capability is removed like any other. *)
Example permanent_removed : may init_caps (TypeRight CAP_SYS_ADMIN) = true ∧ snd (capability_remove init_caps CAP_SYS_ADMIN) = CAP_SUCCESS ∧
  may (fst (capability_remove init_caps CAP_SYS_ADMIN)) (TypeRight CAP_SYS_ADMIN) = false.
Proof. by vm_compute. Qed.

(** Who holds a narrow capability can grant a wide one of the same type. *)
Example grant_widens :
  let narrow := Cap CAP_FILE_READ CAP_FLAG_DELEGATABLE 1 (fill 256 TMP_ANY ++ replicate 4 0) in
  let wide := Cap CAP_FILE_READ CAP_FLAG_DELEGATABLE 1 (fill 256 ROOT_ANY ++ replicate 4 0) in
  let granter := Process 1 (fst (capability_add (CapSet [] 0 0 1) narrow)) in
  let '((_, grantee, r), _) := capability_grant granter (Process 2 (CapSet [] 0 0 1)) wide plenty in
  r = CAP_SUCCESS ∧ may (capabilities granter) (FileRight CAP_FILE_READ [47; 98]) = false ∧ may (capabilities grantee) (FileRight CAP_FILE_READ [47; 98]) = true.
Proof. by vm_compute. Qed.

End CapabilityProps.
