(* ===== verification/Links.v ===== *)
(** * Singly linked lists threaded through objects

    The scheduler links one process control block into three kinds of lists,
    each through a link field of its own.  A link field is seen here as a finite
    map from the address of a block to the address stored in the field. *)

From S2P Require Import Prelude.

Module Links.

(** [chain nx h l]: from [h] the links lead through exactly [l] to NULL. *)
Fixpoint chain (nx : gmap Z Z) (h : Z) (l : list Z) : Prop :=
  match l with
  | [] => h = 0
  | x :: l => h = x ∧ x ≠ 0 ∧ ∃ n, nx !! x = Some n ∧ chain nx n l
  end.

(** The tail pointer kept beside such a list. *)
Definition tail_of (l : list Z) : Z := default 0 (last l).

Implicit Types (nx : gmap Z Z) (l : list Z).

Lemma linked_fun nx h l l' : chain nx h l → chain nx h l' → l = l'.
Proof.
  revert h l'. induction l as [|x l IH]; intros h [|y l']; cbn; [done|naive_solver|naive_solver|].
  intros (-> & _ & n & Hn & Hl) (<- & _ & n' & Hn' & Hl'). f_equal. apply (IH n); [done|]. by simplify_eq.
Qed.

Lemma linked_in nx h l x : chain nx h l → x ∈ l → x ≠ 0 ∧ is_Some (nx !! x).
Proof.
  revert h. induction l as [|y l IH]; intros h; cbn; [by intros _ ?%elem_of_nil|].
  intros (-> & H0 & n & Hn & Hl) [->|Hx]%elem_of_cons; [by split; [|exists n]|by eapply IH].
Qed.

Lemma chain_head nx h l : chain nx h l → h = default 0 (head l).
Proof. destruct l; cbn; naive_solver. Qed.

Lemma chain_null nx h l : chain nx h l → h = 0 ↔ l = [].
Proof. destruct l; cbn; naive_solver. Qed.

Lemma chain_app nx h l1 l2 : chain nx h (l1 ++ l2) → ∃ m, chain nx m l2.
Proof. revert h. induction l1 as [|x l1 IH]; intros h; cbn; [by eexists|]. intros (_ & _ & n & _ & H). by eapply IH. Qed.

Lemma chain_nodup nx h l : chain nx h l → NoDup l.
Proof.
  revert h. induction l as [|x l IH]; intros h Hc; [constructor|]. pose proof Hc as (-> & _ & n & Hn & Hl). constructor; [|by eapply IH].
  intros (l1 & l2 & ->)%list_elem_of_split. destruct (chain_app nx n l1 (x :: l2) Hl) as [m Hm]. pose proof Hm as (-> & _).
  pose proof (linked_fun _ _ _ _ Hc Hm) as E. apply (f_equal length) in E. cbn in E. rewrite length_app in E. cbn in E. lia.
Qed.

Lemma linked_ext nx nx' h l : (∀ x, x ∈ l → nx' !! x = nx !! x) → chain nx h l → chain nx' h l.
Proof.
  revert h. induction l as [|x l IH]; intros h He; cbn; [done|]. intros (-> & H0 & n & Hn & Hl). split_and!; [done|done|]. exists n.
  rewrite He by left. split; [done|]. apply IH; [|done]. intros y Hy. apply He. by right.
Qed.

Lemma chain_insert nx h l p v : p ∉ l → chain nx h l → chain (<[p := v]> nx) h l.
Proof. intros Hp. apply linked_ext. intros x Hx. rewrite lookup_insert_ne; [done|]. by intros ->. Qed.

Lemma chain_delete nx h l p : p ∉ l → chain nx h l → chain (delete p nx) h l.
Proof. intros Hp. apply linked_ext. intros x Hx. rewrite lookup_delete_ne; [done|]. by intros ->. Qed.

Lemma linked_size nx h l : chain nx h l → (length l ≤ size nx)%nat.
Proof.
  intros Hc. rewrite <- (size_list_to_set (C := gset Z) l) by by eapply chain_nodup. rewrite <- size_dom. apply subseteq_size.
  intros x Hx%elem_of_list_to_set. apply elem_of_dom. by eapply linked_in.
Qed.

(** Following the links from an element. *)
Lemma chain_at nx h l1 x l2 : chain nx h (l1 ++ x :: l2) → ∃ n, nx !! x = Some n ∧ chain nx n l2.
Proof. intros H. apply chain_app in H as [m (-> & _ & n & Hn & Hl)]. by exists n. Qed.

(** Redirecting the last link of a prefix. *)
Lemma chain_redirect nx h l1 x l2 v l3 : chain nx h (l1 ++ x :: l2) → chain nx v l3 → x ∉ l3 → chain (<[x := v]> nx) h (l1 ++ x :: l3).
Proof.
  intros Hc Hv Hx. pose proof (chain_nodup _ _ _ Hc) as Hd. revert h Hc. induction l1 as [|y l1 IH]; intros h; cbn.
  - intros (-> & H0 & n & Hn & Hl). split_and!; [done|done|]. exists v. rewrite lookup_insert_eq. split; [done|]. by apply chain_insert.
  - apply NoDup_cons in Hd as [Hy Hd]. intros (-> & H0 & n & Hn & Hl). split_and!; [done|done|]. exists n.
    rewrite lookup_insert_ne by (intros ->; apply Hy; set_solver). split; [done|]. by apply IH.
Qed.

(** Appending a block at the tail, into an empty list and behind the last element. *)
Lemma chain_single nx p : p ≠ 0 → chain (<[p := 0]> nx) p [p].
Proof. intros Hp. split_and!; [done|done|]. exists 0. by rewrite lookup_insert_eq. Qed.

Lemma linked_append nx h l t p : chain nx h (l ++ [t]) → p ∉ l ++ [t] → p ≠ 0 → nx !! p = Some 0 → chain (<[t := p]> nx) h (l ++ [t] ++ [p]).
Proof.
  intros Hc Hp H0 Hn. apply (chain_redirect nx h l t [] p [p]); [done| |set_solver]. split_and!; [done|done|]. by exists 0.
Qed.

(** Taking an element out, at the head and behind its predecessor. *)
Lemma chain_remove nx h l1 y x l2 n : chain nx h (l1 ++ y :: x :: l2) → nx !! x = Some n → chain (<[y := n]> nx) h (l1 ++ y :: l2).
Proof.
  intros Hc Hn. pose proof (chain_nodup _ _ _ Hc) as Hd. assert (Hc2 : chain nx h ((l1 ++ [y]) ++ x :: l2)) by by rewrite <- (assoc_L app).
  apply chain_at in Hc2 as (m & Hm & Hl). simplify_eq. apply (chain_redirect _ _ _ _ (x :: l2)); [done|done|].
  apply NoDup_app in Hd as (_ & _ & Hd). apply NoDup_cons in Hd as [Hy _]. set_solver.
Qed.

Lemma tail_snoc l x : tail_of (l ++ [x]) = x.
Proof. unfold tail_of. by rewrite last_snoc. Qed.

Lemma tail_null nx h l : chain nx h l → tail_of l = 0 ↔ l = [].
Proof.
  intros Hc. destruct l as [|x l _] using rev_ind; [done|]. rewrite tail_snoc. split; [|by destruct l]. intros ->.
  destruct (linked_in _ _ _ 0 Hc) as [? _]; [set_solver|done].
Qed.

(** The tail pointer after an element has gone. *)
Lemma tail_remove l1 y x l2 : NoDup (l1 ++ y :: x :: l2) → tail_of (l1 ++ y :: l2) = if tail_of (l1 ++ y :: x :: l2) =? x then y else tail_of (l1 ++ y :: x :: l2).
Proof.
  intros Hd. destruct l2 as [|z l2 _] using rev_ind.
  - change (y :: [x]) with ([y] ++ [x]). by rewrite tail_snoc, (assoc_L app), tail_snoc, Z.eqb_refl.
  - rewrite (app_comm_cons l2 [z] x), !(app_comm_cons _ [z] y), !(assoc_L app), !tail_snoc.
    destruct (Z.eqb_spec z x) as [->|]; [|done]. exfalso. apply NoDup_app in Hd as (_ & _ & Hd).
    apply NoDup_cons in Hd as [_ Hd]. apply NoDup_cons in Hd as [Hx _]. set_solver.
Qed.

End Links.
