(* ===== verification/Pcb.v ===== *)
(** * Process control blocks and the state of the scheduler

    The fields of [process_t] (kernel/include/sched.h) that the scheduler, the
    wait objects, futexes, signals and [waitpid] work on, and the static data of
    scheduler.c, process.c, waitqueue.c, futex.c and pit.c in the default build:
    one processor, no preemption.  Processes and wait objects are addresses; a
    process that has been freed has no entry, and an access to it makes the
    operation undefined. *)

From S2P Require Import Prelude.

Module Pcb.
Local Open Scope Z_scope.

Inductive process_state := PROCESS_CREATED | PROCESS_READY | PROCESS_RUNNING | PROCESS_BLOCKED | PROCESS_TERMINATED.

#[global] Instance process_state_eq_dec : EqDecision process_state.
Proof. solve_decision. Defined.

(** What remains to be done when [wo_park_and_cleanup] returns to its caller. *)
Inductive after :=
| AfterSleep
| AfterFutex
| AfterWaitpid (pid status_ptr options : Z).

(** Where the kernel stack of a process stands: in user mode, halted in the idle
    loop of [wo_park_and_cleanup], or switched out in it. *)
Inductive cont :=
| User
| Halted (wo : Z) (k : after)
| Parked (wo : Z) (k : after).

Record process := Proc {
  pid : Z; parent_pid : Z; create_seq : Z; parent_seq : Z; pstate : process_state; priority : Z;
  time_slice : Z; yield_boost : Z; next : Z; on_queue : Z; ref_count : Z; reaped : Z; wait_on : Z;
  wait_next : Z; wake_deadline : Z; sleep_next : Z; futex_key : Z; child_wait : Z; exit_status : Z;
  stopped_by_signal : Z; sig_pending : Z; uid : Z; ctx_switches : Z; cpu_ticks : Z; pc : cont
}.

Definition set_pid (v : Z) (x : process) : process :=
  Proc v (parent_pid x) (create_seq x) (parent_seq x) (pstate x) (priority x) (time_slice x) (yield_boost x) (next x) (on_queue x) (ref_count x)
    (reaped x) (wait_on x) (wait_next x) (wake_deadline x) (sleep_next x) (futex_key x) (child_wait x) (exit_status x) (stopped_by_signal x)
    (sig_pending x) (uid x) (ctx_switches x) (cpu_ticks x) (pc x).
Definition set_parent_pid (v : Z) (x : process) : process :=
  Proc (pid x) v (create_seq x) (parent_seq x) (pstate x) (priority x) (time_slice x) (yield_boost x) (next x) (on_queue x) (ref_count x) (reaped x)
    (wait_on x) (wait_next x) (wake_deadline x) (sleep_next x) (futex_key x) (child_wait x) (exit_status x) (stopped_by_signal x) (sig_pending x)
    (uid x) (ctx_switches x) (cpu_ticks x) (pc x).
Definition set_parent_seq (v : Z) (x : process) : process :=
  Proc (pid x) (parent_pid x) (create_seq x) v (pstate x) (priority x) (time_slice x) (yield_boost x) (next x) (on_queue x) (ref_count x) (reaped x)
    (wait_on x) (wait_next x) (wake_deadline x) (sleep_next x) (futex_key x) (child_wait x) (exit_status x) (stopped_by_signal x) (sig_pending x)
    (uid x) (ctx_switches x) (cpu_ticks x) (pc x).
Definition set_pstate (v : process_state) (x : process) : process :=
  Proc (pid x) (parent_pid x) (create_seq x) (parent_seq x) v (priority x) (time_slice x) (yield_boost x) (next x) (on_queue x) (ref_count x)
    (reaped x) (wait_on x) (wait_next x) (wake_deadline x) (sleep_next x) (futex_key x) (child_wait x) (exit_status x) (stopped_by_signal x)
    (sig_pending x) (uid x) (ctx_switches x) (cpu_ticks x) (pc x).
Definition set_priority (v : Z) (x : process) : process :=
  Proc (pid x) (parent_pid x) (create_seq x) (parent_seq x) (pstate x) v (time_slice x) (yield_boost x) (next x) (on_queue x) (ref_count x)
    (reaped x) (wait_on x) (wait_next x) (wake_deadline x) (sleep_next x) (futex_key x) (child_wait x) (exit_status x) (stopped_by_signal x)
    (sig_pending x) (uid x) (ctx_switches x) (cpu_ticks x) (pc x).
Definition set_time_slice (v : Z) (x : process) : process :=
  Proc (pid x) (parent_pid x) (create_seq x) (parent_seq x) (pstate x) (priority x) v (yield_boost x) (next x) (on_queue x) (ref_count x) (reaped x)
    (wait_on x) (wait_next x) (wake_deadline x) (sleep_next x) (futex_key x) (child_wait x) (exit_status x) (stopped_by_signal x) (sig_pending x)
    (uid x) (ctx_switches x) (cpu_ticks x) (pc x).
Definition set_yield_boost (v : Z) (x : process) : process :=
  Proc (pid x) (parent_pid x) (create_seq x) (parent_seq x) (pstate x) (priority x) (time_slice x) v (next x) (on_queue x) (ref_count x) (reaped x)
    (wait_on x) (wait_next x) (wake_deadline x) (sleep_next x) (futex_key x) (child_wait x) (exit_status x) (stopped_by_signal x) (sig_pending x)
    (uid x) (ctx_switches x) (cpu_ticks x) (pc x).
Definition set_next (v : Z) (x : process) : process :=
  Proc (pid x) (parent_pid x) (create_seq x) (parent_seq x) (pstate x) (priority x) (time_slice x) (yield_boost x) v (on_queue x) (ref_count x)
    (reaped x) (wait_on x) (wait_next x) (wake_deadline x) (sleep_next x) (futex_key x) (child_wait x) (exit_status x) (stopped_by_signal x)
    (sig_pending x) (uid x) (ctx_switches x) (cpu_ticks x) (pc x).
Definition set_on_queue (v : Z) (x : process) : process :=
  Proc (pid x) (parent_pid x) (create_seq x) (parent_seq x) (pstate x) (priority x) (time_slice x) (yield_boost x) (next x) v (ref_count x)
    (reaped x) (wait_on x) (wait_next x) (wake_deadline x) (sleep_next x) (futex_key x) (child_wait x) (exit_status x) (stopped_by_signal x)
    (sig_pending x) (uid x) (ctx_switches x) (cpu_ticks x) (pc x).
Definition set_ref_count (v : Z) (x : process) : process :=
  Proc (pid x) (parent_pid x) (create_seq x) (parent_seq x) (pstate x) (priority x) (time_slice x) (yield_boost x) (next x) (on_queue x) v
    (reaped x) (wait_on x) (wait_next x) (wake_deadline x) (sleep_next x) (futex_key x) (child_wait x) (exit_status x) (stopped_by_signal x)
    (sig_pending x) (uid x) (ctx_switches x) (cpu_ticks x) (pc x).
Definition set_reaped (v : Z) (x : process) : process :=
  Proc (pid x) (parent_pid x) (create_seq x) (parent_seq x) (pstate x) (priority x) (time_slice x) (yield_boost x) (next x) (on_queue x)
    (ref_count x) v (wait_on x) (wait_next x) (wake_deadline x) (sleep_next x) (futex_key x) (child_wait x) (exit_status x) (stopped_by_signal x)
    (sig_pending x) (uid x) (ctx_switches x) (cpu_ticks x) (pc x).
Definition set_wait_on (v : Z) (x : process) : process :=
  Proc (pid x) (parent_pid x) (create_seq x) (parent_seq x) (pstate x) (priority x) (time_slice x) (yield_boost x) (next x) (on_queue x)
    (ref_count x) (reaped x) v (wait_next x) (wake_deadline x) (sleep_next x) (futex_key x) (child_wait x) (exit_status x) (stopped_by_signal x)
    (sig_pending x) (uid x) (ctx_switches x) (cpu_ticks x) (pc x).
Definition set_wait_next (v : Z) (x : process) : process :=
  Proc (pid x) (parent_pid x) (create_seq x) (parent_seq x) (pstate x) (priority x) (time_slice x) (yield_boost x) (next x) (on_queue x)
    (ref_count x) (reaped x) (wait_on x) v (wake_deadline x) (sleep_next x) (futex_key x) (child_wait x) (exit_status x) (stopped_by_signal x)
    (sig_pending x) (uid x) (ctx_switches x) (cpu_ticks x) (pc x).
Definition set_wake_deadline (v : Z) (x : process) : process :=
  Proc (pid x) (parent_pid x) (create_seq x) (parent_seq x) (pstate x) (priority x) (time_slice x) (yield_boost x) (next x) (on_queue x)
    (ref_count x) (reaped x) (wait_on x) (wait_next x) v (sleep_next x) (futex_key x) (child_wait x) (exit_status x) (stopped_by_signal x)
    (sig_pending x) (uid x) (ctx_switches x) (cpu_ticks x) (pc x).
Definition set_sleep_next (v : Z) (x : process) : process :=
  Proc (pid x) (parent_pid x) (create_seq x) (parent_seq x) (pstate x) (priority x) (time_slice x) (yield_boost x) (next x) (on_queue x)
    (ref_count x) (reaped x) (wait_on x) (wait_next x) (wake_deadline x) v (futex_key x) (child_wait x) (exit_status x) (stopped_by_signal x)
    (sig_pending x) (uid x) (ctx_switches x) (cpu_ticks x) (pc x).
Definition set_futex_key (v : Z) (x : process) : process :=
  Proc (pid x) (parent_pid x) (create_seq x) (parent_seq x) (pstate x) (priority x) (time_slice x) (yield_boost x) (next x) (on_queue x)
    (ref_count x) (reaped x) (wait_on x) (wait_next x) (wake_deadline x) (sleep_next x) v (child_wait x) (exit_status x) (stopped_by_signal x)
    (sig_pending x) (uid x) (ctx_switches x) (cpu_ticks x) (pc x).
Definition set_child_wait (v : Z) (x : process) : process :=
  Proc (pid x) (parent_pid x) (create_seq x) (parent_seq x) (pstate x) (priority x) (time_slice x) (yield_boost x) (next x) (on_queue x)
    (ref_count x) (reaped x) (wait_on x) (wait_next x) (wake_deadline x) (sleep_next x) (futex_key x) v (exit_status x) (stopped_by_signal x)
    (sig_pending x) (uid x) (ctx_switches x) (cpu_ticks x) (pc x).
Definition set_exit_status (v : Z) (x : process) : process :=
  Proc (pid x) (parent_pid x) (create_seq x) (parent_seq x) (pstate x) (priority x) (time_slice x) (yield_boost x) (next x) (on_queue x)
    (ref_count x) (reaped x) (wait_on x) (wait_next x) (wake_deadline x) (sleep_next x) (futex_key x) (child_wait x) v (stopped_by_signal x)
    (sig_pending x) (uid x) (ctx_switches x) (cpu_ticks x) (pc x).
Definition set_stopped_by_signal (v : Z) (x : process) : process :=
  Proc (pid x) (parent_pid x) (create_seq x) (parent_seq x) (pstate x) (priority x) (time_slice x) (yield_boost x) (next x) (on_queue x)
    (ref_count x) (reaped x) (wait_on x) (wait_next x) (wake_deadline x) (sleep_next x) (futex_key x) (child_wait x) (exit_status x) v
    (sig_pending x) (uid x) (ctx_switches x) (cpu_ticks x) (pc x).
Definition set_sig_pending (v : Z) (x : process) : process :=
  Proc (pid x) (parent_pid x) (create_seq x) (parent_seq x) (pstate x) (priority x) (time_slice x) (yield_boost x) (next x) (on_queue x)
    (ref_count x) (reaped x) (wait_on x) (wait_next x) (wake_deadline x) (sleep_next x) (futex_key x) (child_wait x) (exit_status x)
    (stopped_by_signal x) v (uid x) (ctx_switches x) (cpu_ticks x) (pc x).
Definition set_ctx_switches (v : Z) (x : process) : process :=
  Proc (pid x) (parent_pid x) (create_seq x) (parent_seq x) (pstate x) (priority x) (time_slice x) (yield_boost x) (next x) (on_queue x)
    (ref_count x) (reaped x) (wait_on x) (wait_next x) (wake_deadline x) (sleep_next x) (futex_key x) (child_wait x) (exit_status x)
    (stopped_by_signal x) (sig_pending x) (uid x) v (cpu_ticks x) (pc x).
Definition set_cpu_ticks (v : Z) (x : process) : process :=
  Proc (pid x) (parent_pid x) (create_seq x) (parent_seq x) (pstate x) (priority x) (time_slice x) (yield_boost x) (next x) (on_queue x)
    (ref_count x) (reaped x) (wait_on x) (wait_next x) (wake_deadline x) (sleep_next x) (futex_key x) (child_wait x) (exit_status x)
    (stopped_by_signal x) (sig_pending x) (uid x) (ctx_switches x) v (pc x).
Definition set_pc (v : cont) (x : process) : process :=
  Proc (pid x) (parent_pid x) (create_seq x) (parent_seq x) (pstate x) (priority x) (time_slice x) (yield_boost x) (next x) (on_queue x)
    (ref_count x) (reaped x) (wait_on x) (wait_next x) (wake_deadline x) (sleep_next x) (futex_key x) (child_wait x) (exit_status x)
    (stopped_by_signal x) (sig_pending x) (uid x) (ctx_switches x) (cpu_ticks x) v.

(** ** Run queues and wait objects *)

Definition SCHED_PRIORITY_LEVELS : Z := 140.
Definition SCHED_BITMAP_WORDS : Z := 3.
Definition MAX_PROCESSES : Z := 256.

Record runqueue := RQ { queues : list Z; tails : list Z; bitmap : list Z }.

Record wait_object := WO { waiters : Z; tail : Z; initialized : Z }.

(** ** The state *)

(** [active] tells which of the two run queues [rq_active] points to: [rq0] when
    it is false. *)
Record state := State {
  procs : gmap Z process; objects : gmap Z wait_object; rq0 : runqueue; rq1 : runqueue; active : bool;
  ready_count : Z; current : Z; idle_thread : Z; g_sleep_list : Z; timer_ticks : Z; process_table : list Z;
  pid_used : list Z; g_create_seq : Z; futex_initialized : Z
}.

Definition put_procs (v : gmap Z process) (s : state) : state :=
  State v (objects s) (rq0 s) (rq1 s) (active s) (ready_count s) (current s) (idle_thread s) (g_sleep_list s) (timer_ticks s) (process_table s)
    (pid_used s) (g_create_seq s) (futex_initialized s).
Definition put_objects (v : gmap Z wait_object) (s : state) : state :=
  State (procs s) v (rq0 s) (rq1 s) (active s) (ready_count s) (current s) (idle_thread s) (g_sleep_list s) (timer_ticks s) (process_table s)
    (pid_used s) (g_create_seq s) (futex_initialized s).
Definition put_rq0 (v : runqueue) (s : state) : state :=
  State (procs s) (objects s) v (rq1 s) (active s) (ready_count s) (current s) (idle_thread s) (g_sleep_list s) (timer_ticks s) (process_table s)
    (pid_used s) (g_create_seq s) (futex_initialized s).
Definition put_rq1 (v : runqueue) (s : state) : state :=
  State (procs s) (objects s) (rq0 s) v (active s) (ready_count s) (current s) (idle_thread s) (g_sleep_list s) (timer_ticks s) (process_table s)
    (pid_used s) (g_create_seq s) (futex_initialized s).
Definition put_active (v : bool) (s : state) : state :=
  State (procs s) (objects s) (rq0 s) (rq1 s) v (ready_count s) (current s) (idle_thread s) (g_sleep_list s) (timer_ticks s) (process_table s)
    (pid_used s) (g_create_seq s) (futex_initialized s).
Definition put_ready_count (v : Z) (s : state) : state :=
  State (procs s) (objects s) (rq0 s) (rq1 s) (active s) v (current s) (idle_thread s) (g_sleep_list s) (timer_ticks s) (process_table s)
    (pid_used s) (g_create_seq s) (futex_initialized s).
Definition put_current (v : Z) (s : state) : state :=
  State (procs s) (objects s) (rq0 s) (rq1 s) (active s) (ready_count s) v (idle_thread s) (g_sleep_list s) (timer_ticks s) (process_table s)
    (pid_used s) (g_create_seq s) (futex_initialized s).
Definition put_idle_thread (v : Z) (s : state) : state :=
  State (procs s) (objects s) (rq0 s) (rq1 s) (active s) (ready_count s) (current s) v (g_sleep_list s) (timer_ticks s) (process_table s)
    (pid_used s) (g_create_seq s) (futex_initialized s).
Definition put_g_sleep_list (v : Z) (s : state) : state :=
  State (procs s) (objects s) (rq0 s) (rq1 s) (active s) (ready_count s) (current s) (idle_thread s) v (timer_ticks s) (process_table s)
    (pid_used s) (g_create_seq s) (futex_initialized s).
Definition put_timer_ticks (v : Z) (s : state) : state :=
  State (procs s) (objects s) (rq0 s) (rq1 s) (active s) (ready_count s) (current s) (idle_thread s) (g_sleep_list s) v (process_table s)
    (pid_used s) (g_create_seq s) (futex_initialized s).
Definition put_process_table (v : list Z) (s : state) : state :=
  State (procs s) (objects s) (rq0 s) (rq1 s) (active s) (ready_count s) (current s) (idle_thread s) (g_sleep_list s) (timer_ticks s) v (pid_used s)
    (g_create_seq s) (futex_initialized s).
Definition put_pid_used (v : list Z) (s : state) : state :=
  State (procs s) (objects s) (rq0 s) (rq1 s) (active s) (ready_count s) (current s) (idle_thread s) (g_sleep_list s) (timer_ticks s)
    (process_table s) v (g_create_seq s) (futex_initialized s).
Definition put_g_create_seq (v : Z) (s : state) : state :=
  State (procs s) (objects s) (rq0 s) (rq1 s) (active s) (ready_count s) (current s) (idle_thread s) (g_sleep_list s) (timer_ticks s)
    (process_table s) (pid_used s) v (futex_initialized s).
Definition put_futex_initialized (v : Z) (s : state) : state :=
  State (procs s) (objects s) (rq0 s) (rq1 s) (active s) (ready_count s) (current s) (idle_thread s) (g_sleep_list s) (timer_ticks s)
    (process_table s) (pid_used s) (g_create_seq s) v.

(** ** Operations *)

(** An operation on the state; [None] stands for an access to a freed process,
    a failed assertion, or a list that never ends. *)
Definition M (A : Type) : Type := state → option (A * state).
Definition ret {A} (x : A) : M A := λ s, Some (x, s).
Definition undefined {A} : M A := λ _, None.
Definition bind {A B} (m : M A) (f : A → M B) : M B := λ s,
  match m s with
  | Some (x, s) => f x s
  | None => None
  end.
Definition read {A} (f : state → A) : M A := λ s, Some (f s, s).
Definition modify (f : state → state) : M unit := λ s, Some (tt, f s).

Notation "x <- m ; b" := (bind m (λ x, b)) (at level 100, m at level 99, b at level 200, right associativity) : kernel_scope.
Notation "m ;; b" := (bind m (λ _, b)) (at level 100, b at level 200, right associativity) : kernel_scope.
#[global] Open Scope kernel_scope.

Definition when (b : bool) (m : M unit) : M unit := if b then m else ret tt.

(** Reading and writing a process. *)
Definition get (p : Z) : M process := λ s,
  match procs s !! p with
  | Some x => Some (x, s)
  | None => None
  end.
Definition upd (p : Z) (f : process → process) : M unit := λ s,
  match procs s !! p with
  | Some _ => Some (tt, put_procs (alter f p (procs s)) s)
  | None => None
  end.

(** Reading and writing a wait object. *)
Definition get_object (o : Z) : M wait_object := λ s,
  match objects s !! o with
  | Some w => Some (w, s)
  | None => None
  end.
Definition put_object (o : Z) (w : wait_object) : M unit := modify (λ s, put_objects (<[o := w]> (objects s)) s).

Definition rq_of (r : bool) (s : state) : runqueue := if r then rq1 s else rq0 s.
Definition put_rq (r : bool) (q : runqueue) : M unit := modify (λ s, if r then put_rq1 q s else put_rq0 q s).

(** The loops that walk a list look for the first block that passes a test and
    remember the one before it. *)
Fixpoint walk (fuel : nat) (nx : process → Z) (test : Z → process → bool) (prev it : Z) : M (option (Z * Z)) :=
  match fuel with
  | O => undefined
  | S fuel =>
      if it =? 0 then ret None
      else x <- get it; if test it x then ret (Some (prev, it)) else walk fuel nx test it (nx x)
  end.

Definition fuel_of (s : state) : nat := S (size (procs s)).

End Pcb.
