(* ===== verification/Sched.v ===== *)
(** * The scheduler (kernel/core/sched/scheduler.c, process.c)

    Two arrays of 140 priority queues with a bit map each, the ready queue
    operations on them, reference counts of processes, and the functions that
    pick and dispatch the next process.  The build is the default one: one
    processor, cooperative.  Locks and messages are left out. *)

From S2P Require Import Prelude Errno Pcb.
Import Pcb.

Module Sched.
Local Open Scope Z_scope.

Definition DEFAULT_TIME_SLICE : Z := 10.
Definition SCHED_QUANTUM_TICKS : Z := 10.
Definition SCHED_MIN_SLICE : Z := 1.
Definition SCHED_MAX_SLICE : Z := 32.
Definition PRIORITY_YIELD_BOOST_MAX : Z := 10.
Definition NICE_TO_PRIORITY (nice : Z) : Z := 100 + nice.

Definition priority_time_slice (nice : Z) : Z :=
  let nice := if nice <? -20 then -20 else nice in
  let nice := if 19 <? nice then 19 else nice in
  let weight := 40 - (nice + 20) in
  let slice := Z.quot (DEFAULT_TIME_SLICE * weight) 20 in
  let slice := if slice <? SCHED_MIN_SLICE then SCHED_MIN_SLICE else slice in
  if SCHED_MAX_SLICE <? slice then SCHED_MAX_SLICE else slice.

(** ** The bit map of non-empty queues *)

Fixpoint ffs_words (word : Z) (l : list Z) : Z :=
  match l with
  | [] => -1
  | w :: l => if negb (w =? 0) then word * 64 + ctzll w else ffs_words (word + 1) l
  end.

Definition bitmap_ffs (bm : list Z) : Z := ffs_words 0 bm.

Definition bitmap_set (priority : Z) (bm : list Z) : list Z :=
  let word := Z.to_nat (priority / 64) in
  <[word := Z.lor (bm !!! word) (Z.shiftl 1 (priority mod 64))]> bm.

Definition bitmap_clear (priority : Z) (bm : list Z) : list Z :=
  let word := Z.to_nat (priority / 64) in
  <[word := Z.land (bm !!! word) (not64 (Z.shiftl 1 (priority mod 64)))]> bm.

(** ** One run queue *)

Definition runqueue_init : runqueue :=
  RQ (replicate (Z.to_nat SCHED_PRIORITY_LEVELS) 0) (replicate (Z.to_nat SCHED_PRIORITY_LEVELS) 0) (replicate (Z.to_nat SCHED_BITMAP_WORDS) 0).

Definition clamp_priority (priority : Z) : Z :=
  let priority := if priority <? 0 then 0 else priority in
  if SCHED_PRIORITY_LEVELS <=? priority then SCHED_PRIORITY_LEVELS - 1 else priority.

Definition runqueue_enqueue (r : bool) (proc priority : Z) : M unit :=
  x <- get proc;
  if negb (bool_decide (pstate x = PROCESS_READY)) then undefined
  else
    let k := Z.to_nat (clamp_priority priority) in
    upd proc (set_next 0);;
    rq <- read (rq_of r);
    if tails rq !!! k =? 0 then
      put_rq r (RQ (<[k := proc]> (queues rq)) (<[k := proc]> (tails rq)) (bitmap_set (Z.of_nat k) (bitmap rq)))
    else
      upd (tails rq !!! k) (set_next proc);;
      put_rq r (RQ (queues rq) (<[k := proc]> (tails rq)) (bitmap rq)).

Definition runqueue_dequeue (r : bool) (priority : Z) : M Z :=
  if (priority <? 0) || (SCHED_PRIORITY_LEVELS <=? priority) then ret 0
  else
    let k := Z.to_nat priority in
    rq <- read (rq_of r);
    let proc := queues rq !!! k in
    if proc =? 0 then ret 0
    else
      x <- get proc;
      put_rq r (if next x =? 0 then RQ (<[k := 0]> (queues rq)) (<[k := 0]> (tails rq)) (bitmap_clear priority (bitmap rq))
                else RQ (<[k := next x]> (queues rq)) (tails rq) (bitmap rq));;
      upd proc (set_next 0);;
      ret proc.

Definition runqueue_pick_next (r : bool) : M Z :=
  rq <- read (rq_of r);
  let priority := bitmap_ffs (bitmap rq) in
  if priority <? 0 then ret 0 else runqueue_dequeue r priority.

Definition runqueue_remove (r : bool) (proc priority : Z) : M bool :=
  if (priority <? 0) || (SCHED_PRIORITY_LEVELS <=? priority) then ret false
  else
    let k := Z.to_nat priority in
    rq <- read (rq_of r);
    fuel <- read fuel_of;
    found <- walk fuel next (λ p _, p =? proc) 0 (queues rq !!! k);
    match found with
    | None => ret false
    | Some (prev, it) =>
        x <- get it;
        (if prev =? 0 then
           put_rq r (if next x =? 0 then RQ (<[k := 0]> (queues rq)) (<[k := 0]> (tails rq)) (bitmap_clear priority (bitmap rq))
                     else RQ (<[k := next x]> (queues rq)) (tails rq) (bitmap rq))
         else
           upd prev (set_next (next x));;
           put_rq r (RQ (queues rq) (if tails rq !!! k =? it then <[k := prev]> (tails rq) else tails rq) (bitmap rq)));;
        upd it (set_next 0);;
        ret true
    end.

Definition runqueue_is_empty (r : bool) : M bool :=
  rq <- read (rq_of r);
  ret (foldl Z.lor 0 (bitmap rq) =? 0).

(** [rq_active] and [rq_expired] exchange their pointers. *)
Definition runqueue_swap : M unit := modify (λ s, put_active (negb (active s)) s).

Definition process_get_priority (x : process) : Z := clamp_priority (NICE_TO_PRIORITY (priority x)).

(** ** Reference counts and states (process.c) *)

Definition process_ref (p : Z) : M unit :=
  x <- get p; upd p (set_ref_count (u32 (ref_count x + 1))).

(** The last reference frees the process, its table slot, its identifier and the
    wait queue of [waitpid]. *)
Definition process_free (p : Z) (x : process) : M unit :=
  modify (λ s, if pid x <? MAX_PROCESSES
    then put_process_table (<[Z.to_nat (pid x) := 0]> (process_table s)) (put_pid_used (<[Z.to_nat (pid x) := 0]> (pid_used s)) s) else s);;
  when (negb (child_wait x =? 0)) (modify (λ s, put_objects (delete (child_wait x) (objects s)) s));;
  modify (λ s, put_procs (delete p (procs s)) s).

Definition process_unref (p : Z) : M unit :=
  x <- get p;
  let new_count := u32 (ref_count x - 1) in
  upd p (set_ref_count new_count);;
  when (new_count =? 0) (process_free p x).

(** False when the transition is rejected. *)
Definition process_set_ready (p : Z) : M bool :=
  x <- get p;
  match pstate x with
  | PROCESS_TERMINATED => ret false
  | _ => upd p (set_pstate PROCESS_READY);; ret true
  end.

Definition process_set_current (p : Z) : M unit :=
  modify (put_current p);;
  x <- get p;
  upd p (λ x, set_ctx_switches (u64 (ctx_switches x + 1)) (set_pstate PROCESS_RUNNING x)).

(** ** The ready queue *)

Definition scheduler_add_process (p : Z) : M unit :=
  x <- get p;
  if bool_decide (pstate x = PROCESS_TERMINATED) then ret tt
  else if negb (on_queue x =? 0) then ret tt
  else
    process_ref p;;
    process_set_ready p;;
    upd p (set_on_queue 1);;
    a <- read active;
    runqueue_enqueue (negb a) p (process_get_priority x);;
    modify (λ s, put_ready_count (u32 (ready_count s + 1)) s).

Definition scheduler_add_process_home (p : Z) : M unit := scheduler_add_process p.

Definition priority_yield_boost (nice : Z) : Z :=
  if 0 <=? nice then 0
  else
    let b := Z.quot (- nice) 2 in
    if PRIORITY_YIELD_BOOST_MAX <? b then PRIORITY_YIELD_BOOST_MAX else b.

Definition scheduler_yield_requeue (p : Z) : M unit :=
  x <- get p;
  if bool_decide (pstate x = PROCESS_TERMINATED) then ret tt
  else if negb (on_queue x =? 0) then ret tt
  else
    process_ref p;;
    process_set_ready p;;
    upd p (set_on_queue 1);;
    a <- read active;
    (if 0 <? yield_boost x then
       upd p (set_yield_boost (yield_boost x - 1));; runqueue_enqueue a p (process_get_priority x)
     else
       upd p (set_yield_boost (priority_yield_boost (priority x)));; runqueue_enqueue (negb a) p (process_get_priority x));;
    modify (λ s, put_ready_count (u32 (ready_count s + 1)) s).

Definition scheduler_remove_process (p : Z) : M unit :=
  x <- get p;
  if on_queue x =? 0 then ret tt
  else
    a <- read active;
    found <- runqueue_remove a p (process_get_priority x);
    found <- (if found then ret true else runqueue_remove (negb a) p (process_get_priority x));
    when found (
      upd p (set_on_queue 0);;
      modify (λ s, put_ready_count (u32 (ready_count s - 1)) s);;
      process_unref p).

(** ** Picking the next process *)

(** The head of the best queue of the active array, after a swap if it is empty;
    0 when both are. *)
Definition take_next : M Z :=
  a <- read active;
  next <- runqueue_pick_next a;
  if negb (next =? 0) then ret next
  else
    e <- runqueue_is_empty (negb a);
    if e then ret 0 else runqueue_swap;; a <- read active; runqueue_pick_next a.

(** Terminated processes are discarded and the search starts again. *)
Fixpoint pick_loop (fuel : nat) : M Z :=
  match fuel with
  | O => undefined
  | S fuel =>
      next <- take_next;
      if next =? 0 then read idle_thread
      else
        x <- get next;
        modify (λ s, put_ready_count (u32 (ready_count s - 1)) s);;
        upd next (set_on_queue 0);;
        if bool_decide (pstate x = PROCESS_TERMINATED) then process_unref next;; pick_loop fuel
        else
          when (time_slice x =? 0) (upd next (set_time_slice (priority_time_slice (priority x))));;
          ret next
  end.

Definition scheduler_pick_next : M Z := fuel <- read fuel_of; pick_loop fuel.

Definition scheduler_idle_thread : M Z := read idle_thread.

(** A switch from [p], whose kernel stack stays where [c] says, to [next]. *)
Definition switch_to (p next : Z) (c : cont) : M unit :=
  upd next (set_pstate PROCESS_RUNNING);;
  process_set_current next;;
  upd p (set_pc c);;
  process_unref p.

Definition schedule : M unit :=
  cur <- read current;
  if cur =? 0 then
    next <- scheduler_pick_next;
    upd next (set_pstate PROCESS_RUNNING);;
    process_set_current next
  else
    x <- get cur;
    if bool_decide (pstate x = PROCESS_TERMINATED) then
      next <- scheduler_pick_next;
      switch_to cur next (pc x)
    else
      let slice := if 0 <? time_slice x then time_slice x - 1 else time_slice x in
      upd cur (set_time_slice slice);;
      if negb (slice =? 0) then ret tt
      else
        scheduler_add_process cur;;
        next <- scheduler_pick_next;
        if next =? cur then
          upd cur (set_time_slice (priority_time_slice (priority x)));;
          upd cur (set_pstate PROCESS_RUNNING);;
          process_unref cur
        else switch_to cur next (pc x).

(** ** System call: yield (kernel/core/syscall/handlers.c) *)

Definition sys_yield : M Z :=
  cur <- read current;
  if cur =? 0 then ret ESRCH
  else
    scheduler_yield_requeue cur;;
    next <- scheduler_pick_next;
    (if negb (next =? cur) then x <- get cur; switch_to cur next (pc x) else process_unref cur);;
    ret 0.

End Sched.
