(* ===== verification/WaitObj.v ===== *)
(** * Wait objects and the sleep list (kernel/core/sched/waitqueue.c, scheduler.c)

    The one blocking primitive of the kernel: a process links itself on a wait
    object, and on the timer's sleep list when it has a deadline, and hands the
    processor over; a signal or the timer makes it ready again. *)

From S2P Require Import Prelude Errno Pcb Sched.
Import Pcb Sched.

Module WaitObj.
Local Open Scope Z_scope.

(** ** The sleep list *)

Definition sleep_list_push (p : Z) : M unit :=
  h <- read g_sleep_list;
  upd p (set_sleep_next h);;
  modify (put_g_sleep_list p).

(** The pointer that leads to the successor of [prev], or the head. *)
Definition put_sleep_link (prev v : Z) : M unit :=
  if prev =? 0 then modify (put_g_sleep_list v) else upd prev (set_sleep_next v).

Definition sleep_list_remove (p : Z) : M unit :=
  h <- read g_sleep_list;
  fuel <- read fuel_of;
  found <- walk fuel sleep_next (λ q _, q =? p) 0 h;
  match found with
  | None => ret tt
  | Some (prev, _) =>
      x <- get p;
      put_sleep_link prev (sleep_next x);;
      upd p (set_sleep_next 0)
  end.

Fixpoint wake_due_loop (fuel : nat) (now prev it : Z) : M unit :=
  match fuel with
  | O => undefined
  | S fuel =>
      if it =? 0 then ret tt
      else
        x <- get it;
        if wake_deadline x <=? now then
          put_sleep_link prev (sleep_next x);;
          upd it (set_sleep_next 0);;
          when (bool_decide (pstate x = PROCESS_BLOCKED)) (process_set_ready it;; scheduler_add_process it);;
          wake_due_loop fuel now prev (sleep_next x)
        else wake_due_loop fuel now it (sleep_next x)
  end.

Definition sleep_list_wake_due (now : Z) : M unit :=
  h <- read g_sleep_list;
  fuel <- read fuel_of;
  wake_due_loop fuel now 0 h.

(** The timer interrupt (kernel/drivers/pit.c), without the diagnostics. *)
Definition timer_handler : M unit :=
  modify (λ s, put_timer_ticks (u64 (timer_ticks s + 1)) s);;
  now <- read timer_ticks;
  sleep_list_wake_due now;;
  cur <- read current;
  when (negb (cur =? 0)) (upd cur (λ x, set_cpu_ticks (u64 (cpu_ticks x + 1)) x)).

(** ** Wait objects *)

Definition wait_object_init : wait_object := WO 0 0 1.

Definition wo_ensure_init (o : Z) : M unit :=
  w <- get_object o;
  when (initialized w =? 0) (put_object o wait_object_init).

(** Takes the process found by [walk] out of the list. *)
Definition wo_take (o prev it : Z) : M unit :=
  w <- get_object o;
  x <- get it;
  (if prev =? 0 then put_object o (WO (wait_next x) (if tail w =? it then prev else tail w) (initialized w))
   else
     upd prev (set_wait_next (wait_next x));;
     put_object o (WO (waiters w) (if tail w =? it then prev else tail w) (initialized w)));;
  upd it (λ x, set_wait_on 0 (set_wait_next 0 x)).

Definition wo_unlink (o p : Z) : M bool :=
  w <- get_object o;
  fuel <- read fuel_of;
  found <- walk fuel wait_next (λ q _, q =? p) 0 (waiters w);
  match found with
  | None => ret false
  | Some (prev, it) => wo_take o prev it;; ret true
  end.

Definition wait_object_abort (o p : Z) : M bool :=
  wo_ensure_init o;;
  b <- wo_unlink o p;
  when b (process_unref p);;
  ret b.

Definition wo_pop_head (o : Z) : M Z :=
  w <- get_object o;
  let p := waiters w in
  if p =? 0 then ret 0
  else
    x <- get p;
    put_object o (WO (wait_next x) (if wait_next x =? 0 then 0 else tail w) (initialized w));;
    upd p (λ x, set_wait_on 0 (set_wait_next 0 x));;
    ret p.

Definition wo_pop_head_matching (o key : Z) : M Z :=
  w <- get_object o;
  fuel <- read fuel_of;
  found <- walk fuel wait_next (λ _ x, futex_key x =? key) 0 (waiters w);
  match found with
  | None => ret 0
  | Some (prev, it) => wo_take o prev it;; ret it
  end.

(** Makes a popped process ready, or drops it when it is no longer blocked. *)
Definition rouse (p : Z) : M bool :=
  x <- get p;
  if negb (bool_decide (pstate x = PROCESS_BLOCKED)) then process_unref p;; ret false
  else
    sleep_list_remove p;;
    upd p (set_wake_deadline 0);;
    process_set_ready p;;
    scheduler_add_process_home p;;
    process_unref p;;
    ret true.

(** [pop] is [wo_pop_head] or [wo_pop_head_matching]. *)
Fixpoint wake_one (fuel : nat) (pop : M Z) : M Z :=
  match fuel with
  | O => undefined
  | S fuel =>
      p <- pop;
      if p =? 0 then ret 0 else b <- rouse p; if b then ret p else wake_one fuel pop
  end.

Definition wo_wake_one_proc (o : Z) : M Z := fuel <- read fuel_of; wake_one fuel (wo_pop_head o).

Definition wo_wake_one_matching (o key : Z) : M Z := fuel <- read fuel_of; wake_one fuel (wo_pop_head_matching o key).

Fixpoint wake_all (fuel : nat) (o woken : Z) : M Z :=
  match fuel with
  | O => undefined
  | S fuel => p <- wo_wake_one_proc o; if p =? 0 then ret woken else wake_all fuel o (woken + 1)
  end.

Definition wait_object_signal (o : Z) (all : bool) : M Z :=
  wo_ensure_init o;;
  if all then fuel <- read fuel_of; wake_all fuel o 0
  else p <- wo_wake_one_proc o; ret (if p =? 0 then 0 else 1).

Fixpoint count_loop (fuel : nat) (p n : Z) : M Z :=
  match fuel with
  | O => undefined
  | S fuel => if p =? 0 then ret n else x <- get p; count_loop fuel (wait_next x) (n + 1)
  end.

Definition wait_object_count (o : Z) : M Z :=
  w <- get_object o; fuel <- read fuel_of; count_loop fuel (waiters w) 0.

(** ** Wait queues *)

Definition wq_init (o : Z) : M unit := put_object o wait_object_init.
Definition wq_wake_one (o : Z) : M Z := wo_ensure_init o;; wo_wake_one_proc o.
Definition wq_wake_one_key (o key : Z) : M Z := wo_ensure_init o;; wo_wake_one_matching o key.
Definition wq_wake_all (o : Z) : M Z := wait_object_signal o true.
Definition wq_count (o : Z) : M Z := wait_object_count o.

(** ** Blocking *)

(** Appends the process at the tail and marks it blocked. *)
Definition wo_link (o p : Z) : M unit :=
  upd p (λ x, set_wait_next 0 (set_wait_on o x));;
  w <- get_object o;
  (if negb (tail w =? 0) then upd (tail w) (set_wait_next p);; put_object o (WO (waiters w) p (initialized w))
   else put_object o (WO p p (initialized w)));;
  upd p (set_pstate PROCESS_BLOCKED).

(** The end of [wo_park_and_cleanup], from the resume on; true when a signal woke
    the process. *)
Definition park_cleanup (o p : Z) : M bool :=
  b <- wo_unlink o p;
  when b (process_unref p);;
  sleep_list_remove p;;
  upd p (set_wake_deadline 0);;
  ret (negb b).

(** What follows the choice of a successor: halt, resume at once, or switch.
    True when the process goes on to the cleanup without leaving the processor. *)
Definition park_dispatch (o p next : Z) (k : after) : M bool :=
  idle <- scheduler_idle_thread;
  if next =? idle then upd p (set_pc (Halted o k));; ret false
  else if negb (next =? p) then switch_to p next (Parked o k);; ret false
  else upd p (set_pstate PROCESS_RUNNING);; process_set_current p;; ret true.

Definition park (o p : Z) (k : after) : M bool :=
  next <- scheduler_pick_next; park_dispatch o p next k.

(** One turn of the idle loop after an interrupt. *)
Definition idle_turn (o p : Z) (k : after) : M bool :=
  x <- get p;
  if negb (bool_decide (pstate x = PROCESS_BLOCKED)) then ret true else park o p k.

(** [wait_object_block] up to the point where the process leaves the processor;
    true when it goes on at once. *)
Definition wait_object_block (o deadline : Z) (k : after) : M bool :=
  wo_ensure_init o;;
  cur <- read current;
  process_ref cur;;
  wo_link o cur;;
  when (negb (deadline =? 0)) (upd cur (set_wake_deadline deadline);; sleep_list_push cur);;
  park o cur k.

(** The futex word is read under the lock of the object; [uval] is its value. *)
Definition wait_object_prepare_futex (o uval val key : Z) : M bool :=
  wo_ensure_init o;;
  cur <- read current;
  if negb (uval =? val) then ret false
  else
    process_ref cur;;
    upd cur (set_futex_key key);;
    wo_link o cur;;
    ret true.

Definition wait_object_park_committed (o : Z) (k : after) : M bool :=
  cur <- read current; park o cur k.

End WaitObj.
