(* ===== verification/Lifecycle.v ===== *)
(** * Processes: creation, termination, signals, waitpid, priorities

    kernel/core/sched/process.c and nice.c, kernel/core/signal/kill.c, and the
    exit, waitpid and sleep system calls of kernel/core/syscall/handlers.c.
    Results of [kmalloc] and of copies to user space are arguments. *)

From S2P Require Import Prelude Errno Pcb Sched WaitObj.
Import Pcb Sched WaitObj.

Module Lifecycle.
Local Open Scope Z_scope.

Definition ECHILD : Z := -10.
Definition ESUCCESS : Z := 0.

(** ** The process table *)

Fixpoint first_free (i : Z) (used : list Z) : Z :=
  match used with
  | [] => 0
  | u :: l => if u =? 0 then i else first_free (i + 1) l
  end.

Definition allocate_pid : M Z :=
  used <- read pid_used;
  let i := first_free 1 (drop 1 used) in
  when (negb (i =? 0)) (modify (put_pid_used (<[Z.to_nat i := 1]> used)));;
  ret i.

Definition free_pid (pid : Z) : M unit :=
  when (negb ((pid =? 0) || (MAX_PROCESSES <=? pid))) (modify (λ s, put_pid_used (<[Z.to_nat pid := 0]> (pid_used s)) s)).

Definition process_get_by_pid (pid : Z) : M Z :=
  if MAX_PROCESSES <=? pid then ret 0
  else
    t <- read process_table;
    let p := t !!! Z.to_nat pid in
    when (negb (p =? 0)) (process_ref p);;
    ret p.

(** [a] is the address of the new block, and [ok] says whether the kernel stack,
    the address space and its counter could be allocated. *)
Definition process_create (a : Z) (ok : bool) : M Z :=
  pid <- allocate_pid;
  if pid =? 0 then ret 0
  else if (a =? 0) || negb ok then free_pid pid;; ret 0
  else
    cur <- read current;
    c <- (if cur =? 0 then ret None else x <- get cur; ret (Some x));
    seq <- read (λ s, u64 (g_create_seq s + 1));
    let new := Proc pid (from_option Pcb.pid 0 c) seq (from_option create_seq 0 c) PROCESS_CREATED 0 SCHED_QUANTUM_TICKS 0
      0 0 1 0 0 0 0 0 0 0 0 0 0 (from_option uid 0 c) 0 0 User in
    modify (λ s, put_g_create_seq seq (put_process_table (<[Z.to_nat pid := a]> (process_table s)) (put_procs (<[a := new]> (procs s)) s)));;
    ret a.

Definition process_adopt_pid0 (p : Z) : M unit :=
  x <- get p;
  if pid x =? 0 then ret tt
  else
    t <- read process_table;
    when ((pid x <? MAX_PROCESSES) && (t !!! Z.to_nat (pid x) =? p))
      (modify (λ s, put_process_table (<[Z.to_nat (pid x) := 0]> (process_table s)) (put_pid_used (<[Z.to_nat (pid x) := 0]> (pid_used s)) s)));;
    upd p (set_pid 0);;
    modify (λ s, put_pid_used (<[0%nat := 1]> (pid_used s)) (put_process_table (<[0%nat := p]> (process_table s)) s)).

(** ** Termination *)

Fixpoint reparent (child dying init_seq : Z) (l : list Z) (zombie : bool) : M bool :=
  match l with
  | [] => ret zombie
  | p :: l =>
      if (p =? 0) || (p =? child) then reparent child dying init_seq l zombie
      else
        x <- get p;
        if parent_pid x =? dying then
          upd p (λ x, set_parent_seq init_seq (set_parent_pid 1 x));;
          reparent child dying init_seq l (zombie || bool_decide (pstate x = PROCESS_TERMINATED))
        else reparent child dying init_seq l zombie
  end.

(** Wakes the process that waits on a wait queue allocated on first use. *)
Definition wake_child_wait (p : Z) : M unit :=
  x <- get p; when (negb (child_wait x =? 0)) (wq_wake_one (child_wait x);; ret tt).

Definition orphan_children (child dying : Z) : M bool :=
  if dying =? 1 then ret false
  else
    i <- process_get_by_pid 1;
    seq <- (if i =? 0 then ret 0 else x <- get i; process_unref i;; ret (create_seq x));
    t <- read process_table;
    reparent child dying seq t false.

Definition notify_parent (parent_pid parent_seq : Z) : M unit :=
  when (negb (parent_pid =? 0)) (
    parent <- process_get_by_pid parent_pid;
    when (negb (parent =? 0)) (
      y <- get parent;
      when ((parent_pid =? 1) || (create_seq y =? parent_seq)) (
        upd parent (λ y, set_sig_pending (Z.lor (sig_pending y) (Z.shiftl 1 17)) y);;
        wake_child_wait parent);;
      process_unref parent)).

Definition notify_init : M unit :=
  i <- process_get_by_pid 1;
  when (negb (i =? 0)) (wake_child_wait i;; process_unref i).

Definition process_on_terminate (child : Z) : M unit :=
  x <- get child;
  zombie <- orphan_children child (pid x);
  x <- get child;
  notify_parent (parent_pid x) (parent_seq x);;
  when zombie notify_init;;
  x <- get child;
  when (negb (child_wait x =? 0)) (wq_wake_all (child_wait x);; ret tt).

Definition reap_claim_release (p : Z) : M unit :=
  x <- get p;
  upd p (set_reaped 1);;
  when (reaped x =? 0) (process_unref p).

Definition process_destroy (p : Z) : M unit := scheduler_remove_process p;; process_unref p.

Definition sys_exit (status : Z) : M unit :=
  cur <- read current;
  if cur =? 0 then undefined
  else
    upd cur (λ x, set_exit_status (i32 status) (set_pstate PROCESS_TERMINATED x));;
    process_on_terminate cur;;
    scheduler_remove_process cur;;
    schedule.

(** ** Signals *)

Definition SIGKILL : Z := 9.
Definition SIGTERM : Z := 15.
Definition SIGCHLD : Z := 17.
Definition SIGCONT : Z := 18.
Definition SIGSTOP : Z := 19.
Definition SIGTSTP : Z := 20.
Definition SIGTTIN : Z := 21.
Definition SIGTTOU : Z := 22.
Definition SIGURG : Z := 23.
Definition SIGWINCH : Z := 28.
Definition NSIG : Z := 32.

(** Takes a blocked victim off its wait object, then ends it. *)
Definition terminate (target status : Z) : M unit :=
  x <- get target;
  when (bool_decide (pstate x = PROCESS_BLOCKED) && negb (wait_on x =? 0)) (wait_object_abort (wait_on x) target;; ret tt);;
  upd target (λ x, set_exit_status status (set_pstate PROCESS_TERMINATED x));;
  process_on_terminate target;;
  scheduler_remove_process target.

Definition stop (target : Z) : M unit :=
  upd target (λ x, set_stopped_by_signal 1 (set_pstate PROCESS_BLOCKED x));;
  scheduler_remove_process target.

Definition running_or_ready (x : process) : bool := bool_decide (pstate x = PROCESS_RUNNING) || bool_decide (pstate x = PROCESS_READY).

Definition deliver (target sig : Z) : M unit :=
  x <- get target;
  if sig =? SIGKILL then terminate target (128 + SIGKILL)
  else if sig =? SIGTERM then terminate target (128 + SIGTERM)
  else if sig =? SIGSTOP then when (running_or_ready x) (stop target)
  else if sig =? SIGCONT then
    when (bool_decide (pstate x = PROCESS_BLOCKED) && negb (stopped_by_signal x =? 0))
      (upd target (set_stopped_by_signal 0);; process_set_ready target;; scheduler_add_process target)
  else
    upd target (λ x, set_sig_pending (Z.lor (sig_pending x) (Z.shiftl 1 sig)) x);;
    when (bool_decide (pstate x = PROCESS_BLOCKED) && (stopped_by_signal x =? 0))
      (when (negb (wait_on x =? 0)) (wait_object_abort (wait_on x) target;; ret tt)).

Definition sys_kill (pid sig : Z) : M Z :=
  if NSIG <=? sig then ret EINVAL
  else if 0xFFFFFFFF <? pid then ret ESRCH
  else
    target <- process_get_by_pid pid;
    if target =? 0 then ret ESRCH
    else if sig =? 0 then process_unref target;; ret ESUCCESS
    else
      x <- get target;
      killer <- read current;
      denied <- (if killer =? 0 then ret false else k <- get killer; ret (negb (uid k =? 0) && negb (uid k =? uid x)));
      if denied then process_unref target;; ret EPERM
      else if bool_decide (pstate x = PROCESS_TERMINATED) then process_unref target;; ret ESRCH
      else deliver target sig;; process_unref target;; ret ESUCCESS.

(** The default action of a signal that has no handler, taken by the current
    process [p] on its way back to user mode. *)
Definition signal_default_action (p sig : Z) : M unit :=
  if (sig =? SIGCHLD) || (sig =? SIGURG) || (sig =? SIGWINCH) then ret tt
  else
    x <- get p;
    if (sig =? SIGTSTP) || (sig =? SIGTTIN) || (sig =? SIGTTOU) then when (running_or_ready x) (stop p;; schedule)
    else terminate p (128 + sig);; schedule.

(** ** Waiting for children *)

Definition WNOHANG : Z := 1.

Inductive scan_result := Found (p : Z) | Alive | NoChild.

(** The scan of all slots, from [i] on. *)
Fixpoint scan_children (n : nat) (i : Z) (me want : Z) (alive : bool) : M scan_result :=
  match n with
  | O => ret (if alive then Alive else NoChild)
  | S n =>
      p <- process_get_by_pid i;
      if p =? 0 then scan_children n (i + 1) me want alive
      else
        x <- get p;
        c <- get me;
        let ours := (parent_pid x =? pid c) && ((pid c =? 1) || (parent_seq x =? create_seq c)) && ((want =? 2 ^ 64 - 1) || (pid x =? u32 want)) in
        if ours && bool_decide (pstate x = PROCESS_TERMINATED) then ret (Found p)
        else process_unref p;; scan_children n (i + 1) me want (alive || ours)
  end.

(** Frees the zombie; the caller holds the reference of the scan. *)
Definition reap (p : Z) : M unit :=
  upd p (set_parent_pid 0);; reap_claim_release p;; process_destroy p.

(** One turn of the loop of [sys_waitpid]: a result for user mode, or none when
    the process blocks.  [copied] says whether the status could be written, and
    [a] is what [kmalloc] returns for the wait queue. *)
Definition waitpid_turn (pid status_ptr options : Z) (copied : bool) (a : Z) : M (option Z) :=
  cur <- read current;
  r <- scan_children (Z.to_nat MAX_PROCESSES) 0 cur pid false;
  match r with
  | Found p =>
      if negb (status_ptr =? 0) && negb copied then process_unref p;; ret (Some EFAULT)
      else x <- get p; reap p;; ret (Some (Pcb.pid x))
  | NoChild => ret (Some ECHILD)
  | Alive =>
      if negb (Z.land options WNOHANG =? 0) then ret (Some 0)
      else
        x <- get cur;
        when ((child_wait x =? 0) && negb (a =? 0)) (upd cur (set_child_wait a);; wq_init a);;
        x <- get cur;
        if child_wait x =? 0 then ret (Some 0) else ret None
  end.

(** ** Continuations *)

(** What the process does after [park_cleanup].  A wait for a child looks again,
    and may block again. *)
Fixpoint waitpid_loop (fuel : nat) (pid status_ptr options : Z) (copied : bool) (a : Z) : M unit :=
  match fuel with
  | O => undefined
  | S fuel =>
      r <- waitpid_turn pid status_ptr options copied a;
      match r with
      | Some _ => cur <- read current; upd cur (set_pc User)
      | None =>
          cur <- read current;
          x <- get cur;
          now <- wait_object_block (child_wait x) 0 (AfterWaitpid pid status_ptr options);
          when now (park_cleanup (child_wait x) cur;; waitpid_loop fuel pid status_ptr options copied a)
      end
  end.

Definition finish (k : after) (copied : bool) (a : Z) : M unit :=
  cur <- read current;
  match k with
  | AfterSleep => upd cur (set_pc User)
  | AfterFutex => upd cur (λ x, set_pc User (set_futex_key 0 x))
  | AfterWaitpid pid status_ptr options => fuel <- read fuel_of; waitpid_loop fuel pid status_ptr options copied a
  end.

(** The rest of a blocking call, when the process has the processor back. *)
Definition resume (o : Z) (k : after) (copied : bool) (a : Z) : M unit :=
  cur <- read current; park_cleanup o cur;; finish k copied a.

Definition sys_waitpid (pid status_ptr options : Z) (copied : bool) (a : Z) : M unit :=
  fuel <- read fuel_of; waitpid_loop fuel pid status_ptr options copied a.

(** ** Sleeping *)

Definition g_sleep_wobj : Z := 257.

(** The result is the one of a call that does not block. *)
Definition sys_sleep (ms : Z) : M (option Z) :=
  if ms =? 0 then r <- sys_yield; ret (Some r)
  else
    now <- read timer_ticks;
    let deadline := u64 (now + ms) in
    if deadline <? now then ret (Some EINVAL)
    else
      b <- wait_object_block g_sleep_wobj deadline AfterSleep;
      if b then resume g_sleep_wobj AfterSleep false 0;; ret (Some ESUCCESS) else ret None.

(** ** Priorities (nice.c) *)

Definition PRIO_MIN : Z := -20.
Definition PRIO_MAX : Z := 19.

Definition clamp_nice (n : Z) : Z := if n <? PRIO_MIN then PRIO_MIN else if PRIO_MAX <? n then PRIO_MAX else n.

(** The process named by a call, with a reference; 0 stands for the caller. *)
Definition target_of (pid : Z) : M Z :=
  if pid =? 0 then
    cur <- read current; when (negb (cur =? 0)) (process_ref cur);; ret cur
  else process_get_by_pid (u32 pid).

Definition may_renice (target : Z) : M bool :=
  cur <- read current;
  if cur =? 0 then ret true
  else c <- get cur; x <- get target; ret ((uid c =? 0) || (uid c =? uid x)).

Definition sys_nice (pid increment : Z) : M Z :=
  target <- target_of pid;
  if target =? 0 then ret ESRCH
  else
    x <- get target;
    let inc := i32 increment in
    let new_priority := clamp_nice (if pid =? 0 then i32 (priority x + inc) else inc) in
    ok <- may_renice target;
    if negb ok then process_unref target;; ret EPERM
    else upd target (set_priority new_priority);; process_unref target;; ret new_priority.

Definition sys_getpriority (which who : Z) : M Z :=
  if negb (which =? 0) then ret EINVAL
  else
    target <- target_of who;
    if target =? 0 then ret ESRCH
    else x <- get target; process_unref target;; ret (20 - priority x).

Definition sys_setpriority (which who prio : Z) : M Z :=
  if negb (which =? 0) then ret EINVAL
  else
    target <- target_of who;
    if target =? 0 then ret ESRCH
    else
      ok <- may_renice target;
      if negb ok then process_unref target;; ret EPERM
      else upd target (set_priority (clamp_nice (i32 prio)));; process_unref target;; ret ESUCCESS.

End Lifecycle.
