(* ===== verification/Futex.v ===== *)
(** * Futexes (kernel/core/syscall/futex.c)

    A futex word is named by its physical address, which the kernel finds by
    walking the page tables; [word] is the content of physical memory and [cr3]
    the page table of the caller.  The waiters on all words whose address hashes
    to the same bucket share one wait queue. *)

From S2P Require Import Prelude Errno Pcb Sched WaitObj Lifecycle.
Import Pcb Sched WaitObj Lifecycle.

Module Futex.
Local Open Scope Z_scope.

Definition ENOTSUP : Z := -95.
Definition FUTEX_WAIT : Z := 0.
Definition FUTEX_WAKE : Z := 1.
Definition FUTEX_WAIT_TIMEOUT : Z := 2.
Definition FUTEX_HASHSIZE : Z := 256.
Definition FUTEX_HASHMASK : Z := FUTEX_HASHSIZE - 1.
Definition PAGE_PRESENT : Z := 1.
Definition PAGE_USER : Z := 4.
Definition INT32_MAX : Z := 2 ^ 31 - 1.

(** The wait queue of a bucket of [futex_table]. *)
Definition futex_bucket (i : Z) : Z := i + 1.

Definition futex_init : M unit :=
  modify (λ s, put_futex_initialized 1 (put_objects
    (foldr (λ i m, <[futex_bucket (Z.of_nat i) := wait_object_init]> m) (objects s) (seq 0 (Z.to_nat FUTEX_HASHSIZE))) s)).

Definition futex_hash (phys_addr : Z) : Z :=
  let hash := phys_addr in
  let hash := Z.lxor hash (Z.shiftr hash 12) in
  let hash := Z.lxor hash (Z.shiftr hash 24) in
  Z.land hash FUTEX_HASHMASK.

Definition futex_validate_addr (uaddr : Z) : Z :=
  if negb (Z.land uaddr 3 =? 0) then EINVAL
  else if 0x800000000000 <=? uaddr then EINVAL
  else 0.

Section Memory.
Context (word : Z → Z) (cr3 : Z).

Definition PUSER : Z := Z.lor PAGE_PRESENT PAGE_USER.
Definition accessible (entry : Z) : bool := Z.land entry PUSER =? PUSER.

(** The entry for [virt] in the table at [table], by its index at [shift]. *)
Definition entry_at (table virt shift : Z) : Z := word (table + 8 * Z.land (Z.shiftr virt shift) 0x1FF).

Definition futex_get_phys_addr (virt : Z) : Z :=
  let pml4e := entry_at (Z.land cr3 (not64 0xFFF)) virt 39 in
  if negb (accessible pml4e) then 0
  else
    let pdpte := entry_at (Z.land pml4e (not64 0xFFF)) virt 30 in
    if negb (accessible pdpte) then 0
    else
      let pde := entry_at (Z.land pdpte (not64 0xFFF)) virt 21 in
      if negb (accessible pde) then 0
      else if negb (Z.land pde (Z.shiftl 1 7) =? 0) then u64 (Z.land pde (not64 0x1FFFFF) + Z.land virt 0x1FFFFF)
      else
        let pte := entry_at (Z.land pde (not64 0xFFF)) virt 12 in
        if negb (accessible pte) then 0 else u64 (Z.land pte (not64 0xFFF) + Z.land virt 0xFFF).

(** The word is read with the lock of the bucket held.  The result is none when
    the process blocks. *)
Definition futex_wait (uaddr val uval : Z) : M (option Z) :=
  let r := futex_validate_addr uaddr in
  if negb (r =? 0) then ret (Some r)
  else
    let phys_addr := futex_get_phys_addr uaddr in
    if phys_addr =? 0 then ret (Some EFAULT)
    else
      let bucket := futex_bucket (futex_hash phys_addr) in
      linked <- wait_object_prepare_futex bucket uval val phys_addr;
      if negb linked then ret (Some EAGAIN)
      else
        now <- wait_object_park_committed bucket AfterFutex;
        if now then resume bucket AfterFutex false 0;; ret (Some 0) else ret None.

(** Wakes waiters while there are any and fewer than [n] have been woken;
    [INT32_MAX] stands for all of them. *)
Fixpoint futex_wake_loop (fuel : nat) (bucket key n woken : Z) : M Z :=
  match fuel with
  | O => undefined
  | S fuel =>
      if negb (n =? INT32_MAX) && (n <=? woken) then ret woken
      else
        p <- wq_wake_one_key bucket key;
        if p =? 0 then ret woken else futex_wake_loop fuel bucket key n (woken + 1)
  end.

Definition futex_wake (uaddr nr_wake : Z) : M Z :=
  let r := futex_validate_addr uaddr in
  if negb (r =? 0) then ret r
  else
    let phys_addr := futex_get_phys_addr uaddr in
    if phys_addr =? 0 then ret EFAULT
    else
      let bucket := futex_bucket (futex_hash phys_addr) in
      if 1 <=? nr_wake then fuel <- read fuel_of; futex_wake_loop (S fuel) bucket phys_addr nr_wake 0 else ret 0.

Definition sys_futex (uaddr op val uval : Z) : M (option Z) :=
  i <- read futex_initialized;
  when (i =? 0) futex_init;;
  let op := i32 op in
  let val := i32 val in
  if op =? FUTEX_WAIT then futex_wait uaddr val uval
  else if op =? FUTEX_WAKE then r <- futex_wake uaddr val; ret (Some r)
  else if op =? FUTEX_WAIT_TIMEOUT then ret (Some ENOTSUP)
  else ret (Some EINVAL).

End Memory.

End Futex.
