(* ===== verification/SchedSys.v ===== *)
(** * The scheduler as a transition system

    Processes enter the kernel by system calls, one at a time; the timer
    interrupts anywhere between them; a process that gets the processor back
    inside a blocking call finishes that call first. *)

From S2P Require Import Prelude Errno Pcb Sched WaitObj Lifecycle Futex.
Import Pcb Sched WaitObj Lifecycle Futex.

Module SchedSys.
Local Open Scope Z_scope.

(** ** Start-up *)

(** The memory before [process_init] and [scheduler_init]: the static wait objects
    of futex.c are zero, the one of sys_sleep is initialised. *)
Definition power_on : state :=
  State ∅ (<[g_sleep_wobj := wait_object_init]> (list_to_map ((λ i, (futex_bucket (Z.of_nat i), WO 0 0 0)) <$> seq 0 256)))
    runqueue_init runqueue_init false 0 0 0 0 0 (replicate 256 0) (replicate 256 0) 0 0.

Definition create_idle_thread (a : Z) : M Z :=
  idle <- process_create a true;
  process_adopt_pid0 idle;;
  upd idle (λ x, set_time_slice 1 (set_priority 19 x));;
  process_set_ready idle;;
  ret idle.

Definition scheduler_init (a : Z) : M unit :=
  modify (λ s, put_active false (put_rq0 runqueue_init (put_rq1 runqueue_init (put_ready_count 0 s))));;
  idle <- create_idle_thread a;
  modify (put_idle_thread idle).

Definition scheduler_start : M unit :=
  first <- scheduler_pick_next;
  upd first (set_pstate PROCESS_RUNNING);;
  process_set_current first.

(** Boot with the idle thread at [a] and the first process at [b]. *)
Definition boot (a b : Z) : M unit :=
  scheduler_init a;;
  p <- process_create b true;
  scheduler_add_process p;;
  scheduler_start.

(** ** Events *)

Inductive event :=
| Spawn (a : Z) (ok : bool)
| Yield
| Sleep (ms : Z)
| FutexCall (word : Z → Z) (cr3 uaddr op val uval : Z)
| Kill (pid sig : Z)
| DefaultAction (sig : Z)
| Exit (status : Z)
| Waitpid (pid status_ptr options : Z) (copied : bool) (a : Z)
| Nice (pid increment : Z)
| SetPriority (which who prio : Z)
| Tick
| Turn (copied : bool) (a : Z)
| Resume (copied : bool) (a : Z).

Definition spawn (a : Z) (ok : bool) : M unit :=
  p <- process_create a ok; when (negb (p =? 0)) (scheduler_add_process p).

(** The process in the middle of a blocking call. *)
Definition turn (copied : bool) (a : Z) : M unit :=
  cur <- read current;
  x <- get cur;
  match pc x with
  | Halted o k => now <- idle_turn o cur k; when now (resume o k copied a)
  | _ => undefined
  end.

Definition resumed (copied : bool) (a : Z) : M unit :=
  cur <- read current;
  x <- get cur;
  match pc x with
  | Parked o k => resume o k copied a
  | _ => undefined
  end.

Definition perform (e : event) : M unit :=
  match e with
  | Spawn a ok => spawn a ok
  | Yield => sys_yield;; ret tt
  | Sleep ms => sys_sleep ms;; ret tt
  | FutexCall word cr3 uaddr op val uval => sys_futex word cr3 uaddr op val uval;; ret tt
  | Kill pid sig => sys_kill pid sig;; ret tt
  | DefaultAction sig => cur <- read current; signal_default_action cur sig
  | Exit status => sys_exit status
  | Waitpid pid status_ptr options copied a => sys_waitpid pid status_ptr options copied a
  | Nice pid increment => sys_nice pid increment;; ret tt
  | SetPriority which who prio => sys_setpriority which who prio;; ret tt
  | Tick => timer_handler
  | Turn copied a => turn copied a
  | Resume copied a => resumed copied a
  end.

(** The current process is in user mode, or inside a blocking call. *)
Definition in_user (s : state) : Prop := current s ≠ idle_thread s ∧ ∃ x, procs s !! current s = Some x ∧ pc x = User.
Definition is_halted (s : state) : Prop := ∃ x o k, procs s !! current s = Some x ∧ pc x = Halted o k.
Definition is_parked (s : state) : Prop := ∃ x o k, procs s !! current s = Some x ∧ pc x = Parked o k.

(** [kmalloc] returns NULL or memory that is not in use. *)
Definition fresh_object (a : Z) (s : state) : Prop := a = 0 ∨ 257 < a ∧ objects s !! a = None.

(** When an event can happen, and what its arguments are. *)
Definition enabled (e : event) (s : state) : Prop :=
  match e with
  | Spawn a _ => in_user s ∧ procs s !! a = None
  | Kill pid sig => in_user s ∧ 0 ≤ pid ∧ 0 ≤ sig
  | DefaultAction sig => in_user s ∧ 0 ≤ sig < 32
  | Waitpid _ _ _ _ a => in_user s ∧ fresh_object a s
  | Tick => True
  | Turn _ a => is_halted s ∧ fresh_object a s
  | Resume _ a => is_parked s ∧ fresh_object a s
  | Sleep ms => in_user s ∧ 0 ≤ ms < 2 ^ 64
  | _ => in_user s
  end.

End SchedSys.
