(* ===== verification/SchedInv.v ===== *)
(** * Scheduler: the invariant

    What the linked lists of the scheduler hold, as plain lists, and what every
    reference of a process is accounted to.  Operations are proved with a total
    weakest precondition: they are defined, and what they establish. *)

From S2P Require Import Prelude Errno Links Pcb Sched WaitObj.
Import Links Pcb Sched WaitObj.

Module SchedInv.
Local Open Scope Z_scope.

(** ** Weakest preconditions *)

Definition wp {A} (m : M A) (s : state) (Φ : A → state → Prop) : Prop := ∃ x s', m s = Some (x, s') ∧ Φ x s'.

Section wp.
Context {A B : Type}.
Implicit Types (m : M A) (f : A → M B).

Lemma wp_bind m f s Φ : wp m s (λ x s', wp (f x) s' Φ) → wp (bind m f) s Φ.
Proof. intros (x & s' & H & y & s'' & Hf & HΦ). exists y, s''. split; [|done]. unfold bind. by rewrite H. Qed.

Lemma wp_use m f s Ψ Φ : wp m s Ψ → (∀ x s', Ψ x s' → wp (f x) s' Φ) → wp (bind m f) s Φ.
Proof. intros (x & s' & H & HΨ) Hf. apply wp_bind. exists x, s'. split; [done|]. by apply Hf. Qed.

Lemma wp_mono m s (Φ Ψ : A → state → Prop) : wp m s Ψ → (∀ x s', Ψ x s' → Φ x s') → wp m s Φ.
Proof. intros (x & s' & H & HΨ) Hf. exists x, s'. split; [done|]. by apply Hf. Qed.

Lemma wp_ret (x : A) s (Φ : A → state → Prop) : Φ x s → wp (ret x) s Φ.
Proof. intros H. by exists x, s. Qed.

Lemma wp_read (g : state → A) s (Φ : A → state → Prop) : Φ (g s) s → wp (read g) s Φ.
Proof. intros H. by exists (g s), s. Qed.
End wp.

Lemma wp_modify g s Φ : Φ tt (g s) → wp (modify g) s Φ.
Proof. intros H. by exists tt, (g s). Qed.

Lemma wp_get p x s Φ : procs s !! p = Some x → Φ x s → wp (get p) s Φ.
Proof. intros Hp H. exists x, s. unfold get. by rewrite Hp. Qed.

Lemma wp_upd p f s Φ : is_Some (procs s !! p) → Φ tt (put_procs (alter f p (procs s)) s) → wp (upd p f) s Φ.
Proof. intros [x Hp] H. eexists tt, _. unfold upd. by rewrite Hp. Qed.

Lemma wp_get_object o w s Φ : objects s !! o = Some w → Φ w s → wp (get_object o) s Φ.
Proof. intros Ho H. exists w, s. unfold get_object. by rewrite Ho. Qed.

Lemma wp_when b m s (Φ : unit → state → Prop) : (b = true → wp m s Φ) → (b = false → Φ tt s) → wp (when b m) s Φ.
Proof. destruct b; cbn; intros H1 H2; [by apply H1|]. apply wp_ret. by apply H2. Qed.

Lemma wp_if {A} (b : bool) (m m' : M A) s Φ : (b = true → wp m s Φ) → (b = false → wp m' s Φ) → wp (if b then m else m') s Φ.
Proof. destruct b; auto. Qed.

Lemma wp_assoc {A B C} (m : M A) (f : A → M B) (g : B → M C) s Φ : wp (bind (bind m f) g) s Φ → wp (bind m (λ x, bind (f x) g)) s Φ.
Proof. intros (y & s' & H & HΦ). exists y, s'. split; [|done]. unfold bind in *. destruct (m s) as [[]|]; done. Qed.

(** ** Views *)

(** The queues of the two arrays by priority, the waiters of each object, and the
    sleepers, in the order of their lists. *)
Record view := View { Q : bool → nat → list Z; W : Z → list Z; SL : list Z }.

Definition levels : nat := 140.

Definition bit_of (bm : list Z) (k : nat) : bool := Z.testbit (bm !!! (k / 64)%nat) (Z.of_nat (k mod 64)).

Record queue_ok (nx : gmap Z Z) (r : runqueue) (L : nat → list Z) : Prop := QueueOk {
  q_lengths : length (queues r) = levels ∧ length (tails r) = levels ∧ length (bitmap r) = 3%nat;
  q_chain k : (k < levels)%nat → chain nx (queues r !!! k) (L k);
  q_tail k : (k < levels)%nat → tails r !!! k = tail_of (L k);
  q_none k : (levels ≤ k)%nat → L k = [];
  q_word i : (i < 3)%nat → 0 ≤ bitmap r !!! i < 2 ^ 64;
  q_bit k : (k < 192)%nat → bit_of (bitmap r) k = bool_decide (L k ≠ []) }.

(** All processes of one array. *)
Definition members (L : nat → list Z) : list Z := concat (L <$> seq 0 levels).

(** The references that the state accounts for. *)
Definition holders (cur idle p : Z) (x : process) : Z :=
  (1 - reaped x) + Z.b2z (bool_decide (p = cur ∧ p ≠ idle)) + on_queue x + Z.b2z (negb (wait_on x =? 0)).

Definition SLEEP : Z := 257.

(** The objects a process can wait on: the static ones and its own. *)
Definition waits_at (x : process) (o : Z) : Prop := 1 ≤ o ≤ SLEEP ∨ o = child_wait x ∧ o ≠ 0.

(** [hole] is the process, if any, that is entering or leaving a blocking call: it
    may still be linked where its kernel stack does not say so. *)
Definition pc_ok (hole p : Z) (x : process) : Prop :=
  match pc x with
  | User => p = hole ∨ wait_on x = 0
  | Halted o _ | Parked o _ => waits_at x o ∧ (p = hole ∨ wait_on x = 0 ∨ wait_on x = o)
  end.

(** [extra] counts the other references of each process. *)
Record proc_ok (v : view) (cur idle : Z) (extra : Z → Z) (hole p : Z) (x : process) : Prop := ProcOk {
  po_addr : p ≠ 0;
  po_queue : on_queue x = 1 ∧ (∃ r k, p ∈ Q v r k) ∨ on_queue x = 0 ∧ (∀ r k, p ∉ Q v r k);
  po_reaped : reaped x = 0 ∨ reaped x = 1;
  po_wait o : p ∈ W v o ↔ wait_on x = o ∧ o ≠ 0;
  po_waits : wait_on x ≠ 0 → waits_at x (wait_on x);
  po_sleep : p ∈ SL v → p = hole ∨ wait_on x = SLEEP;
  po_refs : ref_count x = holders cur idle p x + extra p;
  po_live : 0 < ref_count x < 2 ^ 32;
  po_boost : 0 ≤ yield_boost x ≤ PRIORITY_YIELD_BOOST_MAX;
  po_pc : pc_ok hole p x;
  po_child : child_wait x = 0 ∨ SLEEP < child_wait x }.

Record table_ok (pids : gmap Z Z) (table used : list Z) : Prop := TableOk {
  t_lengths : length table = 256%nat ∧ length used = 256%nat;
  t_pid p i : pids !! p = Some i → 0 ≤ i < 256 ∧ table !! Z.to_nat i = Some p;
  t_slot i p : table !! i = Some p → p ≠ 0 → pids !! p = Some (Z.of_nat i);
  t_free i : used !! i = Some 0 → i ≠ 0%nat → table !! i = Some 0 }.

Record object_ok (wn : gmap Z Z) (w : wait_object) (l : list Z) : Prop := ObjectOk {
  o_chain : chain wn (waiters w) l;
  o_tail : tail w = tail_of l;
  o_init : initialized w = 0 → l = [] }.

Record inv (v : view) (s : state) (extra : Z → Z) (hole : Z) : Prop := Inv {
  i_rq r : queue_ok (next <$> procs s) (rq_of r s) (Q v r);
  i_disj r k r' k' p : p ∈ Q v r k → p ∈ Q v r' k' → r = r' ∧ k = k';
  i_count : ready_count s = u32 (Z.of_nat (length (members (Q v false)) + length (members (Q v true))));
  i_obj o w : objects s !! o = Some w → object_ok (wait_next <$> procs s) w (W v o);
  i_noobj o : objects s !! o = None → W v o = [];
  i_static o : 1 ≤ o ≤ SLEEP → is_Some (objects s !! o);
  i_child p x : procs s !! p = Some x → child_wait x ≠ 0 → is_Some (objects s !! child_wait x);
  i_child_inj p q x y : procs s !! p = Some x → procs s !! q = Some y → child_wait x ≠ 0 → child_wait x = child_wait y → p = q;
  i_futex : futex_initialized s = 0 → ∀ o, 1 ≤ o < SLEEP → W v o = [];
  i_sleep : chain (sleep_next <$> procs s) (g_sleep_list s) (SL v);
  i_table : table_ok (pid <$> procs s) (process_table s) (pid_used s);
  i_procs p x : procs s !! p = Some x → proc_ok v (current s) (idle_thread s) extra hole p x;
  i_extra p : 0 ≤ extra p ∧ (0 < extra p → is_Some (procs s !! p));
  i_current : current s = 0 ∨ is_Some (procs s !! current s);
  i_idle : ∃ x, procs s !! idle_thread s = Some x ∧ pid x = 0 ∧ on_queue x = 0 ∧ wait_on x = 0 ∧ reaped x = 0 ∧ parent_pid x = 0 ∧ pc x = User }.

(** ** Plain updates *)

(** A function on processes that keeps the fields the invariant is about. *)
Definition plain (f : process → process) : Prop := ∀ x,
  pid (f x) = pid x ∧ next (f x) = next x ∧ on_queue (f x) = on_queue x ∧ ref_count (f x) = ref_count x ∧ reaped (f x) = reaped x ∧
  wait_on (f x) = wait_on x ∧ wait_next (f x) = wait_next x ∧ sleep_next (f x) = sleep_next x ∧ child_wait (f x) = child_wait x ∧
  yield_boost (f x) = yield_boost x ∧ pc (f x) = pc x ∧ parent_pid (f x) = parent_pid x.

Lemma fmap_alter_same {A} (g : process → A) f p (m : gmap Z process) : (∀ x, m !! p = Some x → g (f x) = g x) → g <$> alter f p m = g <$> m.
Proof.
  intros H. apply map_eq. intros q. rewrite !lookup_fmap. destruct (decide (p = q)) as [->|Hq]; [|by rewrite lookup_alter_ne].
  rewrite lookup_alter_eq. destruct (m !! q) as [x|] eqn:E; [|done]. cbn. by rewrite H.
Qed.

Lemma fmap_alter_set {A} (g : process → A) f p x (m : gmap Z process) : m !! p = Some x → g <$> alter f p m = <[p := g (f x)]> (g <$> m).
Proof.
  intros Hp. apply map_eq. intros q. rewrite lookup_fmap. destruct (decide (p = q)) as [->|Hq].
  - by rewrite lookup_alter_eq, lookup_insert_eq, Hp.
  - by rewrite lookup_alter_ne, lookup_insert_ne, lookup_fmap.
Qed.

Lemma lookup_alter_cases f p q (m : gmap Z process) y : alter f p m !! q = Some y →
  ∃ x, m !! q = Some x ∧ (q = p ∧ y = f x ∨ q ≠ p ∧ y = x).
Proof.
  destruct (decide (p = q)) as [->|Hq].
  - rewrite lookup_alter_eq. destruct (m !! q) as [x|]; cbn; [|done]. intros [= <-]. exists x. split; [done|]. by left.
  - rewrite lookup_alter_ne by done. intros H. exists y. split; [done|]. by right.
Qed.

(** An update that leaves the links and the identity of a process alone; the
    accounts may change with it. *)
Lemma inv_change v s e e' h h' p f x : inv v s e h → procs s !! p = Some x →
  pid (f x) = pid x → next (f x) = next x → wait_next (f x) = wait_next x → sleep_next (f x) = sleep_next x → child_wait (f x) = child_wait x →
  on_queue (f x) = on_queue x → wait_on (f x) = wait_on x → (reaped (f x) = reaped x ∧ parent_pid (f x) = parent_pid x ∧ pc (f x) = pc x) ∨ p ≠ idle_thread s →
  proc_ok v (current s) (idle_thread s) e' h' p (f x) →
  (∀ q y, q ≠ p → proc_ok v (current s) (idle_thread s) e h q y → proc_ok v (current s) (idle_thread s) e' h' q y) →
  (∀ q, 0 ≤ e' q ∧ (0 < e' q → is_Some (procs s !! q))) →
  inv v (put_procs (alter f p (procs s)) s) e' h'.
Proof.
  intros Hi Hp E1 E2 E3 E4 E5 E6 E7 E8 Hok Hoth Hex. destruct Hi. split; cbn [put_procs procs objects rq0 rq1 ready_count current idle_thread g_sleep_list process_table pid_used futex_initialized].
  - intros r. rewrite fmap_alter_same by (intros ? ?; by simplify_eq). exact (i_rq0 r).
  - done.
  - done.
  - intros o w Ho. rewrite fmap_alter_same by (intros ? ?; by simplify_eq). by apply i_obj0.
  - done.
  - done.
  - intros q y (z & Hz & [[-> ->]|[_ ->]])%lookup_alter_cases; [|by eapply i_child0]. simplify_eq. rewrite E5. by eapply i_child0.
  - intros q q' y y' (z & Hz & Hy)%lookup_alter_cases (z' & Hz' & Hy')%lookup_alter_cases H0 Hc.
    apply (i_child_inj0 q q' z z'); [done|done| |]; destruct Hy as [[-> ->]|[_ ->]], Hy' as [[-> ->]|[_ ->]]; simplify_eq; congruence.
  - done.
  - rewrite fmap_alter_same by (intros ? ?; by simplify_eq). done.
  - rewrite fmap_alter_same by (intros ? ?; by simplify_eq). done.
  - intros q y (z & Hz & [[-> ->]|[? ->]])%lookup_alter_cases; [by simplify_eq|]. apply Hoth; [done|by apply i_procs0].
  - intros q. rewrite lookup_alter_is_Some. apply Hex.
  - by rewrite lookup_alter_is_Some.
  - destruct i_idle0 as (y & Hy & H1 & H2 & H3 & H4 & H5 & H6). destruct (decide (idle_thread s = p)) as [Ei|Hq].
    + exists (f y). rewrite Ei, lookup_alter_eq. rewrite <- Ei, Hy. rewrite Ei in Hy. simplify_eq. destruct E8 as [(E8 & E9 & E10)|E8]; [|done]. split; [done|]. by rewrite E1, E6, E7, E8, E9, E10.
    + exists y. by rewrite lookup_alter_ne.
Qed.

Lemma inv_update v s e h p f x : inv v s e h → procs s !! p = Some x →
  pid (f x) = pid x → next (f x) = next x → wait_next (f x) = wait_next x → sleep_next (f x) = sleep_next x → child_wait (f x) = child_wait x →
  on_queue (f x) = on_queue x → wait_on (f x) = wait_on x → (reaped (f x) = reaped x ∧ parent_pid (f x) = parent_pid x ∧ pc (f x) = pc x) ∨ p ≠ idle_thread s →
  proc_ok v (current s) (idle_thread s) e h p (f x) → inv v (put_procs (alter f p (procs s)) s) e h.
Proof. intros Hi Hp E1 E2 E3 E4 E5 E6 E7 E8 Hok. apply (inv_change v s e e h h p f x); try done. by apply (i_extra v s e h). Qed.

Lemma proc_ok_ext v cur idle extra hole p x y : on_queue y = on_queue x → reaped y = reaped x → wait_on y = wait_on x → child_wait y = child_wait x →
  ref_count y = ref_count x → yield_boost y = yield_boost x → pc y = pc x → proc_ok v cur idle extra hole p x → proc_ok v cur idle extra hole p y.
Proof.
  intros E1 E2 E3 E4 E5 E6 E7 []. split; unfold holders, pc_ok, waits_at in *; rewrite ?E1, ?E2, ?E3, ?E4, ?E5, ?E6, ?E7; done.
Qed.

Lemma inv_plain v s extra hole p f : plain f → inv v s extra hole → is_Some (procs s !! p) → inv v (put_procs (alter f p (procs s)) s) extra hole.
Proof.
  intros Hf Hi [x Hp]. destruct (Hf x) as (F1 & F2 & F3 & F4 & F5 & F6 & F7 & F8 & F9 & F10 & F11 & F12). eapply inv_update; eauto.
  eapply proc_ok_ext; eauto. by apply i_procs.
Qed.

End SchedInv.
