(* ===== verification/SchedQueue.v ===== *)
(** * Scheduler: one array of priority queues

    The bit map and the pointers of a run queue after an insertion at a tail, a
    removal at a head and a removal in the middle. *)

From S2P Require Import Prelude Errno Links Pcb Sched WaitObj SchedInv.
Import Links Pcb Sched WaitObj SchedInv.

Module SchedQueue.
Local Open Scope Z_scope.

(** ** The bit map *)

Lemma word_index (k : nat) : Z.to_nat (Z.of_nat k / 64) = (k / 64)%nat ∧ Z.of_nat k mod 64 = Z.of_nat (k mod 64).
Proof. change 64 with (Z.of_nat 64). rewrite <- Nat2Z.inj_div, <- Nat2Z.inj_mod. by rewrite Nat2Z.id. Qed.

Lemma word_bound (k : nat) : (k < 192)%nat → (k / 64 < 3)%nat.
Proof. intros H. apply Nat.Div0.div_lt_upper_bound; lia. Qed.

Lemma same_bit (j k : nat) : (j / 64 = k / 64)%nat → (j mod 64 = k mod 64)%nat → j = k.
Proof. intros H1 H2. rewrite (Nat.div_mod_eq j 64), (Nat.div_mod_eq k 64). lia. Qed.

Lemma bit_at (j k : nat) : (Z.of_nat (j mod 64) =? Z.of_nat (k mod 64)) = bool_decide (j mod 64 = k mod 64)%nat.
Proof. destruct (Z.eqb_spec (Z.of_nat (j mod 64)) (Z.of_nat (k mod 64))); case_bool_decide; lia. Qed.

Lemma bit_set bm (j k : nat) : length bm = 3%nat → (k < 192)%nat → bit_of (bitmap_set (Z.of_nat k) bm) j = bool_decide (j = k) || bit_of bm j.
Proof.
  intros Hl Hk. unfold bit_of, bitmap_set. destruct (word_index k) as [-> ->]. pose proof (word_bound k Hk) as Hb.
  destruct (decide ((j / 64)%nat = (k / 64)%nat)) as [E|E].
  - rewrite E, list_lookup_total_insert_eq by lia. rewrite lor_bit_spec by lia. rewrite bit_at. f_equal.
    apply bool_decide_ext. split; [|by intros ->]. by apply same_bit.
  - rewrite list_lookup_total_insert_ne by done. rewrite bool_decide_false; [done|]. by intros ->.
Qed.

Lemma bit_clear bm (j k : nat) : length bm = 3%nat → (k < 192)%nat → (∀ i, (i < 3)%nat → 0 ≤ bm !!! i < 2 ^ 64) →
  bit_of (bitmap_clear (Z.of_nat k) bm) j = bit_of bm j && negb (bool_decide (j = k)).
Proof.
  intros Hl Hk Hw. unfold bit_of, bitmap_clear. destruct (word_index k) as [-> ->]. pose proof (word_bound k Hk) as Hb.
  pose proof (Nat.mod_upper_bound k 64). pose proof (Nat.mod_upper_bound j 64).
  destruct (decide ((j / 64)%nat = (k / 64)%nat)) as [E|E].
  - rewrite E, list_lookup_total_insert_eq by lia. rewrite land_not_bit_spec by lia. rewrite bit_at, andb_comm. do 2 f_equal.
    apply bool_decide_ext. split; [|by intros ->]. by apply same_bit.
  - rewrite list_lookup_total_insert_ne by done. rewrite (bool_decide_false (j = k)), andb_true_r; [done|]. by intros ->.
Qed.

Lemma words_set bm (k : nat) : length bm = 3%nat → (k < 192)%nat → (∀ i, (i < 3)%nat → 0 ≤ bm !!! i < 2 ^ 64) →
  ∀ i, (i < 3)%nat → 0 ≤ bitmap_set (Z.of_nat k) bm !!! i < 2 ^ 64.
Proof.
  intros Hl Hk Hw i Hi. unfold bitmap_set. destruct (word_index k) as [-> ->]. pose proof (word_bound k Hk) as Hb. pose proof (Nat.mod_upper_bound k 64).
  destruct (decide (i = (k / 64)%nat)) as [->|E]; [|rewrite list_lookup_total_insert_ne by done; auto].
  rewrite list_lookup_total_insert_eq by lia. apply lor_bit_range; [auto|lia].
Qed.

Lemma words_clear bm (k : nat) : length bm = 3%nat → (k < 192)%nat → (∀ i, (i < 3)%nat → 0 ≤ bm !!! i < 2 ^ 64) →
  ∀ i, (i < 3)%nat → 0 ≤ bitmap_clear (Z.of_nat k) bm !!! i < 2 ^ 64.
Proof.
  intros Hl Hk Hw i Hi. unfold bitmap_clear. destruct (word_index k) as [-> ->]. pose proof (word_bound k Hk) as Hb.
  destruct (decide (i = (k / 64)%nat)) as [->|E]; [|rewrite list_lookup_total_insert_ne by done; auto].
  rewrite list_lookup_total_insert_eq by lia. apply land_range_l. auto.
Qed.

Lemma ffs_words_spec w l : (∀ i, (i < length l)%nat → 0 ≤ l !!! i < 2 ^ 64) →
  (ffs_words w l = -1 ∧ ∀ i, (i < length l)%nat → l !!! i = 0) ∨
  (∃ i, (i < length l)%nat ∧ l !!! i ≠ 0 ∧ (∀ j, (j < i)%nat → l !!! j = 0) ∧ ffs_words w l = (w + Z.of_nat i) * 64 + ctzll (l !!! i)).
Proof.
  revert w. induction l as [|x l IH]; intros w Hw; cbn [ffs_words].
  - left. split; [done|]. intros i Hi. cbn in Hi. lia.
  - destruct (Z.eqb_spec x 0) as [->|Hx]; cbn [negb].
    + destruct (IH (w + 1)) as [[E H]|(i & Hi & H0 & Hj & E)].
      { intros i Hi. apply (Hw (S i)). cbn. lia. }
      * left. split; [done|]. intros [|i] Hi; [done|]. apply H. cbn in Hi. lia.
      * right. exists (S i). split; [cbn; lia|]. split; [done|]. split; [|rewrite E; change ((0 :: l) !!! S i) with (l !!! i); lia]. intros [|j] Hj'; [done|]. apply Hj. lia.
    + right. exists 0%nat. split; [cbn; lia|]. split; [done|]. split; [lia|]. change ((x :: l) !!! 0%nat) with x. lia.
Qed.

Definition empty_queue (L : nat → list Z) : Prop := ∀ k, L k = [].

(** The bit map leads to the best queue that is not empty. *)
Lemma bitmap_ffs_spec nx r L : queue_ok nx r L →
  (bitmap_ffs (bitmap r) = -1 ∧ empty_queue L) ∨
  (∃ k, (k < levels)%nat ∧ bitmap_ffs (bitmap r) = Z.of_nat k ∧ L k ≠ [] ∧ ∀ j, (j < k)%nat → L j = []).
Proof.
  intros [(_ & _ & Hl) _ _ Hn Hw Hb]. destruct (ffs_words_spec 0 (bitmap r)) as [[E H]|(i & Hi & H0 & Hj & E)]; [intros i Hi; apply Hw; lia| |].
  - left. split; [done|]. intros k. destruct (decide (k < 192)%nat) as [Hk|Hk]; [|apply Hn; unfold levels; lia].
    specialize (Hb k Hk). unfold bit_of in Hb. rewrite H, Z.bits_0 in Hb by (rewrite Hl; by apply word_bound).
    symmetry in Hb. apply bool_decide_eq_false in Hb. by apply dec_stable.
  - right. rewrite Hl in Hi. pose proof (Hw i Hi) as Hr. destruct (ctzll_spec (bitmap r !!! i)) as (Hc0 & Hc1 & Hc2); [lia|].
    pose proof (ctzll_range (bitmap r !!! i)) as Hc. set (c := ctzll (bitmap r !!! i)) in *.
    assert (Hk : ∀ k, (k < 192)%nat → (k / 64)%nat = i → Z.testbit (bitmap r !!! i) (Z.of_nat (k mod 64)) = bool_decide (L k ≠ [])).
    { intros k Hk <-. exact (Hb k Hk). }
    set (k := (i * 64 + Z.to_nat c)%nat). assert (Hk1 : (k / 64)%nat = i) by (symmetry; apply (Nat.div_unique k 64 i (Z.to_nat c)); unfold k; lia).
    assert (Hk2 : (k mod 64)%nat = Z.to_nat c) by (symmetry; apply (Nat.mod_unique k 64 i (Z.to_nat c)); unfold k; lia).
    assert (Hk3 : (k < 192)%nat) by (unfold k; lia).
    assert (HL : L k ≠ []). { specialize (Hk k Hk3 Hk1). rewrite Hk2, Z2Nat.id, Hc1 in Hk by lia. symmetry in Hk. by apply bool_decide_eq_true in Hk. }
    exists k. split; [|split; [unfold bitmap_ffs; rewrite E; unfold k; lia|split; [done|]]].
    + destruct (decide (levels ≤ k)%nat) as [Hn'|]; [|lia]. by rewrite (Hn k Hn') in HL.
    + intros j Hjk. assert (Hj3 : (j < 192)%nat) by lia. specialize (Hb j Hj3). unfold bit_of in Hb.
      assert (Hz : Z.testbit (bitmap r !!! (j / 64)%nat) (Z.of_nat (j mod 64)) = false).
      { destruct (decide ((j / 64)%nat = i)) as [Ei|Ei].
        - rewrite Ei. apply Hc2. split; [lia|]. pose proof (Nat.div_mod_eq j 64). rewrite Ei in *. unfold k in Hjk. lia.
        - rewrite Hj, Z.bits_0; [done|]. assert ((j / 64 ≤ k / 64)%nat) by (apply Nat.Div0.div_le_mono; lia). lia. }
      rewrite Hz in Hb. symmetry in Hb. apply bool_decide_eq_false in Hb. by apply dec_stable.
Qed.

Lemma is_empty_spec nx r L : queue_ok nx r L → (foldl Z.lor 0 (bitmap r) =? 0) = true ↔ empty_queue L.
Proof.
  intros Hq. pose proof (bitmap_ffs_spec _ _ _ Hq) as Hf. destruct Hq as [(_ & _ & Hl) _ _ Hn Hw Hb].
  destruct (bitmap r) as [|a [|b [|c [|]]]]; try done. unfold bitmap_ffs in Hf. cbn [foldl ffs_words] in *.
  pose proof (Hw 0%nat) as Ha. pose proof (Hw 1%nat) as Hb'. pose proof (Hw 2%nat) as Hc. cbn in Ha, Hb', Hc.
  rewrite Z.eqb_eq, Z.lor_0_l, !Z.lor_eq_0_iff. split.
  - intros [[-> ->] ->]. cbn in Hf. destruct Hf as [[_ H]|(k & _ & E & _)]; [done|lia].
  - intros He. destruct Hf as [[E _]|(k & _ & _ & H & _)]; [|by rewrite He in H].
    assert (Hcz : ∀ w, 0 ≤ w < 2 ^ 64 → w ≠ 0 → 0 ≤ ctzll w) by (intros w ? ?; apply ctzll_range; lia).
    destruct (Z.eqb_spec a 0) as [->|Ha0]; cbn [negb] in E; [|specialize (Hcz a); lia].
    destruct (Z.eqb_spec b 0) as [->|Hb0]; cbn [negb] in E; [|specialize (Hcz b); lia].
    destruct (Z.eqb_spec c 0) as [->|Hc0]; cbn [negb] in E; [done|specialize (Hcz c); lia].
Qed.

(** ** Changing one level *)

Definition put_level (L : nat → list Z) (k : nat) (l : list Z) : nat → list Z := λ j, if decide (j = k) then l else L j.

Lemma put_level_eq L k l : put_level L k l k = l.
Proof. unfold put_level. by rewrite decide_True. Qed.

Lemma put_level_ne L k l j : j ≠ k → put_level L k l j = L j.
Proof. intros H. unfold put_level. by rewrite decide_False. Qed.

Definition apart (L : nat → list Z) : Prop := ∀ j k p, p ∈ L j → p ∈ L k → j = k.

Lemma queue_ok_other nx r L q v : queue_ok nx r L → (∀ j, q ∉ L j) → queue_ok (<[q := v]> nx) r L.
Proof. intros [] Hq. split; [done| |done|done|done|done]. intros k Hk. apply chain_insert; auto. Qed.

Lemma queue_ok_delete nx r L q : queue_ok nx r L → (∀ j, q ∉ L j) → queue_ok (delete q nx) r L.
Proof. intros [] Hq. split; [done| |done|done|done|done]. intros k Hk. apply chain_delete; auto. Qed.

(** A change of level [k] alone, with the bit map and the pointers given. *)
Lemma queue_ok_change nx nx' r L k h u bm l : queue_ok nx r L → (k < levels)%nat →
  (∀ j, j ≠ k → ∀ x, x ∈ L j → nx' !! x = nx !! x) → chain nx' h l → u = tail_of l →
  length bm = 3%nat → (∀ i, (i < 3)%nat → 0 ≤ bm !!! i < 2 ^ 64) →
  (∀ j, (j < 192)%nat → bit_of bm j = if decide (j = k) then bool_decide (l ≠ []) else bit_of (bitmap r) j) →
  queue_ok nx' (RQ (<[k := h]> (queues r)) (<[k := u]> (tails r)) bm) (put_level L k l).
Proof.
  intros [(L1 & L2 & L3) Hc Ht Hn Hw Hb] Hk Hx Hl -> B1 B2 B3. split; cbn [queues tails bitmap].
  - by rewrite !length_insert.
  - intros j Hj. destruct (decide (j = k)) as [->|E].
    + rewrite list_lookup_total_insert_eq, put_level_eq by lia. done.
    + rewrite list_lookup_total_insert_ne, put_level_ne by done. eapply linked_ext; [|by apply Hc]. by apply Hx.
  - intros j Hj. destruct (decide (j = k)) as [->|E].
    + by rewrite list_lookup_total_insert_eq, put_level_eq by lia.
    + rewrite list_lookup_total_insert_ne, put_level_ne by done. by apply Ht.
  - intros j Hj. rewrite put_level_ne by lia. by apply Hn.
  - done.
  - intros j Hj. rewrite B3 by done. unfold put_level. destruct (decide (j = k)); [done|by apply Hb].
Qed.

Lemma bit_same bm (L : nat → list Z) k (l : list Z) : (∀ j, (j < 192)%nat → bit_of bm j = bool_decide (L j ≠ [])) → l ≠ [] → L k ≠ [] →
  ∀ j, (j < 192)%nat → bit_of bm j = if decide (j = k) then bool_decide (l ≠ []) else bit_of bm j.
Proof. intros Hb Hl HL j Hj. destruct (decide (j = k)) as [->|]; [|done]. rewrite Hb by done. by rewrite !bool_decide_true. Qed.

Lemma insert_same (l : list Z) k : (k < length l)%nat → <[k := l !!! k]> l = l.
Proof. intros H. apply list_insert_id, list_lookup_lookup_total_lt. lia. Qed.

Lemma enqueue_empty nx r L k p : queue_ok nx r L → (k < levels)%nat → p ≠ 0 → (∀ j, p ∉ L j) → tails r !!! k = 0 →
  L k = [] ∧ queue_ok (<[p := 0]> nx) (RQ (<[k := p]> (queues r)) (<[k := p]> (tails r)) (bitmap_set (Z.of_nat k) (bitmap r))) (put_level L k [p]).
Proof.
  intros Hq Hk H0 Hp Ht. pose proof Hq as [(L1 & L2 & L3) Hc Ht' Hn Hw Hb]. rewrite (Ht' k Hk) in Ht.
  split; [by apply (tail_null _ _ _ (Hc k Hk))|]. assert (Hk' : (k < 192)%nat) by (unfold levels in *; lia).
  apply queue_ok_change with nx; [done|done| |by apply chain_single|done| | |].
  - intros j Hj x Hx. rewrite lookup_insert_ne; [done|]. intros ->. by apply (Hp j).
  - unfold bitmap_set. by rewrite length_insert.
  - by apply words_set.
  - intros j Hj. rewrite bit_set by done. destruct (decide (j = k)) as [->|E]; [by rewrite !bool_decide_true|by rewrite bool_decide_false].
Qed.

Lemma enqueue_tail nx r L k p : queue_ok nx r L → apart L → (k < levels)%nat → p ≠ 0 → (∀ j, p ∉ L j) → tails r !!! k ≠ 0 →
  tails r !!! k ∈ L k ∧ queue_ok (<[tails r !!! k := p]> (<[p := 0]> nx)) (RQ (queues r) (<[k := p]> (tails r)) (bitmap r)) (put_level L k (L k ++ [p])).
Proof.
  intros Hq Ha Hk H0 Hp Ht. pose proof Hq as [(L1 & L2 & L3) Hc Ht' Hn Hw Hb]. specialize (Hc k Hk). rewrite (Ht' k Hk) in *.
  destruct (L k) as [|t l _] eqn:E using rev_ind; [done|]. clear Ht. rewrite tail_snoc in *. split; [set_solver|].
  rewrite <- (insert_same (queues r) k) by lia. pose proof (Hp k) as Hpk. rewrite E in Hpk.
  apply queue_ok_change with nx; [done|done| | |by rewrite tail_snoc|done|done|apply (bit_same _ L); [done|by destruct l|by rewrite E; destruct l]].
  - intros j Hj x Hx. rewrite !lookup_insert_ne; [done| |]; [intros ->; by apply (Hp j)|]. intros <-. apply Hj, (Ha j k t); [done|]. rewrite E. set_solver.
  - rewrite <- (assoc_L app). apply linked_append; [by apply chain_insert|done|done|by rewrite lookup_insert_eq].
Qed.

Lemma dequeue_head nx r L k p n l : queue_ok nx r L → apart L → (k < levels)%nat → L k = p :: l → nx !! p = Some n →
  queue_ok (<[p := 0]> nx) (if n =? 0 then RQ (<[k := 0]> (queues r)) (<[k := 0]> (tails r)) (bitmap_clear (Z.of_nat k) (bitmap r))
                            else RQ (<[k := n]> (queues r)) (tails r) (bitmap r)) (put_level L k l).
Proof.
  intros Hq Ha Hk E Hn. pose proof Hq as [(L1 & L2 & L3) Hc Ht' Hno Hw Hb]. pose proof (Hc k Hk) as Hck. rewrite E in Hck. pose proof (chain_nodup _ _ _ Hck) as Hd.
  destruct Hck as (Hh & Hp0 & n' & Hn' & Hl). assert (n' = n) as -> by congruence. apply NoDup_cons in Hd as [Hpl _]. assert (Hk' : (k < 192)%nat) by (unfold levels in *; lia).
  assert (Hx : ∀ j, j ≠ k → ∀ x, x ∈ L j → <[p := 0]> nx !! x = nx !! x).
  { intros j Hj x Hx. rewrite lookup_insert_ne; [done|]. intros <-. apply Hj, (Ha j k p); [done|]. rewrite E. left. }
  pose proof (chain_insert nx n l p 0 Hpl Hl) as Hl'. destruct (Z.eqb_spec n 0) as [->|Hn0].
  - assert (l = []) as -> by by apply (chain_null _ _ _ Hl).
    apply queue_ok_change with nx; [done|done|done|done|done|unfold bitmap_clear; by rewrite length_insert|by apply words_clear|].
    intros j Hj. rewrite bit_clear by done. destruct (decide (j = k)) as [->|Ej]; [by rewrite (bool_decide_true (k = k)), andb_false_r|by rewrite (bool_decide_false (j = k)), andb_true_r].
  - assert (Hne : l ≠ []) by (intros ->; by apply Hn0, (chain_null _ _ _ Hl)).
    rewrite <- (insert_same (tails r) k) by lia.
    apply queue_ok_change with nx; [done|done|done|done| |done|done|apply (bit_same _ L); [done|done|by rewrite E]].
    rewrite (Ht' k Hk), E. destruct l as [|z l _] using rev_ind; [done|]. by rewrite (app_comm_cons l [z]), !tail_snoc.
Qed.

Lemma remove_middle nx r L k l1 y p l2 n : queue_ok nx r L → apart L → (k < levels)%nat → L k = l1 ++ y :: p :: l2 → nx !! p = Some n →
  queue_ok (<[p := 0]> (<[y := n]> nx)) (RQ (queues r) (if tails r !!! k =? p then <[k := y]> (tails r) else tails r) (bitmap r)) (put_level L k (l1 ++ y :: l2)).
Proof.
  intros Hq Ha Hk E Hn. pose proof Hq as [(L1 & L2 & L3) Hc Ht' Hno Hw Hb]. pose proof (Hc k Hk) as Hck. rewrite E in Hck. pose proof (chain_nodup _ _ _ Hck) as Hd.
  assert (Hp : p ∉ l1 ++ y :: l2).
  { change (y :: p :: l2) with ([y] ++ p :: l2) in Hd. rewrite (assoc_L app) in Hd. apply NoDup_app_cons_mid in Hd as [Hd _]. by rewrite <- (assoc_L app) in Hd. }
  rewrite <- (insert_same (queues r) k) by lia.
  replace (if tails r !!! k =? p then <[k := y]> (tails r) else tails r) with (<[k := tail_of (l1 ++ y :: l2)]> (tails r)).
  - apply queue_ok_change with nx; [done|done| | |done|done|done|apply (bit_same _ L); [done|by destruct l1|rewrite E; by destruct l1]].
    + intros j Hj x Hx. rewrite !lookup_insert_ne; [done| |]; intros <-; apply Hj; eapply Ha; try done; rewrite E; set_solver.
    + apply chain_insert; [done|]. by apply (chain_remove nx _ l1 y p l2 n).
  - rewrite (tail_remove l1 y p l2) by done. rewrite <- E, <- (Ht' k Hk). destruct (_ =? p); [done|]. apply insert_same. lia.
Qed.

End SchedQueue.
