(* ===== verification/SchedOps.v ===== *)
(** * Scheduler: the operations keep the invariant

    References, the ready queue, and picking the next process. *)

From S2P Require Import Prelude Errno Links Pcb Sched WaitObj SchedInv SchedQueue.
Import Links Pcb Sched WaitObj SchedInv SchedQueue.

Module SchedOps.
Local Open Scope Z_scope.

(** ** Frames *)

(** A process without its links and its reference count. *)
Definition core (x : process) : process := set_next 0 (set_wait_next 0 (set_sleep_next 0 (set_ref_count 0 x))).

(** Only links and counts changed. *)
Definition same_cores (P : Z → Prop) (s s' : state) : Prop := ∀ q, P q → core <$> procs s' !! q = core <$> procs s !! q.

Definition same_globals (s s' : state) : Prop :=
  active s' = active s ∧ current s' = current s ∧ idle_thread s' = idle_thread s ∧ timer_ticks s' = timer_ticks s.

Lemma same_cores_refl P s : same_cores P s s.
Proof. by intros q. Qed.

Lemma same_cores_trans (P P' R : Z → Prop) s1 s2 s3 : (∀ q, R q → P q ∧ P' q) → same_cores P s1 s2 → same_cores P' s2 s3 → same_cores R s1 s3.
Proof. intros HR H1 H2 q Hq. destruct (HR q Hq). rewrite H2, H1; done. Qed.

Lemma same_globals_refl s : same_globals s s.
Proof. done. Qed.

Lemma same_globals_trans s1 s2 s3 : same_globals s1 s2 → same_globals s2 s3 → same_globals s1 s3.
Proof. unfold same_globals. intros (-> & -> & -> & ->) (-> & -> & -> & ->). done. Qed.

Lemma core_alter f p q (m : gmap Z process) : (∀ x, m !! p = Some x → core (f x) = core x) → core <$> alter f p m !! q = core <$> m !! q.
Proof.
  intros H. destruct (decide (p = q)) as [->|E]; [|by rewrite lookup_alter_ne]. rewrite lookup_alter_eq. destruct (m !! q) as [x|] eqn:Ex; [|done].
  cbn. by rewrite H.
Qed.

Lemma core_alter_ne f p q (m : gmap Z process) : q ≠ p → core <$> alter f p m !! q = core <$> m !! q.
Proof. intros H. by rewrite lookup_alter_ne. Qed.

Lemma core_some P s s' q y : same_cores P s s' → P q → procs s' !! q = Some y → ∃ x, procs s !! q = Some x ∧ core y = core x.
Proof. intros H HP Hq. specialize (H q HP). rewrite Hq in H. destruct (procs s !! q) as [x|]; [|done]. exists x. split; [done|]. cbn in H. congruence. Qed.

(** Fields that do not tell a process from its core. *)
Lemma core_fields x y : core x = core y →
  pid x = pid y ∧ parent_pid x = parent_pid y ∧ create_seq x = create_seq y ∧ pstate x = pstate y ∧ priority x = priority y ∧ yield_boost x = yield_boost y ∧
  on_queue x = on_queue y ∧ reaped x = reaped y ∧ wait_on x = wait_on y ∧ wake_deadline x = wake_deadline y ∧ futex_key x = futex_key y ∧
  child_wait x = child_wait y ∧ stopped_by_signal x = stopped_by_signal y ∧ pc x = pc y.
Proof. destruct x, y. unfold core. cbn. intros [=]. naive_solver. Qed.

(** ** Counting references *)

Definition bump (e : Z → Z) (p d : Z) : Z → Z := λ q, if decide (q = p) then e q + d else e q.

Lemma bump_eq e p d : bump e p d p = e p + d.
Proof. unfold bump. by rewrite decide_True. Qed.

Lemma bump_ne e p d q : q ≠ p → bump e p d q = e q.
Proof. intros H. unfold bump. by rewrite decide_False. Qed.

Lemma bump_undo e p d q : bump (bump e p d) p (- d) q = e q.
Proof. unfold bump. destruct (decide (q = p)); lia. Qed.

(** The bound that keeps the 32-bit counters from wrapping. *)
Definition small (n : Z) (e : Z → Z) : Prop := ∀ q, e q ≤ 2 ^ 31 + n.

Lemma small_bump n e p d : 0 ≤ d → small n e → small (n + d) (bump e p d).
Proof. intros Hd Hs q. specialize (Hs q). unfold bump. destruct (decide (q = p)); lia. Qed.

Lemma small_less n e p d : d ≤ 0 → small n e → small n (bump e p d).
Proof. intros Hd Hs q. specialize (Hs q). unfold bump. destruct (decide (q = p)); lia. Qed.

Lemma small_mono n n' e : n ≤ n' → small n e → small n' e.
Proof. intros Hn Hs q. specialize (Hs q). lia. Qed.

Lemma inv_ext v s e e' h : (∀ q, e' q = e q) → inv v s e h → inv v s e' h.
Proof.
  intros He []. split; try done.
  - intros p x Hp. destruct (i_procs0 p x Hp). split; try done. by rewrite He.
  - intros p. rewrite He. apply i_extra0.
Qed.

Lemma holders_bound v cur idle e h p x : proc_ok v cur idle e h p x → 0 ≤ holders cur idle p x ≤ 4.
Proof.
  intros []. unfold holders. destruct po_queue0 as [[-> _]|[-> _]], po_reaped0 as [-> | ->]; destruct (bool_decide _), (negb _); cbn; lia.
Qed.

Lemma proc_ok_refs v cur idle e e' h p x n : proc_ok v cur idle e h p x → ref_count x + (e' p - e p) = n → 0 < n < 2 ^ 32 →
  proc_ok v cur idle e' h p (set_ref_count n x).
Proof. intros [] Hn Hr. split; try done. cbn. unfold holders in *. cbn. lia. Qed.

Lemma proc_ok_other v cur idle e e' h p x : proc_ok v cur idle e h p x → e' p = e p → proc_ok v cur idle e' h p x.
Proof. intros [] He. split; try done. by rewrite He. Qed.

(** Changing one counter and the other references to it together. *)
Lemma inv_recount v s e h p x n : inv v s e h → procs s !! p = Some x → 0 ≤ e p + (n - ref_count x) → 0 < n < 2 ^ 32 →
  inv v (put_procs (alter (set_ref_count n) p (procs s)) s) (bump e p (n - ref_count x)) h.
Proof.
  intros Hi Hp He Hn. apply (inv_change v s e _ h h p _ x); try done; [by left| | |].
  - apply (proc_ok_refs v _ _ e); [by apply (i_procs v s e h)|rewrite bump_eq; lia|done].
  - intros q y Hq Hy. apply (proc_ok_other v _ _ e); [done|by apply bump_ne].
  - intros q. pose proof (i_extra _ _ _ _ Hi q). unfold bump. destruct (decide (q = p)) as [->|]; [|done]. by split; [lia|].
Qed.

Lemma ref_spec v s e h n p : inv v s e h → is_Some (procs s !! p) → small n e → n ≤ 100 →
  wp (process_ref p) s (λ _ s', inv v s' (bump e p 1) h ∧ same_cores (λ _, True) s s' ∧ same_globals s s').
Proof.
  intros Hi [x Hp] Hs Hn. pose proof (i_procs _ _ _ _ Hi p x Hp) as Hok. pose proof (holders_bound _ _ _ _ _ _ _ Hok) as Hb. specialize (Hs p).
  pose proof (po_refs _ _ _ _ _ _ _ Hok) as Hr. pose proof (po_live _ _ _ _ _ _ _ Hok) as Hl. apply wp_bind, (wp_get p x); [done|]. apply wp_upd; [done|].
  rewrite u32_small by lia. split; [|split; [|done]].
  - replace 1 with (ref_count x + 1 - ref_count x) at 2 by lia. apply inv_recount; [done|done| |lia]. pose proof (i_extra _ _ _ _ Hi p). lia.
  - intros q _. apply core_alter. by intros.
Qed.

(** ** The last reference *)

Lemma queued_in v s e h p x : inv v s e h → procs s !! p = Some x → on_queue x = 0 → ∀ r k, p ∉ Q v r k.
Proof. intros Hi Hp Hq. destruct (i_procs _ _ _ _ Hi p x Hp). destruct po_queue0 as [[E _]|[_ H]]; [lia|done]. Qed.

Lemma unwaiting v s e h p x o : inv v s e h → procs s !! p = Some x → wait_on x = 0 → p ∉ W v o.
Proof. intros Hi Hp Hw Ho. destruct (i_procs _ _ _ _ Hi p x Hp). apply po_wait0 in Ho as [E ?]. congruence. Qed.

Lemma waiting_proc v s e h p o : inv v s e h → p ∈ W v o → ∃ x w, procs s !! p = Some x ∧ wait_on x = o ∧ waits_at x o ∧ objects s !! o = Some w ∧ o ≠ 0.
Proof.
  intros Hi Ho. destruct (objects s !! o) as [w|] eqn:Ew; [|by rewrite (i_noobj _ _ _ _ Hi o Ew) in Ho; set_solver].
  destruct (i_obj _ _ _ _ Hi o w Ew) as [Hc _ _]. destruct (linked_in _ _ _ p Hc Ho) as [_ [n Hn]]. rewrite lookup_fmap in Hn.
  destruct (procs s !! p) as [x|] eqn:Ep; [|done]. exists x, w. destruct (i_procs _ _ _ _ Hi p x Ep). apply po_wait0 in Ho as [E E0].
  subst o. split_and!; auto.
Qed.

Lemma own_empty v s e h p x : inv v s e h → procs s !! p = Some x → child_wait x ≠ 0 → wait_on x = 0 → W v (child_wait x) = [].
Proof.
  intros Hi Hp Hc Hw. destruct (W v (child_wait x)) as [|q l] eqn:E; [done|]. exfalso.
  destruct (waiting_proc v s e h q (child_wait x) Hi) as (y & w & Hy & Ho & Hat & _); [rewrite E; left|].
  destruct (po_child _ _ _ _ _ _ _ (i_procs _ _ _ _ Hi p x Hp)) as [|Hs]; [done|]. destruct Hat as [?|[Ey _]]; [lia|].
  assert (p = q) as <- by by apply (i_child_inj _ _ _ _ Hi p q x y). assert (y = x) as -> by congruence. congruence.
Qed.

Lemma holders_none v cur idle e h p x : proc_ok v cur idle e h p x → holders cur idle p x = 0 →
  reaped x = 1 ∧ on_queue x = 0 ∧ wait_on x = 0 ∧ ¬ (p = cur ∧ p ≠ idle).
Proof.
  intros []. unfold holders. destruct po_queue0 as [[-> _]|[-> _]], po_reaped0 as [-> | ->]; destruct (bool_decide_reflect (p = cur ∧ p ≠ idle));
    destruct (Z.eqb_spec (wait_on x) 0); cbn; (lia || done).
Qed.

Lemma table_free pids table used p i : table_ok pids table used → pids !! p = Some i →
  table_ok (delete p pids) (<[Z.to_nat i := 0]> table) (<[Z.to_nat i := 0]> used).
Proof.
  intros [[L1 L2] Hp Hs Hf] Hi. destruct (Hp p i Hi) as [Hr Ht]. split.
  - by rewrite !length_insert.
  - intros q j Hq. apply lookup_delete_Some in Hq as [Hpq Hq]. destruct (Hp q j Hq) as [Hr' Ht']. split; [done|].
    rewrite list_lookup_insert_ne; [done|]. intros E. assert (j = i) as -> by lia. congruence.
  - intros j q Hj H0. destruct (decide (j = Z.to_nat i)) as [->|E]; [rewrite list_lookup_insert_eq in Hj by lia; congruence|].
    rewrite list_lookup_insert_ne in Hj by done. apply lookup_delete_Some. split; [|by apply Hs]. intros <-. specialize (Hs j p Hj H0). assert (i = Z.of_nat j) by congruence. lia.
  - intros j Hj H0. destruct (decide (j = Z.to_nat i)) as [->|E]; [by rewrite list_lookup_insert_eq by lia|].
    rewrite list_lookup_insert_ne in Hj |- * by done. by apply Hf.
Qed.

Section Free.
Context (v : view) (s s' : state) (e : Z → Z) (h p : Z) (x : process).
Hypothesis Hi : inv v s e h.
Hypothesis Hp : procs s !! p = Some x.
Hypothesis Hn : holders (current s) (idle_thread s) p x = 0.
Hypothesis He : e p = 1.
Hypothesis Hh : p = h → p = current s ∧ p ≠ idle_thread s.
Hypothesis F1 : procs s' = delete p (procs s).
Hypothesis F2 : objects s' = if child_wait x =? 0 then objects s else delete (child_wait x) (objects s).
Hypothesis F3 : process_table s' = <[Z.to_nat (pid x) := 0]> (process_table s).
Hypothesis F4 : pid_used s' = <[Z.to_nat (pid x) := 0]> (pid_used s).
Hypothesis F5 : ∀ r, rq_of r s' = rq_of r s.
Hypothesis F6 : ready_count s' = ready_count s ∧ current s' = current s ∧ idle_thread s' = idle_thread s ∧ g_sleep_list s' = g_sleep_list s ∧ futex_initialized s' = futex_initialized s.

Lemma free_unused : reaped x = 1 ∧ on_queue x = 0 ∧ wait_on x = 0 ∧ p ≠ current s ∧ p ≠ idle_thread s ∧ p ∉ SL v.
Proof.
  pose proof (i_procs _ _ _ _ Hi p x Hp) as Hok. destruct (holders_none _ _ _ _ _ _ _ Hok Hn) as (H1 & H2 & H3 & H4).
  assert (p ≠ idle_thread s). { intros E. destruct (i_idle _ _ _ _ Hi) as (y & Hy & _ & _ & _ & Hr & _). rewrite <- E in Hy. assert (y = x) as -> by congruence. lia. }
  split_and!; [done|done|done|naive_solver|done|]. intros [E|E]%(po_sleep _ _ _ _ _ _ _ Hok); [naive_solver|]. rewrite H3 in E. done.
Qed.

Lemma free_objects o w : objects s' !! o = Some w → objects s !! o = Some w ∧ (child_wait x = 0 ∨ o ≠ child_wait x).
Proof.
  rewrite F2. destruct (Z.eqb_spec (child_wait x) 0); [by split; [|left]|]. intros [H1 H2]%lookup_delete_Some. by split; [|right].
Qed.

Lemma free_objects_kept o : is_Some (objects s !! o) → o ≠ child_wait x ∨ child_wait x = 0 → is_Some (objects s' !! o).
Proof. rewrite F2. destruct (Z.eqb_spec (child_wait x) 0); [done|]. intros H [Ho|]; [|done]. by rewrite lookup_delete_ne. Qed.

Lemma inv_free : inv v s' (bump e p (-1)) h.
Proof.
  destruct free_unused as (U1 & U2 & U3 & U4 & U5 & U6). destruct F6 as (G1 & G2 & G3 & G4 & G5). pose proof (i_procs _ _ _ _ Hi p x Hp) as Hok.
  pose proof (queued_in _ _ _ _ _ _ Hi Hp U2) as Hq. assert (Hl : ∀ q y, procs s' !! q = Some y → q ≠ p ∧ procs s !! q = Some y).
  { intros q y. rewrite F1. intros [? ?]%lookup_delete_Some. by split. }
  split; rewrite ?G1, ?G2, ?G3, ?G4, ?G5.
  - intros r. rewrite F1, F5, fmap_delete. apply queue_ok_delete; [apply (i_rq _ _ _ _ Hi)|apply Hq].
  - apply (i_disj _ _ _ _ Hi).
  - apply (i_count _ _ _ _ Hi).
  - intros o w [Ho _]%free_objects. destruct (i_obj _ _ _ _ Hi o w Ho). split; [|done|done]. rewrite F1, fmap_delete. apply chain_delete; [|done]. by eapply unwaiting.
  - intros o Ho. rewrite F2 in Ho. destruct (Z.eqb_spec (child_wait x) 0); [by apply (i_noobj _ _ _ _ Hi)|].
    apply lookup_delete_None in Ho as [<-|Ho]; [by apply (own_empty _ _ _ _ _ _ Hi Hp)|by apply (i_noobj _ _ _ _ Hi)].
  - intros o Ho. apply free_objects_kept; [by apply (i_static _ _ _ _ Hi)|]. destruct (po_child _ _ _ _ _ _ _ Hok); [by right|left; lia].
  - intros q y [Hqp Hy]%Hl Hc. apply free_objects_kept; [by apply (i_child _ _ _ _ Hi q y)|]. destruct (decide (child_wait x = 0)); [by right|left].
    intros E. apply Hqp. by apply (i_child_inj _ _ _ _ Hi q p y x).
  - intros q q' y y' [_ Hy]%Hl [_ Hy']%Hl. by apply (i_child_inj _ _ _ _ Hi).
  - apply (i_futex _ _ _ _ Hi).
  - rewrite F1, fmap_delete. apply chain_delete; [done|apply (i_sleep _ _ _ _ Hi)].
  - rewrite F1, F3, F4, fmap_delete. apply table_free; [apply (i_table _ _ _ _ Hi)|by rewrite lookup_fmap, Hp].
  - intros q y [Hqp Hy]%Hl. apply (proc_ok_other v _ _ e); [by apply (i_procs _ _ _ _ Hi)|by apply bump_ne].
  - intros q. pose proof (i_extra _ _ _ _ Hi q) as [H1 H2]. unfold bump. destruct (decide (q = p)) as [->|Hqp]; [by split; lia|]. by rewrite F1, lookup_delete_ne.
  - rewrite F1, lookup_delete_ne by done. apply (i_current _ _ _ _ Hi).
  - rewrite F1, lookup_delete_ne by done. apply (i_idle _ _ _ _ Hi).
Qed.

End Free.

(** What a dropped reference leaves of the process. *)
Definition dropped (p : Z) (s s' : state) : Prop :=
  same_cores (λ q, q ≠ p) s s' ∧ same_globals s s' ∧ (core <$> procs s' !! p = core <$> procs s !! p ∨ procs s' !! p = None).

Lemma unref_spec v s e h p : inv v s e h → 0 < e p → (p = h → p = current s ∧ p ≠ idle_thread s) →
  wp (process_unref p) s (λ _ s', inv v s' (bump e p (-1)) h ∧ dropped p s s' ∧
    (is_Some (procs s' !! p) ∨ ∃ x, procs s !! p = Some x ∧ holders (current s) (idle_thread s) p x = 0 ∧ e p = 1)).
Proof.
  intros Hi He Hh. destruct (i_extra _ _ _ _ Hi p) as [_ [x Hp]]; [done|]. pose proof (i_procs _ _ _ _ Hi p x Hp) as Hok.
  pose proof (holders_bound _ _ _ _ _ _ _ Hok). pose proof (po_refs _ _ _ _ _ _ _ Hok) as Hr. pose proof (po_live _ _ _ _ _ _ _ Hok) as Hl.
  apply wp_bind, (wp_get p x); [done|]. cbv zeta. rewrite u32_small by lia. apply wp_bind, wp_upd; [done|].
  apply wp_when; intros Ec; [apply Z.eqb_eq in Ec|apply Z.eqb_neq in Ec].
  - assert (E1 : e p = 1) by lia. assert (E2 : holders (current s) (idle_thread s) p x = 0) by lia.
    assert (Hpid : (pid x <? MAX_PROCESSES) = true). { apply Z.ltb_lt. apply (t_pid _ _ _ (i_table _ _ _ _ Hi) p). by rewrite lookup_fmap, Hp. }
    assert (Hd : delete p (alter (set_ref_count (ref_count x - 1)) p (procs s)) = delete p (procs s)) by by rewrite delete_alter_eq.
    unfold process_free. rewrite Hpid. apply wp_bind, wp_modify, wp_bind, wp_when; intros Eo; [apply wp_modify|]; apply wp_modify; cbn [put_objects put_procs put_process_table put_pid_used procs objects].
    all: rewrite Hd; split; [apply (inv_free v s _ e h p x); try done; cbn; try done; destruct (child_wait x =? 0); done|].
    all: split; [|right; by exists x]; split; [intros q Hq; cbn; by rewrite lookup_delete_ne|split; [done|right; cbn; apply lookup_delete_eq]].
  - split; [|split; [split; [|split; [done|left]]|left; cbn; by rewrite lookup_alter_is_Some]].
    + replace (-1) with (ref_count x - 1 - ref_count x) by lia. apply inv_recount; [done|done|lia|lia].
    + intros q Hq. by apply core_alter_ne.
    + by apply core_alter.
Qed.

(** A reference that the state accounts for elsewhere keeps the process. *)
Lemma unref_kept v s e h p x : inv v s e h → procs s !! p = Some x → 0 < e p → (p = h → p = current s ∧ p ≠ idle_thread s) →
  0 < holders (current s) (idle_thread s) p x ∨ 1 < e p →
  wp (process_unref p) s (λ _ s', inv v s' (bump e p (-1)) h ∧ same_cores (λ _, True) s s' ∧ same_globals s s').
Proof.
  intros Hi Hp He Hh Hk. eapply wp_mono; [by eapply unref_spec|]. cbn. intros _ s' (Hi' & (Hc & Hg & Hpp) & Hor). split; [done|]. split; [|done].
  intros q _. destruct (decide (q = p)) as [->|Hq]; [|by apply Hc]. destruct Hpp as [E|E]; [done|].
  destruct Hor as [[y Hy]|(y & Hy & E1 & E2)]; [congruence|]. assert (y = x) as -> by congruence. lia.
Qed.

(** ** The ready queue *)

Definition put_Q (v : view) (r : bool) (k : nat) (l : list Z) : view :=
  View (λ r', if Bool.eqb r' r then put_level (Q v r') k l else Q v r') (W v) (SL v).

Lemma put_Q_eq v r k l : Q (put_Q v r k l) r = put_level (Q v r) k l.
Proof. cbn. by rewrite eqb_reflx. Qed.

Lemma put_Q_ne v r k l r' : r' ≠ r → Q (put_Q v r k l) r' = Q v r'.
Proof. intros H. cbn. by destruct r, r'. Qed.

Lemma put_Q_at v r k l : Q (put_Q v r k l) r k = l.
Proof. by rewrite put_Q_eq, put_level_eq. Qed.

Lemma put_Q_other v r k l r' k' : (r', k') ≠ (r, k) → Q (put_Q v r k l) r' k' = Q v r' k'.
Proof.
  intros H. destruct (decide (r' = r)) as [->|Hr]; [|by rewrite put_Q_ne]. rewrite put_Q_eq, put_level_ne; [done|]. congruence.
Qed.

Lemma elem_put_Q v r k l r' k' q : q ∈ Q (put_Q v r k l) r' k' ↔ (r', k') = (r, k) ∧ q ∈ l ∨ (r', k') ≠ (r, k) ∧ q ∈ Q v r' k'.
Proof.
  destruct (decide ((r', k') = (r, k))) as [E|E]; [|rewrite put_Q_other by done; tauto]. assert (r' = r) as -> by congruence.
  assert (k' = k) as -> by congruence. rewrite put_Q_at. tauto.
Qed.

Lemma members_split L k : (k < levels)%nat → ∃ R, members L ≡ₚ L k ++ R ∧ ∀ l, members (put_level L k l) ≡ₚ l ++ R.
Proof.
  intros Hk. assert (Es : seq 0 levels = seq 0 k ++ [k] ++ seq (S k) (levels - S k)).
  { replace levels with (k + S (levels - S k))%nat at 1 by lia. by rewrite seq_app. }
  exists (concat (L <$> seq 0 k) ++ concat (L <$> seq (S k) (levels - S k))). unfold members. rewrite Es. split; [|intros l].
  - rewrite !fmap_app, !concat_app. cbn. rewrite app_nil_r. rewrite !app_assoc. apply Permutation_app_tail, Permutation_app_comm.
  - assert (El : ∀ l' : list nat, k ∉ l' → put_level L k l <$> l' = L <$> l').
    { intros l' Hl'. apply list_fmap_ext. intros i j Hj. apply put_level_ne. intros ->. apply Hl'. by eapply list_elem_of_lookup_2. }
    rewrite !fmap_app, !concat_app, (El (seq 0 k)), (El (seq (S k) _)) by (rewrite elem_of_seq; lia). cbn. rewrite put_level_eq, app_nil_r. rewrite !app_assoc. apply Permutation_app_tail, Permutation_app_comm.
Qed.

Lemma elem_members L q : q ∈ members L ↔ ∃ k, (k < levels)%nat ∧ q ∈ L k.
Proof.
  unfold members. rewrite list_elem_of_In, in_concat. setoid_rewrite <- list_elem_of_In. split.
  - intros (l & (k & -> & Hk)%list_elem_of_fmap & Hq). apply elem_of_seq in Hk. exists k. split; [lia|done].
  - intros (k & Hk & Hq). exists (L k). split; [|done]. apply list_elem_of_fmap. exists k. split; [done|]. apply elem_of_seq. lia.
Qed.

Definition queued (v : view) : nat := length (members (Q v false)) + length (members (Q v true)).

Lemma queued_put v r k l : (k < levels)%nat → (queued (put_Q v r k l) + length (Q v r k) = queued v + length l)%nat.
Proof.
  intros Hk. destruct (members_split (Q v r) k Hk) as (R & H1 & H2). specialize (H2 l).
  apply Permutation_length in H1, H2. rewrite length_app in H1, H2. unfold queued. destruct r.
  - rewrite put_Q_eq, put_Q_ne by done. lia.
  - rewrite put_Q_eq, put_Q_ne by done. lia.
Qed.

(** A change of the ready queue alone. *)
Section Requeue.
Context (v v' : view) (s s' : state) (e e' : Z → Z) (h : Z).
Hypothesis Hi : inv v s e h.
Hypothesis V1 : W v' = W v.
Hypothesis V2 : SL v' = SL v.
Hypothesis F1 : wait_next <$> procs s' = wait_next <$> procs s.
Hypothesis F2 : sleep_next <$> procs s' = sleep_next <$> procs s.
Hypothesis F3 : pid <$> procs s' = pid <$> procs s.
Hypothesis F4 : child_wait <$> procs s' = child_wait <$> procs s.
Hypothesis F5 : objects s' = objects s ∧ g_sleep_list s' = g_sleep_list s ∧ process_table s' = process_table s ∧ pid_used s' = pid_used s ∧
  current s' = current s ∧ idle_thread s' = idle_thread s ∧ futex_initialized s' = futex_initialized s.
Hypothesis G1 : ∀ r, queue_ok (next <$> procs s') (rq_of r s') (Q v' r).
Hypothesis G2 : ∀ r k r' k' p, p ∈ Q v' r k → p ∈ Q v' r' k' → r = r' ∧ k = k'.
Hypothesis G3 : ready_count s' = u32 (Z.of_nat (queued v')).
Hypothesis G4 : ∀ q y, procs s' !! q = Some y → proc_ok v' (current s) (idle_thread s) e' h q y.
Hypothesis G5 : ∀ q, 0 ≤ e' q ∧ (0 < e' q → is_Some (procs s !! q)).
Hypothesis G6 : ∃ x, procs s' !! idle_thread s = Some x ∧ pid x = 0 ∧ on_queue x = 0 ∧ wait_on x = 0 ∧ reaped x = 0 ∧ parent_pid x = 0 ∧ pc x = User.

Lemma requeue_dom q : is_Some (procs s' !! q) ↔ is_Some (procs s !! q).
Proof. rewrite <- !(fmap_is_Some pid), <- !lookup_fmap, F3. done. Qed.

Lemma requeue_child q y : procs s' !! q = Some y → ∃ x, procs s !! q = Some x ∧ child_wait x = child_wait y.
Proof.
  intros Hq. assert (E : child_wait <$> procs s !! q = Some (child_wait y)) by by rewrite <- lookup_fmap, <- F4, lookup_fmap, Hq.
  apply fmap_Some in E as (x & Hx & ->). by exists x.
Qed.

Lemma inv_requeue : inv v' s' e' h.
Proof.
  destruct F5 as (E1 & E2 & E3 & E4 & E5 & E6 & E7). split; rewrite ?V1, ?V2, ?F1, ?F2, ?F3, ?E1, ?E2, ?E3, ?E4, ?E5, ?E6, ?E7; try done; try (by apply Hi).
  - intros q y (x & Hx & <-)%requeue_child. by apply (i_child _ _ _ _ Hi q x).
  - intros q q' y y' (x & Hx & <-)%requeue_child (x' & Hx' & <-)%requeue_child. by apply (i_child_inj _ _ _ _ Hi).
  - intros q. rewrite requeue_dom. apply G5.
  - rewrite requeue_dom. by apply Hi.
Qed.

End Requeue.

(** A process that keeps its place. *)
Lemma proc_ok_stays v v' cur idle e e' h q x y : proc_ok v cur idle e h q x → core y = core x → ref_count y = ref_count x → e' q = e q →
  W v' = W v → SL v' = SL v → (∀ r k, q ∈ Q v' r k ↔ q ∈ Q v r k) → proc_ok v' cur idle e' h q y.
Proof.
  intros [] (_ & _ & _ & _ & _ & C1 & C2 & C3 & C4 & _ & _ & C5 & _ & C6)%core_fields Er Ee V1 V2 HQ.
  split; unfold holders, pc_ok, waits_at in *; rewrite ?C1, ?C2, ?C3, ?C4, ?C5, ?C6, ?Er, ?Ee, ?V1, ?V2; try done.
  destruct po_queue0 as [[E (r & k & H)]|[E H]]; [left; split; [done|]; exists r, k; by apply HQ|right; split; [done|]; intros r k; by rewrite HQ].
Qed.

Lemma clamp_range n : 0 ≤ clamp_priority n < 140.
Proof. unfold clamp_priority, SCHED_PRIORITY_LEVELS. cbn zeta. destruct (Z.ltb_spec n 0); [|destruct (Z.leb_spec 140 n)]; cbn; lia. Qed.

Lemma clamp_idem n : clamp_priority (clamp_priority n) = clamp_priority n.
Proof.
  pose proof (clamp_range n). unfold clamp_priority at 1, SCHED_PRIORITY_LEVELS. cbn zeta. destruct (Z.ltb_spec (clamp_priority n) 0); [lia|].
  destruct (Z.leb_spec 140 (clamp_priority n)); lia.
Qed.

(** The level of a process. *)
Definition level (x : process) : nat := Z.to_nat (process_get_priority x).

Lemma level_range x : (level x < levels)%nat.
Proof. unfold level, process_get_priority, levels. pose proof (clamp_range (NICE_TO_PRIORITY (priority x))). lia. Qed.

Lemma level_clamp x : Z.to_nat (clamp_priority (process_get_priority x)) = level x.
Proof. unfold level, process_get_priority. by rewrite clamp_idem. Qed.

Lemma u32_succ n : u32 (u32 n + 1) = u32 (n + 1).
Proof. unfold u32. by rewrite Zplus_mod_idemp_l. Qed.

Lemma u32_pred n : u32 (u32 n - 1) = u32 (n - 1).
Proof. unfold u32. by rewrite Zminus_mod_idemp_l. Qed.

Lemma inv_apart v s e h r : inv v s e h → apart (Q v r).
Proof. intros Hi j k p Hj Hk. by destruct (i_disj _ _ _ _ Hi r j r k p Hj Hk). Qed.

(** ** One process moves *)

(** A process without its link in the ready queue. *)
Definition kern (x : process) : process := set_next 0 x.

Lemma kern_fields x y : kern x = kern y →
  core x = core y ∧ pid x = pid y ∧ on_queue x = on_queue y ∧ wait_on x = wait_on y ∧ reaped x = reaped y ∧ parent_pid x = parent_pid y ∧
  ref_count x = ref_count y ∧ wait_next x = wait_next y ∧ sleep_next x = sleep_next y ∧ child_wait x = child_wait y ∧
  yield_boost x = yield_boost y ∧ pc x = pc y.
Proof. destruct x, y. unfold kern, core. cbn. intros [=]. subst. done. Qed.

Section Moved.
Context (v v' : view) (s s' : state) (e e' : Z → Z) (h p : Z) (x y : process).
Hypothesis Hi : inv v s e h.
Hypothesis Hp : procs s !! p = Some x.
Hypothesis Hidle : p ≠ idle_thread s.
Hypothesis K1 : ∀ q, q ≠ p → kern <$> procs s' !! q = kern <$> procs s !! q.
Hypothesis K2 : kern <$> procs s' !! p = Some (kern y).
Hypothesis Y : pid y = pid x ∧ wait_next y = wait_next x ∧ sleep_next y = sleep_next x ∧ child_wait y = child_wait x.
Hypothesis F5 : objects s' = objects s ∧ g_sleep_list s' = g_sleep_list s ∧ process_table s' = process_table s ∧ pid_used s' = pid_used s ∧
  current s' = current s ∧ idle_thread s' = idle_thread s ∧ futex_initialized s' = futex_initialized s.
Hypothesis V1 : W v' = W v.
Hypothesis V2 : SL v' = SL v.
Hypothesis V3 : ∀ q, q ≠ p → ∀ r k, q ∈ Q v' r k ↔ q ∈ Q v r k.
Hypothesis V4 : ∀ r k r' k', p ∈ Q v' r k → p ∈ Q v' r' k' → r = r' ∧ k = k'.
Hypothesis G1 : ∀ r, queue_ok (next <$> procs s') (rq_of r s') (Q v' r).
Hypothesis G3 : ready_count s' = u32 (Z.of_nat (queued v')).
Hypothesis G4 : proc_ok v' (current s) (idle_thread s) e' h p y.
Hypothesis G5 : 0 ≤ e' p ∧ ∀ q, q ≠ p → e' q = e q.

Lemma moved_field {A} (g : process → A) : (∀ z, g (kern z) = g z) → g y = g x → g <$> procs s' = g <$> procs s.
Proof.
  intros Hg Hxy. apply map_eq. intros q. rewrite !lookup_fmap. destruct (decide (q = p)) as [->|Hq].
  - apply fmap_Some in K2 as (z & Hz & E). rewrite Hz, Hp. cbn. f_equal. by rewrite <- Hg, <- E, Hg.
  - specialize (K1 q Hq). destruct (procs s' !! q) as [z|], (procs s !! q) as [z'|]; try done. cbn in *. f_equal. rewrite <- (Hg z), <- (Hg z'). congruence.
Qed.

Lemma moved_other q z : q ≠ p → procs s' !! q = Some z → ∃ z', procs s !! q = Some z' ∧ kern z = kern z'.
Proof. intros Hq Hz. specialize (K1 q Hq). rewrite Hz in K1. destruct (procs s !! q) as [z'|]; [|done]. exists z'. split; [done|]. cbn in K1. congruence. Qed.

Lemma inv_moved : inv v' s' e' h.
Proof.
  destruct Y as (Y1 & Y2 & Y3 & Y4). destruct G5 as [E1 E2].
  apply (inv_requeue v v' s s' e e' h); try done; try (by apply moved_field).
  - intros r k r' k' q. destruct (decide (q = p)) as [->|Hq]; [apply V4|]. rewrite !V3 by done. apply (i_disj _ _ _ _ Hi).
  - intros q z Hz. destruct (decide (q = p)) as [->|Hq].
    + rewrite Hz in K2. cbn in K2. assert (E : kern z = kern y) by congruence. apply kern_fields in E. eapply proc_ok_ext; [..|exact G4]; naive_solver.
    + destruct (moved_other q z Hq Hz) as (z' & Hz' & E). apply kern_fields in E. eapply (proc_ok_stays v); [by apply (i_procs _ _ _ _ Hi)|..]; try done; [naive_solver|naive_solver|by apply E2|by apply V3].
  - intros q. destruct (decide (q = p)) as [->|Hq]; [by split|]. rewrite E2 by done. apply (i_extra _ _ _ _ Hi).
  - destruct (i_idle _ _ _ _ Hi) as (z & Hz & Z1 & Z2 & Z3 & Z4 & Z5 & Z6). pose proof (K1 (idle_thread s)) as K. rewrite Hz in K. specialize (K ltac:(congruence)).
    apply fmap_Some in K as (z' & Hz' & E). apply kern_fields in E. exists z'. split; [done|]. naive_solver congruence.
Qed.

Lemma moved_cores : same_cores (λ q, q ≠ p) s s' ∧ core <$> procs s' !! p = Some (core y).
Proof.
  split.
  - intros q Hq. specialize (K1 q Hq). destruct (procs s' !! q) as [z|], (procs s !! q) as [z'|]; try done. cbn in *. f_equal. apply kern_fields. congruence.
  - apply fmap_Some in K2 as (z & -> & E). cbn. f_equal. symmetry. by apply kern_fields.
Qed.

End Moved.

End SchedOps.
