(* ===== verification/SchedReady.v ===== *)
(** * Scheduler: the ready queue and the next process

    Adding to the ready queue, removing from it, and picking the next process. *)

From S2P Require Import Prelude Errno Links Pcb Sched WaitObj SchedInv SchedQueue SchedOps.
Import Links Pcb Sched WaitObj SchedInv SchedQueue SchedOps.

Module SchedReady.
Local Open Scope Z_scope.

Lemma kern_next n q q' (m : gmap Z process) : kern <$> alter (set_next n) q m !! q' = kern <$> m !! q'.
Proof.
  destruct (decide (q = q')) as [->|E]; [|by rewrite lookup_alter_ne]. rewrite lookup_alter_eq. by destruct (m !! q').
Qed.

Lemma next_alter n q (m : gmap Z process) : is_Some (m !! q) → next <$> alter (set_next n) q m = <[q := n]> (next <$> m).
Proof. intros [x Hx]. by rewrite (fmap_alter_set next _ q x). Qed.

(** ** Adding *)

(** [y] is [x] marked as queued. *)
Definition joins (x y : process) : Prop :=
  pstate y = PROCESS_READY ∧ on_queue y = 1 ∧ next y = next x ∧ wait_next y = wait_next x ∧ sleep_next y = sleep_next x ∧ pid y = pid x ∧ child_wait y = child_wait x ∧
  wait_on y = wait_on x ∧ reaped y = reaped x ∧ ref_count y = ref_count x ∧ pc y = pc x ∧ 0 ≤ yield_boost y ≤ PRIORITY_YIELD_BOOST_MAX.

Lemma joins_ok v cur idle e h p x y r k : proc_ok v cur idle e h p x → on_queue x = 0 → joins x y →
  proc_ok (put_Q v r k (Q v r k ++ [p])) cur idle (bump e p (-1)) h p y.
Proof.
  intros [] Hq (J1 & J2 & J0 & J3 & J4 & J5 & J6 & J7 & J8 & J9 & J10 & J11).
  split; unfold holders, pc_ok, waits_at in *; rewrite ?J2, ?J6, ?J7, ?J8, ?J9, ?J10, ?bump_eq in *; cbn [W SL put_Q]; try done; [|lia].
  left. split; [done|]. exists r, k. rewrite put_Q_at. set_solver.
Qed.

Section Enqueue.
Context (v : view) (s : state) (e : Z → Z) (h p : Z) (x : process) (f : process → process) (r : bool) (pr : Z).
Hypothesis Hi : inv v s e h.
Hypothesis Hp : procs s !! p = Some x.
Hypothesis Hq : on_queue x = 0.
Hypothesis He : 0 < e p.
Hypothesis Hidle : p ≠ idle_thread s.
Hypothesis J : joins x (f x).
Let k := Z.to_nat (clamp_priority pr).

Lemma enqueue_inv s' :
  (∀ q, kern <$> procs s' !! q = kern <$> alter f p (procs s) !! q) →
  queue_ok (next <$> procs s') (rq_of r s') (put_level (Q v r) k (Q v r k ++ [p])) →
  queue_ok (next <$> procs s') (rq_of (negb r) s') (Q v (negb r)) →
  objects s' = objects s ∧ g_sleep_list s' = g_sleep_list s ∧ process_table s' = process_table s ∧ pid_used s' = pid_used s ∧
    current s' = current s ∧ idle_thread s' = idle_thread s ∧ futex_initialized s' = futex_initialized s ∧
    active s' = active s ∧ timer_ticks s' = timer_ticks s ∧ ready_count s' = u32 (ready_count s + 1) →
  inv (put_Q v r k (Q v r k ++ [p])) s' (bump e p (-1)) h ∧ same_cores (λ q, q ≠ p) s s' ∧ core <$> procs s' !! p = Some (core (f x)) ∧ same_globals s s'.
Proof.
  intros HK HQ1 HQ2 (E1 & E2 & E3 & E4 & E5 & E6 & E7 & E8 & E9 & E10). pose proof (i_procs _ _ _ _ Hi p x Hp) as Hok. pose proof (queued_in _ _ _ _ _ _ Hi Hp Hq) as Hnq.
  assert (Hk : (k < levels)%nat) by (unfold k, levels; pose proof (clamp_range pr); lia).
  assert (K1 : ∀ q, q ≠ p → kern <$> procs s' !! q = kern <$> procs s !! q) by (intros q Hqp; by rewrite HK, lookup_alter_ne).
  assert (K2 : kern <$> procs s' !! p = Some (kern (f x))) by by rewrite HK, lookup_alter_eq, Hp.
  pose proof J as (J1 & J2 & J0 & J3 & J4 & J5 & J6 & _). split; [|destruct (moved_cores s s' p (f x)); [done|done|by split_and!]].
  apply (inv_moved v _ s s' e _ h p x (f x)); try done.
  - intros q Hqp r' k'. rewrite elem_put_Q. destruct (decide ((r', k') = (r, k))) as [E|E]; [|tauto]. assert (r' = r) as -> by congruence. assert (k' = k) as -> by congruence. set_solver.
  - intros r1 k1 r2 k2. rewrite !elem_put_Q. intros [[? _]|[_ ?]]; [|by apply Hnq in H]. intros [[? _]|[_ ?]]; [|by apply Hnq in H0]. split; congruence.
  - intros r'. destruct (decide (r' = r)) as [->|Hr]; [by rewrite put_Q_eq|]. rewrite put_Q_ne by done. by destruct r, r'.
  - rewrite E10, (i_count _ _ _ _ Hi), u32_succ. f_equal. pose proof (queued_put v r k (Q v r k ++ [p]) Hk) as Hc. rewrite length_app in Hc. cbn [length] in Hc. unfold queued in Hc |- *. lia.
  - by apply (joins_ok v _ _ e h p x).
  - split; [rewrite bump_eq; lia|]. intros q Hqp. by apply bump_ne.
Qed.

Lemma enqueue_spec : wp (runqueue_enqueue r p pr) (put_procs (alter f p (procs s)) s) (λ _ s2,
  let s' := put_ready_count (u32 (ready_count s2 + 1)) s2 in
  inv (put_Q v r k (Q v r k ++ [p])) s' (bump e p (-1)) h ∧ same_cores (λ q, q ≠ p) s s' ∧ core <$> procs s' !! p = Some (core (f x)) ∧ same_globals s s').
Proof.
  assert (Hk : (k < levels)%nat) by (unfold k, levels; pose proof (clamp_range pr); lia). pose proof (queued_in _ _ _ _ _ _ Hi Hp Hq) as Hnq.
  pose proof (po_addr _ _ _ _ _ _ _ (i_procs _ _ _ _ Hi p x Hp)) as Hp0. pose proof J as (J1 & _ & J0 & _).
  set (s1 := put_procs (alter f p (procs s)) s). assert (Hf : procs s1 !! p = Some (f x)) by (cbn; by rewrite lookup_alter_eq, Hp).
  assert (Hnx : next <$> procs s1 = next <$> procs s) by (apply fmap_alter_same; intros; congruence).
  assert (Hnx1 : next <$> alter (set_next 0) p (procs s1) = <[p := 0]> (next <$> procs s)) by (rewrite next_alter by (by exists (f x)); by rewrite Hnx).
  pose proof (i_rq _ _ _ _ Hi r) as Hr. pose proof (i_rq _ _ _ _ Hi (negb r)) as Hr'. assert (Hnr : r ≠ negb r) by by destruct r.
  unfold runqueue_enqueue. apply wp_bind, (wp_get p (f x)); [done|]. rewrite J1. cbn [bool_decide decide_rel negb]. rewrite bool_decide_true by done. cbn [negb].
  apply wp_bind, wp_upd; [by exists (f x)|]. apply wp_bind, wp_read. fold k. change (rq_of r (put_procs _ s1)) with (rq_of r s).
  apply wp_if; intros Et; [apply Z.eqb_eq in Et|apply Z.eqb_neq in Et].
  - destruct (enqueue_empty _ _ _ k p Hr Hk Hp0 (Hnq r) Et) as [EL Hok]. apply wp_modify. cbv zeta. apply enqueue_inv.
    + intros q. destruct r; apply kern_next.
    + rewrite EL. cbn [app]. destruct r; cbn [put_ready_count put_rq0 put_rq1 procs rq_of rq0 rq1 put_procs]; rewrite Hnx1; exact Hok.
    + assert (Ho := queue_ok_other _ _ _ p 0 Hr' (Hnq (negb r))). destruct r; cbn [put_ready_count put_rq0 put_rq1 procs rq_of rq0 rq1 put_procs]; rewrite Hnx1; exact Ho.
    + by destruct r.
  - destruct (enqueue_tail _ _ _ k p Hr (inv_apart _ _ _ _ r Hi) Hk Hp0 (Hnq r) Et) as [Ht Hok].
    set (t := tails (rq_of r s) !!! k) in *. assert (Hlive : is_Some (alter (set_next 0) p (procs s1) !! t)).
    { apply lookup_alter_is_Some. destruct (linked_in _ _ _ t (q_chain _ _ _ Hr k Hk) Ht) as [_ Hs]. rewrite <- Hnx, lookup_fmap, fmap_is_Some in Hs. done. }
    apply wp_bind, wp_upd; [done|]. apply wp_modify. cbv zeta. apply enqueue_inv.
    + intros q. etransitivity; [|apply (kern_next 0 p)]. etransitivity; [|apply (kern_next p t)]. by destruct r.
    + destruct r; cbn [put_ready_count put_rq0 put_rq1 procs rq_of rq0 rq1 put_procs]; rewrite next_alter by done; rewrite Hnx1; exact Hok.
    + assert (Ho : queue_ok (<[t := p]> (<[p := 0]> (next <$> procs s))) (rq_of (negb r) s) (Q v (negb r))).
      { apply queue_ok_other; [by apply queue_ok_other|]. intros j Hj. apply Hnr. by destruct (i_disj _ _ _ _ Hi r k (negb r) j t). }
      destruct r; cbn [put_ready_count put_rq0 put_rq1 procs rq_of rq0 rq1 put_procs]; rewrite next_alter by done; rewrite Hnx1; exact Ho.
    + by destruct r.
Qed.

End Enqueue.

Definition appended (v : view) (r : bool) (k : nat) (p : Z) : view := put_Q v r k (Q v r k ++ [p]).

(** [p], which was [x], has been put at the end of a queue as [y], or left alone. *)
Definition added (r : bool) (y : process) (p : Z) (x : process) (v v' : view) (s s' : state) : Prop :=
  same_cores (λ q, q ≠ p) s s' ∧ same_globals s s' ∧ W v' = W v ∧ SL v' = SL v ∧
  ((pstate x = PROCESS_TERMINATED ∨ on_queue x = 1) ∧ v' = v ∧ core <$> procs s' !! p = Some (core x) ∨
   pstate x ≠ PROCESS_TERMINATED ∧ on_queue x = 0 ∧ v' = appended v r (level x) p ∧ core <$> procs s' !! p = Some (core y)).

Lemma not_queued v s e h p x : inv v s e h → procs s !! p = Some x → on_queue x = 0 ∨ on_queue x = 1.
Proof. intros Hi Hp. destruct (po_queue _ _ _ _ _ _ _ (i_procs _ _ _ _ Hi p x Hp)) as [[-> _]|[-> _]]; auto. Qed.

Lemma core_of s s' p x : same_cores (λ _, True) s s' → procs s !! p = Some x → ∃ x', procs s' !! p = Some x' ∧ core x' = core x.
Proof. intros Hc Hp. specialize (Hc p I). rewrite Hp in Hc. apply fmap_Some in Hc as (x' & Hx & E). by exists x'. Qed.

Lemma level_core x y : core x = core y → level x = level y.
Proof. intros (_ & _ & _ & _ & E & _)%core_fields. unfold level, process_get_priority. by rewrite E. Qed.

Lemma bump_back v s e p h : inv v s (bump (bump e p 1) p (-1)) h → inv v s e h.
Proof. apply inv_ext. intros q. by rewrite (bump_undo e p 1). Qed.

(** The common part of the two ways to become ready. *)
Lemma rejoin_spec v s s1 e h p x (g : process → process) r :
  inv v s e h → inv v s1 (bump e p 1) h → same_cores (λ _, True) s s1 → same_globals s s1 → procs s !! p = Some x → p ≠ idle_thread s →
  on_queue x = 0 → pstate x ≠ PROCESS_TERMINATED → (∀ x', core x' = core x → joins x' (g x') ∧ core (g x') = core (g x)) →
  wp (runqueue_enqueue r p (process_get_priority x)) (put_procs (alter g p (procs s1)) s1) (λ _ s2,
    let s' := put_ready_count (u32 (ready_count s2 + 1)) s2 in
    inv (appended v r (level x) p) s' e h ∧ added r (g x) p x v (appended v r (level x) p) s s').
Proof.
  intros Hi Hi1 Hc1 Hg1 Hp Hidle Hq Ht Hg. destruct (core_of _ _ _ _ Hc1 Hp) as (x' & Hx' & Ex). destruct (Hg x' Ex) as [Hj Eg]. apply core_fields in Ex as Fx.
  eapply wp_mono.
  - apply (enqueue_spec v s1 (bump e p 1) h p x' g r); [done|done|naive_solver congruence| |destruct Hg1 as (_ & _ & -> & _); done|done].
    rewrite bump_eq. pose proof (i_extra _ _ _ _ Hi p). lia.
  - intros _ s2 (Hi2 & Hc2 & Hp2 & Hg2). rewrite level_clamp in Hi2. split; [by apply bump_back in Hi2|].
    split; [by eapply same_cores_trans; [|done|done]; naive_solver|]. split; [by eapply same_globals_trans|]. split_and!; [done|done|]. right. split_and!; [done|done|done|]. by rewrite <- Eg.
Qed.

Lemma set_ready_spec s p x (Φ : bool → state → Prop) : procs s !! p = Some x → pstate x ≠ PROCESS_TERMINATED →
  Φ true (put_procs (alter (set_pstate PROCESS_READY) p (procs s)) s) → wp (process_set_ready p) s Φ.
Proof.
  intros Hp Ht H. unfold process_set_ready. apply wp_bind, (wp_get p x); [done|]. destruct (pstate x); try done; apply wp_bind, wp_upd; try done; by apply wp_ret.
Qed.

Definition readied (x : process) : process := set_on_queue 1 (set_pstate PROCESS_READY x).

Lemma added_left r y p x v s : procs s !! p = Some x → pstate x = PROCESS_TERMINATED ∨ on_queue x = 1 → added r y p x v v s s.
Proof. intros Hp H. split; [done|]. split_and!; try done. left. rewrite Hp. done. Qed.

Lemma joins_readied v cur idle e h p x x' b : proc_ok v cur idle e h p x → core x' = core x → 0 ≤ b ≤ PRIORITY_YIELD_BOOST_MAX →
  joins x' (readied x') ∧ joins x' (set_yield_boost b (readied x')).
Proof.
  intros [] (_ & _ & _ & _ & _ & C & _)%core_fields Hb. split; split_and!; try done; cbn; try lia; rewrite C; lia.
Qed.

Lemma core_readied x x' b : core x' = core x → core (readied x') = core (readied x) ∧ core (set_yield_boost b (readied x')) = core (set_yield_boost b (readied x)).
Proof. destruct x, x'. unfold core, readied. cbn. intros [=]. subst. done. Qed.

Lemma readied_twice p s1 : put_procs (alter (set_on_queue 1) p (procs (put_procs (alter (set_pstate PROCESS_READY) p (procs s1)) s1))) (put_procs (alter (set_pstate PROCESS_READY) p (procs s1)) s1) =
  put_procs (alter readied p (procs s1)) s1.
Proof. cbn. by rewrite alter_alter_eq. Qed.

Lemma add_spec v s e h n p x : inv v s e h → procs s !! p = Some x → p ≠ idle_thread s → small n e → n ≤ 100 →
  wp (scheduler_add_process p) s (λ _ s', ∃ v', inv v' s' e h ∧ added (negb (active s)) (readied x) p x v v' s s').
Proof.
  intros Hi Hp Hidle Hs Hn. apply wp_bind, (wp_get p x); [done|]. apply wp_if; intros Et; [apply bool_decide_eq_true in Et|apply bool_decide_eq_false in Et].
  { apply wp_ret. exists v. split; [done|]. apply added_left; auto. }
  destruct (not_queued _ _ _ _ _ _ Hi Hp) as [Hq|Hq]; rewrite Hq; cbn [Z.eqb negb].
  2: { apply wp_ret. exists v. split; [done|]. apply added_left; auto. }
  eapply wp_use; [by eapply ref_spec|]. cbn. intros _ s1 (Hi1 & Hc1 & Hg1). destruct (core_of _ _ _ _ Hc1 Hp) as (x' & Hx' & Ex). apply core_fields in Ex as Fx.
  apply wp_bind. eapply set_ready_spec; [done|naive_solver congruence|]. apply wp_bind, wp_upd; [cbn; by apply lookup_alter_is_Some|]. apply wp_bind, wp_read.
  rewrite readied_twice. cbn [active put_procs]. destruct Hg1 as (Ea & Hg1'). rewrite Ea. apply wp_bind. eapply wp_mono.
  - eapply (rejoin_spec v s s1 e h p x readied); try done. intros x'' E. split; [apply (joins_readied v (current s) (idle_thread s) e h p x x'' 0); [by apply Hi|done|done]|by apply (core_readied x x'' 0)].
  - intros _ s2 [H1 H2]. apply wp_modify. by exists (appended v (negb (active s)) (level x) p).
Qed.

Lemma boost_range n : 0 ≤ priority_yield_boost n ≤ PRIORITY_YIELD_BOOST_MAX.
Proof.
  unfold priority_yield_boost, PRIORITY_YIELD_BOOST_MAX. destruct (Z.leb_spec 0 n); [lia|]. cbv zeta. destruct (Z.ltb_spec 10 (Z.quot (- n) 2)); [lia|].
  pose proof (Z.quot_pos (- n) 2). lia.
Qed.

(** What is left of the boost of a process that yields, and the array it goes to. *)
Definition yielded (x : process) : process :=
  set_yield_boost (if 0 <? yield_boost x then yield_boost x - 1 else priority_yield_boost (priority x)) (readied x).

Lemma yield_requeue_spec v s e h n p x : inv v s e h → procs s !! p = Some x → p ≠ idle_thread s → small n e → n ≤ 100 →
  wp (scheduler_yield_requeue p) s (λ _ s', ∃ v', inv v' s' e h ∧
    added (if 0 <? yield_boost x then active s else negb (active s)) (yielded x) p x v v' s s').
Proof.
  intros Hi Hp Hidle Hs Hn. apply wp_bind, (wp_get p x); [done|]. apply wp_if; intros Et; [apply bool_decide_eq_true in Et|apply bool_decide_eq_false in Et].
  { apply wp_ret. exists v. split; [done|]. apply added_left; auto. }
  destruct (not_queued _ _ _ _ _ _ Hi Hp) as [Hq|Hq]; rewrite Hq; cbn [Z.eqb negb].
  2: { apply wp_ret. exists v. split; [done|]. apply added_left; auto. }
  eapply wp_use; [by eapply ref_spec|]. cbn. intros _ s1 (Hi1 & Hc1 & Hg1). destruct (core_of _ _ _ _ Hc1 Hp) as (x' & Hx' & Ex). apply core_fields in Ex as Fx.
  apply wp_bind. eapply set_ready_spec; [done|naive_solver congruence|]. apply wp_bind, wp_upd; [cbn; by apply lookup_alter_is_Some|]. apply wp_bind, wp_read.
  rewrite readied_twice. cbn [active put_procs]. pose proof Hg1 as (Ea & _). rewrite Ea. pose proof (po_boost _ _ _ _ _ _ _ (i_procs _ _ _ _ Hi p x Hp)) as Hb.
  assert (Hmain : ∀ b r, 0 ≤ b ≤ PRIORITY_YIELD_BOOST_MAX → wp (runqueue_enqueue r p (process_get_priority x)) (put_procs (alter (λ x, set_yield_boost b (readied x)) p (procs s1)) s1) (λ _ s2,
    let s' := put_ready_count (u32 (ready_count s2 + 1)) s2 in
    inv (appended v r (level x) p) s' e h ∧ added r (set_yield_boost b (readied x)) p x v (appended v r (level x) p) s s')).
  { intros b r Hr. eapply (rejoin_spec v s s1 e h p x (λ x, set_yield_boost b (readied x))); try done. intros x'' E.
    split; [apply (joins_readied v (current s) (idle_thread s) e h p x x'' b); [by apply Hi|done|done]|by apply (core_readied x x'' b)]. }
  pose proof (boost_range (priority x)) as Hb'.
  apply wp_bind. unfold yielded. destruct (Z.ltb_spec 0 (yield_boost x)) as [H0|H0].
  all: apply wp_bind, wp_upd; [cbn; by apply lookup_alter_is_Some|].
  all: change (procs (put_procs ?m s1)) with m; rewrite alter_alter_eq; change (put_procs ?m (put_procs _ s1)) with (put_procs m s1).
  all: eapply wp_mono; [apply Hmain; lia|]; intros _ s2 [H1 H2]; apply wp_modify; eexists; split; [done|done].
Qed.

(** ** Walking a list *)

Lemma rq_walk_spec (nx : process → Z) test s l fuel prev it : chain (nx <$> procs s) it l → (length l < fuel)%nat →
  wp (walk fuel nx test prev it) s (λ r s', s' = s ∧
    match r with
    | None => ∀ q x, q ∈ l → procs s !! q = Some x → test q x = false
    | Some (pr, it) => ∃ l1 l2 x, l = l1 ++ it :: l2 ∧ pr = default prev (last l1) ∧ procs s !! it = Some x ∧ test it x = true ∧
        ∀ q y, q ∈ l1 → procs s !! q = Some y → test q y = false
    end).
Proof.
  revert l prev it. induction fuel as [|fuel IH]; intros l prev it Hc Hf; [lia|]. cbn [walk]. destruct l as [|p l].
  - cbn in Hc. subst it. apply wp_ret. split; [done|]. intros q x ?%elem_of_nil. done.
  - destruct Hc as (-> & H0 & n & Hn & Hl). destruct (Z.eqb_spec p 0) as [|_]; [done|]. rewrite lookup_fmap in Hn. apply fmap_Some in Hn as (x & Hx & ->).
    apply wp_bind, (wp_get p x); [done|]. destruct (test p x) eqn:Et.
    + apply wp_ret. split; [done|]. exists [], l, x. split_and!; try done. intros q y ?%elem_of_nil. done.
    + eapply wp_mono; [apply (IH l); [done|cbn in Hf; lia]|]. intros [[pr it]|] s' [-> H]; (split; [done|]).
      * destruct H as (l1 & l2 & y & -> & -> & H1 & H2 & H3). exists (p :: l1), l2, y. split_and!; try done; [rewrite last_cons; by destruct (last l1)|].
        intros q z [->|Hq]%elem_of_cons Hz; [congruence|by eapply H3].
      * intros q z [->|Hq]%elem_of_cons Hz; [congruence|by eapply H].
Qed.

Lemma fuel_enough (nx : process → Z) s it l : chain (nx <$> procs s) it l → (length l < fuel_of s)%nat.
Proof. intros Hc. apply linked_size in Hc. rewrite map_size_fmap in Hc. unfold fuel_of. lia. Qed.

(** ** Removing *)

Section Leave.
Context (v : view) (s : state) (e : Z → Z) (h p : Z) (x : process) (r : bool) (k : nat) (l1 l2 : list Z).
Hypothesis Hi : inv v s e h.
Hypothesis Hp : procs s !! p = Some x.
Hypothesis Hk : Q v r k = l1 ++ p :: l2.

Lemma leave_level : (k < levels)%nat.
Proof. destruct (decide (k < levels)%nat) as [|Hn]; [done|]. rewrite (q_none _ _ _ (i_rq _ _ _ _ Hi r) k) in Hk by lia. by destruct l1. Qed.

Lemma leave_queued : on_queue x = 1 ∧ p ∉ l1 ++ l2 ∧ p ≠ idle_thread s.
Proof.
  assert (on_queue x = 1) as E. { destruct (not_queued _ _ _ _ _ _ Hi Hp) as [E|]; [|done]. exfalso. apply (queued_in _ _ _ _ _ _ Hi Hp E r k). rewrite Hk. set_solver. }
  split; [done|]. split; [|intros Ei; destruct (i_idle _ _ _ _ Hi) as (y & Hy & _ & Hq & _); rewrite <- Ei in Hy; assert (y = x) as -> by congruence; lia].
  pose proof (chain_nodup _ _ _ (q_chain _ _ _ (i_rq _ _ _ _ Hi r) k leave_level)) as Hd. rewrite Hk in Hd. by apply NoDup_app_cons_mid in Hd as [Hd _].
Qed.

Lemma leave_ok : proc_ok (put_Q v r k (l1 ++ l2)) (current s) (idle_thread s) (bump e p 1) h p (set_on_queue 0 x).
Proof.
  destruct leave_queued as (E & Hd & _). destruct (i_procs _ _ _ _ Hi p x Hp). split; unfold holders in *; cbn [W SL put_Q] in *; rewrite ?bump_eq; try done.
  - right. split; [done|]. intros r' k'. rewrite elem_put_Q. intros [[_ ?]|[Hne Hin]]; [done|]. apply Hne.
    destruct (i_disj _ _ _ _ Hi r' k' r k p Hin) as [-> ->]; [rewrite Hk; set_solver|done].
  - cbn. rewrite E in *. lia.
Qed.

Lemma leave_inv s' :
  (∀ q, kern <$> procs s' !! q = kern <$> alter (set_on_queue 0) p (procs s) !! q) →
  queue_ok (next <$> procs s') (rq_of r s') (put_level (Q v r) k (l1 ++ l2)) →
  queue_ok (next <$> procs s') (rq_of (negb r) s') (Q v (negb r)) →
  objects s' = objects s ∧ g_sleep_list s' = g_sleep_list s ∧ process_table s' = process_table s ∧ pid_used s' = pid_used s ∧
    current s' = current s ∧ idle_thread s' = idle_thread s ∧ futex_initialized s' = futex_initialized s ∧ ready_count s' = u32 (ready_count s - 1) →
  inv (put_Q v r k (l1 ++ l2)) s' (bump e p 1) h ∧ same_cores (λ q, q ≠ p) s s' ∧ core <$> procs s' !! p = Some (core (set_on_queue 0 x)).
Proof.
  intros HK HQ1 HQ2 (E1 & E2 & E3 & E4 & E5 & E6 & E7 & E10). destruct leave_queued as (Hq & Hd & Hidle).
  assert (K1 : ∀ q, q ≠ p → kern <$> procs s' !! q = kern <$> procs s !! q) by (intros q Hqp; by rewrite HK, lookup_alter_ne).
  assert (K2 : kern <$> procs s' !! p = Some (kern (set_on_queue 0 x))) by by rewrite HK, lookup_alter_eq, Hp.
  split; [|destruct (moved_cores s s' p (set_on_queue 0 x)); [done|done|by split_and!]].
  apply (inv_moved v _ s s' e _ h p x (set_on_queue 0 x)); try done.
  - intros q Hqp r' k'. rewrite elem_put_Q. destruct (decide ((r', k') = (r, k))) as [E|E]; [|tauto]. assert (r' = r) as -> by congruence. assert (k' = k) as -> by congruence. rewrite Hk. set_solver.
  - intros r1 k1 r2 k2 Hin. exfalso. destruct (po_queue _ _ _ _ _ _ _ leave_ok) as [[E _]|[_ Hno]]; [cbn in E; lia|by eapply Hno].
  - intros r'. destruct (decide (r' = r)) as [->|Hr]; [by rewrite put_Q_eq|]. rewrite put_Q_ne by done. by destruct r, r'.
  - rewrite E10, (i_count _ _ _ _ Hi), u32_pred. f_equal. pose proof (queued_put v r k (l1 ++ l2) leave_level) as Hc. rewrite Hk, !length_app in Hc. cbn [length] in Hc. unfold queued in Hc |- *. lia.
  - apply leave_ok.
  - split; [rewrite bump_eq; pose proof (i_extra _ _ _ _ Hi p); lia|]. intros q Hqp. by apply bump_ne.
Qed.

(** The other array does not see the links of a member of this one. *)
Lemma leave_other q n nx : q ∈ Q v r k → queue_ok nx (rq_of (negb r) s) (Q v (negb r)) → queue_ok (<[q := n]> nx) (rq_of (negb r) s) (Q v (negb r)).
Proof.
  intros Hq Ho. apply queue_ok_other; [done|]. intros j Hj. destruct (i_disj _ _ _ _ Hi r k (negb r) j q Hq Hj) as [E _]. revert E. clear. by destruct r.
Qed.

End Leave.

Definition left_queue (v : view) (s : state) (e : Z → Z) (h p : Z) (x : process) (r : bool) (k : nat) (l : list Z) (s' : state) : Prop :=
  inv (put_Q v r k l) s' (bump e p 1) h ∧ same_cores (λ q, q ≠ p) s s' ∧ core <$> procs s' !! p = Some (core (set_on_queue 0 x)) ∧ same_globals s s'.

(** What the callers of the two removals do next. *)
Definition unmark (p : Z) (s : state) : state :=
  put_ready_count (u32 (ready_count s - 1)) (put_procs (alter (set_on_queue 0) p (procs s)) s).

Definition set_rq (r : bool) (q : runqueue) (s : state) : state := if r then put_rq1 q s else put_rq0 q s.

Lemma kern_unmark p q (m m' : gmap Z process) : (∀ q, kern <$> m !! q = kern <$> m' !! q) →
  kern <$> alter (set_on_queue 0) p m !! q = kern <$> alter (set_on_queue 0) p m' !! q.
Proof.
  intros H. destruct (decide (p = q)) as [->|E]; [|by rewrite !lookup_alter_ne]. rewrite !lookup_alter_eq. specialize (H q).
  destruct (m !! q) as [[]|], (m' !! q) as [[]|]; try done. unfold kern in *. cbn in *. injection H as [=]. by subst.
Qed.

Lemma take_head v s e h r k p x l : inv v s e h → procs s !! p = Some x → Q v r k = p :: l →
  left_queue v s e h p x r k l (unmark p (put_procs (alter (set_next 0) p (procs s)) (set_rq r
    (if next x =? 0 then RQ (<[k := 0]> (queues (rq_of r s))) (<[k := 0]> (tails (rq_of r s))) (bitmap_clear (Z.of_nat k) (bitmap (rq_of r s)))
     else RQ (<[k := next x]> (queues (rq_of r s))) (tails (rq_of r s)) (bitmap (rq_of r s))) s))).
Proof.
  intros Hi Hp Hk. pose proof (leave_level v s e h p r k [] l Hi Hk) as Hlev.
  assert (Hnx : next <$> alter (set_on_queue 0) p (alter (set_next 0) p (procs s)) = <[p := 0]> (next <$> procs s)) by (rewrite fmap_alter_same by done; by rewrite next_alter).
  pose proof (dequeue_head _ _ _ k p (next x) l (i_rq _ _ _ _ Hi r) (inv_apart _ _ _ _ r Hi) Hlev Hk) as Hd. rewrite lookup_fmap, Hp in Hd. specialize (Hd eq_refl).
  assert (Ho : queue_ok (<[p := 0]> (next <$> procs s)) (rq_of (negb r) s) (Q v (negb r))) by (apply (leave_other v s e h r k Hi); [rewrite Hk; left|apply (i_rq _ _ _ _ Hi)]).
  edestruct (leave_inv v s e h p x r k [] l Hi Hp Hk) as (H1 & H2 & H3); [| | | |split_and!; [exact H1|exact H2|exact H3|by destruct r..]].
  - intros q. destruct r; apply kern_unmark; intros q'; apply kern_next.
  - destruct r; cbn [procs put_procs put_ready_count put_rq0 put_rq1 rq_of rq0 rq1 unmark set_rq]; rewrite Hnx; exact Hd.
  - destruct r; cbn [procs put_procs put_ready_count put_rq0 put_rq1 rq_of rq0 rq1 unmark set_rq]; rewrite Hnx; exact Ho.
  - by destruct r.
Qed.

Lemma take_middle v s e h r k y p x l1 l2 : inv v s e h → procs s !! p = Some x → Q v r k = l1 ++ y :: p :: l2 →
  left_queue v s e h p x r k (l1 ++ y :: l2) (unmark p (put_procs (alter (set_next 0) p (alter (set_next (next x)) y (procs s))) (set_rq r
    (RQ (queues (rq_of r s)) (if tails (rq_of r s) !!! k =? p then <[k := y]> (tails (rq_of r s)) else tails (rq_of r s)) (bitmap (rq_of r s))) s))).
Proof.
  intros Hi Hp Hk. assert (Hk' : Q v r k = (l1 ++ [y]) ++ p :: l2) by by rewrite Hk, <- (assoc_L app).
  assert (Hl : (l1 ++ [y]) ++ l2 = l1 ++ y :: l2) by by rewrite <- (assoc_L app).
  pose proof (leave_level v s e h p r k _ l2 Hi Hk') as Hlev.
  assert (Hy : is_Some (procs s !! y)). { destruct (linked_in _ _ _ y (q_chain _ _ _ (i_rq _ _ _ _ Hi r) k Hlev)) as [_ H]; [rewrite Hk; set_solver|]. by rewrite lookup_fmap, fmap_is_Some in H. }
  assert (Hnx : next <$> alter (set_on_queue 0) p (alter (set_next 0) p (alter (set_next (next x)) y (procs s))) = <[p := 0]> (<[y := next x]> (next <$> procs s))).
  { rewrite fmap_alter_same by done. rewrite next_alter by (rewrite lookup_alter_is_Some; by exists x). by rewrite next_alter. }
  pose proof (remove_middle _ _ _ k l1 y p l2 (next x) (i_rq _ _ _ _ Hi r) (inv_apart _ _ _ _ r Hi) Hlev Hk) as Hd. rewrite lookup_fmap, Hp in Hd. specialize (Hd eq_refl).
  assert (Ho : queue_ok (<[p := 0]> (<[y := next x]> (next <$> procs s))) (rq_of (negb r) s) (Q v (negb r))).
  { apply (leave_other v s e h r k Hi); [rewrite Hk; set_solver|]. apply (leave_other v s e h r k Hi); [rewrite Hk; set_solver|apply (i_rq _ _ _ _ Hi)]. }
  edestruct (leave_inv v s e h p x r k (l1 ++ [y]) l2 Hi Hp Hk') as (H1 & H2 & H3); [| | | |rewrite Hl in H1; split_and!; [exact H1|exact H2|exact H3|by destruct r..]].
  - intros q. destruct r; apply kern_unmark; intros q'; etransitivity; apply kern_next.
  - rewrite Hl. destruct r; cbn [procs put_procs put_ready_count put_rq0 put_rq1 rq_of rq0 rq1 unmark set_rq]; rewrite Hnx; exact Hd.
  - destruct r; cbn [procs put_procs put_ready_count put_rq0 put_rq1 rq_of rq0 rq1 unmark set_rq]; rewrite Hnx; exact Ho.
  - by destruct r.
Qed.

Lemma level_guard x : (process_get_priority x <? 0) || (SCHED_PRIORITY_LEVELS <=? process_get_priority x) = false.
Proof.
  unfold process_get_priority, SCHED_PRIORITY_LEVELS. pose proof (clamp_range (NICE_TO_PRIORITY (priority x))).
  apply orb_false_iff. split; [apply Z.ltb_ge|apply Z.leb_gt]; lia.
Qed.

Lemma level_of x : Z.of_nat (level x) = process_get_priority x.
Proof. unfold level, process_get_priority. pose proof (clamp_range (NICE_TO_PRIORITY (priority x))). lia. Qed.

Lemma rq_remove_spec v s e h r p x : inv v s e h → procs s !! p = Some x →
  wp (runqueue_remove r p (process_get_priority x)) s (λ b s2,
    if b : bool then ∃ l1 l2, Q v r (level x) = l1 ++ p :: l2 ∧ is_Some (procs s2 !! p) ∧ left_queue v s e h p x r (level x) (l1 ++ l2) (unmark p s2)
    else s2 = s ∧ p ∉ Q v r (level x)).
Proof.
  intros Hi Hp. unfold runqueue_remove. rewrite level_guard. fold (level x). rewrite <- level_of. cbv zeta. apply wp_bind, wp_read, wp_bind, wp_read.
  pose proof (q_chain _ _ _ (i_rq _ _ _ _ Hi r) (level x) (level_range x)) as Hc.
  eapply wp_use; [apply (rq_walk_spec next _ s _ _ 0 _ Hc); by eapply fuel_enough|].
  intros [[prev it]|] s1 [-> H]; [|apply wp_ret; split; [done|]; intros Hin; by specialize (H p x Hin Hp); rewrite Z.eqb_refl in H].
  destruct H as (l1 & l2 & y & EL & -> & Hy & ->%Z.eqb_eq & _). assert (y = x) as -> by congruence. apply wp_bind, (wp_get p x); [done|].
  destruct l1 as [|z l1 _] using rev_ind.
  - cbn [last default Z.eqb]. apply wp_bind, wp_modify, wp_bind, wp_upd; [by destruct r; exists x|]. apply wp_ret.
    exists [], l2. split; [done|]. split; [by apply lookup_alter_is_Some; destruct r; exists x|]. pose proof (take_head v s e h r (level x) p x l2 Hi Hp EL) as Ht. by destruct r.
  - rewrite last_snoc. cbn [default from_option id]. assert (EL' : Q v r (level x) = l1 ++ z :: p :: l2) by by rewrite EL, <- (assoc_L app).
    destruct (linked_in _ _ _ z Hc) as [Hz0 Hz]; [rewrite EL'; set_solver|]. rewrite lookup_fmap, fmap_is_Some in Hz. destruct (Z.eqb_spec z 0); [done|].
    apply wp_bind, wp_bind, wp_upd; [done|]. apply wp_modify, wp_bind, wp_upd; [destruct r; apply lookup_alter_is_Some; by exists x|]. apply wp_ret.
    exists (l1 ++ [z]), l2. split; [done|]. split; [by apply lookup_alter_is_Some; destruct r; apply lookup_alter_is_Some; exists x|].
    pose proof (take_middle v s e h r (level x) z p x l1 l2 Hi Hp EL') as Ht. rewrite <- (assoc_L app). by destruct r.
Qed.

(** [p], which was [x], has been taken out of its queue, if it was found there. *)
Definition removed (p : Z) (x : process) (v v' : view) (s s' : state) : Prop :=
  same_cores (λ q, q ≠ p) s s' ∧ same_globals s s' ∧ W v' = W v ∧ SL v' = SL v ∧
  ((on_queue x = 0 ∨ ∀ r, p ∉ Q v r (level x)) ∧ v' = v ∧ core <$> procs s' !! p = Some (core x) ∨
   ∃ r l1 l2, Q v r (level x) = l1 ++ p :: l2 ∧ v' = put_Q v r (level x) (l1 ++ l2) ∧ core <$> procs s' !! p = Some (core (set_on_queue 0 x))).

Lemma remove_spec v s e h p x : inv v s e h → procs s !! p = Some x → (p = h → p = current s ∧ p ≠ idle_thread s) → 0 < e p ∨ p = current s ∧ p ≠ idle_thread s →
  wp (scheduler_remove_process p) s (λ _ s', ∃ v', inv v' s' e h ∧ removed p x v v' s s').
Proof.
  intros Hi Hp Hh Hk. apply wp_bind, (wp_get p x); [done|].
  assert (Hleft : on_queue x = 0 ∨ (∀ r, p ∉ Q v r (level x)) → ∃ v', inv v' s e h ∧ removed p x v v' s s).
  { intros Hno. exists v. split; [done|]. split_and!; try done. left. by rewrite Hp. }
  apply wp_if; intros Eq; [apply Z.eqb_eq in Eq; apply wp_ret; auto|].
  assert (Hfin : ∀ r s2 l1 l2, Q v r (level x) = l1 ++ p :: l2 → is_Some (procs s2 !! p) → left_queue v s e h p x r (level x) (l1 ++ l2) (unmark p s2) →
    wp (when true (upd p (set_on_queue 0);; modify (λ s, put_ready_count (u32 (ready_count s - 1)) s);; process_unref p)) s2 (λ _ s', ∃ v', inv v' s' e h ∧ removed p x v v' s s')).
  { intros r s2 l1 l2 EL Hs2 (H1 & H2 & H3 & H4). cbn [when]. apply wp_bind, wp_upd; [done|]. apply wp_bind, wp_modify. change (wp (process_unref p) (unmark p s2) (λ _ s', ∃ v', inv v' s' e h ∧ removed p x v v' s s')).
    apply fmap_Some in H3 as (y & Hy & Ey). destruct H4 as (G1 & G2 & G3 & G4). pose proof (i_extra _ _ _ _ Hi p) as He.
    eapply wp_mono; [apply (unref_kept _ _ _ h p y H1 Hy)|].
    - rewrite bump_eq. lia.
    - by rewrite G2, G3.
    - rewrite bump_eq. destruct Hk as [?|[E1 E2]]; [right; lia|left]. pose proof (i_procs _ _ _ _ H1 p y Hy) as Hok.
      destruct (po_queue _ _ _ _ _ _ _ Hok) as [[? _]|[? _]], (po_reaped _ _ _ _ _ _ _ Hok) as [?|?]; unfold holders; rewrite G2, G3, bool_decide_true by done; destruct (negb _); cbn; lia.
    - intros _ s3 (H5 & H6 & H7). exists (put_Q v r (level x) (l1 ++ l2)). split; [by apply bump_back in H5|].
      split; [by eapply same_cores_trans; [|done|done]; naive_solver|]. split; [eapply same_globals_trans; [|done]; done|]. split_and!; try done.
      right. exists r, l1, l2. split_and!; try done. by rewrite (H6 p I), Hy, Ey. }
  apply wp_bind, wp_read. eapply wp_use; [by apply (rq_remove_spec v s e h (active s))|]. intros [] s2.
  - intros (l1 & l2 & EL & Hs2 & Hl). apply wp_bind, wp_ret. by apply (Hfin (active s) s2 l1 l2).
  - intros [-> Hno]. eapply wp_use; [by apply (rq_remove_spec v s e h (negb (active s)))|]. intros [] s2.
    + intros (l1 & l2 & EL & Hs2 & Hl). by apply (Hfin (negb (active s)) s2 l1 l2).
    + intros [-> Hno']. apply wp_ret, Hleft. right. intros r. by destruct r, (active s).
Qed.

End SchedReady.
