(* ===== verification/SchedPick.v ===== *)
(** * Scheduler: picking the next process

    The order in which the two arrays of queues serve the processes, and the
    functions that take the next one. *)

From S2P Require Import Prelude Errno Links Pcb Sched WaitObj SchedInv SchedQueue SchedOps SchedReady.

Import Links Pcb Sched WaitObj SchedInv SchedQueue SchedOps SchedReady.

Module SchedPick.
Local Open Scope Z_scope.

(** The order of service: the active array by priority, then the expired one;
    within a priority, first in first out. *)
Definition service (v : view) (a : bool) : list Z := members (Q v a) ++ members (Q v (negb a)).

(** ** Lists of queues *)

Lemma concat_nodup (L : nat → list Z) ks : NoDup ks → (∀ k, k ∈ ks → NoDup (L k)) → apart L → NoDup (concat (L <$> ks)).
Proof.
  intros Hd HL Ha. induction Hd as [|k ks Hk Hd IH]; cbn; [constructor|]. apply NoDup_app. split_and!; [apply HL; left| |apply IH; intros; apply HL; by right].
  intros q Hq Hin. rewrite list_elem_of_In, in_concat in Hin. destruct Hin as (l & Hl & Hq'). rewrite <- list_elem_of_In in Hl. rewrite <- list_elem_of_In in Hq'.
  apply list_elem_of_fmap in Hl as (j & -> & Hj). apply Hk. by rewrite (Ha k j q Hq Hq').
Qed.

Lemma members_nodup v s e h r : inv v s e h → NoDup (members (Q v r)).
Proof.
  intros Hi. apply concat_nodup; [apply NoDup_seq| |by eapply inv_apart]. intros k Hk%elem_of_seq.
  apply (chain_nodup _ _ _ (q_chain _ _ _ (i_rq _ _ _ _ Hi r) k ltac:(lia))).
Qed.

Lemma service_nodup v s e h a : inv v s e h → NoDup (service v a).
Proof.
  intros Hi. apply NoDup_app. split_and!; [by eapply members_nodup| |by eapply members_nodup].
  intros q (k & _ & Hk)%elem_members (j & _ & Hj)%elem_members. destruct (i_disj _ _ _ _ Hi a k (negb a) j q Hk Hj) as [E _]. by destruct a.
Qed.

Lemma elem_service v s e h a q : inv v s e h → q ∈ service v a ↔ ∃ r k, q ∈ Q v r k.
Proof.
  intros Hi. unfold service. rewrite elem_of_app, !elem_members. split.
  - intros [(k & _ & H)|(k & _ & H)]; eauto.
  - intros (r & k & H). assert (Hk : (k < levels)%nat).
    { destruct (decide (k < levels)%nat) as [|Hn]; [done|]. rewrite (q_none _ _ _ (i_rq _ _ _ _ Hi r) k) in H by lia. set_solver. }
    destruct (decide (r = a)) as [->|Hr]; [left|right]; exists k; [done|]. assert (r = negb a) as <- by (by destruct r, a). done.
Qed.

Lemma service_live v s e h a q : inv v s e h → q ∈ service v a → ∃ x, procs s !! q = Some x ∧ on_queue x = 1.
Proof.
  intros Hi Hq. apply (elem_service _ _ _ _ a q Hi) in Hq as (r & k & Hq).
  assert (Hk : (k < levels)%nat). { destruct (decide (k < levels)%nat) as [|Hn]; [done|]. rewrite (q_none _ _ _ (i_rq _ _ _ _ Hi r) k) in Hq by lia. set_solver. }
  destruct (linked_in _ _ _ q (q_chain _ _ _ (i_rq _ _ _ _ Hi r) k Hk) Hq) as [_ Hs]. rewrite lookup_fmap, fmap_is_Some in Hs. destruct Hs as [x Hx].
  exists x. split; [done|]. destruct (not_queued _ _ _ _ _ _ Hi Hx) as [E|]; [|done]. by destruct (queued_in _ _ _ _ _ _ Hi Hx E r k).
Qed.

Lemma service_length v a : length (service v a) = queued v.
Proof. unfold service, queued. rewrite length_app. destruct a; cbn; lia. Qed.

Lemma queued_bound v s e h : inv v s e h → (queued v < fuel_of s)%nat.
Proof.
  intros Hi. rewrite <- (service_length v false). unfold fuel_of. rewrite <- (size_list_to_set (C := gset Z) (service v false)) by by eapply service_nodup.
  rewrite <- size_dom. apply Nat.lt_succ_r, subseteq_size. intros q Hq%elem_of_list_to_set. apply elem_of_dom.
  destruct (service_live _ _ _ _ _ _ Hi Hq) as (x & Hx & _). by exists x.
Qed.

Lemma concat_best (L : nat → list Z) ks1 k ks2 p l : (∀ j, j ∈ ks1 → L j = []) → k ∉ ks1 → k ∉ ks2 → L k = p :: l →
  concat (L <$> ks1 ++ k :: ks2) = p :: concat (put_level L k l <$> ks1 ++ k :: ks2).
Proof.
  intros H1 Hk1 Hk2 Hk. assert (El : ∀ ks : list nat, k ∉ ks → put_level L k l <$> ks = L <$> ks).
  { intros ks Hks. apply list_fmap_ext. intros i j Hj. apply put_level_ne. intros ->. apply Hks. by eapply list_elem_of_lookup_2. }
  rewrite !fmap_app, !concat_app, (El ks1) by done. cbn. rewrite put_level_eq, Hk, (El ks2) by done.
  replace (concat (L <$> ks1)) with (@nil Z); [done|]. clear -H1. induction ks1 as [|j ks1 IH]; cbn; [done|]. rewrite H1 by left. apply IH. intros i Hi. apply H1. by right.
Qed.

Lemma members_best L k p l : (k < levels)%nat → (∀ j, (j < k)%nat → L j = []) → L k = p :: l → members L = p :: members (put_level L k l).
Proof.
  intros Hk Hj HL. unfold members. replace (seq 0 levels) with (seq 0 k ++ k :: seq (S k) (levels - S k)).
  - apply concat_best; [intros j H%elem_of_seq; apply Hj; lia|rewrite elem_of_seq; lia|rewrite elem_of_seq; lia|done].
  - replace levels with (k + S (levels - S k))%nat at 2 by lia. by rewrite seq_app.
Qed.

Lemma members_empty L : empty_queue L → members L = [].
Proof. intros H. unfold members. generalize (seq 0 levels). intros ks. induction ks as [|k ks IH]; cbn; [done|]. by rewrite H. Qed.

(** ** One array *)

Lemma pick_array_spec v s e h r : inv v s e h →
  wp (runqueue_pick_next r) s (λ p s2, p = 0 ∧ s2 = s ∧ empty_queue (Q v r) ∨
    p ≠ 0 ∧ ∃ k l x x2, members (Q v r) = p :: members (put_level (Q v r) k l) ∧ Q v r k = p :: l ∧
      procs s !! p = Some x ∧ procs s2 !! p = Some x2 ∧ kern x2 = kern x ∧ left_queue v s e h p x r k l (unmark p s2)).
Proof.
  intros Hi. unfold runqueue_pick_next. apply wp_bind, wp_read. pose proof (i_rq _ _ _ _ Hi r) as Hr.
  destruct (bitmap_ffs_spec _ _ _ Hr) as [[-> He]|(k & Hk & -> & Hne & Hj)]; [apply wp_ret; by left|].
  destruct (Z.ltb_spec (Z.of_nat k) 0); [lia|]. unfold runqueue_dequeue.
  replace ((Z.of_nat k <? 0) || (SCHED_PRIORITY_LEVELS <=? Z.of_nat k)) with false by (symmetry; apply orb_false_iff; split; [apply Z.ltb_ge; lia|apply Z.leb_gt; unfold levels, SCHED_PRIORITY_LEVELS in *; lia]).
  rewrite Nat2Z.id. apply wp_bind, wp_read. pose proof (q_chain _ _ _ Hr k Hk) as Hc. destruct (Q v r k) as [|p l] eqn:EL; [done|].
  destruct Hc as (-> & Hp0 & n & Hn & _). rewrite lookup_fmap in Hn. apply fmap_Some in Hn as (x & Hx & _). destruct (Z.eqb_spec p 0); [done|].
  apply wp_bind, (wp_get p x); [done|]. apply wp_bind, wp_modify, wp_bind, wp_upd; [by destruct r; exists x|]. apply wp_ret. right. split; [done|].
  exists k, l, x, (set_next 0 x). split; [by apply members_best|]. split; [done|]. split; [done|]. split; [destruct r; cbn; by rewrite lookup_alter_eq, Hx|]. split; [done|].
  pose proof (take_head v s e h r k p x l Hi Hx EL) as Ht. by destruct r.
Qed.

(** ** Both arrays *)

(** Processes only leave the queues, and the arrays are exchanged only when the
    active one has run empty. *)
Definition arrays (v : view) (a : bool) (v' : view) (a' : bool) : Prop :=
  (∀ r k q, q ∈ Q v' r k → q ∈ Q v r k) ∧ (a' = a ∨ a' = negb a ∧ ∀ k, Q v' a k = []) ∧ W v' = W v ∧ SL v' = SL v.

Definition same_rest (s s' : state) : Prop := current s' = current s ∧ idle_thread s' = idle_thread s ∧ timer_ticks s' = timer_ticks s.

Lemma arrays_refl v a : arrays v a v a.
Proof. split; [done|]. split; [by left|done]. Qed.

Lemma arrays_trans v1 a1 v2 a2 v3 a3 : arrays v1 a1 v2 a2 → arrays v2 a2 v3 a3 → arrays v1 a1 v3 a3.
Proof.
  intros (H1 & H2 & H3 & H4) (K1 & K2 & K3 & K4). split; [naive_solver|]. split; [|split; congruence].
  assert (Hnil : ∀ r k, Q v2 r k = [] → Q v3 r k = []). { intros r k E. destruct (Q v3 r k) as [|q l] eqn:E3; [done|]. specialize (K1 r k q). rewrite E, E3 in K1. set_solver. }
  destruct H2 as [->|[-> H2]], K2 as [->|[-> K2]]; rewrite ?negb_involutive; auto.
Qed.

Lemma left_arrays v r k p l a : Q v r k = p :: l → arrays v a (put_Q v r k l) a.
Proof.
  intros HL. split; [|split; [by left|done]]. intros r' k' q. rewrite elem_put_Q. intros [[E Hq]|[_ Hq]]; [|done].
  assert (r' = r) as -> by congruence. assert (k' = k) as -> by congruence. rewrite HL. by right.
Qed.

(** The first process has been taken out, up to its mark. *)
Definition taken (v : view) (s : state) (e : Z → Z) (h p : Z) (x : process) (v1 : view) (s2 : state) : Prop :=
  service v (active s) = p :: service v1 (active s2) ∧ inv v1 (unmark p s2) (bump e p 1) h ∧ same_cores (λ q, q ≠ p) s (unmark p s2) ∧
  core <$> procs (unmark p s2) !! p = Some (core (set_on_queue 0 x)) ∧ same_rest s s2 ∧ arrays v (active s) v1 (active s2) ∧ ∃ k, p ∈ Q v (active s2) k.

Lemma inv_active v s e h b : inv v s e h → inv v (put_active b s) e h.
Proof. intros []. split; try done. Qed.

Lemma taken_array v s e h p x k l s2 : members (Q v (active s)) = p :: members (put_level (Q v (active s)) k l) → Q v (active s) k = p :: l →
  left_queue v s e h p x (active s) k l (unmark p s2) → taken v s e h p x (put_Q v (active s) k l) s2.
Proof.
  intros Hm HL (H1 & H2 & H3 & H4 & H5 & H6 & H7). assert (Ea : active s2 = active s) by done. split_and!; try done.
  - unfold service. rewrite Ea, Hm, put_Q_eq, put_Q_ne by (by destruct (active s)). done.
  - rewrite Ea. by apply left_arrays with p.
  - exists k. rewrite Ea, HL. left.
Qed.

Lemma take_next_spec v s e h : inv v s e h →
  wp take_next s (λ p s2, p = 0 ∧ s2 = s ∧ service v (active s) = [] ∨
    p ≠ 0 ∧ ∃ x x2 v1, procs s !! p = Some x ∧ procs s2 !! p = Some x2 ∧ kern x2 = kern x ∧ taken v s e h p x v1 s2).
Proof.
  intros Hi. unfold take_next. apply wp_bind, wp_read. eapply wp_use; [by apply (pick_array_spec v s e h (active s))|]. cbn beta. intros p s2 [(-> & -> & He)|(Hp & k & l & x & x2 & Hm & HL & Hx & Hx2 & Ek & Hl)].
  2: { destruct (Z.eqb_spec p 0); [done|]. apply wp_ret. right. split; [done|]. exists x, x2, (put_Q v (active s) k l). split_and!; try done. by apply taken_array. }
  cbn [Z.eqb negb]. apply wp_bind. unfold runqueue_is_empty. apply wp_bind, wp_read, wp_ret. pose proof (is_empty_spec _ _ _ (i_rq _ _ _ _ Hi (negb (active s)))) as Hie.
  apply wp_if; intros Ee.
  { apply wp_ret. left. split_and!; [done|done|]. unfold service. by rewrite !members_empty by (try apply Hie; done). }
  apply wp_bind, wp_modify, wp_bind, wp_read. cbn [active put_active]. set (s1 := put_active (negb (active s)) s).
  eapply wp_mono; [apply (pick_array_spec v s1 e h (negb (active s))); by apply inv_active|]. cbn beta. intros p s2 [(-> & -> & He')|(Hp & k & l & x & x2 & Hm & HL & Hx & Hx2 & Ek & Hl)].
  { apply Hie in He'. congruence. }
  right. split; [done|]. exists x, x2, (put_Q v (negb (active s)) k l). split_and!; try done.
  destruct (taken_array v s1 e h p x k l s2) as (T1 & T2 & T3 & T4 & T5 & (T6 & T7 & T8 & T9) & T10); [done|done|done|]. assert (Ea : active s2 = negb (active s)) by apply Hl.
  assert (Hne : active s ≠ negb (active s)) by by destruct (active s). split_and!; try done.
  - unfold service in *. cbn [active put_active s1] in T1. rewrite negb_involutive, (members_empty (Q v (active s))), app_nil_r in T1 by done. rewrite (members_empty (Q v (active s))) by done. exact T1.
  - split; [done|]. split; [right|by split]. split; [done|]. intros k'. rewrite put_Q_ne by done. apply He.
Qed.

(** ** The whole choice *)

Definition terminated (s : state) (q : Z) : Prop := ∃ x, procs s !! q = Some x ∧ pstate x = PROCESS_TERMINATED.

(** What the terminated processes in front of the choice become. *)
Definition discarded (s s' : state) (q : Z) : Prop :=
  procs s' !! q = None ∨ ∃ x y, procs s !! q = Some x ∧ procs s' !! q = Some y ∧ core y = core (set_on_queue 0 x).

Definition refill (x : process) : process := if time_slice x =? 0 then set_time_slice (priority_time_slice (priority x)) x else x.

Definition picked (v : view) (s : state) (e : Z → Z) (h nx : Z) (v' : view) (s' : state) : Prop :=
  same_rest s s' ∧ arrays v (active s) v' (active s') ∧ ∃ l1,
    (∀ q, q ∈ l1 → terminated s q ∧ discarded s s' q) ∧ same_cores (λ q, q ∉ l1 ∧ q ≠ nx) s s' ∧
    ((nx = idle_thread s ∧ service v (active s) = l1 ∧ service v' (active s') = [] ∧ core <$> procs s' !! nx = core <$> procs s !! nx ∧ inv v' s' e h) ∨
     ∃ x, nx ≠ idle_thread s ∧ service v (active s) = l1 ++ nx :: service v' (active s') ∧ procs s !! nx = Some x ∧ pstate x ≠ PROCESS_TERMINATED ∧
       core <$> procs s' !! nx = Some (core (refill (set_on_queue 0 x))) ∧ (∃ k, nx ∈ Q v (active s') k) ∧ inv v' s' (bump e nx 1) h).

Definition hole_ok (h : Z) (s : state) : Prop := h = 0 ∨ h = current s ∧ h ≠ idle_thread s.

Lemma core_refill x y : core x = core y → core (refill (set_on_queue 0 x)) = core (refill (set_on_queue 0 y)).
Proof.
  destruct x, y. unfold core. cbn. intros [=]. subst. unfold refill. cbn. by destruct (_ =? 0).
Qed.

Lemma core_unqueued x y : core x = core y → core (set_on_queue 0 x) = core (set_on_queue 0 y).
Proof. destruct x, y. unfold core. cbn. intros [=]. by subst. Qed.

Lemma core_sliced n x y : core x = core y → core (set_time_slice n y) = core (set_time_slice n x).
Proof. destruct x, y. unfold core. cbn. intros [=]. by subst. Qed.

Lemma kern_more x y : kern x = kern y → pstate x = pstate y ∧ priority x = priority y ∧ time_slice x = time_slice y.
Proof. destruct x, y. unfold kern. cbn. intros [=]. by subst. Qed.

Lemma terminated_core s s' q : core <$> procs s' !! q = core <$> procs s !! q → terminated s' q → terminated s q.
Proof.
  intros E (x & Hx & Ht). rewrite Hx in E. symmetry in E. apply fmap_Some in E as (y & Hy & E). exists y. split; [done|]. apply core_fields in E. naive_solver congruence.
Qed.

Lemma discarded_core s s1 s' q : core <$> procs s1 !! q = core <$> procs s !! q → discarded s1 s' q → discarded s s' q.
Proof.
  intros E [H|(x & y & Hx & Hy & Ec)]; [by left|]. right. rewrite Hx in E. symmetry in E. apply fmap_Some in E as (z & Hz & E).
  exists z, y. split_and!; try done. rewrite Ec. by apply core_unqueued.
Qed.

Lemma unmark_rest p s : active (unmark p s) = active s ∧ current (unmark p s) = current s ∧ idle_thread (unmark p s) = idle_thread s ∧ timer_ticks (unmark p s) = timer_ticks s.
Proof. done. Qed.

(** A terminated process in front is dropped, and the choice goes on. *)
Lemma picked_skip v s e h p x v1 s2 s4 nx v' s' : inv v s e h → procs s !! p = Some x → pstate x = PROCESS_TERMINATED →
  taken v s e h p x v1 s2 → inv v1 s4 e h → dropped p (unmark p s2) s4 → picked v1 s4 e h nx v' s' → picked v s e h nx v' s'.
Proof.
  intros Hi Hp Ht (T1 & T2 & T3 & T4 & (T5 & T6 & T7) & T8 & _) Hi4 (D1 & (D2 & D4 & D5 & D6) & D3) ((R1 & R2 & R3) & A & l1 & L1 & L2 & L3).
  destruct (unmark_rest p s2) as (U1 & U2 & U3 & U4). rewrite U1 in D2. rewrite U2 in D4. rewrite U3 in D5. rewrite U4 in D6.
  assert (Hd : NoDup (service v (active s))) by by eapply service_nodup. rewrite T1 in Hd. apply NoDup_cons in Hd as [Hp1 _].
  assert (Hpi : p ≠ idle_thread s). { intros E. destruct (i_idle _ _ _ _ Hi) as (y & Hy & _ & Hq & _). destruct (service_live v s e h (active s) p Hi) as (z & Hz & Hq'); [rewrite T1; left|]. rewrite <- E in Hy. assert (y = z) as -> by congruence. lia. }
  assert (Hc : ∀ q, q ≠ p → core <$> procs s4 !! q = core <$> procs s !! q) by (intros q Hq; rewrite D1, T3; done).
  assert (Hpl : p ∉ l1 ∧ p ≠ nx). { rewrite <- D2 in Hp1. destruct L3 as [(-> & E & _)|(y & _ & E & _)]; rewrite E in Hp1; [|set_solver]. split; [done|]. by rewrite D5, T6. }
  split; [split_and!; congruence|]. split; [eapply arrays_trans; [exact T8|]; by rewrite <- D2|]. exists (p :: l1). split_and!.
  - intros q [->|Hq]%elem_of_cons.
    + split; [by exists x|]. pose proof (L2 p Hpl) as E. destruct D3 as [D3|D3]; rewrite D3 in E; [|left; by destruct (procs s' !! p)].
      rewrite T4 in E. apply fmap_Some in E as (y & Hy & E). right. by exists x, y.
    + assert (q ≠ p) by (intros ->; naive_solver). destruct (L1 q Hq) as [H1 H2]. split; [by eapply terminated_core; [apply Hc|]|by eapply discarded_core; [apply Hc|]].
  - intros q [Hq1 Hq2]. rewrite L2 by set_solver. apply Hc. set_solver.
  - destruct L3 as [(-> & E & E' & Ec & Hi')|(y & Hny & E & Hy & Hst & Ec & (k & Hk) & Hi')].
    + left. rewrite T1, <- D2, E, Ec, D5, T6. split_and!; try done. apply Hc. congruence.
    + right. specialize (Hc nx (not_eq_sym (proj2 Hpl))). rewrite Hy in Hc. symmetry in Hc. apply fmap_Some in Hc as (z & Hz & Ez). exists z.
      split_and!; [congruence|rewrite T1, <- D2, E; done|done| |by rewrite Ec, (core_refill y z)|exists k; by apply T8|done]. apply core_fields in Ez. naive_solver congruence.
Qed.

Lemma picked_first v s e h p x v1 s2 f : inv v s e h → procs s !! p = Some x → pstate x ≠ PROCESS_TERMINATED → taken v s e h p x v1 s2 →
  f = set_time_slice (priority_time_slice (priority x)) ∧ time_slice x = 0 ∨ f = id ∧ time_slice x ≠ 0 →
  picked v s e h p v1 (put_procs (alter f p (procs (unmark p s2))) (unmark p s2)).
Proof.
  intros Hi Hp Ht (T1 & T2 & T3 & T4 & T5 & T6 & T7) Hf.
  assert (Hpi : p ≠ idle_thread s). { intros E. destruct (i_idle _ _ _ _ Hi) as (y & Hy & _ & Hq & _). destruct (service_live v s e h (active s) p Hi) as (z & Hz & Hq'); [rewrite T1; left|]. rewrite <- E in Hy. assert (y = z) as -> by congruence. lia. }
  apply fmap_Some in T4 as (y & Hy & Ey). split; [done|]. split; [done|]. exists []. split_and!; [intros q ?%elem_of_nil; done| |].
  - intros q [_ Hq]. cbn [put_procs procs]. rewrite core_alter_ne by done. by apply T3.
  - right. exists x. split_and!; try done.
    + cbn [put_procs procs]. rewrite lookup_alter_eq, Hy. cbn. f_equal. unfold refill. cbn. destruct Hf as [[-> Es]|[-> Es]].
      * rewrite Es. cbn. by apply core_sliced.
      * destruct (Z.eqb_spec (time_slice x) 0); done.
    + apply inv_plain; [|done|by exists y]. intros z. by destruct Hf as [[-> _]|[-> _]].
Qed.

Lemma pick_loop_spec fuel v s e h : inv v s e h → hole_ok h s → (queued v < fuel)%nat → wp (pick_loop fuel) s (λ nx s', ∃ v', picked v s e h nx v' s').
Proof.
  revert v s. induction fuel as [|fuel IH]; intros v s Hi Hh Hf; [lia|]. cbn [pick_loop]. eapply wp_use; [by apply (take_next_spec v s e h)|]. cbn beta.
  intros p s2 [(-> & -> & Es)|(Hp & x & x2 & v1 & Hx & Hx2 & Ek & Ht)].
  { apply wp_read. exists v. split; [done|]. split; [apply arrays_refl|]. exists []. split_and!; [intros q ?%elem_of_nil; done|done|]. left. by split_and!. }
  destruct (Z.eqb_spec p 0); [done|]. apply wp_bind, (wp_get p x2); [done|]. apply wp_bind, wp_modify, wp_bind, wp_upd; [by exists x2|].
  change (put_procs (alter (set_on_queue 0) p _) _) with (unmark p s2). assert (Ek' : pstate x2 = pstate x ∧ priority x2 = priority x ∧ time_slice x2 = time_slice x) by by apply kern_more.
  destruct Ek' as (-> & -> & ->). destruct (unmark_rest p s2) as (U1 & U2 & U3 & U4). apply wp_if; intros Et; [apply bool_decide_eq_true in Et|apply bool_decide_eq_false in Et].
  - pose proof Ht as (T1 & T2 & _ & _ & (T5 & T6 & _) & _). eapply wp_use.
    { apply (unref_spec _ _ _ _ p T2); [rewrite bump_eq; pose proof (i_extra _ _ _ _ Hi p); lia|]. intros ->. rewrite U2, U3, T5, T6. by destruct Hh as [->|[? ?]]. }
    cbn beta. intros _ s4 (Hi4 & Hd & _). apply bump_back in Hi4. assert (Hq : queued v = S (queued v1)) by (rewrite <- (service_length v (active s)), T1; cbn [length]; by rewrite service_length).
    eapply wp_mono; [apply (IH v1 s4 Hi4); [|lia]|].
    + pose proof Hd as (_ & (_ & E1 & E2 & _) & _). unfold hole_ok. by rewrite E1, E2, U2, U3, T5, T6.
    + intros nx s' (v' & H). exists v'. by eapply picked_skip.
  - apply wp_bind, wp_when; intros Ez; [apply Z.eqb_eq in Ez|apply Z.eqb_neq in Ez].
    + apply wp_upd; [cbn; apply lookup_alter_is_Some; by exists x2|]. apply wp_ret. exists v1. eapply picked_first; eauto.
    + apply wp_ret. exists v1. pose proof (picked_first v s e h p x v1 s2 id Hi Hx Et Ht) as H. rewrite alter_id in H by done. apply H. by right.
Qed.

Lemma pick_spec v s e h : inv v s e h → hole_ok h s → wp scheduler_pick_next s (λ nx s', ∃ v', picked v s e h nx v' s').
Proof. intros Hi Hh. apply wp_bind, wp_read, pick_loop_spec; [done|done|by eapply queued_bound]. Qed.

End SchedPick.

(** ** Scheduler: handing the processor over

    Context switches, [schedule] and the yield system call. *)

Import SchedPick.

Module SchedSwitch.
Local Open Scope Z_scope.

(** The reference of the processor. *)
Definition running (cur idle q : Z) : Z := Z.b2z (bool_decide (q = cur ∧ q ≠ idle)).

Lemma inv_current v s e e' h nx : inv v s e h → nx = 0 ∨ is_Some (procs s !! nx) →
  (∀ q, is_Some (procs s !! q) → e' q = e q + running (current s) (idle_thread s) q - running nx (idle_thread s) q) → (∀ q, 0 ≤ e' q ∧ (0 < e' q → is_Some (procs s !! q))) →
  inv v (put_current nx s) e' h.
Proof.
  intros Hi Hn He Hx. destruct Hi. split; try done.
  intros q y Hq. destruct (i_procs0 q y Hq). split; try done. cbn [current idle_thread put_current]. rewrite He by by exists y. unfold holders, running in *. lia.
Qed.

Definition give (e : Z → Z) (idle nx : Z) : Z → Z := if decide (nx = idle) then e else bump e nx 1.

Lemma picked_inv v s e h nx v' s' : picked v s e h nx v' s' → inv v' s' (give e (idle_thread s') nx) h ∧ (is_Some (procs s' !! nx)).
Proof.
  intros ((R1 & R2 & R3) & _ & l1 & _ & _ & [(-> & _ & _ & Ec & Hi)|(x & Hx & _ & _ & _ & Ec & _ & Hi)]); unfold give; rewrite R2.
  - rewrite decide_True by done. split; [done|]. destruct (i_idle _ _ _ _ Hi) as (y & Hy & _). exists y. congruence.
  - rewrite decide_False by done. split; [done|]. apply fmap_Some in Ec as (y & Hy & _). by exists y.
Qed.

(** A process that has been given the processor. *)
Definition runs (x : process) : process := set_ctx_switches (u64 (ctx_switches x + 1)) (set_pstate PROCESS_RUNNING (set_pstate PROCESS_RUNNING x)).

(** [nx] has taken over from [p], which stays at [c]. *)
Definition switched (p nx : Z) (c : cont) (s s' : state) : Prop :=
  same_cores (λ q, q ≠ p ∧ q ≠ nx) s s' ∧ (∃ x y, procs s !! nx = Some x ∧ procs s' !! nx = Some y ∧ core y = core (runs x)) ∧
  (procs s' !! p = None ∨ ∃ x y, procs s !! p = Some x ∧ procs s' !! p = Some y ∧ core y = core (set_pc c x)) ∧
  active s' = active s ∧ current s' = nx ∧ idle_thread s' = idle_thread s ∧ timer_ticks s' = timer_ticks s.

Lemma set_current_state s nx x (Φ : unit → state → Prop) : procs s !! nx = Some x →
  Φ tt (put_current nx (put_procs (alter runs nx (procs s)) s)) → wp (upd nx (set_pstate PROCESS_RUNNING);; process_set_current nx) s Φ.
Proof.
  intros Hx H. apply wp_bind, wp_upd; [by exists x|]. apply wp_bind, wp_modify. assert (Hl : is_Some (alter (set_pstate PROCESS_RUNNING) nx (procs s) !! nx)) by (apply lookup_alter_is_Some; by exists x).
  destruct Hl as [y Hy]. apply wp_bind, (wp_get nx y); [done|]. apply wp_upd; [by exists y|]. cbn [put_current put_procs procs]. rewrite alter_alter_eq. exact H.
Qed.

Lemma plain_runs : plain runs.
Proof. by intros x. Qed.

Lemma inv_set_pc v s e h p x c : inv v s e h → procs s !! p = Some x → p ≠ idle_thread s → h = 0 ∨ h = p → pc_ok 0 p (set_pc c x) → (p ∈ SL v → wait_on x = SLEEP) →
  inv v (put_procs (alter (set_pc c) p (procs s)) s) e 0.
Proof.
  intros Hi Hp Hidle Hh Hc Hs. pose proof (po_addr _ _ _ _ _ _ _ (i_procs _ _ _ _ Hi p x Hp)) as H0. apply (inv_change v s e e h 0 p _ x); try done; [by right| | |apply (i_extra _ _ _ _ Hi)].
  - destruct (i_procs _ _ _ _ Hi p x Hp). split; try done. intros Hin. right. by apply Hs.
  - intros q y Hq Hok. destruct Hok. split; try done.
    + intros Hin. destruct (po_sleep0 Hin) as [E|E]; [|by right]. left. destruct Hh; congruence.
    + unfold pc_ok in *. destruct (pc y); naive_solver.
Qed.

Lemma switch_spec v s e h nx c x : let p := current s in inv v s (give e (idle_thread s) nx) h → procs s !! p = Some x → p ≠ idle_thread s → nx ≠ p → is_Some (procs s !! nx) →
  (∀ q, 0 ≤ e q) → h = 0 ∨ h = p → pc_ok 0 p (set_pc c x) → (p ∈ SL v → wait_on x = SLEEP) →
  wp (switch_to p nx c) s (λ _ s', inv v s' e 0 ∧ switched p nx c s s').
Proof.
  intros p Hi Hp Hidle Hnp [y Hy] He Hh Hc Hs. unfold switch_to. apply wp_assoc, wp_bind. apply (set_current_state s nx y); [done|]. set (s1 := put_procs (alter runs nx (procs s)) s).
  assert (Hi1 : inv v s1 (give e (idle_thread s) nx) h) by (apply inv_plain; [apply plain_runs|done|by exists y]).
  assert (Hi2 : inv v (put_current nx s1) (bump e p 1) h).
  { apply (inv_current v s1 _ _ h nx Hi1); [right; cbn; apply lookup_alter_is_Some; by exists y| |].
    - intros q _. cbn [s1 current put_procs idle_thread]. fold p. unfold running, bump, give. pose proof (He q).
      destruct (decide (q = p)) as [->|Hqp].
      + rewrite bool_decide_true by done. rewrite (bool_decide_false (p = nx ∧ _)) by naive_solver. destruct (decide (nx = idle_thread s)); [cbn; lia|]. unfold bump. rewrite decide_False by done. cbn. lia.
      + rewrite (bool_decide_false (q = p ∧ _)) by naive_solver. destruct (decide (nx = idle_thread s)) as [En|En].
        * rewrite bool_decide_false by naive_solver. cbn. lia.
        * unfold bump. destruct (decide (q = nx)) as [->|]; [rewrite bool_decide_true by done|rewrite bool_decide_false by naive_solver]; cbn; lia.
    - intros q. specialize (He q). unfold bump. destruct (decide (q = p)) as [->|]; [split; [lia|]; intros _; cbn; apply lookup_alter_is_Some; by exists x|]. split; [done|]. intros H0. apply (i_extra _ _ _ _ Hi1 q).
      unfold give, bump. destruct (decide _); [done|]. destruct (decide _); lia. }
  assert (Hp1 : procs (put_current nx s1) !! p = Some x) by (cbn; by rewrite lookup_alter_ne). apply wp_bind, wp_upd; [by exists x|].
  pose proof (inv_set_pc v _ _ h p x c Hi2 Hp1 Hidle Hh Hc Hs) as Hi3. set (s3 := put_procs (alter (set_pc c) p (procs (put_current nx s1))) (put_current nx s1)) in *.
  assert (Hp3 : procs s3 !! p = Some (set_pc c x)) by (cbn [s3 procs put_procs]; by rewrite lookup_alter_eq, Hp1).
  assert (H0 : p ≠ 0) by (eapply po_addr; by apply (i_procs _ _ _ _ Hi)).
  eapply wp_mono; [apply (unref_spec v s3 _ 0 p Hi3); [rewrite bump_eq; specialize (He p); lia|done]|]. cbn beta. intros _ s' (Hi' & (Hc' & Hg' & Hpp) & _).
  split; [by apply bump_back in Hi'|]. destruct Hg' as (G1 & G2 & G3 & G4). split_and!; try done.
  - intros q [Hq1 Hq2]. rewrite Hc' by done. cbn [s3 procs put_procs put_current s1]. by rewrite !lookup_alter_ne.
  - pose proof (Hc' nx Hnp) as E. assert (Hn3 : procs s3 !! nx = Some (runs y)). { cbn [s3 procs put_procs put_current s1]. by rewrite lookup_alter_ne, lookup_alter_eq, Hy. }
    rewrite Hn3 in E. apply fmap_Some in E as (z & Hz & E). by exists y, z.
  - destruct Hpp as [E|E]; [|by left]. rewrite Hp3 in E. apply fmap_Some in E as (z & Hz & E). right. by exists x, z.
Qed.

End SchedSwitch.
