(* ===== verification/SchedWait.v ===== *)
(** * Wait objects keep the invariant

    Linking a process on a wait object and taking it off again. *)

From S2P Require Import Prelude Errno Links Pcb Sched WaitObj SchedInv SchedQueue SchedOps SchedReady SchedPick.
Import Links Pcb Sched WaitObj SchedInv SchedQueue SchedOps SchedReady SchedPick.

Module SchedWait.
Local Open Scope Z_scope.

(** ** The list of one object *)

Lemma unlink_ok wn w l1 p l2 n : let prev := default 0 (last l1) in object_ok wn w (l1 ++ p :: l2) → wn !! p = Some n →
  object_ok (<[p := 0]> (if prev =? 0 then wn else <[prev := n]> wn))
    (WO (if prev =? 0 then n else waiters w) (if tail w =? p then prev else tail w) (initialized w)) (l1 ++ l2).
Proof.
  intros prev [Hc Ht Hi] Hn. pose proof (chain_nodup _ _ _ Hc) as Hd. assert (Hp : p ∉ l1 ++ l2) by by apply NoDup_app_cons_mid in Hd as [Hd _].
  destruct l1 as [|y l1 _] using rev_ind; split; cbn [waiters tail initialized].
  - cbn. destruct Hc as (_ & _ & m & Hm & Hl). assert (m = n) as -> by congruence. by apply chain_insert.
  - cbn. rewrite Ht. destruct l2 as [|z l2 _] using rev_ind; [cbn; by rewrite Z.eqb_refl|]. cbn [app] in *. rewrite (app_comm_cons l2 [z] p), !tail_snoc.
    destruct (Z.eqb_spec z p) as [->|]; [|by rewrite last_snoc]. exfalso. apply Hp. set_solver.
  - intros E. specialize (Hi E). by apply app_eq_nil in Hi as [_ ?].
  - unfold prev. rewrite last_snoc. cbn [default from_option id]. assert (Hy : y ≠ 0) by (apply (linked_in _ _ _ y Hc); set_solver).
    destruct (Z.eqb_spec y 0); [done|]. rewrite <- (assoc_L app) in Hc. cbn in Hc. apply chain_insert; [done|]. rewrite <- (assoc_L app). by apply (chain_remove wn _ l1 y p l2 n).
  - unfold prev. rewrite last_snoc. cbn [default from_option id]. rewrite Ht. rewrite <- !(assoc_L app) in *. cbn [app] in *. by rewrite (tail_remove l1 y p l2).
  - intros E. specialize (Hi E). by apply app_eq_nil in Hi as [_ ?].
Qed.

Lemma link_ok wn w l p : object_ok wn w l → p ∉ l → p ≠ 0 → initialized w ≠ 0 →
  object_ok (if tail w =? 0 then <[p := 0]> wn else <[tail w := p]> (<[p := 0]> wn)) (WO (if tail w =? 0 then p else waiters w) p (initialized w)) (l ++ [p]).
Proof.
  intros [Hc Ht Hi] Hp H0 Hini. rewrite Ht. pose proof (tail_null _ _ _ Hc) as Hn. split; cbn [waiters tail initialized]; [|by rewrite tail_snoc|done].
  destruct (Z.eqb_spec (tail_of l) 0) as [E|E]; [apply Hn in E as ->; by apply chain_single|]. destruct l as [|t l _] using rev_ind; [done|]. rewrite tail_snoc.
  rewrite <- (assoc_L app). apply linked_append; [by apply chain_insert|done|done|by rewrite lookup_insert_eq].
Qed.

(** ** A change of one wait list *)

Definition put_W (v : view) (o : Z) (l : list Z) : view := View (Q v) (λ o', if decide (o' = o) then l else W v o') (SL v).

Lemma put_W_eq v o l : W (put_W v o l) o = l.
Proof. cbn. by rewrite decide_True. Qed.

Lemma put_W_ne v o l o' : o' ≠ o → W (put_W v o l) o' = W v o'.
Proof. intros H. cbn. by rewrite decide_False. Qed.

(** A process without its link in a wait list. *)
Definition kernw (x : process) : process := set_wait_next 0 x.

Lemma kernw_fields x y : kernw x = kernw y →
  core x = core y ∧ pid x = pid y ∧ on_queue x = on_queue y ∧ wait_on x = wait_on y ∧ reaped x = reaped y ∧ parent_pid x = parent_pid y ∧
  ref_count x = ref_count y ∧ next x = next y ∧ sleep_next x = sleep_next y ∧ child_wait x = child_wait y ∧ yield_boost x = yield_boost y ∧ pc x = pc y.
Proof. destruct x, y. unfold kernw, core. cbn. intros [=]. subst. done. Qed.

Section Rewait.
Context (v : view) (s s' : state) (e e' : Z → Z) (h h' p o : Z) (x y : process) (w' : wait_object) (l' : list Z).
Hypothesis Hi : inv v s e h.
Hypothesis Hp : procs s !! p = Some x.
Hypothesis Hidle : p ≠ idle_thread s.
Hypothesis Hh : h' = h ∨ h = 0 ∧ h' = p.
Hypothesis K1 : ∀ q, q ≠ p → kernw <$> procs s' !! q = kernw <$> procs s !! q.
Hypothesis K2 : kernw <$> procs s' !! p = Some (kernw y).
Hypothesis Y : pid y = pid x ∧ next y = next x ∧ sleep_next y = sleep_next x ∧ child_wait y = child_wait x ∧ on_queue y = on_queue x ∧ reaped y = reaped x.
Hypothesis F1 : objects s' = <[o := w']> (objects s) ∧ is_Some (objects s !! o).
Hypothesis F2 : ∀ r, rq_of r s' = rq_of r s.
Hypothesis F3 : ready_count s' = ready_count s ∧ g_sleep_list s' = g_sleep_list s ∧ process_table s' = process_table s ∧ pid_used s' = pid_used s ∧
  current s' = current s ∧ idle_thread s' = idle_thread s ∧ futex_initialized s' = futex_initialized s.
Hypothesis G1 : object_ok (wait_next <$> procs s') w' l'.
Hypothesis G2 : ∀ o' w, o' ≠ o → objects s !! o' = Some w → chain (wait_next <$> procs s') (waiters w) (W v o').
Hypothesis G3 : ∀ q, q ≠ p → q ∈ l' ↔ q ∈ W v o.
Hypothesis G4 : futex_initialized s = 0 → 1 ≤ o < SLEEP → l' = [].
Hypothesis G5 : proc_ok (put_W v o l') (current s) (idle_thread s) e' h' p y.
Hypothesis G6 : 0 ≤ e' p ∧ ∀ q, q ≠ p → e' q = e q.

Lemma rewait_field {A} (g : process → A) : (∀ z, g (kernw z) = g z) → g y = g x → g <$> procs s' = g <$> procs s.
Proof.
  intros Hg Hxy. apply map_eq. intros q. rewrite !lookup_fmap. destruct (decide (q = p)) as [->|Hq].
  - apply fmap_Some in K2 as (z & Hz & E). rewrite Hz, Hp. cbn. f_equal. by rewrite <- Hg, <- E, Hg.
  - specialize (K1 q Hq). destruct (procs s' !! q) as [z|], (procs s !! q) as [z'|]; try done. cbn in *. f_equal. rewrite <- (Hg z), <- (Hg z'). congruence.
Qed.

Lemma rewait_dom q : is_Some (procs s' !! q) ↔ is_Some (procs s !! q).
Proof. rewrite <- !(fmap_is_Some pid), <- !lookup_fmap, rewait_field; [done|done|apply Y]. Qed.

Lemma rewait_other q z : q ≠ p → procs s' !! q = Some z → ∃ z', procs s !! q = Some z' ∧ kernw z = kernw z'.
Proof. intros Hq Hz. specialize (K1 q Hq). rewrite Hz in K1. destruct (procs s !! q) as [z'|]; [|done]. exists z'. split; [done|]. cbn in K1. congruence. Qed.

Lemma rewait_child q z : procs s' !! q = Some z → ∃ z', procs s !! q = Some z' ∧ child_wait z' = child_wait z.
Proof.
  intros Hq. assert (E : child_wait <$> procs s !! q = Some (child_wait z)) by (rewrite <- lookup_fmap, <- rewait_field by (done || apply Y); by rewrite lookup_fmap, Hq).
  apply fmap_Some in E as (z' & Hz & ->). by exists z'.
Qed.

Lemma rewait_proc q z : procs s' !! q = Some z → proc_ok (put_W v o l') (current s) (idle_thread s) e' h' q z.
Proof.
  intros Hz. destruct (decide (q = p)) as [->|Hq].
  - rewrite Hz in K2. cbn in K2. assert (E : kernw z = kernw y) by congruence. apply kernw_fields in E. eapply proc_ok_ext; [..|exact G5]; naive_solver.
  - destruct (rewait_other q z Hq Hz) as (z' & Hz' & E). apply kernw_fields in E as (_ & _ & E1 & E2 & E3 & _ & E4 & _ & _ & E5 & E6 & E7).
    eapply proc_ok_ext; [..|]; try done. destruct (i_procs _ _ _ _ Hi q z' Hz'). destruct G6 as [_ G6']. split; try done.
    + intros o'. destruct (decide (o' = o)) as [->|Ho]; [rewrite put_W_eq, G3 by done|rewrite put_W_ne by done]; apply po_wait0.
    + intros Hin. destruct (po_sleep0 Hin) as [E|E]; [|by right]. left. destruct Hh as [?|[? ?]]; congruence.
    + by rewrite G6'.
    + unfold pc_ok in *. destruct Hh as [->|[-> ->]]; [done|]. destruct (pc z'); naive_solver.
Qed.

Lemma inv_rewait : inv (put_W v o l') s' e' h'.
Proof.
  destruct Y as (Y1 & Y2 & Y3 & Y4 & Y5 & Y6). destruct F1 as [O1 O2]. destruct F3 as (E1 & E2 & E3 & E4 & E5 & E6 & E7). split; rewrite ?E1, ?E2, ?E3, ?E4, ?E5, ?E6, ?E7; cbn [Q SL put_W]; try (by apply Hi).
  - intros r. rewrite F2, (rewait_field next) by done. by apply Hi.
  - intros o' w. rewrite O1. destruct (decide (o' = o)) as [->|Ho]; [rewrite lookup_insert_eq, put_W_eq; by intros [= <-]|].
    rewrite lookup_insert_ne, put_W_ne by done. intros Hw. destruct (i_obj _ _ _ _ Hi o' w Hw). split; [by apply G2|done|done].
  - intros o'. rewrite O1. intros [Ho Hno]%lookup_insert_None. rewrite put_W_ne by done. by apply Hi.
  - intros o' Ho. rewrite O1. apply lookup_insert_is_Some'. right. by apply Hi.
  - intros q z (z' & Hz' & <-)%rewait_child Hc. rewrite O1. apply lookup_insert_is_Some'. right. by apply (i_child _ _ _ _ Hi q z').
  - intros q q' z z' (y1 & Hy1 & <-)%rewait_child (y2 & Hy2 & <-)%rewait_child. by apply (i_child_inj _ _ _ _ Hi).
  - intros Hf o' Ho. destruct (decide (o' = o)) as [->|Hne]; [rewrite put_W_eq; by apply G4|rewrite put_W_ne by done; by apply (i_futex _ _ _ _ Hi)].
  - rewrite (rewait_field sleep_next) by done. by apply Hi.
  - rewrite (rewait_field pid) by done. by apply Hi.
  - apply rewait_proc.
  - intros q. rewrite rewait_dom. destruct G6 as [E8 E9]. destruct (decide (q = p)) as [->|Hq]; [by split; [|exists x]|]. rewrite E9 by done. by apply Hi.
  - rewrite rewait_dom. by apply Hi.
  - destruct (i_idle _ _ _ _ Hi) as (z & Hz & Z1 & Z2 & Z3 & Z4 & Z5 & Z6). pose proof (K1 (idle_thread s)) as K. rewrite Hz in K. specialize (K ltac:(congruence)).
    apply fmap_Some in K as (z' & Hz' & E). apply kernw_fields in E. exists z'. split; [done|]. naive_solver congruence.
Qed.

Lemma rewait_cores : same_cores (λ q, q ≠ p) s s' ∧ core <$> procs s' !! p = Some (core y).
Proof.
  split.
  - intros q Hq. specialize (K1 q Hq). destruct (procs s' !! q) as [z|], (procs s !! q) as [z'|]; try done. cbn in *. f_equal. apply kernw_fields. congruence.
  - apply fmap_Some in K2 as (z & -> & E). cbn. f_equal. symmetry. by apply kernw_fields.
Qed.

End Rewait.

(** ** Taking a process off *)

Lemma kernw_next n q q' (m : gmap Z process) : kernw <$> alter (set_wait_next n) q m !! q' = kernw <$> m !! q'.
Proof. destruct (decide (q = q')) as [->|E]; [|by rewrite lookup_alter_ne]. rewrite lookup_alter_eq. by destruct (m !! q'). Qed.

Lemma wait_next_alter n q (m : gmap Z process) : is_Some (m !! q) → wait_next <$> alter (set_wait_next n) q m = <[q := n]> (wait_next <$> m).
Proof. intros [x Hx]. by rewrite (fmap_alter_set wait_next _ q x). Qed.

(** [p] has been taken off its list; its reference is in the hands of the caller. *)
Definition unlinked (v : view) (s : state) (e : Z → Z) (h o p : Z) (x : process) (l : list Z) (s' : state) : Prop :=
  inv (put_W v o l) s' (bump e p 1) h ∧ same_cores (λ q, q ≠ p) s s' ∧ core <$> procs s' !! p = Some (core (set_wait_on 0 x)) ∧ same_globals s s'.

Lemma waiting_one v s e h o o' q : inv v s e h → q ∈ W v o → q ∈ W v o' → o' = o.
Proof.
  intros Hi H1 H2. destruct (waiting_proc _ _ _ _ _ _ Hi H1) as (x & _ & Hx & E & _). destruct (waiting_proc _ _ _ _ _ _ Hi H2) as (y & _ & Hy & E' & _). congruence.
Qed.

Lemma unlinked_ok v s e h o p x l1 l2 : inv v s e h → procs s !! p = Some x → W v o = l1 ++ p :: l2 → o ≠ SLEEP ∨ p = h →
  proc_ok (put_W v o (l1 ++ l2)) (current s) (idle_thread s) (bump e p 1) h p (set_wait_on 0 x).
Proof.
  intros Hi Hp Hl Hs. destruct (waiting_proc v s e h p o Hi) as (x' & w & Hx' & Ho & _ & Hw & Ho0); [rewrite Hl; set_solver|]. assert (x' = x) as -> by congruence.
  pose proof (chain_nodup _ _ _ (o_chain _ _ _ (i_obj _ _ _ _ Hi o w Hw))) as Hd. rewrite Hl in Hd. apply NoDup_app_cons_mid in Hd as [Hd _].
  destruct (i_procs _ _ _ _ Hi p x Hp). split; try done.
  - intros o'. destruct (decide (o' = o)) as [->|Hne]; [rewrite put_W_eq|rewrite put_W_ne by done]; cbn; [naive_solver|]. split; [|naive_solver].
    intros Hin. destruct Hne. eapply waiting_one; [done| |done]. rewrite Hl. set_solver.
  - intros Hin. left. destruct (po_sleep0 Hin) as [?|E]; [done|]. destruct Hs; [congruence|done].
  - rewrite bump_eq. unfold holders in *. cbn. destruct (Z.eqb_spec (wait_on x) 0); [congruence|]. cbn in *. lia.
  - unfold pc_ok, waits_at in *. cbn. destruct (pc x); naive_solver.
Qed.

Lemma wo_take_spec v s e h o p x l1 l2 : inv v s e h → procs s !! p = Some x → W v o = l1 ++ p :: l2 → o ≠ SLEEP ∨ p = h →
  wp (wo_take o (default 0 (last l1)) p) s (λ _ s', unlinked v s e h o p x (l1 ++ l2) s').
Proof.
  intros Hi Hp Hl Hs. destruct (waiting_proc v s e h p o Hi) as (x' & w & Hx' & Ho & Hat & Hw & Ho0); [rewrite Hl; set_solver|]. assert (x' = x) as -> by congruence.
  assert (Hidle : p ≠ idle_thread s). { intros ->. destruct (i_idle _ _ _ _ Hi) as (y & Hy & _ & _ & E & _). assert (y = x) as -> by congruence. congruence. }
  pose proof (i_obj _ _ _ _ Hi o w Hw) as Hok. rewrite Hl in Hok. pose proof (unlink_ok _ _ _ _ _ (wait_next x) Hok) as Hok'. rewrite lookup_fmap, Hp in Hok'. specialize (Hok' eq_refl).
  set (prev := default 0 (last l1)) in *. unfold wo_take. apply wp_bind, (wp_get_object o w); [done|]. apply wp_bind, (wp_get p x); [done|].
  set (w' := WO (if prev =? 0 then wait_next x else waiters w) (if tail w =? p then prev else tail w) (initialized w)) in *.
  set (m1 := if prev =? 0 then procs s else alter (set_wait_next (wait_next x)) prev (procs s)).
  assert (Hprev : prev = 0 ∨ prev ∈ l1 ∧ is_Some (procs s !! prev)).
  { unfold prev. destruct l1 as [|y l1 _] using rev_ind; [by left|right]. rewrite last_snoc. cbn. split; [set_solver|].
    destruct (waiting_proc v s e h y o Hi) as (z & _ & Hz & _); [rewrite Hl; set_solver|by exists z]. }
  assert (Hm1 : wait_next <$> m1 = if prev =? 0 then wait_next <$> procs s else <[prev := wait_next x]> (wait_next <$> procs s)).
  { unfold m1. destruct (Z.eqb_spec prev 0); [done|]. apply wait_next_alter. destruct Hprev as [?|[_ ?]]; done. }
  assert (Hk1 : ∀ q, kernw <$> m1 !! q = kernw <$> procs s !! q) by (intros q; unfold m1; destruct (prev =? 0); [done|apply kernw_next]).
  assert (Hl1 : is_Some (m1 !! p)) by (unfold m1; destruct (prev =? 0); [by exists x|apply lookup_alter_is_Some; by exists x]).
  set (f := λ x, set_wait_on 0 (set_wait_next 0 x)). set (s' := put_procs (alter f p m1) (put_objects (<[o := w']> (objects s)) s)).
  assert (Hmain : unlinked v s e h o p x (l1 ++ l2) s').
  { assert (K1 : ∀ q, q ≠ p → kernw <$> procs s' !! q = kernw <$> procs s !! q) by (intros q Hq; cbn [s' procs put_procs]; rewrite lookup_alter_ne by done; apply Hk1).
    assert (K2 : kernw <$> procs s' !! p = Some (kernw (set_wait_on 0 x))).
    { cbn [s' procs put_procs]. rewrite lookup_alter_eq. specialize (Hk1 p). rewrite Hp in Hk1. apply fmap_Some in Hk1 as (z & -> & E). cbn. f_equal. unfold f, kernw in *. destruct x, z. cbn in *. injection E as [=]. by subst. }
    assert (Hwn : wait_next <$> procs s' = <[p := 0]> (wait_next <$> m1)) by (destruct Hl1 as [z Hz]; cbn [s' procs put_procs]; by rewrite (fmap_alter_set wait_next f p z)).
    split; [|destruct (rewait_cores s s' p (set_wait_on 0 x) K1 K2); by split_and!].
    apply (inv_rewait v s s' e _ h h p o x (set_wait_on 0 x) w'); try done.
    - by left.
    - rewrite Hwn, Hm1. exact Hok'.
    - intros o' w2 Hne Hw2. rewrite Hwn, Hm1. assert (Hno : ∀ q, q ∈ W v o → q ∉ W v o') by (intros q H1 H2; apply Hne; by eapply waiting_one).
      apply chain_insert; [apply Hno; rewrite Hl; set_solver|]. pose proof (o_chain _ _ _ (i_obj _ _ _ _ Hi o' w2 Hw2)) as Hc. destruct (Z.eqb_spec prev 0); [done|].
      apply chain_insert; [|done]. apply Hno. rewrite Hl. destruct Hprev as [?|[? _]]; [done|set_solver].
    - intros q Hq. rewrite Hl. set_solver.
    - intros Hf Ho'. rewrite (i_futex _ _ _ _ Hi Hf o Ho') in Hl. by destruct l1.
    - by apply unlinked_ok.
    - split; [rewrite bump_eq; pose proof (i_extra _ _ _ _ Hi p); lia|]. intros q Hq. by apply bump_ne. }
  apply wp_bind. unfold s', m1, w' in Hmain, Hl1. destruct (Z.eqb_spec prev 0) as [E|E].
  - apply wp_modify, wp_upd; [done|]. exact Hmain.
  - destruct Hprev as [?|[_ Hpl]]; [done|]. apply wp_bind, wp_upd; [done|]. apply wp_modify, wp_upd; [done|]. exact Hmain.
Qed.

Lemma wo_unlink_spec v s e h o p : inv v s e h → is_Some (objects s !! o) → o ≠ SLEEP ∨ p = h →
  wp (wo_unlink o p) s (λ b s', if b : bool then ∃ l1 l2 x, W v o = l1 ++ p :: l2 ∧ procs s !! p = Some x ∧ unlinked v s e h o p x (l1 ++ l2) s' else s' = s ∧ p ∉ W v o).
Proof.
  intros Hi [w Hw] Hs. unfold wo_unlink. apply wp_bind, (wp_get_object o w); [done|]. apply wp_bind, wp_read. pose proof (o_chain _ _ _ (i_obj _ _ _ _ Hi o w Hw)) as Hc.
  eapply wp_use; [apply (rq_walk_spec wait_next _ s _ _ 0 _ Hc); by eapply fuel_enough|]. intros [[prev it]|] s1 [-> H].
  - destruct H as (l1 & l2 & x & EL & -> & Hx & ->%Z.eqb_eq & _). eapply wp_use; [by apply (wo_take_spec v s e h o p x l1 l2)|]. cbn beta. intros _ s' Hu. apply wp_ret. by exists l1, l2, x.
  - apply wp_ret. split; [done|]. intros Hin. destruct (waiting_proc _ _ _ _ _ _ Hi Hin) as (x & _ & Hx & _). specialize (H p x Hin Hx). by rewrite Z.eqb_refl in H.
Qed.

(** [pop] takes the first waiter that passes [sel] off the list. *)
Definition pops (sel : process → bool) (o : Z) (pop : M Z) : Prop := ∀ v s e h, inv v s e h → is_Some (objects s !! o) → o ≠ SLEEP →
  wp pop s (λ p s', p = 0 ∧ s' = s ∧ (∀ q x, q ∈ W v o → procs s !! q = Some x → sel x = false) ∨
    p ≠ 0 ∧ ∃ l1 l2 x, W v o = l1 ++ p :: l2 ∧ procs s !! p = Some x ∧ sel x = true ∧ (∀ q y, q ∈ l1 → procs s !! q = Some y → sel y = false) ∧
      unlinked v s e h o p x (l1 ++ l2) s').

Lemma pop_head_take s o w p x l wn : objects s !! o = Some w → procs s !! p = Some x → object_ok wn w (p :: l) → wn !! p = Some (wait_next x) →
  wo_pop_head o s = bind (wo_take o 0 p) (λ _, ret p) s.
Proof.
  intros Hw Hx [Hc Ht _] Hn. pose proof (chain_nodup _ _ _ Hc) as Hd. apply NoDup_cons in Hd as [Hd _]. destruct Hc as (Hp & Hp0 & n & Hn' & Hl). assert (n = wait_next x) as -> by congruence.
  unfold wo_pop_head, wo_take, bind, get_object, get. rewrite Hw, Hp. destruct (Z.eqb_spec p 0); [done|]. rewrite Hx. cbn [Z.eqb].
  replace (if tail w =? p then 0 else tail w) with (if wait_next x =? 0 then 0 else tail w); [done|]. rewrite Ht.
  pose proof (chain_null _ _ _ Hl) as En. destruct (Z.eqb_spec (wait_next x) 0) as [E|E].
  - apply En in E as ->. cbn. by rewrite Z.eqb_refl.
  - destruct l as [|z l _] using rev_ind; [naive_solver|]. rewrite (app_comm_cons l [z] p), tail_snoc. destruct (Z.eqb_spec z p) as [->|]; [set_solver|done].
Qed.

Lemma pops_head o : pops (λ _, true) o (wo_pop_head o).
Proof.
  intros v s e h Hi [w Hw] Hs. pose proof (i_obj _ _ _ _ Hi o w Hw) as Hok. destruct (W v o) as [|p l] eqn:El.
  - unfold wo_pop_head. apply wp_bind, (wp_get_object o w); [done|]. destruct Hok as [Hc _ _]. cbn in Hc. rewrite Hc. cbn. apply wp_ret. left. split_and!; try done. intros q x ?%elem_of_nil. done.
  - destruct (waiting_proc v s e h p o Hi) as (x & _ & Hx & _); [rewrite El; left|]. unfold wp. erewrite pop_head_take by (try done; by rewrite lookup_fmap, Hx).
    eapply wp_use; [by apply (wo_take_spec v s e h o p x [] l); [| |done|left]|]. cbn beta. intros _ s' Hu. apply wp_ret. right. split; [eapply po_addr; by apply (i_procs _ _ _ _ Hi)|].
    exists [], l, x. split_and!; try done. intros q y ?%elem_of_nil. done.
Qed.

Lemma pops_matching o key : pops (λ x, futex_key x =? key) o (wo_pop_head_matching o key).
Proof.
  intros v s e h Hi [w Hw] Hs. unfold wo_pop_head_matching. apply wp_bind, (wp_get_object o w); [done|]. apply wp_bind, wp_read. pose proof (o_chain _ _ _ (i_obj _ _ _ _ Hi o w Hw)) as Hc.
  eapply wp_use; [apply (rq_walk_spec wait_next _ s _ _ 0 _ Hc); by eapply fuel_enough|]. intros [[prev p]|] s1 [-> H].
  - destruct H as (l1 & l2 & x & EL & -> & Hx & Hk & Hl1). eapply wp_use; [by apply (wo_take_spec v s e h o p x l1 l2); [| | |left]|]. cbn beta. intros _ s' Hu. apply wp_ret. right. split; [eapply po_addr; by apply (i_procs _ _ _ _ Hi)|].
    exists l1, l2, x. split_and!; try done.
  - apply wp_ret. left. split_and!; try done.
Qed.

(** ** First use, and linking *)

Lemma ensure_init_spec v s e h o w : inv v s e h → objects s !! o = Some w →
  wp (wo_ensure_init o) s (λ _ s', inv v s' e h ∧ procs s' = procs s ∧ same_globals s s' ∧ futex_initialized s' = futex_initialized s ∧
    ∃ w', objects s' = <[o := w']> (objects s) ∧ initialized w' ≠ 0).
Proof.
  intros Hi Hw. apply wp_bind, (wp_get_object o w); [done|]. apply wp_when; intros Ei; [apply Z.eqb_eq in Ei|apply Z.eqb_neq in Ei].
  2: { split_and!; try done. exists w. by rewrite insert_id. }
  apply wp_modify. split_and!; try done; [|by exists wait_object_init]. pose proof (o_init _ _ _ (i_obj _ _ _ _ Hi o w Hw) Ei) as El.
  destruct Hi. split; cbn [put_objects procs objects rq0 rq1 ready_count current idle_thread g_sleep_list process_table pid_used futex_initialized]; try done.
  - intros o' w'. destruct (decide (o' = o)) as [->|Hne]; [|rewrite lookup_insert_ne by done; apply i_obj0]. rewrite lookup_insert_eq. intros [= <-]. by rewrite El.
  - intros o' [Hno _]%lookup_insert_None. by apply i_noobj0.
  - intros o' Ho. apply lookup_insert_is_Some'. right. by apply i_static0.
  - intros q x Hq Hc. apply lookup_insert_is_Some'. right. by eapply i_child0.
Qed.

Definition blocked_on (o : Z) (x : process) : process := set_pstate PROCESS_BLOCKED (set_wait_on o x).

Lemma linked_ok v s e h o p x : inv v s e h → procs s !! p = Some x → wait_on x = 0 → o ≠ 0 → waits_at x o → 
  proc_ok (put_W v o (W v o ++ [p])) (current s) (idle_thread s) (bump e p (-1)) p p (blocked_on o x).
Proof.
  intros Hi Hp Hw Ho Hat. destruct (i_procs _ _ _ _ Hi p x Hp). split; try done.
  - intros o'. pose proof (unwaiting _ _ _ _ _ _ o' Hi Hp Hw). destruct (decide (o' = o)) as [->|Hne]; [rewrite put_W_eq|rewrite put_W_ne by done]; cbn; [set_solver|naive_solver].
  - intros _. by left.
  - rewrite bump_eq. unfold holders in *. cbn. rewrite Hw in *. destruct (Z.eqb_spec o 0); [done|]. cbn in *. lia.
  - unfold pc_ok in *. cbn. destruct (pc x); naive_solver.
Qed.

Lemma wo_link_spec v s e o w p x : inv v s e 0 → procs s !! p = Some x → wait_on x = 0 → 0 < e p → p ≠ idle_thread s → waits_at x o → objects s !! o = Some w → initialized w ≠ 0 →
  (futex_initialized s = 0 → ¬ 1 ≤ o < SLEEP) →
  wp (wo_link o p) s (λ _ s', inv (put_W v o (W v o ++ [p])) s' (bump e p (-1)) p ∧ same_cores (λ q, q ≠ p) s s' ∧
    core <$> procs s' !! p = Some (core (blocked_on o x)) ∧ same_globals s s' ∧ futex_initialized s' = futex_initialized s).
Proof.
  intros Hi Hp Hwo He Hidle Hat Hw Hini Hfut. assert (Ho : o ≠ 0) by (destruct Hat as [?|[_ ?]]; lia).
  pose proof (unwaiting _ _ _ _ _ _ o Hi Hp Hwo) as Hno. assert (Hp0 : p ≠ 0) by (eapply po_addr; by apply (i_procs _ _ _ _ Hi)).
  pose proof (i_obj _ _ _ _ Hi o w Hw) as Hok. pose proof (link_ok _ _ _ p Hok Hno Hp0 Hini) as Hok'. unfold wo_link.
  set (f := λ x, set_wait_next 0 (set_wait_on o x)). set (m1 := alter f p (procs s)).
  set (m2 := if tail w =? 0 then m1 else alter (set_wait_next p) (tail w) m1).
  set (w' := WO (if tail w =? 0 then p else waiters w) p (initialized w)) in *.
  assert (Ht : tail w = 0 ∨ tail w ∈ W v o ∧ tail w ≠ p ∧ is_Some (procs s !! tail w)).
  { destruct Hok as [Hc E _]. rewrite E. destruct (W v o) as [|t l _] eqn:El using rev_ind; [by left|right]. rewrite tail_snoc.
    destruct (waiting_proc v s e 0 t o Hi) as (z & _ & Hz & _); [rewrite El; set_solver|]. split_and!; [set_solver| |by exists z]. intros ->. apply Hno. set_solver. }
  assert (Hm1 : m1 !! p = Some (f x)) by (unfold m1; by rewrite lookup_alter_eq, Hp).
  assert (Hm2 : m2 !! p = Some (f x)). { unfold m2. destruct (Z.eqb_spec (tail w) 0); [done|]. destruct Ht as [?|(_ & Hne & _)]; [done|]. by rewrite lookup_alter_ne. }
  assert (Hwn1 : wait_next <$> m1 = <[p := 0]> (wait_next <$> procs s)) by by apply (fmap_alter_set wait_next f p x).
  assert (Hwn : wait_next <$> alter (set_pstate PROCESS_BLOCKED) p m2 = if tail w =? 0 then <[p := 0]> (wait_next <$> procs s) else <[tail w := p]> (<[p := 0]> (wait_next <$> procs s))).
  { rewrite fmap_alter_same by done. unfold m2. destruct (Z.eqb_spec (tail w) 0); [done|]. rewrite wait_next_alter; [by rewrite Hwn1|]. apply lookup_alter_is_Some. destruct Ht as [?|(_ & _ & ?)]; done. }
  set (s' := put_procs (alter (set_pstate PROCESS_BLOCKED) p m2) (put_objects (<[o := w']> (objects s)) s)).
  assert (Hmain : inv (put_W v o (W v o ++ [p])) s' (bump e p (-1)) p ∧ same_cores (λ q, q ≠ p) s s' ∧ core <$> procs s' !! p = Some (core (blocked_on o x)) ∧ same_globals s s' ∧ futex_initialized s' = futex_initialized s).
  { assert (K1 : ∀ q, q ≠ p → kernw <$> procs s' !! q = kernw <$> procs s !! q).
    { intros q Hq. cbn [s' procs put_procs]. rewrite lookup_alter_ne by done. unfold m2. destruct (tail w =? 0); [|rewrite kernw_next]; unfold m1; by rewrite lookup_alter_ne. }
    assert (K2 : kernw <$> procs s' !! p = Some (kernw (blocked_on o x))) by (cbn [s' procs put_procs]; by rewrite lookup_alter_eq, Hm2).
    split; [|destruct (rewait_cores s s' p (blocked_on o x) K1 K2); by split_and!].
    apply (inv_rewait v s s' e _ 0 p p o x (blocked_on o x) w'); try done; try (by right); try (cbn [s' procs put_procs]; rewrite Hwn); try done.
    - intros o' w2 Hne Hw2. pose proof (o_chain _ _ _ (i_obj _ _ _ _ Hi o' w2 Hw2)) as Hc.
      assert (Hc' : chain (<[p := 0]> (wait_next <$> procs s)) (waiters w2) (W v o')) by (apply chain_insert; [by eapply unwaiting|done]).
      destruct (Z.eqb_spec (tail w) 0); [done|]. destruct Ht as [?|(Hin & _)]; [done|]. apply chain_insert; [|done]. intros Hin'. apply Hne. by eapply waiting_one.
    - intros q Hq. set_solver.
    - intros Hf Ho'. by destruct (Hfut Hf).
    - by apply (linked_ok v s e 0).
    - split; [rewrite bump_eq; lia|]. intros q Hq. by apply bump_ne. }
  apply wp_bind, wp_upd; [by exists x|]. apply wp_bind, (wp_get_object o w); [done|]. apply wp_bind. unfold s', m2, w' in Hmain. unfold m2 in Hm2. destruct (Z.eqb_spec (tail w) 0) as [E|E]; cbn [negb].
  - apply wp_modify, wp_upd; [by exists (f x)|]. exact Hmain.
  - destruct Ht as [?|(_ & _ & Hl)]; [done|]. apply wp_bind, wp_upd; [by apply lookup_alter_is_Some|]. apply wp_modify, wp_upd; [by exists (f x)|]. exact Hmain.
Qed.

End SchedWait.
