(* ===== verification/SchedWake.v ===== *)
(** * Waking: the sleep list, the timer and the signals of wait objects *)

From S2P Require Import Prelude Errno Links Pcb Sched WaitObj SchedInv SchedQueue SchedOps SchedReady SchedPick SchedWait.
Import Links Pcb Sched WaitObj SchedInv SchedQueue SchedOps SchedReady SchedPick SchedWait.

Module SchedWake.
Local Open Scope Z_scope.

(** ** Steps that only make processes ready *)

(** What steps inside the kernel keep of a process, ... *)
Definition kept (x y : process) : Prop := pid y = pid x ∧ pc y = pc x ∧ child_wait y = child_wait x ∧ yield_boost y = yield_boost x ∧ create_seq y = create_seq x.

(** ... and what they keep of a process that only others work on. *)
Definition steady (x y : process) : Prop :=
  kept x y ∧ (wait_on y = wait_on x ∨ wait_on y = 0) ∧ (pstate x = PROCESS_TERMINATED → pstate y = PROCESS_TERMINATED) ∧ (on_queue x = 1 → on_queue y = 1).

(** The active array stays as it is, the expired one only gains. *)
Record gains (R : process → process → Prop) (v : view) (s : state) (v' : view) (s' : state) : Prop := Gains {
  c_rest : active s' = active s ∧ current s' = current s ∧ idle_thread s' = idle_thread s;
  c_active k : Q v' (active s) k = Q v (active s) k;
  c_expired q k : q ∈ Q v (negb (active s)) k → q ∈ Q v' (negb (active s)) k;
  c_dom q : is_Some (procs s' !! q) → is_Some (procs s !! q);
  c_procs q x y : procs s !! q = Some x → procs s' !! q = Some y → R x y }.

Arguments c_rest {R v s v' s'} _.
Arguments c_active {R v s v' s'} _ _.
Arguments c_expired {R v s v' s'} _ _ _ _.
Arguments c_dom {R v s v' s'} _ _ _.
Arguments c_procs {R v s v' s'} _ _ _ _ _ _.

Notation calm := (gains steady).
Notation mild := (gains kept).

Lemma steady_refl x : steady x x.
Proof. unfold steady, kept. tauto. Qed.

Lemma steady_trans x y z : steady x y → steady y z → steady x z.
Proof.
  unfold steady, kept. intros ((A1 & A2 & A3 & A4 & A5) & A6 & A7 & A8) ((B1 & B2 & B3 & B4 & B5) & B6 & B7 & B8). split_and!; try congruence; [|tauto|tauto]. destruct B6 as [->|]; tauto.
Qed.

Lemma steady_core x y : core y = core x → steady x y.
Proof. intros H%core_fields. unfold steady, kept. naive_solver congruence. Qed.

Lemma calm_refl v s : calm v s v s.
Proof. split; try done. intros q x y Hx Hy. assert (y = x) as -> by congruence. apply steady_refl. Qed.

Lemma gains_trans R v1 s1 v2 s2 v3 s3 : (∀ x y z, R x y → R y z → R x z) → gains R v1 s1 v2 s2 → gains R v2 s2 v3 s3 → gains R v1 s1 v3 s3.
Proof.
  intros HR [(A1 & A2 & A3) A4 A5 A6 A7] [(B1 & B2 & B3) B4 B5 B6 B7]. rewrite A1 in *. split.
  - split_and!; congruence.
  - intros k. by rewrite B4.
  - intros q k H. apply B5, A5, H.
  - intros q H. apply A6, B6, H.
  - intros q x z Hx Hz. destruct (B6 q) as [y Hy]; [by exists z|]. apply (HR x y z); [by apply (A7 q)|by apply (B7 q)].
Qed.

Lemma calm_trans v1 s1 v2 s2 v3 s3 : calm v1 s1 v2 s2 → calm v2 s2 v3 s3 → calm v1 s1 v3 s3.
Proof. apply gains_trans, steady_trans. Qed.

Lemma kept_after x y z : kept x y → kept y z → kept x z.
Proof. unfold kept. naive_solver congruence. Qed.

Lemma mild_trans v1 s1 v2 s2 v3 s3 : mild v1 s1 v2 s2 → mild v2 s2 v3 s3 → mild v1 s1 v3 s3.
Proof. apply gains_trans, kept_after. Qed.

Lemma calm_mild v s v' s' : calm v s v' s' → mild v s v' s'.
Proof. intros []. split; try done. intros q x y Hx Hy. by destruct (c_procs0 q x y Hx Hy) as [? _]. Qed.

Lemma calm_cores v s s' : same_cores (λ _, True) s s' → same_globals s s' → calm v s v s'.
Proof.
  intros Hc (G1 & G2 & G3 & _). split; try done.
  - intros q [y Hy]. destruct (core_some _ _ _ _ _ Hc I Hy) as (x & Hx & _). by exists x.
  - intros q x y Hx Hy. destruct (core_some _ _ _ _ _ Hc I Hy) as (x' & Hx' & E). apply steady_core. congruence.
Qed.

Lemma calm_dropped v p s s' : dropped p s s' → calm v s v s'.
Proof.
  intros (Hc & (G1 & G2 & G3 & _) & Hp).
  assert (Hall : ∀ q y, procs s' !! q = Some y → ∃ x, procs s !! q = Some x ∧ core y = core x).
  { intros q y Hy. destruct (decide (q = p)) as [->|Hq]; [|by eapply core_some]. destruct Hp as [E|E]; [|congruence]. rewrite Hy in E. symmetry in E. apply fmap_Some in E as (x & Hx & E). by exists x. }
  split; try done.
  - intros q [y Hy]. destruct (Hall q y Hy) as (x & Hx & _). by exists x.
  - intros q x y Hx Hy. destruct (Hall q y Hy) as (x' & Hx' & E). apply steady_core. congruence.
Qed.

(** One process changes, and the queues of the active array stay. *)
Lemma gains_one (R : process → process → Prop) v v' s s' p x y : (∀ x y, steady x y → R x y) → same_cores (λ q, q ≠ p) s s' → same_globals s s' → procs s !! p = Some x → core <$> procs s' !! p = Some (core y) →
  (∀ z, core z = core y → R x z) →
  (∀ k, Q v' (active s) k = Q v (active s) k) → (∀ q k, q ∈ Q v (negb (active s)) k → q ∈ Q v' (negb (active s)) k) → gains R v s v' s'.
Proof.
  intros HR Hc (G1 & G2 & G3 & _) Hp Hp' Hst Ha Hx. apply fmap_Some in Hp' as (y' & Hy' & Ey).
  split; try done.
  - intros q [z Hz]. destruct (decide (q = p)) as [->|Hq]; [by exists x|]. destruct (core_some _ _ _ _ _ Hc Hq Hz) as (x' & Hx' & _). by exists x'.
  - intros q z z' Hz Hz'. destruct (decide (q = p)) as [->|Hq].
    + assert (z = x) as -> by congruence. assert (z' = y') as -> by congruence. by apply Hst.
    + destruct (core_some _ _ _ _ _ Hc Hq Hz') as (x' & Hx' & E). apply HR, steady_core. congruence.
Qed.

Lemma calm_one v v' s s' p x y : same_cores (λ q, q ≠ p) s s' → same_globals s s' → procs s !! p = Some x → core <$> procs s' !! p = Some (core y) → steady x y →
  (∀ k, Q v' (active s) k = Q v (active s) k) → (∀ q k, q ∈ Q v (negb (active s)) k → q ∈ Q v' (negb (active s)) k) → calm v s v' s'.
Proof. intros Hc Hg Hp Hp' Hst Ha Hx. apply (gains_one _ v v' s s' p x y); try done. intros z Hz. eapply steady_trans; [done|]. by apply steady_core. Qed.

Lemma mild_one v v' s s' p x y : same_cores (λ q, q ≠ p) s s' → same_globals s s' → procs s !! p = Some x → core <$> procs s' !! p = Some (core y) → kept x y →
  (∀ k, Q v' (active s) k = Q v (active s) k) → (∀ q k, q ∈ Q v (negb (active s)) k → q ∈ Q v' (negb (active s)) k) → mild v s v' s'.
Proof.
  intros Hc Hg Hp Hp' Hst Ha Hx. apply (gains_one _ v v' s s' p x y); try done; [by intros a b [? _]|]. intros z Hz. eapply kept_after; [done|]. by apply steady_core in Hz as [? _].
Qed.

Lemma calm_added v v' s s' p x : added (negb (active s)) (readied x) p x v v' s s' → procs s !! p = Some x → calm v s v' s'.
Proof.
  intros (Hc & Hg & _ & _ & [(_ & -> & E)|(Ht & Hq & -> & E)]) Hp.
  - apply (calm_one v v s s' p x x); try done. apply steady_refl.
  - apply (calm_one v _ s s' p x (readied x)); try done; [unfold steady, kept; naive_solver| |].
    + intros k. unfold appended. rewrite put_Q_ne; [done|]. by destruct (active s).
    + intros q k. unfold appended. rewrite elem_put_Q. destruct (decide ((negb (active s), k) = (negb (active s), level x))) as [Ek|Ek]; [|by auto].
      intros H. left. split; [done|]. injection Ek as ->. set_solver.
Qed.

Lemma calm_upd v s p f x : procs s !! p = Some x → steady x (f x) → calm v s v (put_procs (alter f p (procs s)) s).
Proof.
  intros Hp Hf. apply (calm_one v v s _ p x (f x)); try done.
  - intros q Hq. by apply core_alter_ne.
  - cbn. by rewrite lookup_alter_eq, Hp.
Qed.

(** ** The sleep list *)

Definition put_SL (v : view) (l : list Z) : view := View (Q v) (W v) l.

Definition kerns (x : process) : process := set_sleep_next 0 x.

Lemma kerns_fields x y : kerns x = kerns y →
  core x = core y ∧ pid x = pid y ∧ on_queue x = on_queue y ∧ wait_on x = wait_on y ∧ reaped x = reaped y ∧ parent_pid x = parent_pid y ∧
  ref_count x = ref_count y ∧ next x = next y ∧ wait_next x = wait_next y ∧ child_wait x = child_wait y ∧ yield_boost x = yield_boost y ∧ pc x = pc y.
Proof. destruct x, y. unfold kerns, core. cbn. intros [=]. subst. done. Qed.

Section Resleep.
Context (v : view) (s s' : state) (e : Z → Z) (h : Z) (l' : list Z).
Hypothesis Hi : inv v s e h.
Hypothesis K : ∀ q, kerns <$> procs s' !! q = kerns <$> procs s !! q.
Hypothesis F1 : objects s' = objects s.
Hypothesis F2 : ∀ r, rq_of r s' = rq_of r s.
Hypothesis F3 : ready_count s' = ready_count s ∧ process_table s' = process_table s ∧ pid_used s' = pid_used s ∧
  current s' = current s ∧ idle_thread s' = idle_thread s ∧ futex_initialized s' = futex_initialized s.
Hypothesis G1 : chain (sleep_next <$> procs s') (g_sleep_list s') l'.
Hypothesis G2 : ∀ q, q ∈ l' → q ∈ SL v ∨ q = h.

Lemma resleep_field {A} (g : process → A) : (∀ z, g (kerns z) = g z) → g <$> procs s' = g <$> procs s.
Proof.
  intros Hg. apply map_eq. intros q. rewrite !lookup_fmap. specialize (K q). destruct (procs s' !! q) as [z|], (procs s !! q) as [z'|]; try done.
  cbn in *. f_equal. rewrite <- (Hg z), <- (Hg z'). congruence.
Qed.

Lemma resleep_dom q : is_Some (procs s' !! q) ↔ is_Some (procs s !! q).
Proof. specialize (K q). destruct (procs s' !! q), (procs s !! q); try done. Qed.

Lemma resleep_proc q z : procs s' !! q = Some z → ∃ z', procs s !! q = Some z' ∧ kerns z = kerns z'.
Proof. intros Hz. specialize (K q). rewrite Hz in K. destruct (procs s !! q) as [z'|]; [|done]. exists z'. split; [done|]. cbn in K. congruence. Qed.

Lemma inv_resleep : inv (put_SL v l') s' e h ∧ same_cores (λ _, True) s s'.
Proof.
  destruct F3 as (E1 & E3 & E4 & E5 & E6 & E7). split.
  2: { intros q _. specialize (K q). destruct (procs s' !! q) as [z|], (procs s !! q) as [z'|]; try done. cbn in *. f_equal. apply kerns_fields. congruence. }
  split; rewrite ?F1, ?E1, ?E3, ?E4, ?E5, ?E6, ?E7; cbn [Q W SL put_SL]; try (by apply Hi); try done.
  - intros r. rewrite F2, resleep_field by done. by apply Hi.
  - intros o w. rewrite (resleep_field wait_next) by done. by apply Hi.
  - intros q z (z' & Hz' & E%kerns_fields)%resleep_proc. destruct E as (_ & _ & _ & _ & _ & _ & _ & _ & _ & -> & _). by apply (i_child _ _ _ _ Hi q z').
  - intros q q' z z' (y & Hy & E%kerns_fields)%resleep_proc (y' & Hy' & E'%kerns_fields)%resleep_proc. destruct E as (_ & _ & _ & _ & _ & _ & _ & _ & _ & -> & _), E' as (_ & _ & _ & _ & _ & _ & _ & _ & _ & -> & _). by apply (i_child_inj _ _ _ _ Hi).
  - rewrite (resleep_field pid) by done. by apply Hi.
  - intros q z (z' & Hz' & E%kerns_fields)%resleep_proc. destruct E as (_ & _ & C1 & C2 & C3 & _ & C4 & _ & _ & C5 & C6 & C7). eapply proc_ok_ext; [..|]; try done.
    destruct (i_procs _ _ _ _ Hi q z' Hz'). split; try done. intros [H|H]%G2; [by apply po_sleep0|by left].
  - intros q. rewrite resleep_dom. by apply Hi.
  - rewrite resleep_dom. by apply Hi.
  - destruct (i_idle _ _ _ _ Hi) as (z & Hz & Z). pose proof (K (idle_thread s)) as Ki. rewrite Hz in Ki. apply fmap_Some in Ki as (z' & Hz' & E). apply kerns_fields in E. exists z'. split; [done|]. naive_solver congruence.
Qed.

End Resleep.

Lemma kerns_next n q q' (m : gmap Z process) : kerns <$> alter (set_sleep_next n) q m !! q' = kerns <$> m !! q'.
Proof. destruct (decide (q = q')) as [->|E]; [|by rewrite lookup_alter_ne]. rewrite lookup_alter_eq. by destruct (m !! q'). Qed.

Lemma sleep_next_alter n q (m : gmap Z process) : is_Some (m !! q) → sleep_next <$> alter (set_sleep_next n) q m = <[q := n]> (sleep_next <$> m).
Proof. intros [x Hx]. by rewrite (fmap_alter_set sleep_next _ q x). Qed.

Lemma and_chain (A B C : Prop) : A ∧ B → C → A ∧ B ∧ C.
Proof. tauto. Qed.

Lemma push_spec v s e p x : inv v s e p → procs s !! p = Some x → p ∉ SL v →
  wp (sleep_list_push p) s (λ _ s', inv (put_SL v (p :: SL v)) s' e p ∧ same_cores (λ _, True) s s' ∧ same_globals s s').
Proof.
  intros Hi Hp Hno. apply wp_bind, wp_read, wp_bind, wp_upd; [by exists x|]. apply wp_modify. assert (Hp0 : p ≠ 0) by (eapply po_addr; by apply (i_procs _ _ _ _ Hi)).
  apply and_chain; [|done]. apply inv_resleep; try done.
  - intros q. apply kerns_next.
  - cbn [put_g_sleep_list procs put_procs g_sleep_list]. rewrite sleep_next_alter by (by exists x). split_and!; [done|done|]. exists (g_sleep_list s). rewrite lookup_insert_eq. split; [done|].
    apply chain_insert; [done|by apply Hi].
  - intros q. set_solver.
Qed.

Lemma sleeper_live v s e h p : inv v s e h → p ∈ SL v → ∃ x, procs s !! p = Some x ∧ p ≠ 0.
Proof. intros Hi Hp. destruct (linked_in _ _ _ p (i_sleep _ _ _ _ Hi) Hp) as [H0 Hs]. rewrite lookup_fmap, fmap_is_Some in Hs. destruct Hs as [x Hx]. by exists x. Qed.

Lemma sleep_unlink v s e h p x l1 l2 : inv v s e h → procs s !! p = Some x → SL v = l1 ++ p :: l2 →
  wp (put_sleep_link (default 0 (last l1)) (sleep_next x);; upd p (set_sleep_next 0)) s (λ _ s', inv (put_SL v (l1 ++ l2)) s' e h ∧ same_cores (λ _, True) s s' ∧ same_globals s s').
Proof.
  intros Hi Hp Hl. pose proof (i_sleep _ _ _ _ Hi) as Hc. rewrite Hl in Hc. pose proof (chain_nodup _ _ _ Hc) as Hd. assert (Hp1 : p ∉ l1 ++ l2) by by apply NoDup_app_cons_mid in Hd as [Hd _].
  unfold put_sleep_link. apply wp_bind. destruct l1 as [|y l1 _] using rev_ind.
  - cbn [last default from_option Z.eqb]. apply wp_modify, wp_upd; [by exists x|]. apply and_chain; [|done]. apply inv_resleep; try done.
    + intros q. apply kerns_next.
    + cbn [put_g_sleep_list procs put_procs g_sleep_list]. rewrite sleep_next_alter by (by exists x). apply chain_insert; [done|]. destruct Hc as (_ & _ & n & Hn & Hl'). rewrite lookup_fmap, Hp in Hn. cbn in Hn. injection Hn as ->. exact Hl'.
    + intros q Hq. left. rewrite Hl. by right.
  - rewrite last_snoc. cbn [default from_option id]. destruct (sleeper_live v s e h y Hi) as (z & Hz & Hz0); [rewrite Hl; set_solver|]. destruct (Z.eqb_spec y 0); [done|].
    apply wp_upd; [by exists z|]. apply wp_upd; [apply lookup_alter_is_Some; by exists x|]. apply and_chain; [|done]. apply inv_resleep; try done.
    + intros q. etransitivity; apply kerns_next.
    + cbn [procs put_procs g_sleep_list]. rewrite sleep_next_alter by (apply lookup_alter_is_Some; by exists x). rewrite sleep_next_alter by (by exists z). apply chain_insert; [done|].
      rewrite <- (assoc_L app) in Hc. cbn in Hc. rewrite <- (assoc_L app). apply (chain_remove _ _ l1 y p l2); [done|]. by rewrite lookup_fmap, Hp.
    + intros q Hq. left. rewrite Hl. set_solver.
Qed.

Lemma sleep_remove_spec v s e h p : inv v s e h →
  wp (sleep_list_remove p) s (λ _ s', ∃ v', inv v' s' e h ∧ Q v' = Q v ∧ W v' = W v ∧ (∀ q, q ∈ SL v' ↔ q ∈ SL v ∧ q ≠ p) ∧ same_cores (λ _, True) s s' ∧ same_globals s s').
Proof.
  intros Hi. unfold sleep_list_remove. apply wp_bind, wp_read, wp_bind, wp_read. pose proof (i_sleep _ _ _ _ Hi) as Hc.
  eapply wp_use; [apply (rq_walk_spec sleep_next _ s _ _ 0 _ Hc); by eapply fuel_enough|]. intros [[prev it]|] s1 [-> H].
  - destruct H as (l1 & l2 & x & EL & -> & Hx & ->%Z.eqb_eq & _). apply wp_bind, (wp_get p x); [done|]. eapply wp_mono; [by apply (sleep_unlink v s e h p x l1 l2)|]. cbn beta. intros _ s' (H1 & H2 & H3).
    exists (put_SL v (l1 ++ l2)). split_and!; try done. intros q. cbn. rewrite EL. rewrite EL in Hc. apply chain_nodup, NoDup_app_cons_mid in Hc as [Hp1 _]. set_solver.
  - apply wp_ret. exists v. split_and!; try done. intros q. split; [|tauto]. intros Hq. split; [done|]. intros ->. destruct (sleeper_live _ _ _ _ _ Hi Hq) as (x & Hx & _). specialize (H p x Hq Hx). by rewrite Z.eqb_refl in H.
Qed.

(** ** Making a process ready *)

Lemma small_up n e p : small n e → n ≤ 98 → small 100 (bump e p 1).
Proof. intros Hs Hn. eapply small_mono; [|apply small_bump; [|done]]; lia. Qed.

Lemma bump_again v s e p h : inv v s (bump (bump e p (-1)) p 1) h → inv v s e h.
Proof. apply inv_ext. intros q. by rewrite (bump_undo e p (-1)). Qed.

(** [p], which was blocked as [x], is ready now. *)
Definition awake (x : process) (p : Z) (s' : state) : Prop :=
  ∃ y, procs s' !! p = Some y ∧ pstate y = PROCESS_READY ∧ on_queue y = 1 ∧ wait_on y = wait_on x.

Lemma make_ready_spec v s e h n p x : inv v s e h → procs s !! p = Some x → p ≠ idle_thread s → small n e → n ≤ 100 → pstate x = PROCESS_BLOCKED →
  wp (process_set_ready p;; scheduler_add_process p) s (λ _ s', ∃ v', inv v' s' e h ∧ calm v s v' s' ∧ W v' = W v ∧ SL v' = SL v ∧ same_cores (λ q, q ≠ p) s s' ∧ timer_ticks s' = timer_ticks s ∧ awake x p s').
Proof.
  intros Hi Hp Hidle Hs Hn Hb. apply wp_bind. eapply set_ready_spec; [done|by rewrite Hb|]. set (s1 := put_procs _ s).
  assert (Hi1 : inv v s1 e h) by (apply inv_plain; [by intros z|done|by exists x]). assert (Hp1 : procs s1 !! p = Some (set_pstate PROCESS_READY x)) by (cbn; by rewrite lookup_alter_eq, Hp).
  assert (Hc1 : calm v s v s1). { apply (calm_upd v s p _ x Hp). unfold steady, kept. cbn. rewrite Hb. split_and!; auto. done. }
  assert (Hsc : same_cores (λ q, q ≠ p) s s1) by (intros q Hq; by apply core_alter_ne).
  eapply wp_mono; [by apply (add_spec v s1 e h n p (set_pstate PROCESS_READY x))|]. cbn beta. intros _ s' (v' & Hi' & Ha).
  exists v'. split; [done|]. split; [eapply calm_trans; [done|]; by eapply calm_added|]. destruct Ha as (A1 & (_ & _ & _ & A2) & A3 & A4 & A5). split_and!; try done.
  - eapply same_cores_trans; [|exact Hsc|exact A1]. done.
  - destruct A5 as [([?|Hq] & -> & E)|(_ & Hq & -> & E)]; [done| |]; apply fmap_Some in E as (y & Hy & E); apply core_fields in E; exists y; cbn in *; split_and!; try done; naive_solver congruence.
Qed.

(** The processes other than [p] are as they were, but for waiters of [o] that
    are no longer blocked. *)
Definition others_stay (o p : Z) (s s' : state) : Prop :=
  ∀ q x, q ≠ p → procs s !! q = Some x → pstate x = PROCESS_BLOCKED ∨ wait_on x ≠ o → ∃ y, procs s' !! q = Some y ∧ core y = core x.

Lemma others_cores o p s s' : same_cores (λ q, q ≠ p) s s' → others_stay o p s s'.
Proof. intros Hc q x Hq Hx _. specialize (Hc q Hq). rewrite Hx in Hc. apply fmap_Some in Hc as (y & Hy & E). by exists y. Qed.

Lemma queued_kept v s e h p y : inv v s e h → procs s !! p = Some y → on_queue y = 1 → 0 < holders (current s) (idle_thread s) p y.
Proof.
  intros Hi Hy Hq. destruct (i_procs _ _ _ _ Hi p y Hy). unfold holders. rewrite Hq. destruct po_reaped0 as [->| ->]; destruct (bool_decide _), (negb _); cbn; lia.
Qed.

Lemma rouse_spec v s e h n p x : inv v s e h → procs s !! p = Some x → 0 < e p → p ≠ idle_thread s → hole_ok h s → small n e → n ≤ 100 →
  wp (rouse p) s (λ b s', ∃ v', inv v' s' (bump e p (-1)) h ∧ calm v s v' s' ∧ W v' = W v ∧ same_cores (λ q, q ≠ p) s s' ∧
    b = bool_decide (pstate x = PROCESS_BLOCKED) ∧ (b = true → awake x p s')).
Proof.
  intros Hi Hp He Hidle Hh Hs Hn. assert (Hhp : p = h → p = current s ∧ p ≠ idle_thread s) by (intros ->; destruct Hh as [->|[? ?]]; [|done]; by destruct (po_addr _ _ _ _ _ _ _ (i_procs _ _ _ _ Hi 0 x Hp))).
  unfold rouse. apply wp_bind, (wp_get p x); [done|]. destruct (bool_decide_reflect (pstate x = PROCESS_BLOCKED)) as [Hb|Hb]; cbn [negb].
  2: { eapply wp_use; [by apply (unref_spec v s e h p)|]. cbn beta. intros _ s' (Hi' & Hd & _). apply wp_ret. exists v. split_and!; try done; [by eapply calm_dropped|by apply Hd]. }
  eapply wp_use; [by apply (sleep_remove_spec v s e h p)|]. cbn beta. intros _ s1 (v1 & Hi1 & V1 & V2 & _ & Hc1 & Hg1). destruct (core_of _ _ _ _ Hc1 Hp) as (x1 & Hx1 & E1). apply core_fields in E1 as F1.
  apply wp_bind, wp_upd; [by exists x1|]. set (s2 := put_procs _ s1). assert (Hi2 : inv v1 s2 e h) by (apply inv_plain; [by intros z|done|by exists x1]).
  assert (Hx2 : procs s2 !! p = Some (set_wake_deadline 0 x1)) by (cbn; by rewrite lookup_alter_eq, Hx1). unfold scheduler_add_process_home.
  apply wp_assoc, wp_bind. destruct Hg1 as (G1 & G2 & G3 & G4). eapply wp_mono; [apply (make_ready_spec v1 s2 e h n p (set_wake_deadline 0 x1)); try done; [cbn; congruence|cbn; naive_solver congruence]|].
  cbn beta. intros _ s3 (v3 & Hi3 & Hc3 & W3 & _ & Hs3 & _ & y & Hy & Hy1 & Hy2 & Hy3).
  assert (Hcalm : calm v s v3 s3).
  { eapply calm_trans; [apply calm_cores; [exact Hc1|done]|]. eapply calm_trans; [|exact Hc3].
    destruct (calm_upd v s1 p (set_wake_deadline 0) x1 Hx1) as [C1 C2 C3 C4 C5]; [unfold steady, kept; cbn; tauto|]. split; rewrite ?V1; done. }
  assert (Ho : same_cores (λ q, q ≠ p) s s3). { intros q Hq. rewrite (Hs3 q Hq). cbn [s2 procs put_procs]. rewrite core_alter_ne by done. by apply Hc1. }
  eapply wp_use; [apply (unref_kept v3 s3 e h p y Hi3 Hy He)|].
  - destruct Hcalm as [(_ & -> & ->) _ _ _ _]. done.
  - left. by eapply queued_kept.
  - cbn beta. intros _ s4 (Hi4 & Hc4 & Hg4). apply wp_ret. exists v3. split_and!; try done.
    + eapply calm_trans; [exact Hcalm|]. by apply calm_cores.
    + congruence.
    + intros q Hq. rewrite (Hc4 q I). by apply Ho.
    + intros _. destruct (core_of _ _ _ _ Hc4 Hy) as (z & Hz & Ez). apply core_fields in Ez. exists z. cbn in Hy3. split_and!; try done; naive_solver congruence.
Qed.

(** ** Waking the waiters of an object *)

(** The waiters that a wake-up is for: those that pass [sel] and are blocked. *)
Definition candidate (sel : process → bool) (s : state) (q : Z) : bool :=
  match procs s !! q with
  | Some x => sel x && bool_decide (pstate x = PROCESS_BLOCKED)
  | None => false
  end.

Definition candidates (sel : process → bool) (v : view) (s : state) (o : Z) : list Z := filter (λ q, candidate sel s q = true) (W v o).

Definition by_core (sel : process → bool) : Prop := ∀ x y, core x = core y → sel x = sel y.

Lemma candidate_core sel s s' q : by_core sel → core <$> procs s' !! q = core <$> procs s !! q → candidate sel s' q = candidate sel s q.
Proof.
  intros Hsel E. unfold candidate. destruct (procs s' !! q) as [x|], (procs s !! q) as [y|]; try done. cbn in E. assert (Ec : core x = core y) by congruence.
  rewrite (Hsel x y Ec). apply core_fields in Ec. replace (pstate x) with (pstate y) by (naive_solver congruence). done.
Qed.

Lemma filter_same (P P' : Z → bool) (l : list Z) : (∀ q, q ∈ l → P q = P' q) → filter (λ q, P q = true) l = filter (λ q, P' q = true) l.
Proof.
  induction l as [|q l IH]; intros H; [done|]. rewrite !filter_cons, (H q) by left. rewrite IH; [done|]. intros z Hz. apply H. by right.
Qed.

Lemma filter_nothing (P : Z → bool) (l : list Z) : (∀ q, q ∈ l → P q = false) → filter (λ q, P q = true) l = [].
Proof. intros H. rewrite (filter_same P (λ _, false)) by done. clear. induction l; [done|]. by rewrite filter_cons. Qed.

(** One waiter has been woken, or there was none to wake. *)
Definition woke_one (sel : process → bool) (o p : Z) (v : view) (s : state) (v' : view) (s' : state) : Prop :=
  p = default 0 (head (candidates sel v s o)) ∧ candidates sel v' s' o = list.tail (candidates sel v s o) ∧ (∀ o', o' ≠ o → W v' o' = W v o') ∧
  others_stay o p s s' ∧ (length (W v' o) ≤ length (W v o))%nat ∧ (p ≠ 0 → (length (W v' o) < length (W v o))%nat) ∧
  (p ≠ 0 → ∃ x, procs s !! p = Some x ∧ sel x = true ∧ pstate x = PROCESS_BLOCKED ∧ ∃ y, procs s' !! p = Some y ∧ pstate y = PROCESS_READY ∧ on_queue y = 1 ∧ wait_on y = 0).

Lemma not_candidates v s e h sel o (l : list Z) : inv v s e h → (∀ q, q ∈ l → q ∈ W v o) → (∀ q y, q ∈ l → procs s !! q = Some y → sel y = false) → ∀ q, q ∈ l → candidate sel s q = false.
Proof. intros Hi Hl Hs q Hq. destruct (waiting_proc _ _ _ _ _ _ Hi (Hl q Hq)) as (x & _ & Hx & _). unfold candidate. by rewrite Hx, (Hs q x Hq Hx). Qed.

(** A list of waiters after the first selected one has gone. *)
Lemma candidates_after v s e h sel o l1 p l2 v' s' : inv v s e h → by_core sel → W v o = l1 ++ p :: l2 → (∀ q y, q ∈ l1 → procs s !! q = Some y → sel y = false) →
  W v' o = l1 ++ l2 → p ∉ l1 ++ l2 → (∀ q, q ∈ l1 ++ l2 → candidate sel s' q = candidate sel s q) →
  candidates sel v s o = (if candidate sel s p then [p] else []) ++ candidates sel v' s' o.
Proof.
  intros Hi Hsel Hl Hs Hl' Hp Hc. unfold candidates. rewrite Hl, Hl', !filter_app, filter_cons.
  rewrite (filter_nothing (candidate sel s) l1) by (apply (not_candidates v s e h sel o); [done|intros q Hq; rewrite Hl; set_solver|done]).
  rewrite (filter_same (candidate sel s') (candidate sel s) l1), (filter_same (candidate sel s') (candidate sel s) l2) by (intros q Hq; apply Hc; set_solver).
  rewrite (filter_nothing (candidate sel s) l1) by (apply (not_candidates v s e h sel o); [done|intros q Hq; rewrite Hl; set_solver|done]).
  destruct (candidate sel s p); cbn; [by rewrite decide_True|by rewrite decide_False].
Qed.

(** An object that cannot go away while its waiters are woken. *)
Definition anchored (s : state) (e : Z → Z) (o : Z) : Prop :=
  1 ≤ o ≤ SLEEP ∨ ∃ p x, (0 < e p ∨ p = current s) ∧ procs s !! p = Some x ∧ child_wait x = o ∧ o ≠ 0.

Lemma anchored_object v s e h o : inv v s e h → anchored s e o → is_Some (objects s !! o).
Proof. intros Hi [H|(p & x & _ & Hx & <- & H0)]; [by apply Hi|by apply (i_child _ _ _ _ Hi p x)]. Qed.

Lemma anchored_kept v s e h v' s' e' h' o : inv v s e h → inv v' s' e' h' → (∀ q, 0 < e q → 0 < e' q) → calm v s v' s' → anchored s e o → anchored s' e' o.
Proof.
  intros Hi Hi' He Hc [H|(p & x & Hk & Hx & E & H0)]; [by left|right]. pose proof (c_rest Hc) as (_ & C2 & _).
  assert (is_Some (procs s' !! p)) as [y Hy].
  { destruct Hk as [Hk| ->]; [by apply (i_extra _ _ _ _ Hi'), He|]. destruct (i_current _ _ _ _ Hi') as [Ec|Hl]; rewrite C2 in *; [|done]. by destruct (po_addr _ _ _ _ _ _ _ (i_procs _ _ _ _ Hi _ x Hx)). }
  destruct (c_procs Hc p x y Hx Hy) as ((_ & _ & Ec & _) & _). exists p, y. split_and!; [|done|congruence|done]. destruct Hk as [Hk|Hk]; [left; auto|right; congruence].
Qed.

Section WakeOne.
Context (sel : process → bool) (o : Z) (pop : M Z).
Hypothesis Hsel : by_core sel.
Hypothesis Hpop : pops sel o pop.
Hypothesis Ho : o ≠ SLEEP.

(** The first selected waiter is taken off and roused. *)
Lemma pop_rouse v s e h n p x l1 l2 s1 : inv v s e h → hole_ok h s → small n e → n ≤ 98 → W v o = l1 ++ p :: l2 → procs s !! p = Some x → sel x = true →
  (∀ q y, q ∈ l1 → procs s !! q = Some y → sel y = false) → unlinked v s e h o p x (l1 ++ l2) s1 →
  wp (rouse p) s1 (λ b s', ∃ v', inv v' s' e h ∧ calm v s v' s' ∧ (∀ o', o' ≠ o → W v' o' = W v o') ∧ W v' o = l1 ++ l2 ∧ p ∉ l1 ++ l2 ∧ same_cores (λ q, q ≠ p) s s' ∧
    b = bool_decide (pstate x = PROCESS_BLOCKED) ∧ (b = true → ∃ y, procs s' !! p = Some y ∧ pstate y = PROCESS_READY ∧ on_queue y = 1 ∧ wait_on y = 0) ∧
    candidates sel v s o = (if b then [p] else []) ++ candidates sel v' s' o).
Proof.
  intros Hi Hh Hs Hn Hl Hp Hsx Hl1 (Hi1 & Hc1 & Hp1 & Hg1). apply fmap_Some in Hp1 as (x1 & Hx1 & E1). apply core_fields in E1 as F1. cbn in F1.
  assert (Hidle : p ≠ idle_thread s). { intros ->. destruct (i_idle _ _ _ _ Hi) as (y & Hy & _ & _ & E & _). destruct (waiting_proc v s e h (idle_thread s) o Hi) as (y' & _ & Hy' & E' & _ & _ & E0); [rewrite Hl; set_solver|]. congruence. }
  assert (Hcalm1 : calm v s (put_W v o (l1 ++ l2)) s1) by (apply (calm_one v _ s s1 p x (set_wait_on 0 x)); try done; [by rewrite Hx1; cbn; f_equal|unfold steady, kept; cbn; tauto]).
  assert (Hpl : p ∉ l1 ++ l2). { destruct (waiting_proc v s e h p o Hi) as (_ & w & _ & _ & _ & Hw & _); [rewrite Hl; set_solver|].
    pose proof (chain_nodup _ _ _ (o_chain _ _ _ (i_obj _ _ _ _ Hi o w Hw))) as Hd. rewrite Hl in Hd. by apply NoDup_app_cons_mid in Hd as [Hd _]. }
  destruct Hg1 as (G1 & G2 & G3 & G4). eapply wp_mono; [apply (rouse_spec _ s1 _ h 100 p x1 Hi1 Hx1)|].
  - rewrite bump_eq. pose proof (i_extra _ _ _ _ Hi p). lia.
  - congruence.
  - unfold hole_ok. by rewrite G2, G3.
  - by eapply small_up.
  - done.
  - cbn beta. intros b s' (v' & Hi' & Hc' & W' & Hs' & Hb & Hy). assert (Hsc : same_cores (λ q, q ≠ p) s s') by (intros q Hq; by rewrite (Hs' q Hq), (Hc1 q Hq)).
    exists v'. split_and!; try done.
    + by apply bump_back in Hi'.
    + by eapply calm_trans.
    + intros o' Hne. by rewrite W', put_W_ne.
    + by rewrite W', put_W_eq.
    + rewrite Hb. replace (pstate x1) with (pstate x) by naive_solver congruence. done.
    + intros Hbt. destruct (Hy Hbt) as (y & ? & ? & ? & Ey). exists y. split_and!; try done. rewrite Ey. naive_solver congruence.
    + rewrite (candidates_after v s e h sel o l1 p l2 v' s'); try done; [|by rewrite W', put_W_eq|].
      * f_equal. unfold candidate. rewrite Hp, Hsx, Hb. cbn. replace (pstate x1) with (pstate x) by naive_solver congruence. done.
      * intros q Hq. apply candidate_core; [done|]. apply Hsc. intros ->. done.
Qed.

Lemma wake_one_spec fuel v s e h n : inv v s e h → anchored s e o → hole_ok h s → small n e → n ≤ 98 → (length (W v o) < fuel)%nat →
  wp (wake_one fuel pop) s (λ p s', ∃ v', inv v' s' e h ∧ calm v s v' s' ∧ woke_one sel o p v s v' s').
Proof.
  revert v s. induction fuel as [|fuel IH]; intros v s Hi Ha Hh Hs Hn Hf; [lia|]. cbn [wake_one]. eapply wp_use; [apply (Hpop v s e h Hi); [by eapply anchored_object|done]|].
  cbn beta. intros p s1 [(-> & -> & Hno)|(Hp0 & l1 & l2 & x & Hl & Hp & Hsx & Hl1 & Hu)].
  { cbn. apply wp_ret. exists v. split; [done|]. split; [apply calm_refl|]. assert (Ec : candidates sel v s o = []) by (apply filter_nothing; by eapply not_candidates).
    unfold woke_one. rewrite Ec. split_and!; try done. intros q x _ Hx _. by exists x. }
  destruct (Z.eqb_spec p 0); [done|]. eapply wp_use; [by apply (pop_rouse v s e h n p x l1 l2 s1)|]. cbn beta. intros b s2 (v2 & Hi2 & Hc2 & W2 & Wo & Hpl & Hs2 & Hb & Hy & Hcand).
  assert (Hlen : (length (W v o) = S (length (W v2 o)))%nat) by (rewrite Hl, Wo, !length_app; cbn; lia). destruct b.
  - apply wp_ret. symmetry in Hb. apply bool_decide_eq_true in Hb. exists v2. split; [done|]. split; [done|]. unfold woke_one. rewrite Hcand. cbn [app head list.tail default from_option id]. split_and!; try done; [by apply others_cores|lia|lia|].
    intros _. exists x. split_and!; try done. by apply Hy.
  - symmetry in Hb. apply bool_decide_eq_false in Hb. pose proof Hc2 as [(C1 & C2 & C3) _ _ _ _].
    eapply wp_mono; [apply (IH v2 s2 Hi2); [by apply (anchored_kept v s e h v2 s2 e h o Hi Hi2)|unfold hole_ok; by rewrite C2, C3|done|done|lia]|]. cbn beta. intros p' s' (v' & Hi' & Hc' & Hw). exists v'. split; [done|]. split; [by eapply calm_trans|].
    destruct Hw as (R1 & R2 & R3 & R4 & R5 & R6 & R7). unfold woke_one. rewrite Hcand. cbn [app]. split_and!; [done|done| | |lia|lia|].
    + intros o' Hne. by rewrite R3, W2.
    + intros q y Hq Hy' Hyb. assert (q ≠ p).
      { intros ->. assert (y = x) as -> by congruence. destruct Hyb as [?|Hne]; [done|]. destruct (waiting_proc v s e h p o Hi) as (x' & _ & Hx' & Ew & _); [rewrite Hl; set_solver|]. congruence. }
      pose proof (Hs2 q ltac:(done)) as E. rewrite Hy' in E. apply fmap_Some in E as (z & Hz & E). apply core_fields in E as F.
      destruct (R4 q z Hq Hz) as (z' & Hz' & E'); [destruct Hyb; [left|right]; naive_solver congruence|]. exists z'. split; [done|congruence].
    + intros Hp'. destruct (R7 Hp') as (z & Hz & Hz1 & Hz2 & Hz3). assert (p' ≠ p).
      { assert (Hin : p' ∈ candidates sel v2 s2 o) by (rewrite R1 in *; destruct (candidates sel v2 s2 o); [done|left]). apply list_elem_of_filter in Hin as [_ Hin]. rewrite Wo in Hin. intros ->. done. }
      destruct (core_some _ s s2 p' z Hs2 H Hz) as (x' & Hx' & E). exists x'. apply core_fields in E as F. split_and!; [done|by rewrite <- (Hsel z x')|naive_solver congruence|done].
Qed.

End WakeOne.

Lemma waiters_fuel v s e h o : inv v s e h → is_Some (objects s !! o) → (length (W v o) < fuel_of s)%nat.
Proof. intros Hi [w Hw]. eapply fuel_enough. apply (o_chain _ _ _ (i_obj _ _ _ _ Hi o w Hw)). Qed.

Lemma anchored_ne_sleep v s e h o : inv v s e h → anchored s e o → o ≠ SLEEP ∨ 1 ≤ o ≤ SLEEP.
Proof. intros Hi [?|(p & x & _ & Hx & E & H0)]; [by right|left]. destruct (po_child _ _ _ _ _ _ _ (i_procs _ _ _ _ Hi p x Hx)); lia. Qed.

Section WakeObject.
Context (sel : process → bool) (o : Z) (pop : M Z).
Hypothesis Hsel : by_core sel.
Hypothesis Hpop : pops sel o pop.
Hypothesis Ho : o ≠ SLEEP.

Lemma wake_object_spec v s e h n : inv v s e h → anchored s e o → hole_ok h s → small n e → n ≤ 98 →
  wp (fuel <- read fuel_of; wake_one fuel pop) s (λ p s', ∃ v', inv v' s' e h ∧ calm v s v' s' ∧ woke_one sel o p v s v' s').
Proof.
  intros Hi Ha Hh Hs Hn. apply wp_bind, wp_read. eapply wake_one_spec; try done. eapply waiters_fuel; [done|by eapply anchored_object].
Qed.

End WakeObject.

Lemma init_calm v s e h o : inv v s e h → is_Some (objects s !! o) →
  wp (wo_ensure_init o) s (λ _ s', inv v s' e h ∧ calm v s v s' ∧ procs s' = procs s ∧ futex_initialized s' = futex_initialized s ∧ same_globals s s' ∧
    ∃ w', objects s' = <[o := w']> (objects s) ∧ initialized w' ≠ 0).
Proof.
  intros Hi [w Hw]. eapply wp_mono; [by eapply ensure_init_spec|]. cbn beta. intros _ s' (H1 & H2 & H3 & H4 & H5). split; [done|]. split; [|done].
  apply calm_cores; [|done]. intros q _. by rewrite H2.
Qed.

Lemma hole_calm v s v' s' h : calm v s v' s' → hole_ok h s → hole_ok h s'.
Proof. intros [(_ & E1 & E2) _ _ _ _]. unfold hole_ok. by rewrite E1, E2. Qed.

Lemma key_by_core key : by_core (λ x, futex_key x =? key).
Proof. intros x y H%core_fields. f_equal. naive_solver congruence. Qed.

Lemma all_by_core : by_core (λ _, true).
Proof. by intros x y _. Qed.

Lemma wake_key_spec v s e h n o key : inv v s e h → anchored s e o → o ≠ SLEEP → hole_ok h s → small n e → n ≤ 98 →
  wp (wq_wake_one_key o key) s (λ p s', ∃ v', inv v' s' e h ∧ calm v s v' s' ∧ woke_one (λ x, futex_key x =? key) o p v s v' s').
Proof.
  intros Hi Ha Ho Hh Hs Hn. eapply wp_use; [by eapply init_calm; [|eapply anchored_object]|]. cbn beta. intros _ s1 (Hi1 & Hc1 & Hp1 & _).
  eapply wp_mono; [apply (wake_object_spec _ o _ (key_by_core key) (pops_matching o key) Ho v s1 e h n Hi1); [by eapply (anchored_kept v s e h)|by eapply hole_calm|done|done]|].
  cbn beta. intros p s' (v' & Hi' & Hc' & Hw). exists v'. split; [done|]. split; [by eapply calm_trans|]. destruct Hw as (R1 & R2 & R3 & R4 & R5 & R6 & R7).
  unfold woke_one, candidates, candidate, others_stay in *. rewrite Hp1 in *. split_and!; done.
Qed.

Lemma wake_first_spec v s e h n o : inv v s e h → anchored s e o → o ≠ SLEEP → hole_ok h s → small n e → n ≤ 98 →
  wp (wq_wake_one o) s (λ _ s', ∃ v', inv v' s' e h ∧ calm v s v' s').
Proof.
  intros Hi Ha Ho Hh Hs Hn. eapply wp_use; [by eapply init_calm; [|eapply anchored_object]|]. cbn beta. intros _ s1 (Hi1 & Hc1 & Hp1 & _).
  eapply wp_mono; [apply (wake_object_spec _ o _ all_by_core (pops_head o) Ho v s1 e h n Hi1); [by eapply (anchored_kept v s e h)|by eapply hole_calm|done|done]|].
  cbn beta. intros p s' (v' & Hi' & Hc' & Hw). exists v'. split; [done|]. by eapply calm_trans.
Qed.

Lemma wake_all_loop_spec fuel v s e h n o k : inv v s e h → anchored s e o → o ≠ SLEEP → hole_ok h s → small n e → n ≤ 98 → (length (W v o) < fuel)%nat →
  wp (wake_all fuel o k) s (λ _ s', ∃ v', inv v' s' e h ∧ calm v s v' s').
Proof.
  revert v s k. induction fuel as [|fuel IH]; intros v s k Hi Ha Ho Hh Hs Hn Hf; [lia|]. cbn [wake_all].
  eapply wp_use; [apply (wake_object_spec _ o _ all_by_core (pops_head o) Ho v s e h n Hi); done|]. cbn beta. intros p s1 (v1 & Hi1 & Hc1 & Hw).
  apply wp_if; intros Ep; [apply wp_ret; by exists v1|]. apply Z.eqb_neq in Ep. destruct Hw as (_ & _ & _ & _ & _ & Hlt & _). specialize (Hlt Ep).
  eapply wp_mono; [apply (IH v1 s1); [done|by eapply (anchored_kept v s e h)|done|by eapply hole_calm|done|done|lia]|]. cbn beta. intros k' s' (v' & Hi' & Hc'). exists v'. split; [done|]. by eapply calm_trans.
Qed.

Lemma wake_all_spec v s e h n o : inv v s e h → anchored s e o → o ≠ SLEEP → hole_ok h s → small n e → n ≤ 98 →
  wp (wq_wake_all o) s (λ _ s', ∃ v', inv v' s' e h ∧ calm v s v' s').
Proof.
  intros Hi Ha Ho Hh Hs Hn. unfold wq_wake_all, wait_object_signal. eapply wp_use; [by eapply init_calm; [|eapply anchored_object]|]. cbn beta. intros _ s1 (Hi1 & Hc1 & Hp1 & _).
  assert (Ha1 : anchored s1 e o) by by eapply (anchored_kept v s e h).
  apply wp_bind, wp_read. eapply wp_mono; [apply (wake_all_loop_spec (fuel_of s1) v s1 e h n o); [done|done|done|by eapply hole_calm|done|done|]|].
  - eapply waiters_fuel; [done|by eapply anchored_object].
  - cbn beta. intros k s' (v' & Hi' & Hc'). exists v'. split; [done|]. by eapply calm_trans.
Qed.

(** ** The timer *)

Definition due (s : state) (now q : Z) : bool := match procs s !! q with Some x => wake_deadline x <=? now | None => false end.

Lemma due_core s s' now q : core <$> procs s' !! q = core <$> procs s !! q → due s' now q = due s now q.
Proof.
  intros E. unfold due. destruct (procs s' !! q) as [x|], (procs s !! q) as [y|]; try done. cbn in E. assert (Ec : core x = core y) by congruence. apply core_fields in Ec.
  replace (wake_deadline x) with (wake_deadline y) by naive_solver congruence. done.
Qed.

Lemma awake_core x p s s' : core <$> procs s' !! p = core <$> procs s !! p → awake x p s → awake x p s'.
Proof. intros E (y & Hy & ? & ? & ?). rewrite Hy in E. apply fmap_Some in E as (z & Hz & E). exists z. apply core_fields in E. split_and!; try done; naive_solver congruence. Qed.

Lemma filter_due s s' now (l : list Z) : (∀ q, q ∈ l → core <$> procs s' !! q = core <$> procs s !! q) → filter (λ q, due s' now q = false) l = filter (λ q, due s now q = false) l.
Proof.
  induction l as [|q l IH]; intros H; [done|]. rewrite !filter_cons, IH by (intros z Hz; apply H; by right). by rewrite (due_core s s' now q) by (apply H; left).
Qed.

(** What the timer does to the sleepers in [l2]; those in [l1] are behind it. *)
Definition due_woken (now : Z) (l1 l2 : list Z) (v : view) (s : state) (v' : view) (s' : state) : Prop :=
  calm v s v' s' ∧ W v' = W v ∧ SL v' = l1 ++ filter (λ q, due s now q = false) l2 ∧ timer_ticks s' = timer_ticks s ∧
  (∀ q, (q ∉ l2 ∨ due s now q = false) → core <$> procs s' !! q = core <$> procs s !! q) ∧
  (∀ q x, q ∈ l2 → due s now q = true → procs s !! q = Some x → if decide (pstate x = PROCESS_BLOCKED) then awake x q s' else core <$> procs s' !! q = Some (core x)).

Lemma due_one v s e n now p x l1 l2 : inv v s e 0 → small n e → n ≤ 100 → SL v = l1 ++ p :: l2 → procs s !! p = Some x → p ∉ l1 ++ l2 → due s now p = true →
  wp (put_sleep_link (default 0 (last l1)) (sleep_next x);; upd p (set_sleep_next 0);;
      when (bool_decide (pstate x = PROCESS_BLOCKED)) (process_set_ready p;; scheduler_add_process p)) s (λ _ s', ∃ v', inv v' s' e 0 ∧ calm v s v' s' ∧ W v' = W v ∧
    SL v' = l1 ++ l2 ∧ timer_ticks s' = timer_ticks s ∧ same_cores (λ q, q ≠ p) s s' ∧
    if decide (pstate x = PROCESS_BLOCKED) then awake x p s' else core <$> procs s' !! p = Some (core x)).
Proof.
  intros Hi Hs Hn Hl Hx Hpl Hdue. assert (Hsl : wait_on x = SLEEP ∧ p ≠ 0). { destruct (i_procs _ _ _ _ Hi p x Hx). split; [|done]. destruct po_sleep0; [rewrite Hl; set_solver|done|done]. }
  assert (Hidle : p ≠ idle_thread s). { intros ->. destruct (i_idle _ _ _ _ Hi) as (y & Hy & _ & _ & E & _). assert (y = x) as -> by congruence. destruct Hsl as [E' _]. rewrite E in E'. done. }
  apply wp_assoc. eapply wp_use; [by apply (sleep_unlink v s e 0 p x l1 l2)|]. cbn beta. intros _ s1 (Hi1 & Hc1 & Hg1). destruct (core_of _ _ _ _ Hc1 Hx) as (x1 & Hx1 & E1). apply core_fields in E1 as F1.
  pose proof Hg1 as (G1 & G2 & G3 & G4). assert (Hcalm : calm v s (put_SL v (l1 ++ l2)) s1) by (destruct (calm_cores v s s1 Hc1 Hg1); by split).
  destruct (decide (pstate x = PROCESS_BLOCKED)) as [Hb|Hb]; [rewrite bool_decide_true by done; cbn [when]|rewrite bool_decide_false by done; apply wp_ret].
  - eapply wp_mono; [apply (make_ready_spec _ s1 e 0 n p x1 Hi1 Hx1); [congruence|done|done|naive_solver congruence]|]. cbn beta. intros _ s2 (v2 & Hi2 & Hc2 & W2 & S2 & Hs2 & T2 & y & Hy & Hy1 & Hy2 & Hy3).
    exists v2. split_and!; try done; [by eapply calm_trans|congruence| |].
    + intros q Hq. rewrite (Hs2 q Hq). by apply Hc1.
    + exists y. split_and!; try done. rewrite Hy3. naive_solver congruence.
  - exists (put_SL v (l1 ++ l2)). split_and!; try done; [by intros q _; apply Hc1|]. rewrite (Hc1 p I), Hx. done.
Qed.

Lemma wp_assoc3 {A B C D} (m : M A) (f : M B) (g : M C) (k : M D) s Φ : wp (bind (m;; f;; g) (λ _, k)) s Φ → wp (m;; f;; g;; k) s Φ.
Proof. intros (y & s' & H & HΦ). exists y, s'. split; [|done]. unfold bind in *. destruct (m s) as [[? s1]|]; [|done]. destruct (f s1) as [[? s2]|]; [|done]. done. Qed.

Lemma wake_due_spec fuel v s e n now l1 l2 : inv v s e 0 → small n e → n ≤ 100 → SL v = l1 ++ l2 → (length l2 < fuel)%nat →
  wp (wake_due_loop fuel now (default 0 (last l1)) (default 0 (head l2))) s (λ _ s', ∃ v', inv v' s' e 0 ∧ due_woken now l1 l2 v s v' s').
Proof.
  revert v s l1 l2. induction fuel as [|fuel IH]; intros v s l1 l2 Hi Hs Hn Hl Hf; [lia|]. cbn [wake_due_loop]. destruct l2 as [|p l2].
  { cbn. apply wp_ret. exists v. split; [done|]. split; [apply calm_refl|]. split_and!; try done. intros q x ?%elem_of_nil. done. }
  destruct (sleeper_live v s e 0 p Hi) as (x & Hx & Hp0); [rewrite Hl; set_solver|]. cbn [head default from_option id]. destruct (Z.eqb_spec p 0); [done|]. apply wp_bind, (wp_get p x); [done|].
  pose proof (i_sleep _ _ _ _ Hi) as Hc. rewrite Hl in Hc. pose proof (chain_nodup _ _ _ Hc) as Hd. apply chain_at in Hc as (nx & Hnx & Hc). rewrite lookup_fmap, Hx in Hnx. cbn in Hnx. injection Hnx as <-. apply chain_head in Hc.
  assert (Hpl : p ∉ l1 ++ l2) by by apply NoDup_app_cons_mid in Hd as [Hd _]. assert (Hdue : due s now p = (wake_deadline x <=? now)) by (unfold due; by rewrite Hx). rewrite <- Hdue.
  destruct (due s now p) eqn:Ed; clear Hdue.
  - apply wp_assoc3. eapply wp_use; [by apply (due_one v s e n now p x l1 l2)|]. cbn beta. rewrite Hc. intros _ s1 (v1 & Hi1 & Hc1 & W1 & S1 & T1 & Hs1 & Hp1).
    assert (Hne : ∀ q, q ∈ l2 → q ≠ p) by (intros q Hq ->; set_solver).
    eapply wp_mono; [apply (IH v1 s1 l1 l2); try done; cbn in Hf; lia|]. cbn beta. intros _ s' (v' & Hi' & Hc' & W' & S' & T' & Hs' & Hp'). exists v'. split; [done|]. split; [by eapply calm_trans|].
    rewrite filter_cons, decide_False by congruence. split_and!; [congruence|by rewrite S', (filter_due s s1) by (intros q Hq; apply Hs1; auto)|congruence| |].
    + intros q Hq. assert (q ≠ p) by (intros ->; destruct Hq as [Hq|Hq]; [set_solver|congruence]). rewrite <- (Hs1 q) by done. apply Hs'. rewrite (due_core s s1) by by apply Hs1. destruct Hq as [Hq|Hq]; [left; set_solver|by right].
    + intros q y [->|Hq]%elem_of_cons Hd' Hy.
      * assert (y = x) as -> by congruence. assert (E : core <$> procs s' !! p = core <$> procs s1 !! p) by (apply Hs'; left; set_solver). case_decide; [by eapply awake_core|congruence].
      * pose proof (Hs1 q (Hne q Hq)) as E. pose proof E as E'. rewrite Hy in E'. apply fmap_Some in E' as (z & Hz & Ez). specialize (Hp' q z Hq). rewrite (due_core s s1) in Hp' by done. specialize (Hp' Hd' Hz).
        apply core_fields in Ez as F. assert (pstate z = pstate y) as Est by naive_solver congruence. rewrite Est in Hp'. case_decide; [|congruence]. destruct Hp' as (y' & ? & ? & ? & ?). exists y'. split_and!; try done. naive_solver congruence.
  - rewrite Hc. replace (default 0 (last l1)) with (default 0 (last l1)) by done. assert (E : p = default 0 (last (l1 ++ [p]))) by by rewrite last_snoc. rewrite E at 1.
    eapply wp_mono; [apply (IH v s (l1 ++ [p]) l2); try done; [by rewrite Hl, <- (assoc_L app)|cbn in Hf; lia]|]. cbn beta. intros _ s' (v' & Hi' & Hc' & W' & S' & T' & Hs' & Hp'). exists v'. split; [done|].
    split_and!; try done.
    + rewrite S', filter_cons, decide_True, <- (assoc_L app) by done. done.
    + intros q Hq. apply Hs'. destruct (decide (q = p)) as [->|]; [by right|]. destruct Hq as [Hq|Hq]; [left; set_solver|by right].
    + intros q y [->|Hq]%elem_of_cons Hd'; [congruence|]. by apply Hp'.
Qed.

(** One tick of the clock: the due sleepers, and only those, leave the sleep list. *)
Lemma tick_spec v s e n : inv v s e 0 → small n e → n ≤ 100 →
  wp (sleep_list_wake_due (timer_ticks s)) s (λ _ s', ∃ v', inv v' s' e 0 ∧ due_woken (timer_ticks s) [] (SL v) v s v' s').
Proof.
  intros Hi Hs Hn. apply wp_bind, wp_read, wp_bind, wp_read. pose proof (i_sleep _ _ _ _ Hi) as Hc. rewrite (chain_head _ _ _ Hc).
  apply (wake_due_spec _ v s e n (timer_ticks s) [] (SL v)); try done. by eapply fuel_enough.
Qed.

End SchedWake.
