(* ===== verification/SchedBlock.v ===== *)
(** * Blocking keeps the invariant

    Entering a blocking call, handing the processor over inside it, and the
    cleanup when the process has it back. *)

From S2P Require Import Prelude Errno Links Pcb Sched WaitObj SchedInv SchedQueue SchedOps SchedReady SchedPick SchedWait SchedWake.
Import Links Pcb Sched WaitObj SchedInv SchedQueue SchedOps SchedReady SchedPick SchedSwitch SchedWait SchedWake.

Module SchedBlock.
Local Open Scope Z_scope.

(** ** The process in between *)

Lemma inv_open v s e p : inv v s e 0 → inv v s e p.
Proof.
  intros Hi. destruct Hi. split; try done. intros q y Hq. destruct (i_procs0 q y Hq). split; try done.
  - intros Hin. destruct (po_sleep0 Hin); [done|by right].
  - unfold pc_ok in *. destruct (pc y); naive_solver.
Qed.

Lemma inv_close v s e p x : inv v s e p → procs s !! p = Some x → wait_on x = 0 → p ∉ SL v → inv v s e 0.
Proof.
  intros Hi Hp Hw Hs. destruct Hi. split; try done. intros q y Hq. destruct (i_procs0 q y Hq). destruct (decide (q = p)) as [->|Hqp].
  - assert (y = x) as -> by congruence. split; try done. unfold pc_ok in *. destruct (pc x); naive_solver.
  - split; try done; [naive_solver|]. unfold pc_ok in *. destruct (pc y); naive_solver.
Qed.

(** ** Cleanup *)

Lemma running_kept v s e h x : inv v s e h → procs s !! current s = Some x → current s ≠ idle_thread s → 0 < holders (current s) (idle_thread s) (current s) x.
Proof.
  intros Hi Hx Hidle. destruct (i_procs _ _ _ _ Hi _ x Hx). unfold holders. rewrite bool_decide_true by done.
  destruct po_reaped0 as [->| ->], po_queue0 as [[-> _]|[-> _]]; destruct (negb _); cbn; lia.
Qed.

Lemma cleanup_spec v s e h o x : let p := current s in inv v s e h → h = 0 ∨ h = p → p ≠ idle_thread s → procs s !! p = Some x → wait_on x = 0 ∨ wait_on x = o → o ≠ 0 → is_Some (objects s !! o) →
  wp (park_cleanup o p) s (λ _ s', ∃ v' y, inv v' s' e 0 ∧ calm v s v' s' ∧ Q v' = Q v ∧ procs s' !! p = Some y ∧ wait_on y = 0 ∧ on_queue y = on_queue x ∧ pc y = pc x).
Proof.
  intros p Hi0 Hh Hidle Hx Hwo Ho0 Ho. assert (Hi : inv v s e p) by (destruct Hh as [->| ->]; [by apply inv_open|done]). clear Hi0 Hh. unfold park_cleanup.
  eapply wp_use; [apply (wo_unlink_spec v s e p o p); [done|done|by right]|]. cbn beta. intros b s1 Hb.
  assert (H1 : ∃ v1 x1, inv v1 s1 (if b then bump e p 1 else e) p ∧ calm v s v1 s1 ∧ Q v1 = Q v ∧ procs s1 !! p = Some x1 ∧ wait_on x1 = 0 ∧ on_queue x1 = on_queue x ∧ pc x1 = pc x).
  { destruct b.
    - destruct Hb as (l1 & l2 & x' & Hl & Hx' & Hi1 & Hc1 & Hp1 & Hg1). assert (x' = x) as -> by congruence. apply fmap_Some in Hp1 as (x1 & Hx1 & E1). apply core_fields in E1 as F1. exists (put_W v o (l1 ++ l2)), x1.
      split; [done|]. split; [apply (calm_one v _ s s1 p x (set_wait_on 0 x)); try done; [by rewrite Hx1; cbn; f_equal|unfold steady, kept; cbn; tauto]|]. cbn in F1. split_and!; try done; naive_solver congruence.
    - destruct Hb as [-> Hno]. exists v, x. split; [done|]. split; [apply calm_refl|]. split_and!; try done. destruct Hwo as [|E]; [done|]. destruct Hno. by apply (po_wait _ _ _ _ _ _ _ (i_procs _ _ _ _ Hi p x Hx)). }
  destruct H1 as (v1 & x1 & Hi1 & Hc1 & HQ1 & Hx1 & Hw1 & Hq1 & Hpc1). pose proof (c_rest Hc1) as (C1 & C2 & C3).
  assert (H2 : wp (when b (process_unref p)) s1 (λ _ s2, inv v1 s2 e p ∧ same_cores (λ _, True) s1 s2 ∧ same_globals s1 s2)).
  { destruct b; [|by apply wp_ret]. cbn [when]. eapply wp_mono; [apply (unref_kept v1 s1 _ p p x1 Hi1 Hx1)|].
    - rewrite bump_eq. pose proof (i_extra _ _ _ _ Hi p). lia.
    - by rewrite C2, C3.
    - left. pose proof (running_kept v1 s1 _ _ x1 Hi1) as Hk. rewrite C2, C3 in *. by apply Hk.
    - cbn beta. intros _ s2 (A & B & C). split_and!; try done. by apply bump_back in A. }
  eapply wp_use; [exact H2|]. cbn beta. clear H2. intros _ s2 (Hi2 & Hc2 & Hg2). destruct (core_of _ _ _ _ Hc2 Hx1) as (x2 & Hx2 & E2). apply core_fields in E2 as F2.
  eapply wp_use; [by apply (sleep_remove_spec v1 s2 e p p)|]. cbn beta. intros _ s3 (v3 & Hi3 & HQ3 & HW3 & HS3 & Hc3 & Hg3). destruct (core_of _ _ _ _ Hc3 Hx2) as (x3 & Hx3 & E3). apply core_fields in E3 as F3.
  apply wp_bind, wp_upd; [by exists x3|]. apply wp_ret. exists v3, (set_wake_deadline 0 x3).
  assert (Hi4 : inv v3 s3 e 0) by (apply (inv_close v3 s3 e p x3); [done|done|naive_solver congruence|]; intros Hin; apply HS3 in Hin as [_ ?]; done).
  split; [apply inv_plain; [by intros z|done|by exists x3]|]. split; [|split_and!; try done; [congruence|cbn; by rewrite lookup_alter_eq, Hx3|cbn; naive_solver congruence..]].
  eapply calm_trans; [exact Hc1|]. eapply calm_trans; [apply calm_cores; done|]. eapply calm_trans; [|apply (calm_upd v3 s3 p _ x3 Hx3); unfold steady, kept; cbn; tauto].
  destruct (calm_cores v1 s2 s3 Hc3 Hg3). split; rewrite ?HQ3; done.
Qed.

(** ** Parking *)

Definition same_place (p : Z) (c : cont) (s s' : state) : Prop :=
  same_cores (λ q, q ≠ p) s s' ∧ (∃ x y, procs s !! p = Some x ∧ procs s' !! p = Some y ∧ core y = core (set_pc c x)) ∧ same_globals s s'.

(** The outcome of the choice inside a blocking call. *)
Definition parked (p o : Z) (k : after) (e : Z → Z) (nx : Z) (v' : view) (s1 : state) (b : bool) (s' : state) : Prop :=
  b = false ∧ nx = idle_thread s1 ∧ same_place p (Halted o k) s1 s' ∧ inv v' s' e 0 ∨
  b = false ∧ nx ≠ idle_thread s1 ∧ nx ≠ p ∧ switched p nx (Parked o k) s1 s' ∧ inv v' s' e 0 ∨
  b = true ∧ nx = p ∧ (∃ x, procs s1 !! p = Some x ∧ s' = put_current p (put_procs (alter runs p (procs s1)) s1)) ∧ inv v' s' (bump e p 1) p.

Lemma picked_self v s e h nx v' s' p x : picked v s e h nx v' s' → procs s !! p = Some x → pstate x ≠ PROCESS_TERMINATED → p ≠ nx →
  ∃ y, procs s' !! p = Some y ∧ core y = core x.
Proof.
  intros (_ & _ & l1 & L1 & L2 & _) Hx Ht Hn. assert (Hl : p ∉ l1). { intros Hin. destruct (L1 p Hin) as [(z & Hz & E) _]. congruence. }
  pose proof (L2 p (conj Hl Hn)) as E. rewrite Hx in E. apply fmap_Some in E as (y & Hy & E). by exists y.
Qed.

Lemma waits_core x y o : core y = core x → waits_at x o → waits_at y o.
Proof. intros (_ & _ & _ & _ & _ & _ & _ & _ & _ & _ & _ & E & _)%core_fields. unfold waits_at. by rewrite E. Qed.

Lemma park_spec v s e o k x : let p := current s in inv v s e p → p ≠ idle_thread s → procs s !! p = Some x → pstate x = PROCESS_BLOCKED → waits_at x o → wait_on x = 0 ∨ wait_on x = o →
  (p ∈ SL v → wait_on x = SLEEP) →
  wp (park o p k) s (λ b s', ∃ v' nx s1, picked v s e p nx v' s1 ∧ parked p o k e nx v' s1 b s').
Proof.
  intros p Hi Hidle Hx Hst Hat Hwo Hsl. assert (Hp0 : p ≠ 0) by (eapply po_addr; by apply (i_procs _ _ _ _ Hi)).
  eapply wp_use; [apply (pick_spec v s e p Hi); right; done|]. cbn beta. intros nx s1 (v' & Hpick). destruct (picked_inv _ _ _ _ _ _ _ Hpick) as [Hi1 [y Hy]].
  pose proof Hpick as ((R1 & R2 & R3) & (A1 & A2 & A3 & A4) & _). unfold park_dispatch, scheduler_idle_thread. apply wp_bind, wp_read.
  assert (Hself : nx ≠ p → ∃ z, procs s1 !! p = Some z ∧ core z = core x) by (intros Hn; eapply picked_self; [done|done|by rewrite Hst|done]).
  assert (Hpc : ∀ z c, core z = core x → c = Halted o k ∨ c = Parked o k → pc_ok 0 p (set_pc c z) ∧ (p ∈ SL v' → wait_on z = SLEEP)).
  { intros z c Ez Hc. pose proof (core_fields _ _ Ez) as F. split; [|rewrite A4; intros Hin; specialize (Hsl Hin); naive_solver congruence].
    assert (Hat' : waits_at (set_pc c z) o) by (eapply waits_core in Hat; [|exact Ez]; exact Hat). assert (wait_on z = wait_on x) as Ew by naive_solver congruence.
    unfold pc_ok. destruct Hc as [->| ->]; cbn; rewrite Ew; (split; [done|tauto]). }
  destruct (Z.eqb_spec nx (idle_thread s1)) as [En|En].
  - destruct Hself as (z & Hz & Ez); [congruence|]. unfold give in Hi1. rewrite decide_True in Hi1 by done. apply wp_bind, wp_upd; [by exists z|]. apply wp_ret. exists v', nx, s1. split; [done|]. left. destruct (Hpc z (Halted o k) Ez) as [P1 P2]; [by left|].
    split_and!; try done; [|eapply inv_set_pc; try done; [congruence|by right]]. split; [intros q Hq; by apply core_alter_ne|]. split; [|done]. exists z, (set_pc (Halted o k) z). split; [done|]. split; [cbn; by rewrite lookup_alter_eq, Hz|done].
  - destruct (Z.eqb_spec nx p) as [->|Hn]; cbn [negb].
    + apply wp_assoc, wp_bind. apply (set_current_state s1 p y); [done|]. apply wp_ret. exists v', p, s1. split; [done|]. right. right. split_and!; try done; [by exists y|].
      unfold give in Hi1. rewrite decide_False in Hi1 by done. assert (Ep : current s1 = p) by done. assert (Hi2 : inv v' (put_procs (alter runs p (procs s1)) s1) (bump e p 1) p) by (apply inv_plain; [apply plain_runs|done|by exists y]).
      apply (inv_current v' _ _ _ p p Hi2); [right; cbn; apply lookup_alter_is_Some; by exists y|intros q _; cbn [put_procs current idle_thread]; rewrite Ep; lia|apply (i_extra _ _ _ _ Hi2)].
    + destruct Hself as (z & Hz & Ez); [done|]. destruct (Hpc z (Parked o k) Ez) as [P1 P2]; [by right|]. apply wp_bind. eapply wp_mono.
      * pose proof (switch_spec v' s1 e p nx (Parked o k) z) as Hsw. cbv zeta in Hsw. rewrite R1 in Hsw. apply Hsw; try done; [by rewrite R2|intros q; apply (i_extra _ _ _ _ Hi)|by right].
      * cbn beta. intros _ s' [Hi' Hs']. apply wp_ret. exists v', nx, s1. split; [done|]. right. left. by split_and!.
Qed.

(** ** Entering *)

Lemma not_sleeping v s e p x : inv v s e 0 → procs s !! p = Some x → wait_on x = 0 → p ∉ SL v.
Proof.
  intros Hi Hx Hw Hin. destruct (i_procs _ _ _ _ Hi p x Hx). destruct (po_sleep0 Hin) as [E|E]; [done|]. rewrite Hw in E. done.
Qed.

(** The caller is linked on [o] and blocked. *)
Definition entered (o : Z) (p : Z) (x : process) (v : view) (s : state) (e : Z → Z) (v1 : view) (s1 : state) : Prop :=
  inv v1 s1 e p ∧ mild v s v1 s1 ∧ Q v1 = Q v ∧ (∀ o', o' ≠ o → W v1 o' = W v o') ∧ W v1 o = W v o ++ [p] ∧ same_cores (λ q, q ≠ p) s s1 ∧ timer_ticks s1 = timer_ticks s ∧
  ∃ x1, procs s1 !! p = Some x1 ∧ pstate x1 = PROCESS_BLOCKED ∧ wait_on x1 = o ∧ on_queue x1 = on_queue x ∧ child_wait x1 = child_wait x.

Lemma enter_link v s s1 e o x x1 : let p := current s in
  inv v s e 0 → p ≠ idle_thread s → procs s !! p = Some x → inv v s1 (bump e p 1) 0 → same_cores (λ q, q ≠ p) s s1 → same_globals s s1 →
  procs s1 !! p = Some x1 → kept x x1 → on_queue x1 = on_queue x → wait_on x1 = 0 → waits_at x1 o →
  (futex_initialized s1 = 0 → ¬ 1 ≤ o < SLEEP) → (∃ w, objects s1 !! o = Some w ∧ initialized w ≠ 0) →
  wp (wo_link o p) s1 (λ _ s2, ∃ v2, entered o p x v s e v2 s2 ∧ SL v2 = SL v ∧ core <$> procs s2 !! p = Some (core (blocked_on o x1))).
Proof.
  intros p Hi Hidle Hx Hi1 Hc1 Hg1 Hx1 Hk Hq Hw Hat Hfut (w & Hwo & Hwi). pose proof Hg1 as (G1 & G2 & G3 & G4).
  eapply wp_mono; [apply (wo_link_spec v s1 _ o w p x1 Hi1 Hx1 Hw); try done|].
  - rewrite bump_eq. pose proof (i_extra _ _ _ _ Hi p). lia.
  - by rewrite G3.
  - cbn beta. intros _ s2 (Hi2 & Hc2 & Hp2 & Hg2 & _). exists (put_W v o (W v o ++ [p])). split_and!; [|done|done]. assert (Hsc : same_cores (λ q, q ≠ p) s s2) by (intros q Hqp; rewrite (Hc2 q Hqp); by apply Hc1).
    pose proof (same_globals_trans _ _ _ Hg1 Hg2) as Hg. split_and!; try done.
    + by apply bump_back in Hi2.
    + by apply (mild_one v _ s s2 p x (blocked_on o x1)).
    + intros o' Ho. by rewrite put_W_ne.
    + by rewrite put_W_eq.
    + by destruct Hg as (_ & _ & _ & ->).
    + apply fmap_Some in Hp2 as (x2 & Hx2 & E2). apply core_fields in E2. cbn in E2. exists x2. destruct Hk as (_ & _ & Hk & _). split_and!; try done; naive_solver congruence.
Qed.

Lemma wp_and {A} (m : M A) s (Φ Ψ : A → state → Prop) : wp m s Φ → wp m s Ψ → wp m s (λ x s', Φ x s' ∧ Ψ x s').
Proof. intros (x & s' & E & H) (y & s'' & E' & H'). exists x, s'. split; [done|]. split; [done|]. congruence. Qed.

Lemma ref_full v s e h n p x : inv v s e h → procs s !! p = Some x → small n e → n ≤ 100 →
  wp (process_ref p) s (λ _ s', inv v s' (bump e p 1) h ∧ same_cores (λ _, True) s s' ∧ same_globals s s' ∧ objects s' = objects s ∧ futex_initialized s' = futex_initialized s).
Proof.
  intros Hi Hp Hs Hn. eapply wp_mono; [apply wp_and; [by eapply ref_spec|]|].
  - instantiate (1 := λ _ s', objects s' = objects s ∧ futex_initialized s' = futex_initialized s). apply wp_bind, (wp_get p x); [done|]. apply wp_upd; [by exists x|done].
  - cbn beta. tauto.
Qed.

(** A blocking call, up to the point where the caller loses the processor or has
    been chosen itself. *)
Definition blocks (o : Z) (k : after) (x : process) (v : view) (s : state) (e : Z → Z) (b : bool) (s' : state) : Prop :=
  ∃ v1 s1 v' nx s2, entered o (current s) x v s e v1 s1 ∧ picked v1 s1 e (current s) nx v' s2 ∧ parked (current s) o k e nx v' s2 b s'.

Lemma entered_sleep o x v s e v1 s1 d x1 : let p := current s in entered o p x v s e v1 s1 → SL v1 = SL v → p ∉ SL v → procs s1 !! p = Some x1 → o = SLEEP →
  wp (upd p (set_wake_deadline d);; sleep_list_push p) s1 (λ _ s2, ∃ v2, entered o p x v s e v2 s2).
Proof.
  intros p (Hi1 & Hm & HQ & HW & HWo & Hc & Ht & y & Hy & Y1 & Y2 & Y3 & Y4) HS Hno Hx1 Ho. assert (y = x1) as -> by congruence. apply wp_bind, wp_upd; [by exists x1|]. set (s2 := put_procs _ s1).
  assert (Hi2 : inv v1 s2 e p) by (apply inv_plain; [by intros z|done|by exists x1]). assert (Hx2 : procs s2 !! p = Some (set_wake_deadline d x1)) by (cbn; by rewrite lookup_alter_eq, Hx1).
  eapply wp_mono; [apply (push_spec v1 s2 e p _ Hi2 Hx2); by rewrite HS|]. cbn beta. intros _ s3 (Hi3 & Hc3 & Hg3). exists (put_SL v1 (p :: SL v1)). destruct (core_of _ _ _ _ Hc3 Hx2) as (x3 & Hx3 & E3). apply core_fields in E3. cbn in E3.
  split_and!; try done.
  - eapply mild_trans; [exact Hm|]. eapply mild_trans; [apply calm_mild, (calm_upd v1 s1 p (set_wake_deadline d) x1 Hx1); unfold steady, kept; cbn; tauto|]. apply calm_mild. destruct (calm_cores v1 s2 s3 Hc3 Hg3). by split.
  - intros q Hq. rewrite (Hc3 q I). cbn [s2 procs put_procs]. rewrite core_alter_ne by done. by apply Hc.
  - destruct Hg3 as (_ & _ & _ & E). by rewrite E.
  - exists x3. split_and!; try done; naive_solver congruence.
Qed.

Lemma entered_park o k x v s e v1 s1 : let p := current s in entered o p x v s e v1 s1 → p ≠ idle_thread s → waits_at x o → (p ∈ SL v1 → o = SLEEP) →
  wp (park o p k) s1 (λ b s', ∃ v' nx s2, picked v1 s1 e p nx v' s2 ∧ parked p o k e nx v' s2 b s').
Proof.
  intros p (Hi1 & Hm & HQ & HW & HWo & Hc & Ht & y & Hy & Y1 & Y2 & Y3 & Y4) Hidle Hat Hsl. destruct (c_rest Hm) as (C1 & C2 & C3).
  pose proof (park_spec v1 s1 e o k y) as H. cbv zeta in H. rewrite C2, C3 in H. fold p in H. apply H; try done; [unfold waits_at in *; by rewrite Y4|by right|]. intros Hin. rewrite Y2. by apply Hsl.
Qed.

Lemma block_spec v s e n o deadline k x : inv v s e 0 → current s ≠ idle_thread s → procs s !! current s = Some x → wait_on x = 0 → waits_at x o → small n e → n ≤ 98 →
  (deadline ≠ 0 → o = SLEEP) → (futex_initialized s = 0 → ¬ 1 ≤ o < SLEEP) → is_Some (objects s !! o) →
  wp (wait_object_block o deadline k) s (λ b s', blocks o k x v s e b s').
Proof.
  intros Hi Hidle Hx Hw Hat Hs Hn Hd Hfut Ho. set (p := current s) in *. pose proof (not_sleeping _ _ _ _ _ Hi Hx Hw) as Hno. unfold wait_object_block.
  eapply wp_use; [by eapply init_calm|]. cbn beta. intros _ s1 (Hi1 & Hc1 & Hp1 & Hf1 & Hg1 & w' & Hw' & Hini). pose proof Hg1 as (G1 & G2 & G3 & G4). apply wp_bind, wp_read. rewrite G2. fold p.
  eapply wp_use; [apply (ref_full v s1 e 0 n p x Hi1); [by rewrite Hp1|done|lia]|]. cbn beta. intros _ s2 (Hi2 & Hc2 & Hg2 & Ho2 & Hf2).
  assert (Hx1 : procs s1 !! p = Some x) by by rewrite Hp1. destruct (core_of _ _ _ _ Hc2 Hx1) as (x2 & Hx2 & E2). pose proof (steady_core _ _ E2) as [Hk _]. apply core_fields in E2 as F2.
  eapply wp_use; [apply (enter_link v s s2 e o x x2); try done|].
  - intros q _. rewrite (Hc2 q I). by rewrite Hp1.
  - by eapply same_globals_trans.
  - naive_solver congruence.
  - naive_solver congruence.
  - unfold waits_at in *. destruct Hk as (_ & _ & -> & _). done.
  - by rewrite Hf2, Hf1.
  - exists w'. rewrite Ho2, Hw', lookup_insert_eq. done.
  - cbn beta. fold p. intros _ s3 (v3 & He3 & HS3 & _). pose proof He3 as (_ & _ & _ & _ & _ & _ & _ & x3 & Hx3 & _). apply wp_bind.
    assert (Hpark : ∀ s4 v4, entered o p x v s e v4 s4 → (p ∈ SL v4 → o = SLEEP) → wp (park o p k) s4 (λ b s', blocks o k x v s e b s')).
    { intros s4 v4 He4 Hsl. eapply wp_mono; [by apply (entered_park o k x v s e v4 s4)|]. cbn beta. intros b s' (v' & nx & s5 & H1 & H2). by exists v4, s4, v', nx, s5. }
    apply wp_when; intros Hz; [apply negb_true_iff, Z.eqb_neq in Hz|].
    + eapply wp_mono; [by apply (entered_sleep o x v s e v3 s3 deadline x3); auto|]. cbn beta. intros _ s4 (v4 & He4). apply (Hpark s4 v4 He4). auto.
    + apply (Hpark s3 v3 He3). by rewrite HS3.
Qed.

End SchedBlock.
