(* ===== verification/SchedRank.v ===== *)
(** * A measure of how long a ready process can wait

    A process leaves the active array for the processor, and comes back to it by
    yielding at most as often as its boost allows; the expired array becomes the
    active one when that has run empty.  The measure bounds the number of
    context switches in front of a queued process. *)

From S2P Require Import Prelude Errno Links Pcb Sched WaitObj SchedInv SchedQueue SchedOps SchedReady SchedPick SchedWait SchedWake SchedBlock.
Import Links Pcb Sched WaitObj SchedInv SchedQueue SchedOps SchedReady SchedPick SchedSwitch SchedWait SchedWake SchedBlock.

Module SchedRank.
Local Open Scope Z_scope.

Definition boost_of (s : state) (q : Z) : Z := from_option yield_boost 0 (procs s !! q).

Definition total (f : Z → Z) (l : list Z) : Z := foldr (λ q n, f q + n) 0 l.

(** The services that the active array can still give, with those that the boost
    of the running process allows. *)
Definition potential (v : view) (s : state) : Z := total (λ q, 1 + boost_of s q) (members (Q v (active s))) + boost_of s (current s).

(** A bound of the potential: 256 processes, a boost of 10. *)
Definition LIMIT : Z := 256 * 11 + 10.

Definition rank (p : Z) (v : view) (s : state) : Z := (if decide (p ∈ members (Q v (active s))) then 0 else LIMIT + 1) + potential v s.

Definition is_queued (v : view) (p : Z) : Prop := ∃ r k, p ∈ Q v r k.

(** ** Sums *)

Lemma total_app f l1 l2 : total f (l1 ++ l2) = total f l1 + total f l2.
Proof. induction l1 as [|q l1 IH]; cbn; [done|]. unfold total in *. rewrite IH. lia. Qed.

#[global] Instance total_perm f : Proper ((≡ₚ) ==> (=)) (total f).
Proof. intros l1 l2. unfold total. induction 1; cbn; lia. Qed.

Lemma total_le f g l : (∀ q, q ∈ l → f q ≤ g q) → total f l ≤ total g l.
Proof.
  induction l as [|q l IH]; intros H; cbn; [done|]. pose proof (H q ltac:(left)). unfold total in IH. specialize (IH (λ z Hz, H z (list_elem_of_further _ _ _ Hz))). lia.
Qed.

Lemma total_bound f n l : (∀ q, q ∈ l → f q ≤ n) → total f l ≤ n * Z.of_nat (length l).
Proof.
  induction l as [|q l IH]; intros H; cbn [total foldr length]; [lia|]. pose proof (H q ltac:(left)). unfold total in IH. specialize (IH (λ z Hz, H z (list_elem_of_further _ _ _ Hz))). lia.
Qed.

(** ** Bounds *)

Lemma boost_range_of v s e h q : inv v s e h → 0 ≤ boost_of s q ≤ 10.
Proof. intros Hi. unfold boost_of. destruct (procs s !! q) as [x|] eqn:E; cbn; [|lia]. apply (po_boost _ _ _ _ _ _ _ (i_procs _ _ _ _ Hi q x E)). Qed.

Lemma total_nonneg v s e h l : inv v s e h → 0 ≤ total (λ q, 1 + boost_of s q) l.
Proof. intros Hi. induction l as [|q l IH]; cbn; [done|]. unfold total in IH. pose proof (boost_range_of v s e h q Hi). lia. Qed.

Lemma total_length v s e h l : inv v s e h → Z.of_nat (length l) ≤ total (λ q, 1 + boost_of s q) l.
Proof. intros Hi. induction l as [|q l IH]; cbn [length total foldr]; [lia|]. unfold total in IH. pose proof (boost_range_of v s e h q Hi). lia. Qed.

(** There are at most 256 processes. *)
Lemma procs_bound v s e h : inv v s e h → (size (procs s) ≤ 256)%nat.
Proof.
  intros Hi. destruct (i_table _ _ _ _ Hi) as [[L1 _] Hp _ _].
  rewrite <- size_dom. transitivity (size (list_to_set (C := gset Z) (process_table s))).
  - apply subseteq_size. intros q [x Hx]%elem_of_dom. apply elem_of_list_to_set. destruct (Hp q (pid x)) as [_ Ht]; [by rewrite lookup_fmap, Hx|]. by eapply list_elem_of_lookup_2.
  - rewrite <- L1. clear. induction (process_table s) as [|a l IH]; cbn; [by rewrite size_empty|]. pose proof (size_union_alt {[a]} (list_to_set l : gset Z)) as E. rewrite E, size_singleton.
    assert (size ((list_to_set l : gset Z) ∖ {[a]}) ≤ size (list_to_set l : gset Z))%nat by (apply subseteq_size; set_solver). lia.
Qed.

Lemma members_bound v s e h r : inv v s e h → (length (members (Q v r)) ≤ 256)%nat.
Proof.
  intros Hi. pose proof (queued_bound _ _ _ _ Hi) as Hq. pose proof (procs_bound _ _ _ _ Hi) as Hp. unfold fuel_of, queued in Hq. destruct r; lia.
Qed.

Lemma potential_bound v s e h : inv v s e h → 0 ≤ potential v s ≤ LIMIT.
Proof.
  intros Hi. unfold potential, LIMIT. pose proof (boost_range_of v s e h (current s) Hi). pose proof (members_bound v s e h (active s) Hi). pose proof (total_nonneg v s e h (members (Q v (active s))) Hi).
  assert (total (λ q, 1 + boost_of s q) (members (Q v (active s))) ≤ 11 * Z.of_nat (length (members (Q v (active s))))). { apply total_bound. intros q _. pose proof (boost_range_of v s e h q Hi). lia. } lia.
Qed.

Lemma rank_bound p v s e h : inv v s e h → 0 ≤ rank p v s ≤ 2 * LIMIT + 1.
Proof. intros Hi. pose proof (potential_bound v s e h Hi). unfold rank. destruct (decide _); unfold LIMIT in *; lia. Qed.

(** ** Steps *)

Definition moved (s s' : state) : Z := if decide (current s' = current s) then 0 else 1.

(** Nothing becomes ready, and the measure of what stays ready does not grow. *)
Definition ebb (v : view) (s : state) (v' : view) (s' : state) : Prop := ∀ p, is_queued v' p → is_queued v p ∧ rank p v' s' + moved s s' ≤ rank p v s.

(** What was ready stays ready, the running process apart. *)
Definition gain (v : view) (s : state) (v' : view) (s' : state) : Prop := current s' = current s ∧ ∀ p, p ≠ current s → is_queued v p → is_queued v' p ∧ rank p v' s' ≤ rank p v s.

Definition flow (v : view) (s : state) (v' : view) (s' : state) : Prop := ∀ p, p ≠ current s → is_queued v p → is_queued v' p → rank p v' s' + moved s s' ≤ rank p v s.

Lemma moved_refl s : moved s s = 0.
Proof. unfold moved. by rewrite decide_True. Qed.

Lemma moved_trans s1 s2 s3 : moved s1 s3 ≤ moved s1 s2 + moved s2 s3.
Proof. unfold moved. repeat case_decide; lia || congruence. Qed.

Lemma moved_same s s' : current s' = current s → moved s s' = 0.
Proof. intros H. unfold moved. by rewrite decide_True. Qed.

Lemma ebb_refl v s : ebb v s v s.
Proof. intros p Hp. split; [done|]. rewrite moved_refl. lia. Qed.

Lemma ebb_trans v1 s1 v2 s2 v3 s3 : ebb v1 s1 v2 s2 → ebb v2 s2 v3 s3 → ebb v1 s1 v3 s3.
Proof. intros H1 H2 p Hp. destruct (H2 p Hp) as [Hp2 E2]. destruct (H1 p Hp2) as [Hp1 E1]. split; [done|]. pose proof (moved_trans s1 s2 s3). lia. Qed.

Lemma gain_refl v s : gain v s v s.
Proof. split; [done|]. intros p _ Hp. split; [done|lia]. Qed.

Lemma gain_trans v1 s1 v2 s2 v3 s3 : gain v1 s1 v2 s2 → gain v2 s2 v3 s3 → gain v1 s1 v3 s3.
Proof. intros [C1 H1] [C2 H2]. split; [congruence|]. intros p Hn Hp. destruct (H1 p Hn Hp) as [Hp2 E2]. destruct (H2 p ltac:(congruence) Hp2) as [Hp1 E1]. split; [done|lia]. Qed.

Lemma flow_intro v s v1 s1 v' s' : gain v s v1 s1 → ebb v1 s1 v' s' → flow v s v' s'.
Proof. intros [C H1] H2 p Hn Hp Hp'. destruct (H1 p Hn Hp) as [_ E1]. destruct (H2 p Hp') as [_ E2]. unfold moved in *. rewrite C in E2. lia. Qed.

Lemma flow_gain v s v1 s1 v' s' : gain v s v1 s1 → flow v1 s1 v' s' → flow v s v' s'.
Proof. intros [C H1] H2 p Hn Hp Hp'. destruct (H1 p Hn Hp) as [Hp1 E1]. specialize (H2 p ltac:(congruence) Hp1 Hp'). unfold moved in *. rewrite C in H2. lia. Qed.

Lemma ebb_flow v s v' s' : ebb v s v' s' → flow v s v' s'.
Proof. apply flow_intro, gain_refl. Qed.

Lemma gain_flow v s v' s' : gain v s v' s' → flow v s v' s'.
Proof. intros H. eapply flow_intro; [exact H|apply ebb_refl]. Qed.

Lemma boost_le v s e h s' q : inv v s e h → (∀ y, procs s' !! q = Some y → ∃ x, procs s !! q = Some x ∧ yield_boost y ≤ yield_boost x) → boost_of s' q ≤ boost_of s q.
Proof.
  intros Hi H. pose proof (boost_range_of v s e h q Hi). unfold boost_of in *. destruct (procs s' !! q) as [y|]; [|cbn; lia]. destruct (H y eq_refl) as (x & Hx & E). rewrite Hx. done.
Qed.

Lemma members_same (L L' : nat → list Z) : (∀ k, L' k = L k) → members L' = members L.
Proof. intros H. unfold members. f_equal. apply list_fmap_ext. intros. apply H. Qed.

Lemma gain_gains R v s e h v' s' : inv v s e h → (∀ x y, R x y → yield_boost y = yield_boost x) → gains R v s v' s' → gain v s v' s'.
Proof.
  intros Hi HR [(C1 & C2 & C3) HA HE Hd Hp]. split; [done|]. intros p _ (r & k & Hq). split.
  - exists r, k. destruct (decide (r = active s)) as [->|Hr]; [by rewrite HA|]. assert (r = negb (active s)) as -> by (by destruct r, (active s)). by apply HE.
  - unfold rank, potential. rewrite C1, C2, (members_same (Q v (active s)) (Q v' (active s))) by done.
    assert (Hb : ∀ q, boost_of s' q ≤ boost_of s q). { intros q. apply (boost_le v s e h); [done|]. intros y Hy. destruct (Hd q) as [x Hx]; [by exists y|]. exists x. split; [done|]. by rewrite (HR x y) by by eapply Hp. }
    pose proof (Hb (current s)). assert (total (λ q, 1 + boost_of s' q) (members (Q v (active s))) ≤ total (λ q, 1 + boost_of s q) (members (Q v (active s)))) by (apply total_le; intros q _; specialize (Hb q); lia). lia.
Qed.

Lemma total_sub f l l' : (∀ q, 0 ≤ f q) → NoDup l → (∀ q, q ∈ l → q ∈ l') → total f l ≤ total f l'.
Proof.
  intros Hf Hd Hs. assert (Hm : l ⊆+ l') by by apply NoDup_submseteq. apply submseteq_Permutation in Hm as [k ->].
  rewrite total_app. assert (0 ≤ total f k); [|lia]. clear -Hf. induction k as [|q k IH]; cbn; [done|]. unfold total in IH. specialize (Hf q). lia.
Qed.

Lemma is_queued_level v s e h p r k : inv v s e h → p ∈ Q v r k → (k < levels)%nat.
Proof. intros Hi Hp. destruct (decide (k < levels)%nat) as [|Hn]; [done|]. rewrite (q_none _ _ _ (i_rq _ _ _ _ Hi r) k) in Hp by lia. set_solver. Qed.

Lemma in_members v s e h p r : inv v s e h → p ∈ members (Q v r) ↔ ∃ k, p ∈ Q v r k.
Proof. intros Hi. rewrite elem_members. split; [naive_solver|]. intros (k & Hk). exists k. split; [by eapply is_queued_level|done]. Qed.

(** ** Steps that take processes out *)

(** The queues lose processes, and the boosts stay. *)
Lemma ebb_less v s e h v' s' e' h' : inv v s e h → inv v' s' e' h' → active s' = active s → current s' = current s → (∀ r k q, q ∈ Q v' r k → q ∈ Q v r k) →
  (∀ q y, procs s' !! q = Some y → ∃ x, procs s !! q = Some x ∧ yield_boost y ≤ yield_boost x) → ebb v s v' s'.
Proof.
  intros Hi Hi' C1 C2 HQ Hb p (r & k & Hp). split; [exists r, k; auto|]. rewrite moved_same by done. unfold rank, potential. rewrite C1, C2.
  assert (Hbo : ∀ q, boost_of s' q ≤ boost_of s q) by (intros q; apply (boost_le v s e h); auto). pose proof (Hbo (current s)).
  assert (Hsub : ∀ q, q ∈ members (Q v' (active s)) → q ∈ members (Q v (active s))).
  { intros q. rewrite (in_members v' s' e' h'), (in_members v s e h) by done. intros (j & Hj). eauto. }
  assert (total (λ q, 1 + boost_of s' q) (members (Q v' (active s))) ≤ total (λ q, 1 + boost_of s q) (members (Q v (active s)))).
  { transitivity (total (λ q, 1 + boost_of s q) (members (Q v' (active s)))); [apply total_le; intros q _; specialize (Hbo q); lia|]. apply total_sub; [intros q; pose proof (boost_range_of v s e h q Hi); lia|by eapply members_nodup|done]. }
  assert (Hdec : (p ∈ members (Q v (active s))) → p ∈ members (Q v' (active s))).
  { rewrite (in_members v' s' e' h'), (in_members v s e h) by done. intros (j & Hj). destruct (i_disj _ _ _ _ Hi r k (active s) j p) as [-> ->]; [auto|done|eauto]. }
  unfold LIMIT. repeat case_decide; try lia; naive_solver.
Qed.

Lemma ebb_gains R v s e h v' s' e' h' : inv v s e h → inv v' s' e' h' → (∀ x y, R x y → yield_boost y = yield_boost x) → gains R v s v' s' → Q v' = Q v → ebb v s v' s'.
Proof.
  intros Hi Hi' HR [(C1 & C2 & C3) _ _ Hd Hp] HQ. eapply (ebb_less v s e h v' s' e' h'); try done; [intros r k q; by rewrite HQ|].
  intros q y Hy. destruct (Hd q) as [x Hx]; [by exists y|]. exists x. split; [done|]. rewrite (HR x y) by by eapply Hp. done.
Qed.

Lemma ebb_cores v s e h s' e' h' : inv v s e h → inv v s' e' h' → same_cores (λ _, True) s s' → same_globals s s' → ebb v s v s'.
Proof. intros Hi Hi' Hc Hg. eapply (ebb_gains steady v s e h v s' e' h'); try done; [by intros x y [(_ & _ & _ & ? & _) _]|by apply calm_cores]. Qed.

Lemma ebb_dropped v s e h s' e' h' p : inv v s e h → inv v s' e' h' → dropped p s s' → ebb v s v s'.
Proof. intros Hi Hi' Hd. eapply (ebb_gains steady v s e h v s' e' h'); try done; [by intros x y [(_ & _ & _ & ? & _) _]|by eapply calm_dropped]. Qed.

Lemma ebb_upd v s e h e' h' p f x : inv v s e h → procs s !! p = Some x → inv v (put_procs (alter f p (procs s)) s) e' h' → yield_boost (f x) = yield_boost x → ebb v s v (put_procs (alter f p (procs s)) s).
Proof.
  intros Hi Hp Hi' Hf. eapply (ebb_less v s e h v _ e' h'); try done. intros q y (z & Hz & [[-> ->]|[_ ->]])%lookup_alter_cases; [|by exists z]. exists z. split; [done|]. assert (z = x) as -> by congruence. lia.
Qed.

Lemma boosts_removed p x v v' s s' : removed p x v v' s s' → procs s !! p = Some x → ∀ q y, procs s' !! q = Some y → ∃ z, procs s !! q = Some z ∧ yield_boost y ≤ yield_boost z.
Proof.
  intros (Hc & _ & _ & _ & Hr) Hp q y Hy. destruct (decide (q = p)) as [->|Hq].
  - exists x. split; [done|]. destruct Hr as [(_ & _ & E)|(r & l1 & l2 & _ & _ & E)]; rewrite Hy in E; apply (inj Some), core_fields in E; cbn in E; naive_solver lia.
  - destruct (core_some _ _ _ _ _ Hc Hq Hy) as (z & Hz & E). exists z. split; [done|]. apply core_fields in E. naive_solver lia.
Qed.

Lemma ebb_removed v s e h v' s' e' h' p x : inv v s e h → inv v' s' e' h' → procs s !! p = Some x → removed p x v v' s s' → ebb v s v' s'.
Proof.
  intros Hi Hi' Hp Hr. pose proof Hr as (_ & (C1 & C2 & _) & _ & _ & Hcase). eapply (ebb_less v s e h v' s' e' h'); try done; [|by eapply boosts_removed].
  intros r k q. destruct Hcase as [(_ & -> & _)|(r' & l1 & l2 & Hl & -> & _)]; [done|]. rewrite elem_put_Q. intros [[E Hq]|[_ Hq]]; [|done]. assert (r = r') as -> by congruence. assert (k = level x) as -> by congruence. rewrite Hl. set_solver.
Qed.

(** ** Handing the processor over *)

Definition ebb1 (v : view) (s : state) (v' : view) (s' : state) : Prop := ∀ p, is_queued v' p → is_queued v p ∧ rank p v' s' + 1 ≤ rank p v s.

(** The running process takes its boost with it. *)
Definition ebbs (v : view) (s : state) (v' : view) (s' : state) : Prop := ∀ p, is_queued v' p → is_queued v p ∧ rank p v' s' + 1 + boost_of s (current s) ≤ rank p v s.

Lemma ebbs_ebb1 v s e h v' s' : inv v s e h → ebbs v s v' s' → ebb1 v s v' s'.
Proof. intros Hi H p Hp. destruct (H p Hp). split; [done|]. pose proof (boost_range_of v s e h (current s) Hi). lia. Qed.

Lemma ebb1_ebb v s v' s' : ebb1 v s v' s' → ebb v s v' s'.
Proof. intros H p Hp. destruct (H p Hp). split; [done|]. unfold moved. case_decide; lia. Qed.

Lemma moved_nonneg s s' : 0 ≤ moved s s'.
Proof. unfold moved. case_decide; lia. Qed.

Lemma ebb1_trans v1 s1 v2 s2 v3 s3 : ebb1 v1 s1 v2 s2 → ebb v2 s2 v3 s3 → ebb1 v1 s1 v3 s3.
Proof. intros H1 H2 p Hp. destruct (H2 p Hp) as [Hp2 E2]. destruct (H1 p Hp2) as [Hp1 E1]. split; [done|]. pose proof (moved_nonneg s2 s3). lia. Qed.

Lemma picked_core v s e h nx v' s1 q y : picked v s e h nx v' s1 → procs s1 !! q = Some y → ∃ x, procs s !! q = Some x ∧ yield_boost y = yield_boost x ∧ pc y = pc x ∧ pid y = pid x ∧ child_wait y = child_wait x.
Proof.
  intros (_ & _ & l1 & L1 & L2 & L3) Hy. destruct (decide (q ∈ l1)) as [Hq|Hq].
  - destruct (L1 q Hq) as [_ [E|(x & z & Hx & Hz & E)]]; [congruence|]. exists x. assert (z = y) as -> by congruence. apply core_fields in E. cbn in E. naive_solver.
  - destruct (decide (q = nx)) as [->|Hn]; [|destruct (core_some _ _ _ _ _ L2 (conj Hq Hn) Hy) as (x & Hx & E); exists x; apply core_fields in E; naive_solver].
    destruct L3 as [(_ & _ & _ & E & _)|(x & _ & _ & Hx & _ & E & _)]; rewrite Hy in E.
    + symmetry in E. apply fmap_Some in E as (x & Hx & E). exists x. apply core_fields in E. naive_solver.
    + apply (inj Some) in E. exists x. apply core_fields in E. unfold refill in E. destruct (_ =? 0) in E; cbn in E; naive_solver.
Qed.

Lemma pick_ebb v s e h nx v' s1 s' e' h' : inv v s e h → picked v s e h nx v' s1 → inv v' s' e' h' → active s' = active s1 → (nx ≠ idle_thread s → current s' = nx) →
  (∀ q y, procs s' !! q = Some y → ∃ x, procs s1 !! q = Some x ∧ yield_boost y ≤ yield_boost x) → ebbs v s v' s'.
Proof.
  intros Hi Hpick Hi' Ca Cc Hb p Hp. assert (Hps : p ∈ service v' (active s')) by (by apply (elem_service v' s' e' h')).
  pose proof (potential_bound v' s' e' h' Hi') as Hpot'. pose proof (potential_bound v s e h Hi) as Hpot.
  assert (Hbo : ∀ q, boost_of s' q ≤ boost_of s q).
  { intros q. apply (boost_le v s e h); [done|]. intros y Hy. destruct (Hb q y Hy) as (x & Hx & E). destruct (picked_core _ _ _ _ _ _ _ _ _ Hpick Hx) as (z & Hz & E' & _). exists z. split; [done|lia]. }
  destruct Hpick as (_ & (A1 & A2 & _) & l1 & _ & _ & [(_ & _ & E & _)|(x & Hn & Hsv & _ & _ & _ & (kn & Hkn) & _)]); rewrite <- Ca in *; [rewrite E in Hps; set_solver|].
  assert (Hd : NoDup (service v (active s))) by by eapply service_nodup. specialize (Cc Hn). destruct Hp as (r & k & Hp). pose proof (A1 r k p Hp) as Hpv. split; [by exists r, k|].
  assert (Hmem : ∀ a w t ee hh, inv w t ee hh → p ∈ Q w r k → p ∈ members (Q w a) ↔ a = r). { intros a w t ee hh Hw Hin. rewrite (in_members w t ee hh) by done. split; [|intros ->; by exists k]. intros (j & Hj). by destruct (i_disj _ _ _ _ Hw a j r k p Hj Hin). }
  assert (Hsame : active s' = active s → potential v' s' + 1 + boost_of s (current s) ≤ potential v s).
  { intros Ea. unfold potential. rewrite Ea, Cc. rewrite Ea in Hkn, Hsv. assert (Hnx : nx ∉ members (Q v' (active s))). { rewrite Hsv in Hd. apply NoDup_app in Hd as (_ & _ & Hd). apply NoDup_cons in Hd as [Hd _]. unfold service in Hd. set_solver. }
    assert (Ht : total (λ q, 1 + boost_of s' q) (nx :: members (Q v' (active s))) ≤ total (λ q, 1 + boost_of s q) (members (Q v (active s)))).
    { transitivity (total (λ q, 1 + boost_of s q) (nx :: members (Q v' (active s)))); [apply total_le; intros q _; specialize (Hbo q); lia|].
      apply total_sub; [intros q; pose proof (boost_range_of v s e h q Hi); lia|constructor; [done|by eapply members_nodup]|]. intros q [->|Hq]%elem_of_cons; [apply (in_members v s e h); [done|by exists kn]|].
      apply (in_members v' s' e' h') in Hq as (j & Hj); [|done]. apply (in_members v s e h); [done|]. exists j. auto. }
    cbn [total foldr] in Ht. fold (total (λ q, 1 + boost_of s' q) (members (Q v' (active s)))) in Ht. lia. }
  unfold rank. pose proof (Hmem (active s') v' s' e' h' Hi' Hp) as M'. pose proof (Hmem (active s) v s e h Hi Hpv) as M.
  destruct A2 as [Ea|[Ea Hnil]].
  - specialize (Hsame Ea). rewrite Ea in *. destruct (decide (p ∈ members (Q v' (active s)))), (decide (p ∈ members (Q v (active s)))); try lia; tauto.
  - assert (r ≠ active s) by (intros ->; rewrite Hnil in Hp; set_solver). rewrite decide_True by (apply M'; rewrite Ea; by destruct r, (active s)). rewrite decide_False by (intros Hx; apply M in Hx; congruence). pose proof (total_nonneg v s e h (members (Q v (active s))) Hi). unfold potential in *. unfold LIMIT in *. lia.
Qed.

Lemma boosts_switched p nx c s s' : switched p nx c s s' → ∀ q y, procs s' !! q = Some y → ∃ x, procs s !! q = Some x ∧ yield_boost y ≤ yield_boost x.
Proof.
  intros (Hc & (x & y & Hx & Hy & E) & Hp & _) q z Hz. destruct (decide (q = nx)) as [->|Hn].
  - exists x. split; [done|]. assert (z = y) as -> by congruence. apply core_fields in E. cbn in E. naive_solver lia.
  - destruct (decide (q = p)) as [->|Hq]; [|destruct (core_some _ _ _ _ _ Hc (conj Hq Hn) Hz) as (w & Hw & Ew); exists w; apply core_fields in Ew; naive_solver lia].
    destruct Hp as [?|(x' & y' & Hx' & Hy' & E')]; [congruence|]. exists x'. split; [done|]. assert (z = y') as -> by congruence. apply core_fields in E'. cbn in E'. naive_solver lia.
Qed.

Lemma switch_ebb v s e h nx v' s1 s' e' p c : inv v s e h → picked v s e h nx v' s1 → inv v' s' e' 0 → switched p nx c s1 s' → ebbs v s v' s'.
Proof.
  intros Hi Hpick Hi' Hsw. pose proof Hsw as (_ & _ & _ & C1 & C2 & _). eapply pick_ebb; try done. by eapply boosts_switched.
Qed.

Lemma parked_ebb v s e p o k nx v' s1 b s' : inv v s e p → p = current s → picked v s e p nx v' s1 → parked p o k e nx v' s1 b s' → ebbs v s v' s'.
Proof.
  intros Hi Hp Hpick [(_ & Hn & (Hc & (x & y & Hx & Hy & E) & Hg) & Hi')|[(_ & Hn & Hnp & Hsw & Hi')|(_ & -> & (x & Hx & ->) & Hi')]].
  - pose proof Hpick as ((_ & R2 & _) & _). pose proof Hg as (C1 & _). eapply pick_ebb; try done; [congruence|]. intros q z Hz. destruct (decide (q = p)) as [->|Hq].
    + exists x. split; [done|]. assert (z = y) as -> by congruence. apply core_fields in E. cbn in E. naive_solver lia.
    + destruct (core_some _ _ _ _ _ Hc Hq Hz) as (w & Hw & Ew). exists w. apply core_fields in Ew. naive_solver lia.
  - by eapply switch_ebb.
  - eapply pick_ebb; try done. intros q z (y & Hy & [[-> ->]|[_ ->]])%lookup_alter_cases; by exists y.
Qed.

End SchedRank.
