(* ===== verification/SchedCalls.v ===== *)
(** * The calls that hand the processor over keep the invariant

    Yield, [schedule], sleeping, and the end of a blocking call. *)

From S2P Require Import Prelude Errno Links Pcb Sched WaitObj Lifecycle SchedInv SchedQueue SchedOps SchedReady SchedPick SchedWait SchedWake SchedBlock SchedRank.
Import Links Pcb Sched WaitObj Lifecycle SchedInv SchedQueue SchedOps SchedReady SchedPick SchedSwitch SchedWait SchedWake SchedBlock SchedRank.

Module SchedCalls.
Local Open Scope Z_scope.

(** The state that a call leaves behind, with at most one more reference of a
    process that nothing accounts for. *)
Definition lands (R : view → state → view → state → Prop) (v : view) (s : state) (e : Z → Z) (s' : state) : Prop :=
  ∃ v' e', inv v' s' e' 0 ∧ (∀ q, e q ≤ e' q ≤ e q + 1) ∧ R v s v' s' ∧ current s' ≠ 0 ∧ idle_thread s' = idle_thread s.

Lemma lands_same (R : view → state → view → state → Prop) v s e v' s' : inv v' s' e 0 → R v s v' s' → current s' ≠ 0 → idle_thread s' = idle_thread s → lands R v s e s'.
Proof. intros Hi HR Hc Hd. exists v', e. split_and!; try done. intros q. lia. Qed.

Lemma lands_mono (R R' : view → state → view → state → Prop) v s e s' : (∀ v' s', R v s v' s' → R' v s v' s') → lands R v s e s' → lands R' v s e s'.
Proof. intros H (v' & e' & H1 & H2 & H3 & H4). exists v', e'. split_and!; try done; [by apply H|by destruct H4..]. Qed.

Lemma live_ne v s e h p x : inv v s e h → procs s !! p = Some x → p ≠ 0.
Proof. intros Hi Hp. eapply po_addr. by apply (i_procs _ _ _ _ Hi). Qed.

Lemma live_current v s e h : inv v s e h → current s ≠ 0 → ∃ x, procs s !! current s = Some x.
Proof. intros Hi Hc. destruct (i_current _ _ _ _ Hi) as [?|[x Hx]]; [done|by exists x]. Qed.

(** ** After the choice *)

(** The caller is in no list that its stack does not show. *)
Lemma pc_stays v s e p x : inv v s e 0 → procs s !! p = Some x → pc_ok 0 p (set_pc (pc x) x) ∧ (p ∈ SL v → wait_on x = SLEEP).
Proof.
  intros Hi Hx. destruct (i_procs _ _ _ _ Hi p x Hx). split; [by destruct x|]. intros Hin. destruct (po_sleep0 Hin); [done|done].
Qed.

(** The caller gives the processor to another process. *)
Lemma hand_over v s e nx v' s1 x y c : let p := current s in inv v s e 0 → p ≠ idle_thread s → procs s !! p = Some x → picked v s e 0 nx v' s1 → nx ≠ p → procs s1 !! p = Some y → c = pc x →
  wp (switch_to p nx c) s1 (λ _ s', inv v' s' e 0 ∧ ebbs v s v' s' ∧ current s' ≠ 0 ∧ idle_thread s' = idle_thread s).
Proof.
  intros p Hi Hidle Hx Hpick Hn Hy ->. destruct (picked_inv _ _ _ _ _ _ _ Hpick) as [Hi1 [z Hz]]. pose proof Hpick as ((R1 & R2 & R3) & _).
  destruct (picked_core _ _ _ _ _ _ _ _ _ Hpick Hy) as (x' & Hx' & _ & Epc & _). assert (x' = x) as -> by congruence. rewrite <- Epc. destruct (pc_stays v' s1 _ p y Hi1 Hy) as [P1 P2].
  pose proof (switch_spec v' s1 e 0 nx (pc y) y) as Hsw. cbv zeta in Hsw. rewrite R1 in Hsw. eapply wp_mono; [apply Hsw; try done; [by rewrite R2|intros q; apply (i_extra _ _ _ _ Hi)|by left]|].
  cbn beta. intros _ s' [Hi' Hs']. split; [done|]. split; [by eapply switch_ebb|]. pose proof Hs' as (_ & (w & w' & _ & Hw' & _) & _ & _ & -> & -> & _). split; [by eapply live_ne|done].
Qed.

(** The caller was chosen itself. *)
Lemma chosen_self v s e nx v' s1 : let p := current s in inv v s e 0 → p ≠ idle_thread s → p ≠ 0 → picked v s e 0 nx v' s1 → nx = p →
  wp (process_unref p) s1 (λ _ s', inv v' s' e 0 ∧ ebbs v s v' s' ∧ same_cores (λ _, True) s1 s' ∧ current s' ≠ 0 ∧ idle_thread s' = idle_thread s).
Proof.
  intros p Hi Hidle Hp0 Hpick ->. destruct (picked_inv _ _ _ _ _ _ _ Hpick) as [Hi1 [z Hz]]. pose proof Hpick as ((R1 & R2 & R3) & _). unfold give in Hi1. rewrite decide_False in Hi1 by by rewrite R2.
  eapply wp_mono; [apply (unref_kept v' s1 _ 0 p z Hi1 Hz)|].
  - rewrite bump_eq. pose proof (i_extra _ _ _ _ Hi p). lia.
  - done.
  - left. pose proof (running_kept v' s1 _ _ z Hi1) as Hk. rewrite R1, R2 in *. by apply Hk.
  - cbn beta. intros _ s' (Hi' & Hc' & (C1 & C2 & C3 & _)). apply bump_back in Hi'. split; [done|]. split; [|split_and!; [done|by rewrite C2, R1|congruence]]. eapply pick_ebb; try done; [intros _; by rewrite C2, R1|].
    intros q y Hy. destruct (core_some _ _ _ _ _ Hc' I Hy) as (w & Hw & E). exists w. apply core_fields in E. naive_solver lia.
Qed.

(** ** Yield *)

Lemma total_same f g l : (∀ q, q ∈ l → f q = g q) → total f l = total g l.
Proof. intros H. apply Z.le_antisymm; apply total_le; intros q Hq; rewrite H; done. Qed.

Lemma boost_same s s' q : core <$> procs s' !! q = core <$> procs s !! q → boost_of s' q = boost_of s q.
Proof.
  intros E. unfold boost_of. destruct (procs s' !! q) as [x|], (procs s !! q) as [y|]; try done. cbn in *. apply (inj Some), core_fields in E. naive_solver.
Qed.

Lemma yield_gain v s e v' s' x : inv v s e 0 → inv v' s' e 0 → procs s !! current s = Some x →
  added (if 0 <? yield_boost x then active s else negb (active s)) (yielded x) (current s) x v v' s s' →
  ∀ p, is_queued v p → is_queued v' p ∧ rank p v' s' ≤ rank p v s + boost_of s' (current s').
Proof.
  intros Hi Hi' Hx (Hc & (C1 & C2 & _) & _ & _ & [(_ & -> & E)|(_ & Hq & -> & E)]) p Hp; rewrite C2; pose proof (boost_range_of _ _ _ _ (current s) Hi') as Hr.
  - split; [done|]. assert (Hb : ∀ q, boost_of s' q = boost_of s q). { intros q. apply boost_same. destruct (decide (q = current s)) as [->|Hq]; [by rewrite E, Hx|by apply Hc]. }
    unfold rank, potential. rewrite C1, C2, Hb, (total_same (λ q, 1 + boost_of s' q) (λ q, 1 + boost_of s q)) by (intros q _; by rewrite Hb). rewrite Hb in Hr. lia.
  - pose proof (queued_in _ _ _ _ _ _ Hi Hx Hq) as Hno. set (k := level x) in *. set (c := current s) in *.
    assert (Hb : ∀ q, q ≠ c → boost_of s' q = boost_of s q) by (intros q Hqc; apply boost_same; by apply Hc).
    assert (Hbc : boost_of s' c = if 0 <? yield_boost x then yield_boost x - 1 else priority_yield_boost (priority x)).
    { unfold boost_of. apply fmap_Some in E as (y & -> & E). apply core_fields in E. cbn in *. destruct (0 <? yield_boost x); naive_solver. }
    assert (Hbx : boost_of s c = yield_boost x) by (unfold boost_of; by rewrite Hx). pose proof (boost_range_of _ _ _ _ c Hi) as Hrx. destruct (members_split (Q v (active s)) k (level_range x)) as (R & HR1 & HR2).
    assert (Hin : ∀ r j, p ∈ Q v r j → p ∈ Q (appended v (if 0 <? yield_boost x then active s else negb (active s)) k c) r j).
    { intros r j Hj. unfold appended. rewrite elem_put_Q. destruct (decide ((r, j) = ((if 0 <? yield_boost x then active s else negb (active s)), k))) as [Ek|Ek]; [left|by right]. split; [done|]. injection Ek as -> ->. set_solver. }
    destruct Hp as (r & j & Hj). split; [exists r, j; by apply Hin|]. unfold rank, potential. rewrite C1, C2. fold c. destruct (Z.ltb_spec 0 (yield_boost x)) as [Hpos|Hpos].
    + unfold appended. rewrite put_Q_eq. specialize (HR2 (Q v (active s) k ++ [c])). rewrite <- (assoc_L app), (comm app [c]), (assoc_L app), <- HR1 in HR2.
      assert (Ht : ∀ f, total f (members (put_level (Q v (active s)) k (Q v (active s) k ++ [c]))) = total f (members (Q v (active s))) + f c) by (intros f; rewrite HR2, total_app; cbn; lia). rewrite Ht.
      assert (Hnm : c ∉ members (Q v (active s))) by (rewrite (in_members v s e 0) by done; intros (i & Hii); by apply (Hno (active s) i)).
      rewrite (total_same (λ q, 1 + boost_of s' q) (λ q, 1 + boost_of s q)) by (intros q Hqm; rewrite Hb; [done|]; by intros ->).
      assert (Hdec : p ∈ members (Q v (active s)) → p ∈ members (put_level (Q v (active s)) k (Q v (active s) k ++ [c]))) by (rewrite HR2; set_solver).
      unfold LIMIT. repeat case_decide; lia || tauto.
    + unfold appended. rewrite put_Q_ne by (by destruct (active s)).
      assert (Hnm : c ∉ members (Q v (active s))) by (rewrite (in_members v s e 0) by done; intros (i & Hii); by apply (Hno (active s) i)).
      rewrite (total_same (λ q, 1 + boost_of s' q) (λ q, 1 + boost_of s q)) by (intros q Hqm; rewrite Hb; [done|]; by intros ->). lia.
Qed.

(** Every process that is ready before and after comes closer. *)
Definition closer (v : view) (s : state) (v' : view) (s' : state) : Prop := ∀ p, p ≠ current s → is_queued v p → is_queued v' p → rank p v' s' + 1 ≤ rank p v s.

Lemma closer_flow v s v' s' : closer v s v' s' → flow v s v' s'.
Proof. intros H p Hn Hp Hp'. specialize (H p Hn Hp Hp'). unfold moved. case_decide; lia. Qed.

Lemma yield_spec v s e n x : inv v s e 0 → current s ≠ idle_thread s → procs s !! current s = Some x → small n e → n ≤ 98 → wp sys_yield s (λ _ s', lands closer v s e s').
Proof.
  intros Hi Hidle Hx Hs Hn. assert (Hc0 : current s ≠ 0) by by eapply live_ne. unfold sys_yield. apply wp_bind, wp_read. destruct (Z.eqb_spec (current s) 0); [done|].
  eapply wp_use; [apply (yield_requeue_spec v s e 0 n (current s) x); try done; lia|]. cbn beta. intros _ s1 (v1 & Hi1 & Ha). pose proof Ha as (_ & (G1 & G2 & G3 & _) & _ & _ & Hca).
  pose proof (yield_gain v s e v1 s1 x Hi Hi1 Hx Ha) as Hg. assert (is_Some (procs s1 !! current s)) as [x1 Hx1].
  { destruct Hca as [(_ & _ & E)|(_ & _ & _ & E)]; apply fmap_Some in E as (z & Hz & _); by exists z. }
  assert (Hfin : ∀ v' s', ebbs v1 s1 v' s' → closer v s v' s'). { intros v' s' He p _ Hp Hp'. destruct (He p Hp') as [_ E]. destruct (Hg p Hp) as [_ E']. lia. }
  eapply wp_use; [apply (pick_spec v1 s1 e 0 Hi1); by left|]. cbn beta. intros nx s2 (v2 & Hpick). apply wp_bind. destruct (Z.eqb_spec nx (current s)) as [En|En]; cbn [negb].
  - pose proof (chosen_self v1 s1 e nx v2 s2) as H. cbv zeta in H. rewrite G2, G3 in H. eapply wp_mono; [by apply H|]. cbn beta. intros _ s' (H1 & H2 & _ & H4 & H5). apply wp_ret. eapply lands_same; eauto.
  - assert (Hlive : ∃ y, procs s2 !! current s = Some y). { destruct (picked_inv _ _ _ _ _ _ _ Hpick) as [Hi2 _]. pose proof Hpick as ((R1 & _) & _). destruct (live_current _ _ _ _ Hi2) as [y Hy]; [by rewrite R1, G2|]. exists y. by rewrite R1, G2 in Hy. }
    destruct Hlive as [y Hy]. apply wp_bind, (wp_get _ y); [done|]. destruct (picked_core _ _ _ _ _ _ _ _ _ Hpick Hy) as (x' & Hx' & _ & Epc & _). assert (x' = x1) as -> by congruence.
    pose proof (hand_over v1 s1 e nx v2 s2 x1 y (pc y)) as H. cbv zeta in H. rewrite G2, G3 in H. eapply wp_mono; [by apply H|]. cbn beta. intros _ s' (H1 & H2 & H4 & H5). apply wp_ret. eapply lands_same; eauto.
Qed.

(** ** [schedule] *)

Lemma boost_kept (R : process → process → Prop) : (∀ x y, R x y → kept x y) → ∀ x y, R x y → yield_boost y = yield_boost x.
Proof. intros H x y Hr. by destruct (H x y Hr) as (_ & _ & _ & ? & _). Qed.

Lemma gain_calm v s e h v' s' : inv v s e h → calm v s v' s' → gain v s v' s'.
Proof. intros Hi. apply (gain_gains steady v s e h); [done|]. apply boost_kept. by intros x y [? _]. Qed.

Lemma gain_mild v s e h v' s' : inv v s e h → mild v s v' s' → gain v s v' s'.
Proof. intros Hi. apply (gain_gains kept v s e h); [done|]. by apply boost_kept. Qed.

Lemma pick_not_terminated v s e h nx v' s' x : picked v s e h nx v' s' → procs s !! nx = Some x → nx ≠ idle_thread s → pstate x ≠ PROCESS_TERMINATED.
Proof. intros (_ & _ & l1 & _ & _ & [(? & _)|(y & _ & _ & Hy & Ht & _)]) Hx Hn; [done|congruence]. Qed.

Lemma schedule_spec v s e n x : inv v s e 0 → current s ≠ idle_thread s → procs s !! current s = Some x → small n e → n ≤ 98 → wp schedule s (λ _ s', lands flow v s e s').
Proof.
  intros Hi Hidle Hx Hs Hn. assert (Hc0 : current s ≠ 0) by by eapply live_ne. unfold schedule. apply wp_bind, wp_read. destruct (Z.eqb_spec (current s) 0); [done|]. apply wp_bind, (wp_get _ x); [done|].
  assert (Hlive : ∀ s1 v1 nx v2 s2, inv v1 s1 e 0 → current s1 = current s → picked v1 s1 e 0 nx v2 s2 → ∃ y, procs s2 !! current s = Some y).
  { intros s1 v1 nx v2 s2 Hi1 C Hpick. destruct (picked_inv _ _ _ _ _ _ _ Hpick) as [Hi2 _]. pose proof Hpick as ((R1 & _) & _). destruct (live_current _ _ _ _ Hi2) as [y Hy]; [by rewrite R1, C|]. exists y. by rewrite R1, C in Hy. }
  apply wp_if; intros Et; [apply bool_decide_eq_true in Et|apply bool_decide_eq_false in Et].
  - eapply wp_use; [apply (pick_spec v s e 0 Hi); by left|]. cbn beta. intros nx s2 (v2 & Hpick). destruct (Hlive s v nx v2 s2 Hi eq_refl Hpick) as [y Hy].
    assert (Hnx : nx ≠ current s) by (intros ->; by destruct (pick_not_terminated _ _ _ _ _ _ _ x Hpick Hx)).
    eapply wp_mono; [by apply (hand_over v s e nx v2 s2 x y)|]. cbn beta. intros _ s' (H1 & H2 & H4 & H5). eapply lands_same; try done. by eapply ebb_flow, ebb1_ebb, ebbs_ebb1.
  - set (slice := if 0 <? time_slice x then time_slice x - 1 else time_slice x). cbv zeta. apply wp_bind, wp_upd; [by exists x|]. set (s1 := put_procs _ s).
    assert (Hi1 : inv v s1 e 0) by (apply inv_plain; [by intros z|done|by exists x]). assert (Hx1 : procs s1 !! current s = Some (set_time_slice slice x)) by (cbn; by rewrite lookup_alter_eq, Hx).
    assert (Hc1 : calm v s v s1) by (apply (calm_upd v s _ _ x Hx); unfold steady, kept; cbn; tauto). apply wp_if; intros Ez.
    { apply wp_ret. eapply lands_same; try done. eapply gain_flow, gain_calm; [exact Hi|exact Hc1]. }
    eapply wp_use; [apply (add_spec v s1 e 0 n _ _ Hi1 Hx1); try done; lia|]. cbn beta. intros _ s2 (v2 & Hi2 & Ha). pose proof (calm_added _ _ _ _ _ _ Ha Hx1) as Hc2. pose proof (calm_trans _ _ _ _ _ _ Hc1 Hc2) as Hc. destruct (c_rest Hc) as (_ & G2 & G3).
    pose proof (gain_calm v s e 0 v2 s2 Hi Hc) as Hgain. eapply wp_use; [apply (pick_spec v2 s2 e 0 Hi2); by left|]. cbn beta. intros nx s3 (v3 & Hpick). destruct (Hlive s2 v2 nx v3 s3 Hi2 G2 Hpick) as [y Hy].
    destruct (picked_core _ _ _ _ _ _ _ _ _ Hpick Hy) as (x2 & Hx2 & _ & Epc & _). assert (Epc' : pc x2 = pc x) by (destruct (c_procs Hc _ x x2 Hx Hx2) as [(_ & ? & _) _]; done).
    assert (Hfin : ∀ s' v', inv v' s' e 0 → ebbs v2 s2 v' s' → current s' ≠ 0 → idle_thread s' = idle_thread s2 → lands flow v s e s').
    { intros s' v' H1 H2 H3 H4. eapply lands_same; [done| |done|congruence]. eapply flow_intro; [exact Hgain|]. eapply ebb1_ebb, ebbs_ebb1; [exact Hi2|exact H2]. }
    destruct (Z.eqb_spec nx (current s)) as [En|En].
    + apply wp_bind, wp_upd; [by exists y|]. apply wp_bind, wp_upd; [cbn; apply lookup_alter_is_Some; by exists y|]. set (f := λ z, set_pstate PROCESS_RUNNING (set_time_slice (priority_time_slice (priority x)) z)).
      change (procs (put_procs ?m s3)) with m. rewrite alter_alter_eq. change (put_procs ?m (put_procs _ s3)) with (put_procs m s3).
      destruct (picked_inv _ _ _ _ _ _ _ Hpick) as [Hi3 _]. pose proof Hpick as ((R1 & R2 & R3) & _). unfold give in Hi3. rewrite decide_False in Hi3 by congruence. set (s4 := put_procs _ s3).
      assert (Hi4 : inv v3 s4 (bump e nx 1) 0) by (apply inv_plain; [by intros z|done|by exists y]). subst nx.
      assert (Hy4 : procs s4 !! current s = Some (f y)) by (cbn; by rewrite lookup_alter_eq, Hy).
      eapply wp_mono; [apply (unref_kept v3 s4 _ 0 _ (f y) Hi4 Hy4)|].
      * rewrite bump_eq. pose proof (i_extra _ _ _ _ Hi (current s)). lia.
      * done.
      * left. pose proof (running_kept v3 s4 _ _ (f y) Hi4) as Hk. change (current s4) with (current s3) in *. change (idle_thread s4) with (idle_thread s3) in *. rewrite R1, R2, G2, G3 in *. by apply Hk.
      * cbn beta. intros _ s' (Hi' & Hc' & (D1 & D2 & D3 & _)). apply bump_back in Hi'. change (current s4) with (current s3) in *. change (idle_thread s4) with (idle_thread s3) in *. apply (Hfin s' v3); [done| |congruence|congruence]. eapply pick_ebb; try done; [congruence|].
        intros q z Hz. destruct (core_some _ _ _ _ _ Hc' I Hz) as (w & Hw & E). apply core_fields in E. apply lookup_alter_cases in Hw as (w' & Hw' & [[-> ->]|[_ ->]]); exists w'; cbn in E; naive_solver lia.
    + pose proof (hand_over v2 s2 e nx v3 s3 x2 y (pc x)) as H. cbv zeta in H. rewrite G2, G3 in H. eapply wp_mono; [by apply H|]. cbn beta. intros _ s' (H1 & H2 & H4 & H5). apply (Hfin s' v3); try done. congruence.
Qed.

(** ** The end of a blocking call *)

Lemma back_to_user v s e x f : inv v s e 0 → procs s !! current s = Some x → current s ≠ idle_thread s → wait_on x = 0 → (f = set_pc User ∨ f = λ x, set_pc User (set_futex_key 0 x)) →
  wp (upd (current s) f) s (λ _ s', inv v s' e 0 ∧ ebb v s v s' ∧ current s' = current s ∧ idle_thread s' = idle_thread s).
Proof.
  intros Hi Hx Hidle Hw Hf. apply wp_upd; [by exists x|].
  assert (Hi' : inv v (put_procs (alter f (current s) (procs s)) s) e 0).
  { assert (Hsl : current s ∈ SL v → False) by (intros Hin; by apply (not_sleeping _ _ _ _ _ Hi Hx Hw)). destruct Hf as [->| ->].
    - eapply (inv_set_pc v s e 0); try done; [by left|by right].
    - pose proof (inv_plain v s e 0 (current s) (set_futex_key 0)) as H1. specialize (H1 ltac:(by intros z) Hi ltac:(by exists x)).
      assert (Hx1 : alter (set_futex_key 0) (current s) (procs s) !! current s = Some (set_futex_key 0 x)) by by rewrite lookup_alter_eq, Hx.
      pose proof (inv_set_pc v _ e 0 (current s) _ User H1 Hx1) as H2. cbn [procs put_procs] in H2. rewrite alter_alter_eq in H2. apply H2; try done; [by left|by right]. }
  split; [done|]. split; [|done]. eapply ebb_upd; try done. by destruct Hf as [->| ->].
Qed.

Definition simple (k : after) : Prop := match k with AfterWaitpid _ _ _ => False | _ => True end.

(** [wait_on] of the caller is either cleared or still what its stack says. *)
Lemma resume_spec v s e h o k c a x : simple k → inv v s e h → h = 0 ∨ h = current s → current s ≠ idle_thread s → procs s !! current s = Some x → wait_on x = 0 ∨ wait_on x = o → o ≠ 0 → is_Some (objects s !! o) →
  wp (resume o k c a) s (λ _ s', ∃ v', inv v' s' e 0 ∧ ebb v s v' s' ∧ current s' = current s ∧ idle_thread s' = idle_thread s).
Proof.
  intros Hk Hi Hh Hidle Hx Hw Ho0 Ho. unfold resume. apply wp_bind, wp_read. eapply wp_use; [by apply (cleanup_spec v s e h o x)|]. cbn beta. intros _ s1 (v1 & y & Hi1 & Hc1 & HQ & Hy & Hwy & _).
  destruct (c_rest Hc1) as (C1 & C2 & C3). assert (He : ebb v s v1 s1) by (eapply (ebb_gains steady); try done; apply boost_kept; by intros ? ? [? _]).
  unfold finish. apply wp_bind, wp_read. assert (Hu : ∀ f, f = set_pc User ∨ f = (λ x, set_pc User (set_futex_key 0 x)) → wp (upd (current s1) f) s1 (λ _ s', ∃ v', inv v' s' e 0 ∧ ebb v s v' s' ∧ current s' = current s ∧ idle_thread s' = idle_thread s)).
  { intros f Hf. eapply wp_mono; [apply (back_to_user v1 s1 e y f); try done; [by rewrite C2|by rewrite C2, C3]|]. cbn beta. intros _ s' (H1 & H2 & H3 & H4). exists v1. split_and!; [done|by eapply ebb_trans|congruence|congruence]. }
  destruct k; [apply Hu; by left|apply Hu; by right|done].
Qed.

Lemma parked_self o k e p nx v1 s1 v' s2 s' x1 : picked v1 s1 e p nx v' s2 → parked p o k e nx v' s2 true s' → procs s1 !! p = Some x1 → p = current s1 → p ≠ idle_thread s1 →
  inv v' s' (bump e p 1) p ∧ current s' = p ∧ idle_thread s' = idle_thread s1 ∧ ∃ y, procs s' !! p = Some y ∧ wait_on y = wait_on x1 ∧ on_queue y = 0 ∧ child_wait y = child_wait x1 ∧ pc y = pc x1.
Proof.
  intros Hpick [(? & _)|[(? & _)|(_ & -> & (x & Hx & ->) & Hi')]] Hx1 Hp Hidle; [done|done|]. pose proof Hpick as ((R1 & R2 & R3) & _ & l1 & _ & _ & Hl). split_and!; try done.
  exists (runs x). split; [cbn; by rewrite lookup_alter_eq, Hx|]. destruct Hl as [(? & _)|(z & _ & _ & Hz & _ & E & _)]; [congruence|]. assert (z = x1) as -> by congruence. rewrite Hx in E. apply (inj Some), core_fields in E.
  unfold refill in E. cbn. destruct (_ =? 0) in E; cbn in E; naive_solver.
Qed.

(** What a blocking call amounts to when it loses the processor, ... *)
Lemma blocks_false o k x v s e s' : inv v s e 0 → current s ≠ 0 → blocks o k x v s e false s' → lands flow v s e s'.
Proof.
  intros Hi Hc0 (v1 & s1 & v' & nx & s2 & He & Hpick & Hpark). pose proof He as (Hi1 & Hm & _). destruct (c_rest Hm) as (C1 & C2 & C3).
  pose proof (parked_ebb _ _ _ _ _ _ _ _ _ _ _ Hi1 (eq_sym C2) Hpick Hpark) as Hebb. pose proof Hpick as ((R1 & R2 & R3) & _).
  assert (Hf : flow v s v' s') by (eapply flow_intro; [by eapply gain_mild|]; by eapply ebb1_ebb, ebbs_ebb1).
  destruct Hpark as [(_ & _ & (_ & _ & (_ & G2 & G3 & _)) & Hi')|[(_ & _ & _ & Hsw & Hi')|(? & _)]]; [| |done].
  - eapply lands_same; [exact Hi'|exact Hf|congruence|congruence].
  - pose proof Hsw as (_ & (w & w' & _ & Hw' & _) & _ & _ & S1 & S2 & _). eapply lands_same; [exact Hi'|exact Hf| |congruence]. rewrite S1. exact (live_ne _ _ _ _ _ _ Hi' Hw').
Qed.

(** ... and when the caller has been chosen itself. *)
Lemma blocks_true o k x v s e s' : inv v s e 0 → current s ≠ idle_thread s → current s ≠ 0 → blocks o k x v s e true s' →
  ∃ v' y, inv v' s' (bump e (current s) 1) (current s) ∧ flow v s v' s' ∧ (∀ v'' s'', ebb v' s' v'' s'' → flow v s v'' s'') ∧ current s' = current s ∧ idle_thread s' = idle_thread s ∧ procs s' !! current s = Some y ∧ wait_on y = o ∧ on_queue y = 0 ∧ child_wait y = child_wait x.
Proof.
  intros Hi Hidle Hc0 (v1 & s1 & v' & nx & s2 & He & Hpick & Hpark). pose proof He as (Hi1 & Hm & _ & _ & _ & _ & _ & x1 & Hx1 & X1 & X2 & X3 & X4). destruct (c_rest Hm) as (C1 & C2 & C3).
  pose proof (parked_ebb _ _ _ _ _ _ _ _ _ _ _ Hi1 (eq_sym C2) Hpick Hpark) as Hebb. destruct (parked_self _ _ _ _ _ _ _ _ _ _ x1 Hpick Hpark Hx1 (eq_sym C2)) as (Hi' & P1 & P2 & y & Hy & Y1 & Y2 & Y3 & Y4); [by rewrite C3|].
  assert (Hf : ∀ v'' s'', ebb v' s' v'' s'' → flow v s v'' s'').
  { intros v'' s'' H. eapply flow_intro; [by eapply gain_mild|]. eapply ebb_trans; [|exact H]. by eapply ebb1_ebb, ebbs_ebb1. }
  exists v', y. split_and!; try done; [apply Hf, ebb_refl|congruence..].
Qed.

Lemma bump_extra e p q : e q ≤ bump e p 1 q ≤ e q + 1.
Proof. unfold bump. case_decide; lia. Qed.

(** A simple blocking call as a whole. *)
Lemma blocks_spec (r1 r2 : option Z) o k c a x v s e b s' : simple k → inv v s e 0 → current s ≠ idle_thread s → current s ≠ 0 → 1 ≤ o ≤ SLEEP → blocks o k x v s e b s' →
  wp (if b then resume o k c a;; ret r1 else ret r2) s' (λ _ s'', lands flow v s e s'').
Proof.
  intros Hk Hi Hidle Hc0 Ho Hb. destruct b; [|apply wp_ret; by eapply blocks_false].
  destruct (blocks_true _ _ _ _ _ _ _ Hi Hidle Hc0 Hb) as (v' & y & Hi' & _ & Hf & C2 & C3 & Hy & Hw & _). apply wp_bind.
  eapply wp_mono; [apply (resume_spec v' s' _ _ o k c a y Hk Hi'); [by right|by rewrite C2, C3|by rewrite C2|by right|lia|by apply (i_static _ _ _ _ Hi')]|].
  cbn beta. intros _ s'' (v'' & Hi'' & He'' & D2 & D3). apply wp_ret. exists v'', (bump e (current s) 1). split_and!; [done|apply bump_extra|by apply Hf|congruence|congruence].
Qed.

Lemma closer_lands v s e s' : lands closer v s e s' → lands flow v s e s'.
Proof. apply lands_mono. intros v' s1. apply closer_flow. Qed.

Lemma lands_none v s e : inv v s e 0 → current s ≠ 0 → lands flow v s e s.
Proof. intros Hi Hc. eapply lands_same; try done. apply ebb_flow, ebb_refl. Qed.

Lemma sleep_spec v s e n ms x : inv v s e 0 → current s ≠ idle_thread s → procs s !! current s = Some x → pc x = User → small n e → n ≤ 98 → wp (sys_sleep ms) s (λ _ s', lands flow v s e s').
Proof.
  intros Hi Hidle Hx Hpc Hs Hn. assert (Hc0 : current s ≠ 0) by by eapply live_ne. assert (Hw : wait_on x = 0).
  { pose proof (po_pc _ _ _ _ _ _ _ (i_procs _ _ _ _ Hi _ x Hx)) as H. unfold pc_ok in H. rewrite Hpc in H. by destruct H. }
  unfold sys_sleep. apply wp_if; intros E0.
  { eapply wp_use; [by eapply yield_spec|]. cbn beta. intros r s' H. apply wp_ret. by apply closer_lands. }
  apply wp_bind, wp_read. cbv zeta. apply wp_if; intros Ed; [apply wp_ret; by apply lands_none|].
  eapply wp_use; [apply (block_spec v s e n g_sleep_wobj _ AfterSleep x); try done; [by left|by intros _ [_ ?]|by apply (i_static _ _ _ _ Hi)]|]. cbn beta. intros b s' Hb.
  by apply (blocks_spec (Some ESUCCESS) None g_sleep_wobj AfterSleep false 0 x v s e b s').
Qed.

End SchedCalls.
