(* ===== verification/SchedFutex.v ===== *)
(** * Futexes keep the invariant, and wake whom they should *)

From S2P Require Import Prelude Errno Links Pcb Sched WaitObj Lifecycle Futex SchedInv SchedQueue SchedOps SchedReady SchedPick SchedWait SchedWake SchedBlock SchedRank SchedCalls.
Import Links Pcb Sched WaitObj Lifecycle Futex SchedInv SchedQueue SchedOps SchedReady SchedPick SchedSwitch SchedWait SchedWake SchedBlock SchedRank SchedCalls.

Module SchedFutex.
Local Open Scope Z_scope.

(** ** Initialisation *)

Lemma init_lookup (m : gmap Z wait_object) l o :
  foldr (λ i m, <[futex_bucket (Z.of_nat i) := wait_object_init]> m) m l !! o = if decide (o ∈ (λ i, futex_bucket (Z.of_nat i)) <$> l) then Some wait_object_init else m !! o.
Proof.
  induction l as [|j l IH]; cbn [foldr fmap list_fmap]; [rewrite decide_False; [done|set_solver]|].
  destruct (decide (futex_bucket (Z.of_nat j) = o)) as [E|E].
  - rewrite E, lookup_insert_eq, decide_True; [done|left].
  - rewrite lookup_insert_ne, IH by done. repeat case_decide; set_solver.
Qed.

Lemma init_buckets (m : gmap Z wait_object) o :
  foldr (λ i m, <[futex_bucket (Z.of_nat i) := wait_object_init]> m) m (seq 0 (Z.to_nat FUTEX_HASHSIZE)) !! o = if decide (1 ≤ o < SLEEP) then Some wait_object_init else m !! o.
Proof.
  rewrite init_lookup. unfold futex_bucket, FUTEX_HASHSIZE, SLEEP. destruct (decide (1 ≤ o < 257)) as [H|H].
  - rewrite decide_True; [done|]. apply list_elem_of_fmap. exists (Z.to_nat (o - 1)). rewrite elem_of_seq. lia.
  - rewrite decide_False; [done|]. intros (i & E & Hi)%list_elem_of_fmap. apply elem_of_seq in Hi. lia.
Qed.

Lemma futex_init_spec v s e : inv v s e 0 → futex_initialized s = 0 →
  wp futex_init s (λ _ s', inv v s' e 0 ∧ procs s' = procs s ∧ same_globals s s' ∧ futex_initialized s' = 1).
Proof.
  intros Hi Hf. apply wp_modify. split; [|done]. pose proof (i_futex _ _ _ _ Hi Hf) as Hnil. destruct Hi.
  split; cbn [put_futex_initialized put_objects procs objects rq0 rq1 ready_count current idle_thread g_sleep_list process_table pid_used futex_initialized]; try done.
  - intros o w. rewrite init_buckets. destruct (decide (1 ≤ o < SLEEP)) as [H|H]; [|by apply i_obj0]. intros [= <-]. rewrite (Hnil o H). by split.
  - intros o. rewrite init_buckets. destruct (decide (1 ≤ o < SLEEP)); [done|]. by apply i_noobj0.
  - intros o Ho. rewrite init_buckets. destruct (decide (1 ≤ o < SLEEP)); [done|]. by apply i_static0.
  - intros q x Hq Hc. rewrite init_buckets. destruct (decide (1 ≤ child_wait x < SLEEP)); [done|]. by eapply i_child0.
Qed.

(** The state after the initialisation on first use. *)
Lemma ensure_futex_spec v s e : inv v s e 0 → wp (i <- read futex_initialized; when (i =? 0) futex_init) s (λ _ s', inv v s' e 0 ∧ procs s' = procs s ∧ same_globals s s' ∧ futex_initialized s' ≠ 0).
Proof.
  intros Hi. apply wp_bind, wp_read. apply wp_when; intros E; [apply Z.eqb_eq in E|apply Z.eqb_neq in E; done]. eapply wp_mono; [by apply futex_init_spec|]. cbn beta. intros _ s' (H1 & H2 & H3 & ->). done.
Qed.

(** ** Buckets *)

Lemma hash_range a : 0 ≤ futex_hash a < 256.
Proof. unfold futex_hash. cbv zeta. change FUTEX_HASHMASK with (Z.ones 8). rewrite Z.land_ones by lia. apply Z.mod_pos_bound. lia. Qed.

Lemma bucket_range a : 1 ≤ futex_bucket (futex_hash a) < SLEEP.
Proof. pose proof (hash_range a). unfold futex_bucket, SLEEP. lia. Qed.

(** ** Waking *)

Notation keyed key := (λ x, futex_key x =? key).

(** [l] has been woken and nothing else was touched that is blocked. *)
Definition woken (o : Z) (l : list Z) (s s' : state) : Prop :=
  (∀ q, q ∈ l → ∃ x y, procs s !! q = Some x ∧ pstate x = PROCESS_BLOCKED ∧ procs s' !! q = Some y ∧ pstate y = PROCESS_READY ∧ on_queue y = 1 ∧ wait_on y = 0) ∧
  (∀ q x, q ∉ l → procs s !! q = Some x → pstate x = PROCESS_BLOCKED ∨ wait_on x ≠ o → ∃ y, procs s' !! q = Some y ∧ core y = core x).

Lemma woken_nil o s : woken o [] s s.
Proof. split; [intros q ?%elem_of_nil; done|]. intros q x _ Hx _. by exists x. Qed.

Lemma candidate_blocked sel v s o q : q ∈ candidates sel v s o → ∃ x, procs s !! q = Some x ∧ sel x = true ∧ pstate x = PROCESS_BLOCKED.
Proof. intros [H _]%list_elem_of_filter. unfold candidate in H. destruct (procs s !! q) as [x|]; [|done]. apply andb_true_iff in H as [H1 H2]. apply bool_decide_eq_true in H2. by exists x. Qed.

Lemma candidates_nodup v s e h sel o : inv v s e h → NoDup (candidates sel v s o).
Proof.
  intros Hi. apply NoDup_filter. destruct (objects s !! o) as [w|] eqn:E; [|rewrite (i_noobj _ _ _ _ Hi o E); constructor]. by apply (chain_nodup _ _ _ (o_chain _ _ _ (i_obj _ _ _ _ Hi o w E))).
Qed.

Lemma woken_cons sel o p l v s v1 s1 s' : woke_one sel o p v s v1 s1 → p ≠ 0 → o ≠ 0 → p ∉ l → (∀ q, q ∈ l → q ∈ candidates sel v1 s1 o) → woken o l s1 s' → woken o (p :: l) s s'.
Proof.
  intros (R1 & R2 & R3 & R4 & R5 & R6 & R7) Hp Ho Hpl Hl [W1 W2]. destruct (R7 Hp) as (x & Hx & _ & Hb & y & Hy & Y1 & Y2 & Y3). split.
  - intros q [->|Hq]%elem_of_cons.
    + destruct (W2 p y Hpl Hy) as (z & Hz & E); [right; congruence|]. apply core_fields in E. exists x, z. split_and!; try done; naive_solver congruence.
    + destruct (W1 q Hq) as (_ & y1 & _ & _ & Hy1 & Y). assert (Hin : q ∈ candidates sel v s o). { specialize (Hl q Hq). rewrite R2 in Hl. destruct (candidates sel v s o); [done|by right]. }
      destruct (candidate_blocked _ _ _ _ _ Hin) as (x1 & Hx1 & _ & Hb1). by exists x1, y1.
  - intros q z Hq Hz Hzb. destruct (R4 q z) as (z1 & Hz1 & E1); [set_solver|done|done|]. apply core_fields in E1 as F1. destruct (W2 q z1) as (z2 & Hz2 & E2); [set_solver|done|destruct Hzb; [left|right]; naive_solver congruence|]. exists z2. split; [done|congruence].
Qed.

Lemma take_sub i (l : list Z) q : q ∈ take i l → q ∈ l.
Proof. intros H. rewrite <- (take_drop i l). apply elem_of_app. by left. Qed.

Section Wake.
Context (o key n : Z).
Hypothesis Ho : 1 ≤ o < SLEEP.

Lemma wake_loop_spec fuel v s e m k : inv v s e 0 → small m e → m ≤ 98 → 0 ≤ k → k + Z.of_nat (length (W v o)) ≤ 256 → (length (W v o) < fuel)%nat →
  wp (futex_wake_loop fuel o key n k) s (λ r s', ∃ v', inv v' s' e 0 ∧ calm v s v' s' ∧
    let l := take (Z.to_nat (n - k)) (candidates (keyed key) v s o) in
    r = k + Z.of_nat (length l) ∧ woken o l s s' ∧ candidates (keyed key) v' s' o = drop (Z.to_nat (n - k)) (candidates (keyed key) v s o)).
Proof.
  revert v s k. induction fuel as [|fuel IH]; intros v s k Hi Hs Hm Hk Hb Hf; [lia|]. cbn [futex_wake_loop]. apply wp_if; intros E.
  { apply andb_true_iff in E as [_ E%Z.leb_le]. apply wp_ret. exists v. split; [done|]. split; [apply calm_refl|]. replace (Z.to_nat (n - k)) with 0%nat by lia. cbv zeta. rewrite take_0, drop_0. cbn [length]. split_and!; [lia|apply woken_nil|done]. }
  assert (Hnk : 0 < n - k). { apply andb_false_iff in E as [E|E%Z.leb_gt]; [|lia]. apply negb_false_iff, Z.eqb_eq in E. unfold INT32_MAX in E. lia. }
  eapply wp_use; [apply (wake_key_spec v s e 0 m o key); try done; [left; lia|lia|by left]|]. cbn beta. intros p s1 (v1 & Hi1 & Hc1 & Hw). pose proof Hw as (R1 & R2 & R3 & R4 & R5 & R6 & R7).
  pose proof (candidates_nodup v s e 0 (keyed key) o Hi) as Hd. destruct (candidates (keyed key) v s o) as [|c l] eqn:Ec.
  - cbn in R1. subst p. cbn. apply wp_ret. exists v1. split; [done|]. split; [done|]. cbv zeta. rewrite take_nil, drop_nil. cbn [length]. split_and!; [lia| |done].
    split; [intros q ?%elem_of_nil; done|]. intros q x _ Hx Hxb. destruct (decide (q = 0)) as [->|Hq0]; [by destruct (live_ne _ _ _ _ _ _ Hi Hx)|]. by apply R4.
  - cbn in R1, R2. subst c. apply NoDup_cons in Hd as [Hpl Hd]. destruct (candidate_blocked (keyed key) v s o p) as (x & Hx & _); [rewrite Ec; left|]. assert (Hp0 : p ≠ 0) by exact (live_ne _ _ _ _ _ _ Hi Hx).
    destruct (Z.eqb_spec p 0); [done|]. specialize (R6 Hp0). eapply wp_mono; [apply (IH v1 s1 (k + 1)); try done; lia|]. cbn beta. rewrite R2. intros r s' (v' & Hi' & Hc' & Hr & Hwk & Hcd). cbv zeta in Hr, Hwk.
    exists v'. split; [done|]. split; [by eapply calm_trans|]. cbv zeta. replace (Z.to_nat (n - k)) with (S (Z.to_nat (n - (k + 1)))) by lia. cbn [take drop length]. split_and!; [lia| |done].
    eapply woken_cons; try done; [lia|intros Hin; apply Hpl; by eapply take_sub|]. rewrite R2. intros q. apply take_sub.
Qed.

End Wake.

Lemma waiters_bound v s e h o : inv v s e h → (length (W v o) ≤ 256)%nat.
Proof.
  intros Hi. pose proof (procs_bound _ _ _ _ Hi). destruct (objects s !! o) as [w|] eqn:E; [|rewrite (i_noobj _ _ _ _ Hi o E); cbn; lia].
  pose proof (waiters_fuel v s e h o Hi ltac:(by exists w)) as Hf. unfold fuel_of in Hf. lia.
Qed.

Section Calls.
Context (word : Z → Z) (cr3 : Z).

Lemma futex_wake_spec v s e m uaddr n : inv v s e 0 → small m e → m ≤ 98 →
  let a := futex_get_phys_addr word cr3 uaddr in let o := futex_bucket (futex_hash a) in
  wp (futex_wake word cr3 uaddr n) s (λ r s', ∃ v', inv v' s' e 0 ∧ calm v s v' s' ∧
    if negb (futex_validate_addr uaddr =? 0) then r = futex_validate_addr uaddr ∧ s' = s
    else if a =? 0 then r = EFAULT ∧ s' = s
    else let l := take (Z.to_nat n) (candidates (keyed a) v s o) in
      r = Z.of_nat (length l) ∧ woken o l s s' ∧ candidates (keyed a) v' s' o = drop (Z.to_nat n) (candidates (keyed a) v s o)).
Proof.
  intros Hi Hs Hm a o. unfold futex_wake. cbv zeta. fold a. destruct (negb (futex_validate_addr uaddr =? 0)) eqn:Ev; [apply wp_ret; exists v; split; [done|]; split; [apply calm_refl|done]|].
  destruct (a =? 0) eqn:Ea; [apply wp_ret; exists v; split; [done|]; split; [apply calm_refl|done]|]. fold o. apply wp_if; intros E1; [apply Z.leb_le in E1|apply Z.leb_gt in E1].
  - apply wp_bind, wp_read. pose proof (bucket_range a) as Hr. fold o in Hr. pose proof (waiters_bound v s e 0 o Hi) as Hb. eapply wp_mono; [apply (wake_loop_spec o a n Hr _ v s e m 0 Hi Hs Hm); [lia|lia|]|].
    + pose proof (waiters_fuel v s e 0 o Hi) as Hw. specialize (Hw ltac:(apply (i_static _ _ _ _ Hi); lia)). lia.
    + cbn beta. intros r s' (v' & H1 & H2 & H3). exists v'. rewrite Z.sub_0_r in H3. cbv zeta in H3. destruct H3 as (-> & H4 & H5). split_and!; try done.
  - apply wp_ret. exists v. split; [done|]. split; [apply calm_refl|]. replace (Z.to_nat n) with 0%nat by lia. rewrite take_0, drop_0. split_and!; [done|apply woken_nil|done].
Qed.

Lemma prepare_spec v s e n o uval val key x : inv v s e 0 → current s ≠ idle_thread s → procs s !! current s = Some x → wait_on x = 0 → small n e → n ≤ 98 → 1 ≤ o < SLEEP → futex_initialized s ≠ 0 →
  wp (wait_object_prepare_futex o uval val key) s (λ b s1, if b : bool then uval = val ∧ ∃ v1, entered o (current s) x v s e v1 s1 ∧ SL v1 = SL v ∧ ∃ x1, procs s1 !! current s = Some x1 ∧ futex_key x1 = key
    else uval ≠ val ∧ inv v s1 e 0 ∧ calm v s v s1 ∧ procs s1 = procs s).
Proof.
  intros Hi Hidle Hx Hw Hs Hn Ho Hf. unfold wait_object_prepare_futex. eapply wp_use; [apply (init_calm v s e 0 o Hi); apply (i_static _ _ _ _ Hi); lia|]. cbn beta. intros _ s1 (Hi1 & Hc1 & Hp1 & Hf1 & Hg1 & w' & Hw' & Hini).
  pose proof Hg1 as (G1 & G2 & G3 & G4). apply wp_bind, wp_read. rewrite G2. set (p := current s) in *. destruct (Z.eqb_spec uval val) as [Ev|Ev]; cbn [negb]; [|apply wp_ret; done].
  eapply wp_use; [apply (ref_full v s1 e 0 n p x Hi1); [by rewrite Hp1|done|lia]|]. cbn beta. intros _ s2 (Hi2 & Hc2 & Hg2 & Ho2 & Hf2).
  assert (Hx1 : procs s1 !! p = Some x) by by rewrite Hp1. destruct (core_of _ _ _ _ Hc2 Hx1) as (x2 & Hx2 & E2). pose proof (steady_core _ _ E2) as [Hk _]. apply core_fields in E2 as F2.
  apply wp_bind, wp_upd; [by exists x2|]. set (s3 := put_procs _ s2). assert (Hi3 : inv v s3 (bump e p 1) 0) by (apply inv_plain; [by intros z|done|by exists x2]).
  assert (Hx3 : procs s3 !! p = Some (set_futex_key key x2)) by (cbn; by rewrite lookup_alter_eq, Hx2). apply wp_bind.
  eapply wp_mono; [apply (enter_link v s s3 e o x (set_futex_key key x2)); try done|].
  - intros q Hq. cbn [s3 procs put_procs]. rewrite core_alter_ne by done. rewrite (Hc2 q I). by rewrite Hp1.
  - pose proof (same_globals_trans _ _ _ Hg1 Hg2) as (A1 & A2 & A3 & A4). by split_and!.
  - cbn. naive_solver congruence.
  - cbn. naive_solver congruence.
  - left. lia.
  - intros E. change (futex_initialized s3) with (futex_initialized s2) in E. congruence.
  - exists w'. change (objects s3) with (objects s2). rewrite Ho2, Hw', lookup_insert_eq. done.
  - cbn beta. intros _ s4 (v4 & He & HS & E). apply wp_ret. split; [done|]. exists v4. split; [done|]. split; [done|]. apply fmap_Some in E as (x4 & Hx4 & E4). apply core_fields in E4. exists x4. cbn in E4. naive_solver.
Qed.

Lemma futex_wait_spec v s e n uaddr val uval x : inv v s e 0 → current s ≠ idle_thread s → procs s !! current s = Some x → wait_on x = 0 → small n e → n ≤ 98 → futex_initialized s ≠ 0 →
  wp (futex_wait word cr3 uaddr val uval) s (λ _ s', lands flow v s e s').
Proof.
  intros Hi Hidle Hx Hw Hs Hn Hf. assert (Hc0 : current s ≠ 0) by by eapply live_ne. unfold futex_wait. cbv zeta. apply wp_if; intros _; [apply wp_ret; by apply lands_none|]. apply wp_if; intros _; [apply wp_ret; by apply lands_none|].
  set (o := futex_bucket _). assert (Ho : 1 ≤ o < SLEEP) by apply bucket_range. eapply wp_use; [by apply (prepare_spec v s e n o uval val _ x)|]. cbn beta. intros [] s1; cbn [negb].
  - intros (_ & v1 & He & HS & _). pose proof He as (_ & Hm & _). destruct (c_rest Hm) as (C1 & C2 & C3). unfold wait_object_park_committed. apply wp_bind, wp_bind, wp_read. rewrite C2. eapply wp_mono; [apply (entered_park o AfterFutex x v s e v1 s1 He Hidle)|].
    + left. lia.
    + rewrite HS. intros Hin. by destruct (not_sleeping _ _ _ _ _ Hi Hx Hw).
    + cbn beta. intros b s' (v' & nx & s2 & H1 & H2). eapply blocks_spec; try done; [lia|]. by exists v1, s1, v', nx, s2.
  - intros (_ & Hi1 & Hc1 & _). apply wp_ret. destruct (c_rest Hc1) as (C1 & C2 & C3). eapply lands_same; [exact Hi1| |congruence|congruence]. by eapply gain_flow, gain_calm.
Qed.

Lemma sys_futex_spec v s e n uaddr op val uval x : inv v s e 0 → current s ≠ idle_thread s → procs s !! current s = Some x → pc x = User → small n e → n ≤ 98 →
  wp (sys_futex word cr3 uaddr op val uval) s (λ _ s', lands flow v s e s').
Proof.
  intros Hi Hidle Hx Hpc Hs Hn. assert (Hc0 : current s ≠ 0) by by eapply live_ne. assert (Hw : wait_on x = 0).
  { pose proof (po_pc _ _ _ _ _ _ _ (i_procs _ _ _ _ Hi _ x Hx)) as H. unfold pc_ok in H. rewrite Hpc in H. by destruct H. }
  unfold sys_futex. apply wp_assoc. eapply wp_use; [by apply (ensure_futex_spec v s e)|]. cbn beta. intros _ s1 (Hi1 & Hp1 & Hg1 & Hf1). pose proof Hg1 as (G1 & G2 & G3 & G4).
  assert (Hc1 : calm v s v s1) by (apply calm_cores; [intros q _; by rewrite Hp1|done]). pose proof (gain_calm _ _ _ _ _ _ Hi Hc1) as Hgain.
  assert (Hland : ∀ s', lands flow v s1 e s' → lands flow v s e s').
  { intros s' (v' & e' & H1 & H2 & H3 & H4 & H5). exists v', e'. split_and!; try done; [|congruence]. by eapply flow_gain. }
  cbv zeta. apply wp_if; intros _; [eapply wp_mono; [apply (futex_wait_spec v s1 e n uaddr _ uval x); try done; [by rewrite G2, G3|by rewrite G2, Hp1]|]; cbn beta; auto|].
  apply wp_if; intros _.
  - eapply wp_use; [apply (futex_wake_spec v s1 e n uaddr (i32 val) Hi1 Hs Hn)|]. cbn beta. intros r s2 (v2 & Hi2 & Hc2 & _). apply wp_ret, Hland. destruct (c_rest Hc2) as (D1 & D2 & D3).
    eapply lands_same; [exact Hi2| |congruence|congruence]. by eapply gain_flow, gain_calm.
  - apply wp_if; intros _; apply wp_ret, Hland, lands_none; [done|congruence|done|congruence].
Qed.

(** The caller has lost the processor and stays on the object it waits for. *)
Lemma left_waiting o k x v s e v1 s1 v' nx s2 s' key : inv v s e 0 → current s ≠ 0 → current s ≠ idle_thread s → entered o (current s) x v s e v1 s1 → o ≠ 0 →
  (∃ x1, procs s1 !! current s = Some x1 ∧ futex_key x1 = key) → picked v1 s1 e (current s) nx v' s2 → parked (current s) o k e nx v' s2 false s' →
  inv v' s' e 0 ∧ W v' o = W v o ++ [current s] ∧ ∃ y, procs s' !! current s = Some y ∧ pstate y = PROCESS_BLOCKED ∧ wait_on y = o ∧ futex_key y = key ∧ (pc y = Halted o k ∨ pc y = Parked o k ∧ current s' ≠ current s).
Proof.
  intros Hi H0 Hidle He Ho0 (x1 & Hx1 & Hk) Hpick Hpark. pose proof He as (Hi1 & Hm & _ & _ & HWo & _ & _ & x1' & Hx1' & X1 & X2 & _). assert (x1' = x1) as -> by congruence. destruct (c_rest Hm) as (_ & C2 & C3).
  pose proof Hpick as ((R1 & R2 & _) & (_ & _ & HW & _) & _). assert (HWo' : W v' o = W v o ++ [current s]) by (by rewrite HW).
  assert (Hcore : nx ≠ current s → ∃ y, procs s2 !! current s = Some y ∧ core y = core x1) by (intros Hne; eapply picked_self; [exact Hpick|exact Hx1|by rewrite X1|done]).
  assert (Hend : ∀ z w c, procs s2 !! current s = Some z → core w = core (set_pc c z) → nx ≠ current s → pstate w = PROCESS_BLOCKED ∧ wait_on w = o ∧ futex_key w = key ∧ pc w = c).
  { intros z w c Hz Ew Hne. destruct (Hcore Hne) as (z' & Hz' & Ez). assert (z' = z) as -> by congruence. apply core_fields in Ew, Ez. cbn in Ew. split_and!; [|..]; naive_solver congruence. }
  destruct Hpark as [(_ & En & (_ & (z & w & Hz & Hw & Ew) & _) & Hi')|[(_ & _ & Hne & Hsw & Hi')|(? & _)]]; [| |done].
  - split_and!; [done|done|]. exists w. destruct (Hend z w _ Hz Ew) as (E1 & E2 & E3 & E4); [congruence|]. split_and!; try done. by left.
  - split_and!; [done|done|]. destruct Hsw as (_ & _ & Hp & _ & Hcur & _). destruct Hp as [Hnone|(z & w & Hz & Hw & Ew)].
    + destruct (waiting_proc v' s' e 0 (current s) o Hi') as (y & _ & Hy & _); [rewrite HWo'; set_solver|congruence].
    + exists w. destruct (Hend z w _ Hz Ew Hne) as (E1 & E2 & E3 & E4). split_and!; try done. right. split; [done|congruence].
Qed.

Lemma futex_wait_result v s e n uaddr val uval x : inv v s e 0 → current s ≠ idle_thread s → procs s !! current s = Some x → wait_on x = 0 → small n e → n ≤ 98 → futex_initialized s ≠ 0 →
  let a := futex_get_phys_addr word cr3 uaddr in let o := futex_bucket (futex_hash a) in
  wp (futex_wait word cr3 uaddr val uval) s (λ r s',
    if negb (futex_validate_addr uaddr =? 0) then r = Some (futex_validate_addr uaddr) ∧ s' = s
    else if a =? 0 then r = Some EFAULT ∧ s' = s
    else if uval =? val then
      r = Some 0 ∧ on_queue x = 1 ∨
      r = None ∧ ∃ v', inv v' s' e 0 ∧ W v' o = W v o ++ [current s] ∧ ∃ y, procs s' !! current s = Some y ∧ pstate y = PROCESS_BLOCKED ∧ wait_on y = o ∧ futex_key y = a ∧
        (pc y = Halted o AfterFutex ∨ pc y = Parked o AfterFutex ∧ current s' ≠ current s)
    else r = Some EAGAIN ∧ procs s' = procs s ∧ current s' = current s).
Proof.
  intros Hi Hidle Hx Hw Hs Hn Hf a o. assert (Hc0 : current s ≠ 0) by exact (live_ne _ _ _ _ _ _ Hi Hx). unfold futex_wait. cbv zeta. fold a. destruct (negb (futex_validate_addr uaddr =? 0)); [by apply wp_ret|]. destruct (a =? 0); [by apply wp_ret|].
  fold o. assert (Ho : 1 ≤ o < SLEEP) by apply bucket_range. eapply wp_use; [by apply (prepare_spec v s e n o uval val _ x)|]. cbn beta. intros [] s1; cbn [negb].
  - intros (-> & v1 & He & HS & Hkey). rewrite Z.eqb_refl. pose proof He as (Hi1 & Hm & HQ & _). destruct (c_rest Hm) as (C1 & C2 & C3). unfold wait_object_park_committed. apply wp_bind, wp_bind, wp_read. rewrite C2.
    eapply wp_mono; [apply (entered_park o AfterFutex x v s e v1 s1 He Hidle); [left; lia|]|].
    { rewrite HS. intros Hin. by destruct (not_sleeping _ _ _ _ _ Hi Hx Hw). }
    cbn beta. intros b s' (v' & nx & s2 & Hpick & Hpark). assert (Hb : blocks o AfterFutex x v s e b s') by by exists v1, s1, v', nx, s2. destruct b.
    + destruct (blocks_true _ _ _ _ _ _ _ Hi Hidle Hc0 Hb) as (v2 & y & Hi2 & _ & _ & D2 & D3 & Hy & Hwy & _). apply wp_bind.
      eapply wp_mono; [apply (resume_spec v2 s' _ _ o AfterFutex false 0 y I Hi2); [by right|by rewrite D2, D3|by rewrite D2|by right|lia|apply (i_static _ _ _ _ Hi2); lia]|].
      cbn beta. intros _ s'' _. apply wp_ret. left. split; [done|]. destruct Hpark as [(? & _)|[(? & _)|(_ & -> & _)]]; [done..|]. pose proof Hpick as (_ & _ & l1 & _ & _ & Hl). destruct Hl as [(? & _)|(z & _ & Hsv & _)]; [congruence|].
      assert (Hq : current s ∈ service v1 (active s1)) by (rewrite Hsv; set_solver). apply (elem_service v1 s1 e (current s)) in Hq as (r & j & Hq); [|done]. rewrite HQ in Hq.
      destruct (po_queue _ _ _ _ _ _ _ (i_procs _ _ _ _ Hi _ x Hx)) as [[? _]|[_ Hno]]; [done|by destruct (Hno r j)].
    + apply wp_ret. right. split; [done|]. exists v'. eapply left_waiting; try done. lia.
  - intros (Hne & Hi1 & Hc1 & Hp1). apply wp_ret. destruct (Z.eqb_spec uval val); [done|]. destruct (c_rest Hc1) as (_ & C2 & _). done.
Qed.

End Calls.

End SchedFutex.
