(* ===== verification/SchedLife.v ===== *)
(** * Termination, signals and priorities keep the invariant *)

From S2P Require Import Prelude Errno Links Pcb Sched WaitObj Lifecycle SchedInv SchedQueue SchedOps SchedReady SchedPick SchedWait SchedWake SchedBlock SchedRank SchedCalls.
Import Links Pcb Sched WaitObj Lifecycle SchedInv SchedQueue SchedOps SchedReady SchedPick SchedSwitch SchedWait SchedWake SchedBlock SchedRank SchedCalls.

Module SchedLife.
Local Open Scope Z_scope.

(** A process that cannot go away: somebody holds a reference, or it runs. *)
Definition held (s : state) (e : Z → Z) (p : Z) : Prop := 0 < e p ∨ p = current s ∧ p ≠ idle_thread s.

Lemma held_live v s e h p : inv v s e h → held s e p → p ≠ 0 → ∃ x, procs s !! p = Some x.
Proof. intros Hi [H|[-> _]] H0; [|by eapply live_current]. destruct (i_extra _ _ _ _ Hi p) as [_ [x Hx]]; [done|by exists x]. Qed.

Lemma held_calm R v s v' s' e p : gains R v s v' s' → held s e p → held s' e p.
Proof. intros [(_ & C2 & C3) _ _ _ _] [H|[H1 H2]]; [by left|right]. by rewrite C2, C3. Qed.

Lemma held_bump s e p q d : 0 ≤ d → held s e p → held s (bump e q d) p.
Proof. intros Hd [H|H]; [left|by right]. unfold bump. case_decide; lia. Qed.

Lemma held_anchor s e p x : held s e p → procs s !! p = Some x → child_wait x ≠ 0 → anchored s e (child_wait x).
Proof. intros Hh Hx Hc. right. exists p, x. split_and!; try done. destruct Hh as [?|[? _]]; auto. Qed.

Lemma child_not_sleep v s e h p x : inv v s e h → procs s !! p = Some x → child_wait x ≠ 0 → child_wait x ≠ SLEEP.
Proof. intros Hi Hx Hc. destruct (po_child _ _ _ _ _ _ _ (i_procs _ _ _ _ Hi p x Hx)); lia. Qed.

(** ** The table *)

Lemma table_entry v s e h i p : inv v s e h → process_table s !! i = Some p → p ≠ 0 → ∃ x, procs s !! p = Some x ∧ pid x = Z.of_nat i.
Proof.
  intros Hi Ht H0. pose proof (t_slot _ _ _ (i_table _ _ _ _ Hi) i p Ht H0) as H. rewrite lookup_fmap in H. apply fmap_Some in H as (x & Hx & E). by exists x.
Qed.

Lemma get_by_pid_spec v s e h n i : inv v s e h → small n e → n ≤ 99 →
  wp (process_get_by_pid i) s (λ p s', p = 0 ∧ s' = s ∨ p ≠ 0 ∧ (∃ x, procs s !! p = Some x ∧ (0 ≤ i → pid x = i)) ∧ inv v s' (bump e p 1) h ∧ calm v s v s' ∧ same_cores (λ _, True) s s' ∧ process_table s' = process_table s).
Proof.
  intros Hi Hs Hn. unfold process_get_by_pid. apply wp_if; intros Em; [apply wp_ret; by left|]. apply Z.leb_gt in Em. apply wp_bind, wp_read. set (p := process_table s !!! Z.to_nat i).
  assert (Ht : process_table s !! Z.to_nat i = Some p). { apply list_lookup_lookup_total_lt. destruct (i_table _ _ _ _ Hi) as [[L _] _ _ _]. unfold MAX_PROCESSES in Em. lia. }
  apply wp_bind, wp_when; intros E; [apply negb_true_iff, Z.eqb_neq in E|apply negb_false_iff, Z.eqb_eq in E; apply wp_ret; by left].
  destruct (table_entry v s e h _ p Hi Ht E) as (x & Hx & Ep). eapply wp_mono; [apply wp_and; [apply (ref_spec v s e h n p Hi); [by exists x|done|lia]|]|].
  - instantiate (1 := λ _ s', process_table s' = process_table s). apply wp_bind, (wp_get p x); [done|]. apply wp_upd; [by exists x|done].
  - cbn beta. intros _ s' [(H1 & H2 & H3) H4]. apply wp_ret. right. split; [done|]. split; [exists x; split; [done|lia]|]. split_and!; try done. by apply calm_cores.
Qed.

(** ** Waking parents and waiters *)

Lemma wake_child_spec v s e h n p x : inv v s e h → procs s !! p = Some x → held s e p → hole_ok h s → small n e → n ≤ 98 →
  wp (wake_child_wait p) s (λ _ s', ∃ v', inv v' s' e h ∧ calm v s v' s').
Proof.
  intros Hi Hx Hh Hho Hs Hn. apply wp_bind, (wp_get p x); [done|]. apply wp_when; intros E; [apply negb_true_iff, Z.eqb_neq in E|exists v; split; [done|apply calm_refl]].
  eapply wp_use; [apply (wake_first_spec v s e h n (child_wait x) Hi); [by eapply held_anchor|by eapply child_not_sleep|done|done|done]|]. cbn beta. intros _ s' (v' & H1 & H2). apply wp_ret. by exists v'.
Qed.

(** Dropping a reference to a process found in the table. *)
Lemma put_back_spec v s e p : inv v s (bump e p 1) 0 → (∀ q, 0 ≤ e q) → wp (process_unref p) s (λ _ s', inv v s' e 0 ∧ dropped p s s' ∧ calm v s v s').
Proof.
  intros Hi He. eapply wp_mono; [apply (unref_spec v s _ 0 p Hi)|].
  - rewrite bump_eq. specialize (He p). lia.
  - intros ->. destruct (i_extra _ _ _ _ Hi 0) as [_ [x Hx]]; [rewrite bump_eq; specialize (He 0); lia|]. by destruct (live_ne _ _ _ _ _ _ Hi Hx).
  - cbn beta. intros _ s' (H1 & H2 & _). split; [by apply bump_back in H1|]. split; [done|by eapply calm_dropped].
Qed.

Lemma notify_parent_spec v s e n pp ps : inv v s e 0 → small n e → n ≤ 97 → wp (notify_parent pp ps) s (λ _ s', ∃ v', inv v' s' e 0 ∧ calm v s v' s').
Proof.
  intros Hi Hs Hn. pose proof (λ q, proj1 (i_extra _ _ _ _ Hi q)) as He. unfold notify_parent. apply wp_when; intros _; [|exists v; split; [done|apply calm_refl]].
  eapply wp_use; [apply (get_by_pid_spec v s e 0 n pp Hi Hs); lia|]. cbn beta. intros p s1 [(-> & ->)|(Hp & (x & Hx & _) & Hi1 & Hc1 & Hs1 & _)]; [cbn; apply wp_ret; exists v; split; [done|apply calm_refl]|].
  destruct (Z.eqb_spec p 0); [done|]. cbn [negb when]. destruct (core_of _ _ _ _ Hs1 Hx) as (y & Hy & _). apply wp_bind, (wp_get p y); [done|].
  assert (Hmid : wp (when ((pp =? 1) || (create_seq y =? ps)) (upd p (λ y, set_sig_pending (Z.lor (sig_pending y) (Z.shiftl 1 17)) y);; wake_child_wait p)) s1 (λ _ s2, ∃ v2, inv v2 s2 (bump e p 1) 0 ∧ calm v s1 v2 s2)).
  { apply wp_when; intros _; [|exists v; split; [done|apply calm_refl]]. apply wp_bind, wp_upd; [by exists y|]. set (f := λ y, set_sig_pending (Z.lor (sig_pending y) (Z.shiftl 1 17)) y). set (s2 := put_procs _ s1).
    assert (Hi2 : inv v s2 (bump e p 1) 0) by (apply inv_plain; [by intros z|done|by exists y]). assert (Hy2 : procs s2 !! p = Some (f y)) by (cbn; by rewrite lookup_alter_eq, Hy).
    eapply wp_mono; [apply (wake_child_spec v s2 _ 0 (n + 1) p (f y) Hi2 Hy2); [left; rewrite bump_eq; specialize (He p); lia|by left|apply small_bump; [lia|done]|lia]|]. cbn beta. intros _ s3 (v3 & H1 & H2). exists v3. split; [done|].
    eapply calm_trans; [|exact H2]. apply (calm_upd v s1 p f y Hy). unfold steady, kept. cbn. tauto. }
  eapply wp_use; [exact Hmid|]. cbn beta. intros _ s2 (v2 & Hi2 & Hc2). eapply wp_mono; [apply (put_back_spec v2 s2 e p Hi2 He)|]. cbn beta. intros _ s3 (Hi3 & _ & Hc3). exists v2. split; [done|]. eapply calm_trans; [exact Hc1|]. eapply calm_trans; [exact Hc2|exact Hc3].
Qed.

Lemma notify_init_spec v s e n : inv v s e 0 → small n e → n ≤ 97 → wp notify_init s (λ _ s', ∃ v', inv v' s' e 0 ∧ calm v s v' s').
Proof.
  intros Hi Hs Hn. pose proof (λ q, proj1 (i_extra _ _ _ _ Hi q)) as He. unfold notify_init.
  eapply wp_use; [apply (get_by_pid_spec v s e 0 n 1 Hi Hs); lia|]. cbn beta. intros p s1 [(-> & ->)|(Hp & (x & Hx & _) & Hi1 & Hc1 & Hs1 & _)]; [cbn; apply wp_ret; exists v; split; [done|apply calm_refl]|].
  destruct (Z.eqb_spec p 0); [done|]. cbn [negb when]. destruct (core_of _ _ _ _ Hs1 Hx) as (y & Hy & _).
  eapply wp_use; [apply (wake_child_spec v s1 _ 0 (n + 1) p y Hi1 Hy); [left; rewrite bump_eq; specialize (He p); lia|by left|apply small_bump; [lia|done]|lia]|]. cbn beta. intros _ s2 (v2 & Hi2 & Hc2).
  eapply wp_mono; [apply (put_back_spec v2 s2 e p Hi2 He)|]. cbn beta. intros _ s3 (Hi3 & _ & Hc3). exists v2. split; [done|]. eapply calm_trans; [exact Hc1|]. eapply calm_trans; [exact Hc2|exact Hc3].
Qed.

(** ** Orphans *)

Lemma reparent_spec v s e child dying seq l z : inv v s e 0 → dying ≠ 0 → (∀ p, p ∈ l → p ≠ 0 → is_Some (procs s !! p)) →
  wp (reparent child dying seq l z) s (λ _ s', inv v s' e 0 ∧ calm v s v s').
Proof.
  revert s z. induction l as [|p l IH]; intros s z Hi Hd Hl; cbn [reparent]; [apply wp_ret; split; [done|apply calm_refl]|].
  assert (Hl' : ∀ q, q ∈ l → q ≠ 0 → is_Some (procs s !! q)) by (intros q Hq; apply Hl; by right). apply wp_if; intros E; [by apply IH|]. apply orb_false_iff in E as [E%Z.eqb_neq _].
  destruct (Hl p ltac:(left) E) as [x Hx]. apply wp_bind, (wp_get p x); [done|]. apply wp_if; intros Ed; [apply Z.eqb_eq in Ed|by apply IH].
  apply wp_bind, wp_upd; [by exists x|]. set (f := λ x, set_parent_seq seq (set_parent_pid 1 x)). set (s1 := put_procs _ s).
  assert (Hidle : p ≠ idle_thread s). { intros ->. destruct (i_idle _ _ _ _ Hi) as (y & Hy & _ & _ & _ & _ & E' & _). assert (y = x) as -> by congruence. congruence. }
  assert (Hi1 : inv v s1 e 0). { apply (inv_update v s e 0 p f x Hi Hx); try done; [by right|]. eapply proc_ok_ext; [..|by apply (i_procs _ _ _ _ Hi)]; done. }
  eapply wp_mono; [apply (IH s1); [done|done|]|].
  - intros q Hq Hq0. cbn. apply lookup_alter_is_Some. by apply Hl'.
  - cbn beta. intros _ s' [H1 H2]. split; [done|]. eapply calm_trans; [|exact H2]. apply (calm_upd v s p f x Hx). unfold steady, kept. cbn. tauto.
Qed.

Lemma orphan_spec v s e n child dying : inv v s e 0 → dying ≠ 0 → small n e → n ≤ 97 → wp (orphan_children child dying) s (λ _ s', inv v s' e 0 ∧ calm v s v s').
Proof.
  intros Hi Hd Hs Hn. pose proof (λ q, proj1 (i_extra _ _ _ _ Hi q)) as He. unfold orphan_children. apply wp_if; intros _; [apply wp_ret; split; [done|apply calm_refl]|].
  assert (Hrest : ∀ s1 seq, inv v s1 e 0 → calm v s v s1 → wp (t <- read process_table; reparent child dying seq t false) s1 (λ _ s', inv v s' e 0 ∧ calm v s v s')).
  { intros s1 seq Hi1 Hc1. apply wp_bind, wp_read. eapply wp_mono; [apply (reparent_spec v s1 e child dying seq _ _ Hi1 Hd)|].
    - intros p [i Ht]%list_elem_of_lookup_1 Hp. destruct (table_entry v s1 e 0 i p Hi1 Ht Hp) as (x & Hx & _). by exists x.
    - cbn beta. intros _ s' [H1 H2]. split; [done|]. by eapply calm_trans. }
  eapply wp_use; [apply (get_by_pid_spec v s e 0 n 1 Hi Hs); lia|]. cbn beta. intros p s1 [(-> & ->)|(Hp & (x & Hx & _) & Hi1 & Hc1 & Hs1 & _)]; [cbn; apply wp_bind, wp_ret; apply Hrest; [done|apply calm_refl]|].
  destruct (Z.eqb_spec p 0); [done|]. destruct (core_of _ _ _ _ Hs1 Hx) as (y & Hy & _). apply wp_bind, wp_bind, (wp_get p y); [done|].
  eapply wp_use; [apply (put_back_spec v s1 e p Hi1 He)|]. cbn beta. intros _ s2 (Hi2 & _ & Hc2). apply wp_ret. apply Hrest; [done|]. by eapply calm_trans.
Qed.

(** ** Termination *)

Lemma on_terminate_spec v s e n child x : inv v s e 0 → procs s !! child = Some x → pid x ≠ 0 → held s e child → small n e → n ≤ 97 →
  wp (process_on_terminate child) s (λ _ s', ∃ v', inv v' s' e 0 ∧ calm v s v' s').
Proof.
  intros Hi Hx Hpid Hh Hs Hn. assert (Hc0 : child ≠ 0) by exact (live_ne _ _ _ _ _ _ Hi Hx). unfold process_on_terminate. apply wp_bind, (wp_get child x); [done|].
  eapply wp_use; [by apply (orphan_spec v s e n)|]. cbn beta. intros zombie s1 [Hi1 Hc1]. destruct (held_live v s1 e 0 child Hi1 (held_calm _ _ _ _ _ _ _ Hc1 Hh) Hc0) as [x1 Hx1].
  apply wp_bind, (wp_get child x1); [done|]. eapply wp_use; [by apply (notify_parent_spec v s1 e n)|]. cbn beta. intros _ s2 (v2 & Hi2 & Hc2). pose proof (calm_trans _ _ _ _ _ _ Hc1 Hc2) as Hc12.
  assert (Hz : wp (when zombie notify_init) s2 (λ _ s3, ∃ v3, inv v3 s3 e 0 ∧ calm v s v3 s3)).
  { apply wp_when; intros _; [|by exists v2]. eapply wp_mono; [by apply (notify_init_spec v2 s2 e n)|]. cbn beta. intros _ s3 (v3 & H1 & H2). exists v3. split; [done|]. by eapply calm_trans. }
  eapply wp_use; [exact Hz|]. cbn beta. intros _ s3 (v3 & Hi3 & Hc3). pose proof (held_calm _ _ _ _ _ _ _ Hc3 Hh) as Hh3. destruct (held_live v3 s3 e 0 child Hi3 Hh3 Hc0) as [x3 Hx3].
  apply wp_bind, (wp_get child x3); [done|]. apply wp_when; intros E; [apply negb_true_iff, Z.eqb_neq in E|by exists v3].
  eapply wp_use; [apply (wake_all_spec v3 s3 e 0 n (child_wait x3) Hi3); [by eapply held_anchor|by eapply child_not_sleep|by left|done|lia]|]. cbn beta. intros _ s4 (v4 & H1 & H2). apply wp_ret. exists v4. split; [done|]. by eapply calm_trans.
Qed.

Lemma abort_spec v s e o p x : inv v s e 0 → procs s !! p = Some x → wait_on x = o → o ≠ 0 → o ≠ SLEEP →
  wp (wait_object_abort o p) s (λ _ s', ∃ v', inv v' s' e 0 ∧ calm v s v' s').
Proof.
  intros Hi Hx Hw Ho0 Hos. assert (Ho : is_Some (objects s !! o)).
  { destruct (waiting_proc v s e 0 p o Hi) as (_ & w & _ & _ & _ & Hw' & _); [|by exists w]. by apply (po_wait _ _ _ _ _ _ _ (i_procs _ _ _ _ Hi p x Hx)). }
  unfold wait_object_abort. eapply wp_use; [by apply (init_calm v s e 0 o)|]. cbn beta. intros _ s1 (Hi1 & Hc1 & Hp1 & _ & _ & w' & Hw' & _).
  eapply wp_use; [apply (wo_unlink_spec v s1 e 0 o p Hi1); [rewrite Hw'; apply lookup_insert_is_Some'; by left|by left]|]. cbn beta. intros [] s2.
  2: { intros [-> _]. cbn. apply wp_bind, wp_ret, wp_ret. by exists v. }
  intros (l1 & l2 & x1 & Hl & Hx1 & Hi2 & Hs2 & Hp2 & Hg2). assert (x1 = x) as -> by congruence.
  assert (Hc2 : calm v s1 (put_W v o (l1 ++ l2)) s2). { apply (calm_one v _ s1 s2 p x (set_wait_on 0 x)); try done. unfold steady, kept. cbn. tauto. }
  cbn [when]. pose proof (calm_trans _ _ _ _ _ _ Hc1 Hc2) as Hc12. eapply wp_use; [apply (put_back_spec _ s2 e p Hi2); intros q; apply (i_extra _ _ _ _ Hi)|].
  cbn beta. intros _ s3 (Hi3 & _ & Hc3). apply wp_ret. exists (put_W v o (l1 ++ l2)). split; [done|]. by eapply calm_trans.
Qed.

Lemma removed_gain v s e v' s' e' x : inv v s e 0 → inv v' s' e' 0 → procs s !! current s = Some x → removed (current s) x v v' s s' → gain v s v' s'.
Proof.
  intros Hi Hi' Hx Hr. pose proof (ebb_removed _ _ _ _ _ _ _ _ _ _ Hi Hi' Hx Hr) as He. destruct Hr as (_ & (_ & C2 & _) & _ & _ & Hcase). split; [done|]. intros p Hn (r & k & Hp). assert (Hq : is_queued v' p).
  { exists r, k. destruct Hcase as [(_ & -> & _)|(r' & l1 & l2 & Hl & -> & _)]; [done|]. rewrite elem_put_Q. destruct (decide ((r, k) = (r', level x))) as [E|E]; [left|by right]. split; [done|]. injection E as -> ->. rewrite Hl in Hp. set_solver. }
  split; [done|]. destruct (He p Hq) as [_ E]. rewrite moved_same in E by done. lia.
Qed.

(** The end of a process: others become ready, then it leaves the queue. *)
Definition ended (target : Z) (v : view) (s : state) (e : Z → Z) (s' : state) : Prop :=
  ∃ v1 s1 v' x1, inv v1 s1 e 0 ∧ calm v s v1 s1 ∧ procs s1 !! target = Some x1 ∧ inv v' s' e 0 ∧ removed target x1 v1 v' s1 s'.

Lemma ended_flow target v s e s' : inv v s e 0 → ended target v s e s' →
  ∃ v', inv v' s' e 0 ∧ current s' = current s ∧ idle_thread s' = idle_thread s ∧ (∀ v'' s'', ebb v' s' v'' s'' → flow v s v'' s'') ∧ (target = current s → gain v s v' s').
Proof.
  intros Hi (v1 & s1 & v' & x1 & Hi1 & Hc1 & Hx1 & Hi' & Hr). destruct (c_rest Hc1) as (C1 & C2 & C3). pose proof Hr as (_ & (D1 & D2 & D3 & _) & _). pose proof (gain_calm _ _ _ _ _ _ Hi Hc1) as Hg. exists v'. split_and!; [done|congruence|congruence| |].
  - intros v'' s'' He. eapply flow_intro; [exact Hg|]. eapply ebb_trans; [by eapply ebb_removed|exact He].
  - intros ->. eapply gain_trans; [exact Hg|]. rewrite <- C2 in *. by eapply removed_gain.
Qed.

Lemma not_idle_pid v s e h p x : inv v s e h → procs s !! p = Some x → p ≠ idle_thread s → pid x ≠ 0.
Proof.
  intros Hi Hx Hn E. destruct (i_idle _ _ _ _ Hi) as (y & Hy & Ey & _). destruct (i_table _ _ _ _ Hi) as [_ Hp _ _].
  destruct (Hp p (pid x)) as [_ H1]; [by rewrite lookup_fmap, Hx|]. destruct (Hp (idle_thread s) (pid y)) as [_ H2]; [by rewrite lookup_fmap, Hy|]. rewrite E in H1. rewrite Ey in H2. congruence.
Qed.

Lemma terminate_spec v s e n target status x : inv v s e 0 → procs s !! target = Some x → target ≠ idle_thread s → wait_on x ≠ SLEEP → held s e target → small n e → n ≤ 97 →
  wp (terminate target status) s (λ _ s', ended target v s e s').
Proof.
  intros Hi Hx Hidle Hws Hh Hs Hn. assert (Hp0 : target ≠ 0) by exact (live_ne _ _ _ _ _ _ Hi Hx). unfold terminate. apply wp_bind, (wp_get target x); [done|].
  assert (H1 : wp (when (bool_decide (pstate x = PROCESS_BLOCKED) && negb (wait_on x =? 0)) (wait_object_abort (wait_on x) target;; ret tt)) s (λ _ s1, ∃ v1, inv v1 s1 e 0 ∧ calm v s v1 s1)).
  { apply wp_when; intros E; [|exists v; split; [done|apply calm_refl]]. apply andb_true_iff in E as [_ E]. apply negb_true_iff, Z.eqb_neq in E.
    eapply wp_use; [by apply (abort_spec v s e (wait_on x) target x)|]. cbn beta. intros _ s1 (v1 & A & B). apply wp_ret. by exists v1. }
  eapply wp_use; [exact H1|]. cbn beta. clear H1. intros _ s1 (v1 & Hi1 & Hc1). pose proof (held_calm _ _ _ _ _ _ _ Hc1 Hh) as Hh1. destruct (held_live v1 s1 e 0 target Hi1 Hh1 Hp0) as [x1 Hx1].
  apply wp_bind, wp_upd; [by exists x1|]. set (f := λ x, set_exit_status status (set_pstate PROCESS_TERMINATED x)). set (s2 := put_procs _ s1).
  assert (Hi2 : inv v1 s2 e 0) by (apply inv_plain; [by intros z|done|by exists x1]). assert (Hx2 : procs s2 !! target = Some (f x1)) by (cbn; by rewrite lookup_alter_eq, Hx1).
  assert (Hc2 : calm v1 s1 v1 s2) by (apply (calm_upd v1 s1 target f x1 Hx1); unfold steady, kept; cbn; tauto). pose proof (held_calm _ _ _ _ _ _ _ Hc2 Hh1) as Hh2. pose proof (calm_trans _ _ _ _ _ _ Hc1 Hc2) as Hc12. destruct (c_rest Hc12) as (C1 & C2 & C3).
  eapply wp_use; [apply (on_terminate_spec v1 s2 e n target (f x1) Hi2 Hx2); [|done|done|done]|].
  { apply (not_idle_pid v1 s2 e 0 target (f x1) Hi2 Hx2). congruence. }
  cbn beta. intros _ s3 (v3 & Hi3 & Hc3). pose proof (calm_trans _ _ _ _ _ _ Hc12 Hc3) as Hc. pose proof (held_calm _ _ _ _ _ _ _ Hc Hh) as Hh3. destruct (held_live v3 s3 e 0 target Hi3 Hh3 Hp0) as [x3 Hx3].
  eapply wp_mono; [apply (remove_spec v3 s3 e 0 target x3 Hi3 Hx3); [done|destruct Hh3 as [?|?]; auto]|]. cbn beta. intros _ s' (v' & H1 & H2). by exists v3, s3, v', x3.
Qed.

Lemma stop_spec v s e target x : inv v s e 0 → procs s !! target = Some x → held s e target → pstate x ≠ PROCESS_TERMINATED → wp (stop target) s (λ _ s', ended target v s e s').
Proof.
  intros Hi Hx Hh Ht. assert (Hp0 : target ≠ 0) by exact (live_ne _ _ _ _ _ _ Hi Hx). unfold stop. apply wp_bind, wp_upd; [by exists x|]. set (f := λ x, set_stopped_by_signal 1 (set_pstate PROCESS_BLOCKED x)). set (s1 := put_procs _ s).
  assert (Hi1 : inv v s1 e 0) by (apply inv_plain; [by intros z|done|by exists x]). assert (Hx1 : procs s1 !! target = Some (f x)) by (cbn; by rewrite lookup_alter_eq, Hx).
  assert (Hc1 : calm v s v s1) by (apply (calm_upd v s target f x Hx); unfold steady, kept; cbn; tauto). pose proof (held_calm _ _ _ _ _ _ _ Hc1 Hh) as Hh1.
  eapply wp_mono; [apply (remove_spec v s1 e 0 target (f x) Hi1 Hx1); [done|destruct Hh1 as [?|?]; auto]|]. cbn beta. intros _ s' (v' & H1 & H2). by exists v, s1, v', (f x).
Qed.

(** ** Signals *)

(** A step after which processes may still leave the queues. *)
Definition streams (v : view) (s : state) (e : Z → Z) (s' : state) : Prop :=
  ∃ v', inv v' s' e 0 ∧ current s' = current s ∧ idle_thread s' = idle_thread s ∧ ∀ v'' s'', ebb v' s' v'' s'' → flow v s v'' s''.

Lemma streams_calm v s e v' s' : inv v s e 0 → inv v' s' e 0 → calm v s v' s' → streams v s e s'.
Proof. intros Hi Hi' Hc. destruct (c_rest Hc) as (C1 & C2 & C3). exists v'. split_and!; try done. intros v'' s'' He. eapply flow_intro; [by eapply gain_calm|exact He]. Qed.

Lemma streams_ended target v s e s' : inv v s e 0 → ended target v s e s' → streams v s e s'.
Proof. intros Hi He. destruct (ended_flow _ _ _ _ _ Hi He) as (v' & H1 & H2 & H3 & H4 & _). by exists v'. Qed.

Lemma streams_gain v s e0 e v1 s1 s' : inv v s e0 0 → calm v s v1 s1 → streams v1 s1 e s' → streams v s e s'.
Proof.
  intros Hi Hc (v' & H1 & H2 & H3 & H4). destruct (c_rest Hc) as (C1 & C2 & C3). exists v'. split_and!; [done|congruence|congruence|]. intros v'' s'' He. eapply flow_gain; [by eapply gain_calm|]. by apply H4.
Qed.

Lemma deliver_spec v s e n target sig x : inv v s e 0 → procs s !! target = Some x → target ≠ idle_thread s → wait_on x ≠ SLEEP → held s e target → pstate x ≠ PROCESS_TERMINATED → small n e → n ≤ 97 →
  wp (deliver target sig) s (λ _ s', streams v s e s').
Proof.
  intros Hi Hx Hidle Hws Hh Ht Hs Hn. assert (Hnone : streams v s e s) by (eapply streams_calm; [done|done|apply calm_refl]). unfold deliver. apply wp_bind, (wp_get target x); [done|].
  apply wp_if; intros _; [eapply wp_mono; [by apply (terminate_spec v s e n target _ x)|]; cbn beta; intros _ s'; by apply streams_ended|].
  apply wp_if; intros _; [eapply wp_mono; [by apply (terminate_spec v s e n target _ x)|]; cbn beta; intros _ s'; by apply streams_ended|].
  apply wp_if; intros _; [apply wp_when; intros _; [|done]; eapply wp_mono; [by apply (stop_spec v s e target x)|]; cbn beta; intros _ s'; by apply streams_ended|].
  apply wp_if; intros _.
  - apply wp_when; intros E; [|done]. apply andb_true_iff in E as [Eb%bool_decide_eq_true _]. apply wp_bind, wp_upd; [by exists x|]. set (s1 := put_procs _ s).
    assert (Hi1 : inv v s1 e 0) by (apply inv_plain; [by intros z|done|by exists x]). assert (Hx1 : procs s1 !! target = Some (set_stopped_by_signal 0 x)) by (cbn; by rewrite lookup_alter_eq, Hx).
    eapply wp_mono; [apply (make_ready_spec v s1 e 0 n target _ Hi1 Hx1); try done; lia|]. cbn beta. intros _ s2 (v2 & Hi2 & Hc2 & _). eapply streams_calm; [done|done|]. eapply calm_trans; [|exact Hc2]. apply (calm_upd v s target _ x Hx). unfold steady, kept. cbn. tauto.
  - apply wp_bind, wp_upd; [by exists x|]. set (f := λ x, set_sig_pending (Z.lor (sig_pending x) (Z.shiftl 1 sig)) x). set (s1 := put_procs _ s).
    assert (Hi1 : inv v s1 e 0) by (apply inv_plain; [by intros z|done|by exists x]). assert (Hx1 : procs s1 !! target = Some (f x)) by (cbn; by rewrite lookup_alter_eq, Hx).
    assert (Hc1 : calm v s v s1) by (apply (calm_upd v s target f x Hx); unfold steady, kept; cbn; tauto).
    apply wp_when; intros _; [|by eapply streams_calm]. apply wp_when; intros E; [apply negb_true_iff, Z.eqb_neq in E|by eapply streams_calm].
    eapply wp_use; [by apply (abort_spec v s1 e (wait_on x) target (f x))|]. cbn beta. intros _ s2 (v2 & A & B). apply wp_ret. eapply streams_calm; [done|done|]. by eapply calm_trans.
Qed.

(** The last step of a call that holds a reference. *)
Lemma finish_unref v s e p s1 (r : Z) : inv v s e 0 → streams v s (bump e p 1) s1 → current s ≠ 0 → wp (process_unref p;; ret r) s1 (λ _ s', lands flow v s e s').
Proof.
  intros Hi (v' & H1 & H2 & H3 & H4) Hc0. pose proof (λ q, proj1 (i_extra _ _ _ _ Hi q)) as He. eapply wp_use; [by apply (put_back_spec v' s1 e p)|]. cbn beta. intros _ s2 (Hi2 & Hd2 & Hc2). apply wp_ret. destruct (c_rest Hc2) as (C1 & C2 & C3).
  eapply lands_same; [exact Hi2| |congruence|congruence]. apply H4. by eapply ebb_dropped.
Qed.

(** What must not be signalled: the idle thread, and a process inside [sys_sleep]. *)
Definition signalable (s : state) (i : Z) : Prop := i ≠ 0 ∧ ∀ p x, procs s !! p = Some x → pid x = i → wait_on x ≠ SLEEP.

Lemma kill_spec v s e n i sig : inv v s e 0 → current s ≠ 0 → small n e → n ≤ 96 → 0 ≤ i → signalable s i → wp (sys_kill i sig) s (λ _ s', lands flow v s e s').
Proof.
  intros Hi Hc0 Hs Hn Hi0 [Hsig0 Hsig]. pose proof (λ q, proj1 (i_extra _ _ _ _ Hi q)) as He. unfold sys_kill. apply wp_if; intros _; [apply wp_ret; by apply lands_none|]. apply wp_if; intros _; [apply wp_ret; by apply lands_none|].
  eapply wp_use; [apply (get_by_pid_spec v s e 0 n i Hi Hs); lia|]. cbn beta. intros p s1 [(-> & ->)|(Hp & (x & Hx & Epid) & Hi1 & Hc1 & Hs1 & _)]; [cbn; apply wp_ret; by apply lands_none|].
  specialize (Epid Hi0). destruct (c_rest Hc1) as (C1 & C2 & C3). destruct (Z.eqb_spec p 0); [done|]. destruct (core_of _ _ _ _ Hs1 Hx) as (x1 & Hx1 & E1). apply core_fields in E1 as F1.
  assert (Hst : streams v s (bump e p 1) s1). { exists v. split_and!; try done. intros v'' s'' Heb. eapply flow_intro; [|exact Heb]. by eapply gain_calm. }
  apply wp_if; intros _; [by apply finish_unref|]. apply wp_bind, (wp_get p x1); [done|]. apply wp_bind, wp_read. destruct (live_current v s1 _ 0 Hi1) as [k Hk]; [by rewrite C2|].
  apply wp_bind. destruct (Z.eqb_spec (current s1) 0); [by rewrite C2 in *|]. apply wp_bind, (wp_get _ k); [done|]. apply wp_ret. apply wp_if; intros _; [by apply finish_unref|]. apply wp_if; intros Et; [by apply finish_unref|]. apply bool_decide_eq_false in Et.
  assert (Hidle : p ≠ idle_thread s). { intros ->. destruct (i_idle _ _ _ _ Hi) as (y & Hy & E0 & _). assert (y = x) as -> by congruence. congruence. }
  eapply wp_use; [apply (deliver_spec v s1 (bump e p 1) (n + 1) p sig x1 Hi1 Hx1); [congruence| |left; rewrite bump_eq; specialize (He p); lia|done|apply small_bump; [lia|done]|lia]|].
  { specialize (Hsig p x Hx Epid). naive_solver congruence. }
  cbn beta. intros _ s2 Hst2. apply finish_unref; [done| |done]. by eapply (streams_gain v s e).
Qed.

(** ** Priorities *)

Lemma target_spec v s e n i : inv v s e 0 → current s ≠ 0 → small n e → n ≤ 96 →
  wp (target_of i) s (λ p s', p = 0 ∧ s' = s ∨ p ≠ 0 ∧ inv v s' (bump e p 1) 0 ∧ calm v s v s' ∧ ∃ x, procs s' !! p = Some x).
Proof.
  intros Hi Hc0 Hs Hn. unfold target_of. apply wp_if; intros _.
  - apply wp_bind, wp_read. destruct (live_current _ _ _ _ Hi Hc0) as [x Hx]. apply wp_bind. destruct (Z.eqb_spec (current s) 0); [done|]. cbn [negb when].
    eapply wp_mono; [apply (ref_spec v s e 0 n (current s) Hi); [by exists x|done|lia]|]. cbn beta. intros _ s1 (H1 & H2 & H3). apply wp_ret. right. split; [done|]. split; [done|]. split; [by apply calm_cores|]. destruct (core_of _ _ _ _ H2 Hx) as (y & Hy & _). by exists y.
  - eapply wp_mono; [apply (get_by_pid_spec v s e 0 n (u32 i) Hi Hs); lia|]. cbn beta. intros p s1 [?|(Hp & (x & Hx & _) & Hi1 & Hc1 & Hs1 & _)]; [by left|right]. split_and!; try done. destruct (core_of _ _ _ _ Hs1 Hx) as (y & Hy & _). by exists y.
Qed.

Lemma may_renice_spec v s e p x (Φ : bool → state → Prop) : inv v s e 0 → current s ≠ 0 → procs s !! p = Some x → (∀ b, Φ b s) → wp (may_renice p) s Φ.
Proof.
  intros Hi Hc0 Hx H. destruct (live_current _ _ _ _ Hi Hc0) as [c Hc]. unfold may_renice. apply wp_bind, wp_read. destruct (Z.eqb_spec (current s) 0); [done|]. apply wp_bind, (wp_get _ c); [done|]. apply wp_bind, (wp_get p x); [done|]. apply wp_ret, H.
Qed.

(** Setting the priority of a process that the call holds. *)
Lemma renice_spec v s e p s1 x np (r1 r2 : Z) : inv v s e 0 → current s ≠ 0 → inv v s1 (bump e p 1) 0 → calm v s v s1 → procs s1 !! p = Some x →
  wp (ok <- may_renice p; if negb ok then process_unref p;; ret r1 else upd p (set_priority np);; process_unref p;; ret r2) s1 (λ _ s', lands flow v s e s').
Proof.
  intros Hi Hc0 Hi1 Hc1 Hx. destruct (c_rest Hc1) as (C1 & C2 & C3). apply wp_bind, (may_renice_spec v s1 (bump e p 1) p x); [done|congruence|done|]. intros b.
  assert (Hst : ∀ s2, inv v s2 (bump e p 1) 0 → calm v s v s2 → streams v s (bump e p 1) s2). { intros s2 H1 H2. destruct (c_rest H2) as (D1 & D2 & D3). exists v. split_and!; try done. intros v'' s'' Heb. eapply flow_intro; [|exact Heb]. by eapply gain_calm. }
  apply wp_if; intros _; [apply finish_unref; auto|]. apply wp_bind, wp_upd; [by exists x|]. apply finish_unref; [done| |done]. apply Hst; [apply inv_plain; [by intros z|done|by exists x]|]. eapply calm_trans; [exact Hc1|]. apply (calm_upd v s1 p _ x Hx). unfold steady, kept. cbn. tauto.
Qed.

Lemma nice_spec v s e n i inc : inv v s e 0 → current s ≠ 0 → small n e → n ≤ 96 → wp (sys_nice i inc) s (λ _ s', lands flow v s e s').
Proof.
  intros Hi Hc0 Hs Hn. eapply wp_use; [by apply (target_spec v s e n i)|]. cbn beta. intros p s1 [(-> & ->)|(Hp & Hi1 & Hc1 & x & Hx)]; [cbn; apply wp_ret; by apply lands_none|].
  destruct (Z.eqb_spec p 0); [done|]. apply wp_bind, (wp_get p x); [done|]. cbv zeta. by apply (renice_spec v s e p s1 x).
Qed.

Lemma setpriority_spec v s e n which who prio : inv v s e 0 → current s ≠ 0 → small n e → n ≤ 96 → wp (sys_setpriority which who prio) s (λ _ s', lands flow v s e s').
Proof.
  intros Hi Hc0 Hs Hn. unfold sys_setpriority. apply wp_if; intros _; [apply wp_ret; by apply lands_none|]. eapply wp_use; [by apply (target_spec v s e n who)|]. cbn beta. intros p s1 [(-> & ->)|(Hp & Hi1 & Hc1 & x & Hx)]; [cbn; apply wp_ret; by apply lands_none|].
  destruct (Z.eqb_spec p 0); [done|]. by apply (renice_spec v s e p s1 x).
Qed.

End SchedLife.
