(* ===== verification/SchedEvents.v ===== *)
(** * Exit, creation and the timer keep the invariant *)

From S2P Require Import Prelude Errno Links Pcb Sched WaitObj Lifecycle SchedSys SchedInv SchedQueue SchedOps SchedReady SchedPick SchedWait SchedWake SchedBlock SchedRank SchedCalls SchedLife.
Import Links Pcb Sched WaitObj Lifecycle SchedSys SchedInv SchedQueue SchedOps SchedReady SchedPick SchedSwitch SchedWait SchedWake SchedBlock SchedRank SchedCalls SchedLife.

Module SchedEvents.
Local Open Scope Z_scope.

Lemma lands_gain v s e v1 s1 s' : gain v s v1 s1 → idle_thread s1 = idle_thread s → lands flow v1 s1 e s' → lands flow v s e s'.
Proof. intros Hg Hd (v' & e' & H1 & H2 & H3 & H4 & H5). exists v', e'. split_and!; try done; [by eapply flow_gain|congruence]. Qed.

(** ** Exit *)

(** The running process has ended or stopped, and gives the processor away. *)
Lemma ended_schedule v s e n s1 : inv v s e 0 → current s ≠ 0 → current s ≠ idle_thread s → small n e → n ≤ 97 → ended (current s) v s e s1 → wp schedule s1 (λ _ s', lands flow v s e s').
Proof.
  intros Hi Hc0 Hidle Hs Hn He. destruct (ended_flow _ _ _ _ _ Hi He) as (v1 & Hi1 & C2 & C3 & _ & Hg). specialize (Hg eq_refl). destruct (live_current v1 s1 e 0 Hi1) as [x1 Hx1]; [by rewrite C2|].
  eapply wp_mono; [apply (schedule_spec v1 s1 e n x1 Hi1); [by rewrite C2, C3|done|done|lia]|]. cbn beta. intros _ s'. by apply lands_gain.
Qed.

Lemma exit_spec v s e n status x : inv v s e 0 → current s ≠ idle_thread s → procs s !! current s = Some x → small n e → n ≤ 97 → wp (sys_exit status) s (λ _ s', lands flow v s e s').
Proof.
  intros Hi Hidle Hx Hs Hn. assert (Hc0 : current s ≠ 0) by exact (live_ne _ _ _ _ _ _ Hi Hx). unfold sys_exit. apply wp_bind, wp_read. destruct (Z.eqb_spec (current s) 0); [done|]. apply wp_bind, wp_upd; [by exists x|].
  set (f := λ x, set_exit_status (i32 status) (set_pstate PROCESS_TERMINATED x)). set (s1 := put_procs _ s). assert (Hi1 : inv v s1 e 0) by (apply inv_plain; [by intros z|done|by exists x]).
  assert (Hx1 : procs s1 !! current s = Some (f x)) by (cbn; by rewrite lookup_alter_eq, Hx). assert (Hc1 : calm v s v s1) by (apply (calm_upd v s _ f x Hx); unfold steady, kept; cbn; tauto).
  assert (Hh1 : held s1 e (current s)) by by right. eapply wp_use; [apply (on_terminate_spec v s1 e n (current s) (f x) Hi1 Hx1); [|done|done|lia]|].
  { by apply (not_idle_pid v s1 e 0 (current s) (f x) Hi1 Hx1). }
  cbn beta. intros _ s2 (v2 & Hi2 & Hc2). pose proof (calm_trans _ _ _ _ _ _ Hc1 Hc2) as Hc12. pose proof (held_calm _ _ _ _ _ _ _ Hc2 Hh1) as Hh2. destruct (held_live v2 s2 e 0 _ Hi2 Hh2 Hc0) as [x2 Hx2].
  eapply wp_use; [apply (remove_spec v2 s2 e 0 _ x2 Hi2 Hx2); [done|destruct Hh2 as [?|?]; auto]|]. cbn beta. intros _ s3 (v3 & H1 & H2). eapply ended_schedule; try done. by exists v2, s2, v3, x2.
Qed.

Lemma default_action_spec v s e n sig x : inv v s e 0 → current s ≠ idle_thread s → procs s !! current s = Some x → pc x = User → small n e → n ≤ 97 → wp (signal_default_action (current s) sig) s (λ _ s', lands flow v s e s').
Proof.
  intros Hi Hidle Hx Hpc Hs Hn. assert (Hc0 : current s ≠ 0) by exact (live_ne _ _ _ _ _ _ Hi Hx). assert (Hw : wait_on x = 0).
  { pose proof (po_pc _ _ _ _ _ _ _ (i_procs _ _ _ _ Hi _ x Hx)) as H. unfold pc_ok in H. rewrite Hpc in H. by destruct H. }
  assert (Hh : held s e (current s)) by by right. unfold signal_default_action. apply wp_if; intros _; [apply wp_ret; by apply lands_none|]. apply wp_bind, (wp_get _ x); [done|]. apply wp_if; intros _.
  - apply wp_when; intros E; [|by apply lands_none]. eapply wp_use; [apply (stop_spec v s e _ x Hi Hx Hh)|].
    { unfold running_or_ready in E. intros Et. by rewrite Et in E. }
    cbn beta. intros _ s1 He. by eapply ended_schedule.
  - eapply wp_use; [apply (terminate_spec v s e n _ _ x Hi Hx); try done; by rewrite Hw|]. cbn beta. intros _ s1 He. by eapply ended_schedule.
Qed.

(** ** Creation *)

Lemma first_free_spec i l : 0 < i → (first_free i l = 0 ∧ True) ∨ (i ≤ first_free i l ∧ l !! Z.to_nat (first_free i l - i) = Some 0).
Proof.
  revert i. induction l as [|u l IH]; intros i Hi; cbn [first_free]; [by left|]. destruct (Z.eqb_spec u 0) as [->|]; [right; split; [lia|by rewrite Z.sub_diag]|].
  destruct (IH (i + 1)) as [?|[H1 H2]]; [lia|by left|right]. split; [lia|]. replace (Z.to_nat (first_free (i + 1) l - i)) with (S (Z.to_nat (first_free (i + 1) l - (i + 1)))) by lia. done.
Qed.

Lemma allocate_spec v s e : inv v s e 0 → wp allocate_pid s (λ i s', i = 0 ∧ s' = s ∨ 0 < i < 256 ∧ pid_used s !! Z.to_nat i = Some 0 ∧ s' = put_pid_used (<[Z.to_nat i := 1]> (pid_used s)) s).
Proof.
  intros Hi. destruct (i_table _ _ _ _ Hi) as [[L1 L2] _ _ _]. unfold allocate_pid. apply wp_bind, wp_read. cbv zeta. destruct (first_free_spec 1 (drop 1 (pid_used s))) as [[-> _]|[H1 H2]]; [lia|apply wp_bind, wp_ret, wp_ret; by left|].
  set (i := first_free 1 (drop 1 (pid_used s))) in *. rewrite lookup_drop in H2. replace (1 + Z.to_nat (i - 1))%nat with (Z.to_nat i) in H2 by lia. pose proof (lookup_lt_Some _ _ _ H2).
  apply wp_bind. destruct (Z.eqb_spec i 0); [lia|]. cbn [negb when]. apply wp_modify, wp_ret. right. split_and!; [lia|lia|done|done].
Qed.

(** A new process in a free slot. *)
Section Create.
Context (v : view) (s : state) (e : Z → Z) (a i : Z) (new : process) (seq : Z).
Hypothesis Hi : inv v s e 0.
Hypothesis Ha : a ≠ 0 ∧ procs s !! a = None.
Hypothesis Hpid : 0 < i < 256 ∧ pid_used s !! Z.to_nat i = Some 0.
Hypothesis Hnew : pid new = i ∧ next new = 0 ∧ on_queue new = 0 ∧ ref_count new = 1 ∧ reaped new = 0 ∧ wait_on new = 0 ∧ wait_next new = 0 ∧ sleep_next new = 0 ∧ child_wait new = 0 ∧ yield_boost new = 0 ∧ pc new = User.
Let s' := put_g_create_seq seq (put_process_table (<[Z.to_nat i := a]> (process_table s)) (put_procs (<[a := new]> (procs s)) (put_pid_used (<[Z.to_nat i := 1]> (pid_used s)) s))).

Lemma create_unused : (∀ r k, a ∉ Q v r k) ∧ (∀ o, a ∉ W v o) ∧ a ∉ SL v ∧ a ≠ current s ∧ a ≠ idle_thread s ∧ e a = 0.
Proof.
  destruct Ha as [Ha0 Hno]. split_and!.
  - intros r k Hq. destruct (service_live v s e 0 r a Hi) as (x & Hx & _); [|congruence]. apply (elem_service v s e 0); [done|]. by exists r, k.
  - intros o Hq. destruct (waiting_proc _ _ _ _ _ _ Hi Hq) as (x & _ & Hx & _). congruence.
  - intros Hq. destruct (sleeper_live _ _ _ _ _ Hi Hq) as (x & Hx & _). congruence.
  - intros ->. destruct (i_current _ _ _ _ Hi) as [?|[x Hx]]; congruence.
  - intros ->. destruct (i_idle _ _ _ _ Hi) as (x & Hx & _). congruence.
  - destruct (i_extra _ _ _ _ Hi a) as [H1 H2]. destruct (decide (0 < e a)) as [H|H]; [|lia]. destruct (H2 H) as [x Hx]. congruence.
Qed.

Lemma create_table : table_ok (pid <$> <[a := new]> (procs s)) (<[Z.to_nat i := a]> (process_table s)) (<[Z.to_nat i := 1]> (pid_used s)).
Proof.
  destruct (i_table _ _ _ _ Hi) as [[L1 L2] Hp Hs Hf]. destruct Hpid as [Hr Hu]. destruct Hnew as (Epid & _). destruct Ha as [Ha0 Hno].
  assert (Ht : process_table s !! Z.to_nat i = Some 0) by (apply Hf; [done|lia]). rewrite fmap_insert, Epid. split.
  - by rewrite !length_insert.
  - intros q j. destruct (decide (q = a)) as [->|Hq]; [rewrite lookup_insert_eq; intros [= <-]; split; [lia|by rewrite list_lookup_insert_eq by lia]|].
    rewrite lookup_insert_ne by done. intros Hj. destruct (Hp q j Hj) as [Hrj Hj']. split; [done|]. rewrite list_lookup_insert_ne; [done|]. intros E. rewrite <- E, Ht in Hj'. injection Hj' as <-.
    rewrite lookup_fmap in Hj. apply fmap_Some in Hj as (x & Hx & _). by destruct (live_ne _ _ _ _ _ _ Hi Hx).
  - intros j q Hj Hq0. destruct (decide (j = Z.to_nat i)) as [->|Hne].
    + rewrite list_lookup_insert_eq in Hj by lia. injection Hj as <-. rewrite lookup_insert_eq. f_equal. lia.
    + rewrite list_lookup_insert_ne in Hj by done. rewrite lookup_insert_ne; [by apply Hs|]. intros <-. specialize (Hs j a Hj Ha0). by rewrite lookup_fmap, Hno in Hs.
  - intros j Hj Hj0. destruct (decide (j = Z.to_nat i)) as [->|Hne]; [rewrite list_lookup_insert_eq in Hj by lia; done|]. rewrite list_lookup_insert_ne in Hj |- * by done. by apply Hf.
Qed.

Lemma create_field {A} (g : process → A) : g <$> procs s' = <[a := g new]> (g <$> procs s).
Proof. cbn. apply fmap_insert. Qed.

Lemma create_old q x : procs s' !! q = Some x → q = a ∧ x = new ∨ q ≠ a ∧ procs s !! q = Some x.
Proof. cbn. intros [[<- <-]|[? ?]]%lookup_insert_Some; [by left|by right]. Qed.

Lemma inv_create : inv v s' e 0.
Proof.
  destruct create_unused as (U1 & U2 & U3 & U4 & U5 & U6). destruct Hnew as (N1 & N2 & N3 & N4 & N5 & N6 & N7 & N8 & N9 & N10 & N11). destruct Ha as [Ha0 Hno].
  split; try (by apply Hi).
  - intros r. rewrite create_field. apply queue_ok_other; [apply (i_rq _ _ _ _ Hi)|apply U1].
  - intros o w Ho. destruct (i_obj _ _ _ _ Hi o w Ho). split; [|done|done]. rewrite create_field. by apply chain_insert.
  - intros q x [[-> ->]|[_ Hq]]%create_old; [done|]. by apply (i_child _ _ _ _ Hi q x).
  - intros q q' x x' [[-> ->]|[_ Hq]]%create_old [[-> ->]|[_ Hq']]%create_old H0 E; [done|done|congruence|]. by apply (i_child_inj _ _ _ _ Hi q q' x x').
  - rewrite create_field. apply chain_insert; [done|apply (i_sleep _ _ _ _ Hi)].
  - apply create_table.
  - intros q x [[-> ->]|[_ Hq]]%create_old; [|by apply (i_procs _ _ _ _ Hi)]. split; rewrite ?N3, ?N4, ?N5, ?N6, ?N9, ?N10; try done; [by right|by left| |unfold holders; rewrite N3, N5, N6; cbn [current idle_thread s' put_g_create_seq put_process_table put_procs put_pid_used]; rewrite bool_decide_false by naive_solver; cbn; lia|unfold pc_ok; rewrite N11; by right|by left].
    intros o. split; [by intros ?%U2|]. intros [<- ?]. done.
  - intros q. destruct (i_extra _ _ _ _ Hi q) as [H1 H2]. split; [done|]. intros H. cbn. destruct (decide (q = a)) as [->|]; [by rewrite lookup_insert_eq|]. rewrite lookup_insert_ne by done. auto.
  - destruct (i_current _ _ _ _ Hi) as [?|H]; [by left|right]. cbn. by rewrite lookup_insert_ne.
  - destruct (i_idle _ _ _ _ Hi) as (x & Hx & H). exists x. cbn. by rewrite lookup_insert_ne.
Qed.

Lemma create_gain : gain v s v s'.
Proof.
  destruct create_unused as (U1 & _ & _ & U4 & _). split; [done|]. intros p _ Hp. split; [done|]. unfold rank, potential. change (active s') with (active s). change (current s') with (current s).
  assert (Hb : ∀ q, q ≠ a → boost_of s' q = boost_of s q) by (intros q Hq; unfold boost_of; cbn; by rewrite lookup_insert_ne). rewrite Hb by done.
  rewrite (total_same (λ q, 1 + boost_of s' q) (λ q, 1 + boost_of s q)); [lia|]. intros q (k & _ & Hk)%elem_members. rewrite Hb; [done|]. intros ->. by apply (U1 (active s) k).
Qed.

End Create.

Lemma spawn_spec v s e n a ok : inv v s e 0 → current s ≠ 0 → procs s !! a = None → small n e → n ≤ 97 → wp (spawn a ok) s (λ _ s', lands flow v s e s').
Proof.
  intros Hi Hc0 Ha Hs Hn. destruct (live_current _ _ _ _ Hi Hc0) as [c Hc]. unfold spawn, process_create. apply wp_bind. eapply wp_use; [by apply (allocate_spec v s e)|]. cbn beta. intros i s1 [(-> & ->)|(Hr & Hu & ->)].
  { cbn. apply wp_ret, wp_ret. by apply lands_none. }
  destruct (Z.eqb_spec i 0); [lia|]. destruct ((a =? 0) || negb ok) eqn:Eok.
  - apply wp_bind. unfold free_pid. replace ((i =? 0) || (MAX_PROCESSES <=? i)) with false by (symmetry; apply orb_false_iff; split; [by apply Z.eqb_neq|apply Z.leb_gt; unfold MAX_PROCESSES; lia]).
    cbn [negb when]. apply wp_modify, wp_ret. cbn [Z.eqb negb when]. apply wp_ret. cbn [pid_used put_pid_used]. rewrite list_insert_insert_eq, list_insert_id by done.
    eapply (lands_same _ v s e v); [by destruct s|by apply ebb_flow; destruct s; apply ebb_refl|done|done].
  - apply orb_false_iff in Eok as [Ea%Z.eqb_neq _]. apply wp_bind, wp_read. change (current (put_pid_used _ s)) with (current s). destruct (Z.eqb_spec (current s) 0); [done|].
    apply wp_bind, wp_bind, (wp_get _ c); [done|]. apply wp_ret, wp_bind, wp_read, wp_bind, wp_modify, wp_ret. destruct (Z.eqb_spec a 0); [done|]. cbn [negb when].
    set (new := Proc i _ _ _ _ _ _ _ _ _ _ _ _ _ _ _ _ _ _ _ _ _ _ _ _). set (seq := u64 _). set (s2 := put_g_create_seq _ _).
    assert (Hi2 : inv v s2 e 0) by by apply (inv_create v s e a i new seq). assert (Hg2 : gain v s v s2) by by apply (create_gain v s e a i new seq).
    edestruct (create_unused v s e a) as (_ & _ & _ & _ & U5 & _); [done..|].
    eapply wp_mono; [apply (add_spec v s2 e 0 n a new Hi2); [cbn; by rewrite lookup_insert_eq|done|done|lia]|]. cbn beta. intros _ s3 (v3 & Hi3 & Had). assert (Hc3 : calm v s2 v3 s3) by (eapply calm_added; [done|cbn; by rewrite lookup_insert_eq]). destruct (c_rest Hc3) as (C1 & C2 & C3).
    eapply lands_same; [exact Hi3| |by rewrite C2|by rewrite C3]. eapply flow_gain; [exact Hg2|]. by eapply gain_flow, gain_calm.
Qed.

(** ** The timer *)

Lemma inv_clock v s e h t : inv v s e h → inv v (put_timer_ticks t s) e h.
Proof. intros []. by split. Qed.

Lemma calm_clock v s t : calm v s v (put_timer_ticks t s).
Proof. split; try done. intros q x y H1 H2. cbn in H2. assert (y = x) as -> by congruence. apply steady_refl. Qed.

(** The sleepers that are due at the new time are woken; the running process is
    charged for the tick. *)
Lemma timer_spec v s e n : let now := u64 (timer_ticks s + 1) in inv v s e 0 → current s ≠ 0 → small n e → n ≤ 97 →
  wp timer_handler s (λ _ s', ∃ v' s1, inv v' s' e 0 ∧ calm v s v' s' ∧ due_woken now [] (SL v) v (put_timer_ticks now s) v' s1 ∧
    s' = put_procs (alter (λ x, set_cpu_ticks (u64 (cpu_ticks x + 1)) x) (current s) (procs s1)) s1 ∧ current s' = current s ∧ timer_ticks s' = now).
Proof.
  intros now Hi Hc0 Hs Hn. unfold timer_handler. apply wp_bind, wp_modify, wp_bind, wp_read. set (s0 := put_timer_ticks _ s). assert (Hi0 : inv v s0 e 0) by by apply inv_clock.
  change now with (timer_ticks s0). eapply wp_use; [apply (tick_spec v s0 e n Hi0 Hs); lia|]. cbn beta. intros _ s1 (v1 & Hi1 & Hd). pose proof Hd as (Hc & _ & _ & Ht & _). destruct (c_rest Hc) as (C1 & C2 & C3).
  apply wp_bind, wp_read. rewrite C2. change (current s0) with (current s). destruct (Z.eqb_spec (current s) 0); [done|]. cbn [negb when]. destruct (live_current v1 s1 e 0 Hi1) as [x Hx]; [by rewrite C2|]. rewrite C2 in Hx. change (current s0) with (current s) in Hx.
  apply wp_upd; [by exists x|]. exists v1, s1. split_and!; try done.
  - apply inv_plain; [by intros z|done|by exists x].
  - eapply calm_trans; [apply (calm_clock v s (u64 (timer_ticks s + 1)))|]. eapply calm_trans; [exact Hc|]. apply (calm_upd _ _ _ _ x Hx). unfold steady, kept. cbn. tauto.
Qed.

Lemma tick_lands v s e n : inv v s e 0 → current s ≠ 0 → small n e → n ≤ 97 → wp timer_handler s (λ _ s', lands flow v s e s').
Proof.
  intros Hi Hc0 Hs Hn. eapply wp_mono; [by apply (timer_spec v s e n)|]. cbn beta. intros _ s' (v' & s1 & Hi' & Hc & _ & _ & C2 & _). destruct (c_rest Hc) as (_ & _ & C3).
  eapply lands_same; [exact Hi'|by eapply gain_flow, gain_calm|by rewrite C2|done].
Qed.

End SchedEvents.
