(* ===== verification/SchedWaitpid.v ===== *)
(** * Waiting for children keeps the invariant

    The scan of the process table, the reaping of a zombie, the wait queue that
    [sys_waitpid] allocates on first use, and its loop around a blocking call. *)

From S2P Require Import Prelude Errno Links Pcb Sched WaitObj Lifecycle SchedSys SchedInv SchedQueue SchedOps SchedReady SchedPick SchedWait SchedWake SchedBlock SchedRank SchedCalls SchedLife.
Import Links Pcb Sched WaitObj Lifecycle SchedSys SchedInv SchedQueue SchedOps SchedReady SchedPick SchedSwitch SchedWait SchedWake SchedBlock SchedRank SchedCalls SchedLife.

Module SchedWaitpid.
Local Open Scope Z_scope.

(** ** Operations that allocate no wait object *)

Definition keeps {A} (m : M A) : Prop := ∀ s x s', m s = Some (x, s') → ∀ a, objects s !! a = None → objects s' !! a = None.

Section keeps.
Context {A B : Type}.

Lemma keeps_bind (m : M A) (f : A → M B) : keeps m → (∀ x, keeps (f x)) → keeps (bind m f).
Proof. intros Hm Hf s y s'. unfold bind. destruct (m s) as [[x s1]|] eqn:E; [|done]. intros E' a Ha. eapply Hf; [exact E'|]. by eapply Hm. Qed.

Lemma keeps_ret (x : A) : keeps (ret x).
Proof. intros s y s' [= _ ->]. done. Qed.

Lemma keeps_undefined : keeps (@undefined A).
Proof. by intros s y s'. Qed.

Lemma keeps_read (f : state → A) : keeps (read f).
Proof. intros s y s' [= _ ->]. done. Qed.

Lemma keeps_if (b : bool) (m m' : M A) : keeps m → keeps m' → keeps (if b then m else m').
Proof. by destruct b. Qed.
End keeps.

Lemma keeps_get p : keeps (get p).
Proof. intros s y s'. unfold get. destruct (procs s !! p); [|done]. by intros [= _ ->]. Qed.

Lemma keeps_upd p f : keeps (upd p f).
Proof. intros s y s'. unfold upd. destruct (procs s !! p); [|done]. by intros [= _ <-]. Qed.

Lemma keeps_modify f : (∀ s a, objects s !! a = None → objects (f s) !! a = None) → keeps (modify f).
Proof. intros H s y s' [= _ <-]. apply H. Qed.

Create HintDb keeps.
#[export] Hint Resolve keeps_bind keeps_ret keeps_undefined keeps_read keeps_if keeps_get keeps_upd : keeps.

(** A write to an object that has been read. *)
Lemma keeps_take o prev it : keeps (wo_take o prev it).
Proof.
  intros s y s'. unfold wo_take, bind, get_object. destruct (objects s !! o) as [w|] eqn:Eo; [|done]. unfold get at 1. destruct (procs s !! it) as [x|]; [|done].
  assert (Ha : ∀ a w', objects s !! a = None → <[o := w']> (objects s) !! a = None) by (intros a w' Ha; rewrite lookup_insert_ne; [done|congruence]).
  destruct (prev =? 0); unfold upd, bind; cbn; [destruct (procs s !! it); [|done]|destruct (procs s !! prev); [|done]; cbn; destruct (alter _ _ _ !! it); [|done]]; intros [= _ <-] a; cbn; apply Ha.
Qed.

Lemma keeps_free p x : keeps (process_free p x).
Proof.
  unfold process_free. apply keeps_bind; [apply keeps_modify; intros s a; by destruct (pid x <? _)|]. intros _. apply keeps_bind; [|intros _; by apply keeps_modify].
  apply keeps_if; [|apply keeps_ret]. apply keeps_modify. intros s a Ha. cbn. rewrite lookup_delete_None. by right.
Qed.

Lemma keeps_walk fuel nx test prev it : keeps (walk fuel nx test prev it).
Proof. revert prev it. induction fuel as [|fuel IH]; intros prev it; cbn [walk]; auto with keeps. Qed.

Lemma keeps_unref p : keeps (process_unref p).
Proof. unfold process_unref, when. pose proof (keeps_free p). auto 10 with keeps. Qed.

Lemma keeps_ref p : keeps (process_ref p).
Proof. unfold process_ref. auto with keeps. Qed.

#[export] Hint Resolve keeps_take keeps_walk keeps_unref keeps_ref : keeps.

Lemma keeps_get_by_pid i : keeps (process_get_by_pid i).
Proof. unfold process_get_by_pid, when. auto 10 with keeps. Qed.

Lemma keeps_scan n i me want alive : keeps (scan_children n i me want alive).
Proof. revert i alive. induction n as [|n IH]; intros i alive; cbn [scan_children]; [apply keeps_ret|]. pose proof keeps_get_by_pid. auto 10 with keeps. Qed.

Lemma keeps_found (r : option (Z * Z)) {A} (m : M A) (f : Z → Z → M A) : keeps m → (∀ prev it, keeps (f prev it)) → keeps (match r with None => m | Some (prev, it) => f prev it end).
Proof. by destruct r as [[prev it]|]. Qed.

Lemma keeps_unlink o p : keeps (wo_unlink o p).
Proof.
  unfold wo_unlink. apply keeps_bind; [|auto 10 using keeps_found with keeps]. intros s y s'. unfold get_object. destruct (objects s !! o); [by intros [= _ ->]|done].
Qed.

Lemma keeps_sleep_remove p : keeps (sleep_list_remove p).
Proof.
  assert (Hm : ∀ z, keeps (modify (put_g_sleep_list z))) by (intros z; by apply keeps_modify). unfold sleep_list_remove, put_sleep_link. auto 12 using keeps_found with keeps.
Qed.

Lemma keeps_cleanup o p : keeps (park_cleanup o p).
Proof. unfold park_cleanup, when. auto 10 using keeps_unlink, keeps_sleep_remove with keeps. Qed.

Lemma wp_keeps {A} (m : M A) s Φ : keeps m → wp m s Φ → wp m s (λ x s', Φ x s' ∧ ∀ a, objects s !! a = None → objects s' !! a = None).
Proof. intros Hk (x & s' & E & H). exists x, s'. split_and!; try done. by apply (Hk s x s'). Qed.

(** ** The scan *)

Lemma current_kept v s v' s' e h c : calm v s v' s' → inv v' s' e h → current s ≠ 0 → procs s !! current s = Some c → ∃ c', procs s' !! current s = Some c' ∧ steady c c'.
Proof.
  intros Hc Hi H0 Hx. destruct (c_rest Hc) as (_ & C2 & _). destruct (live_current v' s' e h Hi) as [c' Hc']; [by rewrite C2|]. rewrite C2 in Hc'. exists c'. split; [done|]. by apply (c_procs Hc (current s)).
Qed.

(** A zombie child comes with the reference of the scan. *)
Definition scanned (v : view) (s : state) (e : Z → Z) (c : process) (r : scan_result) (s' : state) : Prop :=
  calm v s v s' ∧
  match r with
  | Found p => inv v s' (bump e p 1) 0 ∧ p ≠ idle_thread s ∧ ∃ x, procs s' !! p = Some x ∧ pstate x = PROCESS_TERMINATED ∧ parent_pid x = pid c
  | _ => inv v s' e 0
  end.

Lemma scanned_after v s e c v1 s1 c1 r s' : calm v s v1 s1 → v1 = v → pid c1 = pid c → scanned v1 s1 e c1 r s' → scanned v s e c r s'.
Proof.
  intros Hc -> Ep [Hc' Hr]. split; [by eapply calm_trans|]. destruct (c_rest Hc) as (_ & _ & C3). destruct r as [p| |]; [|done..]. by rewrite <- C3, <- Ep.
Qed.

Lemma scan_spec n i v s e m want alive c : inv v s e 0 → current s ≠ idle_thread s → procs s !! current s = Some c → small m e → m ≤ 97 →
  wp (scan_children n i (current s) want alive) s (scanned v s e c).
Proof.
  revert i s alive c. induction n as [|n IH]; intros i s alive c Hi Hidle Hc Hs Hm; cbn [scan_children].
  { apply wp_ret. split; [apply calm_refl|by destruct alive]. }
  assert (Hc0 : current s ≠ 0) by exact (live_ne _ _ _ _ _ _ Hi Hc). pose proof (not_idle_pid _ _ _ _ _ _ Hi Hc Hidle) as Hpid.
  eapply wp_use; [apply (get_by_pid_spec v s e 0 m i Hi Hs); lia|]. cbn beta. intros p s1 [[-> ->]|(Hp0 & (x0 & Hx0 & _) & Hi1 & Hc1 & Hk1 & _)]; [cbn [Z.eqb]; by eapply IH|].
  destruct (Z.eqb_spec p 0); [done|]. destruct (current_kept _ _ _ _ _ _ c Hc1 Hi1 Hc0 Hc) as (c1 & Hc1' & (K1 & _) & _). destruct (i_extra _ _ _ _ Hi1 p) as [_ [x Hx]]; [rewrite bump_eq; pose proof (i_extra _ _ _ _ Hi p); lia|].
  apply wp_bind, (wp_get p x); [done|]. apply wp_bind, (wp_get _ c1); [done|]. cbv zeta. set (ours := (_ =? _) && _ && _). destruct (ours && _) eqn:E.
  - apply wp_ret. split; [done|]. split; [done|]. apply andb_true_iff in E as [E1 E2%bool_decide_eq_true]. subst ours. rewrite !andb_true_iff, Z.eqb_eq in E1. destruct E1 as [[E1 _] _].
    split; [|exists x; split_and!; [done|done|congruence]]. intros ->. destruct (i_idle _ _ _ _ Hi) as (y & Hy & _ & _ & _ & _ & Ey & _).
    specialize (Hk1 (idle_thread s) I). rewrite Hx, Hy in Hk1. apply (inj Some), core_fields in Hk1. naive_solver congruence.
  - eapply wp_use; [apply (put_back_spec v s1 e p Hi1); apply (i_extra _ _ _ _ Hi)|]. cbn beta. intros _ s2 (Hi2 & _ & Hc2). pose proof (calm_trans _ _ _ _ _ _ Hc1 Hc2) as Hc12.
    destruct (c_rest Hc12) as (_ & C2 & C3). destruct (current_kept _ _ _ _ _ _ c Hc12 Hi2 Hc0 Hc) as (c2 & Hc2' & (K2 & _) & _).
    rewrite <- C2. eapply wp_mono; [apply (IH _ s2 _ c2 Hi2); [by rewrite C2, C3|by rewrite C2|done|done]|]. intros r s'. by apply scanned_after.
Qed.

(** ** Reaping *)

(** Nothing becomes ready, and nobody is linked on a wait object. *)
Definition idles (v : view) (s : state) (v' : view) (s' : state) : Prop :=
  ebb v s v' s' ∧ current s' = current s ∧ idle_thread s' = idle_thread s ∧ ∀ q y, procs s' !! q = Some y → ∃ x, procs s !! q = Some x ∧ (wait_on y = wait_on x ∨ wait_on y = 0).

Lemma idles_trans v1 s1 v2 s2 v3 s3 : idles v1 s1 v2 s2 → idles v2 s2 v3 s3 → idles v1 s1 v3 s3.
Proof.
  intros (H1 & C1 & I1 & K1) (H2 & C2 & I2 & K2). split; [by eapply ebb_trans|]. split_and!; [congruence..|]. intros q y Hy. destruct (K2 q y Hy) as (x & Hx & E). destruct (K1 q x Hx) as (z & Hz & E'). exists z. split; [done|]. destruct E as [->|]; [done|by right].
Qed.

Lemma idles_upd v s e h e' h' p f x : inv v s e h → procs s !! p = Some x → inv v (put_procs (alter f p (procs s)) s) e' h' → yield_boost (f x) = yield_boost x → wait_on (f x) = wait_on x →
  idles v s v (put_procs (alter f p (procs s)) s).
Proof.
  intros Hi Hx Hi' E1 E2. split; [by eapply ebb_upd|]. split_and!; try done. intros q y (z & Hz & [[-> ->]|[_ ->]])%lookup_alter_cases; exists z; (split; [done|left; congruence]).
Qed.

Lemma dropped_old p s s' q y : dropped p s s' → procs s' !! q = Some y → ∃ x, procs s !! q = Some x ∧ core y = core x.
Proof.
  intros (Hc & _ & Hp) Hy. destruct (decide (q = p)) as [->|Hq]; [|by eapply core_some]. destruct Hp as [E|E]; [|congruence]. rewrite Hy in E. symmetry in E. apply fmap_Some in E as (x & Hx & E). by exists x.
Qed.

Lemma idles_dropped v s e h s' e' h' p : inv v s e h → inv v s' e' h' → dropped p s s' → idles v s v s'.
Proof.
  intros Hi Hi' Hd. split; [by eapply ebb_dropped|]. pose proof Hd as (_ & (_ & G2 & G3 & _) & _). split_and!; try done. intros q y Hy. destruct (dropped_old _ _ _ _ _ Hd Hy) as (x & Hx & E). apply core_fields in E. exists x. naive_solver.
Qed.

Lemma idles_removed v s e h v' s' e' h' p x : inv v s e h → inv v' s' e' h' → procs s !! p = Some x → removed p x v v' s s' → idles v s v' s'.
Proof.
  intros Hi Hi' Hx Hr. split; [by eapply ebb_removed|]. pose proof Hr as (Hc & (_ & G2 & G3 & _) & _ & _ & Hp). split_and!; try done. intros q y Hy. destruct (decide (q = p)) as [->|Hq].
  - exists x. split; [done|]. destruct Hp as [(_ & _ & E)|(? & ? & ? & _ & _ & E)]; rewrite Hy in E; apply (inj Some), core_fields in E; naive_solver.
  - destruct (core_some _ _ _ _ _ Hc Hq Hy) as (z & Hz & E). apply core_fields in E. exists z. naive_solver.
Qed.

(** The reference of the creation becomes one of the caller. *)
Lemma inv_claim v s e p x : inv v s e 0 → procs s !! p = Some x → p ≠ idle_thread s → inv v (put_procs (alter (set_reaped 1) p (procs s)) s) (bump e p (1 - reaped x)) 0.
Proof.
  intros Hi Hx Hidle. assert (Hok := i_procs _ _ _ _ Hi p x Hx). pose proof (po_reaped _ _ _ _ _ _ _ Hok) as Hr. apply (inv_change v s e _ 0 0 p _ x); try done; [by right| | |].
  - destruct Hok. split; try done; [by right|]. rewrite bump_eq. unfold holders in *. cbn. lia.
  - intros q y Hq Hy. apply (proc_ok_other v _ _ e); [done|by apply bump_ne].
  - intros q. destruct (i_extra _ _ _ _ Hi q) as [H1 H2]. unfold bump. case_decide as Hqp; [|done]. subst. split; [lia|]. intros _. by exists x.
Qed.

Lemma claim_spec v s e p x : inv v s (bump e p 1) 0 → (∀ q, 0 ≤ e q) → procs s !! p = Some x → p ≠ idle_thread s → p ≠ 0 →
  wp (reap_claim_release p) s (λ _ s', inv v s' (bump e p 1) 0 ∧ idles v s v s' ∧ is_Some (procs s' !! p)).
Proof.
  intros Hi He Hx Hidle Hp0. unfold reap_claim_release. apply wp_bind, (wp_get p x); [done|]. apply wp_bind, wp_upd; [by exists x|]. set (s1 := put_procs _ s). pose proof (inv_claim v s _ p x Hi Hx Hidle) as Hi1. fold s1 in Hi1.
  assert (Hd : idles v s v s1) by by eapply idles_upd. assert (Hx1 : procs s1 !! p = Some (set_reaped 1 x)) by (cbn; by rewrite lookup_alter_eq, Hx).
  apply wp_when; intros E.
  - apply Z.eqb_eq in E. rewrite E in Hi1. specialize (He p). eapply wp_mono; [apply (unref_kept v s1 _ 0 p _ Hi1 Hx1); rewrite ?bump_eq; try done; [lia|right; lia]|]. cbn beta. intros _ s' (Hi' & Hc & Hg). apply bump_back in Hi'.
    split; [done|]. split; [eapply idles_trans; [exact Hd|]; eapply (idles_dropped _ _ _ _ _ _ _ p); [exact Hi1|exact Hi'|]|].
    + split_and!; [|done|left; by apply Hc]. intros q _. by apply Hc.
    + specialize (Hc p I). rewrite Hx1 in Hc. apply fmap_Some in Hc as (y & Hy & _). by exists y.
  - apply Z.eqb_neq in E. assert (reaped x = 1) as Er by (destruct (po_reaped _ _ _ _ _ _ _ (i_procs _ _ _ _ Hi p x Hx)); [done|done]). split_and!; [|done|by exists (set_reaped 1 x)].
    eapply inv_ext; [|exact Hi1]. intros q. rewrite Er. unfold bump. repeat case_decide; lia.
Qed.

Lemma reap_spec v s e p x : inv v s (bump e p 1) 0 → (∀ q, 0 ≤ e q) → procs s !! p = Some x → p ≠ idle_thread s → wp (reap p) s (λ _ s', ∃ v', inv v' s' e 0 ∧ idles v s v' s').
Proof.
  intros Hi He Hx Hidle. assert (Hp0 : p ≠ 0) by exact (live_ne _ _ _ _ _ _ Hi Hx). unfold reap. apply wp_bind, wp_upd; [by exists x|]. set (s1 := put_procs _ s).
  assert (Hi1 : inv v s1 (bump e p 1) 0). { eapply inv_update; try done; [by right|]. eapply proc_ok_ext; [..|by apply (i_procs _ _ _ _ Hi)]; done. }
  assert (Hd1 : idles v s v s1) by by eapply idles_upd. eapply wp_use; [apply (claim_spec v s1 e p (set_parent_pid 0 x) Hi1 He); [cbn; by rewrite lookup_alter_eq, Hx|done|done]|].
  cbn beta. intros _ s2 (Hi2 & Hd2 & [x2 Hx2]). unfold process_destroy. eapply wp_use; [apply (remove_spec v s2 _ 0 p x2 Hi2 Hx2); [done|left; rewrite bump_eq; specialize (He p); lia]|]. cbn beta. intros _ s3 (v3 & Hi3 & Hr).
  pose proof (idles_removed _ _ _ _ _ _ _ _ _ _ Hi2 Hi3 Hx2 Hr) as Hd3. eapply wp_mono; [apply (put_back_spec v3 s3 e p Hi3 He)|]. cbn beta. intros _ s4 (Hi4 & Hdr & _). exists v3. split; [done|].
  eapply idles_trans; [exact Hd1|]. eapply idles_trans; [exact Hd2|]. eapply idles_trans; [exact Hd3|]. by eapply idles_dropped.
Qed.

(** ** The wait queue of a process *)

Lemma inv_allocate v s e p x a : inv v s e 0 → procs s !! p = Some x → child_wait x = 0 → SLEEP < a → objects s !! a = None →
  inv v (put_objects (<[a := wait_object_init]> (objects s)) (put_procs (alter (set_child_wait a) p (procs s)) s)) e 0.
Proof.
  intros Hi Hx Hcw Ha Hno. assert (Hnone : ∀ q y, procs s !! q = Some y → child_wait y ≠ a).
  { intros q y Hy E. destruct (i_child _ _ _ _ Hi q y Hy) as [w Hw]; [unfold SLEEP in Ha; lia|]. congruence. }
  assert (Hf : ∀ {A} (g : process → A), (∀ z, g (set_child_wait a z) = g z) → g <$> alter (set_child_wait a) p (procs s) = g <$> procs s) by (intros A g Hg; apply fmap_alter_same; intros; apply Hg).
  split; cbn [put_procs put_objects procs objects rq0 rq1 ready_count current idle_thread g_sleep_list process_table pid_used futex_initialized]; try by apply Hi.
  - intros r. rewrite Hf by done. apply (i_rq _ _ _ _ Hi).
  - intros o w. rewrite Hf by done. intros [[<- <-]|[? Ho]]%lookup_insert_Some; [|by apply (i_obj _ _ _ _ Hi)]. rewrite (i_noobj _ _ _ _ Hi a Hno). by split.
  - intros o [Ho _]%lookup_insert_None. by apply (i_noobj _ _ _ _ Hi).
  - intros o Ho. rewrite lookup_insert_ne by (unfold SLEEP in *; lia). by apply (i_static _ _ _ _ Hi).
  - intros q y (z & Hz & [[-> ->]|[_ ->]])%lookup_alter_cases Hy; [cbn; by rewrite lookup_insert_eq|]. rewrite lookup_insert_ne by (symmetry; by apply (Hnone q)). by apply (i_child _ _ _ _ Hi q).
  - intros q q' y y' (z & Hz & [[-> ->]|[_ ->]])%lookup_alter_cases (z' & Hz' & [[-> ->]|[_ ->]])%lookup_alter_cases H0 E; cbn in E; [done|by destruct (Hnone q' z' Hz')|by destruct (Hnone q z Hz)|by apply (i_child_inj _ _ _ _ Hi q q' z z')].
  - rewrite Hf by done. apply (i_sleep _ _ _ _ Hi).
  - rewrite Hf by done. apply (i_table _ _ _ _ Hi).
  - intros q y (z & Hz & [[-> ->]|[_ ->]])%lookup_alter_cases; [|by apply (i_procs _ _ _ _ Hi)]. assert (z = x) as -> by congruence.
    assert (Hat : ∀ o, waits_at x o → waits_at (set_child_wait a x) o) by (unfold waits_at; intros o [?|[-> ?]]; [by left|done]).
    destruct (i_procs _ _ _ _ Hi p x Hx). split; try done; [intros H; by apply Hat, po_waits0| |by right]. unfold pc_ok in *. cbn. destruct (pc x); naive_solver.
  - intros q. rewrite lookup_alter_is_Some. apply (i_extra _ _ _ _ Hi).
  - rewrite lookup_alter_is_Some. apply (i_current _ _ _ _ Hi).
  - destruct (i_idle _ _ _ _ Hi) as (y & Hy & H). destruct (decide (idle_thread s = p)) as [Ep|Hne]; [|exists y; by rewrite lookup_alter_ne]. exists (set_child_wait a y). by rewrite <- Ep, lookup_alter_eq, Hy.
Qed.

(** ** One turn of the loop *)

Definition turned (v : view) (s : state) (e : Z → Z) (r : option Z) (s' : state) : Prop :=
  match r with
  | Some _ => ∃ v', inv v' s' e 0 ∧ idles v s v' s'
  | None => inv v s' e 0 ∧ idles v s v s' ∧ ∃ y, procs s' !! current s = Some y ∧ child_wait y ≠ 0
  end.

Lemma idles_refl v s : idles v s v s.
Proof. split; [apply ebb_refl|]. split_and!; try done. intros q y Hy. exists y. split; [done|by left]. Qed.

Lemma turn_scanned v s e r s1 s' : idles v s v s1 → turned v s1 e r s' → turned v s e r s'.
Proof.
  intros H. pose proof H as (_ & C & _). destruct r; cbn; [|rewrite C]; intros Ht.
  - destruct Ht as (v' & Hi & H'). exists v'. split; [done|by eapply idles_trans].
  - destruct Ht as (Hi & H' & Hy). split; [done|]. split; [by eapply idles_trans|done].
Qed.

Lemma idles_calm v s e h v' s' e' h' : inv v s e h → inv v' s' e' h' → calm v s v' s' → Q v' = Q v → idles v s v' s'.
Proof.
  intros Hi Hi' Hc HQ. split; [eapply (ebb_gains steady); try done; apply boost_kept; by intros ? ? [? _]|]. destruct (c_rest Hc) as (_ & C2 & C3). split_and!; [done..|].
  intros q y Hy. destruct (c_dom Hc q) as [x Hx]; [by exists y|]. exists x. split; [done|]. by destruct (c_procs Hc q x y Hx Hy) as (_ & ? & _).
Qed.

Lemma turn_spec v s e n pid0 status_ptr options copied a c : inv v s e 0 → current s ≠ idle_thread s → procs s !! current s = Some c → wait_on c = 0 → small n e → n ≤ 97 →
  (child_wait c = 0 → fresh_object a s) → wp (waitpid_turn pid0 status_ptr options copied a) s (turned v s e).
Proof.
  intros Hi Hidle Hc Hw Hs Hn Hfr. assert (Hc0 : current s ≠ 0) by exact (live_ne _ _ _ _ _ _ Hi Hc). unfold waitpid_turn. apply wp_bind, wp_read.
  eapply wp_use; [apply wp_keeps; [apply keeps_scan|by apply (scan_spec _ 0 v s e n pid0 false c)]|]. cbn beta. intros r s1 [[Hc1 Hr] Hk]. destruct (c_rest Hc1) as (_ & C2 & C3).
  destruct r as [p| |].
  - destruct Hr as (Hi1 & Hp & x & Hx & _). pose proof (idles_calm _ _ _ _ _ _ _ _ Hi Hi1 Hc1 eq_refl) as Hd. apply wp_if; intros _.
    + eapply wp_use; [apply (put_back_spec v s1 e p Hi1); apply (i_extra _ _ _ _ Hi)|]. cbn beta. intros _ s2 (Hi2 & Hdr & _). apply wp_ret. exists v. split; [done|]. eapply idles_trans; [exact Hd|]. by eapply idles_dropped.
    + apply wp_bind, (wp_get p x); [done|]. eapply wp_use; [apply (reap_spec v s1 e p x Hi1); [apply (i_extra _ _ _ _ Hi)|done|by rewrite C3]|]. cbn beta. intros _ s2 (v2 & Hi2 & Hd2). apply wp_ret. exists v2. split; [done|by eapply idles_trans].
  - pose proof (idles_calm _ _ _ _ _ _ _ _ Hi Hr Hc1 eq_refl) as Hd. apply wp_if; intros _; [apply wp_ret; by exists v|].
    destruct (current_kept _ _ _ _ _ _ c Hc1 Hr Hc0 Hc) as (c1 & Hc1' & (_ & _ & K & _) & _). apply wp_bind, (wp_get _ c1); [done|].
    assert (Hend : ∀ s2 y, inv v s2 e 0 → idles v s v s2 → procs s2 !! current s = Some y → wp (x <- get (current s); if child_wait x =? 0 then ret (Some 0) else ret None) s2 (turned v s e)).
    { intros s2 y Hi2 Hd2 Hy. apply wp_bind, (wp_get _ y); [done|]. apply wp_if; intros E; apply wp_ret; [by exists v|]. apply Z.eqb_neq in E. split_and!; try done. by exists y. }
    apply wp_bind, wp_when; intros E; [|by apply (Hend s1 c1)]. apply andb_true_iff in E as [E1%Z.eqb_eq E2%negb_true_iff%Z.eqb_neq]. apply wp_bind, wp_upd; [by exists c1|]. apply wp_modify.
    destruct (Hfr ltac:(congruence)) as [?|[Ha Hno]]; [done|]. set (s2 := put_objects _ _). assert (Hi2 : inv v s2 e 0) by (apply (inv_allocate v s1 e _ c1 a); try done; by apply Hk).
    assert (Hc2 : procs s2 !! current s = Some (set_child_wait a c1)) by (cbn; by rewrite lookup_alter_eq, Hc1'). apply (Hend s2 (set_child_wait a c1)); try done. eapply idles_trans; [exact Hd|].
    split; [|split_and!; try done; intros q y (z & Hz & [[-> ->]|[_ ->]])%lookup_alter_cases; exists z; (split; [done|by left])].
    eapply (ebb_less v s1 e 0 v s2 e 0); try done. intros q y (z & Hz & [[-> ->]|[_ ->]])%lookup_alter_cases; exists z; (split; [done|done]).
  - apply wp_ret. exists v. split; [done|by apply (idles_calm v s e 0 v s1 e 0)].
Qed.

(** ** The loop *)

(** A blocking call of a process, seen as a whole. *)
Lemma blocks_ebb o k x v s e b s' : inv v s e 0 → current s ≠ 0 → current s ≠ idle_thread s → blocks o k x v s e b s' →
  if b then (∃ r j, current s ∈ Q v r j) ∧ ∃ v' y, inv v' s' (bump e (current s) 1) (current s) ∧ ebb v s v' s' ∧ current s' = current s ∧ idle_thread s' = idle_thread s ∧
    procs s' !! current s = Some y ∧ wait_on y = o ∧ on_queue y = 0 ∧ child_wait y = child_wait x
  else ∃ v', inv v' s' e 0 ∧ ebb v s v' s' ∧ current s' ≠ 0 ∧ idle_thread s' = idle_thread s.
Proof.
  intros Hi Hc0 Hidle (v1 & s1 & v' & nx & s2 & He & Hpick & Hpark). pose proof He as (Hi1 & Hm & HQ & _ & _ & _ & _ & x1 & Hx1 & X1 & X2 & X3 & X4). destruct (c_rest Hm) as (C1 & C2 & C3).
  pose proof (parked_ebb _ _ _ _ _ _ _ _ _ _ _ Hi1 (eq_sym C2) Hpick Hpark) as Hebb. pose proof Hpick as ((R1 & R2 & R3) & _ & l1 & _ & _ & Hl).
  assert (He' : ebb v s v' s'). { eapply ebb_trans; [|by eapply ebb1_ebb, ebbs_ebb1]. eapply (ebb_gains kept); try done. by apply boost_kept. }
  destruct b.
  - destruct (parked_self _ _ _ _ _ _ _ _ _ _ x1 Hpick Hpark Hx1 (eq_sym C2)) as (Hi' & P1 & P2 & y & Hy & Y1 & Y2 & Y3 & Y4); [by rewrite C3|]. split.
    + destruct Hpark as [(? & _)|[(? & _)|(_ & -> & _)]]; [done..|]. destruct Hl as [(? & _)|(z & _ & Hsv & _)]; [congruence|]. rewrite <- HQ. apply (elem_service v1 s1 e (current s) (active s1)); [done|]. rewrite Hsv. set_solver.
    + exists v', y. split_and!; try done; congruence.
  - exists v'. destruct Hpark as [(_ & _ & (_ & _ & (_ & G2 & G3 & _)) & Hi')|[(_ & _ & _ & Hsw & Hi')|(? & _)]]; [| |done].
    + split_and!; try done; congruence.
    + pose proof Hsw as (_ & (w & w' & _ & Hw' & _) & _ & _ & S1 & S2 & _). split_and!; try done; [|congruence]. rewrite S1. exact (live_ne _ _ _ _ _ _ Hi' Hw').
Qed.

Definition settles (v : view) (s : state) (e : Z → Z) (s' : state) : Prop := ∃ v', inv v' s' e 0 ∧ ebb v s v' s' ∧ current s' ≠ 0 ∧ idle_thread s' = idle_thread s.

Lemma idles_current v s v' s' e c : idles v s v' s' → inv v' s' e 0 → current s ≠ 0 → procs s !! current s = Some c → wait_on c = 0 → ∃ c', procs s' !! current s = Some c' ∧ wait_on c' = 0.
Proof.
  intros (_ & C2 & _ & Hk) Hi H0 Hc Hw. destruct (live_current v' s' e 0 Hi) as [c' Hc']; [by rewrite C2|]. rewrite C2 in Hc'. exists c'. split; [done|]. destruct (Hk _ c' Hc') as (x & Hx & E). assert (x = c) as -> by congruence. destruct E; congruence.
Qed.

Lemma returns_spec v s e v' s' c : inv v' s' e 0 → idles v s v' s' → current s ≠ 0 → current s ≠ idle_thread s → procs s !! current s = Some c → wait_on c = 0 →
  wp (cur <- read current; upd cur (set_pc User)) s' (λ _ s'', settles v s e s'').
Proof.
  intros Hi Hd H0 Hidle Hc Hw. destruct (idles_current _ _ _ _ _ _ Hd Hi H0 Hc Hw) as (c' & Hc' & Hw'). destruct Hd as (He & C2 & C3 & _). apply wp_bind, wp_read.
  eapply wp_mono; [apply (back_to_user v' s' e c' (set_pc User)); try done; [by rewrite C2|by rewrite C2, C3|by left]|]. cbn beta. intros _ s'' (H1 & H2 & H3 & H4). exists v'. split_and!; [done|by eapply ebb_trans|congruence|congruence].
Qed.

(** The call that blocks, and what its result means for the loop. *)
Lemma child_block v s e n k c : inv v s e 0 → current s ≠ idle_thread s → procs s !! current s = Some c → wait_on c = 0 → child_wait c ≠ 0 → small n e → n ≤ 98 →
  wp (wait_object_block (child_wait c) 0 k) s (blocks (child_wait c) k c v s e).
Proof.
  intros Hi Hidle Hc Hw Hcw Hs Hn. pose proof (po_child _ _ _ _ _ _ _ (i_procs _ _ _ _ Hi _ c Hc)) as Hch. apply (block_spec v s e n (child_wait c) 0 k c); try done; [by right|intros _ ?; destruct Hch; lia|by apply (i_child _ _ _ _ Hi (current s) c)].
Qed.

Lemma waitpid_unfold fuel pid0 status_ptr options copied a : waitpid_loop (S fuel) pid0 status_ptr options copied a =
  (r <- waitpid_turn pid0 status_ptr options copied a;
   match r with
   | Some _ => cur <- read current; upd cur (set_pc User)
   | None => cur <- read current; x <- get cur; now <- wait_object_block (child_wait x) 0 (AfterWaitpid pid0 status_ptr options);
       when now (park_cleanup (child_wait x) cur;; waitpid_loop fuel pid0 status_ptr options copied a)
   end).
Proof. reflexivity. Qed.

(** A process that is not queued leaves the processor. *)
Lemma loop_last fuel v s e n pid0 status_ptr options copied a c : inv v s e 0 → current s ≠ idle_thread s → procs s !! current s = Some c → wait_on c = 0 → small n e → n ≤ 97 →
  (child_wait c = 0 → fresh_object a s) → (∀ r j, current s ∉ Q v r j) → wp (waitpid_loop (S fuel) pid0 status_ptr options copied a) s (λ _ s', settles v s e s').
Proof.
  intros Hi Hidle Hc Hw Hs Hn Hfr Hq. assert (Hc0 : current s ≠ 0) by exact (live_ne _ _ _ _ _ _ Hi Hc). rewrite waitpid_unfold. eapply wp_use; [by apply (turn_spec v s e n pid0 status_ptr options copied a c)|]. cbn beta. intros [z|] s1 Ht.
  { destruct Ht as (v1 & Hi1 & Hd1). by eapply returns_spec. }
  destruct Ht as (Hi1 & Hd1 & y & Hy & Hcw). destruct (idles_current _ _ _ _ _ _ Hd1 Hi1 Hc0 Hc Hw) as (y' & Hy' & Hwy). assert (y' = y) as -> by congruence. destruct Hd1 as (He1 & C2 & C3 & _).
  apply wp_bind, wp_read. rewrite C2. apply wp_bind, (wp_get _ y); [done|]. eapply wp_use; [apply (child_block v s1 e n); try done; [by rewrite C2, C3|by rewrite C2|lia]|]. cbn beta. intros b s2 Hb.
  apply blocks_ebb in Hb; [|done|by rewrite C2|by rewrite C2, C3]. rewrite C2 in Hb. destruct b; [destruct Hb as [(r & j & Hin) _]; by destruct (Hq r j)|].
  destruct Hb as (v2 & Hi2 & He2 & H0 & Hd2). apply wp_ret. exists v2. split_and!; [done|by eapply ebb_trans|done|congruence].
Qed.

Lemma settles_lands v s e s' : settles v s e s' → lands ebb v s e s'.
Proof. intros (v' & H1 & H2 & H3 & H4). by eapply lands_same. Qed.

Lemma settles_bump v s e p v1 s1 s' : ebb v s v1 s1 → idle_thread s1 = idle_thread s → settles v1 s1 (bump e p 1) s' → lands ebb v s e s'.
Proof.
  intros He Hd (v' & H1 & H2 & H3 & H4). exists v', (bump e p 1). split_and!; [done|apply bump_extra|by eapply ebb_trans|done|congruence].
Qed.

(** At most two turns: a process that is still queued when it blocks may be
    picked itself, and is then no longer queued. *)
Lemma loop_spec fuel v s e n pid0 status_ptr options copied a c : inv v s e 0 → current s ≠ idle_thread s → procs s !! current s = Some c → wait_on c = 0 → small n e → n ≤ 96 →
  (child_wait c = 0 → fresh_object a s) → wp (waitpid_loop (S (S fuel)) pid0 status_ptr options copied a) s (λ _ s', lands ebb v s e s').
Proof.
  intros Hi Hidle Hc Hw Hs Hn Hfr. assert (Hc0 : current s ≠ 0) by exact (live_ne _ _ _ _ _ _ Hi Hc). rewrite waitpid_unfold. eapply wp_use; [apply (turn_spec v s e n pid0 status_ptr options copied a c); try done; lia|]. cbn beta. intros [z|] s1 Ht.
  { destruct Ht as (v1 & Hi1 & Hd1). eapply wp_mono; [by eapply returns_spec|]. cbn beta. intros _ s'. apply settles_lands. }
  destruct Ht as (Hi1 & Hd1 & y & Hy & Hcw). destruct (idles_current _ _ _ _ _ _ Hd1 Hi1 Hc0 Hc Hw) as (y' & Hy' & Hwy). assert (y' = y) as -> by congruence. destruct Hd1 as (He1 & C2 & C3 & _).
  apply wp_bind, wp_read. rewrite C2. apply wp_bind, (wp_get _ y); [done|]. eapply wp_use; [apply (child_block v s1 e n); try done; [by rewrite C2, C3|by rewrite C2|lia]|]. cbn beta. intros b s2 Hb.
  apply blocks_ebb in Hb; [|done|by rewrite C2|by rewrite C2, C3]. rewrite C2 in Hb. destruct b.
  - destruct Hb as (_ & v2 & y2 & Hi2 & He2 & D2 & D3 & Hy2 & W2 & Q2 & K2). cbn [when]. pose proof (cleanup_spec v2 s2 (bump e (current s) 1) (current s) (child_wait y) y2) as Hcl. cbv zeta in Hcl. rewrite D2 in Hcl.
    eapply wp_use; [apply Hcl; try done; [by right|by rewrite D3, C3|by right|rewrite <- K2; apply (i_child _ _ _ _ Hi2 _ y2 Hy2); by rewrite K2]|]. cbn beta. intros _ s3 (v3 & y3 & Hi3 & Hc3 & HQ3 & Hy3 & Hw3 & Hq3 & _).
    destruct (c_rest Hc3) as (_ & F2 & F3). assert (Hcw3 : child_wait y3 = child_wait y). { destruct (c_procs Hc3 _ y2 y3 Hy2 Hy3) as ((_ & _ & K3 & _) & _). congruence. }
    destruct (idles_calm _ _ _ _ _ _ _ _ Hi2 Hi3 Hc3 HQ3) as [He3 _]. assert (Hcur3 : current s3 = current s) by congruence.
    eapply wp_mono; [apply (loop_last fuel v3 s3 (bump e (current s) 1) (n + 1) pid0 status_ptr options copied a y3 Hi3)|].
    + by rewrite Hcur3, F3, D3, C3.
    + by rewrite Hcur3.
    + done.
    + by apply small_bump.
    + lia.
    + congruence.
    + rewrite Hcur3, HQ3. by apply (queued_in v2 s2 _ _ _ y2 Hi2 Hy2).
    + cbn beta. intros _ s'. apply settles_bump; [|congruence]. eapply ebb_trans; [exact He1|]. by eapply ebb_trans.
  - apply wp_ret, settles_lands. destruct Hb as (v2 & Hi2 & He2 & H0 & Hd2). exists v2. split_and!; [done|by eapply ebb_trans|done|congruence].
Qed.

Lemma fuel_two v s e h c : inv v s e h → procs s !! current s = Some c → current s ≠ 0 → ∃ n, fuel_of s = S (S n).
Proof.
  intros _ Hc _. unfold fuel_of. destruct (size (procs s)) as [|n] eqn:E; [|by exists n]. apply map_size_empty_inv in E. rewrite E in Hc. by rewrite lookup_empty in Hc.
Qed.

Lemma wp_impl {A} (P : Prop) (m : M A) s (Φ Ψ : A → state → Prop) : wp m s Φ → (P → wp m s Ψ) → wp m s (λ x s', Φ x s' ∧ (P → Ψ x s')).
Proof. intros (x & s' & E & H) H'. exists x, s'. split_and!; try done. intros HP. destruct (H' HP) as (y & s'' & E' & HΨ). congruence. Qed.

(** What a call that may block leaves behind; a caller that is not queued leaks
    no reference. *)
Definition comes_to_rest (v : view) (s : state) (e : Z → Z) (s' : state) : Prop := lands ebb v s e s' ∧ ((∀ r j, current s ∉ Q v r j) → settles v s e s').

Lemma rest_settled v s e s' : settles v s e s' → comes_to_rest v s e s'.
Proof. intros H. split; [by apply settles_lands|done]. Qed.

Lemma rest_after v s e v1 s1 s' : ebb v s v1 s1 → Q v1 = Q v → current s1 = current s → idle_thread s1 = idle_thread s → comes_to_rest v1 s1 e s' → comes_to_rest v s e s'.
Proof.
  intros He HQ C2 C3 [(v' & e' & H1 & H2 & H3 & H4 & H5) H]. split; [exists v', e'; split_and!; try done; [by eapply ebb_trans|congruence]|]. rewrite HQ, C2 in H. intros Hq. destruct (H Hq) as (v2 & G1 & G2 & G3 & G4). exists v2. split_and!; try done; [by eapply ebb_trans|congruence].
Qed.

Lemma waitpid_spec v s e n pid0 status_ptr options copied a c : inv v s e 0 → current s ≠ idle_thread s → procs s !! current s = Some c → wait_on c = 0 → small n e → n ≤ 96 →
  (child_wait c = 0 → fresh_object a s) → wp (sys_waitpid pid0 status_ptr options copied a) s (λ _ s', comes_to_rest v s e s').
Proof.
  intros Hi Hidle Hc Hw Hs Hn Hfr. unfold sys_waitpid. apply wp_bind, wp_read. destruct (fuel_two v s e 0 c Hi Hc) as [m ->]; [exact (live_ne _ _ _ _ _ _ Hi Hc)|].
  apply wp_impl; [by apply (loop_spec m v s e n pid0 status_ptr options copied a c)|]. intros Hq. apply (loop_last (S m) v s e n pid0 status_ptr options copied a c); try done. lia.
Qed.

(** ** The process that has the processor back inside a blocking call *)

Lemma finish_waitpid pid0 status_ptr options copied a : finish (AfterWaitpid pid0 status_ptr options) copied a = (cur <- read current; sys_waitpid pid0 status_ptr options copied a).
Proof. unfold finish, sys_waitpid. reflexivity. Qed.

Lemma resume_rest v s e h n o k copied a x : inv v s e h → h = 0 ∨ h = current s → current s ≠ idle_thread s → procs s !! current s = Some x → waits_at x o → wait_on x = 0 ∨ wait_on x = o → small n e → n ≤ 96 → fresh_object a s →
  wp (resume o k copied a) s (λ _ s', comes_to_rest v s e s').
Proof.
  intros Hi Hh Hidle Hx Hat Hw Hs Hn Hfr. assert (Hc0 : current s ≠ 0) by exact (live_ne _ _ _ _ _ _ Hi Hx).
  assert (Ho : o ≠ 0 ∧ is_Some (objects s !! o)). { destruct Hat as [Hr|[-> H0]]; [split; [lia|by apply (i_static _ _ _ _ Hi)]|split; [done|by apply (i_child _ _ _ _ Hi (current s) x)]]. } destruct Ho as [Ho0 Ho].
  assert (simple k ∨ ¬ simple k) as [Hk|Hk] by (unfold simple; destruct k; tauto).
  - eapply wp_mono; [by apply (resume_spec v s e h o k copied a x)|]. cbn beta. intros _ s' (v' & H1 & H2 & H3 & H4). apply rest_settled. exists v'. split_and!; try done. congruence.
  - destruct k as [| |pid0 status_ptr options]; [by destruct Hk..|]. unfold resume. apply wp_bind, wp_read. eapply wp_use; [apply wp_keeps; [apply keeps_cleanup|by apply (cleanup_spec v s e h o x)]|]. cbn beta.
    intros _ s1 [(v1 & y & Hi1 & Hc1 & HQ & Hy & Hwy & _) Hkeep]. destruct (c_rest Hc1) as (_ & C2 & C3). destruct (idles_calm _ _ _ _ _ _ _ _ Hi Hi1 Hc1 HQ) as [He1 _]. rewrite finish_waitpid. apply wp_bind, wp_read.
    eapply wp_mono; [apply (waitpid_spec v1 s1 e n pid0 status_ptr options copied a y Hi1); try done; [by rewrite C2, C3|by rewrite C2|]|].
    + intros _. destruct Hfr as [?|[Ha Hno]]; [by left|right; auto].
    + cbn beta. intros _ s'. by apply rest_after.
Qed.

(** What the stack of a process inside a blocking call says of it. *)
Lemma inside_call v s e p x o k : inv v s e 0 → procs s !! p = Some x → pc x = Halted o k ∨ pc x = Parked o k →
  p ≠ idle_thread s ∧ waits_at x o ∧ (wait_on x = 0 ∨ wait_on x = o) ∧ (p ∈ SL v → wait_on x = SLEEP).
Proof.
  intros Hi Hx Hpc. assert (Hp0 : p ≠ 0) by exact (live_ne _ _ _ _ _ _ Hi Hx). destruct (i_procs _ _ _ _ Hi p x Hx). split.
  - intros ->. destruct (i_idle _ _ _ _ Hi) as (y & Hy & _ & _ & _ & _ & _ & E). assert (y = x) as -> by congruence. destruct Hpc; congruence.
  - unfold pc_ok in po_pc0. destruct Hpc as [E|E]; rewrite E in po_pc0; naive_solver.
Qed.

Lemma resumed_spec v s e n copied a : inv v s e 0 → is_parked s → small n e → n ≤ 96 → fresh_object a s → wp (resumed copied a) s (λ _ s', lands flow v s e s').
Proof.
  intros Hi (x & o & k & Hx & Hpc) Hs Hn Hfr. destruct (inside_call v s e _ x o k Hi Hx (or_intror Hpc)) as (Hidle & Hat & Hw & _). unfold resumed. apply wp_bind, wp_read, wp_bind, (wp_get _ x); [done|]. rewrite Hpc.
  eapply wp_mono; [apply (resume_rest v s e 0 n o k copied a x); try done; by left|]. cbn beta. intros _ s' [H _]. revert H. apply lands_mono. intros v' s''. apply ebb_flow.
Qed.

Lemma keeps_pick : keeps scheduler_pick_next.
Proof.
  assert (Hrq : ∀ r q, keeps (put_rq r q)) by (intros [] q; by apply keeps_modify). assert (Hd : ∀ r p, keeps (runqueue_dequeue r p)) by (intros r p; unfold runqueue_dequeue; auto 12 with keeps).
  assert (Hp : ∀ r, keeps (runqueue_pick_next r)) by (intros r; unfold runqueue_pick_next; cbv zeta; auto 10 with keeps).
  assert (Ht : keeps take_next) by (unfold take_next, runqueue_is_empty, runqueue_swap; pose proof (keeps_modify (λ s, put_active (negb (active s)) s)); auto 12 with keeps).
  unfold scheduler_pick_next. apply keeps_bind; [apply keeps_read|]. intros fuel. induction fuel as [|fuel IH]; cbn [pick_loop]; [apply keeps_undefined|]. unfold when.
  pose proof (keeps_modify (λ s, put_ready_count (u32 (ready_count s - 1)) s)). auto 14 with keeps.
Qed.

Lemma keeps_dispatch o p nx k : keeps (park_dispatch o p nx k).
Proof. unfold park_dispatch, scheduler_idle_thread, switch_to, process_set_current. pose proof (λ z, keeps_modify (put_current z)). auto 14 with keeps. Qed.

Lemma halted_spec v s e n copied a : inv v s e 0 → is_halted s → small n e → n ≤ 95 → fresh_object a s → wp (turn copied a) s (λ _ s', lands flow v s e s').
Proof.
  intros Hi (x & o & k & Hx & Hpc) Hs Hn Hfr. destruct (inside_call v s e _ x o k Hi Hx (or_introl Hpc)) as (Hidle & Hat & Hw & Hsl). assert (Hc0 : current s ≠ 0) by exact (live_ne _ _ _ _ _ _ Hi Hx).
  unfold turn. apply wp_bind, wp_read, wp_bind, (wp_get _ x); [done|]. rewrite Hpc. unfold idle_turn. apply wp_bind, wp_bind, (wp_get _ x); [done|].
  destruct (bool_decide (pstate x = PROCESS_BLOCKED)) eqn:Eb; cbn [negb]; [apply bool_decide_eq_true in Eb|].
  - eapply wp_mono; [apply wp_keeps; [unfold park; pose proof keeps_pick; pose proof keeps_dispatch; auto with keeps|apply (park_spec v s e o k x); try done; by apply inv_open]|]. cbn beta. intros b s' [(v' & nx & s1 & Hpick & Hpark) Hkeep].
    assert (Hio : inv v s e (current s)) by by apply inv_open. pose proof (parked_ebb _ _ _ _ _ _ _ _ _ _ _ Hio eq_refl Hpick Hpark) as Hebb. assert (He : ebb v s v' s') by by eapply ebb1_ebb, ebbs_ebb1. pose proof Hpick as ((R1 & R2 & R3) & _). destruct b; cbn [when].
    + destruct (parked_self _ _ _ _ _ _ _ _ _ _ x Hpick Hpark Hx eq_refl Hidle) as (Hi' & P1 & P2 & y & Hy & Y1 & Y2 & Y3 & Y4).
      eapply wp_mono; [apply (resume_rest v' s' _ _ (n + 1) o k copied a y Hi'); [by right|by rewrite P1, P2|by rewrite P1| |by rewrite Y1|by apply small_bump|lia|]|].
      * unfold waits_at in *. by rewrite Y3.
      * destruct Hfr as [?|[Ha Hno]]; [by left|right; auto].
      * cbn beta. intros _ s2 [_ Hset]. eapply lands_mono; [intros v2 s3; apply ebb_flow|]. eapply settles_bump; [exact He|done|]. apply Hset. rewrite P1. by apply (queued_in v' s' _ _ _ y Hi' Hy).
    + apply wp_ret. apply lands_mono with (R := ebb); [intros v2 s3; apply ebb_flow|]. apply settles_lands. exists v'. destruct Hpark as [(_ & _ & (_ & _ & (_ & G2 & G3 & _)) & Hi')|[(_ & _ & _ & Hsw & Hi')|(? & _)]]; [| |done].
      * split_and!; try done; congruence.
      * pose proof Hsw as (_ & (w & w' & _ & Hw' & _) & _ & _ & S1 & S2 & _). split_and!; try done; [|congruence]. rewrite S1. exact (live_ne _ _ _ _ _ _ Hi' Hw').
  - apply wp_ret. cbn [when]. eapply wp_mono; [apply (resume_rest v s e 0 n o k copied a x); try done; [by left|lia]|]. cbn beta. intros _ s' [H _]. revert H. apply lands_mono. intros v' s''. apply ebb_flow.
Qed.

End SchedWaitpid.
