(* ===== verification/SchedTrace.v ===== *)
(** * Start-up and executions of the scheduler

    Every event that can happen in a reachable state is defined, and keeps the
    invariant and the measure of the waiting processes. *)

From S2P Require Import Prelude Errno Links Pcb Sched WaitObj Lifecycle Futex SchedSys SchedInv SchedQueue SchedOps SchedReady SchedPick SchedWait SchedWake SchedBlock SchedRank SchedCalls SchedFutex SchedLife SchedEvents SchedWaitpid.

(** ** Start-up establishes the invariant

    [scheduler_init] makes the idle thread, the first process is created and
    queued, and [scheduler_start] gives it the processor. *)

Import Links Pcb Sched WaitObj Lifecycle Futex SchedSys SchedInv SchedQueue SchedOps SchedReady SchedPick SchedSwitch SchedWait SchedWake SchedBlock SchedRank SchedCalls SchedLife SchedEvents.

Module SchedBoot.
Local Open Scope Z_scope.

Definition empty_view : view := View (λ _ _, []) (λ _, []) [].

(** The idle thread, and the state of the scheduler with nothing else in it. *)
Definition idle_process : process := Proc 0 0 1 0 PROCESS_READY 19 1 0 0 0 1 0 0 0 0 0 0 0 0 0 0 0 0 0 User.

Definition bare (a : Z) : state :=
  State {[a := idle_process]} (objects power_on) runqueue_init runqueue_init false 0 0 a 0 0 (<[0%nat := a]> (replicate 256 0)) (<[0%nat := 1]> (replicate 256 0)) 1 0.

(** A process that is created while none runs has no parent. *)
Definition orphan (i seq : Z) : process := Proc i 0 seq 0 PROCESS_CREATED 0 SCHED_QUANTUM_TICKS 0 0 0 1 0 0 0 0 0 0 0 0 0 0 0 0 0 User.

Lemma create_first s s1 a i (Φ : Z → state → Prop) : a ≠ 0 → i ≠ 0 → allocate_pid s = Some (i, s1) → current s1 = 0 →
  (let seq := u64 (g_create_seq s1 + 1) in Φ a (put_g_create_seq seq (put_process_table (<[Z.to_nat i := a]> (process_table s1)) (put_procs (<[a := orphan i seq]> (procs s1)) s1)))) → wp (process_create a true) s Φ.
Proof.
  intros Ha Hi Hal Hc HΦ. unfold process_create. apply wp_bind. exists i, s1. split; [done|]. destruct (Z.eqb_spec i 0); [done|]. destruct (Z.eqb_spec a 0); [done|]. cbn [orb negb]. apply wp_bind, wp_read. rewrite Hc. cbn [Z.eqb].
  apply wp_bind, wp_ret, wp_bind, wp_read, wp_bind, wp_modify, wp_ret. exact HΦ.
Qed.

Lemma init_spec a (Φ : unit → state → Prop) : a ≠ 0 → Φ tt (bare a) → wp (scheduler_init a) power_on Φ.
Proof.
  intros Ha HΦ. unfold scheduler_init. apply wp_bind, wp_modify. set (s0 := put_active _ _). unfold create_idle_thread. apply wp_bind, wp_bind.
  eapply (create_first s0 (put_pid_used (<[1%nat := 1]> (replicate 256 0)) s0) a 1); [done|done|reflexivity|reflexivity|]. cbv zeta. set (s1 := put_g_create_seq _ _).
  assert (H1 : procs s1 !! a = Some (orphan 1 1)) by apply lookup_insert_eq. apply wp_bind. unfold process_adopt_pid0. apply wp_bind, (wp_get a (orphan 1 1)); [done|]. cbn [pid orphan Z.eqb]. apply wp_bind, wp_read.
  replace ((1 <? MAX_PROCESSES) && (process_table s1 !!! Z.to_nat 1 =? a)) with true by (symmetry; cbn; apply Z.eqb_refl). apply wp_bind, wp_modify, wp_bind, wp_upd; [by exists (orphan 1 1)|]. apply wp_modify.
  apply wp_bind, wp_upd; [cbn; rewrite lookup_alter_is_Some; by exists (orphan 1 1)|]. unfold process_set_ready. apply wp_bind, wp_bind.
  assert (Hp : ∀ f g : process → process, alter f a (alter g a (procs s1)) = {[a := f (g (orphan 1 1))]}) by (intros f g; change (procs s1) with ({[a := orphan 1 1]} : gmap Z process); by rewrite alter_alter_eq, alter_singleton_eq).
  eapply (wp_get a); [cbn; rewrite Hp; apply lookup_singleton_eq|]. cbn [pstate orphan set_pid set_priority set_time_slice]. apply wp_bind, wp_upd; [cbn; rewrite Hp, lookup_singleton_eq; by eexists|]. apply wp_ret, wp_ret, wp_modify.
  cbn. rewrite Hp, alter_singleton_eq. exact HΦ.
Qed.

Lemma static_objects o w : objects power_on !! o = Some w → waiters w = 0 ∧ tail w = 0.
Proof.
  cbn [objects power_on]. intros [[<- <-]|[_ Ho]]%lookup_insert_Some; [done|]. apply elem_of_list_to_map_2, list_elem_of_fmap in Ho as (i & [= _ ->] & _). done.
Qed.

Lemma static_present o : 1 ≤ o ≤ SLEEP → is_Some (objects power_on !! o).
Proof.
  intros Ho. cbn [objects power_on]. destruct (decide (o = g_sleep_wobj)) as [->|Hne]; [rewrite lookup_insert_eq; by eexists|]. rewrite lookup_insert_ne by done. apply not_eq_None_Some. intros H. apply not_elem_of_list_to_map in H. apply H.
  rewrite <- list_fmap_compose. apply list_elem_of_fmap. exists (Z.to_nat (o - 1)). unfold SLEEP, g_sleep_wobj in *. split; [unfold futex_bucket; cbn; lia|]. apply elem_of_seq. lia.
Qed.

Lemma empty_queue nx : queue_ok nx runqueue_init (λ _, []).
Proof.
  split; cbn [queues tails bitmap runqueue_init]; try done.
  - intros k Hk. cbn. by apply lookup_total_replicate_2.
  - intros k Hk. by apply lookup_total_replicate_2.
  - intros i Hi. rewrite lookup_total_replicate_2 by done. lia.
  - intros k Hk. unfold bit_of. rewrite lookup_total_replicate_2; [by rewrite Z.bits_0|]. change (Z.to_nat SCHED_BITMAP_WORDS) with 3%nat. apply Nat.Div0.div_lt_upper_bound. lia.
Qed.

Lemma bare_inv a : a ≠ 0 → inv empty_view (bare a) (λ _, 0) 0.
Proof.
  intros Ha. split; cbn [bare rq0 rq1 rq_of procs objects ready_count current idle_thread g_sleep_list process_table pid_used futex_initialized Q W SL empty_view]; try done.
  - intros []; apply empty_queue.
  - intros r k r' k' p H. by apply elem_of_nil in H.
  - intros o w Ho. destruct (static_objects o w Ho) as [E1 E2]. by split.
  - apply static_present.
  - intros p x [<- <-]%lookup_singleton_Some. done.
  - intros p q x y [<- <-]%lookup_singleton_Some [<- <-]%lookup_singleton_Some. done.
  - rewrite map_fmap_singleton. split; [done| | |].
    + intros p i [<- <-]%lookup_singleton_Some. done.
    + intros [|i] p Hi Hp; [injection Hi as <-; apply lookup_singleton_eq|]. change (replicate 255 0 !! i = Some p) in Hi. apply lookup_replicate in Hi as [-> _]. done.
    + intros [|i] Hi Hi0; [done|]. change (replicate 255 0 !! i = Some 0) in Hi. exact Hi.
  - intros p x [<- <-]%lookup_singleton_Some. split; cbn; try done; [right; split; [done|]; intros r k H; by apply elem_of_nil in H|by left| |intros H; by apply elem_of_nil in H|unfold holders; rewrite bool_decide_false by naive_solver; done|by right|by left].
    intros o. split; [intros H; by apply elem_of_nil in H|]. by intros [<- ?].
  - by left.
  - exists idle_process. by rewrite lookup_singleton_eq.
Qed.

(** The scheduler after start-up. *)
Lemma boot_spec a b : a ≠ 0 → b ≠ 0 → a ≠ b → wp (boot a b) power_on (λ _ s, ∃ v, inv v s (λ _, 0) 0 ∧ current s ≠ 0 ∧ idle_thread s = a).
Proof.
  intros Ha Hb Hab. unfold boot. apply wp_bind, init_spec; [done|]. apply wp_bind. pose proof (bare_inv a Ha) as Hi. assert (Hno : procs (bare a) !! b = None) by (cbn; by apply lookup_singleton_ne).
  apply (create_first (bare a) (put_pid_used (<[1%nat := 1]> (pid_used (bare a))) (bare a)) b 1); [done|done|reflexivity|reflexivity|]. cbv zeta. set (s1 := put_g_create_seq _ _).
  assert (Hi1 : inv empty_view s1 (λ _, 0) 0) by by apply (inv_create empty_view (bare a) (λ _, 0) b 1 (orphan 1 2)). assert (Hb1 : procs s1 !! b = Some (orphan 1 2)) by apply lookup_insert_eq.
  eapply wp_use; [apply (add_spec empty_view s1 (λ _, 0) 0 0 b _ Hi1 Hb1); [done|by intros q|done]|]. cbn beta. intros _ s2 (v2 & Hi2 & Had). assert (Hc2 : calm empty_view s1 v2 s2) by by eapply calm_added. destruct (c_rest Hc2) as (_ & C2 & C3).
  unfold scheduler_start. eapply wp_use; [apply (pick_spec v2 s2 (λ _, 0) 0 Hi2); by left|]. cbn beta. intros nx s3 (v3 & Hpick). destruct (picked_inv _ _ _ _ _ _ _ Hpick) as [Hi3 [y Hy]]. pose proof Hpick as ((R1 & R2 & R3) & _).
  apply (set_current_state s3 nx y); [done|]. set (s4 := put_procs (alter runs nx (procs s3)) s3). assert (Hi4 : inv v3 s4 (give (λ _, 0) (idle_thread s3) nx) 0) by (apply inv_plain; [apply plain_runs|done|by exists y]).
  assert (Hn0 : nx ≠ 0) by exact (live_ne _ _ _ _ _ _ Hi3 Hy). exists v3. split; [|split; [done|cbn; by rewrite R2, C3]].
  apply (inv_current v3 s4 _ _ 0 nx Hi4); [right; cbn; apply lookup_alter_is_Some; by exists y| |done].
  intros q [z Hz]. assert (Hq0 : q ≠ 0) by exact (live_ne _ _ _ _ _ _ Hi4 Hz). assert (Hc0 : current s4 = 0) by (cbn; by rewrite R1, C2). rewrite Hc0. change (idle_thread s4) with (idle_thread s3). unfold running, give.
  rewrite (bool_decide_false (q = 0 ∧ _)) by naive_solver. destruct (decide (nx = idle_thread s3)) as [En|En]; [rewrite bool_decide_false by naive_solver; done|].
  unfold bump. case_decide; [rewrite bool_decide_true by naive_solver|rewrite bool_decide_false by naive_solver]; done.
Qed.

End SchedBoot.

Import SchedFutex SchedWaitpid SchedBoot.

Module SchedTrace.
Local Open Scope Z_scope.

(** Signals are sent to processes other than the idle thread and those in
    [sys_sleep]: kill.c does not take a sleeper off the list of the timer. *)
Definition permitted (ev : event) (s : state) : Prop :=
  enabled ev s ∧ match ev with Kill pid _ => signalable s pid | _ => True end.

(** The states that [n] events lead to. *)
Inductive reachable (a b : Z) : nat → state → Prop :=
| reach_boot s : boot a b power_on = Some (tt, s) → reachable a b 0 s
| reach_event n s ev s' : reachable a b n s → permitted ev s → perform ev s = Some (tt, s') → reachable a b (S n) s'.

(** Yield counts as a hand-over even when nobody else takes the processor. *)
Definition pass (ev : event) (s s' : state) : Z := match ev with Yield => 1 | _ => moved s s' end.

Definition draws_closer (ev : event) (v : view) (s : state) (v' : view) (s' : state) : Prop :=
  ∀ p, p ≠ current s → is_queued v p → is_queued v' p → rank p v' s' + pass ev s s' ≤ rank p v s.

Definition steady_state (n : Z) (v : view) (e : Z → Z) (s : state) : Prop := inv v s e 0 ∧ (∀ q, e q ≤ n) ∧ current s ≠ 0.

Lemma user_facts v s e : inv v s e 0 → in_user s → ∃ x, procs s !! current s = Some x ∧ pc x = User ∧ wait_on x = 0 ∧ current s ≠ idle_thread s.
Proof.
  intros Hi [Hidle (x & Hx & Hpc)]. exists x. split_and!; try done. assert (Hp0 : current s ≠ 0) by exact (live_ne _ _ _ _ _ _ Hi Hx).
  pose proof (po_pc _ _ _ _ _ _ _ (i_procs _ _ _ _ Hi _ x Hx)) as H. unfold pc_ok in H. rewrite Hpc in H. by destruct H.
Qed.

Lemma wp_unit {A} (m : M A) s Φ : wp m s (λ _, Φ) → wp (m;; ret tt) s (λ _, Φ).
Proof. intros H. eapply wp_use; [exact H|]. intros x s' HΦ. by apply wp_ret. Qed.

(** ** Every event *)

Lemma perform_flow ev v s e : inv v s e 0 → current s ≠ 0 → small 0 e → permitted ev s → ev ≠ Yield → wp (perform ev) s (λ _ s', lands flow v s e s').
Proof.
  intros Hi Hc0 Hs [He Hp] Hy. destruct ev as [a ok| |ms|word cr3 uaddr op val uval|i sig|sig|status|i status_ptr options copied a|i increment|which who prio| |copied a|copied a]; cbn [perform enabled] in *; try done.
  - destruct He as [_ Ha]. by apply (spawn_spec v s e 0).
  - destruct He as [Hu _]. destruct (user_facts v s e Hi Hu) as (x & Hx & Hpc & _ & Hidle). by apply wp_unit, (sleep_spec v s e 0 ms x).
  - destruct (user_facts v s e Hi He) as (x & Hx & Hpc & _ & Hidle). by apply wp_unit, (sys_futex_spec word cr3 v s e 0 uaddr op val uval x).
  - destruct He as (_ & H0 & _). by apply wp_unit, (kill_spec v s e 0 i sig).
  - destruct He as [Hu _]. destruct (user_facts v s e Hi Hu) as (x & Hx & Hpc & _ & Hidle). apply wp_bind, wp_read. by apply (default_action_spec v s e 0 sig x).
  - destruct (user_facts v s e Hi He) as (x & Hx & Hpc & _ & Hidle). by apply (exit_spec v s e 0 status x).
  - destruct He as [Hu Hfr]. destruct (user_facts v s e Hi Hu) as (x & Hx & Hpc & Hw & Hidle). eapply wp_mono; [by apply (waitpid_spec v s e 0 i status_ptr options copied a x)|].
    cbn beta. intros _ s' [H _]. revert H. apply lands_mono. intros v' s''. apply ebb_flow.
  - by apply wp_unit, (nice_spec v s e 0 i increment).
  - by apply wp_unit, (setpriority_spec v s e 0 which who prio).
  - by apply (tick_lands v s e 0).
  - destruct He as [Hh Hfr]. by apply (halted_spec v s e 0 copied a).
  - destruct He as [Hh Hfr]. by apply (resumed_spec v s e 0 copied a).
Qed.

Lemma perform_spec ev n v e s : steady_state n v e s → n < 2 ^ 31 → permitted ev s →
  wp (perform ev) s (λ _ s', ∃ v' e', steady_state (n + 1) v' e' s' ∧ draws_closer ev v s v' s').
Proof.
  intros (Hi & He & Hc0) Hn Hp. assert (Hs : small 0 e) by (intros q; specialize (He q); lia).
  assert (Hfin : ∀ R s', lands R v s e s' → (∀ v', R v s v' s' → draws_closer ev v s v' s') → ∃ v' e', steady_state (n + 1) v' e' s' ∧ draws_closer ev v s v' s').
  { intros R s' (v' & e' & H1 & H2 & H3 & H4 & _) HR. exists v', e'. split; [|by apply HR]. split_and!; try done. intros q. specialize (He q). specialize (H2 q). lia. }
  assert (ev = Yield ∨ ev ≠ Yield) as [->|Hy] by (destruct ev; auto).
  - destruct Hp as [He' _]. destruct (user_facts v s e Hi He') as (x & Hx & _ & _ & Hidle). apply wp_unit. eapply wp_mono; [by apply (yield_spec v s e 0 x)|]. cbn beta. intros _ s' H. eapply Hfin; [exact H|]. intros v' Hcl p. apply Hcl.
  - eapply wp_mono; [by apply (perform_flow ev v s e)|]. cbn beta. intros _ s' H. eapply Hfin; [exact H|]. intros v' Hf p Hpc Hq Hq'. specialize (Hf p Hpc Hq Hq'). by destruct ev.
Qed.

Lemma wp_result {A} (m : M A) s x s' (Φ : A → state → Prop) : wp m s Φ → m s = Some (x, s') → Φ x s'.
Proof. intros (y & s1 & E & H) E'. rewrite E in E'. by injection E' as -> ->. Qed.

Lemma reachable_steady a b n s : a ≠ 0 → b ≠ 0 → a ≠ b → reachable a b n s → Z.of_nat n < 2 ^ 31 → ∃ v e, steady_state (Z.of_nat n) v e s.
Proof.
  intros Ha Hb Hab Hr. induction Hr as [s Hs|n s ev s' Hr IH Hp Hs]; intros Hn.
  - destruct (wp_result _ _ _ _ _ (boot_spec a b Ha Hb Hab) Hs) as (v & Hi & Hc & _). exists v, (λ _, 0). split_and!; try done.
  - destruct IH as (v & e & Hst); [lia|]. destruct (wp_result _ _ _ _ _ (perform_spec ev _ v e s Hst ltac:(lia) Hp) Hs) as (v' & e' & H & _). exists v', e'. by replace (Z.of_nat (S n)) with (Z.of_nat n + 1) by lia.
Qed.

End SchedTrace.

(** ** What the scheduler's lists hold, read from the state

    Executable functions that follow the links, and the proof that in a state
    that satisfies the invariant they return the lists of its view. *)

Import Links Pcb Sched WaitObj SchedInv SchedQueue SchedOps SchedReady SchedPick SchedWait SchedWake SchedRank.

Module SchedRead.
Local Open Scope Z_scope.

Fixpoint follow (fuel : nat) (nx : process → Z) (s : state) (p : Z) : list Z :=
  match fuel with
  | O => []
  | S fuel =>
      if p =? 0 then []
      else match procs s !! p with
           | Some x => p :: follow fuel nx s (nx x)
           | None => []
           end
  end.

(** The processes queued at one priority, in one array, and in both in the order
    in which they are served. *)
Definition queue_at (r : bool) (s : state) (k : nat) : list Z := follow (fuel_of s) next s (queues (rq_of r s) !!! k).
Definition array_of (r : bool) (s : state) : list Z := concat (queue_at r s <$> seq 0 (Z.to_nat SCHED_PRIORITY_LEVELS)).
Definition service_order (s : state) : list Z := array_of (active s) s ++ array_of (negb (active s)) s.

(** The waiters of an object, and the sleepers. *)
Definition waiters_of (o : Z) (s : state) : list Z := follow (fuel_of s) wait_next s (from_option waiters 0 (objects s !! o)).
Definition sleepers (s : state) : list Z := follow (fuel_of s) sleep_next s (g_sleep_list s).

Lemma follow_chain fuel (nx : process → Z) s h l : chain (nx <$> procs s) h l → (length l < fuel)%nat → follow fuel nx s h = l.
Proof.
  revert fuel h. induction l as [|q l IH]; intros [|fuel] h Hc Hf; cbn in Hf; try lia; cbn [follow]; [cbn in Hc; by rewrite Hc|].
  destruct Hc as (-> & H0 & n & Hn & Hc). rewrite lookup_fmap in Hn. apply fmap_Some in Hn as (x & Hx & ->). destruct (Z.eqb_spec q 0); [done|]. rewrite Hx. f_equal. apply IH; [done|lia].
Qed.

Section Read.
Context (v : view) (s : state) (e : Z → Z) (h : Z).
Hypothesis Hi : inv v s e h.

Lemma queue_at_view r k : (k < levels)%nat → queue_at r s k = Q v r k.
Proof. intros Hk. pose proof (q_chain _ _ _ (i_rq _ _ _ _ Hi r) k Hk) as Hc. apply follow_chain; [done|]. by eapply fuel_enough. Qed.

Lemma array_view r : array_of r s = members (Q v r).
Proof. unfold array_of, members. f_equal. apply list_fmap_ext. intros i k Hk. apply queue_at_view. apply lookup_seq in Hk as [-> Hk]. exact Hk. Qed.

Lemma service_view : service_order s = service v (active s).
Proof. unfold service_order, service. by rewrite !array_view. Qed.

Lemma waiters_view o : waiters_of o s = W v o.
Proof.
  unfold waiters_of. destruct (objects s !! o) as [w|] eqn:Ho; cbn [from_option].
  - destruct (i_obj _ _ _ _ Hi o w Ho) as [Hc _ _]. apply follow_chain; [done|]. by eapply fuel_enough.
  - by rewrite (i_noobj _ _ _ _ Hi o Ho).
Qed.

Lemma sleepers_view : sleepers s = SL v.
Proof. pose proof (i_sleep _ _ _ _ Hi) as Hc. apply follow_chain; [done|]. by eapply fuel_enough. Qed.

Lemma service_queued p : p ∈ service_order s ↔ is_queued v p.
Proof. rewrite service_view. by apply (elem_service v s e h). Qed.

Lemma service_flag p : p ∈ service_order s ↔ ∃ x, procs s !! p = Some x ∧ on_queue x = 1.
Proof.
  rewrite service_queued. split.
  - intros Hq. apply (service_live v s e h (active s)); [done|]. by apply (elem_service v s e h).
  - intros (x & Hx & E). destruct (po_queue _ _ _ _ _ _ _ (i_procs _ _ _ _ Hi p x Hx)) as [[_ H]|[E' _]]; [done|lia].
Qed.

Lemma service_count : ready_count s = Z.of_nat (length (service_order s)).
Proof.
  rewrite service_view, service_length, (i_count _ _ _ _ Hi). fold (queued v). pose proof (queued_bound _ _ _ _ Hi) as H1. pose proof (procs_bound _ _ _ _ Hi) as H2. unfold fuel_of in H1. apply u32_small. unfold queued in *. lia.
Qed.

Lemma waiters_flag o p : o ≠ 0 → p ∈ waiters_of o s ↔ ∃ x, procs s !! p = Some x ∧ wait_on x = o.
Proof.
  intros Ho. rewrite waiters_view. split.
  - intros Hp. destruct (waiting_proc _ _ _ _ _ _ Hi Hp) as (x & _ & Hx & _). exists x. split; [done|]. by apply (po_wait _ _ _ _ _ _ _ (i_procs _ _ _ _ Hi p x Hx)).
  - intros (x & Hx & E). by apply (po_wait _ _ _ _ _ _ _ (i_procs _ _ _ _ Hi p x Hx)).
Qed.

Lemma waiters_nodup o : NoDup (waiters_of o s).
Proof.
  rewrite waiters_view. destruct (objects s !! o) as [w|] eqn:Ho; [|rewrite (i_noobj _ _ _ _ Hi o Ho); constructor]. destruct (i_obj _ _ _ _ Hi o w Ho) as [Hc _ _]. by eapply chain_nodup.
Qed.

Lemma queue_bits r k : (k < levels)%nat → bit_of (bitmap (rq_of r s)) k = bool_decide (queue_at r s k ≠ []).
Proof. intros Hk. rewrite queue_at_view by done. apply (q_bit _ _ _ (i_rq _ _ _ _ Hi r)). unfold levels in Hk. lia. Qed.

Lemma refs_held p x : procs s !! p = Some x → 0 < ref_count x < 2 ^ 32 ∧ holders (current s) (idle_thread s) p x ≤ ref_count x.
Proof. intros Hx. pose proof (i_procs _ _ _ _ Hi p x Hx) as Hok. split; [apply (po_live _ _ _ _ _ _ _ Hok)|]. rewrite (po_refs _ _ _ _ _ _ _ Hok). destruct (i_extra _ _ _ _ Hi p). lia. Qed.

End Read.

End SchedRead.
