(* ===== verification/SchedProps.v ===== *)
(** * The scheduler: what it guarantees

    Properties of every state that the scheduler reaches from start-up, in terms
    of the lists that its links form. *)

From S2P Require Import Prelude Errno Links Pcb Sched WaitObj Lifecycle Futex SchedSys SchedInv SchedQueue SchedOps SchedReady SchedPick SchedWait SchedWake SchedBlock SchedRank SchedCalls SchedFutex SchedLife SchedEvents SchedWaitpid SchedTrace.
Import Links Pcb Sched WaitObj Lifecycle Futex SchedSys SchedInv SchedQueue SchedOps SchedReady SchedPick SchedSwitch SchedWait SchedWake SchedBlock SchedRank SchedCalls SchedFutex SchedLife SchedEvents SchedWaitpid SchedBoot SchedTrace SchedRead.

Module SchedProps.
Local Open Scope Z_scope.

(** A state that fewer than 2^31 events lead to from start-up. *)
Definition running_system (n : nat) (s : state) : Prop :=
  ∃ a b, a ≠ 0 ∧ b ≠ 0 ∧ a ≠ b ∧ reachable a b n s ∧ Z.of_nat n < 2 ^ 31.

Lemma running_steady n s : running_system n s → ∃ v e, steady_state (Z.of_nat n) v e s ∧ Z.of_nat n < 2 ^ 31.
Proof. intros (a & b & Ha & Hb & Hab & Hr & Hn). destruct (reachable_steady a b n s Ha Hb Hab Hr Hn) as (v & e & H). by exists v, e. Qed.

Lemma steady_small n v e s : steady_state n v e s → n < 2 ^ 31 → small 0 e.
Proof. intros (_ & He & _) Hn q. specialize (He q). lia. Qed.

(** ** Concrete executions *)

Fixpoint perform_all (l : list event) : M unit :=
  match l with
  | [] => ret tt
  | ev :: l => perform ev;; perform_all l
  end.

(** The state after [l], with the idle thread at 100 and the first process at 200. *)
Definition state_after (l : list event) : state :=
  match (boot 100 200;; perform_all l) power_on with
  | Some (_, s) => s
  | None => power_on
  end.

Lemma boot_runs : running_system 0 (state_after []).
Proof. exists 100, 200. split_and!; try done. apply reach_boot. vm_compute. reflexivity. Qed.

Lemma event_runs n l ev s' : running_system n (state_after l) → Z.of_nat (S n) < 2 ^ 31 → permitted ev (state_after l) → perform ev (state_after l) = Some (tt, s') → running_system (S n) s'.
Proof. intros (a & b & Ha & Hb & Hab & Hr & _) Hn Hp Hs. exists a, b. split_and!; try done. by eapply reach_event. Qed.

Lemma user_now s x : procs s !! current s = Some x → pc x = User → current s ≠ idle_thread s → in_user s.
Proof. intros Hx Hpc Hi. split; [done|]. by exists x. Qed.

Ltac in_user_now := eapply user_now; [vm_compute; reflexivity|vm_compute; reflexivity|vm_compute; discriminate].

(** A second process, ready at 300. *)
Lemma spawn_runs : running_system 1 (state_after [Spawn 300 true]).
Proof.
  eapply (event_runs 0 [] (Spawn 300 true)); [apply boot_runs|done| |vm_compute; reflexivity]. split; [|done]. split; [in_user_now|vm_compute; reflexivity].
Qed.

(** ** Safety *)

(** The lists of the scheduler are what the fields of the processes say: a process
    is queued once or not at all, the bit maps tell which queues are empty, the
    waiters of an object are the processes that name it, and every reference that
    the state shows is counted. *)
Record consistent (s : state) : Prop := Consistent {
  k_queued p : p ∈ service_order s ↔ ∃ x, procs s !! p = Some x ∧ on_queue x = 1;
  k_once : NoDup (service_order s);
  k_count : ready_count s = Z.of_nat (length (service_order s));
  k_bits r k : (k < Z.to_nat SCHED_PRIORITY_LEVELS)%nat → Z.testbit (bitmap (rq_of r s) !!! (k / 64)%nat) (Z.of_nat (k mod 64)) = bool_decide (queue_at r s k ≠ []);
  k_waiters o p : o ≠ 0 → p ∈ waiters_of o s ↔ ∃ x, procs s !! p = Some x ∧ wait_on x = o;
  k_waits_once o : NoDup (waiters_of o s);
  k_refs p x : procs s !! p = Some x → 0 < ref_count x < 2 ^ 32 ∧ holders (current s) (idle_thread s) p x ≤ ref_count x;
  k_current : is_Some (procs s !! current s) }.

Lemma inv_consistent v s e : inv v s e 0 → current s ≠ 0 → consistent s.
Proof.
  intros Hi Hc. split.
  - by apply (service_flag v s e 0).
  - rewrite (service_view v s e 0 Hi). by eapply service_nodup.
  - by apply (service_count v s e 0).
  - by apply (queue_bits v s e 0).
  - intros o p. by apply (waiters_flag v s e 0).
  - by apply (waiters_nodup v s e 0).
  - by apply (refs_held v s e 0).
  - destruct (live_current v s e 0 Hi Hc) as [x Hx]. by exists x.
Qed.

(** C11: The scheduler starts, and in every state that fewer than 2^31 events lead
    to its lists, bit maps, flags and reference counts agree, and every further
    event is defined: no freed process is touched, no assertion fails, and every
    loop over a list ends. *)
Theorem scheduler_safe a b : a ≠ 0 → b ≠ 0 → a ≠ b →
  (∃ s, boot a b power_on = Some (tt, s)) ∧
  ∀ n s, reachable a b n s → Z.of_nat n < 2 ^ 31 → consistent s ∧ ∀ ev, permitted ev s → ∃ s', perform ev s = Some (tt, s').
Proof.
  intros Ha Hb Hab. split.
  - destruct (boot_spec a b Ha Hb Hab) as ([] & s & H & _). by exists s.
  - intros n s Hr Hn. destruct (reachable_steady a b n s Ha Hb Hab Hr Hn) as (v & e & Hst). pose proof Hst as (Hi & _ & Hc). split; [by eapply inv_consistent|].
    intros ev Hp. destruct (perform_spec ev _ v e s Hst Hn Hp) as ([] & s' & H & _). by exists s'.
Qed.

Lemma scheduler_safe_witness : consistent (state_after []) ∧ ∃ s', perform Yield (state_after []) = Some (tt, s').
Proof.
  destruct (scheduler_safe 100 200 ltac:(done) ltac:(done) ltac:(done)) as [_ H]. destruct (H 0%nat (state_after [])) as [Hk Hev]; [apply reach_boot; vm_compute; reflexivity|done|].
  split; [exact Hk|]. apply (Hev Yield). split; [|exact I]. in_user_now.
Defined.

(** ** The choice of the next process *)





(** ** Liveness *)

(** The events of [tr] happen one after the other, each when [ok] allows it. *)
Fixpoint execution (ok : event → state → Prop) (s : state) (tr : list (event * state)) : Prop :=
  match tr with
  | [] => True
  | (ev, s') :: tr => ok ev s ∧ perform ev s = Some (tt, s') ∧ execution ok s' tr
  end.

(** The events of [tr] at which the processor is offered to another process. *)
Fixpoint hand_overs (s : state) (tr : list (event * state)) : Z :=
  match tr with
  | [] => 0
  | (ev, s') :: tr => pass ev s s' + hand_overs s' tr
  end.

(** Ready to run, but not running. *)
Definition ready (p : Z) (s : state) : Prop := p ∈ service_order s ∧ p ≠ current s.

#[global] Instance ready_dec p s : Decision (ready p s).
Proof. unfold ready. apply _. Defined.

(** Twice 256 processes with up to ten boosted turns each, and the turns of the
    running one. *)
Definition TURNS : Z := 2 * LIMIT + 1.

Lemma waits_at_most p tr : ∀ n v e s, steady_state n v e s → n + Z.of_nat (length tr) < 2 ^ 31 → ready p s → execution permitted s tr →
  hand_overs s tr ≤ rank p v s ∨ ∃ ev s', (ev, s') ∈ tr ∧ ¬ ready p s'.
Proof.
  induction tr as [|[ev s'] tr IH]; intros n v e s Hst Hn [Hp Hc] Hex; cbn [hand_overs length] in *.
  { left. destruct Hst as (Hi & _). apply (rank_bound p v s e 0 Hi). }
  destruct Hex as (Hperm & Hs & Hex). pose proof (wp_result _ _ _ _ _ (perform_spec ev n v e s Hst ltac:(lia) Hperm) Hs) as (v' & e' & Hst' & Hd). destruct Hst as (Hi & _). pose proof Hst' as (Hi' & _).
  destruct (decide (ready p s')) as [Hr|Hr]; [|right; exists ev, s'; split; [left|done]].
  destruct (IH (n + 1) v' e' s' Hst' ltac:(lia) Hr Hex) as [H|(ev' & s'' & Hin & H)]; [left|right; exists ev', s''; split; [by right|done]].
  assert (rank p v' s' + pass ev s s' ≤ rank p v s); [|lia]. apply Hd; [done|by apply (service_queued v s e 0 Hi)|]. destruct Hr as [Hr _]. by apply (service_queued v' s' e' 0 Hi').
Qed.

(** C12: A process that is ready does not starve: in every execution that goes on
    from a reachable state, it gets the processor, or leaves the ready queues,
    before the processor has been offered for the 5654th time. *)
Theorem ready_process_served n s p tr : running_system n s → execution permitted s tr → Z.of_nat (n + length tr) < 2 ^ 31 → ready p s →
  hand_overs s tr ≤ TURNS ∨ ∃ ev s', (ev, s') ∈ tr ∧ (current s' = p ∨ p ∉ service_order s').
Proof.
  intros Hr Hex Hn Hp. destruct (running_steady n s Hr) as (v & e & Hst & _). destruct (waits_at_most p tr (Z.of_nat n) v e s Hst ltac:(lia) Hp Hex) as [H|(ev & s' & Hin & H)].
  - left. destruct Hst as (Hi & _). pose proof (rank_bound p v s e 0 Hi). unfold TURNS. lia.
  - right. exists ev, s'. split; [done|]. destruct (decide (current s' = p)); [by left|right]. intros Hq. apply H. split; [done|]. congruence.
Qed.

(** The second process takes over when the first one yields. *)
Lemma ready_process_served_witness : let s := state_after [Spawn 300 true] in let tr := [(Yield, state_after [Spawn 300 true; Yield])] in
  ready 300 s ∧ hand_overs s tr = 1 ∧ (hand_overs s tr ≤ TURNS ∨ ∃ ev s', (ev, s') ∈ tr ∧ (current s' = 300 ∨ 300 ∉ service_order s')).
Proof.
  intros s tr. assert (Hp : ready 300 s) by (apply (bool_decide_eq_true_1 (ready 300 s)); vm_compute; reflexivity). split; [exact Hp|]. split; [vm_compute; reflexivity|].
  apply (ready_process_served 1 s 300 tr spawn_runs); [|vm_compute; reflexivity|exact Hp]. split; [|split; [vm_compute; reflexivity|exact I]]. split; [|exact I]. in_user_now.
Defined.

(** ** Futexes *)

(** The blocked waiters of the bucket [o] that wait for the word at [key]. *)
Definition blocked_on_key (key o : Z) (s : state) : list Z := filter (λ q, candidate (keyed key) s q = true) (waiters_of o s).

(** C14: [futex_wake] wakes exactly the processes that have waited longest for
    this word, at most [n] of them, first come first served: they are ready and
    wait on nothing any more.  Waiters for other words that hash to the same bucket and all other blocked
    processes are left alone. *)
Theorem futex_wake_correct m s word cr3 uaddr n : running_system m s →
  let a := futex_get_phys_addr word cr3 uaddr in let o := futex_bucket (futex_hash a) in
  ∃ r s', futex_wake word cr3 uaddr n s = Some (r, s') ∧
    if negb (futex_validate_addr uaddr =? 0) then r = futex_validate_addr uaddr ∧ s' = s
    else if a =? 0 then r = EFAULT ∧ s' = s
    else let l := take (Z.to_nat n) (blocked_on_key a o s) in
      r = Z.of_nat (length l) ∧ blocked_on_key a o s' = drop (Z.to_nat n) (blocked_on_key a o s) ∧
      (∀ q, q ∈ l → q ∈ service_order s' ∧ ∃ y, procs s' !! q = Some y ∧ pstate y = PROCESS_READY ∧ wait_on y = 0) ∧
      (∀ q x, q ∉ l → procs s !! q = Some x → pstate x = PROCESS_BLOCKED ∨ wait_on x ≠ o → ∃ y, procs s' !! q = Some y ∧ core y = core x).
Proof.
  intros Hr a o. destruct (running_steady m s Hr) as (v & e & Hst & Hn). pose proof (steady_small _ _ _ _ Hst Hn) as Hsm. destruct Hst as (Hi & _).
  destruct (futex_wake_spec word cr3 v s e 0 uaddr n Hi Hsm) as (r & s' & E & v' & Hi' & _ & H); [lia|]. exists r, s'. split; [done|]. fold a o in H. destruct (negb _); [done|]. destruct (a =? 0); [done|].
  unfold blocked_on_key. rewrite (waiters_view v s e 0 Hi), (waiters_view v' s' e 0 Hi'). destruct H as (H1 & (H2 & H3) & H4). split_and!; try done.
  intros q Hq. destruct (H2 q Hq) as (x & y & _ & _ & Hy & Y1 & Y2 & Y3). split; [apply (service_flag v' s' e 0 Hi')|]; by exists y.
Qed.

(** A memory in which every page table entry maps page 0 for user mode, and a
    futex word in it. *)
Definition low_page : Z → Z := λ _, 7.
Definition WAIT_CALL : event := FutexCall low_page 0 0x1004 FUTEX_WAIT 5 5.

Lemma futex_runs : running_system 2 (state_after [Spawn 300 true; WAIT_CALL]).
Proof. eapply (event_runs 1 [Spawn 300 true] WAIT_CALL); [apply spawn_runs|done| |vm_compute; reflexivity]. split; [|done]. in_user_now. Qed.

(** The first process waits, the second one wakes it. *)
Lemma futex_wake_correct_witness : let s := state_after [Spawn 300 true; WAIT_CALL] in
  blocked_on_key 4 5 s = [200] ∧ ∃ s', futex_wake low_page 0 0x1004 1 s = Some (1, s') ∧ 200 ∈ service_order s'.
Proof.
  intros s. split; [vm_compute; reflexivity|]. destruct (futex_wake_correct 2 s low_page 0 0x1004 1 futex_runs) as (r & s' & E & H).
  replace (futex_bucket (futex_hash (futex_get_phys_addr low_page 0 0x1004))) with 5 in H by (vm_compute; reflexivity). replace (futex_get_phys_addr low_page 0 0x1004) with 4 in H by (vm_compute; reflexivity).
  replace (blocked_on_key 4 5 s) with [200] in H by (vm_compute; reflexivity). cbn in H. destruct H as (-> & _ & H & _). exists s'. split; [exact E|]. apply H. left.
Defined.

(** C15: [futex_wait] blocks only while the word has the expected value: with
    another value it returns EAGAIN and no process changes.  Otherwise the caller
    is the last of the waiters in the bucket, blocked under the key of the word,
    and either has lost the processor or halts because nothing else is ready; it
    returns at once only when it was still queued from an earlier wake-up. *)
Theorem futex_wait_correct n s word cr3 uaddr val uval : running_system n s → in_user s → futex_initialized s ≠ 0 →
  let a := futex_get_phys_addr word cr3 uaddr in let o := futex_bucket (futex_hash a) in let p := current s in
  ∃ r s', futex_wait word cr3 uaddr val uval s = Some (r, s') ∧
    if negb (futex_validate_addr uaddr =? 0) then r = Some (futex_validate_addr uaddr) ∧ s' = s
    else if a =? 0 then r = Some EFAULT ∧ s' = s
    else if uval =? val then
      r = Some 0 ∧ p ∈ service_order s ∨
      r = None ∧ waiters_of o s' = waiters_of o s ++ [p] ∧ ∃ y, procs s' !! p = Some y ∧ pstate y = PROCESS_BLOCKED ∧ wait_on y = o ∧ futex_key y = a ∧
        (pc y = Halted o AfterFutex ∨ pc y = Parked o AfterFutex ∧ current s' ≠ p)
    else r = Some EAGAIN ∧ procs s' = procs s ∧ current s' = current s.
Proof.
  intros Hr Hu Hf a o p. destruct (running_steady n s Hr) as (v & e & Hst & Hn). pose proof (steady_small _ _ _ _ Hst Hn) as Hsm. destruct Hst as (Hi & _). destruct (user_facts v s e Hi Hu) as (x & Hx & _ & Hw & Hidle).
  destruct (futex_wait_result word cr3 v s e 0 uaddr val uval x Hi Hidle Hx Hw Hsm ltac:(lia) Hf) as (r & s' & E & H). exists r, s'. split; [done|]. fold a o p in H. destruct (negb _); [done|]. destruct (a =? 0); [done|]. destruct (uval =? val); [|done].
  destruct H as [[-> Hq]|(-> & v' & Hi' & HW & Hy)]; [left|right].
  - split; [done|]. apply (service_flag v s e 0 Hi). by exists x.
  - split; [done|]. rewrite (waiters_view v s e 0 Hi), (waiters_view v' s' e 0 Hi'). done.
Qed.

Lemma futex_wait_correct_witness : let s := state_after [Spawn 300 true; WAIT_CALL] in
  current s = 300 ∧ waiters_of 5 s = [200] ∧ ∃ s', futex_wait low_page 0 0x1004 5 6 s = Some (Some EAGAIN, s') ∧ procs s' = procs s.
Proof.
  intros s. split; [vm_compute; reflexivity|]. split; [vm_compute; reflexivity|]. destruct (futex_wait_correct 2 s low_page 0 0x1004 5 6 futex_runs) as (r & s' & E & H); [in_user_now|vm_compute; discriminate|].
  replace (futex_get_phys_addr low_page 0 0x1004) with 4 in H by (vm_compute; reflexivity). cbn in H. destruct H as (-> & H & _). exists s'. split; [exact E|exact H].
Defined.

(** ** The timer *)

(** C16: A tick advances the clock by one and takes exactly the sleepers whose
    deadline has come off the sleep list; those that are blocked become ready.
    The others stay asleep in their order, and no process but the running one,
    which is charged for the tick, changes in anything but its links. *)
Theorem tick_wakes_due n s : running_system n s → let now := u64 (timer_ticks s + 1) in
  ∃ s', timer_handler s = Some (tt, s') ∧ timer_ticks s' = now ∧ current s' = current s ∧ sleepers s' = filter (λ q, due s now q = false) (sleepers s) ∧
    (∀ o, waiters_of o s' = waiters_of o s) ∧
    (∀ q x, q ∈ sleepers s → due s now q = true → procs s !! q = Some x → pstate x = PROCESS_BLOCKED → q ∈ service_order s' ∧ ∃ y, procs s' !! q = Some y ∧ pstate y = PROCESS_READY) ∧
    (∀ q x, q ∉ sleepers s ∨ due s now q = false → q ≠ current s → procs s !! q = Some x → ∃ y, procs s' !! q = Some y ∧ core y = core x).
Proof.
  intros Hr now. destruct (running_steady n s Hr) as (v & e & Hst & Hn). pose proof (steady_small _ _ _ _ Hst Hn) as Hsm. destruct Hst as (Hi & _ & Hc0).
  destruct (timer_spec v s e 0 Hi Hc0 Hsm) as ([] & s' & E & v' & s1 & Hi' & _ & (_ & HW & HS & _ & Hsame & Hwake) & -> & Hc & Ht); [lia|]. fold now in HS, Hsame, Hwake. eexists. split; [done|].
  rewrite (sleepers_view v s e 0 Hi). set (s' := put_procs _ s1) in *. rewrite (sleepers_view v' s' e 0 Hi'). split_and!; try done.
  - intros o. rewrite (waiters_view v s e 0 Hi), (waiters_view v' s' e 0 Hi'). by rewrite HW.
  - intros q x Hq Hd Hx Hb. specialize (Hwake q x Hq Hd Hx). rewrite decide_True in Hwake by done. destruct Hwake as (y & Hy & Y1 & Y2 & _).
    assert (∃ z, procs s' !! q = Some z ∧ pstate z = PROCESS_READY ∧ on_queue z = 1) as (z & Hz & Z1 & Z2).
    { cbn. destruct (decide (q = current s)) as [->|Hne]; [rewrite lookup_alter_eq, Hy; by eexists|rewrite lookup_alter_ne by done; by exists y]. }
    split; [apply (service_flag v' s' e 0 Hi')|]; by exists z.
  - intros q x Hq Hne Hx. specialize (Hsame q Hq). cbn in Hsame. rewrite Hx in Hsame. apply fmap_Some in Hsame as (y & Hy & Ey). exists y. split; [|done]. cbn. by rewrite lookup_alter_ne.
Qed.

Lemma sleep_runs : running_system 2 (state_after [Spawn 300 true; Sleep 1]).
Proof. eapply (event_runs 1 [Spawn 300 true] (Sleep 1)); [apply spawn_runs|done| |vm_compute; reflexivity]. split; [|done]. split; [in_user_now|lia]. Qed.

Lemma tick_wakes_due_witness : let s := state_after [Spawn 300 true; Sleep 1] in sleepers s = [200] ∧ ∃ s', timer_handler s = Some (tt, s') ∧ 200 ∈ service_order s'.
Proof.
  intros s. split; [vm_compute; reflexivity|]. destruct (tick_wakes_due 2 s sleep_runs) as (s' & E & _ & _ & _ & _ & H & _). exists s'. split; [exact E|].
  edestruct (H 200) as [Hq _]; [replace (sleepers s) with [200] by (vm_compute; reflexivity); left|vm_compute; reflexivity|vm_compute; reflexivity|vm_compute; reflexivity|exact Hq].
Defined.

(** ** Behaviour that the code does not mean to have *)

Ltac next_event := cbn [execution]; split; [|split; [vm_compute; reflexivity|]].

(** A signal that kills a process in [sys_sleep] leaves it on the list of the
    timer without a reference: once its parent has reaped it, the next tick reads
    freed memory.  This is why [permitted] excludes such signals. *)
Example killed_sleeper_dangles :
  let l := [Spawn 300 true; Yield; Sleep 100; Kill 2 SIGKILL; Waitpid 2 0 0 true 0] in let s := state_after l in
  execution enabled (state_after []) [(Spawn 300 true, state_after (take 1 l)); (Yield, state_after (take 2 l)); (Sleep 100, state_after (take 3 l)); (Kill 2 SIGKILL, state_after (take 4 l)); (Waitpid 2 0 0 true 0, s)] ∧
  g_sleep_list s = 300 ∧ procs s !! 300 = None ∧ perform Tick s = None.
Proof.
  cbv zeta. split; [|split_and!; vm_compute; reflexivity]. cbn [take].
  next_event. { split; [in_user_now|vm_compute; reflexivity]. }
  next_event. { in_user_now. }
  next_event. { split; [in_user_now|lia]. }
  next_event. { split; [in_user_now|done]. }
  next_event. { split; [in_user_now|by left]. }
  exact I.
Qed.

(** A process that is woken while it halts in its own idle loop goes on with its
    entry in the ready queue; the next call that blocks picks the caller itself,
    returns at once, and keeps the reference of the queue. *)
Example sleep_returns_at_once : let s := state_after [Sleep 1; Tick; Turn true 0; Sleep 1000] in
  timer_ticks s = 1 ∧ (λ x, (pc x, pstate x, ref_count x, on_queue x)) <$> procs s !! 200 = Some (User, PROCESS_RUNNING, 3, 0).
Proof. vm_compute. done. Qed.

(** A catchable signal takes a blocked process off its wait object without making
    it ready: nothing wakes it any more. *)
Example signal_strands_waiter : let s := state_after [Spawn 300 true; WAIT_CALL; Kill 1 10] in
  (λ x, (pstate x, wait_on x, on_queue x)) <$> procs s !! 200 = Some (PROCESS_BLOCKED, 0, 0) ∧ service_order s = [] ∧ waiters_of 5 s = [].
Proof. vm_compute. done. Qed.

(** A queued process whose priority has changed is not found by
    [scheduler_remove_process], so that a stopped process still runs. *)
Example reniced_process_not_stopped : let s := state_after [Spawn 300 true; Nice 2 10; Kill 2 SIGSTOP; Yield] in current s = 300.
Proof. vm_compute. done. Qed.

(** Signals to process 0 put the idle thread into the ready queue. *)
Example idle_thread_queued : service_order (state_after [Kill 0 SIGSTOP; Kill 0 SIGCONT]) = [100].
Proof. vm_compute. done. Qed.

(** An increment of INT_MAX overflows and gives the highest priority. *)
Example nice_overflow : priority <$> procs (state_after [Nice 0 1; Nice 0 (2 ^ 31 - 1)]) !! 200 = Some (-20).
Proof. vm_compute. done. Qed.

End SchedProps.
