(* ===== verification/Sha256.v ===== *)
(** * SHA-256 (kernel/crypto/sha256.c)

    The context with its partly filled block, the compression of a block, and
    the streaming interface; the hash function of FIPS 180-4; and the proof that
    the code computes it for every way to cut the message into pieces. *)

From S2P Require Import Prelude Bytes.

Module Sha256.
Local Open Scope Z_scope.
Local Open Scope kernel_scope.

(** ** The code *)

Definition SHA256_BLOCK_SIZE : Z := 64.
Definition SHA256_DIGEST_SIZE : Z := 32.

Definition K : list Z := concat
  [[0x428a2f98; 0x71374491; 0xb5c0fbcf; 0xe9b5dba5];
   [0x3956c25b; 0x59f111f1; 0x923f82a4; 0xab1c5ed5];
   [0xd807aa98; 0x12835b01; 0x243185be; 0x550c7dc3];
   [0x72be5d74; 0x80deb1fe; 0x9bdc06a7; 0xc19bf174];
   [0xe49b69c1; 0xefbe4786; 0x0fc19dc6; 0x240ca1cc];
   [0x2de92c6f; 0x4a7484aa; 0x5cb0a9dc; 0x76f988da];
   [0x983e5152; 0xa831c66d; 0xb00327c8; 0xbf597fc7];
   [0xc6e00bf3; 0xd5a79147; 0x06ca6351; 0x14292967];
   [0x27b70a85; 0x2e1b2138; 0x4d2c6dfc; 0x53380d13];
   [0x650a7354; 0x766a0abb; 0x81c2c92e; 0x92722c85];
   [0xa2bfe8a1; 0xa81a664b; 0xc24b8b70; 0xc76c51a3];
   [0xd192e819; 0xd6990624; 0xf40e3585; 0x106aa070];
   [0x19a4c116; 0x1e376c08; 0x2748774c; 0x34b0bcb5];
   [0x391c0cb3; 0x4ed8aa4a; 0x5b9cca4f; 0x682e6ff3];
   [0x748f82ee; 0x78a5636f; 0x84c87814; 0x8cc70208];
   [0x90befffa; 0xa4506ceb; 0xbef9a3f7; 0xc67178f2]].

(** Element [i] of an array; every access of the code is in range. *)
Definition at_ (l : list Z) (i : Z) : Z := l !!! Z.to_nat i.
Definition set_at (i v : Z) (l : list Z) : list Z := <[Z.to_nat i := v]> l.

(** The macros, on [uint32_t] operands. *)
Definition not32 (x : Z) : Z := Z.lxor (Z.ones 32) x.
Definition ROTR (x n : Z) : Z := Z.lor (Z.shiftr x n) (u32 (Z.shiftl x (32 - n))).
Definition CH (x y z : Z) : Z := Z.lxor (Z.land x y) (Z.land (not32 x) z).
Definition MAJ (x y z : Z) : Z := Z.lxor (Z.lxor (Z.land x y) (Z.land x z)) (Z.land y z).
Definition EP0 (x : Z) : Z := Z.lxor (Z.lxor (ROTR x 2) (ROTR x 13)) (ROTR x 22).
Definition EP1 (x : Z) : Z := Z.lxor (Z.lxor (ROTR x 6) (ROTR x 11)) (ROTR x 25).
Definition SIG0 (x : Z) : Z := Z.lxor (Z.lxor (ROTR x 7) (ROTR x 18)) (Z.shiftr x 3).
Definition SIG1 (x : Z) : Z := Z.lxor (Z.lxor (ROTR x 17) (ROTR x 19)) (Z.shiftr x 10).

Record sha256_ctx := Ctx { hstate : list Z; count : Z; buffer : list Z }.

(** The buffer keeps what it held before. *)
Definition sha256_init (ctx : sha256_ctx) : sha256_ctx :=
  Ctx [0x6a09e667; 0xbb67ae85; 0x3c6ef372; 0xa54ff53a; 0x510e527f; 0x9b05688c; 0x1f83d9ab; 0x5be0cd19] 0 (buffer ctx).

(** The message schedule, in an array whose elements are all written before they
    are read. *)
Definition load_words (data : list Z) (W : list Z) : list Z :=
  for i < 16 from W do λ W,
    set_at i (Z.lor (Z.lor (Z.lor (u32 (Z.shiftl (at_ data (i * 4)) 24)) (u32 (Z.shiftl (at_ data (i * 4 + 1)) 16)))
                           (u32 (Z.shiftl (at_ data (i * 4 + 2)) 8))) (at_ data (i * 4 + 3))) W.

Definition extend_word (i : Z) (W : list Z) : list Z :=
  set_at i (u32 (SIG1 (at_ W (i - 2)) + at_ W (i - 7) + SIG0 (at_ W (i - 15)) + at_ W (i - 16))) W.
Definition extend_words (W : list Z) : list Z := iterate 48 16 extend_word W.

(** The working variables. *)
Record vars := Vars { va : Z; vb : Z; vc : Z; vd : Z; ve : Z; vf : Z; vg : Z; vh : Z }.

Definition main_round (W : list Z) (i : Z) (v : vars) : vars :=
  let t1 := u32 (vh v + EP1 (ve v) + CH (ve v) (vf v) (vg v) + at_ K i + at_ W i) in
  let t2 := u32 (EP0 (va v) + MAJ (va v) (vb v) (vc v)) in
  Vars (u32 (t1 + t2)) (va v) (vb v) (vc v) (u32 (vd v + t1)) (ve v) (vf v) (vg v).

Definition sha256_transform (ctx : sha256_ctx) (data : list Z) : sha256_ctx :=
  let W := extend_words (load_words data (replicate 64 0)) in
  let s := at_ (hstate ctx) in
  let v := for i < 64 from (Vars (s 0) (s 1) (s 2) (s 3) (s 4) (s 5) (s 6) (s 7)) do main_round W i in
  Ctx [u32 (s 0 + va v); u32 (s 1 + vb v); u32 (s 2 + vc v); u32 (s 3 + vd v);
       u32 (s 4 + ve v); u32 (s 5 + vf v); u32 (s 6 + vg v); u32 (s 7 + vh v)] (count ctx) (buffer ctx).

Definition set_buffer (b : list Z) (ctx : sha256_ctx) : sha256_ctx := Ctx (hstate ctx) (count ctx) b.
Definition set_count (n : Z) (ctx : sha256_ctx) : sha256_ctx := Ctx (hstate ctx) n (buffer ctx).

(** [buffer[index + i] = data[i]] for [i < n]. *)
Definition copy_in (index n : Z) (data b : list Z) : list Z :=
  for i < n from b do λ b, set_at (index + i) (at_ data i) b.

(** [buffer[index++] = 0] while [index < n]. *)
Definition zero_to (index n : Z) (b : list Z) : list Z :=
  for i < (n - index) from b do λ b, set_at (index + i) 0 b.

(** The loop over whole blocks; [data] is what is left of the argument. *)
Fixpoint update_blocks (fuel : nat) (ctx : sha256_ctx) (data : list Z) : sha256_ctx * list Z :=
  match fuel with
  | O => (ctx, data)
  | S fuel =>
      if SHA256_BLOCK_SIZE <=? Z.of_nat (length data)
      then update_blocks fuel (sha256_transform ctx data) (drop 64 data)
      else (ctx, data)
  end.

Definition update_rest (ctx : sha256_ctx) (data : list Z) : sha256_ctx :=
  let '(ctx, data) := update_blocks (length data) ctx data in
  set_buffer (copy_in 0 (Z.of_nat (length data)) data (buffer ctx)) ctx.

(** [None] is the null pointer; a piece of data comes with its length. *)
Definition sha256_update (ctx : sha256_ctx) (data : option (list Z)) : sha256_ctx :=
  match data with
  | None => ctx
  | Some data =>
      let len := Z.of_nat (length data) in
      let index := count ctx mod SHA256_BLOCK_SIZE in
      let ctx := set_count (u64 (count ctx + len)) ctx in
      if index =? 0 then update_rest ctx data
      else
        let available := SHA256_BLOCK_SIZE - index in
        if len <? available then set_buffer (copy_in index len data (buffer ctx)) ctx
        else
          let ctx := set_buffer (copy_in index available data (buffer ctx)) ctx in
          let ctx := sha256_transform ctx (buffer ctx) in
          update_rest ctx (drop (Z.to_nat available) data)
  end.

(** The length in bits, big-endian, in the last eight bytes. *)
Definition put_length (bit_count : Z) (b : list Z) : list Z :=
  for i < 8 from b do λ b, set_at (56 + i) (u8 (Z.shiftr bit_count (56 - 8 * i))) b.

Definition digest_of (s : list Z) : list Z :=
  for i < 8 from (replicate 32 0) do λ d,
    set_at (i * 4 + 3) (u8 (at_ s i)) (set_at (i * 4 + 2) (u8 (Z.shiftr (at_ s i) 8))
      (set_at (i * 4 + 1) (u8 (Z.shiftr (at_ s i) 16)) (set_at (i * 4) (u8 (Z.shiftr (at_ s i) 24)) d))).

Definition sha256_final (ctx : sha256_ctx) : sha256_ctx * list Z :=
  let index := count ctx mod SHA256_BLOCK_SIZE in
  let bit_count := u64 (count ctx * 8) in
  let ctx := set_buffer (set_at index 0x80 (buffer ctx)) ctx in
  let index := index + 1 in
  let '(ctx, index) :=
    if 56 <? index then
      let ctx := set_buffer (zero_to index SHA256_BLOCK_SIZE (buffer ctx)) ctx in
      (sha256_transform ctx (buffer ctx), 0)
    else (ctx, index) in
  let ctx := set_buffer (put_length bit_count (zero_to index 56 (buffer ctx))) ctx in
  let ctx := sha256_transform ctx (buffer ctx) in
  (ctx, digest_of (hstate ctx)).

(** [ctx] is the uninitialised local variable. *)
Definition sha256_hash (ctx : sha256_ctx) (data : option (list Z)) : list Z :=
  snd (sha256_final (sha256_update (sha256_init ctx) data)).

(** ** The hash function of FIPS 180-4 *)

(** The word that bytes spell, and the bytes of a word, most significant first. *)
Definition be_val (l : list Z) : Z := foldl (λ x b, 256 * x + b) 0 l.
Definition be_bytes (n : nat) (x : Z) : list Z := reverse (le_bytes n x).

(** Consecutive groups of [n] elements. *)
Definition groups (n : nat) (l : list Z) : list (list Z) := (λ i, take n (drop (n * i) l)) <$> seq 0 (length l / n).

(** The constants of the standard: the first 32 bits of the fractional parts of
    the square roots of the first eight primes, and of the cube roots of the first
    64 primes, of which 311 is the last. *)
Definition is_prime (n : Z) : bool := forallb (λ d, negb (n mod d =? 0)) (seqZ 2 (Z.sqrt n - 1)).
Definition primes : list Z := filter (λ n, is_prime n = true) (seqZ 2 310).

(** The cube root rounded down, of a number below [2 ^ (3 * k)], bit by bit. *)
Fixpoint cbrt_from (k : nat) (r n : Z) : Z :=
  match k with
  | O => r
  | S k => let r' := r + 2 ^ Z.of_nat k in cbrt_from k (if r' ^ 3 <=? n then r' else r) n
  end.
Definition cbrt (n : Z) : Z := cbrt_from 35 0 n.

Definition round_constants : list Z := (λ p, cbrt (p * 2 ^ 96) mod 2 ^ 32) <$> primes.
Definition IV : list Z := (λ p, Z.sqrt (p * 2 ^ 64) mod 2 ^ 32) <$> take 8 primes.

(** Rotation to the right of a word of 32 bits. *)
Definition rotr (n x : Z) : Z := x / 2 ^ n + x mod 2 ^ n * 2 ^ (32 - n).

Definition sigma0 (x : Z) : Z := Z.lxor (Z.lxor (rotr 7 x) (rotr 18 x)) (x / 2 ^ 3).
Definition sigma1 (x : Z) : Z := Z.lxor (Z.lxor (rotr 17 x) (rotr 19 x)) (x / 2 ^ 10).
Definition Sigma0 (x : Z) : Z := Z.lxor (Z.lxor (rotr 2 x) (rotr 13 x)) (rotr 22 x).
Definition Sigma1 (x : Z) : Z := Z.lxor (Z.lxor (rotr 6 x) (rotr 11 x)) (rotr 25 x).

(** Each further word of the schedule from those before it. *)
Definition next_word (w : list Z) : Z :=
  let back k := w !!! (length w - k)%nat in
  (sigma1 (back 2%nat) + back 7%nat + sigma0 (back 15%nat) + back 16%nat) mod 2 ^ 32.

Fixpoint msg_schedule (n : nat) (w : list Z) : list Z :=
  match n with
  | O => w
  | S n => msg_schedule n (w ++ [next_word w])
  end.

Definition round (s : list Z) (kw : Z * Z) : list Z :=
  match s with
  | [a; b; c; d; e; f; g; h] =>
      let t1 := h + Sigma1 e + CH e f g + kw.1 + kw.2 in
      let t2 := Sigma0 a + MAJ a b c in
      [(t1 + t2) mod 2 ^ 32; a; b; c; (d + t1) mod 2 ^ 32; e; f; g]
  | _ => s
  end.

Definition compress (s block : list Z) : list Z :=
  zip_with (λ x y, (x + y) mod 2 ^ 32) s (foldl round s (zip round_constants (msg_schedule 48 (be_val <$> groups 4 block)))).

(** A one bit, the least number of zeros that leaves room for the length, and the
    length in bits. *)
Definition pad (m : list Z) : list Z :=
  let l := Z.of_nat (length m) in
  m ++ [0x80] ++ replicate (Z.to_nat ((55 - l) mod 64)) 0 ++ be_bytes 8 (8 * l).

Definition SHA256 (m : list Z) : list Z := foldl compress IV (groups 64 (pad m)) ≫= be_bytes 4.

(** The standard's example: the digest of "abc". *)
Example sha256_abc : SHA256 [97; 98; 99] =
  [0xba; 0x78; 0x16; 0xbf; 0x8f; 0x01; 0xcf; 0xea; 0x41; 0x41; 0x40; 0xde; 0x5d; 0xae; 0x22; 0x23;
   0xb0; 0x03; 0x61; 0xa3; 0x96; 0x17; 0x7a; 0x9c; 0xb4; 0x10; 0xff; 0x61; 0xf2; 0x00; 0x15; 0xad].
Proof. vm_compute. reflexivity. Qed.

(** ** Words and their bits *)

Definition byte (b : Z) : Prop := 0 ≤ b < 256.
Definition word (x : Z) : Prop := 0 ≤ x < 2 ^ 32.

Lemma u32_word x : word (u32 x).
Proof. apply u32_range. Qed.

Lemma lor_high a b k : 0 ≤ k → 0 ≤ a < 2 ^ k → Z.lor (b * 2 ^ k) a = b * 2 ^ k + a.
Proof.
  intros Hk Ha. rewrite <- Z.lxor_lor, <- Z.add_nocarry_lxor; [done| |];
    (apply Z.bits_inj'; intros i Hi; rewrite Z.land_spec, Z.bits_0; destruct (Z.lt_ge_cases i k);
     [rewrite Z.mul_pow2_bits_low by done; done|rewrite (testbit_high a k i) by lia; apply andb_false_r]).
Qed.

Lemma ROTR_rotr x n : word x → 0 < n < 32 → ROTR x n = rotr n x.
Proof.
  intros Hx Hn. unfold ROTR, rotr, u32, word in *. rewrite Z.shiftr_div_pow2, Z.shiftl_mul_pow2, Z.lor_comm by lia.
  replace (2 ^ 32) with (2 ^ n * 2 ^ (32 - n)) in * by (rewrite <- Z.pow_add_r by lia; f_equal; lia).
  assert (0 < 2 ^ n) by (apply Z.pow_pos_nonneg; lia). assert (0 < 2 ^ (32 - n)) by (apply Z.pow_pos_nonneg; lia).
  rewrite Z.mul_mod_distr_r by lia. rewrite lor_high; [lia|lia|]. split; [apply Z.div_pos; lia|apply Z.div_lt_upper_bound; lia].
Qed.

Lemma EP0_Sigma0 x : word x → EP0 x = Sigma0 x.
Proof. intros H. unfold EP0, Sigma0. by rewrite !ROTR_rotr by (done || lia). Qed.
Lemma EP1_Sigma1 x : word x → EP1 x = Sigma1 x.
Proof. intros H. unfold EP1, Sigma1. by rewrite !ROTR_rotr by (done || lia). Qed.
Lemma SIG0_sigma0 x : word x → SIG0 x = sigma0 x.
Proof. intros H. unfold SIG0, sigma0. rewrite !ROTR_rotr by (done || lia). by rewrite Z.shiftr_div_pow2 by lia. Qed.
Lemma SIG1_sigma1 x : word x → SIG1 x = sigma1 x.
Proof. intros H. unfold SIG1, sigma1. rewrite !ROTR_rotr by (done || lia). by rewrite Z.shiftr_div_pow2 by lia. Qed.

(** ** Constants *)

Lemma cbrt_from_spec k r n : 0 ≤ r → r ^ 3 ≤ n < (r + 2 ^ Z.of_nat k) ^ 3 →
  0 ≤ cbrt_from k r n ∧ cbrt_from k r n ^ 3 ≤ n < (cbrt_from k r n + 1) ^ 3.
Proof.
  revert r. induction k as [|k IH]; intros r Hr Hn; [done|]. cbn [cbrt_from]. assert (0 < 2 ^ Z.of_nat k) by (apply Z.pow_pos_nonneg; lia).
  rewrite Nat2Z.inj_succ, Z.pow_succ_r in Hn by lia. zcase; apply IH; [lia| |done|lia]. split; [done|].
  replace (r + 2 ^ Z.of_nat k + 2 ^ Z.of_nat k) with (r + 2 * 2 ^ Z.of_nat k) by lia. apply Hn.
Qed.

(** [cbrt] is the cube root rounded down. *)
Lemma cbrt_spec n : 0 ≤ n < 2 ^ 105 → cbrt n ^ 3 ≤ n < (cbrt n + 1) ^ 3.
Proof. intros Hn. apply (cbrt_from_spec 35 0 n); [lia|]. change ((0 + 2 ^ Z.of_nat 35) ^ 3) with (2 ^ 105). change (0 ^ 3) with 0. done. Qed.

(** The tables of the code are those of the standard. *)
Lemma K_roots : round_constants = K.
Proof. vm_compute. reflexivity. Qed.

Lemma init_roots g : sha256_init g = Ctx IV 0 (buffer g).
Proof. apply (f_equal (λ s, Ctx s 0 (buffer g))). vm_compute. reflexivity. Qed.

(** ** Loops that fill an array *)

Lemma length_set_at i v l : length (set_at i v l) = length l.
Proof. apply length_insert. Qed.

Lemma seqZ_snoc n : 0 ≤ n → seqZ 0 (n + 1) = seqZ 0 n ++ [n].
Proof. intros Hn. by rewrite seqZ_app by lia. Qed.

Lemma fill_spec (f : Z → Z) index n b : 0 ≤ index → 0 ≤ n → index + n ≤ Z.of_nat (length b) →
  iterate (Z.to_nat n) 0 (λ i, set_at (index + i) (f i)) b = take (Z.to_nat index) b ++ (f <$> seqZ 0 n) ++ drop (Z.to_nat (index + n)) b.
Proof.
  intros Hi Hn Hb.
  apply (for_ind (λ j c, c = take (Z.to_nat index) b ++ (f <$> seqZ 0 j) ++ drop (Z.to_nat (index + j)) b)); [done| |].
  - rewrite Z.add_0_r. change (seqZ 0 0) with (@nil Z). cbn [fmap list_fmap app]. by rewrite take_drop.
  - intros j c Hj ->. rewrite seqZ_snoc, fmap_app by lia. cbn [fmap list_fmap].
    destruct (lookup_lt_is_Some_2 b (Z.to_nat (index + j))) as [y Hy]; [lia|]. rewrite (drop_S b y (Z.to_nat (index + j)) Hy).
    unfold set_at. rewrite insert_app_r_alt by (rewrite length_take; lia). f_equal.
    rewrite insert_app_r_alt by (rewrite length_take, length_fmap, length_seqZ; lia).
    rewrite length_take, length_fmap, length_seqZ. replace (Z.to_nat (index + j) - _ - _)%nat with O by lia.
    cbn. rewrite <- app_assoc. cbn. do 2 f_equal. f_equal. lia.
Qed.

Lemma copy_in_spec index n data b : 0 ≤ index → 0 ≤ n ≤ Z.of_nat (length data) → index + n ≤ Z.of_nat (length b) →
  copy_in index n data b = take (Z.to_nat index) b ++ take (Z.to_nat n) data ++ drop (Z.to_nat (index + n)) b.
Proof.
  intros Hi Hn Hb. unfold copy_in. rewrite (fill_spec (at_ data)) by lia. f_equal. f_equal.
  apply list_eq. intros i. rewrite list_lookup_fmap. destruct (decide (Z.of_nat i < n)).
  - rewrite lookup_seqZ_lt, lookup_take_lt by lia. cbn. unfold at_. rewrite Z.add_0_l, Nat2Z.id.
    symmetry. apply list_lookup_lookup_total_lt. lia.
  - rewrite lookup_seqZ_ge, lookup_take_ge by lia. done.
Qed.

Lemma zero_to_spec index n b : 0 ≤ index ≤ n → n ≤ Z.of_nat (length b) →
  zero_to index n b = take (Z.to_nat index) b ++ replicate (Z.to_nat (n - index)) 0 ++ drop (Z.to_nat n) b.
Proof.
  intros Hi Hn. unfold zero_to. rewrite (fill_spec (λ _, 0)) by lia. f_equal. f_equal; [|f_equal; lia].
  apply list_eq. intros i. rewrite list_lookup_fmap. destruct (decide (Z.of_nat i < n - index)).
  - rewrite lookup_seqZ_lt, lookup_replicate_2 by lia. done.
  - rewrite lookup_seqZ_ge by lia. symmetry. apply lookup_ge_None_2. rewrite length_replicate. lia.
Qed.

(** ** Big-endian words *)

Lemma length_be_bytes n x : length (be_bytes n x) = n.
Proof. unfold be_bytes. by rewrite length_reverse, length_le_bytes. Qed.

Lemma be_bytes_4 x : 0 ≤ x → be_bytes 4 x = [u8 (Z.shiftr x 24); u8 (Z.shiftr x 16); u8 (Z.shiftr x 8); u8 x].
Proof.
  intros Hx. unfold be_bytes, u8. cbn -[Z.div Z.modulo Z.pow Z.shiftr]. rewrite !Z.shiftr_div_pow2 by lia.
  by rewrite !Z.div_div by lia.
Qed.

Lemma be_bytes_8 x : be_bytes 8 x = (λ i, u8 (Z.shiftr (u64 x) (56 - 8 * i))) <$> seqZ 0 8.
Proof.
  change (seqZ 0 8) with [0; 1; 2; 3; 4; 5; 6; 7]. unfold be_bytes, u8, u64.
  cbn -[Z.div Z.modulo Z.pow Z.shiftr]. rewrite !Z.shiftr_div_pow2 by lia. rewrite !Z.div_div by lia.
  repeat (f_equal; [divlia|]). f_equal. rewrite Z.div_1_r. divlia.
Qed.

Lemma put_length_spec x b : length b = 64%nat → put_length (u64 x) b = take 56 b ++ be_bytes 8 x.
Proof.
  intros Hb. unfold put_length. rewrite (fill_spec (λ i, u8 (Z.shiftr (u64 x) (56 - 8 * i)))) by lia.
  rewrite <- be_bytes_8. rewrite (drop_ge b) by (rewrite Hb; vm_compute; lia). by rewrite app_nil_r.
Qed.

Lemma be_val_4 a b c d : byte a → byte b → byte c → byte d →
  Z.lor (Z.lor (Z.lor (u32 (Z.shiftl a 24)) (u32 (Z.shiftl b 16))) (u32 (Z.shiftl c 8))) d = be_val [a; b; c; d].
Proof.
  unfold byte. intros Ha Hb Hc Hd. rewrite !Z.shiftl_mul_pow2 by lia. rewrite !u32_small by lia.
  rewrite lor_high by lia. replace (a * 2 ^ 24 + b * 2 ^ 16) with ((a * 2 ^ 8 + b) * 2 ^ 16) by lia.
  rewrite lor_high by lia. replace ((a * 2 ^ 8 + b) * 2 ^ 16 + c * 2 ^ 8) with (((a * 2 ^ 8 + b) * 2 ^ 8 + c) * 2 ^ 8) by lia.
  rewrite lor_high by lia. unfold be_val. cbn [foldl]. lia.
Qed.

(** ** Groups *)

Lemma groups_app n a l : (0 < n)%nat → length a = n → groups n (a ++ l) = a :: groups n l.
Proof.
  intros Hn Ha. unfold groups. rewrite length_app, Ha. replace ((n + length l) / n)%nat with (S (length l / n)).
  - cbn [seq fmap list_fmap]. f_equal.
    + rewrite Nat.mul_0_r, drop_0, take_app_le by lia. apply take_ge. lia.
    + rewrite <- fmap_S_seq, <- list_fmap_compose. apply list_fmap_ext. intros i x _. cbn. f_equal.
      replace (n * S x)%nat with (length a + n * x)%nat by lia. by rewrite drop_app_add.
  - replace (n + length l)%nat with (length l + 1 * n)%nat by lia. rewrite Nat.div_add by lia. lia.
Qed.

Lemma groups_concat n bs : (0 < n)%nat → Forall (λ b, length b = n) bs → groups n (concat bs) = bs.
Proof.
  intros Hn. induction 1 as [|b bs Hb _ IH]; cbn [concat].
  - unfold groups. cbn [length]. by rewrite Nat.Div0.div_0_l.
  - by rewrite groups_app, IH by done.
Qed.

Lemma lookup_groups n l i : (0 < n)%nat → (n * i + n ≤ length l)%nat → groups n l !! i = Some (take n (drop (n * i) l)).
Proof.
  intros Hn Hi. unfold groups. rewrite list_lookup_fmap, lookup_seq_lt; [done|].
  apply Nat.lt_le_trans with (S i); [lia|]. apply Nat.div_le_lower_bound; lia.
Qed.

Lemma length_groups n l : length (groups n l) = (length l / n)%nat.
Proof. unfold groups. by rewrite length_fmap, length_seq. Qed.

(** ** The compression of a block *)

Lemma take_4 (l : list Z) k : (k + 4 ≤ length l)%nat → take 4 (drop k l) = [l !!! k; l !!! (k + 1)%nat; l !!! (k + 2)%nat; l !!! (k + 3)%nat].
Proof.
  intros Hk. pose proof (length_drop l k) as Hl. destruct (drop k l) as [|a [|b [|c [|d r]]]] eqn:E; cbn in Hl; try lia. cbn.
  assert (H : ∀ i, l !!! (k + i)%nat = drop k l !!! i) by (intros i; by rewrite lookup_total_drop).
  rewrite (H 1%nat), (H 2%nat), (H 3%nat), E. specialize (H O). rewrite Nat.add_0_r, E in H. by rewrite H.
Qed.

Lemma at_take (l : list Z) n i : (Z.to_nat i < n)%nat → at_ (take n l) i = at_ l i.
Proof. intros H. unfold at_. by rewrite lookup_total_take_lt by done. Qed.

Lemma at_byte l i : Forall byte l → 0 ≤ i < Z.of_nat (length l) → byte (at_ l i).
Proof. intros Hl Hi. unfold at_. by apply Forall_lookup_total_1; [|lia]. Qed.

Definition block_words (block : list Z) : list Z := be_val <$> groups 4 block.

Lemma load_words_spec data : (64 ≤ length data)%nat → Forall byte (take 64 data) →
  load_words data (replicate 64 0) = block_words (take 64 data) ++ replicate 48 0.
Proof.
  intros Hl Hb. etransitivity; [apply (fill_spec (λ i, Z.lor (Z.lor (Z.lor (u32 (Z.shiftl (at_ data (i * 4)) 24)) (u32 (Z.shiftl (at_ data (i * 4 + 1)) 16)))
    (u32 (Z.shiftl (at_ data (i * 4 + 2)) 8))) (at_ data (i * 4 + 3))) 0 16); cbn; lia|].
  change (take (Z.to_nat 0) _) with (@nil Z). cbn [app]. f_equal. set (b := take 64 data). assert (Hb64 : length b = 64%nat) by (unfold b; rewrite length_take; lia).
  apply list_eq. intros i. unfold block_words. rewrite !list_lookup_fmap. destruct (decide (i < 16)%nat) as [Hi|Hi].
  - rewrite lookup_seqZ_lt, lookup_groups by lia. cbn [fmap option_fmap option_map]. rewrite Z.add_0_l, take_4 by lia. f_equal.
    assert (E : ∀ k, 0 ≤ k < 4 → at_ data (Z.of_nat i * 4 + k) = b !!! (4 * i + Z.to_nat k)%nat).
    { intros k Hk. unfold b. rewrite <- (at_take data 64) by lia. unfold at_. f_equal. lia. }
    rewrite <- (Z.add_0_r (Z.of_nat i * 4)) at 1. rewrite !E by lia. rewrite Nat.add_0_r.
    apply be_val_4; apply (Forall_lookup_total_1 byte b); try done; lia.
  - rewrite lookup_seqZ_ge, (lookup_ge_None_2 (groups 4 b)); [done|rewrite length_groups, Hb64; cbn; lia|lia].
Qed.

Lemma be_val_snoc l x : be_val (l ++ [x]) = 256 * be_val l + x.
Proof. unfold be_val. by rewrite foldl_app. Qed.

Lemma be_val_app l k : be_val (l ++ k) = be_val l * 256 ^ Z.of_nat (length k) + be_val k.
Proof.
  induction k as [|x k IH] using rev_ind; [rewrite app_nil_r; cbn; lia|].
  rewrite app_assoc, !be_val_snoc, IH, length_app, Nat2Z.inj_add, Z.pow_add_r by lia. cbn [length]. lia.
Qed.

Lemma be_val_range l : Forall byte l → 0 ≤ be_val l < 256 ^ Z.of_nat (length l).
Proof.
  induction l as [|x l IH] using rev_ind; [cbn; lia|]. rewrite Forall_app, Forall_singleton. intros [Hl Hx]. specialize (IH Hl).
  rewrite be_val_snoc, length_app, Nat2Z.inj_add, Z.pow_add_r by lia. unfold byte in Hx. cbn [length]. lia.
Qed.

Lemma block_words_ok b : length b = 64%nat → Forall byte b → length (block_words b) = 16%nat ∧ Forall word (block_words b).
Proof.
  intros Hl Hb. unfold block_words. rewrite length_fmap, length_groups, Hl. split; [done|]. apply Forall_fmap, Forall_lookup_2. intros i g Hg.
  pose proof (lookup_lt_Some _ _ _ Hg) as Hi. rewrite length_groups, Hl in Hi. cbn in Hi. rewrite lookup_groups in Hg by lia. injection Hg as <-.
  cbn. pose proof (be_val_range (take 4 (drop (4 * i) b))) as H. rewrite length_take, length_drop in H. replace (4 `min` _)%nat with 4%nat in H by lia.
  apply H. apply Forall_take, Forall_drop, Hb.
Qed.

Lemma msg_schedule_snoc n w : msg_schedule (S n) w = msg_schedule n w ++ [next_word (msg_schedule n w)].
Proof. revert w. induction n as [|n IH]; intros w; [reflexivity|]. exact (IH (w ++ [next_word w])). Qed.

Lemma msg_schedule_ok n w : Forall word w → Forall word (msg_schedule n w) ∧ length (msg_schedule n w) = (length w + n)%nat.
Proof.
  intros Hw. induction n as [|n [IH1 IH2]]; [cbn; split; [done|lia]|]. rewrite msg_schedule_snoc, Forall_app, Forall_singleton, length_app, IH2. cbn.
  split_and!; [done|apply Z.mod_pos_bound; lia|lia].
Qed.

Lemma extend_word_spec i W w : Forall word w → length w = 16%nat → 16 ≤ i < 64 → length W = 64%nat → take (Z.to_nat i) W = msg_schedule (Z.to_nat (i - 16)) w →
  take (Z.to_nat (i + 1)) (extend_word i W) = msg_schedule (Z.to_nat (i + 1 - 16)) w.
Proof.
  intros Hw Hl Hi HW IH. destruct (msg_schedule_ok (Z.to_nat (i - 16)) w Hw) as [Hok Hlen].
  replace (Z.to_nat (i + 1)) with (S (Z.to_nat i)) by lia. replace (Z.to_nat (i + 1 - 16)) with (S (Z.to_nat (i - 16))) by lia.
  rewrite msg_schedule_snoc. unfold extend_word, set_at. rewrite take_insert_snoc by lia. rewrite IH. f_equal. f_equal. unfold next_word.
  remember (msg_schedule (Z.to_nat (i - 16)) w) as v eqn:Ev. clear Ev.
  assert (E : ∀ k, 0 < k ≤ 16 → at_ W (i - k) = v !!! (length v - Z.to_nat k)%nat).
  { intros k Hk. rewrite <- (at_take W (Z.to_nat i)) by lia. unfold at_. rewrite IH. f_equal. lia. }
  assert (Hword : ∀ k, 0 < k ≤ 16 → word (at_ W (i - k))).
  { intros k Hk. rewrite E by done. apply Forall_lookup_total_1; [done|lia]. }
  rewrite SIG1_sigma1, SIG0_sigma0 by (apply Hword; lia). rewrite !E by lia. done.
Qed.

Lemma extend_words_spec w r : length w = 16%nat → length r = 48%nat → Forall word w → extend_words (w ++ r) = msg_schedule 48 w.
Proof.
  intros Hl Hr Hw. unfold extend_words.
  pose proof (iterate_ind (λ i W, length W = 64%nat ∧ take (Z.to_nat i) W = msg_schedule (Z.to_nat (i - 16)) w) 48 16 extend_word (w ++ r)) as H.
  cbv beta in H. change (16 + Z.of_nat 48) with 64 in H. destruct H as [H1 H2].
  - rewrite length_app. split; [lia|]. by rewrite take_app_length' by (rewrite Hl; vm_compute; lia).
  - intros i W Hi [HW IH]. split; [by unfold extend_word; rewrite length_set_at|]. by apply extend_word_spec.
  - revert H1 H2. generalize (iterate 48 16 extend_word (w ++ r)). change (Z.to_nat 64) with 64%nat. change (Z.to_nat (64 - 16)) with 48%nat.
    intros W H1 <-. symmetry. apply take_ge. lia.
Qed.

Definition hash_value (s : list Z) : Prop := length s = 8%nat ∧ Forall word s.
Definition var_list (v : vars) : list Z := [va v; vb v; vc v; vd v; ve v; vf v; vg v; vh v].

Lemma main_round_spec W i v : Forall word (var_list v) → var_list (main_round W i v) = round (var_list v) (at_ K i, at_ W i) ∧ Forall word (var_list (main_round W i v)).
Proof.
  unfold var_list. rewrite !Forall_cons. intros (Ha & Hb & Hc & Hd & He & Hf & Hg & Hh & _). unfold main_round, round. cbn [va vb vc vd ve vf vg vh fst snd].
  rewrite EP0_Sigma0, EP1_Sigma1 by done. split.
  - unfold u32. by rewrite <- Zplus_mod, Zplus_mod_idemp_r.
  - split_and!; try done; apply u32_word.
Qed.

Lemma main_loop_spec W v : length W = 64%nat → Forall word (var_list v) →
  let v' := (for i < 64 from v do main_round W i) in var_list v' = foldl round (var_list v) (zip K W) ∧ Forall word (var_list v').
Proof.
  intros HW Hv. cbv zeta.
  pose proof (for_ind (λ i v', var_list v' = foldl round (var_list v) (take (Z.to_nat i) (zip K W)) ∧ Forall word (var_list v')) 64 (main_round W) v) as H.
  cbv beta in H. rewrite (take_ge (zip K W) (Z.to_nat 64)) in H by (rewrite length_zip_with, HW; vm_compute; lia). apply H; [lia|done|].
  intros i v' Hi [IH Hw]. destruct (main_round_spec W i v' Hw) as [E Hw']. split; [|done]. rewrite E, IH.
  replace (Z.to_nat (i + 1)) with (S (Z.to_nat i)) by lia. rewrite (take_S_last (zip K W) (Z.to_nat i) (at_ K i, at_ W i)), foldl_app; [done|].
  apply lookup_zip_Some. split; apply list_lookup_lookup_total_lt; [change (length K) with 64%nat|]; lia.
Qed.

Lemma compress_hash_value s b : hash_value s → hash_value (compress s b).
Proof.
  intros [Hl Hs]. unfold compress, hash_value. assert (Hr : ∀ l s, length s = 8%nat → length (foldl round s l) = 8%nat).
  { clear. induction l as [|x l IH]; intros s Hs; [done|]. cbn. apply IH. destruct s as [|a [|b [|c [|d [|e [|f [|g [|h [|i s]]]]]]]]]; cbn in Hs; try lia. done. }
  rewrite length_zip_with, Hl, Hr by done. split; [done|]. apply Forall_lookup_2. intros i y Hy.
  apply lookup_zip_with_Some in Hy as (a & c & -> & _). apply Z.mod_pos_bound. lia.
Qed.

Lemma transform_spec ctx data : hash_value (hstate ctx) → (64 ≤ length data)%nat → Forall byte (take 64 data) →
  sha256_transform ctx data = Ctx (compress (hstate ctx) (take 64 data)) (count ctx) (buffer ctx).
Proof.
  intros [Hl Hs] Hd Hb. destruct ctx as [s n buf]. cbn [hstate count buffer] in *. unfold sha256_transform, compress. rewrite K_roots. cbn [hstate count buffer]. f_equal.
  assert (Hlen : length (take 64 data) = 64%nat) by (rewrite length_take; lia). destruct (block_words_ok _ Hlen Hb) as [HB1 HB2].
  rewrite load_words_spec, extend_words_spec by (done || by rewrite length_replicate). fold (block_words (take 64 data)).
  destruct (msg_schedule_ok 48 _ HB2) as [_ HW]. rewrite HB1 in HW. change (16 + 48)%nat with 64%nat in HW. remember (msg_schedule 48 (block_words (take 64 data))) as W eqn:EW. clear EW.
  destruct s as [|a [|b [|c [|d [|e [|f [|g [|h [|i s]]]]]]]]]; cbn in Hl; try lia.
  destruct (main_loop_spec W (Vars a b c d e f g h) HW Hs) as [E _]. cbv zeta in E. change (var_list (Vars a b c d e f g h)) with [a; b; c; d; e; f; g; h] in E.
  rewrite <- E. reflexivity.
Qed.

Lemma digest_of_spec s : hash_value s → digest_of s = s ≫= be_bytes 4.
Proof.
  intros [Hl Hs]. destruct s as [|a [|b [|c [|d [|e [|f [|g [|h [|i s]]]]]]]]]; cbn in Hl; try lia. clear Hl.
  cbn [mbind list_bind]. repeat (apply Forall_cons in Hs as [[? _] Hs]). rewrite !be_bytes_4 by done. reflexivity.
Qed.

(** ** The streaming interface *)

Definition block (b : list Z) : Prop := length b = 64%nat.

(** The context has compressed the whole blocks of the message and holds the
    rest. *)
Definition holds (ctx : sha256_ctx) (m : list Z) : Prop :=
  ∃ bs r j, m = concat bs ++ r ∧ Forall block bs ∧ (length r < 64)%nat ∧ hstate ctx = foldl compress IV bs ∧ buffer ctx = r ++ j ∧ length (buffer ctx) = 64%nat.

Definition hashing (ctx : sha256_ctx) (m : list Z) : Prop := holds ctx m ∧ count ctx = u64 (Z.of_nat (length m)) ∧ Forall byte m.

Lemma foldl_compress_value bs s : hash_value s → hash_value (foldl compress s bs).
Proof. revert s. induction bs as [|b bs IH]; intros s Hs; [done|]. apply IH. by apply compress_hash_value. Qed.

Lemma IV_value : hash_value IV.
Proof. split; [reflexivity|]. apply Forall_fmap, Forall_forall. intros p _. apply Z.mod_pos_bound. lia. Qed.

Lemma length_blocks bs : Forall block bs → length (concat bs) = (64 * length bs)%nat.
Proof. induction 1 as [|b bs Hb _ IH]; [done|]. cbn [concat length]. rewrite length_app, IH, Hb. lia. Qed.

Lemma hashing_index ctx bs r : Forall block bs → (length r < 64)%nat → count ctx = u64 (Z.of_nat (length (concat bs ++ r))) →
  count ctx mod SHA256_BLOCK_SIZE = Z.of_nat (length r).
Proof. intros Hbs Hr ->. rewrite length_app, length_blocks by done. unfold u64, SHA256_BLOCK_SIZE. divlia. Qed.

Lemma update_blocks_spec fuel ctx data : hash_value (hstate ctx) → Forall byte data → (length data ≤ fuel)%nat →
  ∃ bs r, data = concat bs ++ r ∧ Forall block bs ∧ (length r < 64)%nat ∧
    update_blocks fuel ctx data = (Ctx (foldl compress (hstate ctx) bs) (count ctx) (buffer ctx), r).
Proof.
  revert ctx data. induction fuel as [|fuel IH]; intros ctx data Hs Hd Hf.
  { exists [], data. cbn. destruct data, ctx; [|cbn in Hf; lia]. split_and!; [done|apply Forall_nil_2|cbn; lia|done]. }
  cbn [update_blocks]. unfold SHA256_BLOCK_SIZE. zcase.
  - rewrite transform_spec by (done || lia || by apply Forall_take).
    destruct (IH (Ctx (compress (hstate ctx) (take 64 data)) (count ctx) (buffer ctx)) (drop 64 data)) as (bs & r & E & Hbs & Hr & ->);
      [by apply compress_hash_value|by apply Forall_drop|rewrite length_drop; lia|].
    exists (take 64 data :: bs), r. cbn [concat foldl hstate count buffer]. split_and!; [|constructor; [unfold block; rewrite length_take; lia|done]|done|done].
    by rewrite <- app_assoc, <- E, take_drop.
  - exists [], data. destruct ctx. split_and!; [done|apply Forall_nil_2|lia|done].
Qed.

Lemma update_rest_spec ctx bs data : Forall block bs → hstate ctx = foldl compress IV bs → length (buffer ctx) = 64%nat → Forall byte data →
  holds (update_rest ctx data) (concat bs ++ data) ∧ count (update_rest ctx data) = count ctx.
Proof.
  intros Hbs Hs Hb Hd. assert (Hv : hash_value (hstate ctx)) by (rewrite Hs; apply foldl_compress_value, IV_value).
  unfold update_rest. destruct (update_blocks_spec (length data) ctx data Hv Hd) as (cs & r & -> & Hcs & Hr & ->); [done|].
  unfold set_buffer. cbn [hstate count buffer]. split; [|done]. rewrite copy_in_spec by lia. change (take (Z.to_nat 0) (buffer ctx)) with (@nil Z). cbn [app]. rewrite Nat2Z.id, Z.add_0_l, Nat2Z.id, (take_ge r) by lia.
  exists (bs ++ cs), r, (drop (length r) (buffer ctx)). cbn [hstate count buffer]. rewrite concat_app, app_assoc. split_and!; try done.
  - by apply Forall_app.
  - by rewrite foldl_app, <- Hs.
  - rewrite length_app, length_drop. lia.
Qed.

Lemma update_holds ctx bs r j d : Forall block bs → (length r < 64)%nat → hstate ctx = foldl compress IV bs → buffer ctx = r ++ j → length (buffer ctx) = 64%nat →
  Forall byte r → Forall byte d → count ctx mod SHA256_BLOCK_SIZE = Z.of_nat (length r) →
  holds (sha256_update ctx (Some d)) ((concat bs ++ r) ++ d) ∧ count (sha256_update ctx (Some d)) = u64 (count ctx + Z.of_nat (length d)).
Proof.
  intros Hbs Hr Hs Hj Hb Hrb Hd Hi. unfold sha256_update. rewrite Hi. unfold set_buffer, set_count. set (n := u64 _). cbv zeta. zcase.
  { destruct r; [|cbn in *; lia]. rewrite app_nil_r. exact (update_rest_spec (set_count n ctx) bs d Hbs Hs Hb Hd). }
  unfold SHA256_BLOCK_SIZE. cbn [hstate count buffer]. rewrite Hj in *. rewrite length_app in Hb. zcase.
  - split; [|done]. exists bs, (r ++ d), (drop (length r + length d) (r ++ j)). cbn [buffer hstate].
    rewrite copy_in_spec by (rewrite ?length_app; lia). replace (Z.to_nat (Z.of_nat (length r) + Z.of_nat (length d))) with (length r + length d)%nat by lia.
    rewrite !Nat2Z.id, take_app_length, (take_ge d) by lia. rewrite <- !app_assoc. split_and!; try done; rewrite ?length_app; [lia|rewrite length_drop, length_app; lia].
  - remember (Z.to_nat (64 - Z.of_nat (length r))) as k eqn:Ek. rewrite copy_in_spec by (rewrite ?length_app; lia). rewrite !Nat2Z.id, <- Ek, take_app_length.
    rewrite (drop_ge (r ++ j)), app_nil_r by (rewrite length_app; lia). cbn [buffer hstate count].
    assert (Hblk : length (r ++ take k d) = 64%nat) by (rewrite length_app, length_take; lia).
    rewrite transform_spec; cbn [hstate count buffer]; [|rewrite Hs; apply foldl_compress_value, IV_value|lia|apply Forall_take, Forall_app; split; [done|by apply Forall_take]].
    rewrite (take_ge (r ++ take k d)) by lia.
    replace ((concat bs ++ r) ++ d) with (concat (bs ++ [r ++ take k d]) ++ drop k d)
      by (rewrite concat_app; cbn [concat]; rewrite app_nil_r, <- !app_assoc, take_drop; done).
    apply update_rest_spec; cbn [hstate buffer]; [apply Forall_app; split; [done|by constructor]|by rewrite foldl_app, Hs|done|by apply Forall_drop].
Qed.

Lemma update_spec ctx m d : hashing ctx m → Forall byte d → hashing (sha256_update ctx (Some d)) (m ++ d).
Proof.
  intros ((bs & r & j & -> & Hbs & Hr & Hs & Hj & Hb) & Hc & Hm) Hd. pose proof (hashing_index ctx bs r Hbs Hr Hc) as Hi. pose proof Hm as Hrb. apply Forall_app in Hrb as [_ Hrb].
  destruct (update_holds ctx bs r j d) as [Hh Hn]; try done. split_and!; [done| |by apply Forall_app]. rewrite Hn, Hc.
  unfold u64. by rewrite Zplus_mod_idemp_l, (length_app _ d), Nat2Z.inj_add.
Qed.

Lemma hash_init_spec g : length (buffer g) = 64%nat → hashing (sha256_init g) [].
Proof. intros Hg. rewrite init_roots. split_and!; [|done|apply Forall_nil_2]. exists [], [], (buffer g). split_and!; try done. cbn; lia. Qed.

Lemma update_all_spec ds ctx m : hashing ctx m → Forall (Forall byte) ds → hashing (foldl (λ c d, sha256_update c (Some d)) ctx ds) (m ++ concat ds).
Proof.
  revert ctx m. induction ds as [|d ds IH]; intros ctx m Hc Hds; cbn [foldl concat]; [by rewrite app_nil_r|].
  apply Forall_cons in Hds as [Hd Hds]. rewrite app_assoc. apply IH; [by apply update_spec|done].
Qed.

(** The padding fills one block or two. *)
Lemma pad_short bs r : Forall block bs → (length r < 56)%nat →
  pad (concat bs ++ r) = concat (bs ++ [r ++ 0x80 :: replicate (55 - length r) 0 ++ be_bytes 8 (8 * Z.of_nat (length (concat bs ++ r)))]).
Proof.
  intros Hbs Hr. unfold pad. replace (Z.to_nat _) with (55 - length r)%nat.
  - rewrite concat_app. cbn [concat]. rewrite app_nil_r, <- app_assoc. done.
  - rewrite length_app, length_blocks by done. divlia.
Qed.

Lemma pad_long bs r : Forall block bs → (56 ≤ length r < 64)%nat →
  pad (concat bs ++ r) = concat (bs ++ [r ++ 0x80 :: replicate (63 - length r) 0; replicate 56 0 ++ be_bytes 8 (8 * Z.of_nat (length (concat bs ++ r)))]).
Proof.
  intros Hbs Hr. unfold pad. replace (Z.to_nat _) with ((63 - length r) + 56)%nat.
  - rewrite concat_app, replicate_add. cbn [concat]. rewrite app_nil_r, <- !app_assoc. done.
  - rewrite length_app, length_blocks by done. divlia.
Qed.

Lemma byte_zeros n : Forall byte (replicate n 0).
Proof. apply Forall_replicate. unfold byte. lia. Qed.

Lemma le_bytes_byte n x : Forall byte (le_bytes n x).
Proof. revert x. induction n as [|n IH]; intros x; [apply Forall_nil_2|]. cbn [le_bytes]. constructor; [|apply IH]. apply Z.mod_pos_bound. lia. Qed.

Lemma byte_be_bytes n x : Forall byte (be_bytes n x).
Proof. apply Forall_reverse, le_bytes_byte. Qed.

Lemma set_at_mid r y j v : set_at (Z.of_nat (length r)) v (r ++ y :: j) = r ++ v :: j.
Proof. unfold set_at. rewrite Nat2Z.id, insert_app_r_alt, Nat.sub_diag by lia. done. Qed.

Lemma take_mid (r : list Z) v j n : n = (length r + 1)%nat → take n (r ++ v :: j) = r ++ [v].
Proof. intros ->. replace (r ++ v :: j) with ((r ++ [v]) ++ j) by (by rewrite <- app_assoc). apply take_app_length'. by rewrite length_app. Qed.

(** The last block, [n] bytes of which are written. *)
Lemma last_block s c b r bc : hash_value s → length b = 64%nat → take (length r) b = r → (length r ≤ 56)%nat → Forall byte r →
  hstate (sha256_transform (Ctx s c (put_length (u64 bc) (zero_to (Z.of_nat (length r)) 56 b))) (put_length (u64 bc) (zero_to (Z.of_nat (length r)) 56 b))) =
  compress s (r ++ replicate (56 - length r) 0 ++ be_bytes 8 bc).
Proof.
  intros Hs Hb Hr Hl Hbyte. rewrite zero_to_spec by lia. rewrite Nat2Z.id, Hr. replace (Z.to_nat (56 - Z.of_nat (length r))) with (56 - length r)%nat by lia.
  change (Z.to_nat 56) with 56%nat.
  rewrite put_length_spec by (rewrite !length_app, length_replicate, length_drop; lia).
  rewrite app_assoc, take_app_length' by (rewrite length_app, length_replicate; lia).
  assert (Hlen : length ((r ++ replicate (56 - length r) 0) ++ be_bytes 8 bc) = 64%nat) by (rewrite !length_app, length_replicate, length_be_bytes; lia).
  rewrite transform_spec; cbn [hstate]; [|done|lia|].
  - rewrite take_ge by lia. by rewrite <- app_assoc.
  - apply Forall_take, Forall_app. split; [apply Forall_app; split; [done|apply byte_zeros]|apply byte_be_bytes].
Qed.

Lemma final_spec ctx m : hashing ctx m → snd (sha256_final ctx) = SHA256 m.
Proof.
  intros ((bs & r & j & -> & Hbs & Hr & Hs & Hj & Hb) & Hc & Hm). pose proof (hashing_index ctx bs r Hbs Hr Hc) as Hi. apply Forall_app in Hm as [_ Hrb].
  assert (Hbit : u64 (count ctx * 8) = u64 (8 * Z.of_nat (length (concat bs ++ r)))) by (rewrite Hc; unfold u64; rewrite Zmult_mod_idemp_l; f_equal; lia).
  unfold sha256_final, SHA256. rewrite Hi, Hbit. set (l := Z.of_nat (length (concat bs ++ r))) in *. rewrite Hj in *. destruct j as [|y j]; [rewrite app_nil_r in Hb; lia|].
  unfold set_buffer. cbn [hstate count buffer]. rewrite set_at_mid. rewrite length_app in Hb. cbn [length] in Hb.
  assert (Hv : hash_value (hstate ctx)) by (rewrite Hs; apply foldl_compress_value, IV_value). assert (H80 : byte 0x80) by (unfold byte; lia). zcase; cbn [hstate count buffer snd].
  - rewrite zero_to_spec by (rewrite ?length_app; cbn [length]; unfold SHA256_BLOCK_SIZE; lia). unfold SHA256_BLOCK_SIZE.
    replace (Z.to_nat (64 - (Z.of_nat (length r) + 1))) with (63 - length r)%nat by lia. rewrite (drop_ge (r ++ _)), app_nil_r by (rewrite length_app; cbn [length]; lia).
    rewrite take_mid by lia.
    rewrite <- app_assoc. cbn [app]. set (b := r ++ 128 :: _). assert (Hbl : length b = 64%nat) by (unfold b; rewrite length_app; cbn [length]; rewrite length_replicate; lia).
    assert (Hbb : Forall byte b) by (apply Forall_app; split; [done|constructor; [done|apply byte_zeros]]).
    rewrite (transform_spec (Ctx (hstate ctx) (count ctx) b) b); cbn [hstate count buffer]; [|done|lia|by apply Forall_take]. rewrite (take_ge b) by lia. cbn [hstate count buffer].
    pose proof (last_block (compress (hstate ctx) b) (count ctx) b [] (8 * l) (compress_hash_value _ _ Hv) Hbl) as E. cbn [length app Nat.sub] in E. change (Z.of_nat 0) with 0 in E. rewrite E; [|done|lia|by apply Forall_nil_2].
    rewrite digest_of_spec by (by apply compress_hash_value, compress_hash_value). rewrite pad_long, groups_concat, foldl_app; [|lia| |done|lia].
    + cbn [foldl]. by rewrite <- Hs.
    + apply Forall_app. split; [done|]. constructor; [done|]. constructor; [|by constructor]. unfold block. by rewrite length_app, length_replicate, length_be_bytes.
  - replace (Z.of_nat (length r) + 1) with (Z.of_nat (length (r ++ [128]))) by (rewrite length_app; cbn [length]; lia).
    rewrite last_block; [|done|rewrite length_app; cbn [length]; lia|apply take_mid; by rewrite length_app|rewrite length_app; cbn [length]; lia|by apply Forall_app; split; [done|constructor]].
    rewrite digest_of_spec by (by apply compress_hash_value). rewrite pad_short, groups_concat, foldl_app; [|lia| |done|lia].
    + cbn [foldl]. rewrite <- Hs, <- app_assoc, length_app. cbn [length]. replace (56 - (length r + 1))%nat with (55 - length r)%nat by lia. done.
    + apply Forall_app. split; [done|]. constructor; [|by constructor]. unfold block. rewrite length_app. cbn [length]. rewrite length_app, length_replicate, length_be_bytes. lia.
Qed.

(** C38: However the message is cut into pieces, and whatever the context held before,
    the digest is the one of FIPS 180-4 (with the length of the message modulo
    2^64 bits); so is that of the function that hashes at once. *)
Theorem sha256_correct g ds : length (buffer g) = 64%nat → Forall (Forall byte) ds →
  snd (sha256_final (foldl (λ c d, sha256_update c (Some d)) (sha256_init g) ds)) = SHA256 (concat ds) ∧ sha256_hash g (Some (concat ds)) = SHA256 (concat ds).
Proof.
  intros Hg Hd. pose proof (hash_init_spec g Hg) as Hi. split; apply final_spec; [by apply (update_all_spec ds _ [])|]. apply (update_spec _ []); [done|by apply Forall_concat].
Qed.

Lemma sha256_correct_witness : let g := Ctx [] 0 (replicate 64 7) in
  snd (sha256_final (foldl (λ c d, sha256_update c (Some d)) (sha256_init g) [[97]; [98; 99]])) = SHA256 [97; 98; 99] ∧ sha256_hash g (Some [97; 98; 99]) = SHA256 [97; 98; 99].
Proof.
  cbv zeta. apply (sha256_correct (Ctx [] 0 (replicate 64 7)) [[97]; [98; 99]]); [reflexivity|].
  repeat constructor; unfold byte; vm_compute; (discriminate || reflexivity).
Defined.

End Sha256.
