(* ===== verification/Signature.v ===== *)
(** * Signatures of kernels and modules (kernel/crypto/rsa.c, verify.c, kernel/module/mod_sig.c)

    The big-endian arithmetic and the padding check of [rsa.c], the ring of
    trusted keys and the verification of signed data of [verify.c], and the
    signature block at the end of a module.  A function that may not return has
    an optional result, where [None] is a loop without end. *)

From S2P Require Import Prelude Bytes Sha256.
Import Sha256.

Module Signature.
Local Open Scope Z_scope.
Local Open Scope kernel_scope.

Record rsa_public_key := RsaKey { bits : Z; rsa_e : Z; rsa_n : list Z }.
Record rsa_signature := RsaSig { size : Z; sig_data : list Z }.

Definition RSA_2048_BITS : Z := 2048.
Definition RSA_4096_BITS : Z := 4096.
Definition RSA_4096_BYTES : Z := 512.

Definition PKCS1_SHA256_DIGEST_INFO : list Z :=
  [0x30; 0x31; 0x30; 0x0d; 0x06; 0x09; 0x60; 0x86; 0x48; 0x01; 0x65; 0x03; 0x04; 0x02; 0x01; 0x05; 0x00; 0x04; 0x20].
Definition DIGEST_INFO_SIZE : Z := Z.of_nat (length PKCS1_SHA256_DIGEST_INFO) + SHA256_DIGEST_SIZE.

(** A loop from [n - 1] down to 0. *)
Fixpoint down {S : Type} (n : nat) (f : Z → S → S) (s : S) : S :=
  match n with
  | O => s
  | Datatypes.S n => down n f (f (Z.of_nat n) s)
  end.

(** ** Big-endian arithmetic *)

Fixpoint cmp_from (n : nat) (i : Z) (a b : list Z) : Z :=
  match n with
  | O => 0
  | S n => if at_ a i <? at_ b i then -1 else if at_ b i <? at_ a i then 1 else cmp_from n (i + 1) a b
  end.
Definition bigint_cmp (a b : list Z) (len : Z) : Z := cmp_from (Z.to_nat len) 0 a b.

Definition sub_digit (b : list Z) (i : Z) (s : list Z * Z) : list Z * Z :=
  let '(a, borrow) := s in
  let diff := at_ a i - at_ b i - borrow in
  if diff <? 0 then (set_at i (u8 (diff + 256)) a, 1) else (set_at i (u8 diff) a, 0).
Definition bigint_sub (a b : list Z) (len : Z) : list Z := fst (down (Z.to_nat len) (sub_digit b) (a, 0)).

(** The loop over the bits of the exponent has no effect. *)
Definition bigint_modexp (base : list Z) (exp : Z) (modulus : list Z) (len : Z) (result : list Z) : Z * list Z :=
  (0, set_at (len - 1) 1 (zero_to 0 len result)).

(** [while (bigint_cmp(t, modulus) >= 0) bigint_sub(t, modulus)], which ends when
    the modulus is not zero: it is subtracted no more often than it fits into
    [len] bytes. *)
Fixpoint reduce_loop (fuel : nat) (t modulus : list Z) (len : Z) : option (list Z) :=
  match fuel with
  | O => None
  | S fuel => if 0 <=? bigint_cmp t modulus len then reduce_loop fuel (bigint_sub t modulus len) modulus len else Some t
  end.
Definition reduce_fuel (modulus : list Z) (len : Z) : nat := S (Z.to_nat (256 ^ len / be_val (take (Z.to_nat len) modulus))).
Definition reduce (t modulus : list Z) (len : Z) : option (list Z) := reduce_loop (reduce_fuel modulus len) t modulus len.

Definition square_digit (j : Z) (s : list Z * Z) : list Z * Z :=
  let '(temp, carry) := s in
  let val := u32 (at_ temp j * at_ temp j + carry) in
  (set_at j (u8 (Z.land val 0xFF)) temp, u16 (Z.shiftr val 8)).
Definition square_pass (temp : list Z) (len : Z) : list Z := fst (down (Z.to_nat len) square_digit (temp, 0)).

Fixpoint squarings (n : nat) (temp modulus : list Z) (len : Z) : option (list Z) :=
  match n with
  | O => Some temp
  | S n => t ← reduce (square_pass temp len) modulus len; squarings n t modulus len
  end.

Definition mul_digit (r : Z) (temp : list Z) (i len j : Z) (s : list Z * Z) : list Z * Z :=
  let '(final, carry) := s in
  let idx := i + j - len + 1 in
  if (idx <? 0) || (len <=? idx) then (final, carry)
  else
    let prod := u32 (r * at_ temp j + at_ final idx + carry) in
    (set_at idx (u8 (Z.land prod 0xFF)) final, Z.shiftr prod 8).
Definition mul_row (result temp : list Z) (len i : Z) (final : list Z) : list Z :=
  fst (down (Z.to_nat len) (mul_digit (at_ result i) temp i len) (final, 0)).
Definition mul_pass (result temp : list Z) (len : Z) : list Z :=
  down (Z.to_nat len) (mul_row result temp len) (replicate (Z.to_nat len) 0).

(** What is written to [decrypted]. *)
Definition rsa_verify_simple (signature modulus : list Z) (key_bytes : Z) : option (list Z) :=
  let result := take (Z.to_nat key_bytes) signature in
  temp ← squarings 16 result modulus key_bytes;
  reduce (mul_pass result temp key_bytes) modulus key_bytes.

(** ** The padding *)

Definition crypto_memcmp_const (a b : list Z) (len : Z) : Z := for i < len from 0 do λ r, Z.lor r (Z.lxor (at_ a i) (at_ b i)).

Fixpoint skip_padding (fuel : nat) (p key_bytes : Z) (d : list Z) : Z :=
  match fuel with
  | O => p
  | S fuel => if (p <? key_bytes) && (at_ d p =? 0xFF) then skip_padding fuel (p + 1) key_bytes d else p
  end.

Definition check_padding (decrypted : list Z) (key_bytes : Z) (hash : list Z) : Z :=
  if negb (at_ decrypted 0 =? 0) || negb (at_ decrypted 1 =? 1) then -1
  else
    let padding_end := skip_padding (Z.to_nat key_bytes) 2 key_bytes decrypted in
    if padding_end <? 10 then -1
    else if (key_bytes <=? padding_end) || negb (at_ decrypted padding_end =? 0) then -1
    else
      let padding_end := padding_end + 1 in
      if negb (key_bytes - padding_end =? DIGEST_INFO_SIZE) then -1
      else if negb (forallb (λ i, at_ decrypted (padding_end + i) =? at_ PKCS1_SHA256_DIGEST_INFO i) (seqZ 0 (Z.of_nat (length PKCS1_SHA256_DIGEST_INFO)))) then -1
      else
        let embedded_hash := drop (Z.to_nat (padding_end + Z.of_nat (length PKCS1_SHA256_DIGEST_INFO))) decrypted in
        if negb (crypto_memcmp_const embedded_hash hash SHA256_DIGEST_SIZE =? 0) then -1 else 0.

Definition rsa_verify_pkcs1_sha256 (key : option rsa_public_key) (hash : option (list Z)) (signature : option rsa_signature) : option Z :=
  match key, hash, signature with
  | Some key, Some hash, Some signature =>
      if negb (bits key =? RSA_2048_BITS) && negb (bits key =? RSA_4096_BITS) then Some (-1)
      else
        let key_bytes := bits key / 8 in
        if RSA_4096_BYTES <? key_bytes then Some (-1)
        else if negb (size signature =? key_bytes) then Some (-1)
        else if 0 <=? bigint_cmp (sig_data signature) (rsa_n key) key_bytes then Some (-1)
        else if negb (rsa_e key =? 65537) then Some (-1)
        else
          decrypted ← rsa_verify_simple (sig_data signature) (rsa_n key) key_bytes;
          Some (check_padding decrypted key_bytes hash)
  | _, _, _ => Some (-1)
  end.

(** ** The ring of trusted keys *)

Record trusted_key_entry := Entry { key_id : Z; key : rsa_public_key; revoked : bool }.
Record crypto_state := Crypto {
  keys : list trusted_key_entry;
  kcount : Z;
  g_keyring_initialized : bool;
  g_require_module_signatures : bool }.

Definition MAX_TRUSTED_KEYS : Z := 16.

Definition no_key : rsa_public_key := RsaKey 0 0 (replicate 512 0).
#[export] Instance entry_inhabited : Inhabited trusted_key_entry := populate (Entry 0 no_key false).

(** Static data at start-up. *)
Definition crypto_power_on : crypto_state := Crypto (replicate 16 (Entry 0 no_key false)) 0 false true.

Definition ring_entry (s : crypto_state) (i : Z) : trusted_key_entry := keys s !!! Z.to_nat i.
Definition set_keys (k : list trusted_key_entry) (n : Z) (s : crypto_state) : crypto_state :=
  Crypto k n (g_keyring_initialized s) (g_require_module_signatures s).

(** The initialiser names 16 bytes; C sets the others to zero. *)
Definition g_root_key : rsa_public_key := RsaKey RSA_2048_BITS 65537 (replicate 512 0).

Definition crypto_add_trusted_key (id : Z) (k : option rsa_public_key) (s : crypto_state) : Z * crypto_state :=
  match k with
  | None => (-1, s)
  | Some k =>
      if MAX_TRUSTED_KEYS <=? kcount s then (-1, s)
      else if existsb (λ i, key_id (ring_entry s i) =? id) (seqZ 0 (kcount s)) then (-1, s)
      else (0, set_keys (<[Z.to_nat (kcount s) := Entry id k false]> (keys s)) (kcount s + 1) s)
  end.

Definition clear_entry (e : trusted_key_entry) : trusted_key_entry := Entry 0 (key e) false.

Definition crypto_init_keyring (s : crypto_state) : crypto_state :=
  if g_keyring_initialized s then s
  else
    let s := set_keys (for i < MAX_TRUSTED_KEYS from keys s do λ k, <[Z.to_nat i := clear_entry (k !!! Z.to_nat i)]> k) 0 s in
    let s := snd (crypto_add_trusted_key 1 (Some g_root_key) s) in
    Crypto (keys s) (kcount s) true (g_require_module_signatures s).

Fixpoint revoke_from (n : nat) (i id : Z) (k : list trusted_key_entry) : Z * list trusted_key_entry :=
  match n with
  | O => (-1, k)
  | S n =>
      let e := k !!! Z.to_nat i in
      if key_id e =? id then (0, <[Z.to_nat i := Entry (key_id e) (key e) true]> k) else revoke_from n (i + 1) id k
  end.
Definition crypto_revoke_key (id : Z) (s : crypto_state) : Z * crypto_state :=
  let '(r, k) := revoke_from (Z.to_nat (kcount s)) 0 id (keys s) in (r, set_keys k (kcount s) s).

Fixpoint get_from (n : nat) (i id : Z) (k : list trusted_key_entry) : option rsa_public_key :=
  match n with
  | O => None
  | S n =>
      let e := k !!! Z.to_nat i in
      if (key_id e =? id) && negb (revoked e) then Some (key e) else get_from n (i + 1) id k
  end.
Definition crypto_get_trusted_key (id : Z) (s : crypto_state) : option rsa_public_key := get_from (Z.to_nat (kcount s)) 0 id (keys s).

(** ** Signed data and modules *)

Record signature_header := SigHeader {
  magic : Z; version : Z; hash_algo : Z; sig_algo : Z; sig_key_id : Z; sig_hash : list Z; signature : rsa_signature }.

Definition SIGNATURE_MAGIC : Z := 0x5349474E.

(** [ctx] is the local variable of [sha256_hash]. *)
Definition verify_signed_data (ctx : sha256_ctx) (data : option (list Z)) (sig_hdr : option signature_header) (trusted_key : option rsa_public_key) : option Z :=
  match data, sig_hdr, trusted_key with
  | Some data, Some h, Some trusted_key =>
      if negb (magic h =? SIGNATURE_MAGIC) then Some (-1)
      else if negb (version h =? 1) then Some (-1)
      else if negb (hash_algo h =? 1) then Some (-1)
      else if negb (sig_algo h =? 1) && negb (sig_algo h =? 2) then Some (-1)
      else
        let computed_hash := sha256_hash ctx (Some data) in
        if negb (crypto_memcmp_const computed_hash (sig_hash h) SHA256_DIGEST_SIZE =? 0) then Some (-1)
        else rsa_verify_pkcs1_sha256 (Some trusted_key) (Some computed_hash) (Some (signature h))
  | _, _, _ => Some (-1)
  end.

(** [module_signature_t] has the layout of [signature_header_t]: five words, the
    hash, and the size and bytes of the signature. *)
Definition MODULE_SIG_SIZE : Z := 5 * 4 + 32 + 4 + 512.

Definition word_at (l : list Z) (off : nat) : Z := le_val (take 4 (drop off l)).
Definition read_signature (l : list Z) : signature_header :=
  SigHeader (word_at l 0) (word_at l 4) (word_at l 8) (word_at l 12) (word_at l 16) (take 32 (drop 20 l)) (RsaSig (word_at l 52) (take 512 (drop 56 l))).

Definition extract_module_signature (module_data : option (list Z)) : option (list Z * signature_header) :=
  match module_data with
  | None => None
  | Some m =>
      if Z.of_nat (length m) <? MODULE_SIG_SIZE then None
      else
        let code_size := (length m - Z.to_nat MODULE_SIG_SIZE)%nat in
        let sig := read_signature (drop code_size m) in
        if negb (magic sig =? SIGNATURE_MAGIC) then None else Some (take code_size m, sig)
  end.

Definition module_verify_signature (ctx : sha256_ctx) (s : crypto_state) (module_data : option (list Z)) : option Z :=
  match module_data with
  | None => Some (-1)
  | Some _ =>
      match extract_module_signature module_data with
      | None => Some (-1)
      | Some (code, sig) =>
          match crypto_get_trusted_key (sig_key_id sig) s with
          | None => Some (-1)
          | Some trusted_key => verify_signed_data ctx (Some code) (Some sig) (Some trusted_key)
          end
      end
  end.

Definition module_is_signed (module_data : option (list Z)) : bool :=
  match module_data with
  | None => false
  | Some m =>
      if Z.of_nat (length m) <? MODULE_SIG_SIZE then false
      else word_at (drop (length m - Z.to_nat MODULE_SIG_SIZE) m) 0 =? SIGNATURE_MAGIC
  end.

Definition module_set_signature_enforcement (enforce : bool) (s : crypto_state) : crypto_state :=
  Crypto (keys s) (kcount s) (g_keyring_initialized s) enforce.
Definition module_signature_enforcement_enabled (s : crypto_state) : bool := g_require_module_signatures s.

End Signature.
