(* ===== verification/SignatureProps.v ===== *)
(** * Signatures: what is accepted

    The padding check accepts one encoding of a hash; a module is accepted exactly
    when its signature block says so under a key that is trusted; and a signature
    that is accepted under every key. *)

From S2P Require Import Prelude Bytes Sha256 Signature.

(** ** What the arithmetic of rsa.c computes

    Byte arrays as the numbers they spell: comparison, subtraction and reduction
    are those of integers; squaring and multiplication are given by formulas. *)

Import Sha256 Signature.

Module RsaFacts.
Local Open Scope Z_scope.

Definition bytes (n : nat) (l : list Z) : Prop := length l = n ∧ Forall byte l.

(** ** Digits and values *)

Lemma be_val_cons x l : be_val (x :: l) = x * 256 ^ Z.of_nat (length l) + be_val l.
Proof. change (x :: l) with ([x] ++ l). rewrite be_val_app. cbn. lia. Qed.

Lemma be_bytes_S n x : be_bytes (S n) x = be_bytes n (x / 256) ++ [x mod 256].
Proof. unfold be_bytes. cbn [le_bytes]. by rewrite reverse_cons. Qed.

Lemma be_bytes_val n l : bytes n l → be_bytes n (be_val l) = l.
Proof.
  revert l. induction n as [|n IH]; intros l [Hl Hb]; [by destruct l|]. destruct l as [|x l _] using rev_ind; [done|].
  rewrite length_app in Hl. cbn [length] in Hl. apply Forall_app in Hb as [Hb Hx]. apply Forall_cons in Hx as [Hx _]. unfold byte in Hx.
  rewrite be_bytes_S, be_val_snoc. f_equal; [|f_equal; divlia]. replace ((256 * be_val l + x) / 256) with (be_val l) by divlia. apply IH. split; [lia|done].
Qed.

Lemma be_val_inj n l k : bytes n l → bytes n k → be_val l = be_val k → l = k.
Proof. intros Hl Hk E. rewrite <- (be_bytes_val n l), <- (be_bytes_val n k) by done. by rewrite E. Qed.

Lemma be_val_bytes n l : bytes n l → 0 ≤ be_val l < 256 ^ Z.of_nat n.
Proof. intros [<- Hb]. by apply be_val_range. Qed.

Lemma bytes_take n l : (n ≤ length l)%nat → Forall byte l → bytes n (take n l).
Proof. intros Hn Hl. split; [rewrite length_take; lia|by apply Forall_take]. Qed.

Lemma at_drop (l : list Z) k i : 0 ≤ i → at_ (drop k l) i = at_ l (Z.of_nat k + i).
Proof. intros Hi. unfold at_. rewrite lookup_total_drop. f_equal. lia. Qed.

Lemma drop_at (l : list Z) k : (k < length l)%nat → drop k l = at_ l (Z.of_nat k) :: drop (S k) l.
Proof. intros Hk. unfold at_. rewrite Nat2Z.id. apply drop_S. by apply list_lookup_lookup_total_lt. Qed.

Lemma fmap_at (l : list Z) n : (n ≤ length l)%nat → at_ l <$> seqZ 0 (Z.of_nat n) = take n l.
Proof.
  intros Hn. apply list_eq. intros i. rewrite list_lookup_fmap. destruct (decide (i < n)%nat).
  - rewrite lookup_seqZ_lt, lookup_take_lt by lia. cbn. unfold at_. rewrite Z.add_0_l, Nat2Z.id. symmetry. apply list_lookup_lookup_total_lt. lia.
  - rewrite lookup_seqZ_ge, lookup_take_ge by lia. done.
Qed.

Lemma be_val_lin (a : Z) (f g : Z → Z) l : be_val ((λ i, a * f i + g i) <$> l) = a * be_val (f <$> l) + be_val (g <$> l).
Proof. induction l as [|x l IH] using rev_ind; [cbn; lia|]. rewrite !fmap_app. cbn [fmap list_fmap]. rewrite !be_val_snoc, IH. lia. Qed.

(** ** Comparison *)

Lemma cmp_from_spec n i a b : (i + n ≤ length a)%nat → (i + n ≤ length b)%nat → Forall byte a → Forall byte b →
  cmp_from n (Z.of_nat i) a b = match be_val (take n (drop i a)) ?= be_val (take n (drop i b)) with Lt => -1 | Eq => 0 | Gt => 1 end.
Proof.
  revert i. induction n as [|n IH]; intros i Ha Hb Hab Hbb; [done|]. cbn [cmp_from].
  replace (Z.of_nat i + 1) with (Z.of_nat (S i)) by lia. rewrite IH by (done || lia). rewrite (drop_at a i), (drop_at b i) by lia. cbn [take].
  pose proof (be_val_bytes n (take n (drop (S i) a))) as H1. pose proof (be_val_bytes n (take n (drop (S i) b))) as H2.
  rewrite !be_val_cons, !length_take, !length_drop. replace (n `min` (length a - S i))%nat with n by lia. replace (n `min` (length b - S i))%nat with n by lia.
  specialize (H1 ltac:(apply bytes_take; [rewrite length_drop; lia|by apply Forall_drop])). specialize (H2 ltac:(apply bytes_take; [rewrite length_drop; lia|by apply Forall_drop])).
  set (x := at_ a _). set (y := at_ b _). set (u := be_val _) in *. set (v := be_val _) in *. set (m := 256 ^ Z.of_nat n) in *.
  repeat zcase; symmetry.
  - rewrite (proj2 (Z.compare_lt_iff _ _)); [done|nia].
  - rewrite (proj2 (Z.compare_gt_iff _ _)); [done|nia].
  - replace y with x by lia. by rewrite Z.add_compare_mono_l.
Qed.

Lemma bigint_cmp_spec a b n : (n ≤ length a)%nat → (n ≤ length b)%nat → Forall byte a → Forall byte b →
  (0 <=? bigint_cmp a b (Z.of_nat n)) = (be_val (take n b) <=? be_val (take n a)).
Proof.
  intros Ha Hb Hab Hbb. unfold bigint_cmp. rewrite Nat2Z.id. change 0 with (Z.of_nat 0) at 2. rewrite cmp_from_spec by done. rewrite !drop_0.
  destruct (Z.compare_spec (be_val (take n a)) (be_val (take n b))); symmetry; [apply Z.leb_le|apply Z.leb_gt|apply Z.leb_le]; lia.
Qed.

(** ** Loops over digits with a carry *)

Section digits.
Context (ok : Z → Prop) (w : Z → Z) (f : Z → list Z * Z → list Z * Z) (val : Z → Z).

(** A step that replaces digit [k] and adds its value to the carry, which
    counts [w c]. *)
Definition digit_step (t : list Z) (k : nat) : Prop :=
  ∀ a c, length a = length t → at_ a (Z.of_nat k) = at_ t (Z.of_nat k) → ok c →
    ∃ d c', f (Z.of_nat k) (a, c) = (set_at (Z.of_nat k) d a, c') ∧ byte d ∧ ok c' ∧ d + 256 * w c' = val (Z.of_nat k) + w c.

Lemma digits_spec n t c : (n ≤ length t)%nat → (∀ k, (k < n)%nat → digit_step t k) → ok c →
  ∃ a c', down n f (t, c) = (a, c') ∧ ok c' ∧ length a = length t ∧ drop n a = drop n t ∧ Forall byte (take n a) ∧
    be_val (take n a) + w c' * 256 ^ Z.of_nat n = be_val (val <$> seqZ 0 (Z.of_nat n)) + w c.
Proof.
  revert t c. induction n as [|n IH]; intros t c Hn Hf Hc.
  { exists t, c. split_and!; try done. rewrite seqZ_nil by lia. change (256 ^ Z.of_nat 0) with 1. rewrite take_0. cbn [fmap list_fmap]. unfold be_val. cbn [foldl]. lia. }
  cbn [down]. destruct (Hf n ltac:(lia) t c eq_refl eq_refl Hc) as (d & c1 & -> & Hd & Hc1 & E).
  destruct (IH (set_at (Z.of_nat n) d t) c1) as (a & c' & -> & Hc' & Hl & Hdrop & Hb & Ev); [rewrite length_set_at; lia| |done|].
  { intros k Hk a0 c0 Ha Hat H0. rewrite length_set_at in Ha. apply (Hf k); [lia|done| |done]. rewrite Hat. unfold at_, set_at.
    rewrite list_lookup_total_insert_ne by lia. done. }
  rewrite length_set_at in Hl. exists a, c'. unfold set_at in Hdrop. rewrite Nat2Z.id in Hdrop. rewrite (drop_at a n), (drop_S _ d n) in Hdrop by (try apply list_lookup_insert_eq; lia).
  injection Hdrop as Hat Hdrop. rewrite drop_insert_lt in Hdrop by lia.
  assert (Htake : take (S n) a = take n a ++ [d]) by (apply take_S_last; rewrite <- Hat; unfold at_; rewrite Nat2Z.id; apply list_lookup_lookup_total_lt; lia).
  rewrite Htake, be_val_snoc. rewrite (Nat2Z.inj_succ n), Z.pow_succ_r by lia. replace (Z.succ (Z.of_nat n)) with (Z.of_nat n + 1) by lia.
  rewrite seqZ_snoc, fmap_app by lia. cbn [fmap list_fmap]. rewrite be_val_snoc.
  split_and!; [done|done|done|done|by apply Forall_app; split; [|apply Forall_singleton]|lia].
Qed.
End digits.


(** ** Subtraction and reduction *)

Lemma bigint_sub_spec n t m : bytes n t → (n ≤ length m)%nat → Forall byte m → be_val (take n m) ≤ be_val t →
  bytes n (bigint_sub t m (Z.of_nat n)) ∧ be_val (bigint_sub t m (Z.of_nat n)) = be_val t - be_val (take n m).
Proof.
  intros Ht Hm Hmb Hle. destruct Ht as [Hl Hb]. unfold bigint_sub. rewrite Nat2Z.id.
  destruct (digits_spec (λ c, c = 0 ∨ c = 1) Z.opp (sub_digit m) (λ k, (-1) * at_ m k + at_ t k) n t 0) as (a & c & E & Hc & Hal & _ & Hab & Ev); [lia| |by left|].
  { intros k Hk a c Ha Hat Hc. unfold sub_digit. rewrite Hat.
    pose proof (at_byte t (Z.of_nat k) Hb ltac:(lia)) as H1. pose proof (at_byte m (Z.of_nat k) Hmb ltac:(lia)) as H2. unfold byte in H1, H2. cbv zeta. zcase.
    - eexists _, 1. split_and!; [reflexivity|apply u8_range|by right|]. unfold u8. rewrite Z.mod_small by lia. lia.
    - eexists _, 0. split_and!; [reflexivity|apply u8_range|by left|]. unfold u8. rewrite Z.mod_small by lia. lia. }
  rewrite E. cbn [fst]. rewrite be_val_lin, !fmap_at in Ev by lia. rewrite (take_ge a), (take_ge t) in * by lia.
  assert (bytes n a) as Ha by (split; [lia|done]). split; [done|]. pose proof (be_val_bytes n a Ha). pose proof (be_val_bytes n t (conj Hl Hb)).
  pose proof (be_val_bytes n (take n m) (bytes_take n m Hm Hmb)). destruct Hc as [-> | ->]; lia.
Qed.

Lemma reduce_loop_spec fuel n t m : bytes n t → (n ≤ length m)%nat → Forall byte m → 0 < be_val (take n m) → be_val t / be_val (take n m) < Z.of_nat fuel →
  ∃ r, reduce_loop fuel t m (Z.of_nat n) = Some r ∧ bytes n r ∧ be_val r = be_val t mod be_val (take n m).
Proof.
  intros Ht Hm Hmb Hpos. revert t Ht. induction fuel as [|fuel IH]; intros t Ht Hf.
  { pose proof (be_val_bytes n t Ht). pose proof (Z.div_pos (be_val t) (be_val (take n m))). lia. }
  cbn [reduce_loop]. rewrite bigint_cmp_spec by (destruct Ht; done || lia). rewrite (take_ge t) by (destruct Ht; lia). zcase.
  - destruct (bigint_sub_spec n t m Ht Hm Hmb) as [Hs E]; [done|]. destruct (IH _ Hs) as (r & -> & Hr & Er).
    + rewrite E. replace (be_val t - be_val (take n m)) with (be_val t + (-1) * be_val (take n m)) by lia. rewrite Z.div_add by lia. lia.
    + exists r. split_and!; [done|done|]. rewrite Er, E. replace (be_val t - be_val (take n m)) with (be_val t + (-1) * be_val (take n m)) by lia. by rewrite Z.mod_add by lia.
  - exists t. split_and!; [done|done|]. rewrite Z.mod_small; [done|]. pose proof (be_val_bytes n t Ht). lia.
Qed.

Lemma reduce_spec n t m : bytes n t → (n ≤ length m)%nat → Forall byte m → 0 < be_val (take n m) →
  ∃ r, reduce t m (Z.of_nat n) = Some r ∧ bytes n r ∧ be_val r = be_val t mod be_val (take n m).
Proof.
  intros Ht Hm Hmb Hpos. apply reduce_loop_spec; try done. unfold reduce_fuel. rewrite Nat2Z.id. pose proof (be_val_bytes n t Ht) as Hr.
  pose proof (Z.div_le_mono (be_val t) (256 ^ Z.of_nat n) (be_val (take n m)) Hpos ltac:(lia)). lia.
Qed.

(** With a modulus of zero the loop does not end. *)
Lemma reduce_loop_zero fuel n t m : bytes n t → (n ≤ length m)%nat → Forall byte m → be_val (take n m) = 0 → reduce_loop fuel t m (Z.of_nat n) = None.
Proof.
  intros Ht Hm Hmb Hz. revert t Ht. induction fuel as [|fuel IH]; intros t Ht; [done|]. cbn [reduce_loop]. pose proof (be_val_bytes n t Ht).
  rewrite bigint_cmp_spec, (take_ge t), Hz by (destruct Ht; done || lia). rewrite (proj2 (Z.leb_le _ _)) by lia. apply IH.
  apply bigint_sub_spec; [done|done|done|lia].
Qed.

(** ** Squaring and multiplication *)

Lemma land_FF x : u8 (Z.land x 0xFF) = x mod 256.
Proof. unfold u8. change 0xFF with (Z.ones 8). rewrite Z.land_ones by lia. change (2 ^ 8) with 256. by rewrite Z.mod_mod. Qed.

(** The sum of the squares of the digits, each in its place, in [n] bytes. *)
Definition digit_squares (n : nat) (x : Z) : Z := be_val ((λ d, d * d) <$> be_bytes n x) mod 256 ^ Z.of_nat n.

Lemma digits_mod n a x c : bytes n a → be_val a + c * 256 ^ Z.of_nat n = x → be_val a = x mod 256 ^ Z.of_nat n.
Proof. intros Ha <-. rewrite Z.mod_add by (apply Z.pow_nonzero; lia). symmetry. apply Z.mod_small. by apply be_val_bytes. Qed.

Lemma square_pass_spec n t : bytes n t → bytes n (square_pass t (Z.of_nat n)) ∧ be_val (square_pass t (Z.of_nat n)) = digit_squares n (be_val t).
Proof.
  intros Ht. pose proof Ht as [Hl Hb]. unfold square_pass. rewrite Nat2Z.id.
  destruct (digits_spec (λ c, 0 ≤ c < 256) id square_digit (λ k, at_ t k * at_ t k) n t 0) as (a & c & E & _ & Hal & _ & Hab & Ev); [lia| |lia|].
  { intros k Hk a c Ha Hat Hc. unfold square_digit. rewrite Hat, land_FF. pose proof (at_byte t (Z.of_nat k) Hb ltac:(lia)) as H. unfold byte in H. cbv zeta.
    rewrite u32_small by nia. set (v := at_ t _ * at_ t _ + c). assert (0 ≤ v < 256 * 256) by (unfold v; nia). rewrite Z.shiftr_div_pow2 by lia. unfold u16.
    rewrite (Z.mod_small (v / 2 ^ 8)) by divlia. eexists _, _. split_and!; [reflexivity|apply Z.mod_pos_bound; lia|divlia|divlia|unfold id; divlia]. }
  rewrite E. cbn [fst]. rewrite (take_ge a) in * by lia. assert (bytes n a) as Ha by (split; [lia|done]). split; [done|]. unfold digit_squares. rewrite be_bytes_val by done.
  replace ((λ d, d * d) <$> t) with ((λ k, at_ t k * at_ t k) <$> seqZ 0 (Z.of_nat n)).
  - apply (digits_mod n a _ c Ha). unfold id in Ev. lia.
  - transitivity ((λ d, d * d) <$> take n t); [rewrite <- fmap_at by lia; by rewrite <- list_fmap_compose|by rewrite take_ge by lia].
Qed.

Lemma down_add {S : Type} a b (f : Z → S → S) s : down (a + b) f s = down a f (down b (λ k, f (Z.of_nat a + k)) s).
Proof.
  revert s. induction b as [|b IH]; intros s; [by rewrite Nat.add_0_r|]. rewrite Nat.add_succ_r. cbn [down]. rewrite IH. by rewrite Nat2Z.inj_add.
Qed.

Lemma down_id {S : Type} n (f : Z → S → S) s : (∀ k, (k < n)%nat → f (Z.of_nat k) s = s) → down n f s = s.
Proof. induction n as [|n IH]; intros H; [done|]. cbn [down]. rewrite H by lia. apply IH. intros; apply H; lia. Qed.

Lemma down_ind {S : Type} (P : nat → S → Prop) n f s : P n s → (∀ k s', (k < n)%nat → P (Datatypes.S k) s' → P k (f (Z.of_nat k) s')) → P O (down n f s).
Proof. revert s. induction n as [|n IH]; intros s H Hf; [done|]. cbn [down]. apply IH; [by apply Hf; [lia|]|intros; apply Hf; [lia|done]]. Qed.

Lemma be_val_split n k l : length l = (n + k)%nat → be_val l = be_val (take n l) * 256 ^ Z.of_nat k + be_val (drop n l).
Proof. intros Hl. rewrite <- (take_drop n l) at 1. rewrite be_val_app, length_drop. do 4 f_equal. lia. Qed.

(** One row of the product: digit [i] of the signature times [temp]. *)
Lemma mul_row_spec n i result temp final : (i < n)%nat → bytes n result → bytes n temp → bytes n final →
  let r := mul_row result temp (Z.of_nat n) (Z.of_nat i) final in bytes n r ∧
  be_val r mod 256 ^ Z.of_nat n = (be_val final + at_ result (Z.of_nat i) * 256 ^ Z.of_nat (n - 1 - i) * be_val temp) mod 256 ^ Z.of_nat n.
Proof.
  intros Hi [Hrl Hrb] [Htl Htb] [Hfl Hfb]. cbv zeta. unfold mul_row. rewrite Nat2Z.id. set (r := at_ result (Z.of_nat i)). set (k := (n - 1 - i)%nat).
  assert (Hr : byte r) by (apply at_byte; [done|lia]). unfold byte in Hr.
  set (f := mul_digit r temp (Z.of_nat i) (Z.of_nat n)). replace (down n f (final, 0)) with (down (k + (i + 1)) f (final, 0)) by (f_equal; lia). rewrite down_add, down_id.
  2:{ intros j Hj. destruct (down _ _ _) as [a c]. unfold f, mul_digit. rewrite (proj2 (Z.ltb_lt _ _)) by lia. done. }
  destruct (digits_spec (λ c, 0 ≤ c < 256) id (λ j, f (Z.of_nat k + j)) (λ j, r * at_ (drop k temp) j + at_ final j) (i + 1) final 0) as (a & c & E & _ & Hal & Hdr & Hab & Ev); [lia| |lia|].
  { intros j Hj a c Ha Hat Hc. unfold f, mul_digit. replace (Z.of_nat i + (Z.of_nat k + Z.of_nat j) - Z.of_nat n + 1) with (Z.of_nat j) by lia. rewrite Hat, at_drop, land_FF by lia.
    pose proof (at_byte temp (Z.of_nat k + Z.of_nat j) Htb ltac:(lia)) as H1. pose proof (at_byte final (Z.of_nat j) Hfb ltac:(lia)) as H2. unfold byte in H1, H2.
    rewrite (proj2 (Z.ltb_ge _ _)), (proj2 (Z.leb_gt _ _)) by lia. cbn [orb]. cbv zeta. rewrite u32_small by nia. set (v := _ + c). assert (0 ≤ v < 256 * 256) by (unfold v; nia).
    rewrite Z.shiftr_div_pow2 by lia. eexists _, _. split_and!; [reflexivity|apply Z.mod_pos_bound; lia|divlia|divlia|unfold id; divlia]. }
  rewrite E. cbn [fst]. split; [split; [lia|]|].
  { rewrite <- (take_drop (i + 1) a). apply Forall_app. split; [done|]. rewrite Hdr. by apply Forall_drop. }
  rewrite be_val_lin, !fmap_at in Ev by (rewrite ?length_drop; lia). rewrite (take_ge (drop k temp)) in Ev by (rewrite length_drop; lia).
  rewrite (be_val_split (i + 1) k a), (be_val_split (i + 1) k final), (be_val_split k (i + 1) temp) by lia. rewrite Hdr. unfold id in Ev.
  replace (be_val (take (i + 1) a)) with (r * be_val (drop k temp) + be_val (take (i + 1) final) - c * 256 ^ Z.of_nat (i + 1)) by lia.
  assert (HB : 256 ^ Z.of_nat n = 256 ^ Z.of_nat k * 256 ^ Z.of_nat (i + 1)) by (rewrite <- Z.pow_add_r by lia; f_equal; lia).
  rewrite <- (Z.mod_add _ (c + r * be_val (take k temp))) by (apply Z.pow_nonzero; lia). f_equal. rewrite HB. ring.
Qed.

Lemma mul_pass_spec n result temp : bytes n result → bytes n temp →
  bytes n (mul_pass result temp (Z.of_nat n)) ∧ be_val (mul_pass result temp (Z.of_nat n)) = (be_val result * be_val temp) mod 256 ^ Z.of_nat n.
Proof.
  intros Hr Ht. unfold mul_pass. rewrite Nat2Z.id.
  pose proof (down_ind (λ k l, bytes n l ∧ be_val l mod 256 ^ Z.of_nat n = (be_val (drop k result) * be_val temp) mod 256 ^ Z.of_nat n) n (mul_row result temp (Z.of_nat n)) (replicate n 0)) as H.
  cbv beta in H. rewrite drop_0 in H. destruct H as [Hb E].
  - pose proof Hr as [Hl _]. rewrite drop_ge by lia. split; [split; [by rewrite length_replicate|apply byte_zeros]|]. f_equal.
    clear. induction n as [|n IH]; [done|]. cbn [replicate]. rewrite be_val_cons, IH. done.
  - intros k l Hk [Hl E]. destruct (mul_row_spec n k result temp l Hk Hr Ht Hl) as [Hb' E']. split; [done|]. rewrite E', <- Zplus_mod_idemp_l, E, Zplus_mod_idemp_l.
    destruct Hr as [Hlen _]. rewrite (drop_at result k), be_val_cons, length_drop by lia. f_equal. replace (length result - S k)%nat with (n - 1 - k)%nat by lia. ring.
  - split; [done|]. rewrite <- E. symmetry. apply Z.mod_small. by apply be_val_bytes.
Qed.

(** ** What the signature check recovers from a signature *)

Definition recovered (n : nat) (m s : Z) : Z := (s * Nat.iter 16 (λ t, digit_squares n t mod m) s) mod 256 ^ Z.of_nat n mod m.

Lemma squarings_spec k n t m : bytes n t → (n ≤ length m)%nat → Forall byte m → 0 < be_val (take n m) →
  ∃ r, squarings k t m (Z.of_nat n) = Some r ∧ bytes n r ∧ be_val r = Nat.iter k (λ t, digit_squares n t mod be_val (take n m)) (be_val t).
Proof.
  intros Ht Hm Hmb Hpos. revert t Ht. induction k as [|k IH]; intros t Ht; [by exists t|]. cbn [squarings].
  destruct (square_pass_spec n t Ht) as [Hs Es]. destruct (reduce_spec n _ m Hs Hm Hmb Hpos) as (u & -> & Hu & Eu). cbn [mbind option_bind].
  destruct (IH u Hu) as (r & -> & Hr & Er). exists r. split_and!; [done|done|]. rewrite Nat.iter_succ_r, Er, Eu, Es. done.
Qed.

Lemma rsa_verify_simple_spec n s m : (n ≤ length s)%nat → Forall byte s → (n ≤ length m)%nat → Forall byte m → 0 < be_val (take n m) →
  ∃ d, rsa_verify_simple s m (Z.of_nat n) = Some d ∧ bytes n d ∧ be_val d = recovered n (be_val (take n m)) (be_val (take n s)).
Proof.
  intros Hs Hsb Hm Hmb Hpos. unfold rsa_verify_simple. rewrite Nat2Z.id. pose proof (bytes_take n s Hs Hsb) as Ht.
  destruct (squarings_spec 16 n _ m Ht Hm Hmb Hpos) as (t & -> & Htb & Et). cbn [mbind option_bind].
  destruct (mul_pass_spec n _ t Ht Htb) as [Hp Ep]. destruct (reduce_spec n _ m Hp Hm Hmb Hpos) as (d & -> & Hd & Ed). exists d. split_and!; [done|done|].
  by rewrite Ed, Ep, Et.
Qed.

End RsaFacts.

Import RsaFacts.

Module SignatureProps.
Local Open Scope Z_scope.

(** ** Comparison in constant time *)

Lemma memcmp_spec n a b : (n ≤ length a)%nat → (n ≤ length b)%nat → crypto_memcmp_const a b (Z.of_nat n) = 0 ↔ take n a = take n b.
Proof.
  intros Ha Hb. unfold crypto_memcmp_const.
  pose proof (for_ind (λ i r, r = 0 ↔ take (Z.to_nat i) a = take (Z.to_nat i) b) (Z.of_nat n) (λ i r, Z.lor r (Z.lxor (at_ a i) (at_ b i))) 0) as H. cbv beta in H.
  rewrite Nat2Z.id in *. apply H; [lia|by rewrite !take_0|]. intros i r Hi IH. rewrite Z.lor_eq_0_iff, Z.lxor_eq_0_iff, IH. replace (Z.to_nat (i + 1)) with (S (Z.to_nat i)) by lia.
  rewrite (take_S_last a _ (at_ a i)), (take_S_last b _ (at_ b i)) by (apply list_lookup_lookup_total_lt; lia). split.
  - by intros [-> ->].
  - intros E. apply app_inj_2 in E as [E1 E2]; [|done]. split; [done|]. by injection E2.
Qed.

(** ** The padding *)

(** EMSA-PKCS1-v1_5 of RFC 8017 for SHA-256: the only encoding of a hash in [n]
    bytes. *)
Definition encode (n : nat) (hash : list Z) : list Z := [0; 1] ++ replicate (n - 54) 0xFF ++ [0] ++ PKCS1_SHA256_DIGEST_INFO ++ hash.

Lemma skip_padding_spec fuel p n d : 0 ≤ p ≤ n → n - p ≤ Z.of_nat fuel → let q := skip_padding fuel p n d in
  p ≤ q ≤ n ∧ (∀ i, p ≤ i < q → at_ d i = 0xFF) ∧ (q < n → at_ d q ≠ 0xFF).
Proof.
  revert p. induction fuel as [|fuel IH]; intros p Hp Hf; cbn [skip_padding].
  { cbv zeta. split_and!; [lia|lia|lia|]. lia. }
  destruct (Z.ltb_spec p n) as [Hlt|Hge]; cbn [andb]; [|cbv zeta; split_and!; lia]. zcase; [|cbv zeta; split_and!; [lia|lia|lia|done]].
  destruct (IH (p + 1)) as (H1 & H2 & H3); [lia|lia|]. cbv zeta. split_and!; [lia|lia| |done].
  intros i Hi. destruct (decide (i = p)) as [->|]; [done|]. apply H2. lia.
Qed.

Lemma encode_bytes n hash : (62 ≤ n)%nat → bytes 32 hash → bytes n (encode n hash).
Proof.
  intros Hn [Hl Hb]. split.
  - unfold encode. rewrite !length_app, length_replicate, Hl. cbn [length PKCS1_SHA256_DIGEST_INFO]. lia.
  - unfold encode. repeat (apply Forall_app; split); try done; [..|apply Forall_replicate; unfold byte; lia| |]; repeat constructor; unfold byte; lia.
Qed.

Lemma at_app_l l k i : 0 ≤ i < Z.of_nat (length l) → at_ (l ++ k) i = at_ l i.
Proof. intros Hi. unfold at_. apply lookup_total_app_l. lia. Qed.
Lemma at_app_r l k i : Z.of_nat (length l) ≤ i → at_ (l ++ k) i = at_ k (i - Z.of_nat (length l)).
Proof. intros Hi. unfold at_. rewrite lookup_total_app_r by lia. f_equal. lia. Qed.
Lemma at_replicate n x i : 0 ≤ i < Z.of_nat n → at_ (replicate n x) i = x.
Proof. intros Hi. unfold at_. apply lookup_total_replicate_2. lia. Qed.

(** The end of the padding in an encoding, and a list that has its parts. *)
Lemma skip_encode n hash : (62 ≤ n)%nat → bytes 32 hash → skip_padding n 2 (Z.of_nat n) (encode n hash) = Z.of_nat n - 52.
Proof.
  intros Hn Hh. destruct (skip_padding_spec n 2 (Z.of_nat n) (encode n hash)) as (H1 & H2 & H3); [lia|lia|]. set (q := skip_padding _ _ _ _) in *.
  assert (Hff : ∀ i, 2 ≤ i < Z.of_nat n - 52 → at_ (encode n hash) i = 0xFF).
  { intros i Hi. unfold encode. rewrite at_app_r, at_app_l, at_replicate by (rewrite ?length_replicate; cbn; lia). done. }
  assert (Hz : at_ (encode n hash) (Z.of_nat n - 52) = 0).
  { unfold encode. rewrite at_app_r, at_app_r by (rewrite ?length_replicate; cbn; lia). rewrite length_replicate. replace (_ - _ - _) with 0 by (cbn; lia). done. }
  destruct (Z.lt_trichotomy q (Z.of_nat n - 52)) as [H|[H|H]]; [|done|].
  - destruct H3; [lia|]. apply Hff. lia.
  - rewrite H2 in Hz by lia. lia.
Qed.

Lemma digest_info_spec d p : (Z.to_nat p + 19 ≤ length d)%nat → 0 ≤ p →
  forallb (λ i, at_ d (p + i) =? at_ PKCS1_SHA256_DIGEST_INFO i) (seqZ 0 (Z.of_nat (length PKCS1_SHA256_DIGEST_INFO))) = true ↔ take 19 (drop (Z.to_nat p) d) = PKCS1_SHA256_DIGEST_INFO.
Proof.
  intros Hl Hp. change (length PKCS1_SHA256_DIGEST_INFO) with 19%nat. rewrite forallb_forall. split.
  - intros H. apply list_eq_same_length with 19%nat; [done|rewrite length_take, length_drop; lia|]. intros i x y Hi Hx Hy. rewrite lookup_take_lt in Hx by lia. rewrite lookup_drop in Hx.
    specialize (H (Z.of_nat i)). rewrite Z.eqb_eq, <- list_elem_of_In, elem_of_seqZ in H. unfold at_ in H. rewrite Nat2Z.id in H. replace (Z.to_nat (p + Z.of_nat i)) with (Z.to_nat p + i)%nat in H by lia.
    rewrite (list_lookup_total_correct _ _ _ Hx), (list_lookup_total_correct _ _ _ Hy) in H. apply H. lia.
  - intros E i. rewrite <- list_elem_of_In, elem_of_seqZ, Z.eqb_eq. intros Hi. rewrite <- E, at_take by lia. by rewrite at_drop, Z2Nat.id by lia.
Qed.

Lemma at_ext (l k : list Z) : length l = length k → (∀ i, 0 ≤ i < Z.of_nat (length l) → at_ l i = at_ k i) → l = k.
Proof.
  intros Hl H. apply list_eq_same_length with (length l); [done|done|]. intros i x y Hi Hx Hy. specialize (H (Z.of_nat i) ltac:(lia)). unfold at_ in H. rewrite Nat2Z.id in H.
  by rewrite (list_lookup_total_correct _ _ _ Hx), (list_lookup_total_correct _ _ _ Hy) in H.
Qed.

Lemma encode_ext n d hash : (62 ≤ n)%nat → bytes n d → bytes 32 hash → at_ d 0 = 0 → at_ d 1 = 1 → (∀ i, 2 ≤ i < Z.of_nat n - 52 → at_ d i = 0xFF) → at_ d (Z.of_nat n - 52) = 0 →
  take 19 (drop (n - 51) d) = PKCS1_SHA256_DIGEST_INFO → drop (n - 32) d = hash → d = encode n hash.
Proof.
  intros Hn [Hl Hb] Hh H0 H1 Hff Hz Hdi Hhash. pose proof (encode_bytes n hash Hn Hh) as [Hel _]. apply at_ext; [congruence|]. rewrite Hl. intros i Hi. unfold encode.
  destruct (decide (i < 2)). { rewrite at_app_l by (cbn; lia). by assert (i = 0 ∨ i = 1) as [-> | ->] by lia. }
  rewrite at_app_r by (cbn; lia). change (Z.of_nat (length [0; 1])) with 2. destruct (decide (i < Z.of_nat n - 52)).
  { rewrite at_app_l, at_replicate by (rewrite ?length_replicate; lia). apply Hff. lia. }
  rewrite at_app_r by (rewrite length_replicate; lia). rewrite length_replicate. replace (i - 2 - Z.of_nat (n - 54)) with (i - (Z.of_nat n - 52)) by lia.
  destruct (decide (i = Z.of_nat n - 52)) as [->|]. { by rewrite Z.sub_diag, Hz. }
  rewrite at_app_r by (cbn; lia). change (Z.of_nat (length [0])) with 1. destruct (decide (i < Z.of_nat n - 32)).
  - rewrite at_app_l by (cbn; lia). rewrite <- Hdi, at_take, at_drop by lia. f_equal. lia.
  - rewrite at_app_r by (cbn; lia). change (Z.of_nat (length PKCS1_SHA256_DIGEST_INFO)) with 19. rewrite <- Hhash, at_drop by lia. f_equal. lia.
Qed.

Lemma encode_parts n hash : (62 ≤ n)%nat → bytes 32 hash → at_ (encode n hash) (Z.of_nat n - 52) = 0 ∧ take 19 (drop (n - 51) (encode n hash)) = PKCS1_SHA256_DIGEST_INFO ∧ drop (n - 32) (encode n hash) = hash.
Proof.
  intros Hn Hh. unfold encode. split_and!.
  - rewrite at_app_r, at_app_r by (rewrite ?length_replicate; cbn; lia). rewrite length_replicate. replace (_ - _ - _) with 0 by (cbn; lia). done.
  - rewrite (app_assoc (replicate _ _)), app_assoc, drop_app_length'; [done|]. rewrite !length_app, length_replicate. cbn. lia.
  - rewrite (app_assoc [0]), (app_assoc (replicate _ _)), (app_assoc [0; 1]), drop_app_length'; [done|]. rewrite !length_app, length_replicate. cbn. lia.
Qed.

Lemma check_padding_sound n d hash : (62 ≤ n)%nat → bytes n d → bytes 32 hash → check_padding d (Z.of_nat n) hash = 0 → d = encode n hash.
Proof.
  intros Hn Hd Hh. pose proof Hd as [Hl _]. pose proof Hh as [Hhl _]. unfold check_padding. cbv zeta. rewrite Nat2Z.id.
  destruct (skip_padding_spec n 2 (Z.of_nat n) d) as (H1 & H2 & H3); [lia|lia|]. set (q := skip_padding _ _ _ _) in *.
  destruct (Z.eqb_spec (at_ d 0) 0) as [E0|]; [|done]. destruct (Z.eqb_spec (at_ d 1) 1) as [E1|]; [|done]. cbn [negb orb].
  destruct (Z.ltb_spec q 10) as [|Hq]; [done|]. destruct (Z.leb_spec (Z.of_nat n) q) as [|Hqn]; [done|]. destruct (Z.eqb_spec (at_ d q) 0) as [Eq0|]; [|done]. cbn [negb orb].
  unfold DIGEST_INFO_SIZE, SHA256_DIGEST_SIZE. destruct (forallb _ _) eqn:Ef; [|by case_match]. change (Z.of_nat (length PKCS1_SHA256_DIGEST_INFO)) with 19.
  destruct (Z.eqb_spec (Z.of_nat n - (q + 1)) (19 + 32)) as [El|]; [|done]. cbn [negb].
  destruct (Z.eqb_spec (crypto_memcmp_const (drop (Z.to_nat (q + 1 + 19)) d) hash 32) 0) as [e2|]; [|done]. intros _. assert (Eq : q = Z.of_nat n - 52) by lia.
  apply digest_info_spec in Ef; [|lia|lia]. replace (Z.to_nat (q + 1)) with (n - 51)%nat in Ef by lia. change 32 with (Z.of_nat 32) in e2.
  apply memcmp_spec in e2; [|rewrite length_drop; lia|lia]. rewrite !take_ge in e2 by (rewrite ?length_drop; lia). replace (Z.to_nat (q + 1 + 19)) with (n - 32)%nat in e2 by lia.
  apply encode_ext; try done; rewrite <- Eq; [|done]. intros i Hi. by apply H2.
Qed.

Lemma check_padding_spec n d hash : (62 ≤ n)%nat → bytes n d → bytes 32 hash → check_padding d (Z.of_nat n) hash = if bool_decide (d = encode n hash) then 0 else -1.
Proof.
  intros Hn Hd Hh. case_bool_decide as E.
  - subst d. pose proof Hd as [Hl _]. pose proof Hh as [Hhl _]. destruct (encode_parts n hash Hn Hh) as (P1 & P2 & P3). unfold check_padding. cbv zeta. rewrite Nat2Z.id, skip_encode by done.
    change (at_ (encode n hash) 0) with 0. change (at_ (encode n hash) 1) with 1. cbn [Z.eqb Pos.eqb negb orb]. rewrite (proj2 (Z.ltb_ge _ _)) by lia. rewrite P1, (proj2 (Z.leb_gt _ _)) by lia. cbn [Z.eqb negb orb].
    unfold DIGEST_INFO_SIZE, SHA256_DIGEST_SIZE. 
    rewrite (proj2 (digest_info_spec (encode n hash) (Z.of_nat n - 52 + 1) ltac:(rewrite Hl; lia) ltac:(lia))) by (by replace (Z.to_nat (Z.of_nat n - 52 + 1)) with (n - 51)%nat by lia).
    change (Z.of_nat (length PKCS1_SHA256_DIGEST_INFO)) with 19. rewrite (proj2 (Z.eqb_eq _ _)) by lia. cbn [negb].
    replace (Z.to_nat (Z.of_nat n - 52 + 1 + 19)) with (n - 32)%nat by lia. rewrite P3. change 32 with (Z.of_nat 32). by rewrite (proj2 (memcmp_spec 32 hash hash ltac:(lia) ltac:(lia)) eq_refl).
  - destruct (decide (check_padding d (Z.of_nat n) hash = 0)) as [H|H]; [by destruct E; apply check_padding_sound|].
    revert H. unfold check_padding. cbv zeta. repeat case_match; try done.
Qed.

(** ** Signatures *)

Definition key_ok (k : rsa_public_key) : Prop := bytes 512 (rsa_n k).
Definition sig_ok (s : rsa_signature) : Prop := bytes 512 (sig_data s).

(** The signatures that [rsa.c] accepts for a hash under a key. *)
Definition accepts (k : rsa_public_key) (hash : list Z) (s : rsa_signature) : Prop :=
  let n := Z.to_nat (bits k / 8) in let m := be_val (take n (rsa_n k)) in let x := be_val (take n (sig_data s)) in
  (bits k = 2048 ∨ bits k = 4096) ∧ size s = bits k / 8 ∧ rsa_e k = 65537 ∧ x < m ∧ recovered n m x = be_val (encode n hash).

#[export] Instance accepts_dec k hash s : Decision (accepts k hash s).
Proof. unfold accepts. cbv zeta. apply _. Defined.

Lemma rsa_verify_spec k hash s : key_ok k → sig_ok s → bytes 32 hash →
  rsa_verify_pkcs1_sha256 (Some k) (Some hash) (Some s) = Some (if bool_decide (accepts k hash s) then 0 else -1).
Proof.
  intros [Hk Hkb] [Hs Hsb] Hh. unfold rsa_verify_pkcs1_sha256, RSA_2048_BITS, RSA_4096_BITS, RSA_4096_BYTES.
  destruct (decide (bits k = 2048 ∨ bits k = 4096)) as [Hbits|Hbits].
  2:{ rewrite (proj2 (Z.eqb_neq _ _)), (proj2 (Z.eqb_neq _ _)) by tauto. rewrite bool_decide_eq_false_2; [done|]. by intros [? _]. }
  replace (_ && _) with false by (destruct Hbits as [-> | ->]; done). cbv zeta.
  remember (Z.to_nat (bits k / 8)) as n eqn:En. assert (Hn : bits k / 8 = Z.of_nat n ∧ (62 ≤ n ≤ 512)%nat) by (destruct Hbits as [E|E]; rewrite E in *; [change (2048 / 8) with 256 in *|change (4096 / 8) with 512 in *]; lia).
  destruct Hn as [Hn Hr]. set (m := be_val (take n (rsa_n k))). set (x := be_val (take n (sig_data s))).
  assert (Ha : accepts k hash s ↔ size s = Z.of_nat n ∧ rsa_e k = 65537 ∧ x < m ∧ recovered n m x = be_val (encode n hash)).
  { unfold accepts, m, x. rewrite <- En, Hn. tauto. }
  rewrite Hn. rewrite (proj2 (Z.ltb_ge _ _)) by lia.
  destruct (Z.eqb_spec (size s) (Z.of_nat n)) as [Hsz|Hsz]; cbn [negb]; [|by rewrite bool_decide_eq_false_2 by (rewrite Ha; tauto)].
  rewrite bigint_cmp_spec by (done || lia). fold m x. destruct (Z.leb_spec m x) as [Hle|Hlt]; [rewrite bool_decide_eq_false_2; [done|rewrite Ha; lia]|].
  destruct (Z.eqb_spec (rsa_e k) 65537) as [He|He]; cbn [negb]; [|by rewrite bool_decide_eq_false_2 by (rewrite Ha; tauto)].
  pose proof (be_val_bytes n (take n (sig_data s)) (bytes_take n (sig_data s) ltac:(lia) Hsb)) as Hx. fold x in Hx.
  destruct (rsa_verify_simple_spec n (sig_data s) (rsa_n k)) as (d & -> & Hd & Ed); [lia|done|lia|done|fold m; lia|]. cbn [mbind option_bind]. f_equal.
  rewrite check_padding_spec by (done || lia). apply (f_equal (λ b : bool, if b then 0 else -1)). apply bool_decide_ext. rewrite Ha. fold m x in Ed. rewrite <- Ed. split.
  - by intros ->.
  - intros (_ & _ & _ & E). by apply (be_val_inj n); [|apply encode_bytes; [lia|]|].
Qed.

Lemma SHA256_bytes m : bytes 32 (SHA256 m).
Proof.
  unfold SHA256. destruct (foldl_compress_value (groups 64 (pad m)) IV IV_value) as [Hl _]. revert Hl. generalize (foldl compress IV (groups 64 (pad m))). intros s Hl.
  destruct s as [|a [|b [|c [|d [|e [|f [|g [|h [|i s]]]]]]]]]; cbn in Hl; try lia. split; [done|]. cbn [mbind list_bind]. repeat (apply Forall_app; split); try apply byte_be_bytes. done.
Qed.

Lemma sha256_hash_spec g d : length (buffer g) = 64%nat → Forall byte d → sha256_hash g (Some d) = SHA256 d.
Proof. intros Hg Hd. unfold sha256_hash. apply final_spec. apply (update_spec _ [] d); [by apply hash_init_spec|done]. Qed.

(** A header that vouches for data under a key. *)
Definition vouches (h : signature_header) (data : list Z) (k : rsa_public_key) : Prop :=
  magic h = SIGNATURE_MAGIC ∧ version h = 1 ∧ hash_algo h = 1 ∧ (sig_algo h = 1 ∨ sig_algo h = 2) ∧ sig_hash h = SHA256 data ∧ accepts k (SHA256 data) (signature h).

#[export] Instance vouches_dec h data k : Decision (vouches h data k).
Proof. unfold vouches. apply _. Defined.

Lemma verify_signed_data_spec g data h k : length (buffer g) = 64%nat → Forall byte data → key_ok k → sig_ok (signature h) → length (sig_hash h) = 32%nat →
  verify_signed_data g (Some data) (Some h) (Some k) = Some (if bool_decide (vouches h data k) then 0 else -1).
Proof.
  intros Hg Hd Hk Hs Hh. unfold verify_signed_data. rewrite sha256_hash_spec by done. pose proof (SHA256_bytes data) as H32. unfold vouches.
  destruct (Z.eqb_spec (magic h) SIGNATURE_MAGIC) as [E1|]; cbn [negb]; [|by rewrite bool_decide_eq_false_2 by tauto].
  destruct (Z.eqb_spec (version h) 1) as [E2|]; cbn [negb]; [|by rewrite bool_decide_eq_false_2 by tauto].
  destruct (Z.eqb_spec (hash_algo h) 1) as [E3|]; cbn [negb]; [|by rewrite bool_decide_eq_false_2 by tauto].
  destruct (decide (sig_algo h = 1 ∨ sig_algo h = 2)) as [E4|E4].
  2:{ rewrite (proj2 (Z.eqb_neq _ _)), (proj2 (Z.eqb_neq _ _)) by tauto. by rewrite bool_decide_eq_false_2 by tauto. }
  replace (_ && _) with false by (destruct E4 as [-> | ->]; done). unfold SHA256_DIGEST_SIZE. cbv zeta.
  pose proof (memcmp_spec 32 (SHA256 data) (sig_hash h) ltac:(destruct H32; lia) ltac:(lia)) as Hc. rewrite !take_ge in Hc by (destruct H32; lia). change (Z.of_nat 32) with 32 in Hc.
  destruct (Z.eqb_spec (crypto_memcmp_const (SHA256 data) (sig_hash h) 32) 0) as [E5|E5]; cbn [negb].
  - rewrite rsa_verify_spec by done. f_equal. apply (f_equal (λ b : bool, if b then 0 else -1)). apply bool_decide_ext. apply Hc in E5. split; [|tauto]. intros Ha. by split_and!.
  - rewrite bool_decide_eq_false_2; [done|]. intros (_ & _ & _ & _ & E & _). by apply E5, Hc.
Qed.

(** ** The ring of trusted keys *)

Inductive crypto_step (s : crypto_state) : crypto_state → Prop :=
| step_init : crypto_step s (crypto_init_keyring s)
| step_add id k : key_ok k → crypto_step s (snd (crypto_add_trusted_key id (Some k) s))
| step_revoke id : crypto_step s (snd (crypto_revoke_key id s))
| step_enforce b : crypto_step s (module_set_signature_enforcement b s).

Definition crypto_reachable (s : crypto_state) : Prop := rtc crypto_step crypto_power_on s.

Definition trusted (s : crypto_state) (id : Z) (k : rsa_public_key) : Prop := ∃ i, 0 ≤ i < kcount s ∧ ring_entry s i = Entry id k false.

Record ring_ok (s : crypto_state) : Prop := {
  ring_length : length (keys s) = 16%nat;
  ring_count : 0 ≤ kcount s ≤ 16;
  ring_keys : Forall (λ e, key_ok (key e)) (keys s);
  ring_ids i j : 0 ≤ i < kcount s → 0 ≤ j < kcount s → key_id (ring_entry s i) = key_id (ring_entry s j) → i = j }.

Lemma zeros_ok : bytes 512 (replicate 512 0).
Proof. split; [by rewrite length_replicate|apply byte_zeros]. Qed.

Lemma ring_entry_insert s k n i j e : (Z.to_nat j < length (keys s))%nat → k = <[Z.to_nat j := e]> (keys s) → 0 ≤ i → 0 ≤ j →
  ring_entry (set_keys k n s) i = if decide (i = j) then e else ring_entry s i.
Proof.
  intros Hj -> Hi Hj0. unfold ring_entry. cbn. case_decide as E; [subst; by apply list_lookup_total_insert_eq|]. apply list_lookup_total_insert_ne. lia.
Qed.

Lemma ring_add_spec id k s : ring_ok s → key_ok k → let s' := snd (crypto_add_trusted_key id (Some k) s) in
  ring_ok s' ∧ kcount s ≤ kcount s' ∧ g_keyring_initialized s' = g_keyring_initialized s ∧ ∀ i, 0 ≤ i < kcount s → ring_entry s' i = ring_entry s i.
Proof.
  intros [Hl Hc Hk Hi] Hkey. unfold crypto_add_trusted_key, MAX_TRUSTED_KEYS. destruct (Z.leb_spec 16 (kcount s)); [cbv zeta; split_and!; try done; lia|].
  destruct (existsb _ _) eqn:Ex; [cbv zeta; split_and!; try done; lia|]. cbn [snd]. set (s' := set_keys _ _ s).
  assert (He : ∀ i, 0 ≤ i → ring_entry s' i = if decide (i = kcount s) then Entry id k false else ring_entry s i) by (intros i Hi0; apply ring_entry_insert; [lia|done|lia|lia]).
  assert (Hnew : ∀ i, 0 ≤ i < kcount s → key_id (ring_entry s i) ≠ id).
  { intros i Hlt E. apply not_true_iff_false in Ex. destruct Ex. apply existsb_exists. exists i. rewrite <- list_elem_of_In, elem_of_seqZ, Z.eqb_eq. split; [lia|done]. }
  split_and!; [split|cbn; lia|done|].
  - cbn. by rewrite length_insert.
  - cbn. lia.
  - cbn. by apply Forall_insert.
  - intros i j H1 H2. change (kcount s') with (kcount s + 1) in *. rewrite !He by lia. repeat case_decide; cbn [key_id]; intros E; [lia| | |apply Hi; [lia|lia|done]].
    + by destruct (Hnew j ltac:(lia)).
    + by destruct (Hnew i ltac:(lia)).
  - intros i Hlt. rewrite He by lia. case_decide; [lia|done].
Qed.

Lemma revoke_from_spec n i id l : (Z.to_nat i + n ≤ length l)%nat → 0 ≤ i →
  (revoke_from n i id l = (-1, l) ∧ ∀ j, i ≤ j < i + Z.of_nat n → key_id (l !!! Z.to_nat j) ≠ id) ∨
  ∃ j, i ≤ j < i + Z.of_nat n ∧ key_id (l !!! Z.to_nat j) = id ∧ revoke_from n i id l = (0, <[Z.to_nat j := Entry id (key (l !!! Z.to_nat j)) true]> l).
Proof.
  revert i. induction n as [|n IH]; intros i Hl Hi; cbn [revoke_from]; [left; split; [done|lia]|]. zcase; [right; exists i; subst; split_and!; try done; lia|].
  destruct (IH (i + 1)) as [[-> H]|(j & Hj & Ej & ->)]; [lia|lia| |].
  - left. split; [done|]. intros j Hj. destruct (decide (j = i)) as [->|]; [done|]. apply H. lia.
  - right. exists j. split_and!; [lia|lia|done|done].
Qed.

Lemma revoke_spec id s : ring_ok s → let s' := snd (crypto_revoke_key id s) in
  ring_ok s' ∧ kcount s' = kcount s ∧ g_keyring_initialized s' = g_keyring_initialized s ∧
  (∀ i, 0 ≤ i < kcount s → key_id (ring_entry s' i) = key_id (ring_entry s i) ∧ revoked (ring_entry s' i) = revoked (ring_entry s i) || (key_id (ring_entry s i) =? id)) ∧
  (fst (crypto_revoke_key id s) = 0 → ∃ i, 0 ≤ i < kcount s ∧ key_id (ring_entry s i) = id).
Proof.
  intros Hok. pose proof Hok as [Hl Hc Hk Hi]. unfold crypto_revoke_key. destruct (revoke_from_spec (Z.to_nat (kcount s)) 0 id (keys s)) as [[-> H]|(j & Hj & Ej & ->)]; [lia|lia| |]; cbn [fst snd].
  - cbv zeta. split_and!; try done. intros i Hlt. change (ring_entry (set_keys (keys s) (kcount s) s) i) with (ring_entry s i). split; [done|]. rewrite (proj2 (Z.eqb_neq _ _)); [by rewrite orb_false_r|]. apply H. lia.
  - set (s' := set_keys _ _ s).
    assert (He : ∀ i, 0 ≤ i → ring_entry s' i = if decide (i = j) then Entry id (key (ring_entry s j)) true else ring_entry s i) by (intros i Hi0; apply ring_entry_insert; [lia|done|lia|lia]).
    assert (Hid : ∀ i, 0 ≤ i → key_id (ring_entry s' i) = key_id (ring_entry s i)) by (intros i Hi0; rewrite He by done; case_decide; [subst i; by rewrite <- Ej|done]).
    split_and!; [split|done|done| |intros _; exists j; split; [lia|done]].
    + cbn. by rewrite length_insert.
    + done.
    + cbn. apply Forall_insert; [done|]. apply (Forall_lookup_total_1 (λ e, key_ok (key e)) (keys s)); [done|lia].
    + intros i i' H1 H2. change (kcount s') with (kcount s) in *. rewrite !Hid by lia. by apply Hi.
    + intros i Hlt. split; [apply Hid; lia|]. rewrite He by lia. case_decide as E; cbn [revoked].
      * subst i. change (key_id (ring_entry s j)) with (key_id (keys s !!! Z.to_nat j)). rewrite Ej, Z.eqb_refl. by rewrite orb_true_r.
      * rewrite (proj2 (Z.eqb_neq _ _)); [by rewrite orb_false_r|]. intros Ei. apply E, Hi; [lia|lia|]. by rewrite Ei.
Qed.

Lemma ring_ok_flags s b c : ring_ok s → ring_ok (Crypto (keys s) (kcount s) b c).
Proof. intros [H1 H2 H3 H4]. by split. Qed.

Lemma keyring_init_spec s : ring_ok s → ring_ok (crypto_init_keyring s).
Proof.
  intros Hok. unfold crypto_init_keyring. destruct (g_keyring_initialized s); [done|]. cbv zeta. set (l := iterate _ _ _ _).
  assert (Hl : length l = 16%nat ∧ Forall (λ e, key_ok (key e)) l).
  { apply (for_ind (λ _ l, length l = 16%nat ∧ Forall (λ e, key_ok (key e)) l)); [done|split; apply Hok|]. intros j k Hj [H1 H2]. rewrite length_insert. split; [done|].
    apply Forall_insert; [done|]. apply (Forall_lookup_total_1 (λ e, key_ok (key e)) k); [done|unfold MAX_TRUSTED_KEYS in Hj; lia]. }
  destruct (ring_add_spec 1 g_root_key (set_keys l 0 s)) as (Hr & _); [|exact zeros_ok|].
  - destruct Hl as [H1 H2]. split; cbn; try done; lia.
  - by apply ring_ok_flags.
Qed.

Lemma crypto_step_ok s s' : ring_ok s → crypto_step s s' → ring_ok s'.
Proof.
  intros Hok Hs. destruct Hs as [|id k Hk|id|b]; [by apply keyring_init_spec|by apply (ring_add_spec id k s)|by apply (revoke_spec id s)|by apply ring_ok_flags].
Qed.

Lemma reachable_ring s : crypto_reachable s → ring_ok s.
Proof.
  intros Hr. unfold crypto_reachable in Hr. remember crypto_power_on as s0 eqn:E0. assert (H0 : ring_ok s0).
  { subst s0. split; [done|cbn; lia| |cbn; lia]. apply Forall_replicate. exact zeros_ok. }
  clear E0. induction Hr as [s|s0 s1 s Hs _ IH]; [done|]. apply IH. by eapply crypto_step_ok.
Qed.

Lemma get_from_spec n i id l k : 0 ≤ i → get_from n i id l = Some k → ∃ j, i ≤ j < i + Z.of_nat n ∧ l !!! Z.to_nat j = Entry id k false.
Proof.
  revert i. induction n as [|n IH]; intros i Hi; cbn [get_from]; [done|]. destruct (l !!! Z.to_nat i) as [id' k' b] eqn:E. cbn [key_id key revoked].
  destruct (Z.eqb_spec id' id) as [->|]; destruct b; cbn [negb andb]; intros H; try (destruct (IH (i + 1) ltac:(lia) H) as (j & Hj & Ej); exists j; split; [lia|done]).
  injection H as ->. exists i. split; [lia|done].
Qed.

Lemma get_from_none n i id l j k : 0 ≤ i ≤ j → j < i + Z.of_nat n → l !!! Z.to_nat j = Entry id k false → get_from n i id l ≠ None.
Proof.
  revert i. induction n as [|n IH]; intros i Hi Hj Ej; [lia|]. cbn [get_from]. destruct (decide (i = j)) as [->|]; [by rewrite Ej; cbn; rewrite Z.eqb_refl|].
  case_match; [done|]. apply IH; [lia|lia|done].
Qed.

Lemma get_trusted_spec id s k : ring_ok s → crypto_get_trusted_key id s = Some k ↔ trusted s id k.
Proof.
  intros Hok. pose proof (ring_count s Hok). unfold crypto_get_trusted_key. split.
  - intros H1. apply get_from_spec in H1 as (j & Hj & Ej); [|lia]. exists j. split; [lia|done].
  - intros (j & Hj & Ej). destruct (get_from _ _ _ _) as [k'|] eqn:E; [|exfalso; revert E; apply (get_from_none _ _ _ _ j k); [lia|lia|done]].
    apply get_from_spec in E as (j' & Hj' & Ej'); [|lia]. assert (j' = j) as ->; [|unfold ring_entry in Ej; congruence].
    apply (ring_ids s Hok); [lia|lia|]. change (ring_entry s j') with (keys s !!! Z.to_nat j'). by rewrite Ej, Ej'.
Qed.

Lemma trusted_key_ok s id k : ring_ok s → trusted s id k → key_ok k.
Proof.
  intros [Hl Hc Hk _] (i & Hi & E). change k with (key (Entry id k false)). rewrite <- E. apply (Forall_lookup_total_1 (λ e, key_ok (key e)) (keys s)); [done|lia].
Qed.

(** Once a key has been revoked, nothing makes it trusted again. *)
Theorem revoked_key_never_trusted s s1 s' id : crypto_reachable s → g_keyring_initialized s = true → crypto_revoke_key id s = (0, s1) → rtc crypto_step s1 s' →
  ∀ k, ¬ trusted s' id k.
Proof.
  intros Hr Hi E Hs. apply reachable_ring in Hr. pose proof (revoke_spec id s Hr) as (Hr1 & Hc1 & Hi1 & He1 & Hx). rewrite E in *. cbn [fst snd] in *. destruct Hx as (i & Hlt & Eid); [done|].
  assert (H1 : ring_ok s1 ∧ g_keyring_initialized s1 = true ∧ ∃ i, 0 ≤ i < kcount s1 ∧ key_id (ring_entry s1 i) = id ∧ revoked (ring_entry s1 i) = true).
  { split_and!; [done|congruence|]. exists i. destruct (He1 i Hlt) as [-> ->]. rewrite Eid, Z.eqb_refl, orb_true_r. split_and!; [lia|lia|done|done]. }
  clear -H1 Hs. induction Hs as [s|s s2 s' Hst _ IH].
  { destruct H1 as (Hr & _ & i & Hlt & Eid & Er). intros k (j & Hj & Ej). assert (j = i) as -> by (apply (ring_ids s Hr); [done|done|by rewrite Ej]). by rewrite Ej in Er. }
  apply IH. clear IH. destruct H1 as (Hr & Hi & i & Hlt & Eid & Er). split; [by eapply crypto_step_ok|]. destruct Hst as [|id' k Hk|id'|b].
  - unfold crypto_init_keyring. rewrite Hi. split; [done|]. by exists i.
  - destruct (ring_add_spec id' k s Hr Hk) as (_ & H1 & H2 & H3). split; [by rewrite H2|]. exists i. rewrite H3 by done. split_and!; [lia|lia|done|done].
  - destruct (revoke_spec id' s Hr) as (_ & H1 & H2 & H3 & _). split; [by rewrite H2|]. exists i. destruct (H3 i Hlt) as [-> ->]. rewrite H1, Er. split_and!; (lia || done).
  - split; [done|]. by exists i.
Qed.

(** ** Modules *)

Lemma read_signature_ok l : length l = 568%nat → Forall byte l → sig_ok (signature (read_signature l)) ∧ length (sig_hash (read_signature l)) = 32%nat.
Proof.
  intros Hl Hb. cbn [read_signature signature sig_hash]. split; [split; cbn [sig_data]|].
  - rewrite length_take, length_drop. lia.
  - by apply Forall_take, Forall_drop.
  - rewrite length_take, length_drop. lia.
Qed.

(** A module is its code and a block that vouches for it under a trusted key. *)
Definition well_signed (s : crypto_state) (m : list Z) : Prop :=
  ∃ code block k, m = code ++ block ∧ length block = 568%nat ∧ trusted s (sig_key_id (read_signature block)) k ∧ vouches (read_signature block) code k.

Lemma module_verify_spec g s m : ring_ok s → length (buffer g) = 64%nat → Forall byte m →
  ∃ r, module_verify_signature g s (Some m) = Some r ∧ (r = 0 ∨ r = -1) ∧ (r = 0 ↔ well_signed s m).
Proof.
  intros Hok Hg Hm. unfold module_verify_signature, extract_module_signature, MODULE_SIG_SIZE. change (5 * 4 + 32 + 4 + 512) with 568. change (Z.to_nat 568) with 568%nat.
  destruct (Z.ltb_spec (Z.of_nat (length m)) 568) as [Hs|Hs].
  { exists (-1). split_and!; [done|by right|]. split; [done|]. intros (c & b & k & -> & Hb & _). rewrite length_app in Hs. lia. }
  set (n := (length m - 568)%nat). assert (Hb : length (drop n m) = 568%nat) by (rewrite length_drop; lia).
  assert (Hw : well_signed s m ↔ ∃ k, trusted s (sig_key_id (read_signature (drop n m))) k ∧ vouches (read_signature (drop n m)) (take n m) k).
  { split.
    - intros (c & b & k & -> & Hlb & Ht & Hv). assert (n = length c) as -> by (unfold n; rewrite length_app; lia). rewrite drop_app_length, take_app_length. by exists k.
    - intros (k & Ht & Hv). exists (take n m), (drop n m), k. by rewrite take_drop. }
  destruct (Z.eqb_spec (magic (read_signature (drop n m))) SIGNATURE_MAGIC) as [E|E]; cbn [negb].
  2:{ exists (-1). split_and!; [done|by right|]. rewrite Hw. split; [done|]. by intros (k & _ & ? & _). }
  destruct (crypto_get_trusted_key _ s) as [k|] eqn:Ek.
  - apply get_trusted_spec in Ek; [|done]. destruct (read_signature_ok (drop n m) Hb) as [H1 H2]; [by apply Forall_drop|].
    rewrite verify_signed_data_spec; [|done|by apply Forall_take|by eapply trusted_key_ok|done|done]. eexists. split; [reflexivity|]. rewrite Hw. case_bool_decide as Hv.
    + split; [by left|]. split; [intros _; by exists k|done].
    + split; [by right|]. split; [done|]. intros (k' & Ht & Hv'). destruct Hv. apply get_trusted_spec in Ek, Ht; [|done|done]. congruence.
  - exists (-1). split_and!; [done|by right|]. rewrite Hw. split; [done|]. intros (k & Ht & _). apply get_trusted_spec in Ht; [congruence|done].
Qed.

(** C39: Whatever keys have been added and revoked, a module is accepted if and only if
    its last 568 bytes are a block with magic number SIGNATURE_MAGIC, version 1,
    hash algorithm 1 and signature algorithm 1 or 2, the SHA-256 hash of the bytes
    before it, the identifier of a key that is in the ring and not revoked, and a
    signature that the check of [rsa.c] accepts for that hash under that key
    ([accepts]): the key has 2048 or 4096 bits and exponent 65537, the signature
    has as many bytes as the key and is below the modulus, and the value recovered
    from it is the PKCS#1 encoding of the hash.  The recovered value is the one
    [rsa_verify_simple] computes, with digit-wise squares and a truncated product
    ([recovered]), not the 65537th power modulo the modulus.  The check always
    ends, and otherwise the result is -1. *)
Theorem module_signature_exact g s m : crypto_reachable s → length (buffer g) = 64%nat → Forall byte m →
  ∃ r, module_verify_signature g s (Some m) = Some r ∧ (r = 0 ∨ r = -1) ∧ (r = 0 ↔ well_signed s m).
Proof. intros Hs Hg Hm. apply module_verify_spec; [by apply reachable_ring|done|done]. Qed.

(** ** A signature for every key *)

(** Carries propagated through a list of digits. *)
Fixpoint norm (l : list Z) : list Z * Z :=
  match l with
  | [] => ([], 0)
  | v :: l => let '(r, c) := norm l in ((v + c) mod 256 :: r, (v + c) / 256)
  end.
Definition square_list (l : list Z) : list Z := fst (norm ((λ d, d * d) <$> l)).

Lemma norm_spec l : let '(r, c) := norm l in bytes (length l) r ∧ be_val r + c * 256 ^ Z.of_nat (length l) = be_val l.
Proof.
  induction l as [|v l IH]; cbn [norm]; [by repeat split|]. destruct (norm l) as [r c]. destruct IH as [[Hl Hb] E]. split.
  - split; [cbn; lia|]. constructor; [apply Z.mod_pos_bound; lia|done].
  - rewrite !be_val_cons, Hl. cbn [length]. rewrite Nat2Z.inj_succ, Z.pow_succ_r by lia. pose proof (Z.div_mod (v + c) 256). nia.
Qed.

Lemma square_list_spec n l : bytes n l → bytes n (square_list l) ∧ be_val (square_list l) = digit_squares n (be_val l).
Proof.
  intros Hl. unfold square_list, digit_squares. rewrite be_bytes_val by done. pose proof (norm_spec ((λ d, d * d) <$> l)) as H. destruct (norm _) as [r c]. destruct Hl as [Hl _].
  rewrite length_fmap, Hl in H. destruct H as [Hr E]. split; [done|]. by apply (digits_mod n r _ c).
Qed.

(** The first digit stays below 128 in all of [k] squarings. *)
Fixpoint stays_low (k : nat) (l : list Z) : bool :=
  (at_ l 0 <? 128) && match k with O => true | S k => stays_low k (square_list l) end.

Lemma low_value n l m : bytes (S n) l → at_ l 0 < 128 → 128 * 256 ^ Z.of_nat n ≤ m → be_val l < m.
Proof.
  intros [Hl Hb] H Hm. destruct l as [|x l]; [done|]. apply Forall_cons in Hb as [_ Hb]. change (at_ (x :: l) 0) with x in H. rewrite be_val_cons. pose proof (be_val_range l Hb) as Hr.
  cbn [length] in Hl. assert (El : length l = n) by lia. rewrite El in *. pose proof (Z.mul_le_mono_nonneg_r x 127 (256 ^ Z.of_nat n) ltac:(lia) ltac:(lia)). lia.
Qed.

Lemma squarings_low k n l m : bytes (S n) l → stays_low k l = true → 128 * 256 ^ Z.of_nat n ≤ m →
  Nat.iter k (λ t, digit_squares (S n) t mod m) (be_val l) = be_val (Nat.iter k square_list l).
Proof.
  intros Hl Hlow Hm. revert l Hl Hlow. induction k as [|k IH]; intros l Hl Hlow; [done|]. cbn [stays_low] in Hlow. apply andb_true_iff in Hlow as [_ Hlow].
  destruct (square_list_spec (S n) l Hl) as [Hs Es]. rewrite !Nat.iter_succ_r, <- Es. rewrite Z.mod_small; [by apply IH|]. split; [apply (be_val_bytes (S n)); done|].
  apply (low_value n); [done| |done]. destruct k; cbn [stays_low] in Hlow; apply andb_true_iff in Hlow as [Hlow _]; by apply Z.ltb_lt.
Qed.

(** Twelve bytes of code, and 256 bytes found by a search that does not involve a
    key. *)
Definition forged_code : list Z := [109; 111; 100; 117; 108; 101; 32; 53; 56; 55; 53; 56].
Definition forged_hash : list Z :=
  [240; 54; 171; 181; 89; 143; 201; 99; 110; 96; 63; 33; 41; 1; 66; 246; 107; 234; 176; 186; 211; 16; 223; 178; 39; 87; 195; 57; 234; 36; 212; 131].
Definition forged_signature : list Z :=
  [105; 112; 179; 232; 62; 56; 188; 49; 179; 87; 21; 143; 104; 65; 252; 15; 58; 55; 201; 7; 102; 189; 197; 197; 116; 96; 209; 50; 175; 231; 252; 67;
   90; 16; 243; 62; 174; 180; 165; 50; 179; 205; 209; 167; 218; 88; 153; 158; 205; 243; 191; 173; 131; 47; 18; 139; 194; 0; 124; 54; 195; 2; 206; 52;
   126; 66; 235; 222; 154; 224; 228; 225; 212; 63; 96; 120; 22; 253; 146; 154; 211; 50; 113; 176; 146; 31; 160; 90; 142; 98; 31; 122; 111; 205; 211; 193;
   242; 40; 125; 80; 68; 90; 152; 66; 22; 176; 117; 17; 7; 44; 3; 184; 232; 60; 162; 230; 215; 6; 67; 175; 87; 177; 124; 240; 5; 110; 146; 241;
   182; 206; 17; 47; 68; 54; 201; 209; 211; 62; 179; 46; 33; 195; 178; 27; 135; 91; 219; 79; 85; 47; 10; 117; 134; 158; 66; 171; 121; 19; 45; 77;
   67; 61; 55; 57; 139; 145; 117; 93; 133; 128; 75; 252; 50; 219; 238; 13; 222; 79; 191; 107; 138; 47; 59; 169; 61; 170; 69; 202; 216; 40; 221; 69;
   177; 177; 105; 235; 25; 119; 30; 46; 192; 85; 168; 209; 110; 153; 224; 223; 64; 92; 230; 205; 43; 84; 156; 238; 251; 201; 133; 39; 66; 11; 77; 114;
   198; 204; 146; 240; 190; 76; 115; 119; 45; 49; 191; 204; 167; 102; 231; 253; 109; 226; 76; 111; 75; 219; 241; 244; 103; 55; 129; 104; 5; 80; 81; 131].
Definition forged_block (id : Z) : list Z :=
  le_bytes 4 SIGNATURE_MAGIC ++ le_bytes 4 1 ++ le_bytes 4 1 ++ le_bytes 4 1 ++ le_bytes 4 id ++ forged_hash ++ le_bytes 4 256 ++ forged_signature ++ replicate 256 0.
Definition forged_module (id : Z) : list Z := forged_code ++ forged_block id.

Lemma forged_hash_ok : SHA256 forged_code = forged_hash.
Proof. vm_compute. reflexivity. Qed.

Lemma forged_low : stays_low 16 forged_signature = true.
Proof. vm_compute. reflexivity. Qed.

Lemma forged_product : Z.land (be_val forged_signature * be_val (Nat.iter 16 square_list forged_signature)) (Z.ones 2048) = be_val (encode 256 forged_hash).
Proof. vm_compute. reflexivity. Qed.

Lemma forged_bytes : bytes 256 forged_signature.
Proof. split; [done|]. apply Forall_forall. intros x Hx. assert (H : forallb (λ b, (0 <=? b) && (b <? 256)) forged_signature = true) by (vm_compute; reflexivity).
  rewrite forallb_forall in H. apply list_elem_of_In, H in Hx. unfold byte. lia.
Qed.

Lemma forged_accepts k size_field : key_ok k → bits k = 2048 → rsa_e k = 65537 → 128 ≤ at_ (rsa_n k) 0 → size_field = 256 →
  accepts k forged_hash (RsaSig size_field (forged_signature ++ replicate 256 0)).
Proof.
  intros [Hl Hb] Hbits He Htop ->. unfold accepts. cbn [size sig_data]. rewrite Hbits. change (2048 / 8) with 256. change (Z.to_nat 256) with 256%nat. cbv zeta.
  rewrite take_app_length' by done. set (m := be_val (take 256 (rsa_n k))).
  assert (Hm : 128 * 256 ^ Z.of_nat 255 ≤ m).
  { unfold m. destruct (rsa_n k) as [|x l] eqn:E; [done|]. change (at_ (x :: l) 0) with x in Htop. change (take 256 (x :: l)) with (x :: take 255 l). apply Forall_cons in Hb as [_ Hb].
    cbn [length] in Hl. rewrite be_val_cons, length_take. replace (255 `min` length l)%nat with 255%nat by lia. pose proof (be_val_range (take 255 l) (Forall_take _ _ _ Hb)).
    pose proof (Z.mul_le_mono_nonneg_r 128 x (256 ^ Z.of_nat 255) ltac:(apply Z.pow_nonneg; lia) Htop). lia. }
  pose proof (low_value 255 forged_signature m forged_bytes ltac:(vm_compute; reflexivity) Hm) as Hx. split_and!; [by left|done|done|done|].
  unfold recovered. rewrite (squarings_low 16 255 forged_signature m forged_bytes forged_low Hm).
  replace (256 ^ Z.of_nat 256) with (2 ^ 2048) by (change 256 with (2 ^ 8) at 1; rewrite <- Z.pow_mul_r by lia; done). rewrite <- Z.land_ones by lia. rewrite forged_product.
  apply Z.mod_small. split; [apply (be_val_bytes 256), encode_bytes; [lia|rewrite <- forged_hash_ok; apply SHA256_bytes]|].
  apply (low_value 255); [apply encode_bytes; [lia|rewrite <- forged_hash_ok; apply SHA256_bytes]|vm_compute; reflexivity|done].
Qed.

Lemma forged_module_bytes id : Forall byte (forged_module id).
Proof.
  unfold forged_module, forged_block. repeat (apply Forall_app; split); try apply byte_zeros; try apply forged_bytes; try apply le_bytes_byte; try (rewrite <- forged_hash_ok; apply SHA256_bytes).
  repeat (constructor; [unfold byte; lia|]). apply Forall_nil_2.
Qed.

(** C40: There are twelve bytes of code and a signature that [rsa.c] accepts under
    every key of 2048 bits with the exponent 65537, so that the module is accepted
    as soon as any such key is trusted: the arithmetic is not that of RSA, and a
    signature can be made without the private key. *)
Theorem forged_module_accepted g s id k : crypto_reachable s → length (buffer g) = 64%nat → 0 ≤ id < 2 ^ 32 →
  trusted s id k → bits k = 2048 → rsa_e k = 65537 → 128 ≤ at_ (rsa_n k) 0 →
  module_verify_signature g s (Some (forged_module id)) = Some 0.
Proof.
  intros Hs Hg Hid Ht Hbits He Htop. apply reachable_ring in Hs.
  destruct (module_verify_spec g s (forged_module id) Hs Hg (forged_module_bytes id)) as (r & -> & _ & H). f_equal. apply H. exists forged_code, (forged_block id), k.
  assert (Er : read_signature (forged_block id) = SigHeader SIGNATURE_MAGIC 1 1 1 id forged_hash (RsaSig 256 (forged_signature ++ replicate 256 0))).
  { transitivity (SigHeader SIGNATURE_MAGIC 1 1 1 (le_val (le_bytes 4 id)) forged_hash (RsaSig 256 (forged_signature ++ replicate 256 0))); [reflexivity|]. by rewrite le_val_bytes. }
  rewrite Er. split_and!; [done|done|done|]. unfold vouches. cbn [magic version hash_algo sig_algo sig_hash signature]. rewrite forged_hash_ok. split_and!; [done|done|done|by left|done|].
  apply forged_accepts; [by eapply trusted_key_ok|done|done|done|done].
Qed.

(** ** Concrete instances *)

Definition sample_key : rsa_public_key := RsaKey 2048 65537 (128 :: replicate 511 1).
Definition sample_ring : crypto_state := snd (crypto_add_trusted_key 7 (Some sample_key) (crypto_init_keyring crypto_power_on)).
Definition sample_ctx : sha256_ctx := Ctx [] 0 (replicate 64 0).

Lemma sample_key_ok : key_ok sample_key.
Proof. split; [done|]. constructor; [unfold byte; lia|]. apply Forall_replicate. unfold byte; lia. Qed.

Lemma sample_reachable : crypto_reachable sample_ring.
Proof.
  unfold crypto_reachable, sample_ring. apply (rtc_r _ (crypto_init_keyring crypto_power_on)); [apply rtc_once, step_init|].
  apply (step_add (crypto_init_keyring crypto_power_on) 7 sample_key), sample_key_ok.
Qed.

Lemma sample_trusted : trusted sample_ring 7 sample_key.
Proof. exists 1. split; [split; vm_compute; [discriminate|reflexivity]|vm_compute; reflexivity]. Qed.

Lemma forged_module_accepted_witness : module_verify_signature sample_ctx sample_ring (Some (forged_module 7)) = Some 0.
Proof. apply (forged_module_accepted sample_ctx sample_ring 7 sample_key sample_reachable); [reflexivity|lia|exact sample_trusted|reflexivity|reflexivity|vm_compute; discriminate]. Defined.

Lemma module_signature_exact_witness : ∃ r, module_verify_signature sample_ctx sample_ring (Some (forged_module 7)) = Some r ∧ (r = 0 ∨ r = -1) ∧ (r = 0 ↔ well_signed sample_ring (forged_module 7)).
Proof.
  apply (module_signature_exact sample_ctx sample_ring (forged_module 7) sample_reachable); [reflexivity|exact (forged_module_bytes 7)].
Defined.

(** The built-in key has a modulus of zero, and no signature is smaller. *)
Lemma root_key_accepts_nothing hash s : bytes 512 (sig_data s) → ¬ accepts g_root_key hash s.
Proof.
  intros [Hl Hb] (_ & _ & _ & Hlt & _). cbn [g_root_key bits rsa_n] in Hlt. change (Z.to_nat (RSA_2048_BITS / 8)) with 256%nat in Hlt. revert Hlt.
  change (be_val (take 256 (replicate 512 0))) with 0. pose proof (be_val_bytes 256 (take 256 (sig_data s)) (bytes_take 256 (sig_data s) ltac:(lia) Hb)). lia.
Qed.

End SignatureProps.
